(* ===== verification/_CoqProject ===== *)
-Q . S2P
Prelude.v
BufferStore.v
BufferInt.v
JsString.v
Base64Js.v
BufferCodec.v
BufferText.v
BufferIndex.v
JsRegex.v
JsNumber.v
JsArith.v
BufferFloat.v
BufferFloatLaws.v
BufferFloatWrite.v
YamlValue.v
YamlTypes.v
YamlSchema.v
YamlTypeLaws.v
YamlBinary.v
YamlTimestamp.v
YamlLoader.v
YamlMapping.v
YamlDumper.v
YamlScalars.v
YamlRoundTrip.v
YamlEdge.v
YamlTotal.v
YamlMark.v
UriCodec.v
SuiUrl.v
SuiHighlight.v
SuiImm.v
SuiSpec.v
SuiSpecLaws.v
SuiErr.v
SuiValidator.v
SuiBounds.v
SuiParams.v
SuiValidation.v
SuiAuth.v
SuiForm.v
SuiSample.v
SuiSampleLaws.v
SuiTags.v
SuiOas3.v
SuiCurl.v
JsJson.v
SuiActions.v
SuiRequest.v
SuiEdit.v
SuiResolve.v
SuiDownload.v
SuiDownloadLaws.v
SuiOauth.v
SuiOauthLaws.v
SuiSecurity.v
SuiLayout.v
SuiPlugins.v
SuiTrees.v
SuiPluginLaws.v
SuiConfig.v
SuiXml.v
SuiXmlLaws.v
CoreMicrotask.v
CorePromise.v
CorePromiseLaws.v
CorePromiseLive.v
LodashDebounce.v
