(* ===== verification/Prelude.v ===== *)
(** * A verification of the JavaScript shipped with the Shentu light client

    The repository serves its REST documentation through Swagger UI; the
    JavaScript it ships is [src/client/lcd/swagger-ui/swagger-ui.js] (and a
    bundle of packages beside it).  Three parts of that file compute rather than
    render, and are modelled here: the [Buffer] of Node (typed arrays, integers,
    text encodings), js-yaml (the YAML loader and dumper, which read and write a
    specification), and the logic of Swagger UI itself: its utilities, the
    reducers and selectors of its plugins (spec, err, auth, layout, configs and
    OpenAPI 3) and the actions that download, parse and resolve a document, execute
    a request and authorize, the validation of parameters, the generation of samples
    and the curl command of a request, with the plugin system that holds it
    together, and the page the authorization server redirects to.  The
    Promise of core-js and lodash's [debounce], which it runs on, are modelled too.
    base64-js and ieee754, which [Buffer] calls, deep-extend, which plugins are merged with,
    and the Immutable collections, which the store keeps its state in, are taken
    from the bundle.

    ** How the parts interact

    A specification is text, downloaded or typed; [parseToJson] parses it with
    [safeLoad], and [UPDATE_JSON] puts the value in the state of the spec plugin.
    References in it are resolved in batches, by a debounced call.  The page shows
    the specification through the selectors, with samples from [sampleFromSchema].
    A user types values ([UPDATE_PARAM]), the store validates them
    ([VALIDATE_PARAMS], which calls [validateParam]), [validateBeforeExecute] allows
    the request, and [execute] builds it from [parameterValues], records it and the
    answer.  Authorization opens a window; the redirect page hands the answer of the
    server to an action of the auth plugin.  [btoa], which the auth plugin
    writes its headers with, is [Buffer] writing base64.  What goes wrong becomes
    an entry of the err plugin.

    ** Conventions

    Code that mutates is a state and error monad [M S A]: a run returns ([Done]),
    throws ([Raise], with the state at the throw) or runs out of fuel ([NoFuel]).
    Reducers and selectors do not mutate: they return [js_error + A].
    Loops whose recursion is not structural take fuel; the entry points supply a
    bound on the number of iterations (the length of the input and one more), and
    theorems conclude [Done], so fuel never makes one vacuous.  Numbers used as
    bytes, indices and 32-bit words are [Z] with the wrap-around of the language
    written out ([toInt32], [js_and], [js_shl], ...); numbers that are values
    are IEEE doubles ([JsNumber.num]).  Strings are lists of UTF-16 code units,
    [charCodeAt] out of range being -1 for NaN.  Objects live in a heap (a store of
    ArrayBuffers for [Buffer], a list of objects for YAML), so aliasing is visible;
    the values of the store are immutable and are trees ([SuiImm.jv]).  The comment
    of a theorem states its conditions: the names, texts and schemas it is about.

    ** Files: Buffer

    - [Prelude]: the monad, 32-bit operations, shared tactics and list lemmas.
    - [BufferStore]: ArrayBuffers, views, [slice], [copy], [concat], [compare],
      [equals], [swap16/32/64] (swagger-ui.js, lines 11860 to 13080).
    - [BufferInt]: the integer readers and writers; [IntCodecLaws] is the interface
      every writer and reader pair satisfies.
    - [BufferCodec]: encodings, [write], [toString], construction from strings,
      arrays and objects, [fill], [alloc], [inspect], [toJSON].  It uses base64
      through the class [Base64]; [BufferText] states what text survives,
      [BufferIndex] searching, [concat] and [fill].
    - [JsString], [JsRegex], [JsNumber]: what the sources use of strings, regular
      expressions (matching by derivatives) and numbers.
    - [JsArith]: the arithmetic of doubles, exact and rounded once; [BufferFloat]: the
      readers and writers of singles and doubles with the package ieee754 of the
      bundle; [BufferFloatLaws] and [BufferFloatWrite] prove them.  What the package
      needs of [Math.log] is the class [MathLogLaws].
    - [Base64Js]: base64-js, with the laws [Base64Laws] that [BufferText] relies on.

    ** Files: js-yaml

    - [YamlValue]: values, heap, own properties, js-yaml's common.js.
    - [YamlTypes]: the sixteen types: resolve, construct, represent.  [RegExp] and
      [Function] construction and the parser esprima are the class [JsEngine].
    - [YamlSchema]: schema compilation and the five schemas.
    - [YamlLoader]: the loader, reader by reader, from [loadDocuments] down to the
      characters; [composeNode] recurses on fuel, each reader taking the recursive
      call as an argument.  The text of a key that is an object is what its own or an
      inherited [toString] or [valueOf] gives, and a key [__proto__] sets a
      prototype; the functions that are called then, and how inherited setters
      behave, are the record [runtime], or [builtins] for the safe schema.
    - [YamlDumper]: the dumper, from [dump] to the scalar styles.
    - [YamlTypeLaws], [YamlBinary], [YamlTimestamp]: what the types write they read.
    - [YamlMapping]: explicit and merge keys, duplicates.
    - [YamlScalars], [YamlRoundTrip]: quoted scalars anywhere, and a dumped string
      loaded as a document.
    - [YamlEdge]: documents on which the code does not do what it means to.
    - [YamlTotal]: the loader ends on every input.
    - [YamlMark]: the snippet and position in the text of an error.

    ** Files: Swagger UI

    - [UriCodec]: [encodeURIComponent] and [decodeURIComponent].
    - [SuiUrl]: [parseSearch], [serializeSearch], [buildFormData], the deep links, and
      the percent-encoding of the hash by the browser ([setHash]).
    - [SuiHighlight]: the syntax highlighter, as the spans it creates.
    - [SuiImm]: plain values and Immutable Maps and Lists, [getIn], [setIn],
      [deleteIn], [merge], [fromJS], and their laws.
    - [SuiSpec]: every reducer of the spec plugin and most of its selectors;
      [SuiSpecLaws] is the invariant of its state, [SuiParams] and [SuiValidation]
      follow a parameter from the form to the request.
    - [JsJson]: [JSON.parse], with what [JSON.stringify] writes read back.
    - [SuiActions]: the actions and wrapped actions of the spec plugin on the states of
      the plugins they use ([system]): parsing, executing a request, its answer.
      swagger-client, url-parse and serialize-error are the class [Client].  A parsed
      value is unfolded from the heap to a tree ([data_of]); one that contains itself
      is not stored, and Immutable refuses one with a Buffer that has a byte other than
      0 ([fromJSOrdered], with the iteration of other objects in the class [Host]).
      [SuiRequest] follows a request, [SuiEdit] the errors of a document that is
      edited.
    - [SuiResolve]: the batch of subtrees to resolve, as a state machine of requests,
      debounced calls and answers, with lodash's [set].
    - [SuiDownload]: the download-url plugin, the answer to a request for a configuration,
      what a started page loads; what the browser knows of URLs is the class
      [Browser].  [SuiDownloadLaws] refines it to an abstract page.
    - [SuiConfig]: the defaults of [SwaggerUI] and the merging of the configurations on
      the heap, by the trees of [SuiTrees].
    - [SuiOauth]: the authorization URL, the redirect page ([oauth2-redirect.html]), the
      token request and how its promise settles; [SuiOauthLaws] follows a grant.
    - [SuiSecurity]: the selectors the OpenAPI 3 plugin wraps, the schemes to authorize,
      the securities of a request.
    - [SuiTags]: the selectors that group operations by tag, with their sorters.
    - [SuiOas3]: the OpenAPI 3 plugin; servers with variables as templates.
    - [SuiLayout]: the layout and configs plugins.
    - [SuiCurl]: the curl command, and a reading of it by the rules of a shell.
    - [SuiErr]: the err plugin with its transformers.
    - [SuiValidator]: [validateParam] and its validators; what it needs of
      [Date.parse] and [RegExp] is the class [Engine].  [SuiBounds] states what
      the validators accept.
    - [SuiAuth]: the auth plugin; [SuiForm] decodes the requests it builds.
    - [SuiSample]: [sampleFromSchema] with [inferSchema] and the primitive samples;
      [SuiSampleLaws] states what the samples are.
    - [SuiPlugins]: the plugin system ([Store] of core/system.js): loading on the heap
      of the objects the plugins are, with the package deep-extend, and the bound
      and wrapped actions and selectors.  [SuiTrees] reads heap objects as trees
      with footprints and refines [deepExtend] to a merge of trees;
      [SuiPluginLaws] states what a loaded system holds.
    - [SuiXml]: [sampleXmlFromSchema], [createXMLExample] and the XML branch of
      [getSampleSchema], on the heap of the schema they write into; [SuiXmlLaws]
      types that heap by kinds of objects.

    ** Files: what Swagger UI runs on

    - [CoreMicrotask]: the queue of microtasks of core-js, a linked list.
    - [CorePromise]: its Promise as a state machine: promises, wrappers, reactions, the
      loop of [notify] step by step, tasks for unhandled rejections; the code of
      the page is any program of promise operations.  [CorePromiseLaws] is the
      invariant, [CorePromiseLive] the work left and what follows.
    - [LodashDebounce]: lodash's [debounce] with its timers.

    ** What the theorems show

    Buffer: text and bytes survive each other in every encoding; integers are
    written exactly, read back, rejected out of range, and the unrolled and the
    fallback methods agree with the generic ones; [slice] aliases, [copy] is a
    block move, [compare] a lexicographic total order, searches find the first and
    last occurrence; numbers of the single and double format are written as their
    IEEE 754 bytes and read back.

    YAML: loading ends on every input under every option, where the functions of the
    document that it calls return; every string dumped in a
    plain or quoted style is loaded back, under every dump option; quoted forms are
    read back anywhere in any document; integers in every style, binaries that are
    not empty and timestamps are read back; schemas let the last declaration win;
    explicit keys win over merged ones, of which the first wins, and repeated ones
    are errors without the option json; the excerpt of an error is a part of one
    line of the input with a caret under the position.

    Swagger UI: the states of the spec and err plugins keep their form under any
    sequence of actions; loading documents, with answers in any order, refines a
    page of requests, URL, status, text and document; while a document is edited, text,
    document and errors of the parser agree; a plain value of the configuration is
    the one of the source that comes first; a batch of subtrees is resolved to
    its places; the value typed for a parameter is in the request that is executed,
    and the answer is the one shown; the request is allowed exactly when no parameter has an error; bounds on integers
    are exact; the authorization server is asked what the form says, what it
    answers in the hash is stored, with a warning exactly when the state is another, and every
    token request ends with a token in the state or one more error shown; credentials reach the token request as typed, a basic header
    decodes to them, a logout forgets the schemes it names; query strings are read
    back, deep links exactly when the browser encodes none of the characters of their
    names and none is an underscore; highlighting keeps the
    text; samples end and have the type of their schema; every operation is shown
    under exactly its tags; the URL of a server refines the instantiation of its
    template (a simulation over sequences of actions); a shell reads the curl
    command as the request; loading plugins keeps the wrappers of an action in the
    order of loading; the trees of XML examples are made without an exception, which
    leaves those of the printer, and change of the schema only names and examples.

    What it runs on: a promise settles once whatever the page does, and while the
    functions of the page only compute, the microtasks end and every reaction of
    a settled promise has been run once and in order; the linked list of
    microtasks is a queue; a debounced function gets the arguments of the last
    call when the wait is over, or when it is flushed.

    The remaining theorems and examples exhibit defects: overlapping views, ranges
    of one Buffer, split characters, unit indices, [safeLoadAll] loading with the
    full schema, a lost document end mark, shadowed [hasOwnProperty],
    [condenseFlow], skipped elements, empty binaries and years below 100, a final
    backslash in the highlighter, properties of one error leaking into the next,
    values with dollar signs in server URLs, backslashes in the curl command, ties
    of singles rounded away from zero, plugins changed by being loaded, examples
    and configurations of nested XML samples, empty values beside typed ones, paths
    dropped from a batch or blocked in it, subtrees of a replaced document, errors on
    a first line, slow downloads that win, answers the redirect page does not read, a
    redirect URL of a development server, a configuration fetched twice, keys of YAML
    without a text, documents with a prototype, binaries in a document, letters of
    deep links.

    ** Bounds and fuel

    [YamlLoader.fuel] is one more than the length of the input: every loop of the
    loader consumes a character per turn.  [YamlLoader.depth] is twice that:
    between two characters at most one collection reader composes a node at its
    own position (the implicit key of a block mapping).  [YamlTotal.load_terminates]
    proves both sufficient; the text of nested arrays has a depth of its own,
    after which the stack is full ([rt_depth]).  [YamlDumper.dump] nests at most once per object of the
    heap when shared objects become references.  [sampleFromSchema] takes the size
    of the schema, which [SuiSampleLaws.sample_terminates] proves sufficient; the
    highlighter takes the length of the text.  [sampleXmlFromSchema] takes one more than
    the rank of the schema, [deepExtend] the depth of the trees; their theorems
    conclude with a result.  Promises need no fuel: a step of the loop is one
    reaction, and [CorePromiseLive.work] bounds the number of steps.

    ** Not modelled

    The [listener] and [filename] options of the loader and environments without
    typed arrays (their 16 and 32 bit writers apart), which nothing here uses; the
    React components and the part of the store that hands the plugins to Redux and
    React (root injects, the bound system object), which render; the inside of the
    Immutable collections (their tries and hashes), which no theorem sees; [finally]
    and subclasses of Promise.  Packages that are only called are interfaces:
    swagger-client, url-parse, serialize-error, semver, xml (its printer, which may throw), memoizee.  The other
    third-party packages of the bundle are minified, and the Go modules of the
    repository ([x/], [vm], [app], ...) are another program. *)
From Stdlib Require Export ZArith Lia String Ascii.
From stdpp Require Export base numbers list option.
Open Scope Z_scope.

(** ** Outcomes of JavaScript code

    A computation over a mutable state [S] either returns, throws (the state
    keeps the mutations made before the exception), or, for loops bounded by
    fuel, runs out of it. *)

Inductive js_error :=
  | RangeError (msg : string)
  | TypeError (msg : string)
  | PlainError (msg : string)
  | URIError
  | YAMLException (reason : list Z) (mark : option (Z * Z * Z)).  (* position, line, column *)

Inductive outcome (S A : Type) :=
  | Done (a : A) (s : S)
  | Raise (e : js_error) (s : S)
  | NoFuel.
Arguments Done {S A} _ _.
Arguments Raise {S A} _ _.
Arguments NoFuel {S A}.

Definition M (S A : Type) : Type := S -> outcome S A.

Definition ret {S A} (a : A) : M S A := fun s => Done a s.

Definition bind {S A B} (m : M S A) (k : A -> M S B) : M S B := fun s =>
  match m s with
  | Done a s' => k a s'
  | Raise e s' => Raise e s'
  | NoFuel => NoFuel
  end.

Definition throw {S A} (e : js_error) : M S A := fun s => Raise e s.

Definition getS {S} : M S S := fun s => Done s s.

Definition modify {S} (f : S -> S) : M S unit := fun s => Done tt (f s).

Declare Scope js_scope.
Delimit Scope js_scope with js.
Notation "'let!' x ':=' m 'in' k" := (bind m (fun x => k))
  (at level 10, x binder, m at level 100, k at level 200,
   format "'let!'  x  ':='  m  'in' '//' k") : js_scope.
Notation "'do!' m ';' k" := (bind m (fun _ : unit => k))
  (at level 10, m at level 100, k at level 200,
   format "'do!'  m ';' '//' k") : js_scope.
Open Scope js_scope.

(** [for (j = i; ...; ++j) body] with [n] iterations. *)
Fixpoint mfor {S} (i : Z) (n : nat) (body : Z -> M S unit) : M S unit :=
  match n with
  | O => ret tt
  | Datatypes.S n' => do! body i; mfor (i + 1) n' body
  end.

Definition mwhen {S} (b : bool) (m : M S unit) : M S unit :=
  if b then m else ret tt.

Lemma bind_Done {S A B} (m : M S A) (k : A -> M S B) s a s' :
  m s = Done a s' -> bind m k s = k a s'.
Proof. unfold bind. by intros ->. Qed.

Lemma bind_Raise {S A B} (m : M S A) (k : A -> M S B) s e s' :
  m s = Raise e s' -> bind m k s = Raise e s'.
Proof. unfold bind. by intros ->. Qed.

Lemma bind_inv {S A B} (m : M S A) (k : A -> M S B) s b s'' :
  bind m k s = Done b s'' -> exists a s', m s = Done a s' /\ k a s' = Done b s''.
Proof. unfold bind. destruct (m s) eqn:E; naive_solver. Qed.

Lemma bind_assoc {S A B C} (m : M S A) (f : A -> M S B) (g : B -> M S C) s :
  bind (bind m f) g s = bind m (fun a => bind (f a) g) s.
Proof. unfold bind. by destruct (m s). Qed.

(** ** 32-bit integer operators of JavaScript on integral numbers *)

Definition toUint32 (z : Z) : Z := z mod 2 ^ 32.
Definition toInt32 (z : Z) : Z := (z + 2 ^ 31) mod 2 ^ 32 - 2 ^ 31.
Definition toUint8 (z : Z) : Z := z mod 2 ^ 8.

(** The shift count of [<<], [>>] and [>>>] is taken modulo 32. *)
Definition shift_count (n : Z) : Z := n mod 32.

Definition js_and (a b : Z) : Z := Z.land (toInt32 a) (toInt32 b).
Definition js_or (a b : Z) : Z := Z.lor (toInt32 a) (toInt32 b).
Definition js_shl (a n : Z) : Z := toInt32 (Z.shiftl (toInt32 a) (shift_count n)).
Definition js_shr (a n : Z) : Z := Z.shiftr (toInt32 a) (shift_count n).
Definition js_ushr (a n : Z) : Z := Z.shiftr (toUint32 a) (shift_count n).

Lemma toInt32_id z : - 2 ^ 31 <= z < 2 ^ 31 -> toInt32 z = z.
Proof. intros H. unfold toInt32. rewrite Z.mod_small; lia. Qed.

Lemma toUint32_id z : 0 <= z < 2 ^ 32 -> toUint32 z = z.
Proof. apply Z.mod_small. Qed.

Lemma toUint8_id z : 0 <= z < 256 -> toUint8 z = z.
Proof. apply Z.mod_small. Qed.

Lemma toUint8_range z : 0 <= toUint8 z < 256.
Proof. apply Z.mod_pos_bound. lia. Qed.

Lemma toInt32_range z : - 2 ^ 31 <= toInt32 z < 2 ^ 31.
Proof. unfold toInt32. pose proof (Z.mod_pos_bound (z + 2 ^ 31) (2 ^ 32)). lia. Qed.

(** [toInt32] only changes bits 32 and up. *)
Lemma toInt32_mod z k : 0 <= k <= 32 -> toInt32 z mod 2 ^ k = z mod 2 ^ k.
Proof.
  intros Hk. unfold toInt32.
  assert (E : 2 ^ 32 = 2 ^ k * 2 ^ (32 - k)) by (rewrite <- Z.pow_add_r; f_equal; lia).
  assert (Hp : 0 < 2 ^ k) by (apply Z.pow_pos_nonneg; lia).
  rewrite (Z.mod_eq (z + 2 ^ 31) (2 ^ 32)) by lia. rewrite E at 1.
  replace (z + 2 ^ 31 - 2 ^ k * 2 ^ (32 - k) * ((z + 2 ^ 31) / 2 ^ 32) - 2 ^ 31)
    with (z + (- (2 ^ (32 - k) * ((z + 2 ^ 31) / 2 ^ 32))) * 2 ^ k) by ring.
  by rewrite Z.mod_add by lia.
Qed.

Lemma js_and_ones v k : 0 <= k < 31 -> js_and v (Z.ones k) = v mod 2 ^ k.
Proof.
  intros Hk. unfold js_and. rewrite (toInt32_id (Z.ones k)).
  - rewrite Z.land_ones by lia. apply toInt32_mod. lia.
  - rewrite Z.ones_equiv.
    pose proof (Z.pow_le_mono_r 2 k 30). pose proof (Z.pow_pos_nonneg 2 k). lia.
Qed.

Lemma js_and_comm a b : js_and a b = js_and b a.
Proof. apply Z.land_comm. Qed.

Lemma js_and_255 v : js_and v 255 = v mod 256.
Proof. apply (js_and_ones v 8). lia. Qed.

(** Disjoint bit fields: [|] is [+]. *)
Lemma land_shiftl_0 a b n : 0 <= n -> 0 <= a < 2 ^ n -> Z.land a (Z.shiftl b n) = 0.
Proof.
  intros Hn Ha. apply Z.bits_inj'. intros k Hk. rewrite Z.land_spec, Z.bits_0.
  destruct (Z.lt_ge_cases k n).
  - rewrite (Z.shiftl_spec_low _ _ k) by lia. apply andb_false_r.
  - rewrite <- (Z.mod_small a (2 ^ n)) by lia. by rewrite Z.mod_pow2_bits_high by lia.
Qed.

Lemma land_shiftl a b n : 0 <= n ->
  Z.land a (Z.shiftl b n) = Z.shiftl (Z.land (Z.shiftr a n) b) n.
Proof.
  intros Hn. apply Z.bits_inj'. intros k Hk. rewrite Z.land_spec, !Z.shiftl_spec by done.
  destruct (Z.lt_ge_cases k n).
  - rewrite !(Z.testbit_neg_r _ (k - n)) by lia. apply andb_false_r.
  - rewrite Z.land_spec, Z.shiftr_spec by lia. do 2 f_equal. lia.
Qed.

Lemma lor_shiftl_add a b n :
  0 <= n -> 0 <= a < 2 ^ n -> Z.lor a (Z.shiftl b n) = a + b * 2 ^ n.
Proof.
  intros Hn Ha. rewrite <- Z.shiftl_mul_pow2 by lia.
  pose proof (Z.add_lor_land a (Z.shiftl b n)) as E. rewrite land_shiftl_0 in E; lia.
Qed.

Lemma js_or_add a b n :
  0 <= n -> 0 <= a < 2 ^ n -> a < 2 ^ 31 -> - 2 ^ 31 <= b * 2 ^ n < 2 ^ 31 ->
  js_or a (b * 2 ^ n) = a + b * 2 ^ n.
Proof.
  intros Hn Ha Ha' Hb. unfold js_or. rewrite !toInt32_id by lia.
  rewrite <- Z.shiftl_mul_pow2 by lia. rewrite lor_shiftl_add by lia.
  by rewrite Z.shiftl_mul_pow2.
Qed.

Lemma js_or_add_l a b n :
  0 <= n -> 0 <= a < 2 ^ n -> a < 2 ^ 31 -> - 2 ^ 31 <= b * 2 ^ n < 2 ^ 31 ->
  js_or (b * 2 ^ n) a = b * 2 ^ n + a.
Proof.
  intros. unfold js_or. rewrite Z.lor_comm. fold (js_or a (b * 2 ^ n)).
  rewrite js_or_add; lia.
Qed.

Lemma js_shl_mul a n :
  0 <= n < 32 -> - 2 ^ 31 <= a < 2 ^ 31 -> js_shl a n = toInt32 (a * 2 ^ n).
Proof.
  intros Hn Ha. unfold js_shl, shift_count.
  rewrite (Z.mod_small n), (toInt32_id a), Z.shiftl_mul_pow2; lia.
Qed.

Lemma js_shr_div a n :
  0 <= n < 32 -> - 2 ^ 31 <= a < 2 ^ 31 -> js_shr a n = a / 2 ^ n.
Proof.
  intros Hn Ha. unfold js_shr, shift_count.
  rewrite (Z.mod_small n), (toInt32_id a), Z.shiftr_div_pow2; lia.
Qed.

Lemma js_ushr_div a n : 0 <= n < 32 -> js_ushr a n = toUint32 a / 2 ^ n.
Proof.
  intros Hn. unfold js_ushr, shift_count.
  rewrite (Z.mod_small n), Z.shiftr_div_pow2; lia.
Qed.

(** ** Tactics and hint databases of the development *)

(** Case analysis on every boolean comparison of the goal or of [H]. *)
Ltac destr_cmp :=
  repeat match goal with
  | |- context [?a <? ?b] => destruct (Z.ltb_spec a b)
  | |- context [?a <=? ?b] => destruct (Z.leb_spec a b)
  | |- context [?a =? ?b] => destruct (Z.eqb_spec a b)
  | |- context [?a >? ?b] => rewrite (Z.gtb_ltb a b)
  | |- context [?a >=? ?b] => rewrite (Z.geb_leb a b)
  end.

(** A boolean combination of comparisons that is false. *)
Ltac bool_arith :=
  rewrite ?orb_false_iff, ?andb_false_iff, ?Z.leb_gt, ?Z.ltb_ge, ?Z.eqb_neq; lia.

(** Turn boolean facts of the context into propositions. *)
Ltac bool_hyps :=
  repeat match goal with
  | H : (_ && _)%bool = true |- _ => apply andb_true_iff in H as [? ?]
  | H : (_ || _)%bool = false |- _ => apply orb_false_iff in H as [? ?]
  | H : negb _ = true |- _ => apply negb_true_iff in H
  | H : negb _ = false |- _ => apply negb_false_iff in H
  | H : (_ <? _) = true |- _ => apply Z.ltb_lt in H
  | H : (_ <? _) = false |- _ => apply Z.ltb_ge in H
  | H : (_ <=? _) = true |- _ => apply Z.leb_le in H
  | H : (_ <=? _) = false |- _ => apply Z.leb_gt in H
  | H : (_ =? _) = true |- _ => apply Z.eqb_eq in H
  | H : (_ =? _) = false |- _ => apply Z.eqb_neq in H
  end.

(** Closed decidable goals by evaluation of their decision procedure. *)
Ltac vm_decide := apply (bool_decide_eq_true_1 _); vm_compute; reflexivity.

Create HintDb js.
Create Rewrite HintDb js_simpl.
#[export] Hint Resolve toUint8_range toInt32_range : js.
#[export] Hint Rewrite @toUint8_id @toInt32_id @toUint32_id js_and_255 using lia : js_simpl.

(** ** Lists indexed by [Z] *)

Lemma lookup_seqZ_map {A} (f : Z -> A) i n (k : nat) :
  (k < n)%nat -> (f <$> seqZ i (Z.of_nat n)) !! k = Some (f (i + Z.of_nat k)).
Proof. intros H. rewrite list_lookup_fmap, lookup_seqZ_lt by lia. done. Qed.

Lemma Forall_fmap_seqZ {A} (P : A -> Prop) (f : Z -> A) i n :
  (forall j, P (f j)) -> Forall P (f <$> seqZ i n).
Proof. intros H. apply Forall_fmap, Forall_true. intros j. apply H. Qed.

(** A window of a list commutes with the insertion of a block inside it. *)
Lemma take_drop_inserts {A} n m i (k l : list A) :
  (i + length k <= n)%nat ->
  take n (drop m (list_inserts (m + i) k l)) = list_inserts i k (take n (drop m l)).
Proof.
  revert i. induction k as [|y k IH]; intros i H; simpl in *; [done|].
  rewrite drop_insert_ge by lia. rewrite take_insert_lt by lia.
  replace (m + i - m)%nat with i by lia.
  rewrite <- Nat.add_succ_r. rewrite IH by lia. done.
Qed.

Lemma list_inserts_snoc {A} i (k l : list A) y :
  list_inserts i (k ++ [y]) l = <[(i + length k)%nat := y]> (list_inserts i k l).
Proof. rewrite list_inserts_app_l. simpl. by rewrite Nat.add_comm. Qed.

Lemma list_inserts_cons_l {A} i y (k l : list A) :
  list_inserts i (y :: k) l = list_inserts (S i) k (<[i := y]> l).
Proof. simpl. apply list_insert_inserts_lt. lia. Qed.

(** The block just written is read back. *)
Lemma take_drop_list_inserts {A} i (k l : list A) :
  (i + length k <= length l)%nat ->
  take (length k) (drop i (list_inserts i k l)) = k.
Proof.
  intros H. apply list_eq. intros j.
  destruct (decide (j < length k)%nat) as [Hj|Hj].
  - rewrite lookup_take_lt, lookup_drop by lia.
    rewrite list_lookup_inserts by lia. f_equal. lia.
  - rewrite lookup_take_ge by lia. symmetry. apply lookup_ge_None. lia.
Qed.

(** A boolean property of small integers, checked by evaluation. *)
Fixpoint forall_below (n : nat) (P : Z -> bool) : bool :=
  match n with O => true | S n' => P (Z.of_nat n') && forall_below n' P end.

Lemma forall_below_spec n P x : forall_below n P = true -> 0 <= x < Z.of_nat n -> P x = true.
Proof.
  induction n as [|n IH]; simpl forall_below; [lia|]. intros [H1 H2]%andb_true_iff Hx.
  destruct (decide (x = Z.of_nat n)) as [->|]; [done|]. apply IH; [done|lia].
Qed.
