(* ===== verification/BufferStore.v ===== *)
(** The [Buffer] of swagger-ui.js: memory, views, slices, copies, comparison.

    A Buffer is a [Uint8Array] view on an [ArrayBuffer] (the branch
    [Buffer.TYPED_ARRAY_SUPPORT = true] of the source, the one every engine
    with typed arrays takes).  Views made by [slice] alias the memory of their
    parent, so the model keeps a store of byte arrays and a view is a window
    (array, offset, length) with an object identity for [===]. *)
From S2P Require Import Prelude.

(** ** Store and views *)

Record view := View {
  v_id : nat;     (* identity of the JavaScript object *)
  v_ab : nat;     (* the ArrayBuffer it is a view of *)
  v_off : nat;    (* byteOffset *)
  v_len : nat     (* length *)
}.

Record store := Store {
  st_arrays : list (list Z);
  st_next : nat
}.

Definition byte (z : Z) : Prop := 0 <= z < 256.

#[global] Instance byte_dec z : Decision (byte z).
Proof. unfold byte. apply _. Defined.

Definition blen (b : view) : Z := Z.of_nat (v_len b).

Definition upd_array (ab : nat) (f : list Z -> list Z) (h : store) : store :=
  Store (alter f ab (st_arrays h)) (st_next h).

(** Contents of a view, the abstract value the operations are specified by. *)
Definition contents (h : store) (b : view) : list Z :=
  match st_arrays h !! v_ab b with
  | Some arr => take (v_len b) (drop (v_off b) arr)
  | None => []
  end.

(** [b[i]]: [undefined] outside the view. *)
Definition get (b : view) (i : Z) : M store (option Z) := fun h =>
  Done (if (0 <=? i) && (i <? blen b) then contents h b !! Z.to_nat i else None) h.

(** [b[i] = v]: stores [ToUint8 v]; a write outside the view is ignored. *)
Definition bset (b : view) (i v : Z) : M store unit := fun h =>
  Done tt (if (0 <=? i) && (i <? blen b)
           then upd_array (v_ab b) <[(v_off b + Z.to_nat i)%nat := toUint8 v]> h
           else h).

Arguments get : simpl never.
Arguments bset : simpl never.

(** A number or [undefined] as operand of a bitwise operator. *)
Definition n32 (o : option Z) : Z := default 0 o.

Definition new_view (ab off len : nat) : M store view := fun h =>
  Done (View (st_next h) ab off len) (Store (st_arrays h) (S (st_next h))).

(** [new ArrayBuffer(n)], zero filled. *)
Definition new_array (n : nat) : M store nat := fun h =>
  Done (length (st_arrays h)) (Store (st_arrays h ++ [replicate n 0]) (st_next h)).

(** ** Allocation *)

Definition kMaxLength : Z := 2147483647.

Definition createBuffer (len : Z) : M store view :=
  if kMaxLength <? len then throw (RangeError "Invalid typed array length")
  else if len <? 0 then throw (RangeError "Invalid typed array length")
  else let! ab := new_array (Z.to_nat len) in new_view ab 0 (Z.to_nat len).

Definition assertSize (size : Z) : M store unit :=
  if size <? 0 then throw (RangeError "'size' argument must not be negative") else ret tt.

Definition checked (len : Z) : M store Z :=
  if kMaxLength <=? len
  then throw (RangeError "Attempt to allocate Buffer larger than maximum size: 0x7fffffff bytes")
  else ret (toInt32 len).

Definition allocUnsafe (size : Z) : M store view :=
  do! assertSize size;
  if size <? 0 then createBuffer 0
  else let! n := checked size in createBuffer (toInt32 n).

Definition fromArrayLike (arr : list Z) : M store view :=
  let! n := checked (Z.of_nat (length arr)) in
  let len := toInt32 n in
  let! that := createBuffer len in
  do! mfor 0 (Z.to_nat len) (fun i =>
        bset that i (js_and (n32 (arr !! Z.to_nat i)) 255));
  ret that.

(** [new Uint8Array(arrayBuffer, byteOffset, length)] shares the memory. *)
Definition fromArrayBuffer (ab : nat) (byteOffset len : option Z) : M store view := fun h =>
  let byteLength := Z.of_nat (length (default [] (st_arrays h !! ab))) in
  if match byteOffset with Some o => (o <? 0) || (byteLength <? o) | None => false end
  then Raise (RangeError "'offset' is out of bounds") h
  else if match byteOffset with Some o => byteLength <? o + default 0 len | None => false end
  then Raise (RangeError "'length' is out of bounds") h
  else
    let off := default 0 byteOffset in
    match len with
    | None => new_view ab (Z.to_nat off) (Z.to_nat (byteLength - off)) h
    | Some l => if (l <? 0) || (byteLength <? off + l)
                then Raise (RangeError "Invalid typed array length") h
                else new_view ab (Z.to_nat off) (Z.to_nat l) h
    end.

(** ** slice *)

(** The clamping of [start] and [end] against the length, shared by both. *)
Definition clamp (len x : Z) : Z :=
  if x <? 0 then (if x + len <? 0 then 0 else x + len)
  else if len <? x then len else x.

(** [this.subarray(start, end)] for [0 <= start <= end <= length]. *)
Definition subarray (b : view) (s e : Z) : M store view :=
  new_view (v_ab b) (v_off b + Z.to_nat s) (Z.to_nat (e - s)).

Definition slice (b : view) (start stop : option Z) : M store view :=
  let len := blen b in
  let start := clamp len (toInt32 (default 0 start)) in
  let stop := clamp len (match stop with None => len | Some e => toInt32 e end) in
  let stop := if stop <? start then start else stop in
  subarray b start stop.

(** ** copy *)

(** [Uint8Array.prototype.set]: the source bytes are read before any write. *)
Definition set_bytes (target : view) (off : Z) (bs : list Z) : M store unit :=
  mfor 0 (length bs) (fun i => bset target (off + i) (n32 (bs !! Z.to_nat i))).

Fixpoint mfor_down {S} (n : nat) (body : Z -> M S unit) : M S unit :=
  match n with
  | O => ret tt
  | Datatypes.S n' => do! body (Z.of_nat n'); mfor_down n' body
  end.

(** [target[i + targetStart] = this[i + start]] *)
Definition copy_body (this target : view) (s t : Z) (i : Z) : M store unit :=
  let! x := get this (i + s) in bset target (i + t) (n32 x).

Definition copy (this target : view) (targetStart start stop : option Z) : M store Z :=
  let start := default 0 start in
  let stop := default (blen this) stop in
  let targetStart := match targetStart with
                     | Some t => if blen target <=? t then blen target else t
                     | None => 0 end in
  let stop := if (0 <? stop) && (stop <? start) then start else stop in
  if stop =? start then ret 0
  else if (blen target =? 0) || (blen this =? 0) then ret 0
  else if targetStart <? 0 then throw (RangeError "targetStart out of bounds")
  else if (start <? 0) || (blen this <=? start)
  then throw (RangeError "sourceStart out of bounds")
  else if stop <? 0 then throw (RangeError "sourceEnd out of bounds")
  else
    let stop := if blen this <? stop then blen this else stop in
    let stop := if blen target - targetStart <? stop - start
                then blen target - targetStart + start else stop in
    let len := stop - start in
    let body := copy_body this target start targetStart in
    do! (if Nat.eqb (v_id this) (v_id target) && (start <? targetStart) && (targetStart <? stop)
         then mfor_down (Z.to_nat len) body
         else if len <? 1000 then mfor 0 (Z.to_nat len) body
         else fun h => set_bytes target targetStart
                (take (Z.to_nat len) (drop (Z.to_nat start) (contents h this))) h);
    ret len.

(** ** concat *)

Fixpoint concat_loop (buffer : view) (pos : Z) (bufs : list view) : M store unit :=
  match bufs with
  | [] => ret tt
  | buf :: rest =>
      let! _ := copy buf buffer (Some pos) None None in
      concat_loop buffer (pos + blen buf) rest
  end.

Definition concat (bufs : list view) (len : option Z) : M store view :=
  match bufs with
  | [] => createBuffer 0
  | _ =>
      let len := match len with
                 | Some l => l
                 | None => foldl (fun acc b => acc + blen b) 0 bufs end in
      let! buffer := allocUnsafe len in
      do! concat_loop buffer 0 bufs;
      ret buffer
  end.

(** ** Comparison *)

(** First index in [i, i+n) where the two views differ. *)
Fixpoint first_diff (a b : view) (i : Z) (n : nat) : M store (option (Z * Z)) :=
  match n with
  | O => ret None
  | Datatypes.S n' =>
      let! x := get a i in
      let! y := get b i in
      if decide (x = y) then first_diff a b (i + 1) n'
      else ret (Some (n32 x, n32 y))
  end.

Definition three_way (x y : Z) : Z :=
  if x <? y then -1 else if y <? x then 1 else 0.

Definition compare (a b : view) : M store Z :=
  if Nat.eqb (v_id a) (v_id b) then ret 0
  else
    let! d := first_diff a b 0 (Z.to_nat (Z.min (blen a) (blen b))) in
    match d with
    | Some (x, y) => ret (three_way x y)
    | None => ret (three_way (blen a) (blen b))
    end.

Definition equals (a b : view) : M store bool :=
  if Nat.eqb (v_id a) (v_id b) then ret true
  else let! c := compare a b in ret (c =? 0).

Definition compare_range (this target : view) (start stop thisStart thisEnd : option Z)
    : M store Z :=
  let start := default 0 start in
  let stop := default (blen target) stop in
  let thisStart := default 0 thisStart in
  let thisEnd := default (blen this) thisEnd in
  if (start <? 0) || (blen target <? stop) || (thisStart <? 0) || (blen this <? thisEnd)
  then throw (RangeError "out of range index")
  else if (thisEnd <=? thisStart) && (stop <=? start) then ret 0
  else if thisEnd <=? thisStart then ret (-1)
  else if stop <=? start then ret 1
  else
    let start := toUint32 start in
    let stop := toUint32 stop in
    let thisStart := toUint32 thisStart in
    let thisEnd := toUint32 thisEnd in
    if Nat.eqb (v_id this) (v_id target) then ret 0
    else
      let x := thisEnd - thisStart in
      let y := stop - start in
      let! thisCopy := slice this (Some thisStart) (Some thisEnd) in
      let! targetCopy := slice target (Some start) (Some stop) in
      let! d := first_diff thisCopy targetCopy 0 (Z.to_nat (Z.min x y)) in
      match d with
      | Some (x, y) => ret (three_way x y)
      | None => ret (three_way x y)
      end.

(** ** Byte swaps *)

Definition swap (b : view) (n m : Z) : M store unit :=
  let! i := get b n in
  let! j := get b m in
  do! bset b n (n32 j);
  bset b m (n32 i).

Definition swap16 (b : view) : M store view :=
  if negb (blen b mod 2 =? 0)
  then throw (RangeError "Buffer size must be a multiple of 16-bits")
  else
    do! mfor 0 (Z.to_nat (blen b / 2)) (fun k => swap b (2 * k) (2 * k + 1));
    ret b.

Definition swap32 (b : view) : M store view :=
  if negb (blen b mod 4 =? 0)
  then throw (RangeError "Buffer size must be a multiple of 32-bits")
  else
    do! mfor 0 (Z.to_nat (blen b / 4)) (fun k =>
          do! swap b (4 * k) (4 * k + 3); swap b (4 * k + 1) (4 * k + 2));
    ret b.

Definition swap64 (b : view) : M store view :=
  if negb (blen b mod 8 =? 0)
  then throw (RangeError "Buffer size must be a multiple of 64-bits")
  else
    do! mfor 0 (Z.to_nat (blen b / 8)) (fun k =>
          do! swap b (8 * k) (8 * k + 7);
          do! swap b (8 * k + 1) (8 * k + 6);
          do! swap b (8 * k + 2) (8 * k + 5);
          swap b (8 * k + 3) (8 * k + 4));
    ret b.

(** ** Well-formed views and the laws of reads and writes *)

Definition wf_view (h : store) (b : view) : Prop :=
  exists arr, st_arrays h !! v_ab b = Some arr /\
              (v_off b + v_len b <= length arr)%nat /\ Forall byte arr.

#[global] Instance wf_view_dec h b : Decision (wf_view h b).
Proof.
  destruct (st_arrays h !! v_ab b) as [arr|] eqn:E.
  - destruct (decide ((v_off b + v_len b <= length arr)%nat /\ Forall byte arr)) as [H|H].
    + left. exists arr. tauto.
    + right. intros (arr' & E' & H'). apply H. congruence.
  - right. intros (arr' & E' & H'). congruence.
Defined.

(** The store after the bytes [bs] are written at offset [off] of [b]. *)
Definition write_bytes (b : view) (off : nat) (bs : list Z) (h : store) : store :=
  upd_array (v_ab b) (list_inserts (v_off b + off) bs) h.

Section Laws.
Context (h : store) (b : view).
Hypothesis Hwf : wf_view h b.

Lemma length_contents : length (contents h b) = v_len b.
Proof.
  destruct Hwf as (arr & E & Hl & _). unfold contents. rewrite E.
  rewrite length_take, length_drop. lia.
Qed.

Lemma contents_bytes : Forall byte (contents h b).
Proof.
  destruct Hwf as (arr & E & _ & Hb). unfold contents. rewrite E.
  by apply Forall_take, Forall_drop.
Qed.

Lemma contents_lookup i : (i < v_len b)%nat ->
  exists x, contents h b !! i = Some x /\ byte x.
Proof.
  intros H. rewrite <- length_contents in H. apply lookup_lt_is_Some in H as [x Hx].
  exists x. split; [done|]. eapply Forall_lookup_1; [apply contents_bytes|done].
Qed.

Lemma get_nat (i : nat) : get b (Z.of_nat i) h = Done (contents h b !! i) h.
Proof.
  unfold get, blen. rewrite Nat2Z.id. destr_cmp; simpl; try done; try lia.
  f_equal. symmetry. apply lookup_ge_None. rewrite length_contents. lia.
Qed.

Lemma get_Z i : 0 <= i -> get b i h = Done (contents h b !! Z.to_nat i) h.
Proof. intros H. rewrite <- get_nat. by rewrite Z2Nat.id. Qed.

Lemma get_oob i : i < 0 \/ blen b <= i -> get b i h = Done None h.
Proof. intros H. unfold get. destr_cmp; simpl; try done. lia. Qed.

Lemma wf_write_bytes b' off bs :
  Forall byte bs -> wf_view (write_bytes b' off bs h) b.
Proof.
  intros Hbs. destruct Hwf as (arr & E & Hl & Hb).
  destruct (decide (v_ab b' = v_ab b)) as [Eab|Eab].
  - exists (list_inserts (v_off b' + off) bs arr). simpl. rewrite Eab.
    rewrite list_lookup_alter_eq, E. split; [done|]. rewrite length_inserts.
    split; [done|]. by apply Forall_inserts.
  - exists arr. simpl. by rewrite list_lookup_alter_ne.
Qed.

(** A write through one view seen through another view of the same array. *)
Lemma contents_write_alias b' off bs :
  v_ab b' = v_ab b -> (v_off b <= v_off b' + off)%nat ->
  (v_off b' + off + length bs <= v_off b + v_len b)%nat ->
  contents (write_bytes b' off bs h) b =
  list_inserts (v_off b' + off - v_off b) bs (contents h b).
Proof.
  intros Eab H1 H2. destruct Hwf as (arr & E & Hl & Hb).
  unfold contents. simpl. rewrite Eab, list_lookup_alter_eq, E. simpl.
  replace (v_off b' + off)%nat with (v_off b + (v_off b' + off - v_off b))%nat at 1 by lia.
  apply take_drop_inserts. lia.
Qed.

Lemma contents_write_bytes off bs :
  (off + length bs <= v_len b)%nat ->
  contents (write_bytes b off bs h) b = list_inserts off bs (contents h b).
Proof.
  intros H. rewrite contents_write_alias by lia. f_equal. lia.
Qed.

Lemma contents_write_other b' off bs :
  v_ab b' <> v_ab b -> contents (write_bytes b' off bs h) b = contents h b.
Proof. intros Eab. unfold contents. simpl. by rewrite list_lookup_alter_ne. Qed.
End Laws.

Lemma write_bytes_nil b off h : write_bytes b off [] h = h.
Proof.
  destruct h as [arrs n]. unfold write_bytes, upd_array. simpl. f_equal.
  apply list_eq. intros i. destruct (decide (v_ab b = i)) as [->|Hi].
  - rewrite list_lookup_alter_eq. by destruct (arrs !! i).
  - by rewrite list_lookup_alter_ne.
Qed.

Lemma upd_array_compose ab f g h :
  upd_array ab f (upd_array ab g h) = upd_array ab (f ∘ g) h.
Proof.
  unfold upd_array. simpl. f_equal. apply list_eq. intros i.
  destruct (decide (ab = i)) as [->|Hi].
  - rewrite !list_lookup_alter_eq. by destruct (st_arrays h !! i).
  - by rewrite !list_lookup_alter_ne.
Qed.

Lemma upd_array_ext ab f g h : (forall l, f l = g l) -> upd_array ab f h = upd_array ab g h.
Proof.
  intros H. unfold upd_array. f_equal. apply list_eq. intros i.
  destruct (decide (ab = i)) as [->|Hi].
  - rewrite !list_lookup_alter_eq. destruct (st_arrays h !! i); simpl; by rewrite ?H.
  - by rewrite !list_lookup_alter_ne.
Qed.

Lemma write_bytes_app b off bs1 bs2 h :
  write_bytes b (length bs1 + off) bs2 (write_bytes b off bs1 h) =
  write_bytes b off (bs1 ++ bs2) h.
Proof.
  unfold write_bytes. rewrite upd_array_compose. apply upd_array_ext. intros l. simpl.
  rewrite list_inserts_app_l. f_equal. lia.
Qed.

Lemma bset_in b i v h :
  0 <= i < blen b -> bset b i v h = Done tt (write_bytes b (Z.to_nat i) [toUint8 v] h).
Proof. intros H. unfold bset. destr_cmp; simpl; try lia. done. Qed.

Lemma bset_out b i v h : i < 0 \/ blen b <= i -> bset b i v h = Done tt h.
Proof. intros H. unfold bset. destr_cmp; simpl; try lia; done. Qed.

(** The write loop of the source: consecutive bytes computed from the index. *)
Lemma mfor_bset b (f : Z -> Z) off i n h :
  0 <= off + i -> off + i + Z.of_nat n <= blen b ->
  mfor i n (fun j => bset b (off + j) (f j)) h =
  Done tt (write_bytes b (Z.to_nat (off + i)) ((fun j => toUint8 (f j)) <$> seqZ i (Z.of_nat n)) h).
Proof.
  revert i h. induction n as [|n IH]; intros i h H0 Hn.
  - simpl. by rewrite write_bytes_nil.
  - simpl mfor. erewrite bind_Done by (apply bset_in; lia).
    rewrite IH by lia. f_equal. rewrite (seqZ_cons i) by lia. simpl.
    replace (Z.to_nat (off + (i + 1)))
      with (length [toUint8 (f i)] + Z.to_nat (off + i))%nat by (simpl; lia).
    rewrite write_bytes_app. simpl. do 4 f_equal; lia.
Qed.

Lemma Forall_byte_toUint8 {A} (f : A -> Z) (l : list A) :
  Forall byte ((fun j => toUint8 (f j)) <$> l).
Proof. apply Forall_fmap, Forall_true. intros j. apply toUint8_range. Qed.
#[export] Hint Resolve Forall_byte_toUint8 wf_write_bytes length_contents : js.

Lemma fmap_lookup_seqZ (bs : list Z) :
  Forall byte bs ->
  (fun j => toUint8 (n32 (bs !! Z.to_nat j))) <$> seqZ 0 (Z.of_nat (length bs)) = bs.
Proof.
  intros Hb. apply list_eq. intros k.
  destruct (decide (k < length bs)%nat) as [Hk|Hk].
  - rewrite lookup_seqZ_map by done. rewrite Z.add_0_l, Nat2Z.id.
    destruct (lookup_lt_is_Some_2 bs k Hk) as [x Hx]. rewrite Hx. simpl.
    rewrite toUint8_id; [done|]. exact (Forall_lookup_1 _ _ _ _ Hb Hx).
  - rewrite !(proj2 (lookup_ge_None _ _)); [done|lia|].
    rewrite length_fmap, length_seqZ. lia.
Qed.

Lemma set_bytes_spec b off bs h :
  Forall byte bs -> 0 <= off -> off + Z.of_nat (length bs) <= blen b ->
  set_bytes b off bs h = Done tt (write_bytes b (Z.to_nat off) bs h).
Proof.
  intros Hb H0 Hl. unfold set_bytes. rewrite mfor_bset by lia.
  rewrite Z.add_0_r. by rewrite fmap_lookup_seqZ.
Qed.

(** ** slice: the contents of the window, and the aliasing of its writes *)

Lemma clamp_range len x : 0 <= len -> 0 <= clamp len x <= len.
Proof. intros H. unfold clamp. destr_cmp; lia. Qed.

(** The bounds [slice] computes from its arguments. *)
Definition slice_lo (b : view) (start : option Z) : Z :=
  clamp (blen b) (toInt32 (default 0 start)).
Definition slice_hi (b : view) (start stop : option Z) : Z :=
  Z.max (slice_lo b start)
    (clamp (blen b) (match stop with None => blen b | Some e => toInt32 e end)).

Lemma slice_unfold b start stop :
  slice b start stop = subarray b (slice_lo b start) (slice_hi b start stop).
Proof.
  unfold slice, slice_hi. fold (slice_lo b start).
  set (hi := clamp (blen b) _). f_equal. destr_cmp; lia.
Qed.

Lemma slice_bounds b start stop :
  0 <= slice_lo b start <= slice_hi b start stop /\ slice_hi b start stop <= blen b.
Proof.
  unfold slice_hi. assert (0 <= blen b) by (unfold blen; lia).
  pose proof (clamp_range (blen b) (toInt32 (default 0 start))) as Hlo.
  fold (slice_lo b start) in Hlo.
  pose proof (clamp_range (blen b)
    (match stop with None => blen b | Some e => toInt32 e end)) as Hhi. lia.
Qed.

Lemma slice_spec h b start stop :
  wf_view h b ->
  exists v h', slice b start stop h = Done v h' /\ wf_view h' v /\ wf_view h' b /\
    contents h' b = contents h b /\
    contents h' v = take (Z.to_nat (slice_hi b start stop - slice_lo b start))
                      (drop (Z.to_nat (slice_lo b start)) (contents h b)) /\
    v_ab v = v_ab b /\ v_off v = (v_off b + Z.to_nat (slice_lo b start))%nat.
Proof.
  intros (arr & E & Hl & Hb). rewrite slice_unfold.
  pose proof (slice_bounds b start stop) as Hbnd.
  set (lo := slice_lo b start) in *. set (hi := slice_hi b start stop) in *.
  unfold subarray, new_view, blen in *. do 2 eexists. split; [done|].
  unfold wf_view, contents. simpl. rewrite E.
  split; [exists arr; split; [done|split; [lia|done]]|].
  split; [exists arr; done|]. split; [done|]. split; [|done].
  rewrite skipn_firstn_comm, drop_drop, take_take. do 2 f_equal; lia.
Qed.

(** ** copy *)

Lemma contents_write_frame h this target k bs i :
  wf_view h this -> (i < v_len this)%nat ->
  (v_ab this <> v_ab target \/ (v_off this + i < v_off target + k)%nat \/
   (v_off target + k + length bs <= v_off this + i)%nat) ->
  contents (write_bytes target k bs h) this !! i = contents h this !! i.
Proof.
  intros (arr & E & Hl & Hb) Hi Hd. unfold contents. simpl.
  destruct (decide (v_ab target = v_ab this)) as [Eab|Eab].
  - rewrite Eab, list_lookup_alter_eq, E. simpl.
    rewrite !lookup_take_lt, !lookup_drop by lia.
    destruct Hd as [?|[?|?]]; [congruence| |].
    + by rewrite list_lookup_inserts_lt by lia.
    + by rewrite list_lookup_inserts_ge by lia.
  - by rewrite list_lookup_alter_ne.
Qed.

(** Source window of a copy. *)
Definition window (h : store) (b : view) (s n : nat) : list Z :=
  take n (drop s (contents h b)).

Section Copy.
Context (h : store) (this target : view) (s t n : nat).
Hypothesis Hthis : wf_view h this.
Hypothesis Htarget : wf_view h target.
Hypothesis Hs : (s + n <= v_len this)%nat.
Hypothesis Ht : (t + n <= v_len target)%nat.

Let src := window h this s n.

Lemma length_window : length src = n.
Proof. unfold src, window. rewrite length_take, length_drop, length_contents by done. lia. Qed.

Lemma window_bytes : Forall byte src.
Proof. by apply Forall_take, Forall_drop, contents_bytes. Qed.

Lemma window_lookup i : (i < n)%nat -> contents h this !! (s + i)%nat = src !! i.
Proof. intros Hi. unfold src, window. by rewrite lookup_take_lt, lookup_drop by lia. Qed.

(** One iteration, when the writes so far left the byte to be read alone. *)
Lemma copy_step k bs i x :
  (i < n)%nat -> Forall byte bs -> src !! i = Some x ->
  (v_ab this <> v_ab target \/ (v_off this + (s + i) < v_off target + k)%nat \/
   (v_off target + k + length bs <= v_off this + (s + i))%nat) ->
  copy_body this target (Z.of_nat s) (Z.of_nat t) (Z.of_nat i) (write_bytes target k bs h) =
  Done tt (write_bytes target (i + t) [x] (write_bytes target k bs h)).
Proof.
  intros Hi Hbs Hx Hd. unfold copy_body.
  replace (Z.of_nat i + Z.of_nat s) with (Z.of_nat (s + i)) by lia.
  erewrite bind_Done by (apply get_nat; apply wf_write_bytes; done).
  rewrite contents_write_frame by (done || lia). rewrite window_lookup, Hx by done. simpl.
  rewrite bset_in by (unfold blen; lia). rewrite toUint8_id.
  - do 3 f_equal. lia.
  - exact (Forall_lookup_1 _ _ _ _ window_bytes Hx).
Qed.

Lemma copy_forward_from i m :
  (i + m = n)%nat ->
  (v_ab this <> v_ab target \/ (v_off target + t <= v_off this + s)%nat \/
   (v_off this + s + n <= v_off target + t)%nat) ->
  mfor (Z.of_nat i) m (copy_body this target (Z.of_nat s) (Z.of_nat t))
    (write_bytes target t (take i src) h) =
  Done tt (write_bytes target t src h).
Proof.
  intros Him Hd. revert i Him. induction m as [|m IH]; intros i Him.
  - simpl. rewrite take_ge; [done|]. rewrite length_window. lia.
  - destruct (lookup_lt_is_Some_2 src i) as [x Hx]; [rewrite length_window; lia|].
    simpl mfor. erewrite bind_Done; [|apply (copy_step t (take i src) i x); try done; try lia].
    + rewrite <- (length_take_le src i) at 2 by (rewrite length_window; lia).
      rewrite write_bytes_app, <- (take_S_r _ _ _ Hx).
      replace (Z.of_nat i + 1) with (Z.of_nat (S i)) by lia. apply IH. lia.
    + by apply Forall_take, window_bytes.
    + rewrite length_take_le by (rewrite length_window; lia). lia.
Qed.

Lemma copy_forward :
  (v_ab this <> v_ab target \/ (v_off target + t <= v_off this + s)%nat \/
   (v_off this + s + n <= v_off target + t)%nat) ->
  mfor 0 n (copy_body this target (Z.of_nat s) (Z.of_nat t)) h =
  Done tt (write_bytes target t src h).
Proof.
  intros Hd. pose proof (copy_forward_from 0 n eq_refl Hd) as E.
  simpl in E. by rewrite take_0, write_bytes_nil in E.
Qed.

Lemma copy_backward_from m :
  (m <= n)%nat -> (v_off this + s <= v_off target + t)%nat ->
  mfor_down m (copy_body this target (Z.of_nat s) (Z.of_nat t))
    (write_bytes target (t + m) (drop m src) h) =
  Done tt (write_bytes target t src h).
Proof.
  intros Hm Hd. induction m as [|m IH].
  - simpl. by rewrite Nat.add_0_r, drop_0.
  - destruct (lookup_lt_is_Some_2 src m) as [x Hx]; [rewrite length_window; lia|].
    simpl mfor_down.
    erewrite bind_Done; [|apply (copy_step (t + S m) (drop (S m) src) m x); try done; try lia].
    + rewrite <- IH by lia. f_equal. rewrite (drop_S _ _ _ Hx).
      unfold write_bytes. rewrite upd_array_compose. apply upd_array_ext. intros l. simpl.
      by rewrite !Nat.add_succ_r, (Nat.add_comm m t).
    + by apply Forall_drop, window_bytes.
Qed.

Lemma copy_backward :
  (v_off this + s <= v_off target + t)%nat ->
  mfor_down n (copy_body this target (Z.of_nat s) (Z.of_nat t)) h =
  Done tt (write_bytes target t src h).
Proof.
  intros Hd. rewrite <- (copy_backward_from n) by lia. f_equal.
  rewrite drop_ge by (rewrite length_window; lia). by rewrite write_bytes_nil.
Qed.

Lemma copy_set z : z = Z.of_nat t ->
  set_bytes target z (take n (drop s (contents h this))) h = Done tt (write_bytes target t src h).
Proof.
  intros ->. fold (window h this s n). fold src.
  rewrite set_bytes_spec; [by rewrite Nat2Z.id|apply window_bytes|lia|].
  rewrite length_window. unfold blen. lia.
Qed.
End Copy.

(** The number of bytes [copy] moves for in-range arguments. *)
Definition copy_count (this target : view) (t s e : Z) : Z :=
  Z.min (Z.min e (blen this) - s) (blen target - t).

(** [copy] is a block move: the target receives the bytes the source window had
    before the call.  For the same object this includes overlapping windows;
    distinct views of one array need windows the forward loop does not clobber. *)
Lemma copy_spec_gen h this target t s e :
  wf_view h this -> wf_view h target ->
  (v_id this = v_id target -> this = target) ->
  0 <= t <= blen target -> 0 <= s < blen this -> s < e -> 0 < blen target ->
  let n := copy_count this target t s e in
  this = target \/ v_ab this <> v_ab target \/
  (v_off target + Z.to_nat t <= v_off this + Z.to_nat s)%nat \/
  (v_off this + Z.to_nat s + Z.to_nat n <= v_off target + Z.to_nat t)%nat ->
  copy this target (Some t) (Some s) (Some e) h =
  Done n (write_bytes target (Z.to_nat t) (window h this (Z.to_nat s) (Z.to_nat n)) h).
Proof.
  intros Hthis Htarget Hid Ht Hs He Htl n Hd. unfold copy. cbn [default id from_option].
  replace (if blen target <=? t then blen target else t) with t by (destr_cmp; lia).
  replace ((0 <? e) && (e <? s)) with false by (destr_cmp; simpl; done || lia).
  replace (e =? s) with false by lia. replace (blen target =? 0) with false by lia.
  replace (blen this =? 0) with false by lia. replace (t <? 0) with false by lia.
  replace (s <? 0) with false by lia. replace (blen this <=? s) with false by lia.
  replace (e <? 0) with false by lia. cbn [orb].
  set (e1 := if blen this <? e then blen this else e).
  set (e2 := if blen target - t <? e1 - s then blen target - t + s else e1).
  assert (E1 : e1 = Z.min e (blen this)) by (subst e1; destr_cmp; lia). clearbody e1.
  assert (En : e2 - s = n) by (subst e2 n; unfold copy_count; destr_cmp; lia).
  rewrite En. clearbody e2. clear e1 E1.
  assert (0 <= n) by (subst n; unfold copy_count; lia).
  assert (Hn1 : (Z.to_nat s + Z.to_nat n <= v_len this)%nat)
    by (unfold n, copy_count, blen in *; lia).
  assert (Hn2 : (Z.to_nat t + Z.to_nat n <= v_len target)%nat)
    by (unfold n, copy_count, blen in *; lia).
  clearbody n. erewrite bind_Done; [done|].
  replace (copy_body this target s t)
    with (copy_body this target (Z.of_nat (Z.to_nat s)) (Z.of_nat (Z.to_nat t)))
    by (by rewrite !Z2Nat.id by lia).
  destruct (Nat.eqb_spec (v_id this) (v_id target)) as [Eid|Eid]; simpl;
    [pose proof (Hid Eid) as <-|].
  - destruct (Z.ltb_spec s t), (Z.ltb_spec t e2); simpl;
      [apply copy_backward; done || lia|..];
      (destruct (Z.ltb_spec n 1000);
        [apply copy_forward; done || lia|by apply copy_set; done || lia]).
  - destruct (Z.ltb_spec n 1000); [apply copy_forward; try done|by apply copy_set; done || lia].
    destruct Hd as [->|Hd]; [done|exact Hd].
Qed.

(** ** Lexicographic comparison *)

Fixpoint lex (a b : list Z) : Z :=
  match a, b with
  | [], [] => 0
  | [], _ => -1
  | _, [] => 1
  | x :: a', y :: b' => if x <? y then -1 else if y <? x then 1 else lex a' b'
  end.

Lemma lex_refl a : lex a a = 0.
Proof. induction a as [|x a IH]; simpl; [done|]. by rewrite Z.ltb_irrefl. Qed.

Lemma lex_0 a b : lex a b = 0 -> a = b.
Proof.
  revert b. induction a as [|x a IH]; intros [|y b]; simpl; try done.
  destr_cmp; try done. intros E. f_equal; [lia|auto].
Qed.

Lemma lex_antisym a b : lex b a = - lex a b.
Proof.
  revert b. induction a as [|x a IH]; intros [|y b]; simpl; try done.
  destr_cmp; try lia. apply IH.
Qed.

Lemma lex_trans a b c : lex a b = -1 -> lex b c = -1 -> lex a c = -1.
Proof.
  revert b c. induction a as [|x a IH]; intros [|y b] [|z c]; simpl; try done.
  destr_cmp; try lia; eauto.
Qed.

Lemma first_diff_spec h a b i n :
  wf_view h a -> wf_view h b -> (i + n = Nat.min (v_len a) (v_len b))%nat ->
  first_diff a b (Z.of_nat i) n h =
  Done match first_diff a b (Z.of_nat i) n h with Done d _ => d | _ => None end h /\
  lex (drop i (contents h a)) (drop i (contents h b)) =
  match first_diff a b (Z.of_nat i) n h with
  | Done (Some (x, y)) _ => three_way x y
  | _ => three_way (blen a) (blen b)
  end.
Proof.
  intros Ha Hb. revert i. induction n as [|n IH]; intros i Hi.
  - simpl. split; [done|].
    pose proof (length_contents h a Ha) as La. pose proof (length_contents h b Hb) as Lb.
    unfold three_way, blen.
    destruct (drop i (contents h a)) eqn:Ea, (drop i (contents h b)) eqn:Eb;
      apply (f_equal length) in Ea, Eb; rewrite length_drop in *; simpl in *;
      destr_cmp; lia.
  - destruct (contents_lookup h a Ha i) as (x & Hx & _); [lia|].
    destruct (contents_lookup h b Hb i) as (y & Hy & _); [lia|].
    simpl first_diff. unfold bind. rewrite !get_nat by done. rewrite Hx, Hy.
    rewrite (drop_S _ _ _ Hx), (drop_S _ _ _ Hy). simpl lex.
    destruct (decide (Some x = Some y)) as [E|E].
    + injection E as <-. rewrite Z.ltb_irrefl.
      replace (Z.of_nat i + 1) with (Z.of_nat (S i)) by lia. apply IH. lia.
    + simpl. split; [done|]. unfold three_way. destr_cmp; try done. assert (x = y) by lia.
      congruence.
Qed.

Lemma compare_spec h a b :
  wf_view h a -> wf_view h b -> (v_id a = v_id b -> a = b) ->
  compare a b h = Done (lex (contents h a) (contents h b)) h.
Proof.
  intros Ha Hb Hid. unfold compare.
  destruct (Nat.eqb_spec (v_id a) (v_id b)) as [E|E].
  - rewrite (Hid E), lex_refl. done.
  - replace (Z.to_nat (Z.min (blen a) (blen b))) with (Nat.min (v_len a) (v_len b))
      by (unfold blen; lia).
    destruct (first_diff_spec h a b 0 (Nat.min (v_len a) (v_len b)) Ha Hb eq_refl)
      as [E1 E2].
    unfold bind. change (Z.of_nat 0) with 0 in *. rewrite E1. rewrite !drop_0 in E2.
    rewrite E2. rewrite E1. by destruct (first_diff _ _ _ _ _) as [[[x y]|]| |].
Qed.

(** ** Byte swaps: every [w]-byte group is reversed *)

Fixpoint rev_chunks (w m : nat) (l : list Z) : list Z :=
  match m with
  | O => l
  | S m' => rev (take w l) ++ rev_chunks w m' (drop w l)
  end.

Lemma length_rev_chunks w m l : length (rev_chunks w m l) = length l.
Proof.
  revert l. induction m as [|m IH]; intros l; simpl; [done|].
  rewrite length_app, length_rev, IH, length_take, length_drop. lia.
Qed.

Lemma rev_chunks_involutive w m l :
  (w * m <= length l)%nat -> rev_chunks w m (rev_chunks w m l) = l.
Proof.
  revert l. induction m as [|m IH]; intros l H; simpl; [done|].
  assert (L : length (rev (take w l)) = w) by (rewrite length_rev, length_take; lia).
  rewrite take_app_length' by done. rewrite drop_app_length' by done.
  rewrite rev_involutive, IH by (rewrite length_drop; lia). apply take_drop.
Qed.

Lemma Forall_byte_1 x : 0 <= x < 256 -> Forall byte [x].
Proof. intros H. apply Forall_singleton. exact H. Qed.

Lemma swap_spec h b n m x y :
  wf_view h b -> contents h b !! n = Some x -> contents h b !! m = Some y ->
  exists h', swap b (Z.of_nat n) (Z.of_nat m) h = Done tt h' /\ wf_view h' b /\
    contents h' b = <[m := x]> (<[n := y]> (contents h b)).
Proof.
  intros Hwf Hx Hy.
  pose proof (contents_bytes h b Hwf) as Hb.
  pose proof (Forall_lookup_1 _ _ _ _ Hb Hx) as Bx. simpl in Bx.
  pose proof (Forall_lookup_1 _ _ _ _ Hb Hy) as By. simpl in By.
  pose proof (lookup_lt_Some _ _ _ Hx) as Ln. pose proof (lookup_lt_Some _ _ _ Hy) as Lm.
  rewrite length_contents in Ln, Lm by done. unfold byte in *.
  exists (write_bytes b m [x] (write_bytes b n [y] h)).
  assert (W : wf_view (write_bytes b n [y] h) b)
    by (apply wf_write_bytes; [done|]; by apply Forall_byte_1).
  split; [|split].
  - unfold swap. do 2 erewrite bind_Done by (by apply get_nat). rewrite Hx, Hy. simpl.
    erewrite bind_Done by (apply bset_in; unfold blen; lia).
    rewrite bset_in by (unfold blen; lia). by rewrite !Nat2Z.id, !toUint8_id by lia.
  - apply wf_write_bytes; [done|]. by apply Forall_byte_1.
  - rewrite contents_write_bytes by (done || simpl; lia).
    rewrite contents_write_bytes by (done || simpl; lia). done.
Qed.

(** The loop over the groups, for a body that reverses one group. *)
Definition reverses_group (b : view) (w : nat) (body : Z -> M store unit) : Prop :=
  forall h i pre c post,
    wf_view h b -> contents h b = pre ++ c ++ post ->
    length pre = (w * i)%nat -> length c = w ->
    exists h', body (Z.of_nat i) h = Done tt h' /\ wf_view h' b /\
      contents h' b = pre ++ rev c ++ post.

Lemma swap_loop b w body m :
  reverses_group b w body ->
  forall i pre post h,
    wf_view h b -> contents h b = pre ++ post ->
    length pre = (w * i)%nat -> (w * m <= length post)%nat ->
    exists h', mfor (Z.of_nat i) m body h = Done tt h' /\ wf_view h' b /\
      contents h' b = pre ++ rev_chunks w m post.
Proof.
  intros Hbody. induction m as [|m IH]; intros i pre post h Hwf Hc Hp Hl.
  - exists h. done.
  - destruct (Hbody h i pre (take w post) (drop w post)) as (h1 & E1 & W1 & C1);
      [done|by rewrite take_drop|done|rewrite length_take; lia|].
    destruct (IH (S i) (pre ++ rev (take w post)) (drop w post) h1) as (h2 & E2 & W2 & C2).
    + done.
    + by rewrite <- app_assoc.
    + rewrite length_app, length_rev, length_take. lia.
    + rewrite length_drop. lia.
    + exists h2. split; [|split; [done|]].
      * simpl mfor. erewrite bind_Done by exact E1.
        by replace (Z.of_nat i + 1) with (Z.of_nat (S i)) by lia.
      * rewrite C2. simpl. by rewrite <- app_assoc.
Qed.

(** [swap] of two positions of a group [c] that starts at [length pre]. *)
Lemma swap_in_group h b pre c post j k x y zj zk :
  wf_view h b -> contents h b = pre ++ c ++ post ->
  c !! j = Some x -> c !! k = Some y ->
  zj = Z.of_nat (length pre + j) -> zk = Z.of_nat (length pre + k) ->
  exists h', swap b zj zk h = Done tt h' /\ wf_view h' b /\
      contents h' b = pre ++ <[k := x]> (<[j := y]> c) ++ post.
Proof.
  intros Hwf Hc Hx Hy -> ->.
  pose proof (lookup_lt_Some _ _ _ Hx). pose proof (lookup_lt_Some _ _ _ Hy).
  destruct (swap_spec h b (length pre + j) (length pre + k) x y) as (h' & E & W & C);
    [done| | |].
  - rewrite Hc, lookup_app_r by lia. rewrite Nat.add_sub_swap, Nat.sub_diag by lia.
    by rewrite lookup_app_l by lia.
  - rewrite Hc, lookup_app_r by lia. rewrite Nat.add_sub_swap, Nat.sub_diag by lia.
    by rewrite lookup_app_l by lia.
  - exists h'. split; [done|split; [done|]]. rewrite C, Hc.
    rewrite !insert_app_r, !insert_app_l by (rewrite ?length_insert; lia). done.
Qed.

(** Run one [swap] of a group and expose the state it leaves. *)
Ltac swap_step j k :=
  match goal with
  | Hwf : wf_view ?h ?b, Hc : contents ?h ?b = ?pre ++ ?c ++ ?post
    |- exists h', _ ?h = Done tt h' /\ _ =>
      let h1 := fresh "h" in let E1 := fresh "E" in
      let W1 := fresh "W" in let C1 := fresh "C" in
      edestruct (swap_in_group h b pre c post j k) as (h1 & E1 & W1 & C1);
        [exact Hwf|exact Hc|reflexivity|reflexivity| | |];
        [| |first [erewrite bind_Done by exact E1 | rewrite E1]; clear Hwf Hc E1;
            cbn [insert list_insert] in C1]
  end.

Lemma swap16_group b :
  reverses_group b 2 (fun k => swap b (2 * k) (2 * k + 1)).
Proof.
  intros h i pre c post Hwf Hc Hp Hl.
  destruct c as [|c0 [|c1 [|]]]; simpl in Hl; try lia.
  swap_step 0%nat 1%nat; [lia..|]. eauto.
Qed.

Lemma swap32_group b :
  reverses_group b 4 (fun k => do! swap b (4 * k) (4 * k + 3); swap b (4 * k + 1) (4 * k + 2)).
Proof.
  intros h i pre c post Hwf Hc Hp Hl.
  destruct c as [|c0 [|c1 [|c2 [|c3 [|]]]]]; simpl in Hl; try lia.
  swap_step 0%nat 3%nat; [lia..|]. swap_step 1%nat 2%nat; [lia..|]. eauto.
Qed.

Lemma swap64_group b :
  reverses_group b 8 (fun k =>
    do! swap b (8 * k) (8 * k + 7);
    do! swap b (8 * k + 1) (8 * k + 6);
    do! swap b (8 * k + 2) (8 * k + 5);
    swap b (8 * k + 3) (8 * k + 4)).
Proof.
  intros h i pre c post Hwf Hc Hp Hl.
  destruct c as [|c0 [|c1 [|c2 [|c3 [|c4 [|c5 [|c6 [|c7 [|]]]]]]]]]; simpl in Hl; try lia.
  swap_step 0%nat 7%nat; [lia..|]. swap_step 1%nat 6%nat; [lia..|].
  swap_step 2%nat 5%nat; [lia..|]. swap_step 3%nat 4%nat; [lia..|]. eauto.
Qed.

Lemma swap_run h b w body m :
  wf_view h b -> reverses_group b w body -> v_len b = (w * m)%nat ->
  exists h', mfor 0 m body h = Done tt h' /\ wf_view h' b /\
             contents h' b = rev_chunks w m (contents h b).
Proof.
  intros Hwf Hb Hm.
  apply (swap_loop b w body m Hb 0 [] (contents h b) h); simpl; try done; try lia.
  rewrite length_contents by done. lia.
Qed.

(** What a swap promises for a group width [w]. *)
Definition swaps (w : nat) (op : view -> M store view) (h : store) (b : view) : Prop :=
  (Nat.divide w (v_len b) ->
     exists h1 h2, op b h = Done b h1 /\
       contents h1 b = rev_chunks w (v_len b / w) (contents h b) /\
       op b h1 = Done b h2 /\ contents h2 b = contents h b) /\
  (~ Nat.divide w (v_len b) -> exists msg, op b h = Raise (RangeError msg) h).

Lemma swaps_intro w op h b body msg :
  (0 < w)%nat -> wf_view h b -> reverses_group b w body ->
  op b = (if negb (blen b mod Z.of_nat w =? 0) then throw (RangeError msg)
          else do! mfor 0 (Z.to_nat (blen b / Z.of_nat w)) body; ret b) ->
  swaps w op h b.
Proof.
  intros Hw Hwf Hbody Hop. unfold swaps. rewrite Hop. unfold blen.
  rewrite <- Nat2Z.inj_div, Nat2Z.id.
  replace (Z.of_nat (v_len b) mod Z.of_nat w =? 0) with ((v_len b mod w) =? 0)%nat
    by (rewrite <- Nat2Z.inj_mod; destruct (Nat.eqb_spec (v_len b mod w) 0); destr_cmp; lia).
  split; intros Hd.
  - apply Nat.Lcm0.mod_divide in Hd. rewrite Hd. simpl.
    assert (Hm : v_len b = (w * (v_len b / w))%nat)
      by (rewrite (Nat.div_mod_eq (v_len b) w) at 1; lia).
    destruct (swap_run h b w body _ Hwf Hbody Hm) as (h1 & E1 & W1 & C1).
    destruct (swap_run h1 b w body _ W1 Hbody Hm) as (h2 & E2 & W2 & C2).
    exists h1, h2. rewrite (bind_Done _ _ _ _ _ E1), (bind_Done _ _ _ _ _ E2).
    repeat split; try done. rewrite C2, C1. apply rev_chunks_involutive.
    rewrite length_contents by done. lia.
  - exists msg. destruct (Nat.eqb_spec (v_len b mod w) 0) as [E|E]; [|done].
    destruct Hd. by apply Nat.Lcm0.mod_divide.
Qed.

(** ** Properties *)

(** [slice] clamps its bounds, returns the bytes between them, and the
    result aliases the parent: a byte written through the slice is the byte of
    the parent at the shifted index, and no other byte changes. *)
Theorem slice_write_alias h b start stop v h1 i x :
  wf_view h b -> slice b start stop h = Done v h1 -> 0 <= i < blen v ->
  contents h1 v = take (Z.to_nat (slice_hi b start stop - slice_lo b start))
                    (drop (Z.to_nat (slice_lo b start)) (contents h b)) /\
  exists h2, bset v i x h1 = Done tt h2 /\
    contents h2 v = <[Z.to_nat i := toUint8 x]> (contents h1 v) /\
    contents h2 b = <[Z.to_nat (slice_lo b start + i) := toUint8 x]> (contents h b).
Proof.
  intros Hwf Hs Hi. destruct (slice_spec h b start stop Hwf)
    as (v' & h' & E & Wv & Wb & Cb & Cv & Eab & Eoff).
  rewrite Hs in E. injection E as <- <-. split; [done|].
  pose proof (slice_bounds b start stop).
  assert (Lv : v_len v = Z.to_nat (slice_hi b start stop - slice_lo b start)).
  { pose proof (length_contents h1 v Wv) as L. rewrite Cv in L.
    rewrite length_take, length_drop, length_contents in L by done. unfold blen in *. lia. }
  unfold blen in *. exists (write_bytes v (Z.to_nat i) [toUint8 x] h1).
  split; [by apply bset_in|split].
  - by rewrite contents_write_bytes by (done || simpl; lia).
  - rewrite (contents_write_alias h1 b Wb) by (done || simpl; lia).
    rewrite Cb. simpl. f_equal. lia.
Qed.

(** C32: [copy] moves a block: it returns the number of bytes that fit and the
    target holds, from [targetStart] on, the bytes the source window had before
    the call.  For one and the same Buffer this includes overlapping windows
    (the backward loop); for two views of one ArrayBuffer the windows must not
    make the forward loop overwrite bytes it still has to read. *)
Theorem copy_block_move h this target t s e :
  wf_view h this -> wf_view h target -> (v_id this = v_id target -> this = target) ->
  0 <= t <= blen target -> 0 <= s < blen this -> s < e -> 0 < blen target ->
  let n := copy_count this target t s e in
  this = target \/ v_ab this <> v_ab target \/
  (v_off target + Z.to_nat t <= v_off this + Z.to_nat s)%nat \/
  (v_off this + Z.to_nat s + Z.to_nat n <= v_off target + Z.to_nat t)%nat ->
  exists h', copy this target (Some t) (Some s) (Some e) h = Done n h' /\
    wf_view h' target /\
    contents h' target =
      list_inserts (Z.to_nat t) (take (Z.to_nat n) (drop (Z.to_nat s) (contents h this)))
        (contents h target).
Proof.
  intros Hthis Htarget Hid Ht Hs He Htl n Hd.
  eexists. split; [by apply copy_spec_gen|].
  assert (B : Forall byte (window h this (Z.to_nat s) (Z.to_nat n)))
    by (by apply Forall_take, Forall_drop, contents_bytes).
  split; [by apply wf_write_bytes|].
  apply contents_write_bytes; [done|]. unfold window.
  rewrite length_take, length_drop, length_contents by done.
  fold n. assert (n <= blen target - t) by (subst n; unfold copy_count; lia).
  unfold blen in *. lia.
Qed.

Definition ex_store : store := Store [[1; 2; 3; 4; 5; 6]; [7; 8]] 10.
Definition ex_view : view := View 0 0 0 6.
Definition ex_view2 : view := View 1 1 0 2.

Lemma slice_write_alias_witness :
  exists v h1, slice ex_view (Some (-4)) (Some 5) ex_store = Done v h1 /\
    exists h2, bset v 1 300 h1 = Done tt h2 /\ contents h2 ex_view = [1; 2; 3; 44; 5; 6].
Proof.
  do 2 eexists. split; [reflexivity|].
  destruct (slice_write_alias ex_store ex_view (Some (-4)) (Some 5)
    (View 10 0 2 3) (Store [[1; 2; 3; 4; 5; 6]; [7; 8]] 11) 1 300)
    as (_ & h2 & E & _ & C); [vm_decide|reflexivity|done|].
  exists h2. split; [exact E|]. rewrite C. reflexivity.
Defined.

Lemma copy_block_move_witness :
  exists h', copy ex_view ex_view (Some 1) (Some 0) (Some 4) ex_store = Done 4 h' /\
    contents h' ex_view = [1; 1; 2; 3; 4; 6].
Proof.
  destruct (copy_block_move ex_store ex_view ex_view 1 0 4) as (h' & E & _ & C);
    [vm_decide|vm_decide|done|vm_compute; split; discriminate
    |vm_compute; split; done|done|done|by left|].
  exists h'. split; [exact E|]. rewrite C. reflexivity.
Defined.

(** The identity test of [copy] misses overlap between two distinct views of
    one ArrayBuffer: copying bytes 0..2 of a buffer one place to the right
    through its own slice repeats the first byte instead of moving the block. *)
Theorem copy_overlapping_views_clobber :
  let h := Store [[1; 2; 3; 4]] 1 in
  let b := View 0 0 0 4 in
  exists v h1 h2,
    slice b (Some 0) (Some 3) h = Done v h1 /\
    copy v b (Some 1) None None h1 = Done 3 h2 /\
    contents h2 b = [1; 1; 1; 1] /\
    list_inserts 1 (contents h1 v) (contents h1 b) = [1; 1; 2; 3].
Proof.
  exists (View 1 0 0 3), (Store [[1; 2; 3; 4]] 2), (Store [[1; 1; 1; 1]] 2).
  repeat split; vm_compute; reflexivity.
Qed.

(** [Buffer.compare] is the lexicographic order on the bytes, a total order
    whose equality is equality of contents, and [equals] decides that equality;
    neither changes memory. *)
Theorem compare_lexicographic h a b :
  wf_view h a -> wf_view h b -> (v_id a = v_id b -> a = b) ->
  compare a b h = Done (lex (contents h a) (contents h b)) h /\
  compare b a h = Done (- lex (contents h a) (contents h b)) h /\
  equals a b h = Done (bool_decide (contents h a = contents h b)) h.
Proof.
  intros Ha Hb Hid.
  assert (Hc : compare a b h = Done (lex (contents h a) (contents h b)) h)
    by (by apply compare_spec).
  split; [done|]. split.
  - rewrite <- lex_antisym. apply compare_spec; try done. intros E. symmetry. by apply Hid.
  - unfold equals. destruct (Nat.eqb_spec (v_id a) (v_id b)) as [E|E].
    + rewrite (Hid E). by rewrite bool_decide_true.
    + rewrite (bind_Done _ _ _ _ _ Hc). unfold ret. f_equal.
      case_bool_decide as Heq; [by rewrite Heq, lex_refl|].
      destruct (Z.eqb_spec (lex (contents h a) (contents h b)) 0) as [E0|E0]; [|done].
      by apply lex_0 in E0.
Qed.

Lemma compare_lexicographic_witness :
  compare ex_view ex_view2 ex_store = Done (-1) ex_store /\
  equals ex_view ex_view2 ex_store = Done false ex_store.
Proof.
  destruct (compare_lexicographic ex_store ex_view ex_view2) as (E1 & _ & E2);
    [vm_decide|vm_decide|done|].
  split; [exact E1|exact E2].
Defined.

(** [buf.compare(buf, ...)] answers 0 for any two non-empty ranges of the
    same Buffer, although the bytes of the ranges differ: the identity shortcut
    ignores the ranges. *)
Theorem compare_range_self h b s e s' e' :
  0 <= s < e -> e <= blen b -> 0 <= s' < e' -> e' <= blen b ->
  compare_range b b (Some s) (Some e) (Some s') (Some e') h = Done 0 h.
Proof.
  intros. unfold compare_range. simpl. rewrite Nat.eqb_refl.
  replace (s <? 0) with false by lia. replace (blen b <? e) with false by lia.
  replace (s' <? 0) with false by lia. replace (blen b <? e') with false by lia.
  replace (e' <=? s') with false by lia. replace (e <=? s) with false by lia. done.
Qed.

Lemma compare_range_self_witness :
  compare_range ex_view ex_view (Some 0) (Some 1) (Some 1) (Some 2) ex_store = Done 0 ex_store /\
  lex (take 1 (drop 1 (contents ex_store ex_view))) (take 1 (contents ex_store ex_view)) = 1.
Proof.
  split; [apply (compare_range_self ex_store ex_view 0 1 1 2); vm_compute; intuition discriminate|].
  reflexivity.
Defined.

(** [swap16], [swap32] and [swap64] reverse every group of 2, 4 and 8 bytes
    in place, are involutions, and throw a [RangeError] and leave memory alone
    when the length is not a multiple of the group. *)
Theorem swap_bytes_spec h b :
  wf_view h b -> swaps 2 swap16 h b /\ swaps 4 swap32 h b /\ swaps 8 swap64 h b.
Proof.
  intros Hwf. split; [|split].
  - eapply swaps_intro; [lia|done|apply swap16_group|done].
  - eapply swaps_intro; [lia|done|apply swap32_group|done].
  - eapply swaps_intro; [lia|done|apply swap64_group|done].
Qed.

Lemma swap_bytes_spec_witness :
  exists h1 h2, swap16 ex_view ex_store = Done ex_view h1 /\
    contents h1 ex_view = [2; 1; 4; 3; 6; 5] /\
    swap16 ex_view h1 = Done ex_view h2 /\ contents h2 ex_view = contents ex_store ex_view.
Proof.
  destruct (swap_bytes_spec ex_store ex_view) as [[H _] _]; [vm_decide|].
  destruct H as (h1 & h2 & E1 & C1 & E2 & C2); [by exists 3%nat|].
  exists h1, h2. split; [exact E1|]. split; [rewrite C1; reflexivity|]. split; [exact E2|exact C2].
Defined.
