(* ===== verification/BufferInt.v ===== *)
(** Integer reads and writes of [Buffer.prototype].

    Numbers are integral JavaScript numbers, modelled as [Z]; the sums and
    products of the byte loops are exact in a double for [byteLength <= 6], the
    range the theorems use.  A read returns [None] for [undefined] or [NaN],
    which only a [noAssert] call outside the buffer produces. *)
From S2P Require Import Prelude BufferStore.

Definition add_n (a b : option Z) : option Z :=
  match a, b with Some x, Some y => Some (x + y) | _, _ => None end.
Definition mul_n (a : option Z) (k : Z) : option Z :=
  match a with Some x => Some (x * k) | None => None end.

(** ** Reads *)

Definition checkOffset (offset ext len : Z) : M store unit :=
  if offset <? 0 then throw (RangeError "offset is not uint")
  else if len <? offset + ext
  then throw (RangeError "Trying to access beyond buffer length")
  else ret tt.

(** [while (++i < byteLength && (mul *= 256)) val += this[offset + i] * mul],
    with [n] iterations left and [mul] not yet multiplied. *)
Fixpoint read_le (b : view) (offset i : Z) (n : nat) (mul : Z) (val : option Z)
    : M store (option Z * Z) :=
  match n with
  | O => ret (val, mul)
  | S n' =>
      let mul := mul * 256 in
      let! x := get b (offset + i) in
      read_le b offset (i + 1) n' mul (add_n val (mul_n x mul))
  end.

(** [while (byteLength > 0 && (mul *= 256)) val += this[offset + --byteLength] * mul] *)
Fixpoint read_be (b : view) (offset : Z) (n : nat) (mul : Z) (val : option Z)
    : M store (option Z * Z) :=
  match n with
  | O => ret (val, mul)
  | S n' =>
      let mul := mul * 256 in
      let! x := get b (offset + Z.of_nat n') in
      read_be b offset n' mul (add_n val (mul_n x mul))
  end.

Definition readUIntLE (b : view) (offset byteLength : Z) (noAssert : bool) : M store (option Z) :=
  let offset := toInt32 offset in
  let byteLength := toInt32 byteLength in
  do! mwhen (negb noAssert) (checkOffset offset byteLength (blen b));
  let! val := get b offset in
  let! r := read_le b offset 1 (Z.to_nat (byteLength - 1)) 1 val in
  ret r.1.

Definition readUIntBE (b : view) (offset byteLength : Z) (noAssert : bool) : M store (option Z) :=
  let offset := toInt32 offset in
  let byteLength := toInt32 byteLength in
  do! mwhen (negb noAssert) (checkOffset offset byteLength (blen b));
  let byteLength := byteLength - 1 in
  let! val := get b (offset + byteLength) in
  let! r := read_be b offset (Z.to_nat byteLength) 1 val in
  ret r.1.

Definition sign_adjust (val : option Z) (mul byteLength : Z) : option Z :=
  let mul := mul * 128 in
  match val with
  | Some v => Some (if mul <=? v then v - 2 ^ (8 * byteLength) else v)
  | None => None
  end.

Definition readIntLE (b : view) (offset byteLength : Z) (noAssert : bool) : M store (option Z) :=
  let offset := toInt32 offset in
  let byteLength := toInt32 byteLength in
  do! mwhen (negb noAssert) (checkOffset offset byteLength (blen b));
  let! val := get b offset in
  let! r := read_le b offset 1 (Z.to_nat (byteLength - 1)) 1 val in
  ret (sign_adjust r.1 r.2 byteLength).

Definition readIntBE (b : view) (offset byteLength : Z) (noAssert : bool) : M store (option Z) :=
  let offset := toInt32 offset in
  let byteLength := toInt32 byteLength in
  do! mwhen (negb noAssert) (checkOffset offset byteLength (blen b));
  let i := byteLength - 1 in
  let! val := get b (offset + i) in
  let! r := read_be b offset (Z.to_nat i) 1 val in
  ret (sign_adjust r.1 r.2 byteLength).

Definition readUInt8 (b : view) (offset : Z) (noAssert : bool) : M store (option Z) :=
  do! mwhen (negb noAssert) (checkOffset offset 1 (blen b));
  get b offset.

Definition readUInt16LE (b : view) (offset : Z) (noAssert : bool) : M store (option Z) :=
  do! mwhen (negb noAssert) (checkOffset offset 2 (blen b));
  let! x0 := get b offset in
  let! x1 := get b (offset + 1) in
  ret (Some (js_or (n32 x0) (js_shl (n32 x1) 8))).

Definition readUInt16BE (b : view) (offset : Z) (noAssert : bool) : M store (option Z) :=
  do! mwhen (negb noAssert) (checkOffset offset 2 (blen b));
  let! x0 := get b offset in
  let! x1 := get b (offset + 1) in
  ret (Some (js_or (js_shl (n32 x0) 8) (n32 x1))).

Definition readUInt32LE (b : view) (offset : Z) (noAssert : bool) : M store (option Z) :=
  do! mwhen (negb noAssert) (checkOffset offset 4 (blen b));
  let! x0 := get b offset in
  let! x1 := get b (offset + 1) in
  let! x2 := get b (offset + 2) in
  let! x3 := get b (offset + 3) in
  ret (add_n (Some (js_or (js_or (n32 x0) (js_shl (n32 x1) 8)) (js_shl (n32 x2) 16)))
             (mul_n x3 16777216)).

Definition readUInt32BE (b : view) (offset : Z) (noAssert : bool) : M store (option Z) :=
  do! mwhen (negb noAssert) (checkOffset offset 4 (blen b));
  let! x0 := get b offset in
  let! x1 := get b (offset + 1) in
  let! x2 := get b (offset + 2) in
  let! x3 := get b (offset + 3) in
  ret (add_n (mul_n x0 16777216)
             (Some (js_or (js_or (js_shl (n32 x1) 16) (js_shl (n32 x2) 8)) (n32 x3)))).

(** [!(this[offset] & 128)] decides the sign; [undefined] reads as positive. *)
Definition readInt8 (b : view) (offset : Z) (noAssert : bool) : M store (option Z) :=
  do! mwhen (negb noAssert) (checkOffset offset 1 (blen b));
  let! x := get b offset in
  if js_and (n32 x) 128 =? 0 then ret x
  else ret (Some ((255 - n32 x + 1) * -1)).

Definition sign16 (val : Z) : Z :=
  if js_and val 32768 =? 0 then val else js_or val 4294901760.

Definition readInt16LE (b : view) (offset : Z) (noAssert : bool) : M store (option Z) :=
  do! mwhen (negb noAssert) (checkOffset offset 2 (blen b));
  let! x0 := get b offset in
  let! x1 := get b (offset + 1) in
  ret (Some (sign16 (js_or (n32 x0) (js_shl (n32 x1) 8)))).

Definition readInt16BE (b : view) (offset : Z) (noAssert : bool) : M store (option Z) :=
  do! mwhen (negb noAssert) (checkOffset offset 2 (blen b));
  let! x1 := get b (offset + 1) in
  let! x0 := get b offset in
  ret (Some (sign16 (js_or (n32 x1) (js_shl (n32 x0) 8)))).

Definition readInt32LE (b : view) (offset : Z) (noAssert : bool) : M store (option Z) :=
  do! mwhen (negb noAssert) (checkOffset offset 4 (blen b));
  let! x0 := get b offset in
  let! x1 := get b (offset + 1) in
  let! x2 := get b (offset + 2) in
  let! x3 := get b (offset + 3) in
  ret (Some (js_or (js_or (js_or (n32 x0) (js_shl (n32 x1) 8)) (js_shl (n32 x2) 16))
                   (js_shl (n32 x3) 24))).

Definition readInt32BE (b : view) (offset : Z) (noAssert : bool) : M store (option Z) :=
  do! mwhen (negb noAssert) (checkOffset offset 4 (blen b));
  let! x0 := get b offset in
  let! x1 := get b (offset + 1) in
  let! x2 := get b (offset + 2) in
  let! x3 := get b (offset + 3) in
  ret (Some (js_or (js_or (js_or (js_shl (n32 x0) 24) (js_shl (n32 x1) 16)) (js_shl (n32 x2) 8))
                   (n32 x3))).

(** ** Writes *)

Definition checkInt (b : view) (value offset ext max min : Z) : M store unit :=
  if (max <? value) || (value <? min)
  then throw (RangeError "'value' argument is out of bounds")
  else if blen b <? offset + ext then throw (RangeError "Index out of range")
  else ret tt.

(** [value / mul & 255]: the quotient is truncated towards zero by [ToInt32]. *)
Definition byte_of (value mul : Z) : Z := js_and (Z.quot value mul) 255.

Fixpoint write_le (b : view) (value offset i : Z) (n : nat) (mul : Z) : M store unit :=
  match n with
  | O => ret tt
  | S n' =>
      let mul := mul * 256 in
      do! bset b (offset + i) (byte_of value mul);
      write_le b value offset (i + 1) n' mul
  end.

(** [while (--i >= 0 && (mul *= 256)) this[offset + i] = value / mul & 255] *)
Fixpoint write_be (b : view) (value offset : Z) (n : nat) (mul : Z) : M store unit :=
  match n with
  | O => ret tt
  | S n' =>
      let mul := mul * 256 in
      do! bset b (offset + Z.of_nat n') (byte_of value mul);
      write_be b value offset n' mul
  end.

Definition writeUIntLE (b : view) (value offset byteLength : Z) (noAssert : bool) : M store Z :=
  let offset := toInt32 offset in
  let byteLength := toInt32 byteLength in
  do! mwhen (negb noAssert) (checkInt b value offset byteLength (2 ^ (8 * byteLength) - 1) 0);
  do! bset b offset (js_and value 255);
  do! write_le b value offset 1 (Z.to_nat (byteLength - 1)) 1;
  ret (offset + byteLength).

Definition writeUIntBE (b : view) (value offset byteLength : Z) (noAssert : bool) : M store Z :=
  let offset := toInt32 offset in
  let byteLength := toInt32 byteLength in
  do! mwhen (negb noAssert) (checkInt b value offset byteLength (2 ^ (8 * byteLength) - 1) 0);
  let i := byteLength - 1 in
  do! bset b (offset + i) (js_and value 255);
  do! write_be b value offset (Z.to_nat i) 1;
  ret (offset + byteLength).

(** Signed writes: [sub] borrows 1 from the truncated quotient of a negative
    value once a lower byte was not zero. *)
Definition borrow (value sub : Z) (prev : option Z) : Z :=
  if (value <? 0) && (sub =? 0) && negb (bool_decide (prev = Some 0)) then 1 else sub.

Definition sbyte_of (value mul sub : Z) : Z := js_and (js_shr (Z.quot value mul) 0 - sub) 255.

Fixpoint swrite_le (b : view) (value offset i : Z) (n : nat) (mul sub : Z) : M store unit :=
  match n with
  | O => ret tt
  | S n' =>
      let mul := mul * 256 in
      let! prev := get b (offset + i - 1) in
      let sub := borrow value sub prev in
      do! bset b (offset + i) (sbyte_of value mul sub);
      swrite_le b value offset (i + 1) n' mul sub
  end.

Fixpoint swrite_be (b : view) (value offset : Z) (n : nat) (mul sub : Z) : M store unit :=
  match n with
  | O => ret tt
  | S n' =>
      let mul := mul * 256 in
      let! prev := get b (offset + Z.of_nat n' + 1) in
      let sub := borrow value sub prev in
      do! bset b (offset + Z.of_nat n') (sbyte_of value mul sub);
      swrite_be b value offset n' mul sub
  end.

Definition writeIntLE (b : view) (value offset byteLength : Z) (noAssert : bool) : M store Z :=
  let offset := toInt32 offset in
  let limit := 2 ^ (8 * byteLength - 1) in
  do! mwhen (negb noAssert) (checkInt b value offset byteLength (limit - 1) (- limit));
  do! bset b offset (js_and value 255);
  do! swrite_le b value offset 1 (Z.to_nat (byteLength - 1)) 1 0;
  ret (offset + byteLength).

Definition writeIntBE (b : view) (value offset byteLength : Z) (noAssert : bool) : M store Z :=
  let offset := toInt32 offset in
  let limit := 2 ^ (8 * byteLength - 1) in
  do! mwhen (negb noAssert) (checkInt b value offset byteLength (limit - 1) (- limit));
  let i := byteLength - 1 in
  do! bset b (offset + i) (js_and value 255);
  do! swrite_be b value offset (Z.to_nat i) 1 0;
  ret (offset + byteLength).

Definition writeUInt8 (b : view) (value offset : Z) (noAssert : bool) : M store Z :=
  let offset := toInt32 offset in
  do! mwhen (negb noAssert) (checkInt b value offset 1 255 0);
  do! bset b offset (js_and value 255);
  ret (offset + 1).

Definition writeInt8 (b : view) (value offset : Z) (noAssert : bool) : M store Z :=
  let offset := toInt32 offset in
  do! mwhen (negb noAssert) (checkInt b value offset 1 127 (-128));
  let value := if value <? 0 then 255 + value + 1 else value in
  do! bset b offset (js_and value 255);
  ret (offset + 1).

(** The typed-array bodies shared by the signed and unsigned 16 and 32 bit writes. *)
Definition put16LE (b : view) (value offset : Z) : M store unit :=
  do! bset b offset (js_and value 255);
  bset b (offset + 1) (js_ushr value 8).

Definition put16BE (b : view) (value offset : Z) : M store unit :=
  do! bset b offset (js_ushr value 8);
  bset b (offset + 1) (js_and value 255).

Definition writeUInt16LE (b : view) (value offset : Z) (noAssert : bool) : M store Z :=
  let offset := toInt32 offset in
  do! mwhen (negb noAssert) (checkInt b value offset 2 65535 0);
  do! put16LE b value offset; ret (offset + 2).

Definition writeUInt16BE (b : view) (value offset : Z) (noAssert : bool) : M store Z :=
  let offset := toInt32 offset in
  do! mwhen (negb noAssert) (checkInt b value offset 2 65535 0);
  do! put16BE b value offset; ret (offset + 2).

Definition writeInt16LE (b : view) (value offset : Z) (noAssert : bool) : M store Z :=
  let offset := toInt32 offset in
  do! mwhen (negb noAssert) (checkInt b value offset 2 32767 (-32768));
  do! put16LE b value offset; ret (offset + 2).

Definition writeInt16BE (b : view) (value offset : Z) (noAssert : bool) : M store Z :=
  let offset := toInt32 offset in
  do! mwhen (negb noAssert) (checkInt b value offset 2 32767 (-32768));
  do! put16BE b value offset; ret (offset + 2).

(** [writeUInt32LE] stores from the highest byte down. *)
Definition writeUInt32LE (b : view) (value offset : Z) (noAssert : bool) : M store Z :=
  let offset := toInt32 offset in
  do! mwhen (negb noAssert) (checkInt b value offset 4 4294967295 0);
  do! bset b (offset + 3) (js_ushr value 24);
  do! bset b (offset + 2) (js_ushr value 16);
  do! bset b (offset + 1) (js_ushr value 8);
  do! bset b offset (js_and value 255);
  ret (offset + 4).

Definition put32BE (b : view) (value offset : Z) : M store unit :=
  do! bset b offset (js_ushr value 24);
  do! bset b (offset + 1) (js_ushr value 16);
  do! bset b (offset + 2) (js_ushr value 8);
  bset b (offset + 3) (js_and value 255).

Definition writeUInt32BE (b : view) (value offset : Z) (noAssert : bool) : M store Z :=
  let offset := toInt32 offset in
  do! mwhen (negb noAssert) (checkInt b value offset 4 4294967295 0);
  do! put32BE b value offset; ret (offset + 4).

Definition writeInt32LE (b : view) (value offset : Z) (noAssert : bool) : M store Z :=
  let offset := toInt32 offset in
  do! mwhen (negb noAssert) (checkInt b value offset 4 2147483647 (-2147483648));
  do! bset b offset (js_and value 255);
  do! bset b (offset + 1) (js_ushr value 8);
  do! bset b (offset + 2) (js_ushr value 16);
  do! bset b (offset + 3) (js_ushr value 24);
  ret (offset + 4).

Definition writeInt32BE (b : view) (value offset : Z) (noAssert : bool) : M store Z :=
  let offset := toInt32 offset in
  do! mwhen (negb noAssert) (checkInt b value offset 4 2147483647 (-2147483648));
  let value := if value <? 0 then 4294967295 + value + 1 else value in
  do! put32BE b value offset; ret (offset + 4).

(** ** The fallback writers used without typed arrays *)

Definition objectWriteUInt16 (b : view) (value offset : Z) (littleEndian : bool) : M store unit :=
  let value := if value <? 0 then 65535 + value + 1 else value in
  mfor 0 (Z.to_nat (Z.min (blen b - offset) 2)) (fun i =>
    let k := if littleEndian then i else 1 - i in
    bset b (offset + i) (js_ushr (js_and value (js_shl 255 (8 * k))) (k * 8))).

Definition objectWriteUInt32 (b : view) (value offset : Z) (littleEndian : bool) : M store unit :=
  let value := if value <? 0 then 4294967295 + value + 1 else value in
  mfor 0 (Z.to_nat (Z.min (blen b - offset) 4)) (fun i =>
    let k := if littleEndian then i else 3 - i in
    bset b (offset + i) (js_and (js_ushr value (k * 8)) 255)).

(** ** Byte lists as numbers *)

Fixpoint le_val (l : list Z) : Z :=
  match l with [] => 0 | x :: l' => x + 256 * le_val l' end.

Fixpoint le_bytes (n : nat) (v : Z) : list Z :=
  match n with O => [] | S n' => v mod 256 :: le_bytes n' (v / 256) end.

Lemma length_le_bytes n v : length (le_bytes n v) = n.
Proof. revert v. induction n as [|n IH]; intros v; simpl; auto. Qed.

Lemma le_bytes_bytes n v : Forall byte (le_bytes n v).
Proof.
  revert v. induction n as [|n IH]; intros v; simpl; constructor; auto.
  apply Z.mod_pos_bound. lia.
Qed.

Lemma pow256_S n : 256 ^ Z.of_nat (S n) = 256 * 256 ^ Z.of_nat n.
Proof. rewrite Nat2Z.inj_succ, Z.pow_succ_r; lia. Qed.

Lemma pow256_pos (n : nat) : 0 < 256 ^ Z.of_nat n.
Proof. apply Z.pow_pos_nonneg; lia. Qed.

Lemma pow256 (n : nat) : 256 ^ Z.of_nat n = 2 ^ (8 * Z.of_nat n).
Proof. rewrite Z.pow_mul_r by lia. done. Qed.

Lemma le_val_bytes n v : le_val (le_bytes n v) = v mod 256 ^ Z.of_nat n.
Proof.
  revert v. induction n as [|n IH]; intros v; simpl le_bytes; simpl le_val.
  - by rewrite Z.mod_1_r.
  - rewrite IH, pow256_S. pose proof (pow256_pos n). rewrite Z.rem_mul_r by lia. done.
Qed.

Lemma le_val_app l1 l2 :
  le_val (l1 ++ l2) = le_val l1 + 256 ^ Z.of_nat (length l1) * le_val l2.
Proof.
  induction l1 as [|x l1 IH]; cbn [app le_val length].
  - rewrite Z.pow_0_r. lia.
  - rewrite IH, pow256_S. lia.
Qed.

Lemma le_bytes_S_r n v :
  le_bytes (S n) v = le_bytes n v ++ [(v / 256 ^ Z.of_nat n) mod 256].
Proof.
  revert v. induction n as [|n IH]; intros v.
  - simpl. by rewrite Z.div_1_r.
  - change (le_bytes (S (S n)) v) with (v mod 256 :: le_bytes (S n) (v / 256)).
    rewrite IH. simpl app. do 4 f_equal. rewrite pow256_S.
    pose proof (pow256_pos n). rewrite Z.div_div by lia. done.
Qed.

(** Two's complement reading of [w] bytes. *)
Definition to_signed (w : nat) (z : Z) : Z :=
  if 2 ^ (8 * Z.of_nat w - 1) <=? z then z - 2 ^ (8 * Z.of_nat w) else z.

Lemma pow2_half (w : nat) : (0 < w)%nat ->
  2 ^ (8 * Z.of_nat w) = 2 * 2 ^ (8 * Z.of_nat w - 1).
Proof. intros H. rewrite <- Z.pow_succ_r by lia. f_equal. lia. Qed.

Lemma to_signed_mod w v :
  (0 < w)%nat -> - 2 ^ (8 * Z.of_nat w - 1) <= v < 2 ^ (8 * Z.of_nat w - 1) ->
  to_signed w (v mod 256 ^ Z.of_nat w) = v.
Proof.
  intros Hw Hv. unfold to_signed. rewrite pow256. pose proof (pow2_half w Hw) as E.
  destruct (Z.lt_ge_cases v 0).
  - rewrite <- (Z.mod_unique v (2 ^ (8 * Z.of_nat w)) (-1) (v + 2 ^ (8 * Z.of_nat w)))
      by lia. destr_cmp; lia.
  - rewrite Z.mod_small by lia. destr_cmp; lia.
Qed.

Lemma sign_adjust_spec v n :
  sign_adjust (Some v) (1 * 256 ^ Z.of_nat n) (Z.of_nat (S n)) = Some (to_signed (S n) v).
Proof.
  unfold sign_adjust, to_signed.
  replace (1 * 256 ^ Z.of_nat n * 128) with (2 ^ (8 * Z.of_nat (S n) - 1)); [done|].
  rewrite pow256. change 128 with (2 ^ 7). rewrite Z.mul_1_l, <- Z.pow_add_r by lia.
  f_equal. lia.
Qed.

(** ** The read loops *)

Section Reads.
Context (h : store) (b : view).
Hypothesis Hwf : wf_view h b.

Lemma read_le_spec o i n mul v :
  (o + i + n <= v_len b)%nat ->
  read_le b (Z.of_nat o) (Z.of_nat i) n mul (Some v) h =
  Done (Some (v + mul * 256 * le_val (window h b (o + i) n)), mul * 256 ^ Z.of_nat n) h.
Proof.
  revert i mul v. induction n as [|n IH]; intros i mul v Hn.
  - unfold window. simpl. unfold ret. do 2 f_equal; [f_equal|]; lia.
  - destruct (contents_lookup h b Hwf (o + i)) as (x & Hx & _); [lia|].
    simpl read_le. rewrite <- Nat2Z.inj_add.
    erewrite bind_Done by (by apply get_nat). rewrite Hx. simpl.
    replace (Z.of_nat i + 1) with (Z.of_nat (S i)) by lia. rewrite IH by lia.
    unfold window. rewrite (drop_S _ _ _ Hx). cbn [take le_val].
    rewrite pow256_S, Nat.add_succ_r. do 2 f_equal; [f_equal|]; lia.
Qed.

Lemma read_be_spec o n mul v :
  (o + n <= v_len b)%nat ->
  read_be b (Z.of_nat o) n mul (Some v) h =
  Done (Some (v + mul * 256 * le_val (rev (window h b o n))), mul * 256 ^ Z.of_nat n) h.
Proof.
  revert mul v. induction n as [|n IH]; intros mul v Hn.
  - unfold window. simpl. unfold ret. do 2 f_equal; [f_equal|]; lia.
  - destruct (contents_lookup h b Hwf (o + n)) as (x & Hx & _); [lia|].
    simpl read_be. rewrite <- Nat2Z.inj_add.
    erewrite bind_Done by (by apply get_nat). rewrite Hx. simpl.
    rewrite IH by lia. unfold window.
    rewrite (take_S_r _ n x) by (by rewrite lookup_drop).
    rewrite rev_app_distr, pow256_S. cbn [rev app le_val].
    do 2 f_equal; [f_equal|]; lia.
Qed.

Lemma checkOffset_ok o ext : 0 <= o -> o + ext <= blen b -> checkOffset o ext (blen b) h = Done tt h.
Proof. intros. unfold checkOffset. destr_cmp; try lia. done. Qed.

Lemma window_S o n x :
  contents h b !! o = Some x -> window h b o (S n) = x :: window h b (S o) n.
Proof. intros Hx. unfold window. by rewrite (drop_S _ _ _ Hx). Qed.

Lemma window_S_r o n x :
  contents h b !! (o + n)%nat = Some x -> window h b o (S n) = window h b o n ++ [x].
Proof. intros Hx. unfold window. apply take_S_r. by rewrite lookup_drop. Qed.

(** The common start of the unsigned and signed loops of [n + 1] bytes. *)
Lemma readUIntLE_spec (o n : nat) :
  (o + S n <= v_len b)%nat -> blen b < 2 ^ 31 ->
  readUIntLE b (Z.of_nat o) (Z.of_nat (S n)) false h =
    Done (Some (le_val (window h b o (S n)))) h /\
  readIntLE b (Z.of_nat o) (Z.of_nat (S n)) false h =
    Done (Some (to_signed (S n) (le_val (window h b o (S n))))) h.
Proof.
  intros Ho Hb. destruct (contents_lookup h b Hwf o) as (x & Hx & _); [lia|].
  unfold readUIntLE, readIntLE. unfold blen in Hb. rewrite !toInt32_id by lia. simpl negb.
  unfold mwhen. replace (Z.to_nat (Z.of_nat (S n) - 1)) with n by lia.
  pose proof (read_le_spec o 1 n 1 x) as E. change (Z.of_nat 1) with 1 in E.
  rewrite (window_S o n x Hx), <- (Nat.add_1_r o). cbn [le_val].
  split; (erewrite bind_Done by (apply checkOffset_ok; unfold blen; lia));
    (erewrite bind_Done by (by apply get_nat)); rewrite Hx;
    (erewrite bind_Done by (apply E; lia)); cbn [fst snd];
    rewrite ?sign_adjust_spec; by rewrite Z.mul_1_l.
Qed.

Lemma readUIntBE_spec (o n : nat) :
  (o + S n <= v_len b)%nat -> blen b < 2 ^ 31 ->
  readUIntBE b (Z.of_nat o) (Z.of_nat (S n)) false h =
    Done (Some (le_val (rev (window h b o (S n))))) h /\
  readIntBE b (Z.of_nat o) (Z.of_nat (S n)) false h =
    Done (Some (to_signed (S n) (le_val (rev (window h b o (S n)))))) h.
Proof.
  intros Ho Hb. destruct (contents_lookup h b Hwf (o + n)) as (x & Hx & _); [lia|].
  unfold readUIntBE, readIntBE. unfold blen in Hb. rewrite !toInt32_id by lia. simpl negb.
  unfold mwhen. replace (Z.of_nat (S n) - 1) with (Z.of_nat n) by lia.
  rewrite <- Nat2Z.inj_add, (window_S_r o n x Hx), rev_app_distr. cbn [rev app le_val].
  split; (erewrite bind_Done by (apply checkOffset_ok; unfold blen; lia));
    (erewrite bind_Done by (by apply get_nat)); rewrite Hx, Nat2Z.id;
    (erewrite bind_Done by (apply read_be_spec; lia)); cbn [fst snd];
    rewrite ?sign_adjust_spec; by rewrite Z.mul_1_l.
Qed.
End Reads.

(** ** The write loops *)

Lemma byte_of_div v m : 0 <= v -> 0 < m -> byte_of v m = (v / m) mod 256.
Proof. intros. unfold byte_of. rewrite Z.quot_div_nonneg by lia. apply js_and_255. Qed.

Lemma toUint8_mod v : toUint8 (v mod 256) = v mod 256.
Proof. apply toUint8_id. apply Z.mod_pos_bound. lia. Qed.

Lemma list_inserts_app_down {A} i (k1 k2 l : list A) :
  list_inserts i k1 (list_inserts (i + length k1) k2 l) = list_inserts i (k1 ++ k2) l.
Proof.
  revert i. induction k1 as [|x k1 IH]; intros i; simpl.
  - by rewrite Nat.add_0_r.
  - rewrite Nat.add_succ_r, <- Nat.add_succ_l. by rewrite IH.
Qed.

Lemma write_bytes_app_down b off bs1 bs2 h :
  write_bytes b off bs1 (write_bytes b (off + length bs1) bs2 h) =
  write_bytes b off (bs1 ++ bs2) h.
Proof.
  unfold write_bytes. rewrite upd_array_compose. apply upd_array_ext. intros l. simpl.
  by rewrite Nat.add_assoc, list_inserts_app_down.
Qed.

(** A byte followed by a block, and a block followed by a byte. *)
Lemma write_bytes_cons b o x bs h :
  write_bytes b (S o) bs (write_bytes b o [x] h) = write_bytes b o (x :: bs) h.
Proof. exact (write_bytes_app b o [x] bs h). Qed.

Lemma write_le_spec b v o i n h :
  0 <= v -> (o + S i + n <= v_len b)%nat ->
  write_le b v (Z.of_nat o) (Z.of_nat (S i)) n (256 ^ Z.of_nat i) h =
  Done tt (write_bytes b (o + S i) (le_bytes n (v / 256 ^ Z.of_nat (S i))) h).
Proof.
  intros Hv. revert i h. induction n as [|n IH]; intros i h Hn.
  - simpl. by rewrite write_bytes_nil.
  - simpl write_le. erewrite bind_Done by (apply bset_in; unfold blen; lia).
    rewrite (Z.mul_comm _ 256), <- pow256_S.
    replace (Z.of_nat (S i) + 1) with (Z.of_nat (S (S i))) by lia. rewrite IH by lia.
    rewrite byte_of_div by (done || apply pow256_pos). rewrite toUint8_mod.
    replace (Z.to_nat (Z.of_nat o + Z.of_nat (S i))) with (o + S i)%nat by lia.
    rewrite (Nat.add_succ_r o (S i)), write_bytes_cons. cbn [le_bytes].
    rewrite (pow256_S (S i)), (Z.mul_comm 256).
    rewrite Z.div_div by (try apply pow256_pos; pose proof (pow256_pos (S i)); lia). done.
Qed.

Lemma write_be_spec b v o k n h :
  0 <= v -> (o + n <= v_len b)%nat ->
  write_be b v (Z.of_nat o) n (256 ^ Z.of_nat k) h =
  Done tt (write_bytes b o (rev (le_bytes n (v / 256 ^ Z.of_nat (S k)))) h).
Proof.
  intros Hv. revert k h. induction n as [|n IH]; intros k h Hn.
  - simpl. by rewrite write_bytes_nil.
  - simpl write_be. erewrite bind_Done by (apply bset_in; unfold blen; lia).
    rewrite (Z.mul_comm _ 256), <- pow256_S. rewrite IH by lia.
    rewrite byte_of_div by (done || apply pow256_pos). rewrite toUint8_mod.
    rewrite <- Nat2Z.inj_add, Nat2Z.id.
    cbn [le_bytes]. rewrite (pow256_S (S k)), (Z.mul_comm 256).
    rewrite Z.div_div by (try apply pow256_pos; pose proof (pow256_pos (S k)); lia).
    cbn [rev]. rewrite <- write_bytes_app_down. by rewrite length_rev, length_le_bytes.
Qed.

(** The borrow makes the truncated quotient a floor. *)
Definition low_nonzero (v m : Z) : Z := if (v <? 0) && negb (v mod m =? 0) then 1 else 0.

Lemma quot_floor v m : 0 < m -> Z.quot v m - low_nonzero v m = v / m.
Proof.
  intros Hm. unfold low_nonzero. destruct (Z.ltb_spec v 0) as [Hv|Hv]; simpl.
  - pose proof (Z.quot_rem' v m) as Q.
    pose proof (Z.div_mod v m ltac:(lia)) as D. pose proof (Z.mod_pos_bound v m Hm).
    assert (Hr : - m < Z.rem v m <= 0).
    { replace v with (- (- v)) by lia. rewrite Z.rem_opp_l by lia.
      pose proof (Z.rem_bound_pos (- v) m). lia. }
    destruct (Z.eqb_spec (v mod m) 0); simpl; nia.
  - rewrite Z.quot_div_nonneg by lia. lia.
Qed.

Lemma sbyte_of_div v m : 0 < m -> sbyte_of v m (low_nonzero v m) = (v / m) mod 256.
Proof.
  intros Hm. unfold sbyte_of. rewrite js_and_255. unfold js_shr, shift_count.
  rewrite Z.mod_0_l, Z.shiftr_0_r by lia. rewrite <- (quot_floor v m Hm).
  rewrite <- Zminus_mod_idemp_l. rewrite (toInt32_mod _ 8) by lia. by rewrite Zminus_mod_idemp_l.
Qed.

Lemma borrow_step v i :
  borrow v (low_nonzero v (256 ^ Z.of_nat i)) (Some ((v / 256 ^ Z.of_nat i) mod 256)) =
  low_nonzero v (256 ^ Z.of_nat (S i)).
Proof.
  unfold borrow, low_nonzero. rewrite pow256_S, (Z.mul_comm 256).
  pose proof (pow256_pos i) as Hp. rewrite Z.rem_mul_r by lia.
  pose proof (Z.mod_pos_bound v (256 ^ Z.of_nat i) Hp).
  pose proof (Z.mod_pos_bound (v / 256 ^ Z.of_nat i) 256 ltac:(lia)).
  set (lo := v mod 256 ^ Z.of_nat i) in *.
  set (hi := (v / 256 ^ Z.of_nat i) mod 256) in *.
  destruct (Z.ltb_spec v 0) as [Hv|Hv]; simpl; [|done].
  destruct (Z.eqb_spec lo 0) as [El|El]; simpl.
  - case_bool_decide as Eh; simpl.
    + injection Eh as ->. by rewrite El, Z.mul_0_r.
    + destruct (Z.eqb_spec (lo + 256 ^ Z.of_nat i * hi) 0); [|done].
      destruct Eh. f_equal. nia.
  - destruct (Z.eqb_spec (lo + 256 ^ Z.of_nat i * hi) 0); [nia|done].
Qed.

Lemma low_nonzero_1 v : low_nonzero v 1 = 0.
Proof. unfold low_nonzero. rewrite Z.mod_1_r. by rewrite andb_false_r. Qed.

Lemma contents_write_last b o bs x h :
  wf_view h b -> (o + S (length bs) <= v_len b)%nat ->
  contents (write_bytes b o (bs ++ [x]) h) b !! (o + length bs)%nat = Some x.
Proof.
  intros Hwf Hl. rewrite contents_write_bytes by (done || rewrite length_app; simpl; lia).
  rewrite list_lookup_inserts;
    [|rewrite length_app; simpl; lia|rewrite length_contents by done; lia].
  rewrite Nat.add_comm, Nat.add_sub. by rewrite lookup_app_r, Nat.sub_diag by lia.
Qed.

Lemma swrite_le_spec b v o i n h :
  wf_view h b -> (o + S i + n <= v_len b)%nat ->
  contents h b !! (o + i)%nat = Some ((v / 256 ^ Z.of_nat i) mod 256) ->
  swrite_le b v (Z.of_nat o) (Z.of_nat (S i)) n (256 ^ Z.of_nat i)
    (low_nonzero v (256 ^ Z.of_nat i)) h =
  Done tt (write_bytes b (o + S i) (le_bytes n (v / 256 ^ Z.of_nat (S i))) h).
Proof.
  revert i h. induction n as [|n IH]; intros i h Hwf Hn Hprev.
  - simpl. by rewrite write_bytes_nil.
  - simpl swrite_le.
    replace (Z.of_nat o + Z.of_nat (S i) - 1) with (Z.of_nat (o + i)) by lia.
    erewrite bind_Done by (by apply get_nat). rewrite Hprev, borrow_step.
    erewrite bind_Done by (apply bset_in; unfold blen; lia).
    rewrite (Z.mul_comm _ 256), <- pow256_S.
    rewrite sbyte_of_div by apply pow256_pos. rewrite toUint8_mod.
    replace (Z.to_nat (Z.of_nat o + Z.of_nat (S i))) with (o + S i)%nat by lia.
    replace (Z.of_nat (S i) + 1) with (Z.of_nat (S (S i))) by lia.
    pose proof (Z.mod_pos_bound (v / 256 ^ Z.of_nat (S i)) 256 ltac:(lia)) as Hx.
    rewrite IH; [|by apply wf_write_bytes, Forall_byte_1|lia|].
    + rewrite (Nat.add_succ_r o (S i)), write_bytes_cons. cbn [le_bytes].
      rewrite (pow256_S (S i)), (Z.mul_comm 256).
      rewrite Z.div_div by (try apply pow256_pos; pose proof (pow256_pos (S i)); lia). done.
    + rewrite <- (contents_write_last b (o + S i) [] _ h) at 1 by (done || simpl; lia).
      by rewrite Nat.add_0_r.
Qed.

Lemma contents_write_head b o x bs h :
  wf_view h b -> (o + S (length bs) <= v_len b)%nat ->
  contents (write_bytes b o (x :: bs) h) b !! o = Some x.
Proof.
  intros Hwf Hl. rewrite contents_write_bytes by (done || simpl; lia).
  rewrite list_lookup_inserts; [by rewrite Nat.sub_diag|simpl; lia|].
  rewrite length_contents by done. lia.
Qed.

Lemma swrite_be_spec b v o k n h :
  wf_view h b -> (o + S n <= v_len b)%nat ->
  contents h b !! (o + n)%nat = Some ((v / 256 ^ Z.of_nat k) mod 256) ->
  swrite_be b v (Z.of_nat o) n (256 ^ Z.of_nat k) (low_nonzero v (256 ^ Z.of_nat k)) h =
  Done tt (write_bytes b o (rev (le_bytes n (v / 256 ^ Z.of_nat (S k)))) h).
Proof.
  revert k h. induction n as [|n IH]; intros k h Hwf Hn Hprev.
  - simpl. by rewrite write_bytes_nil.
  - simpl swrite_be.
    replace (Z.of_nat o + Z.of_nat n + 1) with (Z.of_nat (o + S n)) by lia.
    erewrite bind_Done by (by apply get_nat). rewrite Hprev, borrow_step.
    erewrite bind_Done by (apply bset_in; unfold blen; lia).
    rewrite (Z.mul_comm _ 256), <- pow256_S.
    rewrite sbyte_of_div by apply pow256_pos. rewrite toUint8_mod.
    rewrite <- Nat2Z.inj_add, Nat2Z.id.
    pose proof (Z.mod_pos_bound (v / 256 ^ Z.of_nat (S k)) 256 ltac:(lia)) as Hx.
    rewrite IH; [|by apply wf_write_bytes, Forall_byte_1|lia|
      apply contents_write_head; (done || simpl; lia)].
    cbn [le_bytes]. rewrite (pow256_S (S k)), (Z.mul_comm 256).
    rewrite Z.div_div by (try apply pow256_pos; pose proof (pow256_pos (S k)); lia).
    cbn [rev]. rewrite <- write_bytes_app_down. by rewrite length_rev, length_le_bytes.
Qed.

Lemma checkInt_ok b v o ext max min h :
  min <= v <= max -> o + ext <= blen b -> checkInt b v o ext max min h = Done tt h.
Proof. intros. unfold checkInt. destr_cmp; simpl; try lia. done. Qed.

Section Writes.
Context (h : store) (b : view) (o n : nat).
Hypothesis Hwf : wf_view h b.
Hypothesis Ho : (o + S n <= v_len b)%nat.
Hypothesis Hb : blen b < 2 ^ 31.

Lemma writeUIntLE_spec v :
  0 <= v < 2 ^ (8 * Z.of_nat (S n)) ->
  writeUIntLE b v (Z.of_nat o) (Z.of_nat (S n)) false h =
  Done (Z.of_nat o + Z.of_nat (S n)) (write_bytes b o (le_bytes (S n) v) h).
Proof using Hwf Ho Hb.
  intros Hv. unfold blen in Hb. unfold writeUIntLE. rewrite !toInt32_id by lia.
  erewrite bind_Done by (apply checkInt_ok; unfold blen; lia).
  erewrite bind_Done by (apply bset_in; unfold blen; lia).
  replace (Z.to_nat (Z.of_nat (S n) - 1)) with n by lia.
  pose proof (write_le_spec b v o 0 n) as E. cbn [Z.of_nat Z.pow] in E. simpl Z.pow in E.
  erewrite bind_Done by (apply E; lia). unfold ret. f_equal.
  rewrite js_and_255, toUint8_mod, Nat2Z.id, Nat.add_1_r, write_bytes_cons. done.
Qed.

Lemma writeUIntBE_spec v :
  0 <= v < 2 ^ (8 * Z.of_nat (S n)) ->
  writeUIntBE b v (Z.of_nat o) (Z.of_nat (S n)) false h =
  Done (Z.of_nat o + Z.of_nat (S n)) (write_bytes b o (rev (le_bytes (S n) v)) h).
Proof using Hwf Ho Hb.
  intros Hv. unfold blen in Hb. unfold writeUIntBE. rewrite !toInt32_id by lia.
  erewrite bind_Done by (apply checkInt_ok; unfold blen; lia).
  replace (Z.of_nat (S n) - 1) with (Z.of_nat n) by lia. rewrite Nat2Z.id.
  erewrite bind_Done by (apply bset_in; unfold blen; lia).
  pose proof (write_be_spec b v o 0 n) as E. cbn [Z.of_nat Z.pow] in E. simpl Z.pow in E.
  erewrite bind_Done by (apply E; lia). unfold ret. f_equal.
  rewrite js_and_255, toUint8_mod, <- Nat2Z.inj_add, Nat2Z.id. cbn [le_bytes rev].
  rewrite <- write_bytes_app_down. by rewrite length_rev, length_le_bytes.
Qed.

Lemma writeIntLE_spec v :
  - 2 ^ (8 * Z.of_nat (S n) - 1) <= v < 2 ^ (8 * Z.of_nat (S n) - 1) ->
  writeIntLE b v (Z.of_nat o) (Z.of_nat (S n)) false h =
  Done (Z.of_nat o + Z.of_nat (S n)) (write_bytes b o (le_bytes (S n) v) h).
Proof using Hwf Ho Hb.
  intros Hv. unfold blen in Hb. unfold writeIntLE. rewrite !toInt32_id by lia.
  erewrite bind_Done by (apply checkInt_ok; unfold blen; lia).
  erewrite bind_Done by (apply bset_in; unfold blen; lia).
  replace (Z.to_nat (Z.of_nat (S n) - 1)) with n by lia.
  rewrite js_and_255, toUint8_mod, Nat2Z.id.
  pose proof (Z.mod_pos_bound v 256 ltac:(lia)) as Hx.
  pose proof (swrite_le_spec b v o 0 n (write_bytes b o [v mod 256] h)) as E.
  cbn [Z.of_nat] in E. simpl Z.pow in E. rewrite low_nonzero_1, Z.div_1_r, Nat.add_0_r in E.
  erewrite bind_Done;
    [|apply E; [by apply wf_write_bytes, Forall_byte_1|lia|
       apply contents_write_head; (done || simpl; lia)]].
  unfold ret. f_equal. rewrite Nat.add_1_r, write_bytes_cons. done.
Qed.

Lemma writeIntBE_spec v :
  - 2 ^ (8 * Z.of_nat (S n) - 1) <= v < 2 ^ (8 * Z.of_nat (S n) - 1) ->
  writeIntBE b v (Z.of_nat o) (Z.of_nat (S n)) false h =
  Done (Z.of_nat o + Z.of_nat (S n)) (write_bytes b o (rev (le_bytes (S n) v)) h).
Proof using Hwf Ho Hb.
  intros Hv. unfold blen in Hb. unfold writeIntBE. rewrite !toInt32_id by lia.
  erewrite bind_Done by (apply checkInt_ok; unfold blen; lia).
  replace (Z.of_nat (S n) - 1) with (Z.of_nat n) by lia. rewrite Nat2Z.id.
  erewrite bind_Done by (apply bset_in; unfold blen; lia).
  rewrite js_and_255, toUint8_mod.
  replace (Z.to_nat (Z.of_nat o + Z.of_nat n)) with (o + n)%nat by lia.
  pose proof (Z.mod_pos_bound v 256 ltac:(lia)) as Hx.
  pose proof (swrite_be_spec b v o 0 n (write_bytes b (o + n) [v mod 256] h)) as E.
  cbn [Z.of_nat] in E. simpl Z.pow in E. rewrite low_nonzero_1, Z.div_1_r in E.
  erewrite bind_Done;
    [|apply E; [by apply wf_write_bytes, Forall_byte_1|lia|
       apply contents_write_head; (done || simpl; lia)]].
  unfold ret. f_equal. cbn [le_bytes rev]. rewrite <- write_bytes_app_down.
  by rewrite length_rev, length_le_bytes.
Qed.
End Writes.

(** ** The fixed-width readers and writers *)

(** One byte of the unsigned shift, as stored in a typed array. *)
Lemma ushr_byte v k : 0 <= k <= 3 -> toUint8 (js_ushr v (8 * k)) = (v / 256 ^ k) mod 256.
Proof.
  intros Hk. unfold toUint8. rewrite js_ushr_div by lia. unfold toUint32.
  replace (256 ^ k) with (2 ^ (8 * k)) by (rewrite Z.pow_mul_r by lia; done).
  assert (Hp : 0 < 2 ^ (8 * k)) by (apply Z.pow_pos_nonneg; lia).
  replace (2 ^ 32) with (2 ^ (8 * k) * 2 ^ (32 - 8 * k)) by (rewrite <- Z.pow_add_r; f_equal; lia).
  rewrite Z.rem_mul_r by lia.
  rewrite (Z.mul_comm (2 ^ (8 * k))), Z.div_add by lia.
  rewrite (Z.div_small (v mod _)) by (apply Z.mod_pos_bound; lia). rewrite Z.add_0_l.
  apply Z.mod_mod_divide.
  exists (2 ^ (24 - 8 * k)). change 256 with (2 ^ 8). rewrite <- Z.pow_add_r by lia. f_equal. lia.
Qed.

Lemma or_byte a x n :
  0 <= n <= 16 -> 0 <= a < 2 ^ n -> byte x -> js_or a (js_shl x n) = a + x * 2 ^ n.
Proof.
  intros Hn Ha Hx. unfold byte in Hx.
  pose proof (Z.pow_le_mono_r 2 n 16 ltac:(lia) ltac:(lia)).
  rewrite js_shl_mul by lia. rewrite toInt32_id by nia. apply js_or_add; nia.
Qed.

Lemma or_byte_l a x n :
  0 <= n <= 16 -> 0 <= a < 2 ^ n -> byte x -> js_or (js_shl x n) a = x * 2 ^ n + a.
Proof.
  intros Hn Ha Hx. unfold byte in Hx.
  pose proof (Z.pow_le_mono_r 2 n 16 ltac:(lia) ltac:(lia)).
  rewrite js_shl_mul by lia. rewrite toInt32_id by nia. apply js_or_add_l; nia.
Qed.

Lemma shl_byte x n : 0 <= n <= 16 -> byte x -> js_shl x n = x * 2 ^ n.
Proof.
  intros Hn Hx. unfold byte in Hx. pose proof (Z.pow_le_mono_r 2 n 16 ltac:(lia) ltac:(lia)).
  pose proof (Z.pow_pos_nonneg 2 n). rewrite js_shl_mul by lia. apply toInt32_id. nia.
Qed.

(** Big-endian accumulation: a field above [n] bits or-ed with a lower one. *)
Lemma or_high hi q a n :
  0 <= n -> 0 <= a < 2 ^ n -> a < 2 ^ 31 -> hi = q * 2 ^ n -> - 2 ^ 31 <= hi < 2 ^ 31 ->
  js_or hi a = hi + a.
Proof. intros Hn Ha Ha' -> Hr. by apply js_or_add_l. Qed.

Lemma shl24 x : byte x -> js_shl x 24 = (if 128 <=? x then x - 256 else x) * 2 ^ 24.
Proof.
  intros Hx. unfold byte in Hx. rewrite js_shl_mul by lia.
  destr_cmp; [|by rewrite toInt32_id by lia].
  unfold toInt32. rewrite <- (Z.mod_unique (x * 2 ^ 24 + 2 ^ 31) (2 ^ 32) 1
    ((x - 256) * 2 ^ 24 + 2 ^ 31)); lia.
Qed.

Lemma sign16_spec v : 0 <= v < 65536 -> sign16 v = to_signed 2 v.
Proof.
  intros Hv. unfold sign16, to_signed, js_and. rewrite (toInt32_id v) by lia.
  change (toInt32 32768) with (Z.shiftl 1 15). change (2 ^ (8 * Z.of_nat 2 - 1)) with 32768.
  destruct (Z.leb_spec 32768 v) as [H|H].
  - destruct (Z.eqb_spec (Z.land v (Z.shiftl 1 15)) 0) as [E|E].
    + apply (f_equal (fun z => Z.testbit z 15)) in E.
      rewrite Z.land_spec, Z.bits_0, Z.shiftl_spec, andb_true_r in E by lia.
      assert (T : Z.testbit v 15 = true); [|congruence].
      apply Z.testbit_true; [lia|]. change (2 ^ 15) with 32768.
      replace v with (v - 32768 + 1 * 32768) by lia.
      by rewrite Z.div_add, Z.div_small by lia.
    + unfold js_or. rewrite (toInt32_id v) by lia.
      change (toInt32 4294901760) with (Z.shiftl (-1) 16).
      rewrite lor_shiftl_add by lia. change (2 ^ (8 * Z.of_nat 2)) with 65536. lia.
  - by rewrite land_shiftl_0 by lia.
Qed.

Lemma sign8_spec v : 0 <= v < 256 ->
  (if js_and v 128 =? 0 then v else (255 - v + 1) * -1) = to_signed 1 v.
Proof.
  intros Hv. apply Z.eqb_eq.
  apply (forall_below_spec 256 (fun v => (if js_and v 128 =? 0 then v else (255 - v + 1) * -1)
                                          =? to_signed 1 v)); [reflexivity|done].
Qed.

Section Fixed.
Context (h : store) (b : view) (o : nat).
Hypothesis Hwf : wf_view h b.

Lemma window_1 : (o + 1 <= v_len b)%nat ->
  exists x0, byte x0 /\ contents h b !! o = Some x0 /\ window h b o 1 = [x0].
Proof.
  intros Ho. destruct (contents_lookup h b Hwf o) as (x0 & E0 & B0); [lia|].
  exists x0. rewrite (window_S _ _ _ _ _ E0). done.
Qed.

Lemma window_2 : (o + 2 <= v_len b)%nat ->
  exists x0 x1, byte x0 /\ byte x1 /\ contents h b !! o = Some x0 /\
    contents h b !! (o + 1)%nat = Some x1 /\ window h b o 2 = [x0; x1].
Proof.
  intros Ho. destruct (contents_lookup h b Hwf o) as (x0 & E0 & B0); [lia|].
  destruct (contents_lookup h b Hwf (o + 1)) as (x1 & E1 & B1); [lia|].
  exists x0, x1. rewrite (window_S _ _ _ _ _ E0), <- (Nat.add_1_r o), (window_S _ _ _ _ _ E1). done.
Qed.

Lemma window_4 : (o + 4 <= v_len b)%nat ->
  exists x0 x1 x2 x3, byte x0 /\ byte x1 /\ byte x2 /\ byte x3 /\
    contents h b !! o = Some x0 /\ contents h b !! (o + 1)%nat = Some x1 /\
    contents h b !! (o + 2)%nat = Some x2 /\ contents h b !! (o + 3)%nat = Some x3 /\
    window h b o 4 = [x0; x1; x2; x3].
Proof.
  intros Ho. destruct (contents_lookup h b Hwf o) as (x0 & E0 & B0); [lia|].
  destruct (contents_lookup h b Hwf (o + 1)) as (x1 & E1 & B1); [lia|].
  destruct (contents_lookup h b Hwf (o + 2)) as (x2 & E2 & B2); [lia|].
  destruct (contents_lookup h b Hwf (o + 3)) as (x3 & E3 & B3); [lia|].
  exists x0, x1, x2, x3. rewrite (window_S _ _ _ _ _ E0), <- (Nat.add_1_r o), (window_S _ _ _ _ _ E1).
  replace (S (o + 1)) with (o + 2)%nat by lia. rewrite (window_S _ _ _ _ _ E2).
  replace (S (o + 2)) with (o + 3)%nat by lia. rewrite (window_S _ _ _ _ _ E3).
  repeat split; try done; try apply B0; try apply B1; try apply B2; apply B3.
Qed.
End Fixed.

(** Run the reads of a fixed-width reader whose bytes are known. *)
Ltac run_gets :=
  unfold mwhen; simpl negb;
  erewrite bind_Done by (apply checkOffset_ok; unfold blen; lia);
  repeat match goal with
  | |- context [Z.of_nat ?o + 1] => replace (Z.of_nat o + 1) with (Z.of_nat (o + 1)) by lia
  | |- context [Z.of_nat ?o + 2] => replace (Z.of_nat o + 2) with (Z.of_nat (o + 2)) by lia
  | |- context [Z.of_nat ?o + 3] => replace (Z.of_nat o + 3) with (Z.of_nat (o + 3)) by lia
  end;
  repeat (erewrite bind_Done by (by apply get_nat));
  repeat match goal with H : contents _ _ !! _ = Some _ |- _ => rewrite H end;
  cbn [n32 default from_option id add_n mul_n].

Section FixedReads.
Context (h : store) (b : view) (o : nat).
Hypothesis Hwf : wf_view h b.

Lemma read8_spec : (o + 1 <= v_len b)%nat ->
  readUInt8 b (Z.of_nat o) false h = Done (Some (le_val (window h b o 1))) h /\
  readInt8 b (Z.of_nat o) false h = Done (Some (to_signed 1 (le_val (window h b o 1)))) h.
Proof using Hwf.
  intros Ho. destruct (window_1 h b o Hwf Ho) as (x & B & E & W). rewrite W. unfold byte in B.
  cbn [le_val]. rewrite Z.mul_0_r, Z.add_0_r. rewrite <- sign8_spec by lia.
  split; [unfold readUInt8|unfold readInt8]; run_gets.
  - by rewrite get_nat, E.
  - by destruct (js_and x 128 =? 0).
Qed.

Lemma read16_spec : (o + 2 <= v_len b)%nat ->
  let le := le_val (window h b o 2) in
  let be := le_val (rev (window h b o 2)) in
  readUInt16LE b (Z.of_nat o) false h = Done (Some le) h /\
  readUInt16BE b (Z.of_nat o) false h = Done (Some be) h /\
  readInt16LE b (Z.of_nat o) false h = Done (Some (to_signed 2 le)) h /\
  readInt16BE b (Z.of_nat o) false h = Done (Some (to_signed 2 be)) h.
Proof using Hwf.
  intros Ho le be.
  destruct (window_2 h b o Hwf Ho) as (x0 & x1 & B0 & B1 & E0 & E1 & W).
  unfold le, be. rewrite W. cbn [rev app le_val]. pose proof B0. pose proof B1. unfold byte in *.
  rewrite <- !sign16_spec by lia.
  repeat split; [unfold readUInt16LE|unfold readUInt16BE|unfold readInt16LE|unfold readInt16BE];
    run_gets; rewrite ?or_byte, ?or_byte_l by (done || lia); unfold ret;
    do 2 f_equal; try apply (f_equal sign16); lia.
Qed.

Lemma read32_spec : (o + 4 <= v_len b)%nat ->
  let le := le_val (window h b o 4) in
  let be := le_val (rev (window h b o 4)) in
  readUInt32LE b (Z.of_nat o) false h = Done (Some le) h /\
  readUInt32BE b (Z.of_nat o) false h = Done (Some be) h /\
  readInt32LE b (Z.of_nat o) false h = Done (Some (to_signed 4 le)) h /\
  readInt32BE b (Z.of_nat o) false h = Done (Some (to_signed 4 be)) h.
Proof using Hwf.
  intros Ho le be. destruct (window_4 h b o Hwf Ho)
    as (x0 & x1 & x2 & x3 & B0 & B1 & B2 & B3 & E0 & E1 & E2 & E3 & W).
  unfold le, be. rewrite W. cbn [rev app le_val]. pose proof B0. pose proof B1.
  pose proof B2. pose proof B3. unfold byte in *. unfold to_signed.
  change (2 ^ (8 * Z.of_nat 4 - 1)) with 2147483648. change (2 ^ (8 * Z.of_nat 4)) with 4294967296.
  repeat split; [unfold readUInt32LE|unfold readUInt32BE|unfold readInt32LE|unfold readInt32BE];
    run_gets.
  - rewrite (or_byte x0), or_byte by (done || lia). unfold ret. do 2 f_equal. lia.
  - rewrite !shl_byte by (done || lia).
    rewrite (or_high (x1 * 2 ^ 16) x1 _ 16), (or_high _ (x1 * 256 + x2) x3 8) by lia.
    unfold ret. do 2 f_equal. lia.
  - rewrite (or_byte x0), (or_byte (x0 + x1 * 2 ^ 8)), shl24 by (done || lia).
    rewrite js_or_add by (destr_cmp; lia). unfold ret. do 2 f_equal. destr_cmp; lia.
  - rewrite shl24, !shl_byte by (done || lia).
    set (t := if 128 <=? x0 then x0 - 256 else x0).
    assert (Ht : t = x0 - 256 /\ 128 <= x0 \/ t = x0 /\ x0 < 128)
      by (subst t; destr_cmp; lia). clearbody t.
    rewrite (or_high (t * 2 ^ 24) t _ 24), (or_high _ (t * 256 + x1) (x2 * 2 ^ 8) 16),
      (or_high _ (t * 65536 + x1 * 256 + x2) x3 8) by lia.
    unfold ret. do 2 f_equal. destr_cmp; lia.
Qed.
End FixedReads.

Lemma le_bytes_add n v q : le_bytes n (v + q * 256 ^ Z.of_nat n) = le_bytes n v.
Proof.
  revert v. induction n as [|n IH]; intros v; [done|]. cbn [le_bytes]. rewrite pow256_S.
  replace (v + q * (256 * 256 ^ Z.of_nat n)) with (v + (q * 256 ^ Z.of_nat n) * 256) by ring.
  rewrite Z.mod_add, Z.div_add by lia. by rewrite IH.
Qed.

(** The bytes of the unsigned shifts, in the shape [le_bytes] has. *)
Lemma ushr_bytes v :
  toUint8 (js_and v 255) = v mod 256 /\ toUint8 (js_ushr v 8) = (v / 256) mod 256 /\
  toUint8 (js_ushr v 16) = (v / 256 / 256) mod 256 /\
  toUint8 (js_ushr v 24) = (v / 256 / 256 / 256) mod 256.
Proof.
  rewrite js_and_255, toUint8_mod. rewrite !Z.div_div by lia.
  repeat split; [apply (ushr_byte v 1)|apply (ushr_byte v 2)|apply (ushr_byte v 3)]; lia.
Qed.

(** Run the stores of a fixed-width writer. *)
Ltac run_sets :=
  repeat match goal with
  | |- context [Z.of_nat ?o + 1] => replace (Z.of_nat o + 1) with (Z.of_nat (o + 1)) by lia
  | |- context [Z.of_nat ?o + 2] => replace (Z.of_nat o + 2) with (Z.of_nat (o + 2)) by lia
  | |- context [Z.of_nat ?o + 3] => replace (Z.of_nat o + 3) with (Z.of_nat (o + 3)) by lia
  end;
  repeat (erewrite bind_Done by (apply bset_in; unfold blen; lia));
  try (rewrite bset_in by (unfold blen; lia));
  rewrite !Nat2Z.id.

Section FixedWrites.
Context (h : store) (b : view) (o : nat).

Lemma put16_spec v : (o + 2 <= v_len b)%nat ->
  put16LE b v (Z.of_nat o) h = Done tt (write_bytes b o (le_bytes 2 v) h) /\
  put16BE b v (Z.of_nat o) h = Done tt (write_bytes b o (rev (le_bytes 2 v)) h).
Proof.
  intros Ho. destruct (ushr_bytes v) as (U0 & U1 & _).
  split; [unfold put16LE|unfold put16BE]; run_sets; rewrite U0, U1, Nat.add_1_r;
    by rewrite write_bytes_cons.
Qed.

Lemma put32BE_spec v : (o + 4 <= v_len b)%nat ->
  put32BE b v (Z.of_nat o) h = Done tt (write_bytes b o (rev (le_bytes 4 v)) h).
Proof.
  intros Ho. destruct (ushr_bytes v) as (U0 & U1 & U2 & U3).
  unfold put32BE. run_sets. rewrite U0, U1, U2, U3.
  replace (o + 3)%nat with (S (S (S o))) by lia. replace (o + 2)%nat with (S (S o)) by lia.
  rewrite (Nat.add_1_r o).
  by rewrite !write_bytes_cons.
Qed.

Lemma put32LE_spec v : (o + 4 <= v_len b)%nat ->
  (do! bset b (Z.of_nat o) (js_and v 255);
   do! bset b (Z.of_nat o + 1) (js_ushr v 8);
   do! bset b (Z.of_nat o + 2) (js_ushr v 16);
   do! bset b (Z.of_nat o + 3) (js_ushr v 24);
   ret (Z.of_nat o + 4)) h = Done (Z.of_nat o + 4) (write_bytes b o (le_bytes 4 v) h) /\
  (do! bset b (Z.of_nat o + 3) (js_ushr v 24);
   do! bset b (Z.of_nat o + 2) (js_ushr v 16);
   do! bset b (Z.of_nat o + 1) (js_ushr v 8);
   do! bset b (Z.of_nat o) (js_and v 255);
   ret (Z.of_nat o + 4)) h = Done (Z.of_nat o + 4) (write_bytes b o (le_bytes 4 v) h).
Proof.
  intros Ho. destruct (ushr_bytes v) as (U0 & U1 & U2 & U3).
  split; run_sets; rewrite U0, U1, U2, U3; unfold ret; f_equal; cbn [le_bytes];
    replace (o + 3)%nat with (S (S (S o))) by lia; replace (o + 2)%nat with (S (S o)) by lia;
    rewrite (Nat.add_1_r o).
  - by rewrite !write_bytes_cons.
  - pose proof (fun k x => write_bytes_app_down b k [x]) as D. simpl in D.
    by rewrite <- (Nat.add_1_r o), <- (Nat.add_1_r (o + 1)), <- (Nat.add_1_r (o + 1 + 1)),
      (D (o + 1 + 1)%nat), (D (o + 1)%nat), (D o).
Qed.
End FixedWrites.

Lemma toUint8_and x : toUint8 (js_and x 255) = toUint8 x.
Proof. rewrite js_and_255. apply toUint8_mod. Qed.

(** The masked and shifted byte of [objectWriteUInt16]. *)
Lemma field16 u : 0 <= u < 65536 ->
  toUint8 (js_ushr (js_and u (js_shl 255 0)) 0) = u mod 256 /\
  toUint8 (js_ushr (js_and u (js_shl 255 8)) 8) = (u / 256) mod 256.
Proof.
  intros Hu. change (js_shl 255 0) with 255. change (js_shl 255 8) with 65280.
  split.
  - rewrite js_and_255, js_ushr_div by lia. rewrite Z.div_1_r.
    pose proof (Z.mod_pos_bound u 256). rewrite toUint32_id by lia. apply toUint8_mod.
  - unfold js_and. rewrite !toInt32_id by lia. rewrite js_ushr_div by lia.
    change 65280 with (Z.shiftl 255 8).
    rewrite land_shiftl, Z.shiftl_mul_pow2, Z.shiftr_div_pow2 by lia.
    change 255 with (Z.ones 8). rewrite Z.land_ones by lia.
    change (2 ^ 8) with 256. pose proof (Z.mod_pos_bound (u / 256) 256 ltac:(lia)).
    rewrite toUint32_id, Z.div_mul by lia. apply toUint8_mod.
Qed.

Lemma objectWrite16_spec h b v (o : nat) :
  (o + 2 <= v_len b)%nat -> - 2 ^ 15 <= v < 2 ^ 16 ->
  objectWriteUInt16 b v (Z.of_nat o) true h = Done tt (write_bytes b o (le_bytes 2 v) h) /\
  objectWriteUInt16 b v (Z.of_nat o) false h = Done tt (write_bytes b o (rev (le_bytes 2 v)) h).
Proof.
  intros Ho Hv. unfold objectWriteUInt16.
  replace (Z.to_nat (Z.min (blen b - Z.of_nat o) 2)) with 2%nat by (unfold blen; lia).
  set (u := if v <? 0 then 65535 + v + 1 else v).
  assert (Hu : 0 <= u < 65536) by (subst u; destr_cmp; lia).
  assert (Eu : le_bytes 2 u = le_bytes 2 v).
  { subst u. destr_cmp; [|done]. replace (65535 + v + 1) with (v + 1 * 256 ^ Z.of_nat 2) by lia.
    apply le_bytes_add. }
  rewrite <- Eu. clearbody u. destruct (field16 u Hu) as [F0 F1].
  split; rewrite mfor_bset by (unfold blen; lia); rewrite Z.add_0_r, Nat2Z.id;
    change (seqZ 0 (Z.of_nat 2)) with [0; 1]; cbn [fmap list_fmap le_bytes rev app];
    rewrite <- F0, <- F1; reflexivity.
Qed.

Lemma objectWrite32_spec h b v (o : nat) :
  (o + 4 <= v_len b)%nat -> - 2 ^ 31 <= v < 2 ^ 32 ->
  objectWriteUInt32 b v (Z.of_nat o) true h = Done tt (write_bytes b o (le_bytes 4 v) h) /\
  objectWriteUInt32 b v (Z.of_nat o) false h = Done tt (write_bytes b o (rev (le_bytes 4 v)) h).
Proof.
  intros Ho Hv. unfold objectWriteUInt32.
  replace (Z.to_nat (Z.min (blen b - Z.of_nat o) 4)) with 4%nat by (unfold blen; lia).
  set (u := if v <? 0 then 4294967295 + v + 1 else v).
  assert (Eu : le_bytes 4 u = le_bytes 4 v).
  { subst u. destr_cmp; [|done].
    replace (4294967295 + v + 1) with (v + 1 * 256 ^ Z.of_nat 4) by lia. apply le_bytes_add. }
  rewrite <- Eu. clearbody u. destruct (ushr_bytes u) as (F0 & F1 & F2 & F3).
  assert (F0' : toUint8 (js_ushr u 0) = u mod 256)
    by (change 0 with (8 * 0) at 1; rewrite ushr_byte, Z.div_1_r by lia; done).
  split; rewrite mfor_bset by (unfold blen; lia); rewrite Z.add_0_r, Nat2Z.id;
    change (seqZ 0 (Z.of_nat 4)) with [0; 1; 2; 3]; cbn [le_bytes rev app];
    cbn [fmap list_fmap]; rewrite !toUint8_and, <- F0', <- F1, <- F2, <- F3; reflexivity.
Qed.

(** ** Integer codecs: a writer, a reader, and the law that joins them *)

Record int_codec := IntCodec {
  ic_width : nat;
  ic_big_endian : bool;
  ic_signed : bool;
  ic_write : view -> Z -> Z -> bool -> M store Z;
  ic_read : view -> Z -> bool -> M store (option Z)
}.

Definition ic_min (c : int_codec) : Z :=
  if ic_signed c then - 2 ^ (8 * Z.of_nat (ic_width c) - 1) else 0.
Definition ic_max (c : int_codec) : Z :=
  if ic_signed c then 2 ^ (8 * Z.of_nat (ic_width c) - 1) - 1
  else 2 ^ (8 * Z.of_nat (ic_width c)) - 1.

(** The bytes of a value: two's complement in the codec's byte order. *)
Definition ic_encode (c : int_codec) (v : Z) : list Z :=
  let bs := le_bytes (ic_width c) v in if ic_big_endian c then rev bs else bs.

Definition ic_decode (c : int_codec) (bs : list Z) : Z :=
  let u := le_val (if ic_big_endian c then rev bs else bs) in
  if ic_signed c then to_signed (ic_width c) u else u.

(** What a pair of methods promises. *)
Class IntCodecLaws (c : int_codec) : Prop := {
  icl_width : (0 < ic_width c)%nat;
  icl_write : forall h b v (o : nat),
    wf_view h b -> blen b < 2 ^ 31 -> (o + ic_width c <= v_len b)%nat ->
    ic_min c <= v <= ic_max c ->
    ic_write c b v (Z.of_nat o) false h =
    Done (Z.of_nat o + Z.of_nat (ic_width c)) (write_bytes b o (ic_encode c v) h);
  icl_read : forall h b (o : nat),
    wf_view h b -> blen b < 2 ^ 31 -> (o + ic_width c <= v_len b)%nat ->
    ic_read c b (Z.of_nat o) false h =
    Done (Some (ic_decode c (window h b o (ic_width c)))) h;
  icl_reject : forall h b v o,
    - 2 ^ 31 <= o < 2 ^ 31 ->
    v < ic_min c \/ ic_max c < v \/ blen b < o + Z.of_nat (ic_width c) ->
    exists msg, ic_write c b v o false h = Raise (RangeError msg) h
}.

Lemma checkInt_fail b v o ext max min h :
  v < min \/ max < v \/ blen b < o + ext ->
  exists msg, checkInt b v o ext max min h = Raise (RangeError msg) h.
Proof.
  intros H. unfold checkInt. destr_cmp; simpl; first [by eexists|lia].
Qed.

Definition UInt8 := IntCodec 1 false false writeUInt8 readUInt8.
Definition Int8 := IntCodec 1 false true writeInt8 readInt8.
Definition UInt16LE := IntCodec 2 false false writeUInt16LE readUInt16LE.
Definition UInt16BE := IntCodec 2 true false writeUInt16BE readUInt16BE.
Definition Int16LE := IntCodec 2 false true writeInt16LE readInt16LE.
Definition Int16BE := IntCodec 2 true true writeInt16BE readInt16BE.
Definition UInt32LE := IntCodec 4 false false writeUInt32LE readUInt32LE.
Definition UInt32BE := IntCodec 4 true false writeUInt32BE readUInt32BE.
Definition Int32LE := IntCodec 4 false true writeInt32LE readInt32LE.
Definition Int32BE := IntCodec 4 true true writeInt32BE readInt32BE.

(** The variable-width methods at [byteLength = w]. *)
Definition UIntLE (w : nat) := IntCodec w false false
  (fun b v o na => writeUIntLE b v o (Z.of_nat w) na) (fun b o na => readUIntLE b o (Z.of_nat w) na).
Definition UIntBE (w : nat) := IntCodec w true false
  (fun b v o na => writeUIntBE b v o (Z.of_nat w) na) (fun b o na => readUIntBE b o (Z.of_nat w) na).
Definition IntLE (w : nat) := IntCodec w false true
  (fun b v o na => writeIntLE b v o (Z.of_nat w) na) (fun b o na => readIntLE b o (Z.of_nat w) na).
Definition IntBE (w : nat) := IntCodec w true true
  (fun b v o na => writeIntBE b v o (Z.of_nat w) na) (fun b o na => readIntBE b o (Z.of_nat w) na).

(** A rejected value or offset: the guard is the first thing a writer runs. *)
Ltac reject :=
  intros h b v o Ho Hbad;
  unfold ic_min, ic_max in Hbad; cbn [ic_signed ic_width ic_write UInt8 Int8 UInt16LE UInt16BE
    Int16LE Int16BE UInt32LE UInt32BE Int32LE Int32BE UIntLE UIntBE IntLE IntBE] in *;
  edestruct checkInt_fail as [msg E];
  [|exists msg; unfold writeUInt8, writeInt8, writeUInt16LE, writeUInt16BE, writeInt16LE,
     writeInt16BE, writeUInt32LE, writeUInt32BE, writeInt32LE, writeInt32BE, writeUIntLE,
     writeUIntBE, writeIntLE, writeIntBE;
    rewrite ?toInt32_id by lia; simpl negb; unfold mwhen;
    erewrite bind_Raise by exact E; reflexivity];
  lia.

(** Enter a writer past its guard. *)
Ltac pass_guard :=
  cbn [ic_signed ic_width ic_big_endian ic_write ic_read];
  rewrite ?toInt32_id by (unfold blen in *; lia); simpl negb; unfold mwhen;
  erewrite bind_Done by (apply checkInt_ok; unfold blen in *; lia).

#[global] Instance UInt8_laws : IntCodecLaws UInt8.
Proof.
  split; [simpl; lia| | |reject].
  - intros h b v o Hwf Hb Ho [H0 H1]. unfold ic_min, ic_max in *. simpl in *.
    unfold writeUInt8. pass_guard.
    erewrite bind_Done by (apply bset_in; unfold blen; lia).
    by rewrite js_and_255, toUint8_mod, Nat2Z.id.
  - intros h b o Hwf Hb Ho. apply read8_spec; done.
Qed.

#[global] Instance Int8_laws : IntCodecLaws Int8.
Proof.
  split; [simpl; lia| | |reject].
  - intros h b v o Hwf Hb Ho [H0 H1]. unfold ic_min, ic_max in *. simpl in *.
    unfold writeInt8. pass_guard.
    erewrite bind_Done by (apply bset_in; unfold blen; lia).
    rewrite js_and_255, toUint8_mod, Nat2Z.id. unfold ret. do 3 f_equal. simpl.
    destr_cmp; [|done]. replace (255 + v + 1) with (v + 1 * 256) by lia. by rewrite Z.mod_add.
  - intros h b o Hwf Hb Ho. apply (read8_spec h b o Hwf Ho).
Qed.

Ltac laws16 u := 
  split; [simpl; lia| | |reject];
  [intros h b v o Hwf Hb Ho [H0 H1]; unfold ic_min, ic_max in *; simpl in *; unfold u; pass_guard;
   (erewrite bind_Done by (apply put16_spec; lia)); reflexivity
  |intros h b o Hwf Hb Ho; apply (read16_spec h b o Hwf Ho)].

#[global] Instance UInt16LE_laws : IntCodecLaws UInt16LE.
Proof. laws16 writeUInt16LE. Qed.
#[global] Instance UInt16BE_laws : IntCodecLaws UInt16BE.
Proof. laws16 writeUInt16BE. Qed.
#[global] Instance Int16LE_laws : IntCodecLaws Int16LE.
Proof. laws16 writeInt16LE. Qed.
#[global] Instance Int16BE_laws : IntCodecLaws Int16BE.
Proof. laws16 writeInt16BE. Qed.

Ltac laws32 u tac :=
  split; [simpl; lia| | |reject];
  [intros h b v o Hwf Hb Ho [H0 H1]; unfold ic_min, ic_max in *; simpl in *; unfold u; pass_guard; tac
  |intros h b o Hwf Hb Ho; apply (read32_spec h b o Hwf Ho)].

#[global] Instance UInt32LE_laws : IntCodecLaws UInt32LE.
Proof. laws32 writeUInt32LE ltac:(apply put32LE_spec; lia). Qed.
#[global] Instance Int32LE_laws : IntCodecLaws Int32LE.
Proof. laws32 writeInt32LE ltac:(apply put32LE_spec; lia). Qed.
#[global] Instance UInt32BE_laws : IntCodecLaws UInt32BE.
Proof.
  laws32 writeUInt32BE ltac:((erewrite bind_Done by (apply put32BE_spec; lia)); reflexivity).
Qed.
#[global] Instance Int32BE_laws : IntCodecLaws Int32BE.
Proof.
  laws32 writeInt32BE ltac:(erewrite bind_Done by (apply put32BE_spec; lia)).
  unfold ret, ic_encode. cbn [ic_width ic_big_endian Int32BE].
  destr_cmp; [|done]. replace (4294967295 + v + 1) with (v + 1 * 256 ^ Z.of_nat 4) by lia.
  by rewrite le_bytes_add.
Qed.

Lemma UIntLE_laws w : (1 <= w <= 6)%nat -> IntCodecLaws (UIntLE w).
Proof.
  intros Hw. split; [simpl; lia| | |reject]; destruct w as [|n]; try lia.
  - intros h b v o Hwf Hb Ho [H0 H1]. unfold ic_min, ic_max in *. simpl ic_signed in *.
    apply writeUIntLE_spec; try done. cbn [ic_width UIntLE] in *. lia.
  - intros h b o Hwf Hb Ho. by apply readUIntLE_spec.
Qed.

Lemma UIntBE_laws w : (1 <= w <= 6)%nat -> IntCodecLaws (UIntBE w).
Proof.
  intros Hw. split; [simpl; lia| | |reject]; destruct w as [|n]; try lia.
  - intros h b v o Hwf Hb Ho [H0 H1]. unfold ic_min, ic_max in *. simpl ic_signed in *.
    apply writeUIntBE_spec; try done. cbn [ic_width UIntBE] in *. lia.
  - intros h b o Hwf Hb Ho. by apply readUIntBE_spec.
Qed.

Lemma IntLE_laws w : (1 <= w <= 6)%nat -> IntCodecLaws (IntLE w).
Proof.
  intros Hw. split; [simpl; lia| | |reject]; destruct w as [|n]; try lia.
  - intros h b v o Hwf Hb Ho [H0 H1]. unfold ic_min, ic_max in *. simpl ic_signed in *.
    apply writeIntLE_spec; try done. cbn [ic_width IntLE] in *. lia.
  - intros h b o Hwf Hb Ho. by apply readUIntLE_spec.
Qed.

Lemma IntBE_laws w : (1 <= w <= 6)%nat -> IntCodecLaws (IntBE w).
Proof.
  intros Hw. split; [simpl; lia| | |reject]; destruct w as [|n]; try lia.
  - intros h b v o Hwf Hb Ho [H0 H1]. unfold ic_min, ic_max in *. simpl ic_signed in *.
    apply writeIntBE_spec; try done. cbn [ic_width IntBE] in *. lia.
  - intros h b o Hwf Hb Ho. by apply readUIntBE_spec.
Qed.

(** Every pair of integer methods of [Buffer.prototype]. *)
Inductive buffer_codec : int_codec -> Prop :=
  | bc_fixed c : c ∈ [UInt8; Int8; UInt16LE; UInt16BE; Int16LE; Int16BE;
                      UInt32LE; UInt32BE; Int32LE; Int32BE] -> buffer_codec c
  | bc_UIntLE w : (1 <= w <= 6)%nat -> buffer_codec (UIntLE w)
  | bc_UIntBE w : (1 <= w <= 6)%nat -> buffer_codec (UIntBE w)
  | bc_IntLE w : (1 <= w <= 6)%nat -> buffer_codec (IntLE w)
  | bc_IntBE w : (1 <= w <= 6)%nat -> buffer_codec (IntBE w).

Lemma buffer_codec_laws c : buffer_codec c -> IntCodecLaws c.
Proof.
  intros [c' Hc|w Hw|w Hw|w Hw|w Hw];
    [|by apply UIntLE_laws|by apply UIntBE_laws|by apply IntLE_laws|by apply IntBE_laws].
  repeat (apply elem_of_cons in Hc as [->|Hc]; [apply _|]). by apply elem_of_nil in Hc.
Qed.

Section CodecTheory.
Context (c : int_codec) `{Hlaws : IntCodecLaws c}.

Lemma ic_encode_length v : length (ic_encode c v) = ic_width c.
Proof. unfold ic_encode. destruct (ic_big_endian c); by rewrite ?length_rev, length_le_bytes. Qed.

Lemma ic_encode_bytes v : Forall byte (ic_encode c v).
Proof.
  unfold ic_encode. pose proof (le_bytes_bytes (ic_width c) v).
  destruct (ic_big_endian c); [by apply Forall_rev|done].
Qed.

Lemma ic_decode_encode v : ic_min c <= v <= ic_max c -> ic_decode c (ic_encode c v) = v.
Proof using Hlaws.
  intros Hv. pose proof (icl_width (c := c)) as Hw. unfold ic_decode, ic_encode.
  replace (if ic_big_endian c then rev _ else _) with (le_bytes (ic_width c) v)
    by (destruct (ic_big_endian c); by rewrite ?rev_involutive).
  rewrite le_val_bytes. unfold ic_min, ic_max in Hv. destruct (ic_signed c).
  - apply to_signed_mod; lia.
  - rewrite pow256. apply Z.mod_small. lia.
Qed.

Lemma codec_roundtrip h b v (o : nat) :
  wf_view h b -> blen b < 2 ^ 31 -> (o + ic_width c <= v_len b)%nat ->
  ic_min c <= v <= ic_max c ->
  exists h', ic_write c b v (Z.of_nat o) false h = Done (Z.of_nat o + Z.of_nat (ic_width c)) h' /\
    wf_view h' b /\ contents h' b = list_inserts o (ic_encode c v) (contents h b) /\
    ic_read c b (Z.of_nat o) false h' = Done (Some v) h'.
Proof using Hlaws.
  intros Hwf Hb Ho Hv. eexists. split; [by apply icl_write|].
  assert (Hwf' : wf_view (write_bytes b o (ic_encode c v) h) b)
    by (apply wf_write_bytes; [done|apply ic_encode_bytes]).
  assert (Hc : contents (write_bytes b o (ic_encode c v) h) b =
               list_inserts o (ic_encode c v) (contents h b))
    by (apply contents_write_bytes; [done|by rewrite ic_encode_length]).
  split; [done|]. split; [done|]. rewrite icl_read by done. do 2 f_equal.
  unfold window. rewrite Hc. rewrite <- (ic_encode_length v) at 1.
  rewrite take_drop_list_inserts, ic_decode_encode; [done|done|].
  by rewrite ic_encode_length, length_contents.
Qed.
End CodecTheory.

(** ** Properties *)

(** C11: For every integer method pair of Buffer (8, 16, 32 bit, and 1 to 6 byte
    variable width; signed and unsigned; both byte orders), a value in the
    method's range written inside the buffer is read back unchanged, the write
    returns the offset after it, stores the two's complement bytes in the
    method's order and changes no other byte. *)
Theorem int_write_read_roundtrip c h b v (o : nat) :
  buffer_codec c ->
  wf_view h b -> blen b < 2 ^ 31 -> (o + ic_width c <= v_len b)%nat ->
  ic_min c <= v <= ic_max c ->
  exists h', ic_write c b v (Z.of_nat o) false h = Done (Z.of_nat o + Z.of_nat (ic_width c)) h' /\
    wf_view h' b /\ contents h' b = list_inserts o (ic_encode c v) (contents h b) /\
    ic_read c b (Z.of_nat o) false h' = Done (Some v) h'.
Proof. intros Hc. pose proof (buffer_codec_laws c Hc). by apply codec_roundtrip. Qed.

Lemma int_write_read_roundtrip_witness :
  exists h', writeIntBE ex_view (-2) 1 3 false ex_store = Done 4 h' /\
    contents h' ex_view = [1; 255; 255; 254; 5; 6] /\
    readIntBE ex_view 1 3 false h' = Done (Some (-2)) h'.
Proof.
  destruct (int_write_read_roundtrip (IntBE 3) ex_store ex_view (-2) 1) as (h' & E & _ & C & R);
    [by apply bc_IntBE; lia|vm_decide|done|simpl; lia|vm_compute; split; discriminate|].
  exists h'. split; [exact E|]. split; [rewrite C; reflexivity|exact R].
Defined.

(** C38: The checked integer writers of Buffer reject a value outside the range of the method, and a
    write that goes past the end of the Buffer, with a [RangeError], and then leave memory unchanged;
    the offset is a 32-bit integer (offsets below 0 are not tested by the code, and not claimed to be
    rejected). *)
Theorem int_write_rejects c h b v o :
  buffer_codec c -> - 2 ^ 31 <= o < 2 ^ 31 ->
  v < ic_min c \/ ic_max c < v \/ blen b < o + Z.of_nat (ic_width c) ->
  exists msg, ic_write c b v o false h = Raise (RangeError msg) h.
Proof. intros Hc Ho Hbad. pose proof (buffer_codec_laws c Hc). by apply icl_reject. Qed.

Lemma int_write_rejects_witness :
  exists msg, writeInt8 ex_view 128 0 false ex_store = Raise (RangeError msg) ex_store.
Proof.
  apply (int_write_rejects Int8 ex_store ex_view 128 0);
    [apply bc_fixed; rewrite !elem_of_cons; tauto|lia|right; left; vm_compute; reflexivity].
Defined.

(** The hand-unrolled 8, 16 and 32 bit methods compute exactly what the
    generic byte loops compute at that width, in both directions. *)
Theorem fixed_width_agrees c g h b v (o : nat) :
  buffer_codec c -> buffer_codec g ->
  ic_width c = ic_width g -> ic_big_endian c = ic_big_endian g -> ic_signed c = ic_signed g ->
  wf_view h b -> blen b < 2 ^ 31 -> (o + ic_width c <= v_len b)%nat ->
  ic_min c <= v <= ic_max c ->
  ic_write c b v (Z.of_nat o) false h = ic_write g b v (Z.of_nat o) false h /\
  ic_read c b (Z.of_nat o) false h = ic_read g b (Z.of_nat o) false h.
Proof.
  intros Hc Hg Ew Ee Es Hwf Hb Ho Hv.
  pose proof (buffer_codec_laws c Hc). pose proof (buffer_codec_laws g Hg).
  assert (Hv' : ic_min g <= v <= ic_max g) by (unfold ic_min, ic_max in *; by rewrite <- Ew, <- Es).
  assert (Ho' : (o + ic_width g <= v_len b)%nat) by lia.
  rewrite (icl_write (c := c)), (icl_write (c := g)), (icl_read (c := c)), (icl_read (c := g)) by done.
  unfold ic_encode, ic_decode. by rewrite Ew, Ee, Es.
Qed.

Lemma fixed_width_agrees_witness :
  writeUInt32LE ex_view 4278255360 2 false ex_store =
    writeUIntLE ex_view 4278255360 2 4 false ex_store /\
  readUInt32LE ex_view 2 false ex_store = readUIntLE ex_view 2 4 false ex_store.
Proof.
  apply (fixed_width_agrees UInt32LE (UIntLE 4) ex_store ex_view 4278255360 2);
    [apply bc_fixed; rewrite !elem_of_cons; tauto|by apply bc_UIntLE; lia|done|done|done|vm_decide|done|simpl; lia
    |vm_compute; split; discriminate].
Defined.

(** Without typed arrays the writers fall back to [objectWriteUInt16] and
    [objectWriteUInt32]; inside the buffer, for values of the method's range,
    they store the same bytes as the typed-array bodies, in both byte orders. *)
Theorem object_writers_agree h b v (o : nat) :
  ((o + 2 <= v_len b)%nat -> - 2 ^ 15 <= v < 2 ^ 16 ->
   objectWriteUInt16 b v (Z.of_nat o) true h = put16LE b v (Z.of_nat o) h /\
   objectWriteUInt16 b v (Z.of_nat o) false h = put16BE b v (Z.of_nat o) h) /\
  ((o + 4 <= v_len b)%nat -> - 2 ^ 31 <= v < 2 ^ 32 ->
   objectWriteUInt32 b v (Z.of_nat o) true h =
     Done tt (write_bytes b o (le_bytes 4 v) h) /\
   objectWriteUInt32 b v (Z.of_nat o) false h = put32BE b v (Z.of_nat o) h).
Proof.
  split; intros Ho Hv.
  - destruct (put16_spec h b o v Ho) as [-> ->]. by apply objectWrite16_spec.
  - rewrite put32BE_spec by done. by apply objectWrite32_spec.
Qed.

Lemma object_writers_agree_witness :
  objectWriteUInt16 ex_view (-2) 1 false ex_store = put16BE ex_view (-2) 1 ex_store /\
  objectWriteUInt32 ex_view (-2) 1 false ex_store = put32BE ex_view (-2) 1 ex_store.
Proof.
  destruct (object_writers_agree ex_store ex_view (-2) 1) as [H16 H32].
  split; [apply H16; simpl; lia|apply H32; simpl; lia].
Defined.
