(* ===== verification/JsString.v ===== *)
(** JavaScript strings and the string functions the sources call.

    A string is the list of its UTF-16 code units.  [charCodeAt] out of range is
    [NaN], written [-1]: like [NaN] it is different from every code unit. *)
From S2P Require Import Prelude.

Abbreviation jsstr := (list Z).

(** An ASCII literal. *)
Fixpoint js (s : string) : jsstr :=
  match s with
  | EmptyString => []
  | String c s' => Z.of_N (N_of_ascii c) :: js s'
  end.

Definition code_unit (c : Z) : Prop := 0 <= c < 65536.

Definition slen (s : jsstr) : Z := Z.of_nat (length s).

Definition NaN_code : Z := -1.

Definition charCodeAt (s : jsstr) (i : Z) : Z :=
  if i <? 0 then NaN_code else default NaN_code (s !! Z.to_nat i).

(** [s.slice(a, b)] for [0 <= a]. *)
Definition sslice (s : jsstr) (a b : Z) : jsstr :=
  take (Z.to_nat (b - a)) (drop (Z.to_nat a) s).

(** [s.toLowerCase()] on the ASCII letters (no other code unit lowers to one of
    the ASCII names the sources compare with). *)
Definition lower_unit (c : Z) : Z := if (65 <=? c) && (c <=? 90) then c + 32 else c.
Definition upper_unit (c : Z) : Z := if (97 <=? c) && (c <=? 122) then c - 32 else c.
Definition toLowerCase (s : jsstr) : jsstr := lower_unit <$> s.
Definition toUpperCase (s : jsstr) : jsstr := upper_unit <$> s.

(** [s.indexOf(c)] for a one-unit string. *)
Fixpoint index_unit (s : jsstr) (c : Z) : Z :=
  match s with
  | [] => -1
  | x :: s' => if x =? c then 0 else
                 let k := index_unit s' c in if k <? 0 then -1 else k + 1
  end.

(** White space skipped by [parseInt] and removed by [trim]. *)
Definition is_space (c : Z) : bool :=
  ((9 <=? c) && (c <=? 13)) || (c =? 32) || (c =? 160) || (c =? 5760) ||
  ((8192 <=? c) && (c <=? 8202)) || (c =? 8232) || (c =? 8233) || (c =? 8239) ||
  (c =? 8287) || (c =? 12288) || (c =? 65279).

Fixpoint trim_left (s : jsstr) : jsstr :=
  match s with
  | c :: s' => if is_space c then trim_left s' else s
  | [] => []
  end.

Definition trim (s : jsstr) : jsstr := rev (trim_left (rev (trim_left s))).

(** ** Numerals *)

Definition digit_char (d : Z) : Z := if d <? 10 then 48 + d else 87 + d.

Definition digit_val (c : Z) : option Z :=
  if (48 <=? c) && (c <=? 57) then Some (c - 48)
  else if (97 <=? c) && (c <=? 122) then Some (c - 87)
  else if (65 <=? c) && (c <=? 90) then Some (c - 55)
  else None.

Fixpoint digits_fuel (fuel : nat) (radix n : Z) (acc : jsstr) : jsstr :=
  match fuel with
  | O => acc
  | S f =>
      let acc := digit_char (n mod radix) :: acc in
      if n / radix =? 0 then acc else digits_fuel f radix (n / radix) acc
  end.

(** [n.toString(radix)] of a non-negative integer. *)
Definition digits (radix n : Z) : jsstr := digits_fuel (S (Z.to_nat (Z.log2 n))) radix n [].

(** [n.toString(radix)] of an integral number. *)
Definition int_to_string (radix n : Z) : jsstr :=
  if n <? 0 then 45 :: digits radix (- n) else digits radix n.

(** The longest run of digits of the radix. *)
Fixpoint digit_run (radix : Z) (s : jsstr) : list Z :=
  match s with
  | c :: s' => match digit_val c with
               | Some d => if d <? radix then d :: digit_run radix s' else []
               | None => []
               end
  | [] => []
  end.

Definition digits_value (radix : Z) (ds : list Z) : Z :=
  foldl (fun acc d => acc * radix + d) 0 ds.

(** [parseInt(s, radix)]: the sign and the magnitude, [None] for [NaN]. *)
Definition parseInt (s : jsstr) (radix : Z) : option (bool * Z) :=
  let s := trim_left s in
  let '(neg, s) := match s with
                   | 45 :: s' => (true, s')
                   | 43 :: s' => (false, s')
                   | _ => (false, s) end in
  let s := if radix =? 16 then
             match s with
             | 48 :: x :: s' => if (x =? 120) || (x =? 88) then s' else s
             | _ => s end
           else s in
  match digit_run radix s with
  | [] => None
  | ds => Some (neg, digits_value radix ds)
  end.

(** ** Lemmas *)

Lemma digit_val_char d : 0 <= d < 36 -> digit_val (digit_char d) = Some d.
Proof.
  intros H. unfold digit_val, digit_char. destr_cmp; simpl; try lia; f_equal; lia.
Qed.

Lemma digits_value_app radix ds d :
  digits_value radix (ds ++ [d]) = digits_value radix ds * radix + d.
Proof. unfold digits_value. by rewrite foldl_app. Qed.

Lemma digits_fuel_app fuel radix n acc :
  digits_fuel fuel radix n acc = digits_fuel fuel radix n [] ++ acc.
Proof.
  revert n acc. induction fuel as [|f IH]; intros n acc; simpl; [done|].
  destruct (n / radix =? 0); [done|].
  rewrite (IH _ (_ :: acc)), (IH _ [_]). by rewrite <- app_assoc.
Qed.

(** The digits as numbers: [digits] is their image under [digit_char]. *)
Lemma digits_fuel_spec fuel radix n :
  2 <= radix <= 36 -> 0 <= n < 2 ^ Z.of_nat fuel ->
  exists ds, digits_fuel fuel radix n [] = digit_char <$> ds /\
    Forall (fun d => 0 <= d < radix) ds /\ (fuel <> 0%nat -> ds <> []) /\
    digits_value radix ds = n.
Proof.
  intros Hr. revert n. induction fuel as [|f IH]; intros n Hn.
  - exists []. simpl in *. repeat split; try done. unfold digits_value. simpl. lia.
  - simpl. pose proof (Z.mod_pos_bound n radix ltac:(lia)) as Hm.
    pose proof (Z.div_mod n radix ltac:(lia)) as Hd.
    destruct (Z.eqb_spec (n / radix) 0) as [E|E].
    + exists [n mod radix]. repeat split; try done.
      * by constructor.
      * unfold digits_value. simpl. lia.
    + destruct (IH (n / radix)) as (ds & E1 & F1 & N1 & V1).
      { split; [apply Z.div_pos; lia|]. apply Z.div_lt_upper_bound; [lia|].
        rewrite Nat2Z.inj_succ, Z.pow_succ_r in Hn by lia. nia. }
      exists (ds ++ [n mod radix]). rewrite digits_fuel_app, E1, fmap_app. repeat split.
      * apply Forall_app. split; [done|]. by constructor.
      * intros _. by destruct ds.
      * rewrite digits_value_app, V1. lia.
Qed.

Lemma digits_spec radix n :
  2 <= radix <= 36 -> 0 <= n ->
  exists ds, digits radix n = digit_char <$> ds /\
    Forall (fun d => 0 <= d < radix) ds /\ ds <> [] /\ digits_value radix ds = n.
Proof.
  intros Hr Hn. destruct (digits_fuel_spec (S (Z.to_nat (Z.log2 n))) radix n Hr)
    as (ds & E & F & N & V).
  - split; [done|]. rewrite Nat2Z.inj_succ, Z2Nat.id by apply Z.log2_nonneg.
    destruct (Z.eq_dec n 0) as [->|]; [done|]. apply Z.log2_spec. lia.
  - exists ds. repeat split; try done. by apply N.
Qed.

Lemma digit_run_chars radix ds rest :
  2 <= radix <= 36 -> Forall (fun d => 0 <= d < radix) ds ->
  match rest with [] => True | c :: _ =>
    match digit_val c with Some d => radix <= d | None => True end end ->
  digit_run radix ((digit_char <$> ds) ++ rest) = ds.
Proof.
  intros Hr HF Hrest. induction HF as [|d ds Hd _ IH]; simpl.
  - destruct rest as [|c rest]; [done|]. simpl. destruct (digit_val c) as [d|]; [|done].
    destruct (Z.ltb_spec d radix); [lia|done].
  - rewrite digit_val_char by lia. destruct (Z.ltb_spec d radix); [|lia]. f_equal. exact IH.
Qed.

Lemma digit_char_range d : 0 <= d < 36 ->
  48 <= digit_char d <= 57 \/ 97 <= digit_char d <= 122.
Proof. intros H. unfold digit_char. destr_cmp; lia. Qed.

Lemma length_digits_fuel fuel radix n (k : nat) :
  2 <= radix -> 0 <= n < radix ^ Z.of_nat (S k) ->
  (length (digits_fuel fuel radix n []) <= S k)%nat.
Proof.
  intros Hr. revert n k. induction fuel as [|f IH]; intros n k Hn; [simpl; lia|]. cbn [digits_fuel].
  destruct (Z.eqb_spec (n / radix) 0) as [E|E]; [simpl; lia|].
  rewrite digits_fuel_app, length_app. simpl.
  destruct k as [|k].
  - exfalso. apply E. apply Z.div_small. change (radix ^ Z.of_nat 1) with (radix ^ 1) in Hn. lia.
  - specialize (IH (n / radix) k). assert (length (digits_fuel f radix (n / radix) []) <= S k)%nat; [|lia].
    apply IH. split; [apply Z.div_pos; lia|]. apply Z.div_lt_upper_bound; [lia|].
    rewrite Nat2Z.inj_succ, Z.pow_succ_r in Hn by lia. lia.
Qed.

Lemma length_digits radix n (k : nat) : 2 <= radix -> 0 <= n < radix ^ Z.of_nat (S k) ->
  (length (digits radix n) <= S k)%nat.
Proof. intros. by apply length_digits_fuel. Qed.
