(* ===== verification/Base64Js.v ===== *)
(** base64-js as bundled in swagger-ui-bundle.js, the codec behind the
    ["base64"] encoding of Buffer, and the interface Buffer uses it through. *)
From S2P Require Import Prelude BufferStore JsString.

(** ** The interface: what Buffer needs from a base64 library *)

Class Base64 := {
  b64_toByteArray : jsstr -> js_error + list Z;
  b64_fromByteArray : list Z -> jsstr
}.

Definition is_b64_unit (c : Z) : bool :=
  ((48 <=? c) && (c <=? 57)) || ((65 <=? c) && (c <=? 90)) || ((97 <=? c) && (c <=? 122)) ||
  (c =? 43) || (c =? 47).

Class Base64Laws `{Base64} : Prop := {
  b64_empty : b64_toByteArray [] = inr [] /\ b64_fromByteArray [] = [];
  b64_roundtrip bs : Forall byte bs -> b64_toByteArray (b64_fromByteArray bs) = inr bs;
  (** The text is a block of alphabet characters padded with [=] to a multiple of
      four; it is empty only for no bytes. *)
  b64_shape bs : Forall byte bs ->
    exists body k, b64_fromByteArray bs = body ++ replicate k 61 /\
      Forall (fun c => is_b64_unit c = true) body /\ (k <= 2)%nat /\
      slen (b64_fromByteArray bs) mod 4 = 0 /\ (bs <> [] -> (2 <= length body)%nat)
}.

(** ** The implementation *)

Definition alphabet : jsstr :=
  js "ABCDEFGHIJKLMNOPQRSTUVWXYZabcdefghijklmnopqrstuvwxyz0123456789+/".

(** [lookup[i]]; the concatenation of [undefined] is spelled out. *)
Definition enc_at (i : Z) : jsstr :=
  match alphabet !! Z.to_nat i with Some c => [c] | None => js "undefined" end.

(** [revLookup[c]] as operand of a shift: [undefined] is 0. *)
Definition dec_at (c : Z) : Z :=
  let k := index_unit alphabet c in
  if 0 <=? k then k else if c =? 45 then 62 else if c =? 95 then 63 else 0.

(** Valid length and number of placeholders. *)
Definition getLens (e : jsstr) : js_error + (Z * Z) :=
  let t := slen e in
  if 0 <? t mod 4 then inl (PlainError "Invalid string. Length must be a multiple of 4")
  else
    let n := index_unit e 61 in
    let n := if n =? -1 then t else n in
    inr (n, if n =? t then 0 else 4 - n mod 4).

Fixpoint dec_loop (e : jsstr) (f : Z) (n : nat) : list Z :=
  match n with
  | O => []
  | S n' =>
      let t := js_or (js_or (js_or (js_shl (dec_at (charCodeAt e f)) 18)
                                   (js_shl (dec_at (charCodeAt e (f + 1))) 12))
                            (js_shl (dec_at (charCodeAt e (f + 2))) 6))
                     (dec_at (charCodeAt e (f + 3))) in
      js_and (js_shr t 16) 255 :: js_and (js_shr t 8) 255 :: js_and 255 t :: dec_loop e (f + 4) n'
  end.

(** [u = new Uint8Array(n)] filled from the front: extra stores are ignored. *)
Definition fit (n : nat) (l : list Z) : list Z := take n (l ++ replicate n 0).

Definition toByteArray (e : jsstr) : js_error + list Z :=
  match getLens e with
  | inl err => inl err
  | inr (r, a) =>
      let len := 3 * (r + a) / 4 - a in
      if len <? 0 then inl (RangeError "Invalid typed array length")
      else
        let c := if 0 <? a then r - 4 else r in
        let iters := Z.to_nat ((c + 3) / 4) in
        let f := 4 * Z.of_nat iters in
        let o i := dec_at (charCodeAt e (f + i)) in
        let tail2 := if a =? 2 then
            [js_and 255 (js_or (js_shl (o 0) 2) (js_shr (o 1) 4))] else [] in
        let tail1 := if a =? 1 then
            let t := js_or (js_or (js_shl (o 0) 10) (js_shl (o 1) 4)) (js_shr (o 2) 2) in
            [js_and (js_shr t 8) 255; js_and 255 t] else [] in
        inr (fit (Z.to_nat len) (dec_loop e 0 iters ++ tail2 ++ tail1))
  end.

Definition at_n (e : list Z) (i : Z) : Z := n32 (e !! Z.to_nat i).

Fixpoint enc_loop (e : list Z) (u : Z) (n : nat) : jsstr :=
  match n with
  | O => []
  | S n' =>
      let i := js_and (js_shl (at_n e u) 16) 16711680 +
               js_and (js_shl (at_n e (u + 1)) 8) 65280 + js_and 255 (at_n e (u + 2)) in
      enc_at (js_and (js_shr i 18) 63) ++ enc_at (js_and (js_shr i 12) 63) ++
      enc_at (js_and (js_shr i 6) 63) ++ enc_at (js_and 63 i) ++ enc_loop e (u + 3) n'
  end.

(** [c(e, t, n)]: the bytes from [t] to [n], three at a time. *)
Definition encodeChunk (e : list Z) (t n : Z) : jsstr := enc_loop e t (Z.to_nat ((n - t + 2) / 3)).

(** [for (a = 0; a < u; a += 16383) i.push(c(e, a, min(a + 16383, u)))] *)
Fixpoint chunk_loop (e : list Z) (a u : Z) (n : nat) : jsstr :=
  match n with
  | O => []
  | S n' => encodeChunk e a (if u <? a + 16383 then u else a + 16383) ++
            chunk_loop e (a + 16383) u n'
  end.

Definition fromByteArray (e : list Z) : jsstr :=
  let n := Z.of_nat (length e) in
  let o := n mod 3 in
  let u := n - o in
  chunk_loop e 0 u (Z.to_nat ((u + 16382) / 16383)) ++
  (if o =? 1 then
     let t := at_n e (n - 1) in
     enc_at (js_shr t 2) ++ enc_at (js_and (js_shl t 4) 63) ++ js "=="
   else if o =? 2 then
     let t := js_shl (at_n e (n - 2)) 8 + at_n e (n - 1) in
     enc_at (js_shr t 10) ++ enc_at (js_and (js_shr t 4) 63) ++
     enc_at (js_and (js_shl t 2) 63) ++ js "="
   else []).

#[global] Instance base64_js : Base64 := {
  b64_toByteArray := toByteArray;
  b64_fromByteArray := fromByteArray
}.

Example b64_ex1 : fromByteArray (js "Man") = js "TWFu". Proof. reflexivity. Qed.
Example b64_ex2 : fromByteArray (js "Ma") = js "TWE=". Proof. reflexivity. Qed.
Example b64_ex3 : fromByteArray (js "light work.") = js "bGlnaHQgd29yay4=". Proof. reflexivity. Qed.
Example b64_ex4 : toByteArray (js "bGlnaHQgd29yay4=") = inr (js "light work."). Proof. reflexivity. Qed.

(** ** Correctness *)

(** The alphabet character of a sextet. *)
Definition ch (x : Z) : Z := default 0 (alphabet !! Z.to_nat x).

Definition ch_ok (x : Z) : bool :=
  bool_decide (enc_at x = [ch x]) && (dec_at (ch x) =? x) && is_b64_unit (ch x) &&
  negb (ch x =? 61).

Lemma ch_facts x : 0 <= x < 64 ->
  enc_at x = [ch x] /\ dec_at (ch x) = x /\ is_b64_unit (ch x) = true /\ ch x <> 61.
Proof.
  intros Hx. assert (H : ch_ok x = true)
    by (apply (forall_below_spec 64 ch_ok); [vm_compute; reflexivity|done]).
  unfold ch_ok in H. bool_hyps. apply bool_decide_eq_true in H. done.
Qed.

Lemma enc_at_ch x : 0 <= x < 64 -> enc_at x = [ch x].
Proof. intros H. apply (ch_facts x H). Qed.

Lemma dec_at_ch x : 0 <= x < 64 -> dec_at (ch x) = x.
Proof. intros H. apply (ch_facts x H). Qed.

Definition group24 (a b c : Z) : Z := a * 65536 + b * 256 + c.

(** The four sextets of three bytes. *)
Definition enc3 (t : Z * Z * Z) : jsstr :=
  let '(a, b, c) := t in
  let g := group24 a b c in
  [ch (g / 262144); ch ((g / 4096) mod 64); ch ((g / 64) mod 64); ch (g mod 64)].

Definition triple_bytes (t : Z * Z * Z) : Prop :=
  let '(a, b, c) := t in byte a /\ byte b /\ byte c.

Definition flat3 (ts : list (Z * Z * Z)) : list Z :=
  ts ≫= (fun '(a, b, c) => [a; b; c]).

Definition enc3s (ts : list (Z * Z * Z)) : jsstr := ts ≫= enc3.

Lemma length_flat3 ts : length (flat3 ts) = (3 * length ts)%nat.
Proof.
  induction ts as [|[[a b] c] ts IH]; [done|].
  change (flat3 ((a, b, c) :: ts)) with ([a; b; c] ++ flat3 ts). rewrite length_app, IH. simpl. lia.
Qed.

Lemma length_enc3s ts : length (enc3s ts) = (4 * length ts)%nat.
Proof.
  induction ts as [|[[a b] c] ts IH]; [done|].
  change (enc3s ((a, b, c) :: ts)) with (enc3 (a, b, c) ++ enc3s ts).
  rewrite length_app, IH. simpl. lia.
Qed.

(** Every byte list is a list of triples and at most two more bytes. *)
Lemma triples_split (bs : list Z) : Forall byte bs ->
  exists ts rest, bs = flat3 ts ++ rest /\ Forall triple_bytes ts /\
    (rest = [] \/ (exists a, rest = [a] /\ byte a) \/
     (exists a b, rest = [a; b] /\ byte a /\ byte b)).
Proof.
  remember (length bs) as n eqn:En. revert bs En.
  induction n as [n IH] using lt_wf_ind. intros bs -> Hb.
  destruct bs as [|a [|b [|c bs]]].
  - exists [], []. split; [done|]. split; [constructor|auto].
  - exists [], [a]. split; [done|]. split; [constructor|].
    apply Forall_cons_1 in Hb as [Ha _]. right. left. eauto.
  - exists [], [a; b]. split; [done|]. split; [constructor|].
    apply Forall_cons_1 in Hb as [Ha [Hb' _]%Forall_cons_1]. right. right. eauto.
  - apply Forall_cons_1 in Hb as [Ha [Hb' [Hc Hb]%Forall_cons_1]%Forall_cons_1].
    destruct (IH (length bs) ltac:(simpl; lia) bs eq_refl Hb) as (ts & rest & -> & F & R).
    exists ((a, b, c) :: ts), rest. split; [done|]. split; [|done]. constructor; [done|done].
Qed.

Lemma group24_sextets a b c : byte a -> byte b -> byte c ->
  let g := group24 a b c in
  0 <= g < 2 ^ 24 /\ 0 <= g / 262144 < 64 /\ 0 <= (g / 4096) mod 64 < 64 /\
  0 <= (g / 64) mod 64 < 64 /\ 0 <= g mod 64 < 64 /\
  g = g / 262144 * 262144 + (g / 4096) mod 64 * 4096 + (g / 64) mod 64 * 64 + g mod 64.
Proof.
  intros Ha Hb Hc g. unfold byte in *. assert (0 <= g < 16777216) by (unfold g, group24; lia).
  clearbody g. Z.div_mod_to_equations. lia.
Qed.

Lemma js_and_63 v : js_and v 63 = v mod 64.
Proof. apply (js_and_ones v 6). lia. Qed.

(** Fields or-ed from the top, the shape both decoders build. *)
Lemma or_fields2 hi lo n :
  0 <= n -> 0 <= lo < 2 ^ n -> 0 <= hi -> hi * 2 ^ n + lo < 2 ^ 31 ->
  js_or (hi * 2 ^ n) lo = hi * 2 ^ n + lo.
Proof. intros. apply js_or_add_l; nia. Qed.

Lemma shl_small x n : 0 <= n < 32 -> 0 <= x -> x * 2 ^ n < 2 ^ 31 -> js_shl x n = x * 2 ^ n.
Proof.
  intros Hn Hx Hlt. assert (0 < 2 ^ n) by (apply Z.pow_pos_nonneg; lia).
  rewrite js_shl_mul by nia. apply toInt32_id. nia.
Qed.

Lemma or_sextets d0 d1 d2 d3 :
  0 <= d0 < 64 -> 0 <= d1 < 64 -> 0 <= d2 < 64 -> 0 <= d3 < 64 ->
  js_or (js_or (js_or (js_shl d0 18) (js_shl d1 12)) (js_shl d2 6)) d3 =
  d0 * 262144 + d1 * 4096 + d2 * 64 + d3.
Proof.
  intros. rewrite !shl_small by lia.
  rewrite (or_fields2 d0 _ 18) by lia.
  replace (d0 * 2 ^ 18 + d1 * 2 ^ 12) with ((d0 * 64 + d1) * 2 ^ 12) by lia.
  rewrite (or_fields2 _ _ 12) by lia.
  replace ((d0 * 64 + d1) * 2 ^ 12 + d2 * 2 ^ 6) with ((d0 * 4096 + d1 * 64 + d2) * 2 ^ 6) by lia.
  rewrite (or_fields2 _ _ 6) by lia. lia.
Qed.

Lemma group24_bytes a b c : byte a -> byte b -> byte c ->
  let g := group24 a b c in
  js_and (js_shr g 16) 255 = a /\ js_and (js_shr g 8) 255 = b /\ js_and 255 g = c.
Proof.
  intros Ha Hb Hc g. unfold byte in *. assert (Hg : 0 <= g < 16777216) by (unfold g, group24; lia).
  rewrite (js_and_comm 255), !js_and_255, !js_shr_div by lia. unfold g, group24 in *.
  repeat split; Z.div_mod_to_equations; lia.
Qed.

Lemma charCodeAt_app pre s (k : nat) i :
  i = Z.of_nat (length pre + k) -> charCodeAt (pre ++ s) i = default NaN_code (s !! k).
Proof.
  intros ->. unfold charCodeAt. destruct (Z.ltb_spec (Z.of_nat (length pre + k)) 0); [lia|].
  rewrite Nat2Z.id, lookup_app_r by lia. by rewrite Nat.add_sub_swap, Nat.sub_diag by lia.
Qed.

Lemma dec_loop_spec ts pre rest :
  Forall triple_bytes ts ->
  dec_loop (pre ++ enc3s ts ++ rest) (Z.of_nat (length pre)) (length ts) = flat3 ts.
Proof.
  intros HF. revert pre. induction HF as [|[[a b] c] ts [Ha [Hb Hc]] _ IH]; intros pre; [done|].
  cbn [length dec_loop]. destruct (group24_sextets a b c Ha Hb Hc) as (Hg & H0 & H1 & H2 & H3 & Eg).
  change (enc3s ((a, b, c) :: ts)) with (enc3 (a, b, c) ++ enc3s ts).
  rewrite <- (app_assoc (enc3 _)).
  rewrite (charCodeAt_app pre _ 0), (charCodeAt_app pre _ 1), (charCodeAt_app pre _ 2),
    (charCodeAt_app pre _ 3) by lia.
  set (rec := dec_loop _ _ _).
  cbn [enc3 app lookup list_lookup default from_option id].
  destruct (ch_facts _ H0) as (_ & -> & _). destruct (ch_facts _ H1) as (_ & -> & _).
  destruct (ch_facts _ H2) as (_ & -> & _). destruct (ch_facts _ H3) as (_ & -> & _).
  rewrite or_sextets by done. rewrite <- Eg.
  destruct (group24_bytes a b c Ha Hb Hc) as (-> & -> & ->).
  change (flat3 ((a, b, c) :: ts)) with ([a; b; c] ++ flat3 ts). simpl app. do 3 f_equal.
  subst rec. rewrite <- (IH (pre ++ enc3 (a, b, c))). f_equal.
  - by rewrite <- app_assoc.
  - rewrite length_app. simpl. lia.
Qed.

Lemma at_n_app pre s (k : nat) i :
  i = Z.of_nat (length pre + k) -> at_n (pre ++ s) i = n32 (s !! k).
Proof.
  intros ->. unfold at_n. rewrite Nat2Z.id, lookup_app_r by lia.
  by rewrite Nat.add_sub_swap, Nat.sub_diag by lia.
Qed.

Lemma mask_field x k : k = 8 \/ k = 16 -> byte x ->
  js_and (js_shl x k) (255 * 2 ^ k) = x * 2 ^ k.
Proof.
  unfold byte. intros Hk Hx. assert (0 < 2 ^ k <= 65536) by (destruct Hk as [->| ->]; lia).
  rewrite shl_small by nia. unfold js_and. rewrite !toInt32_id by nia.
  rewrite <- (Z.shiftl_mul_pow2 255), land_shiftl by lia.
  rewrite Z.shiftl_mul_pow2, Z.shiftr_div_pow2, Z.div_mul by lia.
  change 255 with (Z.ones 8). rewrite Z.land_ones, Z.mod_small by lia. done.
Qed.

Lemma enc_loop_spec ts pre rest :
  Forall triple_bytes ts ->
  enc_loop (pre ++ flat3 ts ++ rest) (Z.of_nat (length pre)) (length ts) = enc3s ts.
Proof.
  intros HF. revert pre. induction HF as [|[[a b] c] ts [Ha [Hb Hc]] _ IH]; intros pre; [done|].
  cbn [length enc_loop]. destruct (group24_sextets a b c Ha Hb Hc) as (Hg & H0 & H1 & H2 & H3 & _).
  change (flat3 ((a, b, c) :: ts)) with ([a; b; c] ++ flat3 ts). rewrite <- (app_assoc [a; b; c]).
  rewrite (at_n_app pre _ 0), (at_n_app pre _ 1), (at_n_app pre _ 2) by lia.
  set (rec := enc_loop _ _ _). cbn [app lookup list_lookup n32 default from_option id].
  change 16711680 with (255 * 2 ^ 16). change 65280 with (255 * 2 ^ 8).
  rewrite !mask_field by auto. rewrite (js_and_comm 255), js_and_255.
  rewrite (Z.mod_small c) by exact Hc. change (2 ^ 16) with 65536. change (2 ^ 8) with 256.
  fold (group24 a b c). set (g := group24 a b c) in *.
  rewrite (js_and_comm 63), !js_and_63, !js_shr_div by lia.
  change (2 ^ 18) with 262144. change (2 ^ 12) with 4096. change (2 ^ 6) with 64.
  rewrite (Z.mod_small (g / 262144)) by lia.
  rewrite (proj1 (ch_facts _ H0)), (proj1 (ch_facts _ H1)), (proj1 (ch_facts _ H2)),
    (proj1 (ch_facts _ H3)).
  change (enc3s ((a, b, c) :: ts)) with (enc3 (a, b, c) ++ enc3s ts). simpl app.
  do 4 f_equal. subst rec. rewrite <- (IH (pre ++ [a; b; c])). f_equal.
  - by rewrite <- app_assoc.
  - rewrite length_app. simpl. lia.
Qed.

Lemma enc_loop_add e u n m :
  enc_loop e u (n + m) = enc_loop e u n ++ enc_loop e (u + 3 * Z.of_nat n) m.
Proof.
  revert u. induction n as [|n IH]; intros u.
  - simpl. f_equal. lia.
  - cbn [Nat.add enc_loop]. rewrite IH, <- !app_assoc. do 6 f_equal. lia.
Qed.

(** The 16383-byte chunks do not matter. *)
Lemma chunk_loop_spec e a k n :
  n = Z.to_nat ((3 * Z.of_nat k + 16382) / 16383) ->
  chunk_loop e a (a + 3 * Z.of_nat k) n = enc_loop e a k.
Proof.
  revert a k. induction n as [|n IH]; intros a k Hn.
  - assert (k = 0%nat) as -> by (Z.div_mod_to_equations; lia). done.
  - simpl chunk_loop. unfold encodeChunk.
    destruct (Z.ltb_spec (a + 3 * Z.of_nat k) (a + 16383)) as [H|H].
    + assert (n = 0%nat) as -> by (Z.div_mod_to_equations; lia). simpl. rewrite app_nil_r.
      f_equal. Z.div_mod_to_equations. lia.
    + replace ((a + 16383 - a + 2) / 3) with 5461
        by (by replace (a + 16383 - a + 2) with 16385 by lia).
      replace k with (Z.to_nat 5461 + (k - Z.to_nat 5461))%nat at 2 by lia.
      rewrite enc_loop_add. f_equal.
      replace (a + 3 * Z.of_nat k) with (a + 16383 + 3 * Z.of_nat (k - Z.to_nat 5461)) by lia.
      rewrite IH; [f_equal; lia|]. Z.div_mod_to_equations. lia.
Qed.

Definition enc_rest (rest : list Z) : jsstr :=
  match rest with
  | [a] => [ch (a / 4); ch ((a * 16) mod 64); 61; 61]
  | [a; b] => let t := a * 256 + b in
              [ch (t / 1024); ch ((t / 16) mod 64); ch ((t * 4) mod 64); 61]
  | _ => []
  end.

Definition short_rest (rest : list Z) : Prop :=
  rest = [] \/ (exists a, rest = [a] /\ byte a) \/ (exists a b, rest = [a; b] /\ byte a /\ byte b).

Lemma fromByteArray_spec ts rest :
  Forall triple_bytes ts -> short_rest rest ->
  fromByteArray (flat3 ts ++ rest) = enc3s ts ++ enc_rest rest.
Proof.
  intros HF HR. unfold fromByteArray. rewrite length_app, length_flat3.
  assert (Hl : (length rest < 3)%nat)
    by (destruct HR as [->|[(? & -> & _)|(? & ? & -> & _)]]; simpl; lia).
  replace (Z.of_nat (3 * length ts + length rest) mod 3) with (Z.of_nat (length rest))
    by (Z.div_mod_to_equations; lia).
  replace (Z.of_nat (3 * length ts + length rest) - Z.of_nat (length rest))
    with (0 + 3 * Z.of_nat (length ts)) by lia.
  rewrite chunk_loop_spec by (f_equal; f_equal; lia).
  pose proof (enc_loop_spec ts [] rest HF) as E.
  change (Z.of_nat (length [])) with 0 in E. simpl app in E. rewrite E. f_equal.
  destruct HR as [->|[(a & -> & Ha)|(a & b & -> & Ha & Hb)]]; unfold byte in *.
  - done.
  - cbn [length]. change (Z.of_nat 1) with 1. change (Z.of_nat 2) with 2. cbn [Z.eqb Pos.eqb].
    rewrite (at_n_app (flat3 ts) [a] 0) by (rewrite length_flat3; lia). simpl n32.
    rewrite js_shr_div, js_and_63, shl_small by lia.
    rewrite !enc_at_ch by (change (2 ^ 2) with 4; Z.div_mod_to_equations; lia). done.
  - cbn [length]. change (Z.of_nat 1) with 1. change (Z.of_nat 2) with 2. cbn [Z.eqb Pos.eqb].
    rewrite (at_n_app (flat3 ts) [a; b] 0), (at_n_app (flat3 ts) [a; b] 1)
      by (rewrite length_flat3; lia).
    cbn [lookup list_lookup n32 default from_option id].
    rewrite (shl_small a) by lia. change (2 ^ 8) with 256.
    rewrite !js_shr_div, !js_and_63, shl_small by lia.
    rewrite !enc_at_ch by (Z.div_mod_to_equations; lia). done.
Qed.

Lemma index_unit_none s c : Forall (fun x => x <> c) s -> index_unit s c = -1.
Proof.
  induction 1 as [|x s Hx _ IH]; simpl; [done|]. rewrite IH. by destr_cmp.
Qed.

Lemma index_unit_app s c r : Forall (fun x => x <> c) s ->
  index_unit (s ++ c :: r) c = Z.of_nat (length s).
Proof.
  induction 1 as [|x s Hx _ IH]; simpl.
  - by rewrite Z.eqb_refl.
  - rewrite IH. destr_cmp; try done; lia.
Qed.

Lemma b64_unit_not_pad c : is_b64_unit c = true -> c <> 61.
Proof. by intros H ->. Qed.

Lemma enc3s_units ts : Forall triple_bytes ts -> Forall (fun c => is_b64_unit c = true) (enc3s ts).
Proof.
  induction 1 as [|[[a b] c] ts (Ha & Hb & Hc) _ IH]; [constructor|].
  change (enc3s ((a, b, c) :: ts)) with (enc3 (a, b, c) ++ enc3s ts).
  apply Forall_app. split; [|done].
  destruct (group24_sextets a b c Ha Hb Hc) as (_ & H0 & H1 & H2 & H3 & _).
  repeat constructor; by apply ch_facts.
Qed.

(** The text of a short rest: alphabet characters, then padding. *)
Lemma enc_rest_shape rest : short_rest rest ->
  exists body k, enc_rest rest = body ++ replicate k 61 /\
    Forall (fun c => is_b64_unit c = true) body /\
    (rest = [] /\ body = [] /\ k = 0%nat \/
     exists a, rest = a :: tail rest /\ (length body = S (length rest))%nat /\
               (k = 3 - length rest)%nat /\ (1 <= length rest <= 2)%nat).
Proof.
  intros [->|[(a & -> & Ha)|(a & b & -> & Ha & Hb)]]; unfold byte in *.
  - exists [], 0%nat. split; [done|]. split; [constructor|]. by left.
  - exists [ch (a / 4); ch ((a * 16) mod 64)], 2%nat. split; [done|]. split.
    + repeat constructor; apply ch_facts; Z.div_mod_to_equations; lia.
    + right. exists a. simpl. split; [done|]. lia.
  - exists [ch ((a * 256 + b) / 1024); ch (((a * 256 + b) / 16) mod 64);
            ch (((a * 256 + b) * 4) mod 64)], 1%nat. split; [done|]. split.
    + repeat constructor; apply ch_facts; Z.div_mod_to_equations; lia.
    + right. exists a. simpl. split; [done|]. lia.
Qed.

Lemma getLens_spec body k :
  Forall (fun c => is_b64_unit c = true) body -> Z.of_nat (length body + k) mod 4 = 0 -> (k < 4)%nat ->
  getLens (body ++ replicate k 61) = inr (Z.of_nat (length body), Z.of_nat k).
Proof.
  intros HF Hm Hk. unfold getLens, slen. rewrite length_app, length_replicate.
  rewrite Hm. simpl.
  assert (HF' : Forall (fun c => c <> 61) body)
    by (revert HF; apply Forall_impl, b64_unit_not_pad).
  destruct k as [|k].
  - simpl. rewrite app_nil_r, index_unit_none by done. simpl.
    rewrite Nat.add_0_r, Z.eqb_refl. done.
  - simpl. rewrite index_unit_app by done.
    destruct (Z.eqb_spec (Z.of_nat (length body)) (-1)); [lia|].
    destruct (Z.eqb_spec (Z.of_nat (length body)) (Z.of_nat (length body + S k))); [lia|].
    do 2 f_equal. Z.div_mod_to_equations. lia.
Qed.

Lemma fit_exact n l : length l = n -> fit n l = l.
Proof. intros <-. unfold fit. by rewrite take_app_length. Qed.

Lemma charCodeAt_len pre s i (k : nat) :
  i = Z.of_nat (length pre) + Z.of_nat k -> charCodeAt (pre ++ s) i = default NaN_code (s !! k).
Proof. intros ->. apply charCodeAt_app. lia. Qed.

(** The two short tails of [toByteArray]. *)
Lemma dec_tail2 a : byte a ->
  js_and 255 (js_or (js_shl (a / 4) 2) (js_shr ((a * 16) mod 64) 4)) = a.
Proof.
  unfold byte. intros Ha. rewrite js_and_comm, js_and_255.
  rewrite shl_small, js_shr_div by (Z.div_mod_to_equations; lia).
  rewrite (or_fields2 (a / 4) _ 2) by (change (2 ^ 2) with 4; change (2 ^ 4) with 16; Z.div_mod_to_equations; lia).
  change (2 ^ 2) with 4. change (2 ^ 4) with 16. Z.div_mod_to_equations. lia.
Qed.

Lemma dec_tail1 a b : byte a -> byte b ->
  let g := a * 256 + b in
  let t := js_or (js_or (js_shl (g / 1024) 10) (js_shl ((g / 16) mod 64) 4))
                 (js_shr ((g * 4) mod 64) 2) in
  js_and (js_shr t 8) 255 = a /\ js_and 255 t = b.
Proof.
  intros Ha Hb g t. unfold byte in *. assert (Hg : 0 <= g < 65536) by (unfold g; lia).
  assert (Et : t = g).
  { unfold t. clearbody g. clear t.
    rewrite !shl_small, js_shr_div by (Z.div_mod_to_equations; lia).
    rewrite (or_fields2 (g / 1024) _ 10)
      by (change (2 ^ 10) with 1024; change (2 ^ 4) with 16; Z.div_mod_to_equations; lia).
    replace (g / 1024 * 2 ^ 10 + (g / 16) mod 64 * 2 ^ 4)
      with ((g / 1024 * 64 + (g / 16) mod 64) * 2 ^ 4) by lia.
    rewrite (or_fields2 _ _ 4)
      by (change (2 ^ 2) with 4; change (2 ^ 4) with 16; Z.div_mod_to_equations; lia).
    change (2 ^ 2) with 4. change (2 ^ 4) with 16. Z.div_mod_to_equations. lia. }
  rewrite Et, (js_and_comm 255), !js_and_255, js_shr_div by lia. unfold g.
  change (2 ^ 8) with 256. split; Z.div_mod_to_equations; lia.
Qed.

(** [toByteArray] once the lengths are known: [q] whole groups, [k] placeholders. *)
Lemma toByteArray_run s q k :
  (k <= 2)%nat ->
  getLens s = inr (Z.of_nat (4 * q + (4 - k) mod 4), Z.of_nat k) ->
  let o i := dec_at (charCodeAt s (Z.of_nat (4 * q) + i)) in
  toByteArray s = inr (fit (3 * q + (3 - k) mod 3) (dec_loop s 0 q ++
    match k with
    | 2%nat => [js_and 255 (js_or (js_shl (o 0) 2) (js_shr (o 1) 4))]
    | 1%nat => let t := js_or (js_or (js_shl (o 0) 10) (js_shl (o 1) 4)) (js_shr (o 2) 2) in
               [js_and (js_shr t 8) 255; js_and 255 t]
    | _ => []
    end)).
Proof.
  intros Hk G o. unfold toByteArray. rewrite G.
  set (r := Z.of_nat (4 * q + (4 - k) mod 4)).
  assert (E : (if 0 <? Z.of_nat k then r - 4 else r) = 4 * Z.of_nat q - Z.of_nat k /\
              3 * (r + Z.of_nat k) / 4 - Z.of_nat k = Z.of_nat (3 * q + (3 - k) mod 3)).
  { subst r. destruct k as [|[|[|]]]; [..|lia]; simpl Nat.modulo; destr_cmp;
      split; Z.div_mod_to_equations; lia. }
  destruct E as [-> ->]. destruct (Z.ltb_spec (Z.of_nat (3 * q + (3 - k) mod 3)) 0); [lia|].
  replace (Z.to_nat ((4 * Z.of_nat q - Z.of_nat k + 3) / 4)) with q
    by (Z.div_mod_to_equations; lia).
  rewrite Nat2Z.id. replace (4 * Z.of_nat q) with (Z.of_nat (4 * q)) by lia.
  destruct k as [|[|[|]]]; [..|lia]; by rewrite ?app_nil_r.
Qed.

Lemma toByteArray_spec ts rest :
  Forall triple_bytes ts -> short_rest rest ->
  toByteArray (enc3s ts ++ enc_rest rest) = inr (flat3 ts ++ rest).
Proof.
  intros HF HR. destruct (enc_rest_shape rest HR) as (body & k & E & HB & Hcase).
  pose proof (length_enc3s ts) as L4. pose proof (length_flat3 ts) as L3.
  pose proof (dec_loop_spec ts [] (enc_rest rest) HF) as D.
  change (Z.of_nat (length [])) with 0 in D. cbn [app] in D.
  assert (Hk : (k <= 2)%nat /\ length body = ((4 - k) mod 4)%nat).
  { destruct Hcase as [(_ & -> & ->)|(a & _ & -> & -> & Hr)]; [simpl; lia|].
    assert (length rest = 1 \/ length rest = 2)%nat as [->| ->] by lia; simpl; lia. }
  destruct Hk as [Hk Lb]. rewrite (toByteArray_run _ (length ts) k Hk).
  - rewrite D, <- L4. f_equal. destruct HR as [->|[(a & -> & Ha)|(a & b & -> & Ha & Hb)]];
      (destruct Hcase as [(H1 & -> & ->)|(a' & H1 & H2 & -> & _)]; [try done|try done]).
    + rewrite fit_exact; [done|]. rewrite length_app, L3. simpl. lia.
    + cbn [length Nat.sub]. rewrite (charCodeAt_len _ _ _ 0), (charCodeAt_len _ _ _ 1) by lia.
      cbn [enc_rest lookup list_lookup default from_option id].
      rewrite !dec_at_ch by (unfold byte in Ha; Z.div_mod_to_equations; lia).
      rewrite dec_tail2 by done. apply fit_exact. rewrite length_app, L3. simpl. lia.
    + cbn [length Nat.sub].
      rewrite (charCodeAt_len _ _ _ 0), (charCodeAt_len _ _ _ 1), (charCodeAt_len _ _ _ 2) by lia.
      cbn [enc_rest lookup list_lookup default from_option id].
      rewrite !dec_at_ch by (unfold byte in Ha, Hb; Z.div_mod_to_equations; lia).
      destruct (dec_tail1 a b Ha Hb) as [-> ->]. apply fit_exact. rewrite length_app, L3. simpl. lia.
  - rewrite E, app_assoc, getLens_spec.
    + rewrite length_app, L4, Lb. done.
    + apply Forall_app. split; [by apply enc3s_units|done].
    + rewrite length_app, L4, Lb. destruct k as [|[|[|]]]; [..|lia]; simpl;
        Z.div_mod_to_equations; lia.
    + lia.
Qed.

#[global] Instance base64_js_laws : Base64Laws.
Proof.
  split; [done| |]; intros bs Hb; destruct (triples_split bs Hb) as (ts & rest & -> & HF & HR);
    cbn [b64_toByteArray b64_fromByteArray base64_js]; rewrite fromByteArray_spec by done.
  - by apply toByteArray_spec.
  - destruct (enc_rest_shape rest HR) as (body & k & E & HB & Hcase).
    exists (enc3s ts ++ body), k. unfold slen. rewrite E, !length_app, length_enc3s, length_replicate.
    split; [by rewrite app_assoc|]. split; [apply Forall_app; split; [by apply enc3s_units|done]|].
    destruct Hcase as [(-> & -> & ->)|(a & _ & -> & -> & Hr)].
    + split; [lia|]. split; [simpl; Z.div_mod_to_equations; lia|].
      intros Hne. destruct ts; [done|]. simpl. lia.
    + split; [lia|]. split; [Z.div_mod_to_equations; lia|]. lia.
Qed.

(** ** Property *)

(** base64-js decodes what it encodes: [toByteArray] of [fromByteArray] of any
    byte array is that array, whatever its length, chunking included. *)
Theorem base64_roundtrip bs :
  Forall byte bs -> toByteArray (fromByteArray bs) = inr bs.
Proof. exact (b64_roundtrip (Base64Laws := base64_js_laws) bs). Qed.

Lemma base64_roundtrip_witness : toByteArray (fromByteArray [0; 255; 16; 128]) = inr [0; 255; 16; 128].
Proof. apply (base64_roundtrip [0; 255; 16; 128]). vm_decide. Defined.
