(* ===== verification/BufferCodec.v ===== *)
(** Buffer and strings: the encodings, [write], [toString], [from], [fill]. *)
From S2P Require Import Prelude BufferStore JsString Base64Js.

(** ** Encoding names *)

Inductive encoding := Hex | Utf8 | Ascii | Latin1 | Base64Enc | Utf16le.

#[global] Instance encoding_eq_dec : EqDecision encoding.
Proof. solve_decision. Defined.

(** The [switch] on a name. *)
Definition enc_case (e : jsstr) : option encoding :=
  if bool_decide (e = js "hex") then Some Hex
  else if bool_decide (e = js "utf8") || bool_decide (e = js "utf-8") then Some Utf8
  else if bool_decide (e = js "ascii") then Some Ascii
  else if bool_decide (e = js "latin1") || bool_decide (e = js "binary") then Some Latin1
  else if bool_decide (e = js "base64") then Some Base64Enc
  else if bool_decide (e = js "ucs2") || bool_decide (e = js "ucs-2") ||
          bool_decide (e = js "utf16le") || bool_decide (e = js "utf-16le") then Some Utf16le
  else None.

Definition isEncoding (e : jsstr) : bool :=
  match enc_case (toLowerCase e) with Some _ => true | None => false end.

(** The [for (;;) switch] loops: the name as given, then lower-cased once. *)
Definition find_encoding (e : jsstr) : option encoding :=
  match enc_case e with
  | Some x => Some x
  | None => enc_case (toLowerCase e)
  end.

(** ** Strings to bytes *)

(** [units -= k], [None] being [Infinity]. *)
Definition spend (k : Z) (units : option Z) : option Z := (fun u => u - k) <$> units.
Definition neg_units (units : option Z) : bool := match units with Some u => u <? 0 | None => false end.

Definition push (bs : list Z) (r : js_error + list Z) : js_error + list Z :=
  match r with inl e => inl e | inr l => inr (bs ++ l) end.

Definition replacement : list Z := [239; 191; 189].

(** [if ((units -= 3) > -1) bytes.push(239, 191, 189)] *)
Definition push_replacement (units : option Z) : list Z :=
  match units with Some u => if -1 <? u then replacement else [] | None => replacement end.

(** The bytes of one code point, before the budget test. *)
Definition utf8_bytes (cp : Z) : option (list Z) :=
  if cp <? 128 then Some [cp]
  else if cp <? 2048 then Some [js_or (js_shr cp 6) 192; js_or (js_and cp 63) 128]
  else if cp <? 65536 then
    Some [js_or (js_shr cp 12) 224; js_or (js_and (js_shr cp 6) 63) 128; js_or (js_and cp 63) 128]
  else if cp <? 1114112 then
    Some [js_or (js_shr cp 18) 240; js_or (js_and (js_shr cp 12) 63) 128;
          js_or (js_and (js_shr cp 6) 63) 128; js_or (js_and cp 63) 128]
  else None.

(** Emit a code point; the loop breaks when its bytes exceed the budget. *)
Definition emit (cp : Z) (units : option Z) (next : option Z -> js_error + list Z)
    : js_error + list Z :=
  match utf8_bytes cp with
  | Some bs => let units := spend (Z.of_nat (length bs)) units in
               if neg_units units then inr [] else push bs (next units)
  | None => inl (PlainError "Invalid code point")
  end.

Fixpoint utf8_loop (s : jsstr) (lead : option Z) (units : option Z) : js_error + list Z :=
  match s with
  | [] => inr []
  | c :: s' =>
      if (55295 <? c) && (c <? 57344) then
        match lead with
        | None =>
            if 56319 <? c then
              let units := spend 3 units in
              push (push_replacement units) (utf8_loop s' None units)
            else match s' with
                 | [] => let units := spend 3 units in
                         push (push_replacement units) (utf8_loop s' None units)
                 | _ => utf8_loop s' (Some c) units
                 end
        | Some l =>
            if c <? 56320 then
              let units := spend 3 units in
              push (push_replacement units) (utf8_loop s' (Some c) units)
            else
              let cp := js_or (js_shl (l - 55296) 10) (c - 56320) + 65536 in
              emit cp units (utf8_loop s' None)
        end
      else
        match lead with
        | Some _ =>
            let units := spend 3 units in
            push (push_replacement units) (emit c units (utf8_loop s' None))
        | None => emit c units (utf8_loop s' None)
        end
  end.

(** [units = units || Infinity] *)
Definition utf8ToBytes (s : jsstr) (units : option Z) : js_error + list Z :=
  utf8_loop s None (match units with Some 0 => None | u => u end).

Definition asciiToBytes (s : jsstr) : list Z := (fun c => js_and c 255) <$> s.

Fixpoint utf16leToBytes (s : jsstr) (units : Z) : list Z :=
  match s with
  | [] => []
  | c :: s' => let units := units - 2 in
               if units <? 0 then [] else c mod 256 :: js_shr c 8 :: utf16leToBytes s' units
  end.

(** [str.replace(/[^+\/0-9A-Za-z-_]/g, "")] *)
Definition is_b64_char (c : Z) : bool := is_b64_unit c || (c =? 45) || (c =? 95).

Definition stringtrim (s : jsstr) : jsstr := trim s.

Definition base64clean (s : jsstr) : jsstr :=
  let s := base.filter (fun c => is_b64_char c = true) (stringtrim s) in
  if slen s <? 2 then []
  else s ++ replicate (Z.to_nat ((- slen s) mod 4)) 61.

Definition toHex (n : Z) : jsstr :=
  if n <? 16 then 48 :: digits 16 n else digits 16 n.

(** ** Bytes to strings *)

(** Continuation-byte test [(b & 192) === 128]. *)
Definition is_cont (b : Z) : bool := js_and b 192 =? 128.

(** The code point at the front of the bytes up to [end], if well formed. *)
Definition utf8_code (l : list Z) : option Z :=
  match l with
  | [] => None
  | b0 :: r =>
      if 239 <? b0 then
        match r with
        | b1 :: b2 :: b3 :: _ =>
            if is_cont b1 && is_cont b2 && is_cont b3 then
              let t := js_or (js_or (js_or (js_shl (js_and b0 15) 18) (js_shl (js_and b1 63) 12))
                                    (js_shl (js_and b2 63) 6)) (js_and b3 63) in
              if (65535 <? t) && (t <? 1114112) then Some t else None
            else None
        | _ => None
        end
      else if 223 <? b0 then
        match r with
        | b1 :: b2 :: _ =>
            if is_cont b1 && is_cont b2 then
              let t := js_or (js_or (js_shl (js_and b0 15) 12) (js_shl (js_and b1 63) 6))
                             (js_and b2 63) in
              if (2047 <? t) && ((t <? 55296) || (57343 <? t)) then Some t else None
            else None
        | _ => None
        end
      else if 191 <? b0 then
        match r with
        | b1 :: _ =>
            if is_cont b1 then
              let t := js_or (js_shl (js_and b0 31) 6) (js_and b1 63) in
              if 127 <? t then Some t else None
            else None
        | _ => None
        end
      else if b0 <? 128 then Some b0 else None
  end.

Definition bytesPerSequence (b0 : Z) : nat :=
  if 239 <? b0 then 4 else if 223 <? b0 then 3 else if 191 <? b0 then 2 else 1.

(** The [while (i < end)] loop on the bytes left; at least one is consumed per
    iteration, so their number is enough fuel. *)
Fixpoint utf8_decode (fuel : nat) (l : list Z) : list Z :=
  match fuel, l with
  | S fuel', b0 :: _ =>
      match utf8_code l with
      | None => 65533 :: utf8_decode fuel' (drop 1 l)
      | Some cp =>
          let rest := utf8_decode fuel' (drop (bytesPerSequence b0) l) in
          if 65535 <? cp then
            let cp := cp - 65536 in
            js_or (js_and (js_ushr cp 10) 1023) 55296 :: js_or 56320 (js_and cp 1023) :: rest
          else cp :: rest
      end
  | _, _ => []
  end.

Definition MAX_ARGUMENTS_LENGTH : nat := Z.to_nat 4096.

(** [String.fromCharCode.apply(String, cps)] *)
Definition fromCharCodes (cps : list Z) : jsstr := (fun c => c mod 65536) <$> cps.

Fixpoint decode_chunks (n : nat) (cps : list Z) : jsstr :=
  match n with
  | O => []
  | S n' => fromCharCodes (take MAX_ARGUMENTS_LENGTH cps) ++
            decode_chunks n' (drop MAX_ARGUMENTS_LENGTH cps)
  end.

Definition decodeCodePointsArray (cps : list Z) : jsstr :=
  let len := length cps in
  if decide (len <= MAX_ARGUMENTS_LENGTH)%nat then fromCharCodes cps
  else decode_chunks (S (len / MAX_ARGUMENTS_LENGTH)) cps.

(** The bytes of [buf] from [start] to [min(length, end)]. *)
Definition range (h : store) (b : view) (s e : Z) : list Z :=
  take (Z.to_nat (Z.min (blen b) e - s)) (drop (Z.to_nat s) (contents h b)).

Definition utf8Slice (b : view) (s e : Z) : M store jsstr := fun h =>
  let l := range h b s e in Done (decodeCodePointsArray (utf8_decode (length l) l)) h.

Definition asciiSlice (b : view) (s e : Z) : M store jsstr := fun h =>
  Done ((fun x => js_and x 127) <$> range h b s e) h.

Definition latin1Slice (b : view) (s e : Z) : M store jsstr := fun h =>
  Done (range h b s e) h.

Definition hexSlice (b : view) (s e : Z) : M store jsstr := fun h =>
  let s := if s <? 0 then 0 else s in
  let e := if (e =? 0) || (e <? 0) || (blen b <? e) then blen b else e in
  Done (range h b s e ≫= toHex) h.

(** [bytes[i] + bytes[i + 1] * 256]: a missing last byte makes it [NaN], unit 0. *)
Fixpoint utf16le_pairs (l : list Z) : jsstr :=
  match l with
  | x :: y :: l' => x + y * 256 :: utf16le_pairs l'
  | [_] => [0]
  | [] => []
  end.

Definition utf16leSlice (b : view) (s e : Z) : M store jsstr :=
  let! bytes := slice b (Some s) (Some e) in
  fun h => Done (utf16le_pairs (contents h bytes)) h.

(** ** Writing strings *)

Definition lift_sum {A} (r : js_error + A) : M store A :=
  match r with inl e => throw e | inr a => ret a end.

(** [for (i = 0; i < length; ++i) { if (...) break; dst[i + offset] = src[i] }] *)
Fixpoint blit_loop (src : list Z) (dst : view) (offset len i : Z) : M store Z :=
  if i <? len then
    match src with
    | [] => ret i
    | x :: src' =>
        if blen dst <=? i + offset then ret i
        else do! bset dst (i + offset) x; blit_loop src' dst offset len (i + 1)
    end
  else ret i.

Definition blitBuffer (src : list Z) (dst : view) (offset len : Z) : M store Z :=
  blit_loop src dst offset len 0.

(** The hex loop, [n] iterations left. *)
Fixpoint hex_loop (b : view) (s : jsstr) (offset i : Z) (n : nat) : M store Z :=
  match n with
  | O => ret i
  | S n' =>
      match parseInt (sslice s (i * 2) (i * 2 + 2)) 16 with
      | None => ret i
      | Some (neg, m) =>
          do! bset b (offset + i) (if neg then - m else m);
          hex_loop b s offset (i + 1) n'
      end
  end.

(** A [length] of 0 is falsy and means the rest of the buffer. *)
Definition hexWrite (b : view) (s : jsstr) (offset len : Z) : M store Z :=
  let remaining := blen b - offset in
  let len := if len =? 0 then remaining else if remaining <? len then remaining else len in
  let strLen := slen s in
  if negb (strLen mod 2 =? 0) then throw (TypeError "Invalid hex string")
  else
    let len := if strLen / 2 <? len then strLen / 2 else len in
    hex_loop b s offset 0 (Z.to_nat len).

Definition utf8Write (b : view) (s : jsstr) (offset len : Z) : M store Z :=
  let! bs := lift_sum (utf8ToBytes s (Some (blen b - offset))) in
  blitBuffer bs b offset len.

Definition asciiWrite (b : view) (s : jsstr) (offset len : Z) : M store Z :=
  blitBuffer (asciiToBytes s) b offset len.

Definition latin1Write (b : view) (s : jsstr) (offset len : Z) : M store Z :=
  asciiWrite b s offset len.

Definition ucs2Write (b : view) (s : jsstr) (offset len : Z) : M store Z :=
  blitBuffer (utf16leToBytes s (blen b - offset)) b offset len.

(** The shapes of the arguments after the string: [write(s)], [write(s, enc)],
    [write(s, off)], [write(s, off, enc)], [write(s, off, len[, enc])], and
    [write(s, enc, off[, len])], which is rejected. *)
Inductive write_args :=
  | WNone
  | WEnc (e : jsstr)
  | WOff (off : Z)
  | WOffEnc (off : Z) (e : jsstr)
  | WOffLen (off len : Z) (e : option jsstr)
  | WLegacy.

(** Shapes of a value given to [from] and [Buffer]. *)
Inductive from_value :=
  | FNumber (n : Z)
  | FArrayBuffer (ab : nat) (byteOffset len : option Z)
  | FString (s : jsstr) (e : option jsstr)
  | FBuffer (v : view)
  | FArrayLike (l : list Z)
  | FBadLength                    (* array-like whose [length] is not a number *)
  | FJson (data : list Z)         (* [{ type: "Buffer", data: [...] }] *)
  | FOther.

(** Values and argument shapes of [fill]. *)
Inductive fill_value := FillNum (n : Z) | FillStr (s : jsstr) | FillBuf (v : view).
Inductive fill_args :=
  | FillRange (start stop : option Z) (e : option jsstr)
  | FillEnc (e : jsstr)
  | FillStartEnc (start : option Z) (e : jsstr).

Definition truthy_enc (e : option jsstr) : jsstr :=
  match e with None | Some [] => js "utf8" | Some e => e end.

Definition isBuffer (v : from_value) : bool :=
  match v with FBuffer _ => true | _ => false end.

(** ** Operations that go through the base64 library *)

Section Codec.
Context {B64 : Base64}.

Definition base64ToBytes (s : jsstr) : js_error + list Z := b64_toByteArray (base64clean s).

Definition base64Write (b : view) (s : jsstr) (offset len : Z) : M store Z :=
  let! bs := lift_sum (base64ToBytes s) in
  blitBuffer bs b offset len.

Definition base64Slice (b : view) (s e : Z) : M store jsstr :=
  if (s =? 0) && (e =? blen b) then fun h => Done (b64_fromByteArray (contents h b)) h
  else let! v := slice b (Some s) (Some e) in
       fun h => Done (b64_fromByteArray (contents h v)) h.

(** Encoding, length ([None] is [undefined]) and offset of each shape. *)
Definition write_parse (b : view) (args : write_args) : option (option jsstr * option Z * Z) :=
  match args with
  | WNone => Some (Some (js "utf8"), Some (blen b), 0)
  | WEnc e => Some (Some e, Some (blen b), 0)
  | WOff off => Some (None, None, toInt32 off)
  | WOffEnc off e => Some (Some e, None, toInt32 off)
  | WOffLen off len e => Some (Some (default (js "utf8") e), Some (toInt32 len), toInt32 off)
  | WLegacy => None
  end.

Definition write_with (e : encoding) (b : view) (s : jsstr) (offset len : Z) : M store Z :=
  match e with
  | Hex => hexWrite b s offset len
  | Utf8 => utf8Write b s offset len
  | Ascii => asciiWrite b s offset len
  | Latin1 => latin1Write b s offset len
  | Base64Enc => base64Write b s offset len
  | Utf16le => ucs2Write b s offset len
  end.

Definition write (b : view) (s : jsstr) (args : write_args) : M store Z :=
  match write_parse b args with
  | None => throw (PlainError "Buffer.write(string, encoding, offset[, length]) is no longer supported")
  | Some (e, len, offset) =>
      let remaining := blen b - offset in
      let len := match len with
                 | None => remaining
                 | Some l => if remaining <? l then remaining else l end in
      if ((0 <? slen s) && ((len <? 0) || (offset <? 0))) || (blen b <? offset)
      then throw (RangeError "Attempt to write outside buffer bounds")
      else match find_encoding (truthy_enc e) with
           | Some e => write_with e b s offset len
           | None => throw (TypeError "Unknown encoding")
           end
  end.

(** [byteLength] of a string. *)
Definition byteLength (s : jsstr) (e : option jsstr) : M store Z :=
  let len := slen s in
  let utf8 := let! bs := lift_sum (utf8ToBytes s None) in ret (Z.of_nat (length bs)) in
  if len =? 0 then ret 0
  else match e with
       | None => utf8
       | Some e =>
           match find_encoding e with
           | Some Ascii | Some Latin1 => ret len
           | Some Utf16le => ret (len * 2)
           | Some Hex => ret (js_ushr len 1)
           | Some Base64Enc => let! bs := lift_sum (base64ToBytes s) in
                               ret (Z.of_nat (length bs))
           | Some Utf8 | None => utf8
           end
       end.

Definition fromString (s : jsstr) (e : option jsstr) : M store view :=
  let e := truthy_enc e in
  if negb (isEncoding e) then throw (TypeError "'encoding' must be a valid string encoding")
  else
    let! n := byteLength s (Some e) in
    let len := toInt32 n in
    let! that := createBuffer len in
    let! actual := write that s (WEnc e) in
    if actual =? len then ret that else slice that (Some 0) (Some actual).

Definition fromObject (v : from_value) : M store view :=
  match v with
  | FBuffer obj =>
      let! n := checked (blen obj) in
      let len := toInt32 n in
      let! that := createBuffer len in
      if blen that =? 0 then ret that
      else let! _ := copy obj that (Some 0) (Some 0) (Some len) in ret that
  | FArrayLike l => fromArrayLike l
  | FBadLength => createBuffer 0
  | FJson data => fromArrayLike data
  | _ => throw (TypeError "First argument must be a string, Buffer, ArrayBuffer, Array, or array-like object.")
  end.

Definition from (v : from_value) : M store view :=
  match v with
  | FNumber _ => throw (TypeError "'value' argument must not be a number")
  | FArrayBuffer ab off len => fromArrayBuffer ab off len
  | FString s e => fromString s e
  | _ => fromObject v
  end.

(** [Buffer(arg, encodingOrOffset, length)]; [enc] tells that the second
    argument of the number form is a string. *)
Definition Buffer (v : from_value) (enc : bool) : M store view :=
  match v with
  | FNumber n =>
      if enc then throw (PlainError "If encoding is specified then the first argument must be a string")
      else allocUnsafe n
  | _ => from v
  end.

(** ** Reading strings *)

Definition slice_with (e : encoding) (b : view) (start stop : Z) : M store jsstr :=
  match e with
  | Hex => hexSlice b start stop
  | Utf8 => utf8Slice b start stop
  | Ascii => asciiSlice b start stop
  | Latin1 => latin1Slice b start stop
  | Base64Enc => base64Slice b start stop
  | Utf16le => utf16leSlice b start stop
  end.

Definition slowToString (b : view) (e : option jsstr) (start stop : option Z) : M store jsstr :=
  let start := match start with Some s => if s <? 0 then 0 else s | None => 0 end in
  if blen b <? start then ret []
  else
    let stop := match stop with Some e => if blen b <? e then blen b else e | None => blen b end in
    if stop <=? 0 then ret []
    else
      let stop := toUint32 stop in
      let start := toUint32 start in
      if stop <=? start then ret []
      else match find_encoding (truthy_enc e) with
           | Some e => slice_with e b start stop
           | None => throw (TypeError "Unknown encoding")
           end.

(** [toString()] and [toString(encoding, start, end)]. *)
Definition toString (b : view) (args : option (option jsstr * option Z * option Z)) : M store jsstr :=
  let length := toInt32 (blen b) in
  if length =? 0 then ret []
  else match args with
       | None => utf8Slice b 0 length
       | Some (e, start, stop) => slowToString b e start stop
       end.

Definition toJSON (b : view) : M store from_value := fun h => Done (FJson (contents h b)) h.

(** [.match(/.{2}/g).join(" ")] *)
Fixpoint join_pairs (s : jsstr) : jsstr :=
  match s with
  | x :: y :: [] => [x; y]
  | x :: y :: s' => x :: y :: 32 :: join_pairs s'
  | _ => []
  end.

Definition INSPECT_MAX_BYTES : Z := 50.

Definition inspect (b : view) : M store jsstr :=
  let! str :=
    (if 0 <? blen b then
       let! s := toString b (Some (Some (js "hex"), Some 0, Some INSPECT_MAX_BYTES)) in
       ret (join_pairs s ++ if INSPECT_MAX_BYTES <? blen b then js " ... " else [])
     else ret []) in
  ret (js "<Buffer " ++ str ++ js ">").

(** ** fill and alloc *)

(** Encoding, start and end after the argument shuffling of the string case. *)
Definition fill_parse_str (b : view) (args : fill_args) : option jsstr * option Z * option Z :=
  match args with
  | FillEnc e => (Some e, Some 0, Some (blen b))
  | FillStartEnc s e => (Some e, s, Some (blen b))
  | FillRange s t e => (e, s, t)
  end.

(** For other values a string is [NaN]: no start, an empty range for an end. *)
Definition fill_parse_other (args : fill_args) : option jsstr * option Z * option Z :=
  match args with
  | FillEnc _ => (None, None, None)
  | FillStartEnc s _ => (None, s, Some 0)
  | FillRange s t _ => (None, s, t)
  end.

(** The sequence of bytes is repeated; [bytes[i % 0]] is [undefined]. *)
Definition fill_bytes (b : view) (v : view + list Z) (start : Z) (n : nat) : M store unit :=
  mfor 0 n (fun i =>
    let! x := (match v with
               | inl src => if blen src =? 0 then ret None else get src (i mod blen src)
               | inr bs => ret (bs !! Z.to_nat (i mod Z.of_nat (length bs)))
               end) in
    bset b (i + start) (n32 x)).

Definition fill_num (b : view) (n start stop : Z) : M store unit :=
  mfor start (Z.to_nat (stop - start)) (fun i => bset b i n).

Definition fill (b : view) (v : fill_value) (args : fill_args) : M store view :=
  let '(e, start, stop) := match v with
                           | FillStr _ => fill_parse_str b args
                           | _ => fill_parse_other args end in
  let v := match v with
           | FillStr [c] => if c <? 256 then FillNum c else v
           | FillNum n => FillNum (js_and n 255)
           | _ => v end in
  if match e with Some e => negb (isEncoding e) | None => false end
  then throw (TypeError "Unknown encoding")
  else if match start with Some s => (s <? 0) || (blen b <? s) | None => false end ||
          match stop with Some t => blen b <? t | None => false end
  then throw (RangeError "Out of range index")
  else if match start, stop with Some s, Some t => t <=? s | _, _ => false end then ret b
  else
    let start := toUint32 (default 0 start) in
    let stop := match stop with None => blen b | Some t => toUint32 t end in
    do! (match v with
         | FillNum n => fill_num b n start stop
         | FillStr [] => fill_num b 0 start stop
         | FillStr s =>
             let! tmp := Buffer (FString s e) false in
             let! str := toString tmp None in
             let! bytes := lift_sum (utf8ToBytes str None) in
             fill_bytes b (inr bytes) start (Z.to_nat (stop - start))
         | FillBuf src => fill_bytes b (inl src) start (Z.to_nat (stop - start))
         end);
    ret b.

Definition alloc (size : Z) (v : option (fill_value * option jsstr)) : M store view :=
  do! assertSize size;
  if size <=? 0 then createBuffer size
  else match v with
       | Some (v, Some e) => let! b := createBuffer size in fill b v (FillEnc e)
       | Some (v, None) => let! b := createBuffer size in fill b v (FillRange None None None)
       | None => createBuffer size
       end.

(** [None] is an argument that is not a number. *)
Definition SlowBuffer (length : option Z) : M store view := alloc (default 0 length) None.
End Codec.
