(* ===== verification/BufferText.v ===== *)
(** The string conversions of Buffer refine pure encoders and decoders; the
    round trips between strings and bytes. *)
From S2P Require Import Prelude BufferStore JsString Base64Js BufferCodec.

(** ** Code points *)

Definition scalar (cp : Z) : Prop := 0 <= cp < 1114112 /\ ~ (55296 <= cp < 57344).

(** UTF-16 of a code point. *)
Definition utf16 (cp : Z) : jsstr :=
  if cp <? 65536 then [cp]
  else [55296 + (cp - 65536) / 1024; 56320 + (cp - 65536) mod 1024].

Definition is_lead (c : Z) : bool := (55296 <=? c) && (c <? 56320).
Definition is_trail (c : Z) : bool := (56320 <=? c) && (c <? 57344).

(** Well-formed UTF-16: surrogates only in pairs. *)
Fixpoint wf16 (s : jsstr) : bool :=
  match s with
  | [] => true
  | c :: s' =>
      if is_lead c then match s' with d :: s'' => is_trail d && wf16 s'' | [] => false end
      else (0 <=? c) && (c <? 65536) && negb (is_trail c) && wf16 s'
  end.


Lemma wf16_scalars s : wf16 s = true -> exists cps, Forall scalar cps /\ s = cps ≫= utf16.
Proof.
  induction s as [s IH] using (induction_ltof1 _ (@length Z)). unfold ltof in IH.
  destruct s as [|c s]; [exists []; done|]. simpl wf16. unfold is_lead, is_trail in *.
  destruct ((55296 <=? c) && (c <? 56320)) eqn:El.
  - destruct s as [|d s]; [done|]. intros [Ht Hs]%andb_true_iff. bool_hyps.
    destruct (IH s) as (cps & HF & E); [simpl; lia|done|].
    exists ((c - 55296) * 1024 + (d - 56320) + 65536 :: cps). split.
    + constructor; [|done]. unfold scalar. lia.
    + simpl. unfold utf16 at 1. destr_cmp; [lia|]. subst s. simpl.
      f_equal; [|f_equal]; Z.div_mod_to_equations; lia.
  - intros [[[? ?]%andb_true_iff Hn]%andb_true_iff Hs]%andb_true_iff. bool_hyps.
    destruct (IH s) as (cps & HF & E); [simpl; lia|done|].
    exists (c :: cps). split.
    + constructor; [|done]. unfold scalar.
      apply andb_false_iff in El, Hn. destruct El, Hn; bool_hyps; lia.
    + simpl. unfold utf16 at 1. destr_cmp; [|lia]. by subst s.
Qed.

Lemma utf16_units cp : scalar cp -> Forall code_unit (utf16 cp).
Proof.
  unfold scalar, utf16, code_unit. intros H. destr_cmp; repeat constructor;
    Z.div_mod_to_equations; lia.
Qed.

(** The reference encoder of one code point, in arithmetic. *)
Definition utf8_ref (cp : Z) : list Z :=
  if cp <? 128 then [cp]
  else if cp <? 2048 then [192 + cp / 64; 128 + cp mod 64]
  else if cp <? 65536 then [224 + cp / 4096; 128 + cp / 64 mod 64; 128 + cp mod 64]
  else [240 + cp / 262144; 128 + cp / 4096 mod 64; 128 + cp / 64 mod 64; 128 + cp mod 64].

Lemma or_lead x k n : 0 <= n -> 0 <= x < 2 ^ n -> 0 <= k -> (k + 1) * 2 ^ n <= 2 ^ 31 ->
  js_or x (k * 2 ^ n) = k * 2 ^ n + x.
Proof. intros. rewrite js_or_add by nia. lia. Qed.

Lemma utf8_bytes_ref cp : 0 <= cp < 1114112 -> utf8_bytes cp = Some (utf8_ref cp).
Proof.
  intros H. unfold utf8_bytes, utf8_ref.
  rewrite !js_and_63, !js_shr_div by lia.
  change (2 ^ 6) with 64. change (2 ^ 12) with 4096. change (2 ^ 18) with 262144.
  change 192 with (3 * 2 ^ 6). change 128 with (2 * 2 ^ 6) at 2 3 4 5 6 7. change 224 with (7 * 2 ^ 5).
  change 240 with (15 * 2 ^ 4).
  destr_cmp; try lia; [done|..]; f_equal; repeat (f_equal; [apply or_lead; Z.div_mod_to_equations; lia|]);
    f_equal; apply or_lead; Z.div_mod_to_equations; lia.
Qed.

Lemma utf8_ref_bytes cp : 0 <= cp < 1114112 -> Forall byte (utf8_ref cp).
Proof.
  intros H. unfold utf8_ref, byte. destr_cmp; repeat constructor; Z.div_mod_to_equations; lia.
Qed.

Lemma is_cont_byte b : 128 <= b < 192 -> is_cont b = true.
Proof.
  intros H. assert (implb (128 <=? b) (implb (b <? 192) (is_cont b)) = true) as E.
  { apply (forall_below_spec 256 (fun b => implb (128 <=? b) (implb (b <? 192) (is_cont b))));
      [vm_compute; done|lia]. }
  by rewrite (proj2 (Z.leb_le 128 b)), (proj2 (Z.ltb_lt b 192)) in E by lia.
Qed.

Lemma js_and_15 v : js_and v 15 = v mod 16.
Proof. apply (js_and_ones v 4). lia. Qed.
Lemma js_and_31 v : js_and v 31 = v mod 32.
Proof. apply (js_and_ones v 5). lia. Qed.

Lemma or_fields3 d0 d1 d2 :
  0 <= d0 < 64 -> 0 <= d1 < 64 -> 0 <= d2 < 64 ->
  js_or (js_or (js_shl d0 12) (js_shl d1 6)) d2 = d0 * 4096 + d1 * 64 + d2.
Proof.
  intros. rewrite !shl_small by lia. rewrite (or_fields2 d0 _ 12) by lia.
  replace (d0 * 2 ^ 12 + d1 * 2 ^ 6) with ((d0 * 64 + d1) * 2 ^ 6) by lia.
  rewrite (or_fields2 _ _ 6) by lia. lia.
Qed.

(** The decoder reads back the sequence of a scalar value, whatever follows. *)
Lemma utf8_code_ref cp rest : scalar cp -> utf8_code (utf8_ref cp ++ rest) = Some cp.
Proof.
  intros [H Hs]. unfold utf8_ref, utf8_code.
  destr_cmp; simpl app; cbv iota beta; rewrite ?is_cont_byte by (Z.div_mod_to_equations; lia);
    cbv [andb]; rewrite ?js_and_15, ?js_and_31, ?js_and_63, ?or_sextets, ?or_fields3
      by (Z.div_mod_to_equations; lia);
    rewrite ?(shl_small ((192 + cp / 64) mod 32) 6), ?(or_fields2 _ _ 6)
      by (Z.div_mod_to_equations; lia);
    destr_cmp; try (Z.div_mod_to_equations; lia); simpl; try done;
    try (f_equal; Z.div_mod_to_equations; lia).
Qed.

Lemma bytesPerSequence_ref cp : scalar cp ->
  exists b0 r, utf8_ref cp = b0 :: r /\ bytesPerSequence b0 = length (utf8_ref cp).
Proof.
  intros [H _]. unfold utf8_ref, bytesPerSequence.
  destr_cmp; do 2 eexists; (split; [done|]); simpl; destr_cmp; try done; Z.div_mod_to_equations; lia.
Qed.

Lemma surrogate_split cp : scalar cp -> 65535 < cp ->
  [js_or (js_and (js_ushr (cp - 65536) 10) 1023) 55296; js_or 56320 (js_and (cp - 65536) 1023)] =
  utf16 cp.
Proof.
  intros [H _] Hb. unfold utf16. destr_cmp; [lia|].
  rewrite js_ushr_div, toUint32_id by lia.
  change 1023 with (Z.ones 10). rewrite !js_and_ones by lia.
  change (2 ^ 10) with 1024. change 55296 with (54 * 2 ^ 10) at 1.
  unfold js_or at 2. rewrite Z.lor_comm. fold (js_or ((cp - 65536) mod 1024) 56320).
  change 56320 with (55 * 2 ^ 10) at 1.
  rewrite !or_lead by (Z.div_mod_to_equations; lia).
  rewrite (Z.mod_small (_ / 1024)) by (Z.div_mod_to_equations; lia). done.
Qed.

Lemma utf8_decode_ref cps fuel :
  Forall scalar cps -> (length (cps ≫= utf8_ref) <= fuel)%nat ->
  utf8_decode fuel (cps ≫= utf8_ref) = cps ≫= utf16.
Proof.
  intros HF. revert fuel. induction HF as [|cp cps Hc _ IH]; intros fuel Hf.
  - simpl. by destruct fuel.
  - cbn [mbind list_bind] in *. rewrite length_app in Hf.
    destruct (bytesPerSequence_ref cp Hc) as (b0 & r & E & Eb).
    destruct fuel as [|fuel]; [rewrite E in Hf; simpl in Hf; lia|].
    pose proof (utf8_code_ref cp (cps ≫= utf8_ref) Hc) as Ec.
    rewrite E in Ec, Eb, Hf |- *. cbn [app] in Ec |- *. cbn [utf8_decode]. rewrite Ec, Eb.
    simpl in Hf. simpl length. rewrite skipn_cons, drop_app_length.
    rewrite IH by lia. destruct (Z.ltb_spec 65535 cp).
    + rewrite <- (surrogate_split cp) by (done || lia). done.
    + unfold utf16 at 2. destr_cmp; [done|lia].
Qed.

Lemma fromCharCodes_id cps : Forall code_unit cps -> fromCharCodes cps = cps.
Proof.
  intros HF. unfold fromCharCodes. induction HF as [|c cps Hc _ IH]; [done|].
  rewrite fmap_cons, IH. f_equal. apply Z.mod_small. exact Hc.
Qed.

Lemma decode_chunks_id n cps : Forall code_unit cps ->
  (length cps <= n * MAX_ARGUMENTS_LENGTH)%nat -> decode_chunks n cps = cps.
Proof.
  revert cps. induction n as [|n IH]; intros cps HF Hl; simpl.
  - destruct cps; [done|]. simpl in Hl. lia.
  - rewrite fromCharCodes_id by (by apply Forall_take).
    rewrite IH; [apply take_drop|by apply Forall_drop|]. rewrite length_drop. lia.
Qed.

(** The chunked conversion is the identity on code units. *)
Lemma decodeCodePointsArray_id cps : Forall code_unit cps -> decodeCodePointsArray cps = cps.
Proof.
  intros HF. unfold decodeCodePointsArray. case_decide; [by apply fromCharCodes_id|].
  apply decode_chunks_id; [done|].
  pose proof (Nat.mul_succ_div_gt (length cps) MAX_ARGUMENTS_LENGTH).
  assert (MAX_ARGUMENTS_LENGTH <> 0%nat) by (unfold MAX_ARGUMENTS_LENGTH; lia). lia.
Qed.

(** ** The encoding loop *)

Lemma push_inr bs r l : push bs r = inr l <-> exists l', r = inr l' /\ l = bs ++ l'.
Proof. destruct r; simpl; naive_solver. Qed.

Lemma emit_inr cp units next : 0 <= cp < 1114112 ->
  emit cp units next =
  (let units := spend (Z.of_nat (length (utf8_ref cp))) units in
   if neg_units units then inr [] else push (utf8_ref cp) (next units)).
Proof. intros H. unfold emit. by rewrite utf8_bytes_ref. Qed.

Definition lead_ok (lead : option Z) : Prop :=
  match lead with None => True | Some l => 55296 <= l < 56320 end.

(** The code point of a surrogate pair. *)
Lemma pair_code l c : 55296 <= l < 56320 -> 56320 <= c < 57344 ->
  js_or (js_shl (l - 55296) 10) (c - 56320) + 65536 = (l - 55296) * 1024 + (c - 56320) + 65536.
Proof.
  intros. rewrite shl_small by lia. rewrite (or_fields2 _ _ 10) by lia. done.
Qed.

(** With an unlimited budget the loop always returns bytes. *)
Lemma utf8_loop_total s lead :
  Forall code_unit s -> lead_ok lead -> exists bs, utf8_loop s lead None = inr bs /\ Forall byte bs.
Proof.
  assert (Hpush : forall pre r, Forall byte pre -> (exists bs, r = inr bs /\ Forall byte bs) ->
    exists bs, push pre r = inr bs /\ Forall byte bs).
  { intros pre r Hp (bs & -> & Hb). exists (pre ++ bs). split; [done|]. by apply Forall_app. }
  assert (Hrep : Forall byte (push_replacement None)) by vm_decide.
  intros HF. revert lead. induction HF as [|c s Hc _ IH]; intros lead Hl; [by exists []|].
  unfold code_unit in Hc. cbn [utf8_loop].
  assert (Hemit : forall cp, 0 <= cp < 1114112 ->
    exists bs, emit cp None (utf8_loop s None) = inr bs /\ Forall byte bs).
  { intros cp Hcp. rewrite emit_inr by done. cbn. apply Hpush; [by apply utf8_ref_bytes|].
    by apply IH. }
  destruct ((55295 <? c) && (c <? 57344)) eqn:Es; bool_hyps.
  - destruct lead as [l|]; simpl in Hl.
    + destruct (Z.ltb_spec c 56320); [apply Hpush; [done|]; apply IH; simpl; lia|].
      rewrite pair_code by lia. apply Hemit. lia.
    + destruct (Z.ltb_spec 56319 c); [apply Hpush; [done|]; by apply IH|].
      destruct s; [apply Hpush; [done|]; by apply IH|]. apply IH. simpl. lia.
  - destruct lead; [apply Hpush; [done|]|]; apply Hemit; lia.
Qed.

(** A budget that covers the result changes nothing. *)
Lemma utf8_loop_budget s lead u bs :
  Forall code_unit s -> lead_ok lead ->
  utf8_loop s lead None = inr bs -> Z.of_nat (length bs) <= u ->
  utf8_loop s lead (Some u) = inr bs.
Proof.
  intros HF. revert lead u bs. induction HF as [|c s Hc HF' IH]; intros lead u bs Hl; [by simpl|].
  unfold code_unit in Hc. cbn [utf8_loop].
  assert (Hrep : forall lead' v, lead_ok lead' -> forall l,
    push (push_replacement None) (utf8_loop s lead' None) = inr l -> Z.of_nat (length l) <= v ->
    push (push_replacement (spend 3 (Some v))) (utf8_loop s lead' (spend 3 (Some v))) = inr l).
  { intros lead' v Hl' l (l' & E & ->)%push_inr Hlen. rewrite length_app in Hlen. simpl in *.
    rewrite (IH lead' (v - 3) l') by (done || lia). destr_cmp; [done|lia]. }
  assert (Hemit : forall cp v l, 0 <= cp < 1114112 ->
    emit cp None (utf8_loop s None) = inr l -> Z.of_nat (length l) <= v ->
    emit cp (Some v) (utf8_loop s None) = inr l).
  { intros cp v l Hcp. rewrite !emit_inr by done. simpl.
    intros (l' & E & ->)%push_inr Hlen. rewrite length_app in Hlen.
    destr_cmp; [lia|]. rewrite (IH None _ l') by (done || lia). done. }
  destruct ((55295 <? c) && (c <? 57344)) eqn:Es; bool_hyps.
  - destruct lead as [l|]; simpl in Hl.
    + destruct (Z.ltb_spec c 56320); [apply Hrep; simpl; lia|].
      rewrite pair_code by lia. apply Hemit. lia.
    + destruct (Z.ltb_spec 56319 c); [by apply Hrep|].
      destruct s; [by apply Hrep|]. apply IH. simpl. lia.
  - destruct lead; [|apply Hemit; lia].
    intros (l' & E & ->)%push_inr Hlen. rewrite length_app in Hlen. simpl in *.
    erewrite Hemit by (try done; lia). destr_cmp; [done|lia].
Qed.

(** The units of one scalar value make the loop emit it. *)
Lemma utf8_loop_utf16 cp s units : scalar cp ->
  utf8_loop (utf16 cp ++ s) None units = emit cp units (utf8_loop s None).
Proof.
  intros [Hr Hn]. unfold utf16 at 1. destruct (Z.ltb_spec cp 65536).
  - cbn [app utf8_loop]. destruct ((55295 <? cp) && (cp <? 57344)) eqn:E; bool_hyps; [lia|done].
  - set (l := 55296 + (cp - 65536) / 1024). set (c := 56320 + (cp - 65536) mod 1024).
    assert (55296 <= l < 56320 /\ 56320 <= c < 57344 /\
            (l - 55296) * 1024 + (c - 56320) + 65536 = cp) as (Hl & Hc' & E)
      by (subst l c; Z.div_mod_to_equations; lia).
    clearbody l c. cbn [app utf8_loop].
    destruct ((55295 <? l) && (l <? 57344)) eqn:E1; [|apply andb_false_iff in E1 as [?|?]; bool_hyps; lia].
    destruct (Z.ltb_spec 56319 l); [lia|].
    destruct ((55295 <? c) && (c <? 57344)) eqn:E2; [|apply andb_false_iff in E2 as [?|?]; bool_hyps; lia].
    destruct (Z.ltb_spec c 56320); [lia|]. by rewrite pair_code, E by done.
Qed.

(** On well-formed UTF-16 the loop is the reference encoder. *)
Lemma utf8_loop_scalars cps :
  Forall scalar cps -> utf8_loop (cps ≫= utf16) None None = inr (cps ≫= utf8_ref).
Proof.
  induction 1 as [|cp cps Hc _ IH]; [done|]. cbn [mbind list_bind].
  rewrite utf8_loop_utf16 by done. rewrite emit_inr by apply Hc. cbn. by rewrite IH.
Qed.

(** ** The pure codecs the conversions refine *)

Fixpoint hex_bytes (s : jsstr) : list Z :=
  match s with
  | x :: y :: s' =>
      match parseInt [x; y] 16 with
      | None => []
      | Some (neg, m) => toUint8 (if neg then - m else m) :: hex_bytes s'
      end
  | _ => []
  end.

Section Pure.
Context {B64 : Base64}.

Definition encode (e : encoding) (s : jsstr) : js_error + list Z :=
  match e with
  | Hex => if slen s mod 2 =? 0 then inr (hex_bytes s) else inl (TypeError "Invalid hex string")
  | Utf8 => utf8ToBytes s None
  | Ascii | Latin1 => inr (asciiToBytes s)
  | Base64Enc => base64ToBytes s
  | Utf16le => inr (s ≫= fun c => [c mod 256; c / 256])
  end.

Definition decode (e : encoding) (bs : list Z) : jsstr :=
  match e with
  | Hex => bs ≫= toHex
  | Utf8 => utf8_decode (length bs) bs
  | Ascii => (fun x => x mod 128) <$> bs
  | Latin1 => bs
  | Base64Enc => b64_fromByteArray bs
  | Utf16le => utf16le_pairs bs
  end.
End Pure.

(** ** Store-level lemmas *)

Lemma createBuffer_spec h len : 0 <= len <= kMaxLength ->
  exists b h', createBuffer len h = Done b h' /\ wf_view h' b /\ blen b = len /\
    contents h' b = replicate (Z.to_nat len) 0.
Proof.
  intros Hl. unfold createBuffer. destr_cmp; try lia.
  unfold bind, new_array, new_view. do 2 eexists. split; [done|].
  unfold wf_view, contents, blen. simpl.
  rewrite lookup_app_r, Nat.sub_diag by lia. simpl.
  split; [|split; [lia|by rewrite drop_0, take_ge by (rewrite length_replicate; lia)]].
  eexists. split; [done|]. rewrite length_replicate. split; [lia|].
  apply Forall_replicate. unfold byte. lia.
Qed.

Lemma blit_loop_spec src dst offset len i h :
  Forall byte src -> 0 <= offset + i -> 0 <= i ->
  let n := Z.to_nat (Z.min (len - i) (blen dst - offset - i)) in
  blit_loop src dst offset len i h =
  Done (i + Z.of_nat (length (take n src)))
       (write_bytes dst (Z.to_nat (offset + i)) (take n src) h).
Proof.
  intros HF. revert i h. induction HF as [|x src Hx _ IH]; intros i h H0 Hi n; subst n.
  - simpl. rewrite take_nil, write_bytes_nil. simpl. rewrite Z.add_0_r. destr_cmp; done.
  - cbn [blit_loop]. destruct (Z.ltb_spec i len); [destruct (Z.leb_spec (blen dst) (i + offset))|].
    + replace (Z.to_nat _) with 0%nat by lia. simpl. by rewrite write_bytes_nil, Z.add_0_r.
    + erewrite bind_Done by (apply bset_in; lia). rewrite IH by lia.
      replace (Z.to_nat (Z.min (len - i) (blen dst - offset - i)))
        with (S (Z.to_nat (Z.min (len - (i + 1)) (blen dst - offset - (i + 1))))) by lia.
      cbn [take length]. rewrite toUint8_id by exact Hx.
      replace (Z.to_nat (offset + (i + 1))) with (length [x] + Z.to_nat (i + offset))%nat by (simpl; lia).
      rewrite write_bytes_app. simpl. f_equal; [lia|]. f_equal. lia.
    + replace (Z.to_nat _) with 0%nat by lia. simpl. by rewrite write_bytes_nil, Z.add_0_r.
Qed.

Lemma blitBuffer_spec src dst offset len h :
  Forall byte src -> 0 <= offset ->
  let n := Z.to_nat (Z.min len (blen dst - offset)) in
  blitBuffer src dst offset len h =
  Done (Z.of_nat (length (take n src))) (write_bytes dst (Z.to_nat offset) (take n src) h).
Proof.
  intros HF Ho n. unfold blitBuffer. rewrite blit_loop_spec by (done || lia).
  subst n. by rewrite !Z.sub_0_r, !Z.add_0_r, Z.add_0_l.
Qed.

Lemma hex_bytes_bytes s : Forall byte (hex_bytes s).
Proof.
  induction s as [s IH] using (induction_ltof1 _ (@length Z)). unfold ltof in IH.
  destruct s as [|x [|y s]]; try constructor. cbn [hex_bytes].
  destruct (parseInt [x; y] 16) as [[neg m]|]; [|constructor].
  constructor; [apply toUint8_range|]. apply IH. simpl. lia.
Qed.

Lemma hex_loop_spec b s offset (i : nat) n h :
  (length s = 2 * (i + n))%nat -> 0 <= offset -> offset + Z.of_nat (i + n) <= blen b ->
  let bs := hex_bytes (drop (2 * i) s) in
  hex_loop b s offset (Z.of_nat i) n h =
  Done (Z.of_nat (i + length bs)) (write_bytes b (Z.to_nat offset + i) bs h).
Proof.
  revert i h. induction n as [|n IH]; intros i h Hl Ho Hb bs; subst bs.
  - rewrite drop_ge by lia. simpl. by rewrite write_bytes_nil, Nat.add_0_r.
  - assert (exists x y r, drop (2 * i) s = x :: y :: r) as (x & y & r & E).
    { pose proof (length_drop s (2 * i)). destruct (drop (2 * i) s) as [|x [|y r]]; simpl in *; try lia.
      by exists x, y, r. }
    cbn [hex_loop]. unfold sslice. replace (Z.to_nat (Z.of_nat i * 2 + 2 - Z.of_nat i * 2)) with 2%nat by lia.
    replace (Z.to_nat (Z.of_nat i * 2)) with (2 * i)%nat by lia. rewrite E. change (take 2 (x :: y :: r)) with [x; y]. cbn [hex_bytes].
    destruct (parseInt [x; y] 16) as [[neg m]|];
      [|cbn [length]; by rewrite write_bytes_nil, Nat.add_0_r].
    erewrite bind_Done by (apply bset_in; lia).
    replace (Z.of_nat i + 1) with (Z.of_nat (S i)) by lia. rewrite IH by lia.
    assert (E' : drop (2 * S i) s = r).
    { replace (2 * S i)%nat with (2 * i + 2)%nat by lia. rewrite <- drop_drop, E. done. }
    rewrite E'. set (v := toUint8 _).
    replace (Z.to_nat offset + S i)%nat with (length [v] + Z.to_nat (offset + Z.of_nat i))%nat by (simpl; lia).
    rewrite write_bytes_app. simpl. f_equal; [lia|]. f_equal. lia.
Qed.

(** ** Refinement: [fromString] and [toString] *)

Lemma isEncoding_find name e : find_encoding name = Some e -> isEncoding name = true /\ name <> [].
Proof.
  unfold isEncoding, find_encoding. destruct (enc_case name) as [x|] eqn:E.
  - intros _. unfold enc_case in E.
    repeat match type of E with
    | (if ?b then _ else _) = _ => let Eb := fresh in destruct b eqn:Eb;
        [rewrite ?orb_true_iff, ?bool_decide_eq_true in Eb; destruct_or? Eb; subst name;
         (split; [by vm_compute|discriminate])|]
    end. done.
  - destruct (enc_case (toLowerCase name)) eqn:E'; [|done]. intros _. split; [done|].
    intros ->. discriminate.
Qed.

Lemma utf16leToBytes_full s n : Forall code_unit s -> 2 * slen s <= n ->
  utf16leToBytes s n = s ≫= (fun c => [c mod 256; c / 256]).
Proof.
  unfold slen. intros HF. revert n. induction HF as [|c s Hc _ IH]; intros n Hn; [done|].
  cbn [utf16leToBytes mbind list_bind app]. simpl length in Hn. destruct (Z.ltb_spec (n - 2) 0); [lia|].
  rewrite IH by lia. unfold code_unit in Hc. rewrite js_shr_div by lia. done.
Qed.

Lemma Forall_bytes_16 s : Forall code_unit s ->
  Forall byte (s ≫= (fun c => [c mod 256; c / 256])).
Proof.
  induction 1 as [|c s Hc _ IH]; [constructor|]. cbn. unfold code_unit, byte in *.
  do 2 (constructor; [Z.div_mod_to_equations; lia|]). done.
Qed.

Lemma length_bytes_16 (s : jsstr) :
  length (s ≫= (fun c => [c mod 256; c / 256])) = (2 * length s)%nat.
Proof. induction s as [|c s IH]; [done|]. cbn in *. rewrite IH. lia. Qed.

Lemma asciiToBytes_bytes s : Forall byte (asciiToBytes s).
Proof.
  apply Forall_fmap, Forall_true. intros c. unfold compose, byte. rewrite js_and_255.
  apply Z.mod_pos_bound. lia.
Qed.

Section Refinement.
Context {B64 : Base64} {B64L : Base64Laws}.

(** Size [byteLength] reserves for the string. *)
Definition reserve (e : encoding) (s : jsstr) (bs : list Z) : Z :=
  match e with
  | Hex => slen s / 2
  | Ascii | Latin1 => slen s
  | Utf16le => slen s * 2
  | Utf8 | Base64Enc => Z.of_nat (length bs)
  end.

Lemma encode_empty e : encode e [] = inr [].
Proof. destruct e; try done. apply b64_empty. Qed.

Lemma byteLength_spec name e s bs h :
  find_encoding name = Some e -> encode e s = inr bs -> slen s < 2 ^ 32 ->
  byteLength s (Some name) h = Done (reserve e s bs) h.
Proof.
  intros Hn He Hb. unfold byteLength. destruct (Z.eqb_spec (slen s) 0) as [E|E].
  - unfold slen in E. destruct s; simpl in E; [|lia]. rewrite encode_empty in He.
    injection He as <-. by destruct e.
  - rewrite Hn. destruct e; simpl in *; unfold bind, lift_sum; rewrite ?He; try done.
    unfold ret. f_equal. rewrite js_ushr_div, toUint32_id by (unfold slen in *; lia). done.
Qed.

(** Into a buffer of the reserved size, [write] stores the whole encoding. *)
Lemma write_with_encode e b s bs h :
  Forall code_unit s -> encode e s = inr bs -> Forall byte bs -> blen b = reserve e s bs ->
  write_with e b s 0 (blen b) h = Done (Z.of_nat (length bs)) (write_bytes b 0 bs h) /\
  Z.of_nat (length bs) <= blen b.
Proof.
  intros Hs He Hb Hl. assert (Hblit : Z.of_nat (length bs) <= blen b ->
    blitBuffer bs b 0 (blen b) h = Done (Z.of_nat (length bs)) (write_bytes b 0 bs h)).
  { intros H. rewrite blitBuffer_spec by (done || lia). by rewrite take_ge by lia. }
  destruct e; cbn [write_with reserve encode] in *.
  - destruct (slen s mod 2 =? 0) eqn:Em; [|done]. injection He as <-. apply Z.eqb_eq in Em.
    unfold hexWrite. rewrite Em. simpl negb. cbv iota.
    pose proof (hex_loop_spec b s 0 0 (Z.to_nat (slen s / 2)) h) as Hh.
    change (Z.of_nat 0) with 0 in Hh.
    rewrite !Z.sub_0_r, Hl. rewrite Z.ltb_irrefl.
    replace (if slen s / 2 =? 0 then slen s / 2 else slen s / 2) with (slen s / 2)
      by (by destruct (slen s / 2 =? 0)). rewrite Z.ltb_irrefl.
    rewrite Z.eqb_refl. cbn [negb]. rewrite Hh; [|unfold slen in *; Z.div_mod_to_equations; lia ..].
    rewrite Nat.mul_0_r, drop_0. cbn [Z.to_nat Nat.add]. split; [done|].
    clear. unfold slen. induction s as [s IH] using (induction_ltof1 _ (@length Z)). unfold ltof in IH.
    destruct s as [|x [|y s]]; try done. cbn [hex_bytes].
    destruct (parseInt [x; y] 16) as [[neg m]|]; [|simpl; Z.div_mod_to_equations; lia].
    specialize (IH s ltac:(simpl; lia)). simpl length. Z.div_mod_to_equations; lia.
  - split; [|lia]. unfold utf8Write, utf8ToBytes in *. rewrite Z.sub_0_r.
    erewrite bind_Done; [apply Hblit; lia|]. rewrite Hl. unfold lift_sum.
    destruct (Z.of_nat (length bs)) as [|p|p] eqn:E; [by rewrite He| |lia].
    rewrite (utf8_loop_budget s None (Z.pos p) bs); done || lia.
  - injection He as <-. unfold asciiWrite. assert (blen b = Z.of_nat (length (asciiToBytes s))).
    { unfold asciiToBytes. by rewrite length_fmap. } split; [apply Hblit|]; lia.
  - injection He as <-. unfold latin1Write, asciiWrite.
    assert (blen b = Z.of_nat (length (asciiToBytes s))).
    { unfold asciiToBytes. by rewrite length_fmap. } split; [apply Hblit|]; lia.
  - split; [|lia]. unfold base64Write. erewrite bind_Done; [by apply Hblit; lia|].
    unfold lift_sum. by rewrite He.
  - injection He as <-. pose proof (length_bytes_16 s). unfold ucs2Write, slen in *.
    rewrite Z.sub_0_r. rewrite utf16leToBytes_full by (done || unfold slen; lia).
    split; [apply Hblit|]; lia.
Qed.

Lemma fromString_spec name e s bs h :
  find_encoding name = Some e -> Forall code_unit s -> encode e s = inr bs -> Forall byte bs ->
  slen s < 2 ^ 30 -> Z.of_nat (length bs) < 2 ^ 31 ->
  exists b h', fromString s (Some name) h = Done b h' /\ wf_view h' b /\ contents h' b = bs.
Proof.
  intros Hn Hs He Hb Hsl Hbl. destruct (isEncoding_find _ _ Hn) as [Hi Hne].
  unfold fromString. assert (Et : truthy_enc (Some name) = name) by (by destruct name).
  rewrite Et, Hi. change (negb true) with false. cbv iota.
  erewrite bind_Done by (apply byteLength_spec; [done..|lia]).
  assert (Hr : 0 <= reserve e s bs < 2 ^ 31).
  { unfold slen in *. assert (0 <= Z.of_nat (length s) / 2 <= Z.of_nat (length s))
      by (Z.div_mod_to_equations; lia). destruct e; cbn [reserve]; unfold slen; lia. }
  rewrite toInt32_id by lia.
  destruct (createBuffer_spec h (reserve e s bs)) as (b & h1 & Ec & Hw & Hlen & Hc);
    [unfold kMaxLength; lia|].
  erewrite bind_Done by exact Ec.
  destruct (write_with_encode e b s bs h1 Hs He Hb Hlen) as [Ew Hle].
  erewrite bind_Done.
  2: { unfold write, write_parse. rewrite Et, Hn. simpl Z.sub. rewrite Z.sub_0_r, Z.ltb_irrefl.
       assert ((0 <? slen s) && ((blen b <? 0) || (0 <? 0)) || (blen b <? 0) = false) as ->.
       { destruct (Z.ltb_spec (blen b) 0); [lia|]. by rewrite andb_false_r. }
       exact Ew. }
  assert (Hw' : wf_view (write_bytes b 0 bs h1) b) by by apply wf_write_bytes.
  assert (Ht : take (length bs) (contents (write_bytes b 0 bs h1) b) = bs).
  { rewrite contents_write_bytes by (done || unfold blen in *; lia).
    pose proof (take_drop_list_inserts 0 bs (contents h1 b)) as Htd. rewrite drop_0 in Htd. apply Htd.
    rewrite length_contents by done. unfold blen in *. lia. }
  pose proof (length_contents _ _ Hw') as Hlc.
  destruct (Z.eqb_spec (Z.of_nat (length bs)) (reserve e s bs)) as [E|E].
  - exists b. eexists. split; [done|]. split; [done|]. rewrite <- Ht at 2.
    symmetry. apply take_ge. unfold blen in *. lia.
  - destruct (slice_spec (write_bytes b 0 bs h1) b (Some 0) (Some (Z.of_nat (length bs))) Hw')
      as (v & h2 & Es & Hwv & _ & _ & Hcv & _).
    exists v, h2. split; [done|]. split; [done|]. rewrite Hcv.
    assert (slice_lo b (Some 0) = 0) as ->.
    { unfold slice_lo, clamp. simpl. rewrite toInt32_id by lia. destr_cmp; lia. }
    assert (slice_hi b (Some 0) (Some (Z.of_nat (length bs))) = Z.of_nat (length bs)) as ->.
    { unfold slice_hi, slice_lo, clamp. simpl. rewrite !toInt32_id by lia. destr_cmp; lia. }
    rewrite Z.sub_0_r, Nat2Z.id, drop_0. exact Ht.
Qed.

Lemma range_full h b : wf_view h b -> range h b 0 (blen b) = contents h b.
Proof.
  intros Hw. unfold range. rewrite drop_0. apply take_ge. rewrite length_contents by done.
  unfold blen. lia.
Qed.

Lemma utf8_code_range l cp : Forall byte l -> utf8_code l = Some cp -> 0 <= cp < 1114112.
Proof.
  assert (Hm : forall a k, 0 < k -> 0 <= a mod k < k) by (intros; by apply Z.mod_pos_bound).
  assert (Hs : forall a, 0 <= a mod 16 < 64) by (intros a; specialize (Hm a 16); lia).
  destruct l as [|b0 l]; [done|]. intros [Hb HF]%Forall_cons_1. cbn [utf8_code].
  rewrite ?js_and_15, ?js_and_31.
  destruct (Z.ltb_spec 239 b0).
  { destruct l as [|b1 [|b2 [|b3 l]]]; try done. destruct (_ && _); [|done].
    generalize (js_or (js_or (js_or (js_shl (b0 mod 16) 18) (js_shl (js_and b1 63) 12))
      (js_shl (js_and b2 63) 6)) (js_and b3 63)). intros t. destruct (Z.ltb_spec 65535 t), (Z.ltb_spec t 1114112); try done.
    intros [= <-]. lia. }
  destruct (Z.ltb_spec 223 b0).
  { destruct l as [|b1 [|b2 l]]; try done. destruct (_ && _); [|done].
    rewrite !js_and_63, or_fields3 by auto with lia.
    destruct (_ && _); [|done]. intros [= <-].
    pose proof (Hm b0 16). pose proof (Hm b1 64). pose proof (Hm b2 64). lia. }
  destruct (Z.ltb_spec 191 b0).
  { destruct l as [|b1 l]; try done. destruct (is_cont b1); [|done].
    pose proof (Hm b0 32). pose proof (Hm b1 64).
    rewrite !js_and_63, shl_small, (or_fields2 _ _ 6) by lia.
    destruct (_ <? _); [|done]. intros [= <-]. lia. }
  unfold byte in Hb. destruct (Z.ltb_spec b0 128); [|done]. intros [= <-]. lia.
Qed.

Lemma utf8_decode_units fuel l : Forall byte l -> Forall code_unit (utf8_decode fuel l).
Proof.
  revert l. induction fuel as [|fuel IH]; intros l HF; [constructor|].
  destruct l as [|b0 l]; [constructor|]. cbn [utf8_decode].
  destruct (utf8_code (b0 :: l)) as [cp|] eqn:E;
    [|constructor; [unfold code_unit; lia|]; apply IH; by apply Forall_drop].
  apply utf8_code_range in E; [|done].
  assert (Forall code_unit (utf8_decode fuel (drop (bytesPerSequence b0) (b0 :: l))))
    by (apply IH; by apply Forall_drop).
  destruct (Z.ltb_spec 65535 cp); [|constructor; [unfold code_unit; lia|done]].
  assert (Hsc : scalar cp) by (unfold scalar; lia).
  pose proof (surrogate_split cp Hsc ltac:(done)) as Es. pose proof (utf16_units cp Hsc) as Hu.
  rewrite <- Es in Hu. apply Forall_cons_1 in Hu as [H1 [H2 _]%Forall_cons_1].
  constructor; [done|]. by constructor.
Qed.

Lemma toString_spec name e b h :
  find_encoding name = Some e -> wf_view h b -> blen b < 2 ^ 31 ->
  exists h', toString b (Some (Some name, None, None)) h = Done (decode e (contents h b)) h' /\
    forall v, contents h' v = contents h v.
Proof.
  intros Hn Hw Hl. destruct (isEncoding_find _ _ Hn) as [_ Hne].
  assert (Et : truthy_enc (Some name) = name) by (by destruct name).
  pose proof (length_contents h b Hw) as Hlc. pose proof (contents_bytes h b Hw) as Hcb.
  assert (0 <= blen b) by (unfold blen; lia).
  unfold toString. rewrite toInt32_id by lia. destruct (Z.eqb_spec (blen b) 0) as [E0|E0].
  { exists h. split; [|done]. unfold blen in E0. destruct (contents h b); simpl in Hlc; [|lia].
    destruct e; try done. simpl. by rewrite (proj2 b64_empty). }
  unfold slowToString. destruct (Z.ltb_spec (blen b) 0); [lia|].
  destruct (Z.leb_spec (blen b) 0); [lia|].
  rewrite !toUint32_id by lia. destruct (Z.leb_spec (blen b) 0); [lia|]. rewrite Et, Hn.
  pose proof (range_full h b Hw) as Hr.
  destruct e; cbn [slice_with decode];
    unfold hexSlice, utf8Slice, asciiSlice, latin1Slice, base64Slice, utf16leSlice.
  - exists h. split; [|done]. rewrite !Z.ltb_irrefl.
    destruct (Z.eqb_spec (blen b) 0), (Z.ltb_spec (blen b) 0); try lia. cbn [orb]. by rewrite Hr.
  - exists h. split; [|done]. rewrite Hr, decodeCodePointsArray_id; [done|].
    by apply utf8_decode_units.
  - exists h. split; [|done]. rewrite Hr. f_equal. apply list_fmap_ext. intros i x Hx.
    change 127 with (Z.ones 7). by rewrite js_and_ones by lia.
  - exists h. by rewrite Hr.
  - exists h. by rewrite !Z.eqb_refl.
  - destruct (slice_spec h b (Some 0) (Some (blen b)) Hw) as (v & h2 & Es & Hwv & _ & _ & Hcv & _).
    exists h2. erewrite bind_Done by exact Es. split.
    + rewrite Hcv. assert (slice_lo b (Some 0) = 0) as ->.
      { unfold slice_lo, clamp. simpl. rewrite toInt32_id by lia. destr_cmp; lia. }
      assert (slice_hi b (Some 0) (Some (blen b)) = blen b) as ->.
      { unfold slice_hi, slice_lo, clamp. simpl. rewrite !toInt32_id by lia. destr_cmp; lia. }
      rewrite drop_0, take_ge by (unfold blen; lia). done.
    + intros v'. rewrite slice_unfold in Es. unfold subarray, new_view in Es. by injection Es as <- <-.
Qed.

(** ** Round trips of the pure codecs *)

(** Bytes the encoding represents exactly. *)
Definition canonical (e : encoding) (bs : list Z) : Prop :=
  match e with
  | Hex | Latin1 | Base64Enc => True
  | Ascii => Forall (fun x => x < 128) bs
  | Utf16le => Nat.Even (length bs)
  | Utf8 => exists cps, Forall scalar cps /\ bs = cps ≫= utf8_ref
  end.

Lemma hex_bytes_toHex bs : Forall byte bs -> hex_bytes (bs ≫= toHex) = bs /\
  length (bs ≫= toHex) = (2 * length bs)%nat.
Proof.
  assert (Hh : forall b, byte b -> exists x y, toHex b = [x; y] /\ parseInt [x; y] 16 = Some (false, b)).
  { intros b Hb. pose proof (forall_below_spec 256 (fun b => match toHex b with
      | [x; y] => match parseInt [x; y] 16 with Some (false, m) => m =? b | _ => false end
      | _ => false end) b ltac:(by vm_compute) ltac:(exact Hb)) as E. simpl in E.
    destruct (toHex b) as [|x [|y [|]]]; try done. exists x, y. split; [done|].
    destruct (parseInt [x; y] 16) as [[[] m]|]; try done. by apply Z.eqb_eq in E as ->. }
  induction 1 as [|b bs Hb _ [IH1 IH2]]; [done|]. cbn [mbind list_bind].
  destruct (Hh b Hb) as (x & y & -> & E). cbn [app hex_bytes length].
  change (bs ≫= toHex) with (mbind toHex bs) in *. rewrite E, toUint8_id by exact Hb.
  split; [by f_equal|]. rewrite IH2. lia.
Qed.

Lemma trim_left_id s : match s with c :: _ => is_space c = false | [] => True end -> trim_left s = s.
Proof. destruct s as [|c s]; [done|]. simpl. by intros ->. Qed.

Lemma base64_unit_facts c : is_b64_unit c = true \/ c = 61 -> is_space c = false.
Proof.
  assert (forall n, 0 <= n < 128 -> implb (is_b64_unit n || (n =? 61)) (negb (is_space n)) = true) as Hall.
  { intros n Hn. by apply (forall_below_spec 128 (fun n => implb (is_b64_unit n || (n =? 61)) (negb (is_space n)))). }
  intros H. assert (0 <= c < 128) as Hc.
  { destruct H as [H| ->]; [|lia]. unfold is_b64_unit in H. rewrite !orb_true_iff, !andb_true_iff in H.
    rewrite !Z.leb_le, !Z.eqb_eq in H. lia. }
  specialize (Hall c Hc). destruct H as [H| ->]; [|done]. rewrite H in Hall. simpl in Hall.
  by apply negb_true_iff in Hall.
Qed.

Lemma trim_units s : Forall (fun c => is_space c = false) s -> trim s = s.
Proof.
  intros HF. unfold trim. rewrite (trim_left_id s) by (destruct s; [done|by inversion HF]).
  rewrite trim_left_id; [apply rev_involutive|].
  apply Forall_rev in HF. destruct (rev s); [done|]. by apply Forall_cons_1 in HF as [? _].
Qed.

Lemma base64clean_shape body k :
  Forall (fun c => is_b64_unit c = true) body -> (k <= 2)%nat ->
  slen (body ++ replicate k 61) mod 4 = 0 -> (2 <= length body)%nat ->
  base64clean (body ++ replicate k 61) = body ++ replicate k 61.
Proof.
  intros HF Hk Hm Hl. unfold base64clean, stringtrim. rewrite trim_units.
  2: { apply Forall_app. split.
       - eapply Forall_impl; [|exact HF]. intros c Hc. apply base64_unit_facts. by left.
       - apply Forall_replicate. apply base64_unit_facts. by right. }
  assert (Hbody : base.filter (fun c => is_b64_char c = true) body = body).
  { clear Hm Hl. induction HF as [|c body Hc _ IH]; [done|].
    rewrite filter_cons_True; [by f_equal|]. unfold is_b64_char. by rewrite Hc. }
  rewrite list.filter_app, Hbody. unfold slen in *. rewrite length_app, length_replicate in Hm.
  assert (base.filter (fun c => is_b64_char c = true) (replicate k 61) = []) as ->.
  { clear. induction k as [|k IH]; [done|]. simpl. rewrite filter_cons_False; [done|]. by vm_compute. }
  rewrite app_nil_r. destruct (Z.ltb_spec (Z.of_nat (length body)) 2); [lia|].
  do 2 f_equal. Z.div_mod_to_equations. lia.
Qed.

Lemma base64ToBytes_canonical bs : Forall byte bs -> base64ToBytes (b64_fromByteArray bs) = inr bs.
Proof.
  intros Hb. unfold base64ToBytes. destruct (decide (bs = [])) as [->|Hne].
  - rewrite (proj2 b64_empty). apply b64_empty.
  - destruct (b64_shape bs Hb) as (body & k & E & HF & Hk & Hm & Hl).
    rewrite <- (b64_roundtrip bs) by done. f_equal. rewrite E in *.
    apply base64clean_shape; auto.
Qed.

Lemma utf16le_pairs_bytes s : Forall code_unit s ->
  utf16le_pairs (s ≫= (fun c => [c mod 256; c / 256])) = s.
Proof.
  induction 1 as [|c s Hc _ IH]; [done|]. cbn [mbind list_bind app utf16le_pairs].
  rewrite IH. f_equal. Z.div_mod_to_equations. lia.
Qed.

Lemma utf16le_bytes_pairs bs : Forall byte bs -> Nat.Even (length bs) ->
  utf16le_pairs bs ≫= (fun c => [c mod 256; c / 256]) = bs.
Proof.
  induction bs as [bs IH] using (induction_ltof1 _ (@length Z)). unfold ltof in IH.
  destruct bs as [|x [|y bs]]; intros HF He; [done|destruct He as [? ?]; simpl in *; lia|].
  apply Forall_cons_1 in HF as [Hx [Hy HF]%Forall_cons_1]. cbn [utf16le_pairs mbind list_bind app].
  unfold byte in *. f_equal; [Z.div_mod_to_equations; lia|]. f_equal; [Z.div_mod_to_equations; lia|].
  apply IH; [simpl; lia|done|]. destruct He as [k Hk]. exists (k - 1)%nat. simpl in Hk. lia.
Qed.

Lemma asciiToBytes_id s : Forall byte s -> asciiToBytes s = s.
Proof.
  intros HF. unfold asciiToBytes. induction HF as [|c s Hc _ IH]; [done|].
  rewrite fmap_cons, IH, js_and_255. f_equal. by apply Z.mod_small.
Qed.

Lemma ascii_mod_id s : Forall byte s -> Forall (fun x => x < 128) s -> (fun x => x mod 128) <$> s = s.
Proof.
  intros HF. induction HF as [|c s Hc _ IH]; [done|]. intros [H1 H2]%Forall_cons_1.
  rewrite fmap_cons, IH by done. f_equal. unfold byte in Hc. apply Z.mod_small. lia.
Qed.

Lemma encode_decode e bs :
  Forall byte bs -> canonical e bs -> encode e (decode e bs) = inr bs.
Proof.
  intros Hb Hc. destruct e; cbn [encode decode canonical] in *.
  - destruct (hex_bytes_toHex bs Hb) as [E1 E2]. unfold slen. rewrite E1, E2.
    destruct (Z.eqb_spec (Z.of_nat (2 * length bs) mod 2) 0) as [|E]; [done|].
    exfalso. apply E. Z.div_mod_to_equations. lia.
  - destruct Hc as (cps & HF & ->). rewrite utf8_decode_ref by done. by apply utf8_loop_scalars.
  - rewrite ascii_mod_id by done. by rewrite asciiToBytes_id.
  - by rewrite asciiToBytes_id.
  - by apply base64ToBytes_canonical.
  - by rewrite utf16le_bytes_pairs.
Qed.

(** Strings the encoding represents exactly. *)
Definition encodable (e : encoding) (s : jsstr) : Prop :=
  match e with
  | Utf8 => wf16 s = true
  | Ascii => Forall (fun c => 0 <= c < 128) s
  | Latin1 => Forall (fun c => 0 <= c < 256) s
  | Utf16le => Forall code_unit s
  | Hex | Base64Enc => exists bs, Forall byte bs /\ s = decode e bs
  end.

Lemma decode_encode e s :
  encodable e s -> exists bs, encode e s = inr bs /\ Forall byte bs /\ decode e bs = s.
Proof.
  intros He. destruct e; cbn [encodable] in He.
  - destruct He as (bs & Hb & ->). exists bs. split; [|done]. by apply encode_decode.
  - destruct (wf16_scalars s He) as (cps & HF & ->). exists (cps ≫= utf8_ref). cbn.
    split; [by apply utf8_loop_scalars|]. split; [|by apply utf8_decode_ref].
    clear He. induction HF as [|cp cps Hcp _ IH]; [constructor|]. apply Forall_app. split; [|done].
    apply utf8_ref_bytes, Hcp.
  - exists s. assert (Forall byte s) by (eapply Forall_impl; [|exact He]; unfold byte; intros; lia).
    cbn. rewrite asciiToBytes_id by done. split; [done|]. split; [done|]. apply ascii_mod_id; [done|].
    eapply Forall_impl; [|exact He]. intros; simpl in *; lia.
  - exists s. cbn. by rewrite asciiToBytes_id.
  - destruct He as (bs & Hb & ->). exists bs. split; [|done]. by apply encode_decode.
  - exists (s ≫= (fun c => [c mod 256; c / 256])). split; [done|]. split; [by apply Forall_bytes_16|].
    by apply utf16le_pairs_bytes.
Qed.

Lemma Forall_bind {A B} (P : B -> Prop) (f : A -> list B) l :
  (forall x, x ∈ l -> Forall P (f x)) -> Forall P (l ≫= f).
Proof.
  intros Hf. induction l as [|x l IH]; [constructor|]. cbn. apply Forall_app. split.
  - apply Hf. left.
  - apply IH. intros y Hy. apply Hf. by right.
Qed.

Lemma decode_units e bs : Forall byte bs -> Forall code_unit (decode e bs).
Proof.
  intros Hb. assert (Hbu : forall x, byte x -> code_unit x) by (unfold byte, code_unit; lia).
  destruct e; cbn [decode].
  - apply Forall_bind. intros x Hx%list_elem_of_In. rewrite Forall_forall in Hb. specialize (Hb x Hx).
    pose proof (forall_below_spec 256 (fun b => forallb (fun c => (0 <=? c) && (c <? 65536)) (toHex b))
      x ltac:(by vm_compute) Hb) as E. simpl in E. rewrite forallb_forall in E.
    apply Forall_forall. intros c Hc. specialize (E c Hc). bool_hyps.
    unfold code_unit. lia.
  - by apply utf8_decode_units.
  - apply Forall_fmap, Forall_true. intros x. unfold code_unit, compose.
    pose proof (Z.mod_pos_bound x 128). lia.
  - eapply Forall_impl; [|exact Hb]. done.
  - destruct (b64_shape bs Hb) as (body & k & -> & HF & _). apply Forall_app. split.
    + eapply Forall_impl; [|exact HF]. intros c Hc. unfold is_b64_unit in Hc. unfold code_unit.
      rewrite !orb_true_iff, !andb_true_iff, !Z.leb_le, !Z.eqb_eq in Hc. lia.
    + apply Forall_replicate. unfold code_unit. lia.
  - clear Hbu. induction bs as [bs IH] using (induction_ltof1 _ (@length Z)). unfold ltof in IH.
    destruct bs as [|x [|y bs]]; [constructor|by repeat constructor|].
    apply Forall_cons_1 in Hb as [Hx [Hy HF]%Forall_cons_1]. unfold byte, code_unit in *.
    constructor; [lia|]. apply IH; [simpl; lia|done].
Qed.

Lemma encodable_units e s : encodable e s -> Forall code_unit s.
Proof.
  intros He. destruct (decode_encode e s He) as (bs & _ & Hb & <-). by apply decode_units.
Qed.

(** C9: text survives a Buffer: for every encoding name and every string the
    encoding can represent (well-formed UTF-16 for utf8, surrogates in pairs),
    [Buffer.from(s, name)] returns a buffer whose [toString(name)] is [s]. *)
Theorem string_buffer_roundtrip name e s h :
  find_encoding name = Some e -> encodable e s -> slen s < 2 ^ 30 ->
  (forall bs, encode e s = inr bs -> Z.of_nat (length bs) < 2 ^ 31) ->
  exists b h1 h2, from (FString s (Some name)) h = Done b h1 /\ wf_view h1 b /\
    toString b (Some (Some name, None, None)) h1 = Done s h2.
Proof.
  intros Hn He Hs Hl. destruct (decode_encode e s He) as (bs & E & Hb & Hd).
  destruct (fromString_spec name e s bs h) as (b & h1 & Ef & Hw & Hc); try done.
  { by eapply encodable_units. } { auto. }
  destruct (toString_spec name e b h1 Hn Hw) as (h2 & Et & _).
  { unfold blen. rewrite <- (length_contents h1 b), Hc by done. auto. }
  exists b, h1, h2. split; [done|]. split; [done|]. by rewrite Et, Hc, Hd.
Qed.

(** C10: bytes survive a string: if the contents of a buffer are in the range of
    the encoding (any bytes for hex, latin1 and base64, an even number for
    utf16le, valid UTF-8 for utf8), [Buffer.from(b.toString(name), name)] has the
    same contents. *)
Theorem buffer_string_roundtrip name e b h :
  find_encoding name = Some e -> wf_view h b -> blen b < 2 ^ 31 ->
  canonical e (contents h b) -> slen (decode e (contents h b)) < 2 ^ 30 ->
  exists s h1 v h2, toString b (Some (Some name, None, None)) h = Done s h1 /\
    from (FString s (Some name)) h1 = Done v h2 /\ contents h2 v = contents h b.
Proof.
  intros Hn Hw Hl Hcan Hs. pose proof (contents_bytes h b Hw) as Hb.
  destruct (toString_spec name e b h Hn Hw Hl) as (h1 & Et & _).
  destruct (fromString_spec name e (decode e (contents h b)) (contents h b) h1)
    as (v & h2 & Ef & _ & Hc); try done.
  { by apply decode_units. } { by apply encode_decode. }
  { by rewrite length_contents. }
  by exists (decode e (contents h b)), h1, v, h2.
Qed.
End Refinement.

(** ** A truncated write keeps whole characters *)

(** The longest prefix of the code points whose UTF-8 fits in [r] bytes. *)
Fixpoint fits (r : Z) (cps : list Z) : list Z :=
  match cps with
  | [] => []
  | cp :: cps' => let n := Z.of_nat (length (utf8_ref cp)) in
                  if n <=? r then cp :: fits (r - n) cps' else []
  end.

Lemma utf8_loop_fits cps r : Forall scalar cps ->
  utf8_loop (cps ≫= utf16) None (Some r) = inr (fits r cps ≫= utf8_ref).
Proof.
  intros HF. revert r. induction HF as [|cp cps Hc _ IH]; intros r; [done|].
  cbn [mbind list_bind]. rewrite utf8_loop_utf16 by done. rewrite emit_inr by apply Hc.
  cbn [fits spend neg_units fmap option_fmap option_map].
  destruct (Z.ltb_spec (r - Z.of_nat (length (utf8_ref cp))) 0),
           (Z.leb_spec (Z.of_nat (length (utf8_ref cp))) r); try lia; [done|].
  by rewrite IH.
Qed.

Lemma fits_length r cps : 0 <= r -> Z.of_nat (length (fits r cps ≫= utf8_ref)) <= r.
Proof.
  revert r. induction cps as [|cp cps IH]; intros r Hr; [done|]. cbn [fits].
  destruct (Z.leb_spec (Z.of_nat (length (utf8_ref cp))) r); [|done].
  cbn [mbind list_bind]. rewrite length_app. specialize (IH (r - Z.of_nat (length (utf8_ref cp)))). lia.
Qed.

(** [write(s, offset)] in utf8 never stores part of a character: it writes the
    UTF-8 of the longest prefix of whole code points that fits between the
    offset and the end of the buffer, and returns the number of bytes. *)
Theorem utf8_write_whole_chars `{Base64} b h cps off :
  wf_view h b -> Forall scalar cps -> 0 <= off < blen b -> blen b < 2 ^ 31 ->
  let bs := fits (blen b - off) cps ≫= utf8_ref in
  exists h', write b (cps ≫= utf16) (WOff off) h = Done (Z.of_nat (length bs)) h' /\
    contents h' b = list_inserts (Z.to_nat off) bs (contents h b).
Proof.
  intros Hw HF Ho Hl bs. unfold write, write_parse. rewrite toInt32_id by lia.
  assert (Hlen : Z.of_nat (length bs) <= blen b - off) by (apply fits_length; lia).
  assert (Hb : Forall byte bs).
  { unfold bs. generalize (blen b - off). clear -HF. induction HF as [|cp cps Hcp _ IH]; intros r; [constructor|].
    cbn [fits]. destruct (_ <=? _); [|constructor]. cbn. apply Forall_app. split; [|apply IH].
    apply utf8_ref_bytes, Hcp. }
  destruct (_ || _) eqn:E.
  { rewrite orb_true_iff, andb_true_iff, orb_true_iff, !Z.ltb_lt in E. lia. }
  change (find_encoding (truthy_enc None)) with (Some Utf8). cbn [write_with]. unfold utf8Write, utf8ToBytes.
  destruct (blen b - off) as [|p|p] eqn:Ep; try lia. rewrite <- Ep.
  rewrite utf8_loop_fits by done. unfold bind, lift_sum, ret.
  rewrite Ep in *. fold bs. rewrite blitBuffer_spec by (done || lia).
  rewrite (take_ge bs) by lia. eexists. split; [done|].
  rewrite contents_write_bytes; [done|done|]. unfold blen in *. lia.
Qed.

(** An explicit length breaks that guarantee: in a buffer of four bytes,
    writing the euro sign with length 2 stores the first two of its three bytes. *)
Theorem utf8_write_length_splits `{Base64} :
  exists h' : store,
    write (View 0 0 0 4) [8364] (WOffLen 0 2 None) (Store [[0; 0; 0; 0]] 1) = Done 2 h' /\
    contents h' (View 0 0 0 4) = [226; 130; 0; 0] /\
    utf8_code (contents h' (View 0 0 0 4)) = None.
Proof. exists (Store [[226; 130; 0; 0]] 1). vm_compute. done. Qed.

(** ** Witnesses *)

Lemma string_buffer_roundtrip_witness :
  encodable Utf8 [104; 8364; 55357; 56832] /\
  exists b h1 h2,
    from (FString [104; 8364; 55357; 56832] (Some (js "UTF-8"))) (Store [] 0) = Done b h1 /\
    wf_view h1 b /\
    toString b (Some (Some (js "UTF-8"), None, None)) h1 = Done [104; 8364; 55357; 56832] h2.
Proof.
  split; [reflexivity|].
  apply (string_buffer_roundtrip (js "UTF-8") Utf8); [reflexivity..|].
  intros bs E. vm_compute in E. injection E as <-. reflexivity.
Defined.

Lemma buffer_string_roundtrip_witness :
  exists s h1 v h2,
    toString ex_view (Some (Some (js "base64"), None, None)) ex_store = Done s h1 /\
    from (FString s (Some (js "base64"))) h1 = Done v h2 /\
    contents h2 v = contents ex_store ex_view.
Proof.
  apply (buffer_string_roundtrip (js "base64") Base64Enc);
    [reflexivity|vm_decide|reflexivity|exact I|reflexivity].
Defined.

Lemma utf8_write_whole_chars_witness :
  exists h', write ex_view ([104; 8364; 128512] ≫= utf16) (WOff 1) ex_store = Done 4 h' /\
    contents h' ex_view = [1; 104; 226; 130; 172; 6].
Proof.
  apply (utf8_write_whole_chars ex_view ex_store [104; 8364; 128512] 1).
  - vm_decide.
  - repeat constructor; lia.
  - vm_decide.
  - reflexivity.
Defined.
