(* ===== verification/BufferIndex.v ===== *)
(** [indexOf], [lastIndexOf] and [includes] of Buffer, and the block operations
    [concat] and [fill], against list specifications. *)
From S2P Require Import Prelude BufferStore BufferInt JsString Base64Js BufferCodec BufferText.

(** ** Definitions *)

(** Positions are kept in bytes.  With the two-byte encodings the source counts
    in units of [indexSize] bytes, so a number of its is [pos / indexSize]. *)
Record ratio := Ratio { numer : Z; denom : Z }.

Definition not_found : ratio := Ratio (-1) 1.

(** [read(buf, i)] at byte position [p]. *)
Definition read_at (w : Z) (b : view) (p : Z) : M store (option Z) :=
  if w =? 1 then get b p else readUInt16BE b p false.

(** The forward loop; [found] is [foundIndex], [None] for -1. *)
Fixpoint search_fwd (fuel : nat) (w : Z) (arr val : view) (p : Z) (found : option Z)
    : M store ratio :=
  match fuel with
  | O => fun _ => NoFuel
  | S fuel' =>
      if p <? blen arr then
        let! x := read_at w arr p in
        let! y := read_at w val (match found with None => 0 | Some f => p - f end) in
        if decide (x = y) then
          let f := default p found in
          if p - f + w =? blen val then ret (Ratio f 1)
          else search_fwd fuel' w arr val (p + w) (Some f)
        else
          let p := match found with Some f => f | None => p end in
          search_fwd fuel' w arr val (p + w) None
      else ret not_found
  end.

(** The inner loop of the backward search: all [n] units from [j] on agree. *)
Fixpoint match_at (w : Z) (arr val : view) (p j : Z) (n : nat) : M store bool :=
  match n with
  | O => ret true
  | S n' =>
      let! x := read_at w arr (p + j) in
      let! y := read_at w val j in
      if decide (x = y) then match_at w arr val p (j + w) n' else ret false
  end.

Fixpoint search_bwd (n : nat) (w : Z) (arr val : view) (p : Z) : M store ratio :=
  match n with
  | O => ret not_found
  | S n' =>
      if p <? 0 then ret not_found
      else
        let! ok := match_at w arr val p 0 (Z.to_nat ((blen val + w - 1) / w)) in
        if ok then ret (Ratio p w) else search_bwd n' w arr val (p - w)
  end.

Definition is_ucs2 (e : option jsstr) : bool :=
  match e with
  | Some e => match enc_case (toLowerCase e) with Some Utf16le => true | _ => false end
  | None => false
  end.

Definition arrayIndexOf (arr val : view) (byteOffset : Z) (e : option jsstr) (dir : bool)
    : M store ratio :=
  if is_ucs2 e && ((blen arr <? 2) || (blen val <? 2)) then ret not_found
  else
    let w := if is_ucs2 e then 2 else 1 in
    if dir then search_fwd (S (v_len arr) * S (S (v_len val))) w arr val byteOffset None
    else
      let byteOffset := if blen arr <? byteOffset + blen val then blen arr - blen val
                        else byteOffset in
      search_bwd (S (v_len arr)) w arr val byteOffset.

(** [Uint8Array.prototype.indexOf] and [lastIndexOf]. *)
Fixpoint native_index (l : list Z) (v : Z) (i : Z) : Z :=
  match l with
  | [] => -1
  | x :: l' => if x =? v then i else native_index l' v (i + 1)
  end.

Fixpoint native_last (l : list Z) (v : Z) (i : nat) : Z :=
  match (if decide (l !! i = Some v) then Some (Z.of_nat i) else None), i with
  | Some k, _ => k
  | None, S i' => native_last l v i'
  | None, O => -1
  end.

Inductive needle := NString (s : jsstr) | NBuffer (v : view) | NNumber (n : Z) | NOther.

(** The offset argument: a number ([None] is [undefined] or [NaN]) and an
    encoding, or a string in its place, which is the encoding. *)
Inductive index_args := IOffset (o : option Z) (e : option jsstr) | IEnc (e : jsstr).

Section Index.
Context {B64 : Base64}.

Definition bidirectionalIndexOf (b : view) (v : needle) (args : index_args) (dir : bool)
    : M store ratio :=
  if blen b =? 0 then ret not_found
  else
    let '(o, e) := match args with
                   | IEnc e => (Some 0, Some e)
                   | IOffset o e =>
                       ((fun o => if 2147483647 <? o then 2147483647
                                  else if o <? -2147483648 then -2147483648 else o) <$> o, e)
                   end in
    let o := match o with Some o => o | None => if dir then 0 else blen b - 1 end in
    let o := if o <? 0 then blen b + o else o in
    let o := if blen b <=? o then (if dir then None else Some (blen b - 1))
             else if o <? 0 then (if dir then Some 0 else None) else Some o in
    match o with
    | None => ret not_found
    | Some o =>
        let in_buffer (v : view) :=
          if blen v =? 0 then ret not_found else arrayIndexOf b v o e dir in
        match v with
        | NString s => let! v := from (FString s e) in in_buffer v
        | NBuffer v => in_buffer v
        | NNumber n =>
            let n := js_and n 255 in
            fun h =>
              Done (Ratio (if dir then native_index (drop (Z.to_nat o) (contents h b)) n o
                           else native_last (contents h b) n (Z.to_nat o)) 1) h
        | NOther => throw (TypeError "val must be string, number or Buffer")
        end
    end.

Definition indexOf (b : view) (v : needle) (args : index_args) : M store ratio :=
  bidirectionalIndexOf b v args true.

Definition lastIndexOf (b : view) (v : needle) (args : index_args) : M store ratio :=
  bidirectionalIndexOf b v args false.

Definition includes (b : view) (v : needle) (args : index_args) : M store bool :=
  let! r := indexOf b v args in ret (negb ((numer r =? -1) && (denom r =? 1))).
End Index.

(** ** Specification: first and last occurrence of a block *)

Definition occurs (A V : list Z) (k : nat) : Prop := take (length V) (drop k A) = V.

#[global] Instance occurs_dec A V k : Decision (occurs A V k).
Proof. unfold occurs. apply _. Defined.

(** First occurrence at or after [k], among [n] positions. *)
Fixpoint first_occ (A V : list Z) (k n : nat) : Z :=
  match n with
  | O => -1
  | S n' => if decide (occurs A V k) then Z.of_nat k else first_occ A V (S k) n'
  end.

(** Last occurrence at or before [k]. *)
Fixpoint last_occ (A V : list Z) (k : nat) : Z :=
  if decide (occurs A V k) then Z.of_nat k
  else match k with O => -1 | S k' => last_occ A V k' end.

Lemma first_occ_spec A V k n :
  (first_occ A V k n = -1 /\ (forall j, (k <= j < k + n)%nat -> ~ occurs A V j)) \/
  exists i, first_occ A V k n = Z.of_nat i /\ (k <= i < k + n)%nat /\ occurs A V i /\
    (forall j, (k <= j < i)%nat -> ~ occurs A V j).
Proof.
  revert k. induction n as [|n IH]; intros k; simpl; [left; split; [done|lia]|].
  destruct (decide (occurs A V k)) as [Ho|Ho].
  - right. exists k. split; [done|]. split; [lia|]. split; [done|]. lia.
  - destruct (IH (S k)) as [[E Hn]|(i & E & Hi & Hoi & Hn)].
    + left. split; [done|]. intros j Hj. destruct (decide (j = k)) as [->|]; [done|]. apply Hn. lia.
    + right. exists i. split; [done|]. split; [lia|]. split; [done|].
      intros j Hj. destruct (decide (j = k)) as [->|]; [done|]. apply Hn. lia.
Qed.

Lemma last_occ_spec A V k :
  (last_occ A V k = -1 /\ (forall j, (j <= k)%nat -> ~ occurs A V j)) \/
  exists i, last_occ A V k = Z.of_nat i /\ (i <= k)%nat /\ occurs A V i /\
    (forall j, (i < j <= k)%nat -> ~ occurs A V j).
Proof.
  induction k as [|k IH]; simpl.
  - destruct (decide (occurs A V 0)) as [Ho|Ho].
    + right. exists 0%nat. repeat split; try done; lia.
    + left. split; [done|]. intros j Hj. by replace j with 0%nat by lia.
  - destruct (decide (occurs A V (S k))) as [Ho|Ho].
    + right. exists (S k). repeat split; try done; lia.
    + destruct IH as [[E Hn]|(i & E & Hi & Hoi & Hn)].
      * left. split; [done|]. intros j Hj. destruct (decide (j = S k)) as [->|]; [done|]. apply Hn. lia.
      * right. exists i. repeat split; try done; [lia|]. intros j Hj.
        destruct (decide (j = S k)) as [->|]; [done|]. apply Hn. lia.
Qed.

Lemma occurs_lookup A V k : occurs A V k <->
  forall i, (i < length V)%nat -> A !! (k + i)%nat = V !! i.
Proof.
  unfold occurs. split.
  - intros E i Hi. rewrite <- E, lookup_take_lt, lookup_drop by done. done.
  - intros Hl. apply list_eq. intros i. destruct (decide (i < length V)%nat) as [Hi|Hi].
    + rewrite lookup_take_lt, lookup_drop by done. auto.
    + rewrite lookup_take_ge by lia. symmetry. apply lookup_ge_None. lia.
Qed.

Lemma occurs_bound A V k : V <> [] -> occurs A V k -> (k + length V <= length A)%nat.
Proof.
  unfold occurs. intros Hne E. apply (f_equal length) in E. rewrite length_take, length_drop in E.
  assert (0 < length V)%nat by (destruct V; [done|cbn; lia]). lia.
Qed.

Lemma first_occ_none A V k n :
  V <> [] -> (length A < k + length V)%nat -> first_occ A V k n = -1.
Proof.
  intros Hne. revert k. induction n as [|n IH]; intros k Hk; simpl; [done|].
  rewrite decide_False by (intros Ho%occurs_bound; [lia|done]). apply IH. lia.
Qed.

Section Search.
Context (h : store) (arr val : view).
Hypothesis Harr : wf_view h arr.
Hypothesis Hval : wf_view h val.
Hypothesis Hne : (0 < v_len val)%nat.

Let A := contents h arr.
Let V := contents h val.

Lemma val_nonempty : V <> [].
Proof. unfold V. pose proof (length_contents h val Hval) as E. intros E'. rewrite E' in E. simpl in E. lia. Qed.

Lemma length_A : length A = v_len arr.
Proof. by apply length_contents. Qed.
Lemma length_V : length V = v_len val.
Proof. by apply length_contents. Qed.

(** The state of the forward loop: a candidate start [f] whose first [p - f]
    bytes agree, or none. *)
Lemma search_fwd_spec fuel (p : nat) (found : option nat) :
  let start := default p found in
  (start <= p)%nat -> (p <= length A)%nat -> (p - start < length V)%nat ->
  (forall i, (start + i < p)%nat -> A !! (start + i)%nat = V !! i) ->
  ((length A - start) * S (length V) < fuel + (p - start))%nat ->
  search_fwd fuel 1 arr val (Z.of_nat p) (Z.of_nat <$> found) h =
  Done (Ratio (first_occ A V start (length A - start)) 1) h.
Proof.
  intros start. pose proof val_nonempty as HV. pose proof length_A as EA. pose proof length_V as EV.
  subst start. revert p found. induction fuel as [|fuel IH]; intros p found Hsp HsA Hpm Hag Hf.
  { exfalso. assert (length A - default p found = 0 \/ 1 <= length A - default p found)%nat as [E|E] by lia;
      [rewrite E in Hf; lia|nia]. }
  cbn [search_fwd]. unfold blen at 1. destruct (Z.ltb_spec (Z.of_nat p) (Z.of_nat (v_len arr))) as [Hp|Hp].
  2: { rewrite first_occ_none by (done || lia). done. }
  unfold read_at. change (1 =? 1) with true. cbv iota.
  erewrite bind_Done by (by apply get_nat). fold A.
  set (s := default p found) in *.
  assert (Ei : (match Z.of_nat <$> found with None => 0 | Some f => Z.of_nat p - f end) =
               Z.of_nat (p - s)) by (destruct found; simpl in *; lia).
  rewrite Ei. erewrite bind_Done by (by apply get_nat). fold V.
  assert (Ef : default (Z.of_nat p) (Z.of_nat <$> found) = Z.of_nat s) by (by destruct found).
  assert (HA : (S (length A - S s) = length A - s)%nat) by lia.
  case_decide as Hxy.
  - rewrite Ef. destruct (Z.eqb_spec (Z.of_nat p - Z.of_nat s + 1) (blen val)) as [Em|Em]; unfold blen in Em.
    + rewrite <- HA. cbn [first_occ]. rewrite decide_True; [done|]. apply occurs_lookup. intros i Hi.
      destruct (decide (s + i < p)%nat); [auto|]. replace i with (p - s)%nat by lia.
      by replace (s + (p - s))%nat with p by lia.
    + replace (Z.of_nat p + 1) with (Z.of_nat (S p)) by lia.
      change (Some (Z.of_nat s)) with (Z.of_nat <$> Some s). rewrite (IH (S p) (Some s)); [done|simpl; lia..| |].
      * simpl. intros i Hi. destruct (decide (s + i < p)%nat); [auto|]. replace i with (p - s)%nat by lia.
        by replace (s + (p - s))%nat with p by lia.
      * simpl. lia.
  - replace (match Z.of_nat <$> found with Some f => f | None => Z.of_nat p end + 1)
      with (Z.of_nat (S s)) by (destruct found; simpl in *; lia).
    pose proof (IH (S s) None) as IH'. cbn [default fmap option_fmap option_map] in IH'.
    rewrite IH'; [|lia..|nia]; clear IH'.
    rewrite <- HA. cbn [first_occ]. rewrite decide_False; [done|].
    rewrite occurs_lookup. intros Ho. apply Hxy. rewrite <- Ho by lia.
    by replace (s + (p - s))%nat with p by lia.
Qed.

Lemma match_at_spec (p : nat) (j n : nat) : (j + n = length V)%nat ->
  match_at 1 arr val (Z.of_nat p) (Z.of_nat j) n h =
  Done (bool_decide (take n (drop (p + j) A) = drop j V)) h.
Proof.
  pose proof length_V as EV. revert j. induction n as [|n IH]; intros j Hj; cbn [match_at].
  - rewrite (drop_ge V j) by lia. by rewrite bool_decide_eq_true_2.
  - unfold read_at. change (1 =? 1) with true. cbv iota.
    replace (Z.of_nat p + Z.of_nat j) with (Z.of_nat (p + j)) by lia.
    erewrite bind_Done by (by apply get_nat). erewrite bind_Done by (by apply get_nat). fold A V.
    destruct (lookup_lt_is_Some_2 V j ltac:(lia)) as [y Hy]. rewrite (drop_S V y j Hy), Hy.
    case_decide as Hx.
    + replace (Z.of_nat j + 1) with (Z.of_nat (S j)) by lia. rewrite IH by lia. f_equal.
      rewrite (drop_S A y (p + j) Hx). cbn [take]. replace (p + S j)%nat with (S (p + j)) by lia.
      apply bool_decide_ext. split; [congruence|]. by intros [=].
    + rewrite bool_decide_eq_false_2; [done|]. intros E. apply Hx.
      apply (f_equal (fun l => l !! 0%nat)) in E. rewrite lookup_take_lt, lookup_drop in E by lia.
      by rewrite Nat.add_0_r in E.
Qed.

Lemma search_bwd_spec n (p : nat) : (p < n)%nat ->
  search_bwd n 1 arr val (Z.of_nat p) h = Done (Ratio (last_occ A V p) 1) h.
Proof.
  revert p. induction n as [|n IH]; intros p Hp; [lia|]. cbn [search_bwd].
  destruct (Z.ltb_spec (Z.of_nat p) 0); [lia|].
  pose proof (match_at_spec p 0 (length V) eq_refl) as Hm. change (Z.of_nat 0) with 0 in Hm.
  rewrite Nat.add_0_r in Hm. replace (Z.to_nat ((blen val + 1 - 1) / 1)) with (length V).
  2: { rewrite length_V. unfold blen. rewrite Z.div_1_r. lia. }
  erewrite bind_Done by exact Hm. rewrite drop_0.
  destruct (decide (occurs A V p)) as [Ho|Ho].
  - rewrite bool_decide_eq_true_2 by exact Ho. destruct p; cbn [last_occ]; by rewrite decide_True by done.
  - rewrite bool_decide_eq_false_2 by exact Ho.
    destruct p as [|p]; cbn [last_occ]; rewrite decide_False by done; [by destruct n|].
    replace (Z.of_nat (S p) - 1) with (Z.of_nat p) by lia. apply IH. lia.
Qed.
End Search.

(** ** Properties *)

(** [indexOf] finds the first occurrence: searching a non-empty buffer for
    another from a byte offset returns the least index at or after it where the
    needle's bytes stand, or -1 exactly when there is none; the backtracking
    loop always terminates. *)
Theorem indexOf_first `{Base64} h b v (off : nat) :
  wf_view h b -> wf_view h v -> (off < v_len b)%nat -> (0 < v_len v)%nat ->
  blen b <= 2147483647 ->
  exists k, indexOf b (NBuffer v) (IOffset (Some (Z.of_nat off)) None) h = Done (Ratio k 1) h /\
    let A := contents h b in let V := contents h v in
    (k = -1 /\ (forall j, (off <= j)%nat -> ~ occurs A V j) \/
     exists i, k = Z.of_nat i /\ (off <= i)%nat /\ occurs A V i /\
       forall j, (off <= j < i)%nat -> ~ occurs A V j).
Proof.
  intros Hb Hv Ho Hne Hl. unfold blen in Hl.
  exists (first_occ (contents h b) (contents h v) off (length (contents h b) - off)).
  pose proof (length_contents h b Hb) as Eb. pose proof (length_contents h v Hv) as Ev.
  split.
  - unfold indexOf, bidirectionalIndexOf, blen. cbn [fmap option_fmap option_map].
    destruct (Z.eqb_spec (Z.of_nat (v_len b)) 0); [lia|].
    destruct (Z.ltb_spec 2147483647 (Z.of_nat off)); [lia|].
    destruct (Z.ltb_spec (Z.of_nat off) (-2147483648)); [lia|].
    destruct (Z.ltb_spec (Z.of_nat off) 0); [lia|].
    destruct (Z.leb_spec (Z.of_nat (v_len b)) (Z.of_nat off)); [lia|].
    destruct (Z.ltb_spec (Z.of_nat off) 0); [lia|].
    destruct (Z.eqb_spec (Z.of_nat (v_len v)) 0); [lia|].
    unfold arrayIndexOf. cbn [is_ucs2 andb].
    pose proof (search_fwd_spec h b v Hb Hv Hne (S (v_len b) * S (S (v_len v))) off None) as Hs.
    cbn [default fmap option_fmap option_map] in Hs. apply Hs; (lia || nia).
  - destruct (first_occ_spec (contents h b) (contents h v) off (length (contents h b) - off))
      as [[E Hn]|(i & E & Hi & Hoi & Hn)]; rewrite E.
    + left. split; [done|]. intros j Hj Hoc. pose proof Hoc as Hbd%occurs_bound.
      * apply (Hn j); [lia|done].
      * intros E'. rewrite E' in Ev. simpl in Ev. lia.
    + right. exists i. split; [done|]. split; [lia|]. done.
Qed.

(** [lastIndexOf] finds the last occurrence at or before the byte offset
    (clamped so that the needle fits), or returns -1 when there is none. *)
Theorem lastIndexOf_last `{Base64} h b v (off : nat) :
  wf_view h b -> wf_view h v -> (off < v_len b)%nat -> (0 < v_len v <= v_len b)%nat ->
  blen b <= 2147483647 ->
  exists k, lastIndexOf b (NBuffer v) (IOffset (Some (Z.of_nat off)) None) h = Done (Ratio k 1) h /\
    let A := contents h b in let V := contents h v in
    (k = -1 /\ (forall j, (j <= off)%nat -> ~ occurs A V j) \/
     exists i, k = Z.of_nat i /\ (i <= off)%nat /\ occurs A V i /\
       forall j, (i < j <= off)%nat -> ~ occurs A V j).
Proof.
  intros Hb Hv Ho [Hne Hvb] Hl. unfold blen in Hl.
  set (p := Nat.min off (v_len b - v_len v)).
  exists (last_occ (contents h b) (contents h v) p).
  pose proof (length_contents h b Hb) as Eb. pose proof (length_contents h v Hv) as Ev.
  split.
  - unfold lastIndexOf, bidirectionalIndexOf, blen. cbn [fmap option_fmap option_map].
    destruct (Z.eqb_spec (Z.of_nat (v_len b)) 0); [lia|].
    destruct (Z.ltb_spec 2147483647 (Z.of_nat off)); [lia|].
    destruct (Z.ltb_spec (Z.of_nat off) (-2147483648)); [lia|].
    destruct (Z.ltb_spec (Z.of_nat off) 0); [lia|].
    destruct (Z.leb_spec (Z.of_nat (v_len b)) (Z.of_nat off)); [lia|].
    destruct (Z.ltb_spec (Z.of_nat off) 0); [lia|].
    destruct (Z.eqb_spec (Z.of_nat (v_len v)) 0); [lia|].
    unfold arrayIndexOf. cbn [is_ucs2 andb].
    rewrite <- (search_bwd_spec h b v Hb Hv Hne (S (v_len b)) p) by lia. f_equal.
    unfold blen. destr_cmp; lia.
  - assert (Hbd : forall j, occurs (contents h b) (contents h v) j -> (j + v_len v <= v_len b)%nat).
    { intros j Hj%occurs_bound; [lia|]. intros E'. rewrite E' in Ev. simpl in Ev. lia. }
    destruct (last_occ_spec (contents h b) (contents h v) p) as [[E Hn]|(i & E & Hi & Hoi & Hn)]; rewrite E.
    + left. split; [done|]. intros j Hj Hoc. apply (Hn j); [|done]. specialize (Hbd j Hoc). lia.
    + right. exists i. split; [done|]. split; [lia|]. split; [done|].
      intros j Hj Hoc. apply (Hn j); [|done]. specialize (Hbd j Hoc). lia.
Qed.

(** With a two-byte encoding the two directions disagree on the unit: the only
    occurrence of the needle is at byte 4, [indexOf] returns 4 and [lastIndexOf]
    returns 4/2. *)
Theorem ucs2_lastIndexOf_units `{Base64} :
  let h := Store [[1; 2; 3; 4; 5; 6]; [5; 6]] 2 in
  let b := View 0 0 0 6 in let v := View 1 1 0 2 in
  indexOf b (NBuffer v) (IOffset None (Some (js "ucs2"))) h = Done (Ratio 4 1) h /\
  lastIndexOf b (NBuffer v) (IOffset None (Some (js "ucs2"))) h = Done (Ratio 4 2) h.
Proof. vm_compute. done. Qed.

Lemma indexOf_first_witness :
  let h := Store [[1; 1; 2; 1; 1; 2; 3]; [1; 2; 3]] 2 in
  exists k, indexOf (View 0 0 0 7) (NBuffer (View 1 1 0 3)) (IOffset (Some 1) None) h = Done (Ratio k 1) h /\
    let A := contents h (View 0 0 0 7) in let V := contents h (View 1 1 0 3) in
    (k = -1 /\ (forall j, (1 <= j)%nat -> ~ occurs A V j) \/
     exists i, k = Z.of_nat i /\ (1 <= i)%nat /\ occurs A V i /\
       forall j, (1 <= j < i)%nat -> ~ occurs A V j).
Proof.
  intros h. apply (indexOf_first h (View 0 0 0 7) (View 1 1 0 3) 1);
    [vm_decide|vm_decide|simpl; lia|simpl; lia|unfold blen; simpl; lia].
Defined.

Lemma lastIndexOf_last_witness :
  let h := Store [[1; 1; 2; 1; 1; 2; 3]; [1; 2]] 2 in
  exists k, lastIndexOf (View 0 0 0 7) (NBuffer (View 1 1 0 2)) (IOffset (Some 3) None) h = Done (Ratio k 1) h /\
    let A := contents h (View 0 0 0 7) in let V := contents h (View 1 1 0 2) in
    (k = -1 /\ (forall j, (j <= 3)%nat -> ~ occurs A V j) \/
     exists i, k = Z.of_nat i /\ (i <= 3)%nat /\ occurs A V i /\
       forall j, (i < j <= 3)%nat -> ~ occurs A V j).
Proof.
  intros h. apply (lastIndexOf_last h (View 0 0 0 7) (View 1 1 0 2) 3);
    [vm_decide|vm_decide|simpl; lia|simpl; lia|unfold blen; simpl; lia].
Defined.

(** ** concat and fill *)

Lemma list_inserts_block (P c Q : list Z) : (length c <= length Q)%nat ->
  list_inserts (length P) c (P ++ Q) = P ++ c ++ drop (length c) Q.
Proof.
  intros Hl. apply list_eq. intros i.
  destruct (decide (i < length P)%nat) as [H1|H1].
  { rewrite list_lookup_inserts_lt by lia. by rewrite !lookup_app_l by lia. }
  rewrite (lookup_app_r P) by lia. destruct (decide (i < length P + length c)%nat) as [H2|H2].
  - rewrite list_lookup_inserts by (rewrite ?length_app; lia). rewrite lookup_app_l by lia. done.
  - rewrite list_lookup_inserts_ge by lia. rewrite !lookup_app_r by lia.
    rewrite lookup_drop. f_equal. lia.
Qed.

Lemma bind_contents_ext h h1 bufs :
  Forall (fun v => contents h1 v = contents h v) bufs -> bufs ≫= contents h1 = bufs ≫= contents h.
Proof. induction 1 as [|v bufs E _ IH]; [done|]. cbn. rewrite E. f_equal. exact IH. Qed.

(** A buffer that shares nothing with the target keeps its contents. *)
Lemma concat_loop_spec buffer bufs P h :
  wf_view h buffer ->
  Forall (fun v => wf_view h v /\ v_ab v <> v_ab buffer /\ v_id v <> v_id buffer) bufs ->
  (exists Q, contents h buffer = P ++ Q /\
     (length (bufs ≫= contents h) <= length Q)%nat) ->
  exists h', concat_loop buffer (Z.of_nat (length P)) bufs h = Done tt h' /\
    take (length P + length (bufs ≫= contents h)) (contents h' buffer) =
      P ++ (bufs ≫= contents h) /\ wf_view h' buffer /\
    (forall v, wf_view h v -> v_ab v <> v_ab buffer -> contents h' v = contents h v).
Proof.
  revert P h. induction bufs as [|v bufs IH]; intros P h Hw HF (Q & EQ & HQ).
  { exists h. simpl. rewrite EQ, Nat.add_0_r, take_app_length, app_nil_r. done. }
  apply Forall_cons_1 in HF as [(Hwv & Hab & Hid) HF]. cbn [concat_loop mbind list_bind] in *.
  set (c := contents h v) in *. assert (Hc : length c = v_len v) by (by apply length_contents).
  rewrite length_app in HQ. assert (Hlen := length_contents h buffer Hw). rewrite EQ, length_app in Hlen.
  assert (Hcopy : exists n, copy v buffer (Some (Z.of_nat (length P))) None None h =
                  Done n (write_bytes buffer (length P) c h)).
  { destruct (decide (v_len v = 0%nat)) as [E0|E0].
    - exists 0. destruct c as [|]; [|simpl in Hc; lia]. rewrite write_bytes_nil.
      unfold copy. assert (blen v = 0) as -> by (unfold blen; lia). done.
    - exists (copy_count v buffer (Z.of_nat (length P)) 0 (blen v)).
      change (copy v buffer (Some (Z.of_nat (length P))) None None)
        with (copy v buffer (Some (Z.of_nat (length P))) (Some 0) (Some (blen v))).
      rewrite copy_spec_gen by (auto; unfold blen; lia || congruence).
      rewrite Nat2Z.id. do 2 f_equal. unfold window. rewrite drop_0. fold c. apply take_ge.
      unfold copy_count, blen. lia. }
  destruct Hcopy as [n Hcopy]. erewrite bind_Done by exact Hcopy.
  set (h1 := write_bytes buffer (length P) c h).
  assert (Hcb : Forall byte c) by (by apply contents_bytes).
  assert (Hpres : forall u, wf_view h u -> v_ab u <> v_ab buffer -> contents h1 u = contents h u).
  { intros u _ Hu. by apply contents_write_other. }
  assert (Hbind : bufs ≫= contents h1 = bufs ≫= contents h).
  { apply bind_contents_ext. eapply Forall_impl; [|exact HF]. intros u (Hu & Hau & _). auto. }
  replace (Z.of_nat (length P) + blen v) with (Z.of_nat (length (P ++ c)))
    by (rewrite length_app; unfold blen; lia).
  destruct (IH (P ++ c) h1) as (h' & E & Hct & Hw' & Hpr).
  - by apply wf_write_bytes.
  - eapply Forall_impl; [|exact HF]. intros u (Hu & Hau & Hiu). split; [by apply wf_write_bytes|done].
  - exists (drop (length c) Q). unfold h1. rewrite contents_write_bytes by (done || lia).
    rewrite EQ, list_inserts_block by lia. rewrite <- app_assoc. split; [done|].
    fold h1. rewrite Hbind, length_drop. lia.
  - exists h'. split; [done|]. rewrite Hbind in Hct. rewrite length_app in Hct |- *.
    rewrite Nat.add_assoc, Hct, app_assoc. split; [done|]. split; [done|].
    intros u Hu Hau. rewrite Hpr by (done || by apply wf_write_bytes). by apply Hpres.
Qed.

Lemma foldl_blen h bufs acc : Forall (wf_view h) bufs ->
  foldl (fun acc b => acc + blen b) acc bufs = acc + Z.of_nat (length (bufs ≫= contents h)).
Proof.
  intros HF. revert acc. induction HF as [|v bufs Hv _ IH]; intros acc; cbn [foldl mbind list_bind].
  - simpl. lia.
  - rewrite IH, length_app, length_contents by done. unfold blen. lia.
Qed.

Lemma new_array_lookup h n ab arr :
  st_arrays h !! ab = Some arr -> (st_arrays h ++ [replicate n 0]) !! ab = Some arr.
Proof. intros E. by apply lookup_app_l_Some. Qed.

(** [Buffer.concat(list)] returns a fresh buffer that holds the contents of the
    buffers one after the other, and leaves the contents of every existing
    buffer as they were. *)
Theorem concat_contents h bufs :
  bufs <> [] -> Forall (wf_view h) bufs -> Forall (fun v => v_id v < st_next h)%nat bufs ->
  Z.of_nat (length (bufs ≫= contents h)) < kMaxLength ->
  exists b h', concat bufs None h = Done b h' /\ wf_view h' b /\
    contents h' b = bufs ≫= contents h /\
    forall v, wf_view h v -> contents h' v = contents h v.
Proof.
  intros Hne HF Hid Hl. set (n := length (bufs ≫= contents h)) in *. unfold kMaxLength in Hl.
  set (h1 := Store (st_arrays h ++ [replicate n 0]) (S (st_next h))).
  set (b := View (st_next h) (length (st_arrays h)) 0 n).
  assert (Ealloc : allocUnsafe (Z.of_nat n) h = Done b h1).
  { unfold allocUnsafe, assertSize, checked, createBuffer, bind, ret, new_array, new_view, kMaxLength.
    destruct (Z.ltb_spec (Z.of_nat n) 0); [lia|].
    destruct (Z.leb_spec 2147483647 (Z.of_nat n)); [lia|]. rewrite !(toInt32_id (Z.of_nat n)) by lia.
    destruct (Z.ltb_spec 2147483647 (Z.of_nat n)); [lia|].
    destruct (Z.ltb_spec (Z.of_nat n) 0); [lia|]. rewrite Nat2Z.id. done. }
  assert (Hold : forall v, wf_view h v -> contents h1 v = contents h v /\ wf_view h1 v /\ v_ab v <> v_ab b).
  { intros v (arr & E & Hal & Hab). unfold contents, wf_view, h1. simpl.
    rewrite E, (new_array_lookup h n _ arr E). split; [done|]. split; [by exists arr|].
    apply lookup_lt_Some in E. lia. }
  assert (Eb : bufs ≫= contents h1 = bufs ≫= contents h).
  { apply bind_contents_ext. eapply Forall_impl; [|exact HF]. intros v Hv. by apply Hold. }
  assert (Hw1 : wf_view h1 b).
  { exists (replicate n 0). unfold h1. simpl. rewrite lookup_app_r, Nat.sub_diag by lia.
    split; [done|]. rewrite length_replicate. split; [lia|]. apply Forall_replicate. unfold byte. lia. }
  destruct (concat_loop_spec b bufs [] h1) as (h' & E & Ht & Hw & Hpr).
  - done.
  - apply Forall_and; [|apply Forall_and].
    + eapply Forall_impl; [|exact HF]. intros v Hv. by apply Hold.
    + eapply Forall_impl; [|exact HF]. intros v Hv. by apply Hold.
    + eapply Forall_impl; [|exact Hid]. simpl. intros v Hv. lia.
  - exists (contents h1 b). split; [done|]. rewrite length_contents, Eb by done. simpl. lia.
  - exists b, h'. split; [|split; [done|split]].
    + unfold concat. destruct bufs as [|v bufs']; [done|]. rewrite (foldl_blen h), Z.add_0_l by done.
      erewrite bind_Done by exact Ealloc. erewrite bind_Done by exact E. done.
    + rewrite Eb in Ht. simpl in Ht. rewrite take_ge in Ht; [done|].
      rewrite length_contents by done. simpl. lia.
    + intros v Hv. destruct (Hold v Hv) as (E1 & Hv1 & Hab). rewrite Hpr by done. done.
Qed.

(** [fill(n, start, end)] stores [n & 255] in exactly the bytes from [start] to
    [end] and returns the buffer; an empty range changes nothing. *)
Theorem fill_number_range `{Base64} h b n s e :
  wf_view h b -> 0 <= s <= e -> e <= blen b -> blen b < 2 ^ 32 ->
  exists h', fill b (FillNum n) (FillRange (Some s) (Some e) None) h = Done b h' /\
    contents h' b = take (Z.to_nat s) (contents h b) ++
                    replicate (Z.to_nat (e - s)) (n mod 256) ++ drop (Z.to_nat e) (contents h b).
Proof.
  intros Hw Hs He Hl. pose proof (length_contents h b Hw) as Hlc. unfold blen in *.
  unfold fill. cbn [fill_parse_other]. unfold blen.
  destruct ((s <? 0) || _ || _) eqn:E1.
  { rewrite !orb_true_iff, !Z.ltb_lt in E1. lia. }
  destruct (Z.leb_spec e s) as [Hes|Hes].
  { exists h. split; [done|]. assert (e = s) as -> by lia. rewrite Z.sub_diag. simpl.
    by rewrite take_drop. }
  rewrite js_and_255. cbn [default from_option id]. rewrite !toUint32_id by lia. unfold fill_num.
  assert (Hm : mfor s (Z.to_nat (e - s)) (fun i => bset b i (n mod 256)) h =
    Done tt (write_bytes b (Z.to_nat s)
      ((fun _ : Z => toUint8 (n mod 256)) <$> seqZ s (Z.of_nat (Z.to_nat (e - s)))) h)).
  { apply (mfor_bset b (fun _ => n mod 256) 0 s); unfold blen; lia. }
  erewrite bind_Done by exact Hm. clear Hm. eexists. split; [done|].
  assert (Hrep : (fun _ : Z => toUint8 (n mod 256)) <$> seqZ s (Z.of_nat (Z.to_nat (e - s))) =
                 replicate (Z.to_nat (e - s)) (n mod 256)).
  { rewrite toUint8_id by (apply Z.mod_pos_bound; lia). 
    apply list_eq. intros i. rewrite list_lookup_fmap.
    destruct (decide (i < Z.to_nat (e - s))%nat).
    - rewrite lookup_seqZ_lt, lookup_replicate_2 by lia. done.
    - rewrite lookup_seqZ_ge by lia. symmetry. apply lookup_replicate_None. lia. }
  rewrite Hrep, contents_write_bytes by (done || rewrite length_replicate; lia).
  pose proof (list_inserts_block (take (Z.to_nat s) (contents h b))
    (replicate (Z.to_nat (e - s)) (n mod 256)) (drop (Z.to_nat s) (contents h b))) as Hi.
  rewrite take_drop, length_take, length_drop, length_replicate, drop_drop in Hi.
  replace (Z.to_nat s `min` length (contents h b))%nat with (Z.to_nat s) in Hi by lia.
  rewrite Hi by lia. do 3 f_equal. lia.
Qed.

Lemma concat_contents_witness :
  exists b h', concat [ex_view2; ex_view; ex_view2] None ex_store = Done b h' /\ wf_view h' b /\
    contents h' b = [7; 8; 1; 2; 3; 4; 5; 6; 7; 8] /\
    forall v, wf_view ex_store v -> contents h' v = contents ex_store v.
Proof.
  apply (concat_contents ex_store [ex_view2; ex_view; ex_view2]);
    [discriminate|vm_decide|vm_decide|reflexivity].
Defined.

Lemma fill_number_range_witness :
  exists h', fill ex_view (FillNum 511) (FillRange (Some 2) (Some 4) None) ex_store = Done ex_view h' /\
    contents h' ex_view = [1; 2; 255; 255; 5; 6].
Proof.
  apply (fill_number_range ex_store ex_view 511 2 4); [vm_decide|lia|vm_decide|reflexivity].
Defined.
