(* ===== verification/JsRegex.v ===== *)
(** The regular expressions of js-yaml, as data, with a matcher by derivatives. *)
From S2P Require Import Prelude JsString.

Inductive regex :=
  | RNone
  | REps
  | RClass (p : Z -> bool)
  | RSeq (r s : regex)
  | RAlt (r s : regex)
  | RStar (r : regex).

Fixpoint nullable (r : regex) : bool :=
  match r with
  | RNone | RClass _ => false
  | REps | RStar _ => true
  | RSeq r s => nullable r && nullable s
  | RAlt r s => nullable r || nullable s
  end.

(** Smart constructors keep the derivatives small. *)
Definition rseq (r s : regex) : regex :=
  match r, s with RNone, _ | _, RNone => RNone | REps, _ => s | _, _ => RSeq r s end.
Definition ralt (r s : regex) : regex :=
  match r, s with RNone, _ => s | _, RNone => r | _, _ => RAlt r s end.

Fixpoint deriv (c : Z) (r : regex) : regex :=
  match r with
  | RNone | REps => RNone
  | RClass p => if p c then REps else RNone
  | RSeq r s => let d := rseq (deriv c r) s in
                if nullable r then ralt d (deriv c s) else d
  | RAlt r s => ralt (deriv c r) (deriv c s)
  | RStar r' => rseq (deriv c r') r
  end.

(** [/^r$/.test(s)] *)
Fixpoint full_match (r : regex) (s : jsstr) : bool :=
  match s with
  | [] => nullable r
  | c :: s' => full_match (deriv c r) s'
  end.

(** [/^r/.test(s)] *)
Fixpoint prefix_match (r : regex) (s : jsstr) : bool :=
  nullable r || match s with [] => false | c :: s' => prefix_match (deriv c r) s' end.

(** ** Building blocks *)

Definition rchar (c : Z) : regex := RClass (fun x => x =? c).
Definition rrange (a b : Z) : regex := RClass (fun x => (a <=? x) && (x <=? b)).
Definition rany (l : string) : regex := RClass (fun x => bool_decide (x ∈ js l)).
Definition ropt (r : regex) : regex := RAlt r REps.
Definition rplus (r : regex) : regex := RSeq r (RStar r).
Fixpoint rlit (s : jsstr) : regex :=
  match s with [] => REps | [c] => rchar c | c :: s' => RSeq (rchar c) (rlit s') end.
Fixpoint rseqs (l : list regex) : regex :=
  match l with [] => REps | [r] => r | r :: l' => RSeq r (rseqs l') end.
Fixpoint ralts (l : list regex) : regex :=
  match l with [] => RNone | [r] => r | r :: l' => RAlt r (ralts l') end.

Definition rdigit : regex := rrange 48 57.

(** ** The language of an expression, and the matcher's correctness *)

Inductive lang : regex -> jsstr -> Prop :=
  | L_eps : lang REps []
  | L_class p c : p c = true -> lang (RClass p) [c]
  | L_seq r s x y : lang r x -> lang s y -> lang (RSeq r s) (x ++ y)
  | L_altl r s x : lang r x -> lang (RAlt r s) x
  | L_altr r s x : lang s x -> lang (RAlt r s) x
  | L_star0 r : lang (RStar r) []
  | L_star r x y : lang r x -> lang (RStar r) y -> lang (RStar r) (x ++ y).
#[export] Hint Constructors lang : js.

Lemma lang_none x : ~ lang RNone x.
Proof. inversion 1. Qed.

Lemma lang_eps x : lang REps x <-> x = [].
Proof. split; [by inversion 1|]. intros ->. constructor. Qed.

Lemma lang_seq r s z : lang (RSeq r s) z <-> exists x y, z = x ++ y /\ lang r x /\ lang s y.
Proof. split; [inversion 1; subst; eauto|]. intros (x & y & -> & ? & ?). by constructor. Qed.

Lemma lang_alt r s z : lang (RAlt r s) z <-> lang r z \/ lang s z.
Proof. split; [inversion 1; subst; eauto|]. intros [?|?]; eauto with js. Qed.

Lemma lang_rseq r s z : lang (rseq r s) z <-> lang (RSeq r s) z.
Proof.
  assert (HL : forall t, lang (RSeq RNone t) z -> lang RNone z)
    by (intros t (x & y & _ & []%lang_none & _)%lang_seq).
  assert (HR : forall t, lang (RSeq t RNone) z -> lang RNone z)
    by (intros t (x & y & _ & _ & []%lang_none)%lang_seq).
  assert (HE : forall t, lang (RSeq REps t) z <-> lang t z).
  { intros t. rewrite lang_seq. split; [by intros (x & y & -> & ->%lang_eps & H)|].
    intros H. exists [], z. eauto with js. }
  destruct r, s; simpl; rewrite ?HE; try done; split;
    (by intros []%lang_none) || (by intros ?%HL) || (by intros ?%HR).
Qed.

Lemma lang_ralt r s z : lang (ralt r s) z <-> lang (RAlt r s) z.
Proof.
  rewrite lang_alt. destruct r, s; simpl; rewrite ?lang_alt; split; try tauto;
    try (intros [?%lang_none|?]; done); try (intros [?|?%lang_none]; done).
Qed.

Lemma nullable_spec r : nullable r = true <-> lang r [].
Proof.
  induction r; simpl.
  - split; [done|by intros ?%lang_none].
  - split; [constructor|done].
  - split; [done|inversion 1].
  - rewrite andb_true_iff, lang_seq, IHr1, IHr2. split.
    + intros [? ?]. by exists [], [].
    + intros (x & y & E & ? & ?). symmetry in E. apply app_nil in E as [-> ->]. done.
  - by rewrite orb_true_iff, lang_alt, IHr1, IHr2.
  - split; [constructor|done].
Qed.

(** A non-empty word of [r*] starts with a non-empty word of [r]. *)
Lemma lang_star_cons r c z :
  lang (RStar r) (c :: z) <-> exists x y, z = x ++ y /\ lang r (c :: x) /\ lang (RStar r) y.
Proof.
  split.
  - remember (RStar r) as q eqn:Eq. remember (c :: z) as w eqn:Ew. intros H. revert z Eq Ew.
    induction H as [| | | | |?|r' x y Hx _ Hy IH]; intros z Eq Ew; try done.
    injection Eq as ->. destruct x as [|c' x]; simpl in Ew.
    + by apply IH.
    + injection Ew as -> <-. by exists x, y.
  - intros (x & y & -> & Hx & Hy). change (c :: x ++ y) with ((c :: x) ++ y). by constructor.
Qed.

Lemma deriv_spec c r z : lang (deriv c r) z <-> lang r (c :: z).
Proof.
  revert z. induction r as [| |p|r IHr s IHs|r IHr s IHs|r IHr]; intros z; simpl.
  - split; by intros ?%lang_none.
  - split; [by intros ?%lang_none|inversion 1].
  - destruct (p c) eqn:E.
    + rewrite lang_eps. split; [intros ->; by constructor|by inversion 1].
    + split; [by intros ?%lang_none|]. inversion 1; congruence.
  - assert (Hd : lang (rseq (deriv c r) s) z <-> exists x y, z = x ++ y /\ lang r (c :: x) /\ lang s y).
    { rewrite lang_rseq, lang_seq. by setoid_rewrite IHr. }
    assert (Hs : lang (RSeq r s) (c :: z) <->
      (exists x y, z = x ++ y /\ lang r (c :: x) /\ lang s y) \/ (lang r [] /\ lang s (c :: z))).
    { rewrite lang_seq. split.
      - intros ([|c' x] & y & E & Hx & Hy); simpl in E; [right; by rewrite E|].
        injection E as -> ->. left. by exists x, y.
      - intros [(x & y & -> & Hx & Hy)|[Hx Hy]]; [by exists (c :: x), y|by exists [], (c :: z)]. }
    rewrite Hs, <- Hd, <- nullable_spec, <- IHs. destruct (nullable r).
    + rewrite lang_ralt, lang_alt. intuition.
    + intuition done.
  - by rewrite lang_ralt, !lang_alt, IHr, IHs.
  - rewrite lang_rseq, lang_seq, lang_star_cons. by setoid_rewrite IHr.
Qed.

(** The matcher decides the language. *)
Lemma full_match_spec r s : full_match r s = true <-> lang r s.
Proof.
  revert r. induction s as [|c s IH]; intros r; simpl; [apply nullable_spec|].
  by rewrite IH, deriv_spec.
Qed.
