(* ===== verification/JsNumber.v ===== *)
(** JavaScript numbers: IEEE 754 doubles as dyadic rationals, the roundings of
    [parseInt], [parseFloat], [+] and [*], and [toString]. *)
From S2P Require Import Prelude JsString.

(** [Fin m e] is [m * 2 ^ e] with [m] odd; the zeros are apart. *)
Inductive num := NaN | Inf (neg : bool) | Zero (neg : bool) | Fin (m e : Z).

#[global] Instance num_eq_dec : EqDecision num.
Proof. solve_decision. Defined.

(** ** Rounding *)

Fixpoint odd_part (p : positive) (e : Z) : positive * Z :=
  match p with xO q => odd_part q (e + 1) | _ => (p, e) end.

(** The double [m * 2 ^ e], exact; [neg] is the sign of a zero. *)
Definition make (neg : bool) (m e : Z) : num :=
  match m with
  | Z0 => Zero neg
  | Zpos p => let '(q, e) := odd_part p e in Fin (Zpos q) e
  | Zneg p => let '(q, e) := odd_part p e in Fin (Zneg q) e
  end.

(** Nearest, ties to even, of [a / 2 ^ k]. *)
Definition round_shift (a k : Z) : Z :=
  let q := a / 2 ^ k in
  let r := a mod 2 ^ k in
  let half := 2 ^ (k - 1) in
  if r <? half then q else if half <? r then q + 1 else if Z.even q then q else q + 1.

(** Round the exact value [m * 2 ^ e] to a double. *)
Definition round (neg : bool) (m e : Z) : num :=
  if m =? 0 then Zero neg
  else
    let a := Z.abs m in
    let k := Z.max (Z.log2 a + 1 - 53) (-1074 - e) in
    let '(a, e) := if k <=? 0 then (a, e) else (round_shift a k, e + k) in
    if 1024 <=? Z.log2 a + e then Inf (m <? 0)
    else make (m <? 0) (if m <? 0 then - a else a) e.

Definition of_Z (z : Z) : num := round false z 0.

(** The double nearest to [n / d]: two guard bits and a sticky bit. *)
Definition round_ratio (neg : bool) (n d : Z) : num :=
  if n =? 0 then Zero neg
  else
    let sh := Z.max 0 (56 + Z.log2 d - Z.log2 n) in
    let q := Z.shiftl n sh / d in
    let sticky := if Z.shiftl n sh mod d =? 0 then 0 else 1 in
    round neg ((if neg then -1 else 1) * (2 * q + sticky)) (- sh - 1).

(** [d * 10 ^ x] *)
Definition of_decimal (neg : bool) (d x : Z) : num :=
  if 0 <=? x then round_ratio neg (d * 10 ^ x) 1 else round_ratio neg d (10 ^ (- x)).

(** ** Arithmetic *)

Definition neg (x : num) : num :=
  match x with
  | NaN => NaN
  | Inf s => Inf (negb s)
  | Zero s => Zero (negb s)
  | Fin m e => Fin (- m) e
  end.

Definition is_neg (x : num) : bool :=
  match x with NaN => false | Inf s | Zero s => s | Fin m _ => m <? 0 end.

Definition mul (x y : num) : num :=
  match x, y with
  | NaN, _ | _, NaN => NaN
  | Inf _, Zero _ | Zero _, Inf _ => NaN
  | Inf s, z | z, Inf s => Inf (xorb s (is_neg z))
  | Zero s, z | z, Zero s => Zero (xorb s (is_neg z))
  | Fin m e, Fin m' e' => round (xorb (m <? 0) (m' <? 0)) (m * m') (e + e')
  end.

Definition add (x y : num) : num :=
  match x, y with
  | NaN, _ | _, NaN => NaN
  | Inf s, Inf s' => if Bool.eqb s s' then Inf s else NaN
  | Inf s, _ | _, Inf s => Inf s
  | Zero s, Zero s' => Zero (s && s')
  | Zero _, z | z, Zero _ => z
  | Fin m e, Fin m' e' =>
      let lo := Z.min e e' in
      round false (m * 2 ^ (e - lo) + m' * 2 ^ (e' - lo)) lo
  end.

(** [x < y]; a NaN compares with nothing. *)
Definition num_lt (x y : num) : bool :=
  match x, y with
  | NaN, _ | _, NaN => false
  | Inf a, Inf b => a && negb b
  | Inf a, _ => a
  | _, Inf b => negb b
  | Zero _, Zero _ => false
  | Zero _, Fin m _ => 0 <? m
  | Fin m _, Zero _ => m <? 0
  | Fin m e, Fin m' e' => let d := Z.min e e' in m * 2 ^ (e - d) <? m' * 2 ^ (e' - d)
  end.

(** [x % 1 === 0] *)
Definition is_integral (x : num) : bool :=
  match x with Zero _ => true | Fin _ e => 0 <=? e | _ => false end.

(** The integer a number with [is_integral] is. *)
Definition to_Z (x : num) : Z := match x with Fin m e => m * 2 ^ e | _ => 0 end.

Definition isNegativeZero (x : num) : bool := match x with Zero s => s | _ => false end.

(** ** Parsing *)

(** [parseInt(s, radix)] *)
Definition parseInt_num (s : jsstr) (radix : Z) : num :=
  match parseInt s radix with
  | None => NaN
  | Some (s, m) => if s then neg (of_Z m) else of_Z m
  end.

(** The digits at the front of a string and what follows them. *)
Fixpoint span_digits (s : jsstr) : list Z * jsstr :=
  match s with
  | c :: s' => if (48 <=? c) && (c <=? 57) then
                 let '(ds, r) := span_digits s' in (c - 48 :: ds, r) else ([], s)
  | [] => ([], [])
  end.

(** The exponent part of a decimal literal, 0 when there is none. *)
Definition parse_exponent (s : jsstr) : Z :=
  match s with
  | c :: s' =>
      if (c =? 101) || (c =? 69) then
        let '(sgn, s') := match s' with
                          | 45 :: r => (-1, r) | 43 :: r => (1, r) | r => (1, r) end in
        sgn * digits_value 10 (fst (span_digits s'))
      else 0
  | [] => 0
  end.

(** [parseFloat(s)]: the longest prefix that is a decimal literal. *)
Definition parseFloat (s : jsstr) : num :=
  let s := trim_left s in
  let '(sgn, s) := match s with
                   | 45 :: r => (true, r) | 43 :: r => (false, r) | r => (false, r) end in
  if bool_decide (take 8 s = js "Infinity") then Inf sgn
  else
    let '(ip, r) := span_digits s in
    let '(fp, r) := match r with 46 :: r' => span_digits r' | _ => ([], r) end in
    match ip ++ fp with
    | [] => NaN
    | ds => of_decimal sgn (digits_value 10 ds) (parse_exponent r - Z.of_nat (length fp))
    end.

(** ** [toString(10)] *)

(** Position of the decimal point: [10 ^ (n - 1) <= m * 2 ^ e < 10 ^ n]. *)
Fixpoint down_to (fuel : nat) (m d n : Z) : Z :=
  match fuel with
  | O => n
  | S f => if d <=? m * 10 then n else down_to f (m * 10) d (n - 1)
  end.

Definition point (m e : Z) : Z :=
  if 0 <=? e then slen (digits 10 (m * 2 ^ e))
  else
    let i := m / 2 ^ (- e) in
    if 0 <? i then slen (digits 10 i) else down_to 400 m (2 ^ (- e)) 0.

(** The closest [k]-digit decimal [s * 10 ^ x] that rounds to the number. *)
Definition try_digits (m e n k : Z) : option (Z * Z) :=
  let x := n - k in
  let a := m * 2 ^ Z.max 0 e * 10 ^ Z.max 0 (- x) in
  let d := 2 ^ Z.max 0 (- e) * 10 ^ Z.max 0 x in
  let lo := a / d in
  let ok s := bool_decide (of_decimal false s x = Fin m e) in
  let near_lo := 2 * (a - lo * d) <=? d in
  let hi := if lo + 1 =? 10 ^ k then (10 ^ (k - 1), x + 1) else (lo + 1, x) in
  if near_lo && ok lo then Some (lo, x)
  else if ok (lo + 1) then Some hi
  else if ok lo then Some (lo, x) else None.

Fixpoint shortest (fuel : nat) (m e n k : Z) : Z * Z :=
  match try_digits m e n k, fuel with
  | Some r, _ => r
  | None, S f => shortest f m e n (k + 1)
  | None, O => (m * 2 ^ Z.max 0 e, 0)
  end.

Definition zeros (n : Z) : jsstr := replicate (Z.to_nat n) 48.

(** The layout of the digits [s] with the point after [n] digits. *)
Definition layout (s : jsstr) (n : Z) : jsstr :=
  let k := slen s in
  if (k <=? n) && (n <=? 21) then s ++ zeros (n - k)
  else if (0 <? n) && (n <=? 21) then take (Z.to_nat n) s ++ 46 :: drop (Z.to_nat n) s
  else if (-6 <? n) && (n <=? 0) then js "0." ++ zeros (- n) ++ s
  else
    let ex := (if n - 1 <? 0 then [45] else [43]) ++ digits 10 (Z.abs (n - 1)) in
    match s with
    | [d] => d :: 101 :: ex
    | d :: r => d :: 46 :: r ++ 101 :: ex
    | [] => []
    end.

Definition pos_to_string (m e : Z) : jsstr :=
  let n := point m e in
  let '(s, x) := shortest 17 m e n 1 in
  layout (digits 10 s) (slen (digits 10 s) + x).

(** Integers up to [2 ^ 53] have their decimal digits. *)
Definition toString10 (x : num) : jsstr :=
  match x with
  | NaN => js "NaN"
  | Inf s => (if s then [45] else []) ++ js "Infinity"
  | Zero _ => [48]
  | Fin m e =>
      if (0 <=? e) && (Z.abs (m * 2 ^ e) <=? 2 ^ 53) then int_to_string 10 (m * 2 ^ e)
      else (if m <? 0 then [45] else []) ++ pos_to_string (Z.abs m) e
  end.

(** [x.toString(radix)] of an integral number, for a power of two. *)
Definition toString_radix (radix : Z) (x : num) : jsstr := int_to_string radix (to_Z x).

(** ** Lemmas: integers below [2 ^ 53] are exact *)

Lemma odd_part_spec p e : let '(q, e') := odd_part p e in
  e <= e' /\ Zpos p = Zpos q * 2 ^ (e' - e).
Proof.
  revert e. induction p as [p IH|p IH|]; intros e; simpl.
  - split; [lia|]. by rewrite Z.sub_diag, Z.mul_1_r.
  - specialize (IH (e + 1)). destruct (odd_part p (e + 1)) as [q e']. destruct IH as [H1 H2].
    split; [lia|]. rewrite (Pos2Z.inj_xO p), H2.
    replace (e' - e) with (Z.succ (e' - (e + 1))) by lia. rewrite Z.pow_succ_r by lia. ring.
  - split; [lia|]. by rewrite Z.sub_diag.
Qed.

Definition safe_int (z : Z) : Prop := - 2 ^ 53 < z < 2 ^ 53.

Lemma of_Z_make z : safe_int z -> of_Z z = make false z 0.
Proof.
  intros Hz. unfold of_Z, round. destruct (Z.eqb_spec z 0) as [->|Hne]; [done|].
  assert (Hl : 0 <= Z.log2 (Z.abs z) < 53).
  { split; [apply Z.log2_nonneg|]. apply Z.log2_lt_pow2; unfold safe_int in Hz; lia. }
  destruct (Z.leb_spec (Z.max (Z.log2 (Z.abs z) + 1 - 53) (-1074 - 0)) 0); [|lia].
  destruct (Z.leb_spec 1024 (Z.log2 (Z.abs z) + 0)); [lia|].
  destruct (Z.ltb_spec z 0); [replace (- Z.abs z) with z by lia|replace (Z.abs z) with z by lia];
    by destruct z.
Qed.

Lemma of_Z_cases z : safe_int z ->
  (z = 0 /\ of_Z z = Zero false) \/
  (z <> 0 /\ exists m e, of_Z z = Fin m e /\ 0 <= e /\ m * 2 ^ e = z).
Proof.
  intros Hz. rewrite of_Z_make by done. destruct z as [|p|p]; simpl; [by left|right|right];
    (split; [done|]); pose proof (odd_part_spec p 0) as Ho;
    destruct (odd_part p 0) as [q e]; destruct Ho as [H1 H2]; rewrite Z.sub_0_r in H2;
    do 2 eexists; (split; [done|]); split; [done| |done|];
    rewrite ?Pos2Z.opp_pos, <- ?Pos2Z.opp_pos; lia.
Qed.

Lemma to_Z_of_Z z : safe_int z -> to_Z (of_Z z) = z.
Proof.
  intros Hz. destruct (of_Z_cases z Hz) as [[-> ->]|(_ & m & e & -> & _ & <-)]; done.
Qed.

Lemma is_integral_of_Z z : safe_int z -> is_integral (of_Z z) = true.
Proof.
  intros Hz. destruct (of_Z_cases z Hz) as [[_ ->]|(_ & m & e & -> & He & _)]; [done|].
  simpl. lia.
Qed.

Lemma toString10_of_Z z : safe_int z -> toString10 (of_Z z) = int_to_string 10 z.
Proof.
  intros Hz. destruct (of_Z_cases z Hz) as [[-> ->]|(_ & m & e & -> & He & E)]; [done|].
  unfold toString10. rewrite E. unfold safe_int in Hz.
  destruct (Z.leb_spec 0 e); [|lia]. destruct (Z.leb_spec (Z.abs z) (2 ^ 53)); [done|lia].
Qed.

Lemma neg_of_Z z : safe_int z -> z <> 0 -> neg (of_Z z) = of_Z (- z).
Proof.
  intros Hz Hne. rewrite !of_Z_make by (unfold safe_int in *; lia).
  destruct z as [|p|p]; simpl; [done| |]; by destruct (odd_part p 0).
Qed.

Lemma odd_part_idem p e : let '(q, e') := odd_part p e in odd_part q e' = (q, e').
Proof. revert e. induction p as [p IH|p IH|]; intros e; simpl; [done|apply IH|done]. Qed.

Lemma make_of_Z b m e z : safe_int z -> of_Z z = Fin m e -> make b m e = Fin m e.
Proof.
  intros Hz. rewrite of_Z_make by done. destruct z as [|p|p]; simpl; [done| |];
    pose proof (odd_part_idem p 0) as Hi; destruct (odd_part p 0) as [q e']; intros [= <- <-]; simpl; by rewrite Hi.
Qed.

(** The significand of a safe integer is not rounded. *)
Lemma round_exact b m e z : safe_int z -> of_Z z = Fin m e -> round b m e = Fin m e.
Proof.
  intros Hz E. destruct (of_Z_cases z Hz) as [[_ E0]|(Hne & m' & e' & E' & He & Hm)]; [by rewrite E0 in E|].
  rewrite E' in E. injection E as -> ->. pose proof (make_of_Z (m <? 0) m e z Hz E') as Hmk.
  assert (m <> 0) by (intros ->; lia). unfold round. destruct (Z.eqb_spec m 0); [done|].
  assert (Hl : Z.log2 (Z.abs m) + e < 53).
  { rewrite Z.add_comm, <- (Z.log2_mul_pow2 (Z.abs m) e) by lia. rewrite <- (Z.abs_eq (2 ^ e)) by lia.
    rewrite <- Z.abs_mul, Hm. apply Z.log2_lt_pow2; unfold safe_int in Hz; lia. }
  pose proof (Z.log2_nonneg (Z.abs m)).
  destruct (Z.leb_spec (Z.max (Z.log2 (Z.abs m) + 1 - 53) (-1074 - e)) 0); [|lia].
  destruct (Z.leb_spec 1024 (Z.log2 (Z.abs m) + e)); [lia|].
  destruct (Z.ltb_spec m 0); [replace (- Z.abs m) with m by lia|replace (Z.abs m) with m by lia]; done.
Qed.

Lemma mul_sign z : safe_int z -> mul (of_Z 1) (of_Z z) = of_Z z.
Proof.
  intros Hz. destruct (of_Z_cases z Hz) as [[-> _]|(Hne & m & e & E & He & Hm)]; [done|].
  rewrite E. change (of_Z 1) with (Fin 1 0). cbn [mul]. rewrite Z.mul_1_l, Z.add_0_l.
  by apply (round_exact _ m e z).
Qed.

Lemma mul_sign_neg z : safe_int z -> z <> 0 -> mul (of_Z (-1)) (of_Z z) = of_Z (- z).
Proof.
  intros Hz Hne. pose proof (neg_of_Z z Hz Hne) as Hn.
  destruct (of_Z_cases z Hz) as [[-> _]|(_ & m & e & E & He & Hm)]; [done|].
  rewrite E in Hn |- *. cbn [neg] in Hn. change (of_Z (-1)) with (Fin (-1) 0). cbn [mul].
  rewrite Z.add_0_l, <- Hn. replace (-1 * m) with (- m) by lia.
  apply (round_exact _ _ _ (- z)); [unfold safe_int in *; lia|done].
Qed.
