(* ===== verification/JsArith.v ===== *)
(** JavaScript numbers: the operators the floating-point encoder of Buffer uses, and when
    they are exact. *)
From S2P Require Import Prelude JsString JsNumber.

(** ** Operators *)

Definition sub (x y : num) : num := add x (neg y).

Definition abs (x : num) : num :=
  match x with NaN => NaN | Inf _ => Inf false | Zero _ => Zero false | Fin m e => Fin (Z.abs m) e end.

Definition div (x y : num) : num :=
  match x, y with
  | NaN, _ | _, NaN => NaN
  | Inf _, Inf _ | Zero _, Zero _ => NaN
  | Inf s, z => Inf (xorb s (is_neg z))
  | z, Inf s => Zero (xorb s (is_neg z))
  | Zero s, z => Zero (xorb s (is_neg z))
  | z, Zero s => Inf (xorb s (is_neg z))
  | Fin m e, Fin m' e' =>
      round_ratio (xorb (m <? 0) (m' <? 0))
        (Z.abs m * 2 ^ Z.max 0 (e - e')) (Z.abs m' * 2 ^ Z.max 0 (e' - e))
  end.

(** [x >= y] *)
Definition num_ge (x y : num) : bool :=
  match x, y with NaN, _ | _, NaN => false | _, _ => negb (num_lt x y) end.

(** [Math.floor(x)] *)
Definition floor (x : num) : num :=
  match x with Fin m e => if 0 <=? e then x else of_Z (m / 2 ^ (- e)) | _ => x end.

(** The integer part of a number: what [ToInt32] starts from; 0 for NaN and the infinities. *)
Definition trunc (x : num) : Z :=
  match x with Fin m e => if 0 <=? e then m * 2 ^ e else Z.quot m (2 ^ (- e)) | _ => 0 end.

(** [Math.pow(2, x)] for an integral [x]. *)
Definition pow2 (x : num) : num :=
  match x with
  | NaN => NaN
  | Inf s => if s then Zero false else Inf false
  | Zero _ => Fin 1 0
  | Fin _ _ => round false 1 (trunc x)
  end.

(** ** Exact numbers *)

(** A double. *)
Definition double (x : num) : Prop :=
  match x with
  | Fin m e => Z.odd m = true /\ Z.abs m < 2 ^ 53 /\ -1074 <= e /\ Z.log2 (Z.abs m) + e < 1024
  | _ => True
  end.

Lemma odd_part_odd p e : Z.odd (Zpos (odd_part p e).1) = true.
Proof. revert e. induction p as [p IH|p IH|]; intros e; [done|apply IH|done]. Qed.

(** The canonical form of [m * 2 ^ e]. *)
Lemma make_Fin b m e : m <> 0 -> exists q j, make b m e = Fin q (e + j) /\ Z.odd q = true /\ 0 <= j /\ m = q * 2 ^ j.
Proof.
  intros Hm. destruct m as [|p|p]; [done| |]; cbn [make]; pose proof (odd_part_spec p e) as Hs;
    pose proof (odd_part_odd p e) as Ho; destruct (odd_part p e) as [q e']; destruct Hs as [H1 H2]; cbn [fst] in Ho.
  - exists (Zpos q), (e' - e). repeat split; [f_equal; lia|done|lia|done].
  - exists (Zneg q), (e' - e). repeat split; [f_equal; lia|by rewrite <- Pos2Z.opp_pos, Z.odd_opp|lia|].
    rewrite <- !Pos2Z.opp_pos. lia.
Qed.

Lemma odd_split q q' j j' : Z.odd q = true -> Z.odd q' = true -> 0 <= j -> 0 <= j' -> q * 2 ^ j = q' * 2 ^ j' -> q = q' /\ j = j'.
Proof.
  intros Hq Hq'. assert (H : forall a b i i', Z.odd a = true -> 0 <= i -> i < i' -> a * 2 ^ i = b * 2 ^ i' -> False).
  { intros a b i i' Ha Hi Hl E. assert (0 < 2 ^ i) by (apply Z.pow_pos_nonneg; lia).
    replace i' with (i + Z.succ (i' - i - 1)) in E by lia. rewrite Z.pow_add_r, Z.pow_succ_r in E by lia.
    assert (a = 2 * (b * 2 ^ (i' - i - 1))) as -> by nia. by rewrite Z.odd_mul in Ha. }
  intros Hj Hj' E. destruct (Z.lt_trichotomy j j') as [Hl|[->|Hl]].
  - exfalso. by apply (H q q' j j').
  - split; [|done]. assert (0 < 2 ^ j') by (apply Z.pow_pos_nonneg; lia). nia.
  - exfalso. by apply (H q' q j' j).
Qed.

(** Two forms of one number. *)
Lemma make_eq b b' m e m' e' k : m <> 0 -> 0 <= k -> m = m' * 2 ^ k -> e' = e + k -> make b m e = make b' m' e'.
Proof.
  intros Hm Hk E ->. assert (Hm' : m' <> 0) by (intros ->; lia).
  destruct (make_Fin b m e Hm) as (q & j & -> & Hq & Hj & Eq). destruct (make_Fin b' m' (e + k) Hm') as (q' & j' & -> & Hq' & Hj' & Eq').
  rewrite Eq, Eq', <- Z.mul_assoc, <- Z.pow_add_r in E by lia.
  destruct (odd_split q q' j (j' + k) Hq Hq' Hj ltac:(lia) E) as [-> ->]. f_equal. lia.
Qed.

Lemma make_odd b q e : Z.odd q = true -> make b q e = Fin q e.
Proof.
  intros Ho. assert (Hq : q <> 0) by (by intros ->). destruct (make_Fin b q e Hq) as (q' & j & -> & Hq' & Hj & E).
  destruct (odd_split q q' 0 j Ho Hq' ltac:(lia) Hj) as [-> <-]; [lia|]. f_equal. lia.
Qed.

(** ** Roundings that do nothing *)

Lemma round_shift_exact a k : 0 < k -> round_shift (a * 2 ^ k) k = a.
Proof.
  intros Hk. assert (0 < 2 ^ k) by (apply Z.pow_pos_nonneg; lia). assert (0 < 2 ^ (k - 1)) by (apply Z.pow_pos_nonneg; lia).
  unfold round_shift. rewrite Z.div_mul, Z.mod_mul by lia. destruct (Z.ltb_spec 0 (2 ^ (k - 1))); [done|lia].
Qed.

Lemma log2_mul_pow a k : a <> 0 -> 0 <= k -> Z.log2 (Z.abs (a * 2 ^ k)) = Z.log2 (Z.abs a) + k.
Proof.
  intros Ha Hk. assert (0 < 2 ^ k) by (apply Z.pow_pos_nonneg; lia).
  rewrite Z.abs_mul, (Z.abs_eq (2 ^ k)) by lia. rewrite Z.log2_mul_pow2 by lia. lia.
Qed.

Lemma round_double b m e : m <> 0 -> double (make b m e) -> round b m e = make b m e.
Proof.
  intros Hm. destruct (make_Fin b m e Hm) as (q & j & E & Hq & Hj & Em). rewrite E. intros (_ & H1 & H2 & H3).
  assert (Hq0 : q <> 0) by (by intros ->). assert (Hp : 0 < 2 ^ j) by (apply Z.pow_pos_nonneg; lia).
  assert (Hl : Z.log2 (Z.abs q) < 53) by (apply Z.log2_lt_pow2; lia).
  assert (Hlm : Z.log2 (Z.abs m) = Z.log2 (Z.abs q) + j) by (rewrite Em; by apply log2_mul_pow).
  unfold round. destruct (Z.eqb_spec m 0); [done|]. rewrite Hlm.
  set (k := Z.max (Z.log2 (Z.abs q) + j + 1 - 53) (-1074 - e)). assert (Hk : k <= j) by lia.
  destruct (Z.leb_spec k 0) as [Hk0|Hk0].
  - rewrite Hlm. destruct (Z.leb_spec 1024 (Z.log2 (Z.abs q) + j + e)); [lia|].
    replace (if m <? 0 then - Z.abs m else Z.abs m) with m by (destruct (Z.ltb_spec m 0); lia).
    rewrite <- E. by destruct m.
  - assert (Ea : Z.abs m = Z.abs (q * 2 ^ (j - k)) * 2 ^ k).
    { rewrite Em. replace j with ((j - k) + k) at 1 by lia. rewrite Z.pow_add_r, Z.mul_assoc by lia.
      rewrite Z.abs_mul, (Z.abs_eq (2 ^ k)); [done|]. apply Z.pow_nonneg. lia. }
    rewrite Ea, round_shift_exact by lia. rewrite log2_mul_pow by lia.
    destruct (Z.leb_spec 1024 (Z.log2 (Z.abs q) + (j - k) + (e + k))); [lia|].
    assert (Hp' : 0 < 2 ^ (j - k)) by (apply Z.pow_pos_nonneg; lia).
    replace (if m <? 0 then - Z.abs (q * 2 ^ (j - k)) else Z.abs (q * 2 ^ (j - k))) with (q * 2 ^ (j - k)).
    2:{ destruct (Z.ltb_spec m 0); nia. }
    rewrite (make_eq _ b _ (e + k) q (e + j) (j - k)); [by apply make_odd|nia|lia|done|lia].
Qed.

(** ** The operators on exact numbers *)

Lemma mul_make b b' m e m' e' : m <> 0 -> m' <> 0 -> double (make false (m * m') (e + e')) ->
  mul (make b m e) (make b' m' e') = make false (m * m') (e + e').
Proof.
  intros Hm Hm'. destruct (make_Fin b m e Hm) as (q & j & -> & Hq & Hj & Em).
  destruct (make_Fin b' m' e' Hm') as (q' & j' & -> & Hq' & Hj' & Em').
  assert (Hne : q * q' <> 0) by nia. cbn [mul]. set (s := xorb _ _).
  rewrite (make_eq false s (m * m') (e + e') (q * q') (e + j + (e' + j')) (j + j')); [|nia|lia| |lia].
  - intros Hd. by apply round_double.
  - rewrite Em, Em', Z.pow_add_r by lia. ring.
Qed.

Lemma scale_down m e q j l : 0 <= j -> l <= e -> m = q * 2 ^ j -> m * 2 ^ (e - l) = q * 2 ^ (e + j - l).
Proof. intros Hj Hl ->. replace (e + j - l) with (j + (e - l)) by lia. rewrite Z.pow_add_r by lia. ring. Qed.

Lemma add_make b b' m e m' e' l : m <> 0 -> m' <> 0 -> l <= e -> l <= e' ->
  let n := m * 2 ^ (e - l) + m' * 2 ^ (e' - l) in n <> 0 -> double (make false n l) ->
  add (make b m e) (make b' m' e') = make false n l.
Proof.
  intros Hm Hm' Hl Hl' n Hn. destruct (make_Fin b m e Hm) as (q & j & -> & Hq & Hj & Em).
  destruct (make_Fin b' m' e' Hm') as (q' & j' & -> & Hq' & Hj' & Em'). cbn [add].
  set (lo := Z.min (e + j) (e' + j')).
  assert (E : n = (q * 2 ^ (e + j - lo) + q' * 2 ^ (e' + j' - lo)) * 2 ^ (lo - l)).
  { unfold n. rewrite (scale_down m e q j l), (scale_down m' e' q' j' l) by lia.
    rewrite Z.mul_add_distr_r, <- !Z.mul_assoc, <- !Z.pow_add_r by lia. do 2 f_equal; f_equal; lia. }
  rewrite (make_eq false false n l _ lo (lo - l)) by (done || lia). intros Hd. apply round_double; [|done].
  intros E0. rewrite E0 in E. lia.
Qed.

Lemma num_lt_make b b' m e m' e' l : m <> 0 -> m' <> 0 -> l <= e -> l <= e' ->
  num_lt (make b m e) (make b' m' e') = (m * 2 ^ (e - l) <? m' * 2 ^ (e' - l)).
Proof.
  intros Hm Hm' Hl Hl'. destruct (make_Fin b m e Hm) as (q & j & -> & Hq & Hj & Em).
  destruct (make_Fin b' m' e' Hm') as (q' & j' & -> & Hq' & Hj' & Em'). cbn [num_lt].
  rewrite (scale_down m e q j l), (scale_down m' e' q' j' l) by lia.
  set (lo := Z.min (e + j) (e' + j')). assert (0 < 2 ^ (lo - l)) by (apply Z.pow_pos_nonneg; lia).
  replace (e + j - l) with ((e + j - lo) + (lo - l)) by lia. replace (e' + j' - l) with ((e' + j' - lo) + (lo - l)) by lia.
  rewrite !Z.pow_add_r, !Z.mul_assoc by lia. destr_cmp; nia.
Qed.

Lemma num_ge_make b b' m e m' e' l : m <> 0 -> m' <> 0 -> l <= e -> l <= e' ->
  num_ge (make b m e) (make b' m' e') = (m' * 2 ^ (e' - l) <=? m * 2 ^ (e - l)).
Proof.
  intros Hm Hm' Hl Hl'. pose proof (num_lt_make b b' m e m' e' l Hm Hm' Hl Hl') as H. unfold num_ge.
  destruct (make_Fin b m e Hm) as (q & j & E & _). destruct (make_Fin b' m' e' Hm') as (q' & j' & E' & _).
  rewrite E, E' in *. rewrite H. destr_cmp; lia.
Qed.

(** Dividing by a power of two. *)
Lemma div_pow2 b m e k : 0 < m < 2 ^ 53 -> double (make false m (e - k)) -> div (make b m e) (Fin 1 k) = make false m (e - k).
Proof.
  intros Hm. destruct (make_Fin b m e ltac:(lia)) as (q & j & -> & Hq & Hj & Em).
  assert (Hp : 0 < 2 ^ j) by (apply Z.pow_pos_nonneg; lia). assert (Hq0 : 0 < q < 2 ^ 53) by nia.
  rewrite (make_eq false false m (e - k) q (e - k + j) j) by (done || lia). intros Hd.
  cbn [div]. destruct (Z.ltb_spec q 0) as [|_]; [lia|]. destruct (Z.ltb_spec 1 0) as [|_]; [lia|]. cbn [xorb].
  rewrite (Z.abs_eq q), (Z.abs_eq 1), Z.mul_1_l by lia. set (u := Z.max 0 (e + j - k)). set (v := Z.max 0 (k - (e + j))).
  assert (Hu : 0 < 2 ^ u) by (apply Z.pow_pos_nonneg; lia). assert (Hv : 0 < 2 ^ v) by (apply Z.pow_pos_nonneg; lia).
  unfold round_ratio. destruct (Z.eqb_spec (q * 2 ^ u) 0); [nia|].
  rewrite Z.log2_pow2 by lia. set (sh := Z.max 0 (56 + v - Z.log2 (q * 2 ^ u))).
  assert (Hsh : v <= sh).
  { assert (Z.log2 q < 53) by (apply Z.log2_lt_pow2; lia). unfold sh. rewrite Z.log2_mul_pow2 by lia.
    assert (u = 0 \/ v = 0) by lia. lia. }
  rewrite Z.shiftl_mul_pow2 by lia.
  assert (Eq : q * 2 ^ u * 2 ^ sh = q * 2 ^ (u + sh - v) * 2 ^ v).
  { rewrite <- !Z.mul_assoc, <- !Z.pow_add_r by lia. do 2 f_equal. lia. }
  rewrite Eq, Z.div_mul, Z.mod_mul by lia. rewrite Z.eqb_refl, Z.add_0_r, Z.mul_1_l.
  assert (E2 : 2 * (q * 2 ^ (u + sh - v)) = q * 2 ^ (u + sh - v + 1)) by (rewrite Z.pow_add_r by lia; ring).
  rewrite E2. assert (0 < 2 ^ (u + sh - v + 1)) by (apply Z.pow_pos_nonneg; lia).
  assert (Em2 : make false (q * 2 ^ (u + sh - v + 1)) (- sh - 1) = make false q (e - k + j)) by
    (apply (make_eq _ _ _ _ _ _ (u + sh - v + 1)); [nia|lia|done|lia]).
  rewrite round_double; [done|nia|by rewrite Em2].
Qed.

Lemma trunc_make b x j : 0 <= x -> 0 <= j -> trunc (make b x (- j)) = x / 2 ^ j.
Proof.
  intros Hx Hj. destruct (Z.eq_dec x 0) as [->|Hne]; [by rewrite Z.div_0_l by (apply Z.pow_nonzero; lia)|].
  destruct (make_Fin b x (- j) Hne) as (q & i & -> & Hq & Hi & ->). cbn [trunc].
  assert (0 < 2 ^ i) by (apply Z.pow_pos_nonneg; lia). assert (0 < q) by nia.
  destruct (Z.leb_spec 0 (- j + i)) as [Hs|Hs].
  - replace i with ((- j + i) + j) at 2 by lia. rewrite (Z.pow_add_r 2 (- j + i) j), Z.mul_assoc, Z.div_mul by (try apply Z.pow_nonzero; lia).
    done.
  - replace j with (i + (- (- j + i))) at 2 by lia. rewrite Z.pow_add_r by lia. rewrite (Z.mul_comm (2 ^ i)).
    rewrite Z.quot_div_nonneg by (try apply Z.pow_pos_nonneg; lia). rewrite Z.div_mul_cancel_r; [done|apply Z.pow_nonzero; lia|lia].
Qed.

(** A sufficient condition for a number to be a double. *)
Lemma double_make b m e : Z.abs m < 2 ^ 53 -> -1074 <= e -> Z.log2 (Z.abs m) + e < 1024 -> double (make b m e).
Proof.
  intros H1 H2 H3. destruct (Z.eq_dec m 0) as [->|Hm]; [done|].
  destruct (make_Fin b m e Hm) as (q & j & -> & Hq & Hj & ->). assert (0 < 2 ^ j) by (apply Z.pow_pos_nonneg; lia).
  rewrite log2_mul_pow in H3 by (try lia; by intros ->). repeat split; [done|nia|lia|lia].
Qed.

Lemma pow2_of_Z k : safe_int k -> pow2 (of_Z k) = round false 1 k.
Proof.
  intros Hk. destruct (of_Z_cases k Hk) as [[-> ->]|(Hne & m & e & -> & He & E)]; [done|]. cbn [pow2 trunc].
  destruct (Z.leb_spec 0 e); [by rewrite E|lia].
Qed.

Lemma pow2_exact k : -1074 <= k < 1024 -> pow2 (of_Z k) = Fin 1 k.
Proof.
  intros Hk. rewrite pow2_of_Z by (unfold safe_int; lia). rewrite round_double; [by apply make_odd|lia|].
  apply double_make; [lia|lia|]. change (Z.log2 (Z.abs 1)) with 0. lia.
Qed.

Lemma pow2_over k : 1024 <= k < 2 ^ 53 -> pow2 (of_Z k) = Inf false.
Proof.
  intros Hk. rewrite pow2_of_Z by (unfold safe_int; lia). unfold round. change (1 =? 0) with false. change (Z.abs 1) with 1.
  cbv zeta. change (Z.log2 1) with 0. destruct (Z.leb_spec (Z.max (0 + 1 - 53) (-1074 - k)) 0); [|lia].
  change (Z.log2 1) with 0. destruct (Z.leb_spec 1024 (0 + k)); [done|lia].
Qed.

(** Sums of small integers are exact. *)
Lemma add_of_Z x y : safe_int x -> safe_int y -> safe_int (x + y) -> add (of_Z x) (of_Z y) = of_Z (x + y).
Proof.
  intros Hx Hy Hs. rewrite !of_Z_make by done.
  destruct (Z.eq_dec x 0) as [->|Hx0]; [|destruct (Z.eq_dec y 0) as [->|Hy0]].
  - rewrite Z.add_0_l. destruct y as [|p|p]; [done|..]; cbn [make]; by destruct (odd_part p 0).
  - rewrite Z.add_0_r. destruct x as [|p|p]; [done|..]; cbn [make]; by destruct (odd_part p 0).
  - destruct (Z.eq_dec (x + y) 0) as [E|Hne].
    + replace y with (- x) by lia. rewrite Z.add_opp_diag_r.
      assert (H : forall q e, add (Fin q e) (Fin (- q) e) = Zero false).
      { intros q e. unfold add, round. cbv zeta. rewrite Z.min_id, Z.sub_diag, Z.pow_0_r, !Z.mul_1_r. by rewrite Z.add_opp_diag_r. }
      destruct x as [|p|p]; [done|change (- Z.pos p) with (Z.neg p)|change (- Z.neg p) with (Z.pos p)]; cbn [make];
        destruct (odd_part p 0) as [q e]; [exact (H (Z.pos q) e)|exact (H (Z.neg q) e)].
    + pose proof (add_make false false x 0 y 0 0 Hx0 Hy0) as H. cbv zeta in H. rewrite Z.sub_diag, Z.pow_0_r, !Z.mul_1_r in H.
      apply H; [lia|lia|done|]. unfold safe_int in Hs. apply double_make; [lia|lia|].
      assert (Z.log2 (Z.abs (x + y)) < 53) by (apply Z.log2_lt_pow2; lia). lia.
Qed.
