(* ===== verification/BufferFloat.v ===== *)
(** Floating-point reads and writes of [Buffer.prototype], and the package ieee754 they
    call. *)
From S2P Require Import Prelude JsString JsNumber JsArith BufferStore BufferInt.

(** [Math.log], which the language leaves to the implementation. *)
Class MathLog := math_log : num -> num.

(** [Math.LN2] *)
Definition LN2 : num := Fin 6243314768165359 (-53).

(** ** [ieee754.read] *)

(** [e[i]] as a number; undefined is NaN. *)
Definition byte_num (x : option Z) : num := match x with Some v => of_Z v | None => NaN end.

(** [for (; nBits > 0; e = e * 256 + buffer[offset + i], i += d, nBits -= 8)] with [n] turns;
    the result holds the next index. *)
Fixpoint gather (b : view) (offset i d : Z) (n : nat) (e : num) : M store (num * Z) :=
  match n with
  | O => ret (e, i)
  | S n' =>
      let! x := get b (offset + i) in
      gather b offset (i + d) d n' (add (mul (of_Z 256) e) (byte_num x))
  end.

(** The turns of a loop that takes 8 from [nBits] while it is positive. *)
Definition turns (nBits : Z) : nat := Z.to_nat ((nBits + 7) / 8).

(** [(s ? -1 : 1) * x] *)
Definition signed (s : Z) (x : num) : num := mul (of_Z (if s =? 0 then 1 else -1)) x.

Definition ieee754_read (b : view) (offset : Z) (isLE : bool) (mLen nBytes : Z) : M store num :=
  let eLen := 8 * nBytes - mLen - 1 in
  let eMax := js_shl 1 eLen - 1 in
  let eBias := js_shr eMax 1 in
  let nBits := -7 in
  let i := if isLE then nBytes - 1 else 0 in
  let d := if isLE then -1 else 1 in
  let! s := get b (offset + i) in
  let i := i + d in
  let e := js_and (n32 s) (js_shl 1 (- nBits) - 1) in
  let s := js_shr (n32 s) (- nBits) in
  let nBits := nBits + eLen in
  let! r := gather b offset i d (turns nBits) (of_Z e) in
  let nBits := nBits - 8 * Z.of_nat (turns nBits) in
  let m := js_and (trunc r.1) (js_shl 1 (- nBits) - 1) in
  let e := js_shr (trunc r.1) (- nBits) in
  let nBits := nBits + mLen in
  let! r := gather b offset r.2 d (turns nBits) (of_Z m) in
  let m := r.1 in
  if e =? 0 then ret (mul (signed s m) (pow2 (of_Z (1 - eBias - mLen))))
  else if e =? eMax then
    ret (match m with Zero _ | NaN => signed s (Inf false) | _ => NaN end)
  else ret (mul (signed s (add m (pow2 (of_Z mLen)))) (pow2 (of_Z (e - eBias - mLen)))).

(** ** [ieee754.write] *)

Section Write.
Context `{MathLog}.

(** The exponent from the logarithm, [c] being [2 ^ -e], one less when it is too large. *)
Definition guess_exponent (value : num) : num * num :=
  let e := floor (div (math_log value) LN2) in
  let c := pow2 (neg e) in
  if num_lt (mul value c) (of_Z 1) then (sub e (of_Z 1), mul c (of_Z 2)) else (e, c).

(** What is added to a single in front of the truncation. *)
Definition rounding_term (mLen eBias : Z) (e c : num) : num :=
  let rt := if mLen =? 23 then sub (pow2 (of_Z (-24))) (pow2 (of_Z (-77))) else of_Z 0 in
  if num_ge (add e (of_Z eBias)) (of_Z 1) then div rt c else mul rt (pow2 (of_Z (1 - eBias))).

(** One more when it is too small. *)
Definition raise_exponent (value e c : num) : num * num :=
  if num_ge (mul value c) (of_Z 2) then (add e (of_Z 1), div c (of_Z 2)) else (e, c).

(** The significand and the exponent written for a number without sign. *)
Definition write_fields (value : num) (mLen eLen : Z) : num * num :=
  let eMax := js_shl 1 eLen - 1 in
  let eBias := js_shr eMax 1 in
  match value with
  | NaN => (of_Z 1, of_Z eMax)
  | Inf false => (of_Z 0, of_Z eMax)
  | _ =>
      let '(e, c) := guess_exponent value in
      let value := add value (rounding_term mLen eBias e c) in
      let '(e, c) := raise_exponent value e c in
      if num_ge (add e (of_Z eBias)) (of_Z eMax) then (of_Z 0, of_Z eMax)
      else if num_ge (add e (of_Z eBias)) (of_Z 1) then
        (mul (sub (mul value c) (of_Z 1)) (pow2 (of_Z mLen)), add e (of_Z eBias))
      else (mul (mul value (pow2 (of_Z (eBias - 1)))) (pow2 (of_Z mLen)), of_Z 0)
  end.

(** [for (...; buffer[offset + i] = m & 255, i += d, m /= 256, ...)] with [n] turns. *)
Fixpoint scatter (b : view) (offset i d : Z) (n : nat) (m : num) : M store (num * Z) :=
  match n with
  | O => ret (m, i)
  | S n' =>
      do! bset b (offset + i) (js_and 255 (trunc m));
      scatter b offset (i + d) d n' (div m (of_Z 256))
  end.

(** [value < 0 || value === 0 && 1 / value < 0] *)
Definition sign_bit (value : num) : Z := if num_lt value (of_Z 0) || isNegativeZero value then 1 else 0.

Definition ieee754_write (b : view) (value : num) (offset : Z) (isLE : bool) (mLen nBytes : Z) : M store unit :=
  let eLen := 8 * nBytes - mLen - 1 in
  let i := if isLE then 0 else nBytes - 1 in
  let d := if isLE then 1 else -1 in
  let s := sign_bit value in
  let '(m, e) := write_fields (abs value) mLen eLen in
  let! r := scatter b offset i d (Z.to_nat (mLen / 8)) m in
  let mLen := mLen mod 8 in
  let e := of_Z (js_or (js_shl (trunc e) mLen) (trunc r.1)) in
  let! r := scatter b offset r.2 d (turns (eLen + mLen)) e in
  let! x := get b (offset + r.2 - d) in
  bset b (offset + r.2 - d) (js_or (n32 x) (128 * s)).

(** ** The methods of Buffer *)

Definition checkIEEE754 (b : view) (offset ext : Z) : M store unit :=
  if blen b <? offset + ext then throw (RangeError "Index out of range")
  else if offset <? 0 then throw (RangeError "Index out of range")
  else ret tt.

Definition writeFloat (b : view) (value : num) (offset : Z) (littleEndian noAssert : bool) : M store Z :=
  do! mwhen (negb noAssert) (checkIEEE754 b offset 4);
  do! ieee754_write b value offset littleEndian 23 4;
  ret (offset + 4).

Definition writeDouble (b : view) (value : num) (offset : Z) (littleEndian noAssert : bool) : M store Z :=
  do! mwhen (negb noAssert) (checkIEEE754 b offset 8);
  do! ieee754_write b value offset littleEndian 52 8;
  ret (offset + 8).

Definition writeFloatLE (b : view) (value : num) (offset : Z) (noAssert : bool) := writeFloat b value offset true noAssert.
Definition writeFloatBE (b : view) (value : num) (offset : Z) (noAssert : bool) := writeFloat b value offset false noAssert.
Definition writeDoubleLE (b : view) (value : num) (offset : Z) (noAssert : bool) := writeDouble b value offset true noAssert.
Definition writeDoubleBE (b : view) (value : num) (offset : Z) (noAssert : bool) := writeDouble b value offset false noAssert.

End Write.

Definition readFloatLE (b : view) (offset : Z) (noAssert : bool) : M store num :=
  do! mwhen (negb noAssert) (checkOffset offset 4 (blen b)); ieee754_read b offset true 23 4.
Definition readFloatBE (b : view) (offset : Z) (noAssert : bool) : M store num :=
  do! mwhen (negb noAssert) (checkOffset offset 4 (blen b)); ieee754_read b offset false 23 4.
Definition readDoubleLE (b : view) (offset : Z) (noAssert : bool) : M store num :=
  do! mwhen (negb noAssert) (checkOffset offset 8 (blen b)); ieee754_read b offset true 52 8.
Definition readDoubleBE (b : view) (offset : Z) (noAssert : bool) : M store num :=
  do! mwhen (negb noAssert) (checkOffset offset 8 (blen b)); ieee754_read b offset false 52 8.

(** A logarithm that is the binary exponent times [LN2]. *)
Definition coarse_log : MathLog := fun x =>
  match x with
  | NaN => NaN
  | Inf s => if s then NaN else Inf false
  | Zero _ => Inf true
  | Fin m e => if m <? 0 then NaN else mul (of_Z (Z.log2 m + e)) LN2
  end.
