(* ===== verification/BufferFloatLaws.v ===== *)
(** What the floating-point methods of Buffer read and write: the encoding of IEEE 754. *)
From S2P Require Import Prelude JsString JsNumber JsArith BufferStore BufferInt BufferFloat.

(** ** The encoding *)

(** A format: the bits of the significand and of the exponent. *)
Definition bias (eLen : Z) : Z := 2 ^ (eLen - 1) - 1.

(** [m * 2 ^ e] with a sign. *)
Definition with_sign (s : bool) (m e : Z) : num := make s (if s then - m else m) e.

(** The number with the bits [w]. *)
Definition ieee_decode (mLen eLen w : Z) : num :=
  let m := w mod 2 ^ mLen in
  let e := (w / 2 ^ mLen) mod 2 ^ eLen in
  let s := negb (w / 2 ^ (mLen + eLen) =? 0) in
  if e =? 2 ^ eLen - 1 then (if m =? 0 then Inf s else NaN)
  else if e =? 0 then with_sign s m (1 - bias eLen - mLen)
  else with_sign s (m + 2 ^ mLen) (e - bias eLen - mLen).

(** ** Reading *)

Definition step (e : num) (x : Z) : num := add (mul (of_Z 256) e) (of_Z x).

(** The value of bytes, the most significant first. *)
Definition be_val (v : Z) (l : list Z) : Z := foldl (fun v x => 256 * v + x) v l.

Lemma be_val_le v l : be_val v l = v * 256 ^ Z.of_nat (length l) + le_val (rev l).
Proof.
  revert v. induction l as [|x l IH]; intros v; [simpl; lia|]. cbn [be_val foldl]. fold (be_val (256 * v + x) l).
  rewrite IH. cbn [rev length]. rewrite le_val_app, length_rev, pow256_S. cbn [le_val]. lia.
Qed.

Lemma le_val_range l : Forall byte l -> 0 <= le_val l < 256 ^ Z.of_nat (length l).
Proof.
  induction 1 as [|x l Hx _ IH]; [simpl; lia|]. cbn [le_val length]. rewrite pow256_S. unfold byte in Hx. lia.
Qed.

Lemma be_val_range v l : Forall byte l -> 0 <= v -> 0 <= be_val v l < (v + 1) * 256 ^ Z.of_nat (length l).
Proof.
  intros HF Hv. rewrite be_val_le. pose proof (le_val_range (rev l)) as H. rewrite length_rev in H.
  specialize (H ltac:(by apply Forall_rev)). pose proof (pow256_pos (length l)). nia.
Qed.

(** Products of small integers are exact. *)
Lemma mul_of_Z x y : safe_int x -> safe_int y -> safe_int (x * y) -> 0 <= x -> 0 <= y -> mul (of_Z x) (of_Z y) = of_Z (x * y).
Proof.
  intros Hx Hy Hs Px Py. rewrite !of_Z_make by done.
  destruct (Z.eq_dec x 0) as [->|Hx0]; [|destruct (Z.eq_dec y 0) as [->|Hy0]].
  - rewrite Z.mul_0_l. destruct y as [|p|p]; [done| |lia]. cbn [make]. destruct (odd_part p 0). done.
  - rewrite Z.mul_0_r. destruct x as [|p|p]; [done| |lia]. cbn [make]. destruct (odd_part p 0). done.
  - rewrite (mul_make false false x 0 y 0); [done|done|done|]. unfold safe_int in Hs.
    apply double_make; [lia|lia|]. assert (Z.log2 (Z.abs (x * y)) < 53) by (apply Z.log2_lt_pow2; nia). lia.
Qed.

Lemma step_of_Z v x : 0 <= v -> byte x -> 256 * v + x < 2 ^ 53 -> step (of_Z v) x = of_Z (256 * v + x).
Proof.
  intros Hv Hx Hb. unfold byte in Hx. unfold step. rewrite mul_of_Z by (unfold safe_int; lia).
  apply add_of_Z; unfold safe_int; lia.
Qed.

Lemma steps_of_Z l : forall v, Forall byte l -> 0 <= v -> (v + 1) * 256 ^ Z.of_nat (length l) <= 2 ^ 53 ->
  foldl step (of_Z v) l = of_Z (be_val v l).
Proof.
  induction l as [|x l IH]; intros v HF Hv Hb; [done|]. inversion HF as [|? ? Hx HF']; subst.
  cbn [length] in Hb. rewrite pow256_S in Hb. pose proof (pow256_pos (length l)). unfold byte in Hx.
  cbn [foldl be_val]. rewrite step_of_Z by (unfold byte; nia). apply IH; [done|lia|nia].
Qed.

Lemma gather_spec b o d l h : forall i e,
  (forall k x, l !! k = Some x -> get b (o + i + Z.of_nat k * d) h = Done (Some x) h) ->
  gather b o i d (length l) e h = Done (foldl step e l, i + Z.of_nat (length l) * d) h.
Proof.
  induction l as [|x l IH]; intros i e Hg; [unfold ret; simpl; do 2 f_equal; lia|]. cbn [length gather].
  erewrite bind_Done by (specialize (Hg 0%nat x eq_refl); rewrite Z.mul_0_l, Z.add_0_r in Hg; exact Hg).
  cbn [byte_num foldl]. fold (step e x). rewrite IH.
  - do 2 f_equal. lia.
  - intros k y Hk. specialize (Hg (S k) y Hk). by replace (o + (i + d) + Z.of_nat k * d) with (o + i + Z.of_nat (S k) * d) by lia.
Qed.

(** The end of a read: sign, significand and exponent. *)
Lemma with_sign_read s m k : 0 <= m < 2 ^ 53 -> -1074 <= k < 972 ->
  mul (signed s (of_Z m)) (pow2 (of_Z k)) = with_sign (negb (s =? 0)) m k.
Proof.
  intros Hm Hk. rewrite pow2_exact by lia. unfold signed, with_sign.
  destruct (Z.eq_dec m 0) as [->|Hne]; [by destruct (s =? 0)|].
  assert (Hd : forall b, double (make b m k) /\ double (make b (- m) k)).
  { intros b. assert (Z.log2 m < 53) by (apply Z.log2_lt_pow2; lia).
    split; (apply double_make; [lia|lia|]); replace (Z.abs _) with m by lia; lia. }
  assert (H1 : Fin 1 k = make false 1 k) by (by rewrite make_odd). rewrite H1.
  assert (Hz : safe_int m) by (unfold safe_int; lia).
  destruct (Z.eqb_spec s 0); cbn [negb].
  - rewrite mul_sign, of_Z_make by done. rewrite mul_make; rewrite ?Z.mul_1_r, ?Z.add_0_l; [done|done|done|apply Hd].
  - rewrite mul_sign_neg, of_Z_make by (done || unfold safe_int; lia).
    rewrite mul_make; rewrite ?Z.mul_1_r, ?Z.add_0_l; [|lia|done|apply Hd]. by apply (make_eq _ _ _ _ _ _ 0); lia.
Qed.

(** The fields of a word: sign [s], exponent [e], significand [m] with [r] below it. *)
Lemma fields_of_word s e m r E Q P : 0 <= r < P -> 0 <= m < Q -> 0 <= e < E -> 0 < P ->
  let w := ((s * E + e) * Q + m) * P + r in
  w mod (Q * P) = m * P + r /\ (w / (Q * P)) mod E = e /\ w / (Q * P * E) = s.
Proof.
  intros Hr Hm He HP w. assert (H1 : w / (Q * P) = s * E + e).
  { symmetry. apply (Z.div_unique _ _ _ (m * P + r)); [left; nia|unfold w; ring]. }
  assert (H2 : w mod (Q * P) = m * P + r).
  { symmetry. apply (Z.mod_unique _ _ (s * E + e)); [left; nia|unfold w; ring]. }
  split; [done|]. rewrite H1. split.
  - symmetry. apply (Z.mod_unique _ _ s); [left; lia|ring].
  - rewrite <- Z.div_div by nia. rewrite H1. symmetry. apply (Z.div_unique _ _ _ e); [left; lia|ring].
Qed.

(** The two formats: [k] whole bytes and [q] bits of significand. *)
Definition format (mLen nBytes : Z) (q : Z) (k : nat) : Prop :=
  mLen = 8 * Z.of_nat k + q /\ nBytes = 2 + Z.of_nat k /\ ((q = 4 /\ k = 6%nat) \/ (q = 7 /\ k = 2%nat)).

Lemma shl_1 n : 0 <= n < 31 -> js_shl 1 n = 2 ^ n.
Proof.
  intros Hn. rewrite js_shl_mul, Z.mul_1_l by lia. apply toInt32_id. pose proof (Z.pow_pos_nonneg 2 n).
  pose proof (Z.pow_lt_mono_r 2 n 31). lia.
Qed.

Lemma and_mask v n : 0 <= n < 31 -> js_and v (js_shl 1 n - 1) = v mod 2 ^ n.
Proof. intros Hn. rewrite shl_1 by done. rewrite <- (js_and_ones v n Hn). f_equal. rewrite Z.ones_equiv. lia. Qed.

Lemma trunc_of_Z z : 0 <= z < 2 ^ 53 -> trunc (of_Z z) = z.
Proof.
  intros Hz. rewrite of_Z_make by (unfold safe_int; lia). rewrite <- (Z.div_1_r z) at 2. apply (trunc_make false z 0); lia.
Qed.

Lemma turns_1 q : 0 <= q < 8 -> turns (8 - q) = 1%nat.
Proof. intros Hq. unfold turns. replace ((8 - q + 7) / 8) with 1; [done|]. apply (Z.div_unique _ _ _ (7 - q)); lia. Qed.

Lemma turns_8 k : turns (8 * Z.of_nat k) = k.
Proof.
  unfold turns. replace ((8 * Z.of_nat k + 7) / 8) with (Z.of_nat k); [lia|]. apply (Z.div_unique _ _ _ 7); lia.
Qed.

Lemma read_special s m : 0 <= m < 2 ^ 53 ->
  match of_Z m with Zero _ | NaN => signed s (Inf false) | _ => NaN end = if m =? 0 then Inf (negb (s =? 0)) else NaN.
Proof.
  intros Hm. destruct (of_Z_cases m) as [[-> ->]|(Hne & q & e & -> & _)]; [unfold safe_int; lia| |].
  - unfold signed. by destruct (s =? 0).
  - by rewrite (proj2 (Z.eqb_neq m 0) Hne).
Qed.

Lemma read_list b o (isLE : bool) mLen nBytes q k l h : format mLen nBytes q k -> Forall byte l -> length l = S (S k) ->
  let i := if isLE then nBytes - 1 else 0 in
  let d := if isLE then -1 else 1 in
  (forall j x, l !! j = Some x -> get b (o + i + Z.of_nat j * d) h = Done (Some x) h) ->
  ieee754_read b o isLE mLen nBytes h = Done (ieee_decode mLen (15 - q) (be_val 0 l)) h.
Proof.
  intros (-> & -> & Hf) HF Hl i d Hg. destruct l as [|x0 [|x1 l]]; [done|done|]. injection Hl as Hl.
  inversion HF as [|? ? Hx0 HF1]; subst. inversion HF1 as [|? ? Hx1 HF2]; subst. unfold byte in Hx0, Hx1.
  assert (Hq : 0 < q < 8) by lia. unfold ieee754_read.
  replace (8 * (2 + Z.of_nat (length l)) - (8 * Z.of_nat (length l) + q) - 1) with (15 - q) by lia. cbv zeta. fold i d.
  erewrite bind_Done by (specialize (Hg 0%nat x0 eq_refl); rewrite Z.mul_0_l, Z.add_0_r in Hg; exact Hg). cbn [n32 default id].
  change (- -7) with 7. rewrite and_mask by lia. rewrite (js_shr_div x0 7) by lia. change (2 ^ 7) with 128.
  replace (-7 + (15 - q)) with (8 - q) by lia. rewrite turns_1 by lia.
  erewrite bind_Done by (apply (gather_spec b o d [x1]); intros [|j] x [= <-];
    specialize (Hg 1%nat x1 eq_refl); by replace (o + (i + d) + Z.of_nat 0 * d) with (o + i + Z.of_nat 1 * d) by lia).
  assert (He0 : 0 <= x0 mod 128 < 128) by (apply Z.mod_pos_bound; lia).
  rewrite (steps_of_Z [x1]); [|by constructor|lia|change (256 ^ Z.of_nat (length [x1])) with 256; lia].
  change (be_val (x0 mod 128) [x1]) with (256 * (x0 mod 128) + x1). cbn [fst snd length].
  set (E1 := 256 * (x0 mod 128) + x1). assert (HE1 : 0 <= E1 < 2 ^ 15) by (unfold E1; lia).
  rewrite trunc_of_Z by lia. replace (- (8 - q - 8 * Z.of_nat 1)) with q by lia.
  rewrite and_mask by lia. rewrite (js_shr_div E1 q) by lia.
  replace (8 - q - 8 * Z.of_nat 1 + (8 * Z.of_nat (length l) + q)) with (8 * Z.of_nat (length l)) by lia. rewrite turns_8.
  assert (Hm : 0 <= E1 mod 2 ^ q < 2 ^ q) by (apply Z.mod_pos_bound, Z.pow_pos_nonneg; lia).
  erewrite bind_Done by (apply (gather_spec b o d l); intros j x Hj; specialize (Hg (S (S j)) x Hj);
    by replace (o + (i + d + Z.of_nat 1 * d) + Z.of_nat j * d) with (o + i + Z.of_nat (S (S j)) * d) by lia).
  set (K := 256 ^ Z.of_nat (length l)). assert (HK : 0 < K) by apply pow256_pos.
  assert (HqK : 2 ^ q * K <= 2 ^ 52) by (unfold K; destruct Hf as [[-> ->]|[-> ->]]; vm_compute; discriminate).
  rewrite (steps_of_Z l) by (try done; try lia; fold K; nia). cbn [fst].
  set (R := le_val (rev l)). assert (HR : 0 <= R < K).
  { unfold R, K. rewrite <- (length_rev l). apply le_val_range. by apply Forall_rev. }
  assert (Hbe : be_val (E1 mod 2 ^ q) l = (E1 mod 2 ^ q) * K + R) by apply be_val_le. rewrite Hbe.
  assert (Hw : be_val 0 (x0 :: x1 :: l) = ((x0 / 128 * 2 ^ (15 - q) + E1 / 2 ^ q) * 2 ^ q + E1 mod 2 ^ q) * K + R).
  { change (be_val 0 (x0 :: x1 :: l)) with (be_val (256 * (256 * 0 + x0) + x1) l). rewrite be_val_le. fold K R.
    assert (A : 2 ^ (15 - q) * 2 ^ q = 2 ^ 15) by (rewrite <- Z.pow_add_r by lia; f_equal; lia).
    pose proof (Z.div_mod E1 (2 ^ q) ltac:(apply Z.pow_nonzero; lia)) as B.
    replace ((x0 / 128 * 2 ^ (15 - q) + E1 / 2 ^ q) * 2 ^ q + E1 mod 2 ^ q)
      with (x0 / 128 * (2 ^ (15 - q) * 2 ^ q) + (2 ^ q * (E1 / 2 ^ q) + E1 mod 2 ^ q)) by ring.
    rewrite A, <- B. f_equal. f_equal. unfold E1. pose proof (Z.div_mod x0 128 ltac:(lia)). lia. }
  assert (Hel : 0 <= E1 / 2 ^ q < 2 ^ (15 - q)).
  { split; [apply Z.div_pos; [lia|apply Z.pow_pos_nonneg; lia]|]. apply Z.div_lt_upper_bound; [apply Z.pow_pos_nonneg; lia|].
    rewrite <- Z.pow_add_r by lia. replace (q + (15 - q)) with 15 by lia. lia. }
  destruct (fields_of_word (x0 / 128) (E1 / 2 ^ q) (E1 mod 2 ^ q) R (2 ^ (15 - q)) (2 ^ q) K HR Hm Hel HK) as (F1 & F2 & F3).
  rewrite <- Hw in F1, F2, F3. assert (HQK : 2 ^ (8 * Z.of_nat (length l) + q) = 2 ^ q * K).
  { unfold K. rewrite pow256, Z.pow_add_r by lia. ring. }
  unfold ieee_decode. cbv zeta. rewrite (Z.pow_add_r 2 (8 * Z.of_nat (length l) + q) (15 - q)) by lia.
  rewrite HQK, F1, F2, F3. rewrite shl_1 by lia.
  set (M := E1 mod 2 ^ q * K + R). assert (HM : 0 <= M < 2 ^ 52) by (unfold M; nia).
  assert (HE : 0 < 2 ^ (15 - q)) by (apply Z.pow_pos_nonneg; lia).
  assert (Hb : js_shr (2 ^ (15 - q) - 1) 1 = bias (15 - q)).
  { destruct Hf as [[-> _]|[-> _]]; by vm_compute. }
  rewrite Hb. unfold ret. set (e := E1 / 2 ^ q) in *.
  assert (Hbias : 0 <= bias (15 - q) <= 1023 /\ 2 ^ (15 - q) - 1 <= 2 * bias (15 - q) + 1)
    by (destruct Hf as [[-> _]|[-> _]]; vm_compute; intuition discriminate).
  assert (Hlen : (length l <= 6)%nat /\ 8 * Z.of_nat (length l) + q <= 52 /\ 0 < 2 ^ (15 - q) - 1 /\
                 2 * bias (15 - q) + 1 - bias (15 - q) - (8 * Z.of_nat (length l) + q) < 973)
    by (destruct Hf as [[-> ->]|[-> ->]]; (split; [lia|]); repeat split; vm_compute; done).
  destruct (Z.eqb_spec e 0) as [E0|E0].
  - rewrite E0. rewrite (proj2 (Z.eqb_neq 0 (2 ^ (15 - q) - 1))) by lia. f_equal. apply with_sign_read; lia.
  - destruct (Z.eqb_spec e (2 ^ (15 - q) - 1)) as [E2|E2]; [f_equal; apply read_special; lia|].
    f_equal. rewrite pow2_exact by lia. assert (Hp : Fin 1 (8 * Z.of_nat (length l) + q) = of_Z (2 ^ q * K)).
    { rewrite of_Z_make by (unfold safe_int; nia). rewrite (make_eq false false _ 0 1 (8 * Z.of_nat (length l) + q) (8 * Z.of_nat (length l) + q));
        [by rewrite make_odd|nia|lia|by rewrite HQK, Z.mul_1_l|lia]. }
    rewrite Hp, add_of_Z by (unfold safe_int; nia). apply with_sign_read; [nia|lia].
Qed.

(** ** The fields written *)

(** What the writer needs of [Math.log]: -Infinity at 0, and elsewhere an exponent that is at
    most one off. *)
Class MathLogLaws `{MathLog} : Prop := {
  log_zero : math_log (Zero false) = Inf true;
  log_near m e : 0 < m -> double (Fin m e) -> exists k, floor (div (math_log (Fin m e)) LN2) = of_Z k /\
    Z.log2 m + e - 1 <= k <= Z.log2 m + e + 1
}.

(** The numbers a format holds exactly. *)
Definition in_format (mLen eLen : Z) (v : num) : Prop :=
  match v with
  | Fin m e => Z.odd m = true /\ Z.abs m < 2 ^ (mLen + 1) /\ 1 - bias eLen - mLen <= e /\ Z.log2 (Z.abs m) + e <= bias eLen
  | _ => True
  end.

(** Comparing with a power of two is comparing the exponents. *)
Lemma log2_scaled m e l : 0 < m -> l <= e -> Z.log2 (m * 2 ^ (e - l)) = Z.log2 m + (e - l).
Proof. intros Hm Hl. rewrite Z.log2_mul_pow2 by lia. lia. Qed.

Lemma num_lt_pow2 b m e n : 0 < m -> num_lt (make b m e) (Fin 1 n) = (Z.log2 m + e <? n).
Proof.
  intros Hm. rewrite <- (make_odd false 1 n) by done. set (l := Z.min e n).
  rewrite (num_lt_make b false m e 1 n l) by lia. rewrite Z.mul_1_l.
  assert (Hp : 0 < 2 ^ (e - l)) by (apply Z.pow_pos_nonneg; lia).
  pose proof (log2_scaled m e l Hm ltac:(lia)) as Hl.
  destruct (Z.ltb_spec (m * 2 ^ (e - l)) (2 ^ (n - l))) as [H|H]; symmetry.
  - apply Z.ltb_lt. apply Z.log2_lt_pow2 in H; [lia|nia].
  - apply Z.ltb_ge. apply Z.log2_le_pow2 in H; [lia|nia].
Qed.

Lemma num_ge_pow2 b m e n : 0 < m -> num_ge (make b m e) (Fin 1 n) = (n <=? Z.log2 m + e).
Proof.
  intros Hm. pose proof (num_lt_pow2 b m e n Hm) as H. unfold num_ge.
  destruct (make_Fin b m e ltac:(lia)) as (q & j & E & _). rewrite E in *. rewrite H. destr_cmp; lia.
Qed.

Lemma num_ge_of_Z x y : safe_int x -> safe_int y -> num_ge (of_Z x) (of_Z y) = (y <=? x).
Proof.
  intros Hx Hy. rewrite !of_Z_make by done. destruct (Z.eq_dec x 0) as [->|Hx0], (Z.eq_dec y 0) as [->|Hy0].
  - done.
  - destruct (make_Fin false y 0 Hy0) as (q & j & -> & _ & Hj & ->). assert (0 < 2 ^ j) by (apply Z.pow_pos_nonneg; lia).
    cbn [make num_ge num_lt]. destr_cmp; nia.
  - destruct (make_Fin false x 0 Hx0) as (q & j & -> & _ & Hj & ->). assert (0 < 2 ^ j) by (apply Z.pow_pos_nonneg; lia).
    cbn [make num_ge num_lt]. destr_cmp; nia.
  - rewrite (num_ge_make false false x 0 y 0 0) by lia. by rewrite Z.sub_diag, Z.pow_0_r, !Z.mul_1_r.
Qed.

(** [Math.pow(2, -k)] for the exponents that occur. *)
Definition inv_pow (k : Z) : num := if -1024 <? k then Fin 1 (- k) else Inf false.

Lemma pow2_neg k : -1100 <= k <= 1074 -> pow2 (neg (of_Z k)) = inv_pow k.
Proof.
  intros Hk. unfold inv_pow. destruct (Z.eq_dec k 0) as [->|Hne]; [done|].
  rewrite neg_of_Z by (done || unfold safe_int; lia). destruct (Z.ltb_spec (-1024) k).
  - apply pow2_exact. lia.
  - apply pow2_over. lia.
Qed.

Lemma mul_pow2 b m e n : 0 < m < 2 ^ 53 -> -1074 <= e + n -> Z.log2 m + (e + n) < 1024 ->
  mul (make b m e) (Fin 1 n) = make false m (e + n).
Proof.
  intros Hm He Hl. rewrite <- (make_odd false 1 n) by done. rewrite mul_make; rewrite ?Z.mul_1_r; [done|lia|lia|].
  apply double_make; rewrite ?Z.abs_eq by lia; lia.
Qed.

Lemma mul_inf b m e : 0 < m -> mul (make b m e) (Inf false) = Inf false.
Proof.
  intros Hm. destruct (make_Fin b m e ltac:(lia)) as (q & j & -> & _ & Hj & ->).
  assert (0 < 2 ^ j) by (apply Z.pow_pos_nonneg; lia). cbn [mul is_neg xorb]. destr_cmp; [nia|done].
Qed.

(** A number just below a multiple of the unit is rounded up to it. *)
Lemma round_up x k e : 2 <= k -> 2 ^ 52 < x < 2 ^ 53 -> -1074 <= e + k < 900 -> round false (x * 2 ^ k - 1) e = make false x (e + k).
Proof.
  intros Hk Hx He. assert (Hp : 4 <= 2 ^ k) by (change 4 with (2 ^ 2); apply Z.pow_le_mono_r; lia).
  assert (Hl : Z.log2 (x * 2 ^ k - 1) = 52 + k).
  { apply Z.log2_unique; [lia|]. rewrite Z.pow_succ_r, Z.pow_add_r by lia. nia. }
  unfold round. destruct (Z.eqb_spec (x * 2 ^ k - 1) 0); [nia|]. rewrite Z.abs_eq by nia. rewrite Hl.
  replace (Z.max (52 + k + 1 - 53) (-1074 - e)) with k by lia. destruct (Z.leb_spec k 0); [lia|].
  assert (Hr : round_shift (x * 2 ^ k - 1) k = x).
  { unfold round_shift. assert (Hh : 2 ^ k = 2 * 2 ^ (k - 1)) by (rewrite <- Z.pow_succ_r by lia; f_equal; lia).
    assert (Hq : (x * 2 ^ k - 1) / 2 ^ k = x - 1) by (symmetry; apply (Z.div_unique _ _ _ (2 ^ k - 1)); [left; lia|lia]).
    assert (Hm : (x * 2 ^ k - 1) mod 2 ^ k = 2 ^ k - 1) by (symmetry; apply (Z.mod_unique _ _ (x - 1)); [left; lia|lia]).
    rewrite Hq, Hm. destruct (Z.ltb_spec (2 ^ k - 1) (2 ^ (k - 1))); [lia|].
    destruct (Z.ltb_spec (2 ^ (k - 1)) (2 ^ k - 1)); lia. }
  rewrite Hr. assert (Z.log2 x = 52) by (apply Z.log2_unique; [lia|]; change (Z.succ 52) with 53; lia).
  destruct (Z.leb_spec 1024 (Z.log2 x + (e + k))); [lia|]. destruct (Z.ltb_spec (x * 2 ^ k - 1) 0); [nia|]. done.
Qed.

(** The significand in units of the last place of the format, [2 ^ unit_exp]. *)
Definition unit_exp (mLen eLen m e : Z) : Z := Z.max (Z.log2 m + e - mLen) (1 - bias eLen - mLen).

Lemma unit_facts mLen eLen m e : 0 < m -> 0 <= mLen -> in_format mLen eLen (Fin m e) ->
  let g := unit_exp mLen eLen m e in
  g <= e /\ 0 < m * 2 ^ (e - g) < 2 ^ (mLen + 1) /\ Z.log2 (m * 2 ^ (e - g)) + g = Z.log2 m + e /\ m = Z.abs m.
Proof.
  intros Hm HL (_ & H1 & H2 & H3) g. rewrite Z.abs_eq in * by lia.
  assert (Hl : Z.log2 m <= mLen) by (apply Z.log2_lt_pow2 in H1; lia). assert (Hg : g <= e) by (unfold g, unit_exp; lia).
  assert (Hp : 0 < 2 ^ (e - g)) by (apply Z.pow_pos_nonneg; lia).
  assert (Hs : Z.log2 (m * 2 ^ (e - g)) = Z.log2 m + (e - g)) by (apply log2_scaled; lia).
  split; [done|]. split; [|split; lia]. split; [nia|]. apply Z.log2_lt_pow2; [nia|]. unfold g, unit_exp in *. lia.
Qed.

(** In the single format half a unit, less a little, is added in front of the truncation. *)
Lemma add_half m e i : 0 < m -> in_format 23 8 (Fin m e) -> 1 <= i <= 2 ->
  let g := unit_exp 23 8 m e in let t := m * 2 ^ (e - g) in
  add (Fin m e) (Fin (2 ^ 53 - 1) (g - (53 + i))) = make false (2 ^ i * t + 1) (g - i).
Proof.
  intros Hm Hf Hi g t. destruct (unit_facts 23 8 m e Hm ltac:(lia) Hf) as (Hg & Ht & Hl & _). fold g t in Hg, Ht, Hl.
  change (2 ^ (23 + 1)) with (2 ^ 24) in Ht.
  assert (Hge : -149 <= g <= 104).
  { destruct Hf as (_ & _ & ? & ?). rewrite Z.abs_eq in * by lia. unfold g, unit_exp, bias in *. change (2 ^ (8 - 1) - 1) with 127 in *. lia. }
  set (L := Z.log2 t). assert (HL : 0 <= L < 24) by (split; [apply Z.log2_nonneg|apply Z.log2_lt_pow2; lia]).
  assert (Hb : 2 ^ L <= t < 2 ^ Z.succ L) by (apply Z.log2_spec; lia).
  cbn [add]. rewrite Z.min_r by lia. rewrite Z.sub_diag, Z.pow_0_r, Z.mul_1_r.
  assert (Hpi : 2 <= 2 ^ i) by (destruct (Z.eq_dec i 1) as [->|]; [done|]; by replace i with 2 by lia).
  assert (En : m * 2 ^ (e - (g - (53 + i))) + (2 ^ 53 - 1) =
               (2 ^ i * t + 1) * 2 ^ (52 - L - i) * 2 ^ (L + i + 1) - 1).
  { rewrite <- Z.mul_assoc, <- Z.pow_add_r by lia. replace (52 - L - i + (L + i + 1)) with 53 by lia.
    replace (e - (g - (53 + i))) with ((e - g) + (i + 53)) by lia. rewrite !Z.pow_add_r by lia. unfold t. ring. }
  rewrite En. assert (Hp2 : 0 < 2 ^ (52 - L - i)) by (apply Z.pow_pos_nonneg; lia).
  assert (Hp3 : 2 ^ 52 = 2 ^ i * 2 ^ L * 2 ^ (52 - L - i)) by (rewrite <- !Z.pow_add_r by lia; f_equal; lia).
  assert (Hp4 : 2 ^ 53 = 2 ^ i * 2 ^ Z.succ L * 2 ^ (52 - L - i)) by (rewrite <- !Z.pow_add_r by lia; f_equal; lia).
  assert (Hx : 2 ^ 52 < (2 ^ i * t + 1) * 2 ^ (52 - L - i) < 2 ^ 53).
  { rewrite Hp3, Hp4. split; apply Z.mul_lt_mono_pos_r; nia. }
  rewrite round_up by lia. apply (make_eq _ _ _ _ _ _ (52 - L - i)); [nia|lia|done|lia].
Qed.

Section Fields.
Context {ML : MathLog} {LL : MathLogLaws}.

(** The first estimate: at most one off, and not too large when [c] is finite. *)
Lemma guess_spec m e : 0 < m -> double (Fin m e) -> exists a,
  guess_exponent (Fin m e) = (of_Z a, inv_pow a) /\
  Z.log2 m + e - 1 <= a <= Z.log2 m + e + 1 /\ (-1024 < a -> a <= Z.log2 m + e).
Proof.
  intros Hm Hd. destruct (log_near m e Hm Hd) as (k & Hk & Hr). unfold guess_exponent. rewrite Hk.
  destruct Hd as (Ho & H1 & H2 & H3). rewrite Z.abs_eq in * by lia. pose proof (Z.log2_nonneg m).
  assert (Hl : Z.log2 m < 53) by (apply Z.log2_lt_pow2; lia).
  rewrite pow2_neg by lia. unfold inv_pow at 1. destruct (Z.ltb_spec (-1024) k) as [Hf|Hf].
  - rewrite <- (make_odd false m e) by done. rewrite mul_pow2 by lia. change (num_lt (make false m (e + - k)) (of_Z 1)) with (num_lt (make false m (e + - k)) (Fin 1 0)).
    rewrite num_lt_pow2 by lia. destruct (Z.ltb_spec (Z.log2 m + (e + - k)) 0) as [Hlt|Hlt].
    + exists (k - 1). split; [|split; lia]. f_equal.
      * unfold sub. change (neg (of_Z 1)) with (of_Z (-1)). apply add_of_Z; unfold safe_int; lia.
      * unfold inv_pow. destruct (Z.ltb_spec (-1024) k); [|lia]. change (of_Z 2) with (Fin 1 1).
        rewrite <- (make_odd false 1 (- k)) by done. destruct (Z.ltb_spec (-1024) (k - 1)).
        -- rewrite mul_pow2 by (try change (Z.log2 1) with 0; lia). rewrite make_odd by done. f_equal. lia.
        -- rewrite make_odd by done. by replace (- k) with 1023 by lia.
    + exists k. unfold inv_pow. destruct (Z.ltb_spec (-1024) k); [|lia]. split; [done|split; lia].
  - rewrite <- (make_odd false m e) by done. rewrite mul_inf by done. change (num_lt (Inf false) (of_Z 1)) with false.
    cbv iota. exists k. split; [done|]. split; lia.
Qed.

Definition widths (mLen eLen : Z) : Prop := (mLen = 52 /\ eLen = 11) \/ (mLen = 23 /\ eLen = 8).

Lemma in_format_double mLen eLen v : widths mLen eLen -> in_format mLen eLen v -> double v.
Proof.
  intros Hw. destruct v as [| | |m e]; try done. intros (H1 & H2 & H3 & H4).
  destruct Hw as [[-> ->]|[-> ->]]; unfold bias in *.
  - change (2 ^ (11 - 1) - 1) with 1023 in *. change (52 + 1) with 53 in *. repeat split; [done|lia|lia|lia].
  - change (2 ^ (8 - 1) - 1) with 127 in *. change (23 + 1) with 24 in *. repeat split; [done|lia|lia|lia].
Qed.

Lemma rounding_double e c : (c = Inf false \/ exists k, c = Fin 1 k) -> rounding_term 52 1023 e c = Zero false.
Proof.
  intros Hc. unfold rounding_term. change (52 =? 23) with false. change (of_Z 0) with (Zero false). cbv iota zeta.
  destruct (num_ge _ _); [by destruct Hc as [->|[k ->]]|by vm_compute].
Qed.

Lemma rounding_single a : -150 <= a <= 127 ->
  rounding_term 23 127 (of_Z a) (Fin 1 (- a)) = Fin (2 ^ 53 - 1) (if 1 <=? a + 127 then a - 77 else -203).
Proof.
  intros Ha. unfold rounding_term. change (23 =? 23) with true. cbv iota zeta.
  replace (sub (pow2 (of_Z (-24))) (pow2 (of_Z (-77)))) with (Fin (2 ^ 53 - 1) (-77)) by (vm_compute; reflexivity).
  rewrite add_of_Z by (unfold safe_int; lia). rewrite num_ge_of_Z by (unfold safe_int; lia).
  destruct (Z.leb_spec 1 (a + 127)).
  - rewrite <- (make_odd false (2 ^ 53 - 1) (-77)) by done. rewrite div_pow2; [|lia|].
    + rewrite make_odd by done. f_equal. lia.
    + apply double_make; [lia|lia|]. change (Z.log2 (Z.abs (2 ^ 53 - 1))) with 52. lia.
  - vm_compute. reflexivity.
Qed.

Lemma rounded_spec mLen eLen m e a : widths mLen eLen -> 0 < m -> in_format mLen eLen (Fin m e) ->
  Z.log2 m + e - 1 <= a <= Z.log2 m + e + 1 -> (-1024 < a -> a <= Z.log2 m + e) ->
  let g := unit_exp mLen eLen m e in let t := m * 2 ^ (e - g) in
  exists i r, 0 <= i <= 2 /\ 0 <= r < 2 ^ i /\ 2 ^ i * t + r < 2 ^ 53 /\
    add (Fin m e) (rounding_term mLen (bias eLen) (of_Z a) (inv_pow a)) = make false (2 ^ i * t + r) (g - i).
Proof.
  intros Hw Hm Hf Ha Hfin g t. pose proof Hw as Hw'. destruct (unit_facts mLen eLen m e Hm ltac:(destruct Hw as [[-> _]|[-> _]]; lia) Hf) as (Hg & Ht & Hl & Em).
  fold g t in Hg, Ht, Hl. destruct Hw as [[-> ->]|[-> ->]].
  - exists 0, 0. change (bias 11) with 1023. rewrite rounding_double.
    2:{ unfold inv_pow. destruct (-1024 <? a); [right; by eexists|by left]. }
    change (2 ^ 0) with 1. change (52 + 1) with 53 in Ht. repeat split; try lia. rewrite Z.add_0_r, Z.mul_1_l, Z.sub_0_r.
    rewrite (make_eq false false t g m e (e - g)); [|lia|lia|done|lia]. destruct Hf as (Ho & _). by rewrite make_odd.
  - destruct Hf as (Ho & H1 & H2 & H3) eqn:Ef. clear Ef. rewrite <- Em in H1, H3. change (bias 8) with 127 in *. change (23 + 1) with 24 in *.
    pose proof (Z.log2_nonneg m) as Hl0. assert (Hf' : in_format 23 8 (Fin m e)) by (by repeat split; rewrite <- ?Em).
    assert (Ei : inv_pow a = Fin 1 (- a)) by (unfold inv_pow; destruct (Z.ltb_spec (-1024) a); [done|lia]).
    rewrite Ei, rounding_single by lia. assert (Hg' : g = Z.max (Z.log2 m + e - 23) (-149)) by done.
    destruct (Z.leb_spec 1 (a + 127)) as [H5|H5]; [destruct (Z.eq_dec a (Z.log2 m + e)) as [->|Hne]|].
    + exists 1, 1. change (2 ^ 1) with 2. repeat split; try lia.
      etransitivity; [|exact (add_half m e 1 Hm Hf' ltac:(lia))]. fold g. f_equal. f_equal. lia.
    + exists 2, 1. change (2 ^ 2) with 4. repeat split; try lia.
      etransitivity; [|exact (add_half m e 2 Hm Hf' ltac:(lia))]. fold g. f_equal. f_equal. lia.
    + exists 1, 1. change (2 ^ 1) with 2. repeat split; try lia.
      etransitivity; [|exact (add_half m e 1 Hm Hf' ltac:(lia))]. fold g. f_equal. f_equal. lia.
Qed.

Lemma log2_low t r i : 0 < t -> 0 <= i -> 0 <= r < 2 ^ i -> Z.log2 (2 ^ i * t + r) = Z.log2 t + i.
Proof.
  intros Ht Hi Hr. pose proof (Z.log2_spec t Ht). pose proof (Z.log2_nonneg t). apply Z.log2_unique; [lia|].
  replace (Z.succ (Z.log2 t + i)) with (Z.succ (Z.log2 t) + i) by lia. rewrite !Z.pow_add_r by lia. nia.
Qed.

(** After the correction the exponent is right, unless [c] has overflowed, where the number is subnormal. *)
Lemma raise_spec x h a : 0 < x < 2 ^ 53 -> let E := Z.log2 x + h in -1100 <= E <= 1023 ->
  E - 1 <= a <= E + 1 -> (-1024 < a -> a <= E) ->
  raise_exponent (make false x h) (of_Z a) (inv_pow a) = (of_Z E, Fin 1 (- E)) \/
  (E <= -1023 /\ exists a', a' <= -1023 /\ -1100 <= a' /\ raise_exponent (make false x h) (of_Z a) (inv_pow a) = (of_Z a', Inf false)).
Proof.
  intros Hx E HE Ha Hfin. assert (Hl : Z.log2 x < 53) by (apply Z.log2_lt_pow2; lia). pose proof (Z.log2_nonneg x).
  assert (Hs : add (of_Z a) (of_Z 1) = of_Z (a + 1)) by (apply add_of_Z; unfold safe_int; lia).
  unfold raise_exponent, inv_pow. change (of_Z 2) with (Fin 1 1). destruct (Z.ltb_spec (-1024) a) as [Hf|Hf].
  - left. rewrite mul_pow2, num_ge_pow2 by lia. destruct (Z.leb_spec 1 (Z.log2 x + (h + - a))) as [H1|H1].
    + rewrite Hs. f_equal; [f_equal; lia|]. rewrite <- (make_odd false 1 (- a)) by done.
      rewrite div_pow2; [rewrite make_odd by done; f_equal; lia|lia|].
      apply double_make; [lia|lia|]. change (Z.log2 (Z.abs 1)) with 0. lia.
    + assert (a = E) as -> by lia. done.
  - right. split; [lia|]. exists (a + 1). rewrite mul_inf by lia. change (num_ge (Inf false) (Fin 1 1)) with true. cbv iota.
    rewrite Hs. repeat split; lia.
Qed.

(** [sub] and [mul] on the significand, zero included. *)
Lemma sub_one x k : 0 <= k -> 2 ^ k <= x < 2 ^ 53 -> sub (make false x (- k)) (of_Z 1) = make false (x - 2 ^ k) (- k).
Proof.
  intros Hk Hx. assert (0 < 2 ^ k) by (apply Z.pow_pos_nonneg; lia). unfold sub. change (neg (of_Z 1)) with (make false (-1) 0).
  destruct (Z.eq_dec x (2 ^ k)) as [->|Hne].
  - rewrite Z.sub_diag, (make_eq false false (2 ^ k) (- k) 1 0 k); [done|lia|lia|lia|lia].
  - pose proof (add_make false false x (- k) (-1) 0 (- k)) as A. cbv zeta in A.
    replace (x * 2 ^ (- k - - k) + -1 * 2 ^ (0 - - k)) with (x - 2 ^ k) in A
      by (rewrite Z.sub_diag; replace (0 - - k) with k by lia; lia). apply A; [lia|lia|lia|lia|lia|].
    assert (k < 53) by (apply (Z.pow_lt_mono_r_iff 2); lia).
    assert (Z.log2 (x - 2 ^ k) < 53) by (apply Z.log2_lt_pow2; lia).
    apply double_make; rewrite ?Z.abs_eq by lia; lia.
Qed.

Lemma mul_pow2_nonneg m e n : 0 <= m < 2 ^ 53 -> -1074 <= e + n -> Z.log2 m + (e + n) < 1024 ->
  mul (make false m e) (Fin 1 n) = make false m (e + n).
Proof. intros Hm He Hl. destruct (Z.eq_dec m 0) as [->|Hne]; [done|]. apply mul_pow2; lia. Qed.

(** The exponent field and the significand field of a positive number. *)
Definition e_field (eLen m e : Z) : Z := if 1 - bias eLen <=? Z.log2 m + e then Z.log2 m + e + bias eLen else 0.
Definition m_field (mLen eLen m e : Z) : Z :=
  m * 2 ^ (e - unit_exp mLen eLen m e) - (if 1 - bias eLen <=? Z.log2 m + e then 2 ^ mLen else 0).

(** A significand of which the fraction is cut off when it is stored. *)
Definition cut (u x j : Z) : Prop := 0 <= j /\ j <= 2 + 52 /\ 0 <= x < 2 ^ 53 /\ x / 2 ^ j = u.

Lemma eMax_bias mLen eLen : widths mLen eLen ->
  js_shl 1 eLen - 1 = 2 ^ eLen - 1 /\ js_shr (js_shl 1 eLen - 1) 1 = bias eLen /\
  2 ^ eLen - 1 = 2 * bias eLen + 1 /\ 127 <= bias eLen <= 1023 /\ 23 <= mLen <= 52.
Proof. by intros [[-> ->]|[-> ->]]; vm_compute; intuition discriminate. Qed.

Lemma fields_finite mLen eLen m e : widths mLen eLen -> 0 < m -> in_format mLen eLen (Fin m e) -> exists x j,
  cut (m_field mLen eLen m e) x j /\
  write_fields (Fin m e) mLen eLen = (make false x (- j), of_Z (e_field eLen m e)).
Proof.
  intros Hw Hm Hf. destruct (guess_spec m e Hm (in_format_double _ _ _ Hw Hf)) as (a & Hg & Ha & Hfin).
  destruct (rounded_spec mLen eLen m e a Hw Hm Hf Ha Hfin) as (i & r & Hi & Hr & Hx & Hadd).
  destruct (eMax_bias _ _ Hw) as (E1 & E2 & E3 & Hb & HmL).
  destruct (unit_facts mLen eLen m e Hm ltac:(lia) Hf) as (Hge & Ht & Hl & Em).
  unfold write_fields. rewrite E2, E1, Hg, Hadd. clear Hadd Hg. unfold m_field, e_field.
  set (g := unit_exp mLen eLen m e) in *. set (t := m * 2 ^ (e - g)) in *. set (E := Z.log2 m + e) in *.
  assert (Hpi : 0 < 2 ^ i) by (apply Z.pow_pos_nonneg; lia). set (X := 2 ^ i * t + r) in *.
  assert (HX0 : 0 < X) by (unfold X; nia).
  assert (HlX : Z.log2 X = Z.log2 t + i) by (apply log2_low; lia).
  assert (Hl53 : Z.log2 X < 53) by (apply Z.log2_lt_pow2; lia).
  assert (HE : 1 - bias eLen - mLen <= E <= bias eLen).
  { destruct Hf as (_ & _ & ? & ?). rewrite <- Em in *. pose proof (Z.log2_nonneg m). unfold E. lia. }
  assert (HXd : X / 2 ^ i = t) by (symmetry; apply (Z.div_unique _ _ _ r); [left; lia|unfold X; lia]).
  assert (Hsub : E < 1 - bias eLen -> cut (t - 0) X i /\
     mul (mul (make false X (g - i)) (pow2 (of_Z (bias eLen - 1)))) (pow2 (of_Z mLen)) = make false X (- i)).
  { intros Hlt. split; [repeat split; lia|]. assert (g = 1 - bias eLen - mLen) by (unfold g, unit_exp; fold E; lia).
    rewrite !pow2_exact by lia. rewrite !mul_pow2 by lia. f_equal. lia. }
  destruct (raise_spec X (g - i) a) as [->|(HE' & a' & Ha' & Ha'' & ->)]; [lia|lia|lia|intros; lia|..].
  - replace (Z.log2 X + (g - i)) with E by lia. rewrite add_of_Z by (unfold safe_int; lia).
    rewrite !num_ge_of_Z by (unfold safe_int; lia).
    destruct (Z.leb_spec (2 ^ eLen - 1) (E + bias eLen)); [lia|].
    destruct (Z.leb_spec 1 (E + bias eLen)), (Z.leb_spec (1 - bias eLen) E); try lia.
    + assert (g = E - mLen) by (unfold g, unit_exp; fold E; lia). rewrite mul_pow2 by lia.
      replace (g - i + - E) with (- (mLen + i)) by lia.
      assert (H2t : 2 ^ mLen <= t) by (apply Z.log2_le_pow2; lia).
      assert (Hpm : 0 < 2 ^ mLen) by (apply Z.pow_pos_nonneg; lia).
      assert (H2X : 2 ^ (mLen + i) <= X) by (rewrite Z.pow_add_r by lia; unfold X; nia).
      rewrite sub_one, pow2_exact by lia. set (Y := X - 2 ^ (mLen + i)).
      assert (HY : 0 <= Y < 2 ^ 53) by (unfold Y; pose proof (Z.pow_pos_nonneg 2 (mLen + i)); lia).
      assert (Z.log2 Y < 53).
      { destruct (Z.eq_dec Y 0) as [->|]; [done|]. apply Z.log2_lt_pow2; lia. }
      exists Y, i. split; [|f_equal; rewrite mul_pow2_nonneg by lia; f_equal; lia]. repeat split; try lia.
      unfold Y. rewrite Z.pow_add_r by lia. replace (X - 2 ^ mLen * 2 ^ i) with (X + (- 2 ^ mLen) * 2 ^ i) by lia.
      rewrite Z.div_add, HXd by lia. lia.
    + destruct (Hsub ltac:(lia)) as [Hc ->]. by exists X, i.
  - rewrite add_of_Z by (unfold safe_int; lia). rewrite !num_ge_of_Z by (unfold safe_int; lia).
    destruct (Z.leb_spec (2 ^ eLen - 1) (a' + bias eLen)); [lia|].
    destruct (Z.leb_spec 1 (a' + bias eLen)), (Z.leb_spec (1 - bias eLen) E); try lia.
    destruct (Hsub ltac:(lia)) as [Hc ->]. by exists X, i.
Qed.

(** The two fields of a number of the format, and its word. *)
Definition e_of (eLen : Z) (v : num) : Z :=
  match v with NaN | Inf _ => 2 ^ eLen - 1 | Zero _ => 0 | Fin m e => e_field eLen (Z.abs m) e end.
Definition m_of (mLen eLen : Z) (v : num) : Z :=
  match v with NaN => 1 | Inf _ | Zero _ => 0 | Fin m e => m_field mLen eLen (Z.abs m) e end.
Definition word (mLen eLen : Z) (v : num) : Z :=
  (sign_bit v * 2 ^ eLen + e_of eLen v) * 2 ^ mLen + m_of mLen eLen v.

Lemma abs_in_format mLen eLen v : in_format mLen eLen v -> in_format mLen eLen (abs v).
Proof.
  destruct v as [| | |m e]; [done..|]. intros (Ho & Hr). cbn [abs in_format]. rewrite (Z.abs_eq (Z.abs m)) by lia.
  split; [|done]. destruct (Z.abs_eq_or_opp m) as [->| ->]; [done|]. by rewrite Z.odd_opp.
Qed.

Lemma fields_zero mLen eLen : widths mLen eLen -> exists x j,
  cut 0 x j /\ write_fields (Zero false) mLen eLen = (make false x (- j), of_Z 0).
Proof.
  intros Hw. unfold write_fields, guess_exponent. rewrite log_zero. destruct Hw as [[-> ->]|[-> ->]].
  - exists 0, 0. split; [repeat split; lia|by vm_compute].
  - exists (2 ^ 53 - 1), 54. split; [repeat split; lia|by vm_compute].
Qed.

Lemma fields_spec mLen eLen v : widths mLen eLen -> in_format mLen eLen v -> exists x j,
  cut (m_of mLen eLen v) x j /\ write_fields (abs v) mLen eLen = (make false x (- j), of_Z (e_of eLen v)).
Proof.
  intros Hw Hf. destruct v as [|s|s|m e]; cbn [abs m_of e_of].
  - exists 1, 0. split; [repeat split; lia|]. by destruct Hw as [[-> ->]|[-> ->]]; vm_compute.
  - exists 0, 0. split; [repeat split; lia|]. by destruct Hw as [[-> ->]|[-> ->]]; vm_compute.
  - by apply fields_zero.
  - apply fields_finite; [done| |by apply (abs_in_format _ _ (Fin m e))]. destruct Hf as (Ho & _).
    assert (m <> 0) by (by intros ->). lia.
Qed.

End Fields.

(** ** The word of a number stands for it *)

Lemma sign_bit_cases v : sign_bit v = if is_neg v then 1 else 0.
Proof. destruct v as [|[]|[]|m e]; try done. unfold sign_bit. cbn [isNegativeZero is_neg]. by rewrite orb_false_r. Qed.

Lemma m_field_range mLen eLen m e : widths mLen eLen -> 0 < m -> in_format mLen eLen (Fin m e) ->
  0 <= m_field mLen eLen m e < 2 ^ mLen /\ 0 <= e_field eLen m e < 2 ^ eLen - 1.
Proof.
  intros Hw Hm Hf. destruct (eMax_bias _ _ Hw) as (_ & _ & E3 & Hb & HmL).
  destruct (unit_facts mLen eLen m e Hm ltac:(lia) Hf) as (Hge & Ht & Hl & Em).
  destruct Hf as (_ & _ & H2 & H3). rewrite <- Em in *. unfold m_field, e_field, unit_exp in *.
  set (t := m * 2 ^ (e - _)) in *. rewrite Z.pow_add_r in Ht by lia.
  destruct (Z.leb_spec (1 - bias eLen) (Z.log2 m + e)).
  - assert (2 ^ mLen <= t) by (apply Z.log2_le_pow2; lia). lia.
  - assert (t < 2 ^ mLen) by (apply Z.log2_lt_pow2; lia). lia.
Qed.

Lemma decode_finite mLen eLen m e s : widths mLen eLen -> 0 < m -> in_format mLen eLen (Fin m e) -> 
  let A := e_field eLen m e in let U := m_field mLen eLen m e in
  (if A =? 0 then with_sign s U (1 - bias eLen - mLen) else with_sign s (U + 2 ^ mLen) (A - bias eLen - mLen)) =
  Fin (if s then - m else m) e.
Proof.
  intros Hw Hm Hf A U. destruct (eMax_bias _ _ Hw) as (_ & _ & E3 & Hb & HmL).
  destruct (unit_facts mLen eLen m e Hm ltac:(lia) Hf) as (Hge & Ht & Hl & Em). destruct Hf as (Ho & _).
  assert (Hk : forall g, g = unit_exp mLen eLen m e -> with_sign s (m * 2 ^ (e - g)) g = Fin (if s then - m else m) e).
  { intros g ->. unfold with_sign. set (g := unit_exp mLen eLen m e) in *.
    rewrite (make_eq s s _ g (if s then - m else m) e (e - g)); [|destruct s; lia|lia|destruct s; lia|lia].
    apply make_odd. destruct s; [by rewrite Z.odd_opp|done]. }
  assert (Eg : unit_exp mLen eLen m e = Z.max (Z.log2 m + e - mLen) (1 - bias eLen - mLen)) by done.
  unfold A, U, e_field, m_field. destruct (Z.leb_spec (1 - bias eLen) (Z.log2 m + e)).
  - destruct (Z.eqb_spec (Z.log2 m + e + bias eLen) 0); [lia|]. rewrite Z.sub_add.
    replace (Z.log2 m + e + bias eLen - bias eLen - mLen) with (unit_exp mLen eLen m e) by lia. by apply Hk.
  - rewrite Z.eqb_refl, Z.sub_0_r. replace (1 - bias eLen - mLen) with (unit_exp mLen eLen m e) by lia. by apply Hk.
Qed.

Lemma fields_range mLen eLen v : widths mLen eLen -> in_format mLen eLen v ->
  0 <= m_of mLen eLen v < 2 ^ mLen /\ 0 <= e_of eLen v < 2 ^ eLen.
Proof.
  intros Hw Hf. destruct v as [| | |m e].
  1-3: by destruct Hw as [[-> ->]|[-> ->]]; vm_compute; intuition discriminate.
  assert (m <> 0) by (destruct Hf as (? & _); by intros ->).
  destruct (m_field_range mLen eLen (Z.abs m) e Hw ltac:(lia) (abs_in_format _ _ (Fin m e) Hf)). cbn [m_of e_of]. lia.
Qed.

Lemma word_decode mLen eLen v : widths mLen eLen -> in_format mLen eLen v -> ieee_decode mLen eLen (word mLen eLen v) = v.
Proof.
  intros Hw Hf. destruct (fields_range _ _ _ Hw Hf) as (HM & HE). destruct (eMax_bias _ _ Hw) as (_ & _ & E3 & Hb & HmL).
  destruct (fields_of_word (sign_bit v) (e_of eLen v) (m_of mLen eLen v) 0 (2 ^ eLen) (2 ^ mLen) 1 ltac:(lia) HM HE ltac:(lia)) as (F1 & F2 & F3).
  rewrite !Z.mul_1_r, !Z.add_0_r in F1, F2, F3. fold (word mLen eLen v) in F1, F2, F3.
  assert (0 <= eLen) by (destruct Hw as [[_ ->]|[_ ->]]; lia).
  unfold ieee_decode. rewrite Z.pow_add_r, F1, F2, F3 by lia. rewrite Z.mul_1_r, Z.add_0_r, sign_bit_cases.
  replace (negb ((if is_neg v then 1 else 0) =? 0)) with (is_neg v) by (by destruct (is_neg v)).
  destruct v as [|s|s|m e]; cbn [e_of m_of is_neg].
  - by rewrite Z.eqb_refl.
  - by rewrite Z.eqb_refl.
  - destruct (Z.eqb_spec 0 (2 ^ eLen - 1)); [lia|]. by destruct s.
  - assert (m <> 0) by (destruct Hf as (? & _); by intros ->). apply abs_in_format in Hf. cbn [abs] in Hf.
    destruct (m_field_range mLen eLen (Z.abs m) e Hw ltac:(lia) Hf).
    destruct (Z.eqb_spec (e_field eLen (Z.abs m) e) (2 ^ eLen - 1)); [lia|].
    etransitivity; [by apply (decode_finite mLen eLen (Z.abs m) e (m <? 0) Hw ltac:(lia) Hf)|].
    f_equal. destruct (Z.ltb_spec m 0); lia.
Qed.
