(* ===== verification/BufferFloatWrite.v ===== *)
(** The bytes the floating-point writers of Buffer store, and their round trip through the
    readers. *)
From S2P Require Import Prelude JsString JsNumber JsArith BufferStore BufferInt BufferFloat BufferFloatLaws.

(** ** Storing bytes one after the other, upwards or downwards *)

Fixpoint puts (b : view) (p d : Z) (bs : list Z) (h : store) : store :=
  match bs with [] => h | x :: bs' => puts b (p + d) d bs' (write_bytes b (Z.to_nat p) [x] h) end.

Lemma puts_app b d l1 l2 : forall p h, puts b p d (l1 ++ l2) h = puts b (p + Z.of_nat (length l1) * d) d l2 (puts b p d l1 h).
Proof.
  induction l1 as [|x l1 IH]; intros p h; cbn [app puts length]; [f_equal; lia|]. rewrite IH. f_equal. lia.
Qed.

Lemma puts_up b bs : forall (p : nat) h, puts b (Z.of_nat p) 1 bs h = write_bytes b p bs h.
Proof.
  induction bs as [|x bs IH]; intros p h; cbn [puts]; [by rewrite write_bytes_nil|].
  replace (Z.of_nat p + 1) with (Z.of_nat (S p)) by lia. rewrite IH, Nat2Z.id. apply write_bytes_cons.
Qed.

Lemma puts_down b bs : forall (p : nat) h, puts b (Z.of_nat p + Z.of_nat (length bs) - 1) (-1) bs h = write_bytes b p (rev bs) h.
Proof.
  induction bs as [|x bs IH]; intros p h; cbn [puts rev length]; [by rewrite write_bytes_nil|].
  replace (Z.of_nat p + Z.of_nat (S (length bs)) - 1 + -1) with (Z.of_nat p + Z.of_nat (length bs) - 1) by lia. rewrite IH.
  replace (Z.to_nat _) with (p + length (rev bs))%nat by (rewrite length_rev; lia). apply write_bytes_app_down.
Qed.

Lemma wf_puts b d bs : forall p h, Forall byte bs -> wf_view h b -> wf_view (puts b p d bs h) b.
Proof.
  induction bs as [|x bs IH]; intros p h HF Hwf; cbn [puts]; [done|]. inversion HF; subst.
  apply IH; [done|]. apply wf_write_bytes; [done|]. by constructor.
Qed.

Lemma write_twice b o x y h : write_bytes b o [y] (write_bytes b o [x] h) = write_bytes b o [y] h.
Proof.
  unfold write_bytes. rewrite upd_array_compose. apply upd_array_ext. intros l. simpl. apply list_insert_insert_eq.
Qed.

(** ** The writing loop *)

Lemma div_256 x j : 0 <= x < 2 ^ 53 -> 0 <= j <= 1000 -> div (make false x (- j)) (of_Z 256) = make false x (- (j + 8)).
Proof.
  intros Hx Hj. destruct (Z.eq_dec x 0) as [->|Hne]; [done|]. change (of_Z 256) with (Fin 1 8).
  rewrite div_pow2; [f_equal; lia|lia|]. assert (Z.log2 x < 53) by (apply Z.log2_lt_pow2; lia).
  apply double_make; rewrite ?Z.abs_eq by lia; lia.
Qed.

Lemma scatter_spec b o d n : forall i x j h, 0 <= x < 2 ^ 53 -> 0 <= j -> j + 8 * Z.of_nat n <= 1000 ->
  (forall k, 0 <= k < Z.of_nat n -> 0 <= o + i + k * d < blen b) ->
  scatter b o i d n (make false x (- j)) h =
  Done (make false x (- (j + 8 * Z.of_nat n)), i + Z.of_nat n * d) (puts b (o + i) d (le_bytes n (x / 2 ^ j)) h).
Proof.
  induction n as [|n IH]; intros i x j h Hx Hj Hn Hb.
  - cbn [scatter le_bytes puts]. unfold ret. do 2 f_equal; [f_equal; lia|lia].
  - cbn [scatter le_bytes puts].
    erewrite bind_Done by (apply bset_in; specialize (Hb 0 ltac:(lia)); by rewrite Z.mul_0_l, Z.add_0_r in Hb).
    rewrite trunc_make, js_and_comm, js_and_255, toUint8_mod, div_256 by lia. rewrite IH; [|lia|lia|lia|].
    + rewrite Z.pow_add_r, <- Z.div_div by (try apply Z.pow_nonzero; lia). change (2 ^ 8) with 256.
      replace (o + (i + d)) with (o + i + d) by lia. do 2 f_equal; [f_equal; lia|lia].
    + intros k Hk. specialize (Hb (k + 1) ltac:(lia)). lia.
Qed.

Lemma le_bytes_app n k v : le_bytes (n + k) v = le_bytes n v ++ le_bytes k (v / 256 ^ Z.of_nat n).
Proof.
  revert v. induction n as [|n IH]; intros v; [by rewrite Z.pow_0_r, Z.div_1_r|]. cbn [le_bytes Nat.add app].
  rewrite IH, pow256_S, Z.div_div by (try apply pow256_pos; lia). done.
Qed.

(** The last two bytes: what is left of the significand, the exponent above it, and the sign. *)
Lemma last_bytes k q s A U : 0 <= q -> 0 <= U < 256 ^ Z.of_nat k * 2 ^ q -> 0 <= A < 2 ^ (15 - q) -> q < 8 -> 0 <= s <= 1 ->
  let V := A * 2 ^ q + U / 256 ^ Z.of_nat k in
  let W := (s * 2 ^ (15 - q) + A) * (256 ^ Z.of_nat k * 2 ^ q) + U in
  0 <= U / 256 ^ Z.of_nat k < 2 ^ q /\ 0 <= V < 2 ^ 15 /\
  le_bytes (S (S k)) W = le_bytes k U ++ [V mod 256; V / 256 + 128 * s].
Proof.
  intros Hq HU HA Hq8 Hs V W. pose proof (pow256_pos k) as HK. set (K := 256 ^ Z.of_nat k) in *.
  assert (H15 : 2 ^ 15 = 2 ^ (15 - q) * 2 ^ q) by (rewrite <- Z.pow_add_r by lia; f_equal; lia).
  assert (Hd : 0 <= U / K < 2 ^ q) by (split; [apply Z.div_pos; lia|apply Z.div_lt_upper_bound; lia]).
  assert (HV : 0 <= V < 2 ^ 15) by (unfold V; nia). split; [done|]. split; [done|].
  assert (HW : W / K = s * 2 ^ 15 + V).
  { unfold W, V. replace ((s * 2 ^ (15 - q) + A) * (K * 2 ^ q) + U) with (U + (s * 2 ^ (15 - q) + A) * 2 ^ q * K) by ring.
    rewrite Z.div_add by lia. rewrite H15. ring. }
  replace (S (S k)) with (k + 2)%nat by lia. rewrite le_bytes_app. f_equal.
  - rewrite <- (le_bytes_add k U ((s * 2 ^ (15 - q) + A) * 2 ^ q)). f_equal. unfold W. fold K. ring.
  - fold K. rewrite HW. change (2 ^ 15) with (256 * 128) in *. cbn [le_bytes]. f_equal; [|f_equal].
    + replace (s * (256 * 128) + V) with (V + (s * 128) * 256) by ring. apply Z.mod_add. lia.
    + replace (s * (256 * 128) + V) with (V + (s * 128) * 256) by ring. rewrite Z.div_add by lia.
      assert (0 <= V / 256 < 128) by (split; [apply Z.div_pos; lia|apply Z.div_lt_upper_bound; lia]).
      rewrite Z.mod_small by lia. lia.
Qed.

Section Write.
Context {ML : MathLog} {LL : MathLogLaws}.

Lemma format_widths mLen nBytes q k : format mLen nBytes q k -> widths mLen (15 - q).
Proof. intros (-> & _ & [[-> ->]|[-> ->]]); [by left|by right]. Qed.

Lemma toUint8_or B s : 0 <= B < 128 -> 0 <= s <= 1 -> toUint8 (js_or B (128 * s)) = B + 128 * s.
Proof.
  intros HB Hs. change 128 with (2 ^ 7). rewrite (Z.mul_comm (2 ^ 7) s). rewrite js_or_add by lia. apply toUint8_id. lia.
Qed.

(** The exponent put above the rest of the significand. *)
Lemma exponent_or A u q : 0 <= q < 8 -> 0 <= u < 2 ^ q -> 0 <= A < 2 ^ (15 - q) -> js_or (js_shl A q) u = A * 2 ^ q + u.
Proof.
  intros Hq Hu HA. assert (H15 : 2 ^ 15 = 2 ^ (15 - q) * 2 ^ q) by (rewrite <- Z.pow_add_r by lia; f_equal; lia).
  assert (A * 2 ^ q < 2 ^ 15) by nia. rewrite js_shl_mul, toInt32_id by nia. by apply js_or_add_l; nia.
Qed.

Lemma write_spec b v o (isLE : bool) mLen nBytes q k h : format mLen nBytes q k -> in_format mLen (15 - q) v ->
  wf_view h b -> (o + S (S k) <= v_len b)%nat ->
  let i := if isLE then 0 else nBytes - 1 in
  let d := if isLE then 1 else -1 in
  ieee754_write b v (Z.of_nat o) isLE mLen nBytes h =
  Done tt (puts b (Z.of_nat o + i) d (le_bytes (S (S k)) (word mLen (15 - q) v)) h).
Proof.
  intros Hfm Hf Hwf Ho i d. pose proof (format_widths _ _ _ _ Hfm) as Hw.
  destruct (fields_range _ _ _ Hw Hf) as (HU & HA). destruct (fields_spec _ _ _ Hw Hf) as (x & j & (Hj0 & Hj & Hx & Hxj) & Efs).
  assert (Hs : 0 <= sign_bit v <= 1) by (rewrite sign_bit_cases; destruct (is_neg v); lia).
  destruct Hfm as (-> & -> & Hq). assert (Hq8 : 0 <= q < 8) by lia. assert (Hk : (k <= 6)%nat) by lia. clear Hq.
  unfold ieee754_write. replace (8 * (2 + Z.of_nat k) - (8 * Z.of_nat k + q) - 1) with (15 - q) by lia. cbv zeta. fold i d.
  rewrite Efs. unfold word. set (A := e_of (15 - q) v) in *. set (U := m_of (8 * Z.of_nat k + q) (15 - q) v) in *. set (s := sign_bit v) in *.
  rewrite Z.pow_add_r, <- pow256 in HU |- * by lia.
  destruct (last_bytes k q s A U ltac:(lia) HU HA ltac:(lia) Hs) as (Hu & HV & Elb). rewrite Elb. clear Elb.
  set (V := A * 2 ^ q + U / 256 ^ Z.of_nat k) in *.
  assert (Hin : forall n, 0 <= n < Z.of_nat k + 2 -> 0 <= Z.of_nat o + i + n * d < blen b) by (unfold blen, i, d; destruct isLE; lia).
  assert (Ed : Z.to_nat ((8 * Z.of_nat k + q) / 8) = k) by (Z.div_mod_to_equations; lia).
  assert (Em : (8 * Z.of_nat k + q) mod 8 = q) by (Z.div_mod_to_equations; lia).
  rewrite Ed, Em. erewrite bind_Done by (apply scatter_spec; [lia|lia|lia|intros; apply Hin; lia]). cbn [fst snd].
  rewrite trunc_of_Z, trunc_make by (try lia; pose proof (Z.pow_le_mono_r 2 (15 - q) 15); lia). rewrite Hxj.
  rewrite Z.pow_add_r, <- Z.div_div, Hxj, <- pow256 by (try apply Z.pow_nonzero; try apply Z.pow_pos_nonneg; lia).
  rewrite exponent_or by lia. fold V. replace (turns (15 - q + q)) with 2%nat by (by replace (15 - q + q) with 15 by lia).
  rewrite of_Z_make by (unfold safe_int; lia). change (make false V 0) with (make false V (- 0)).
  erewrite bind_Done by (apply scatter_spec; [lia|lia|lia|intros n ?; specialize (Hin (n + Z.of_nat k) ltac:(lia)); lia]).
  cbn [fst snd]. change (2 ^ 0) with 1. rewrite Z.div_1_r. cbn [le_bytes].
  assert (HB : 0 <= V / 256 < 128) by (split; [apply Z.div_pos; lia|apply Z.div_lt_upper_bound; lia]).
  rewrite (Z.mod_small (V / 256)) by lia. cbn [puts].
  set (p := Z.of_nat o + i + (Z.of_nat k + 1) * d). assert (Hp : 0 <= p < blen b) by (apply Hin; lia).
  replace (Z.of_nat o + (i + Z.of_nat k * d) + d) with p by (unfold p; lia).
  replace (Z.of_nat o + (i + Z.of_nat k * d + Z.of_nat 2 * d) - d) with p by (unfold p; lia).
  set (h1 := write_bytes b (Z.to_nat (Z.of_nat o + (i + Z.of_nat k * d))) [V mod 256] _).
  assert (Hwf1 : wf_view h1 b).
  { apply wf_write_bytes; [apply wf_puts; [apply le_bytes_bytes|done]|]. apply Forall_byte_1, Z.mod_pos_bound. lia. }
  assert (Hlen : (Z.to_nat p < v_len b)%nat) by (unfold blen in Hp; lia).
  rewrite (bind_Done _ _ _ (Some (V / 256)) (write_bytes b (Z.to_nat p) [V / 256] h1)).
  2:{ rewrite get_Z by first [lia|apply wf_write_bytes; [done|apply Forall_byte_1; lia]].
      rewrite contents_write_bytes by (try done; cbn [length]; lia). cbn [list_inserts].
      rewrite list_lookup_insert_eq by (rewrite length_contents by done; lia). reflexivity. }
  cbn [n32 default id]. rewrite bset_in, toUint8_or, write_twice by lia. f_equal.
  rewrite puts_app, length_le_bytes. cbn [puts]. unfold h1.
  replace (Z.of_nat o + i + Z.of_nat k * d) with (Z.of_nat o + (i + Z.of_nat k * d)) by lia.
  do 2 f_equal. unfold p. lia.
Qed.

(** ** The methods *)

Record float_codec := FloatCodec {
  fc_bytes : nat;
  fc_mLen : Z;
  fc_eLen : Z;
  fc_little_endian : bool;
  fc_write : view -> num -> Z -> bool -> M store Z;
  fc_read : view -> Z -> bool -> M store num
}.

Definition FloatLE := FloatCodec 4 23 8 true writeFloatLE readFloatLE.
Definition FloatBE := FloatCodec 4 23 8 false writeFloatBE readFloatBE.
Definition DoubleLE := FloatCodec 8 52 11 true writeDoubleLE readDoubleLE.
Definition DoubleBE := FloatCodec 8 52 11 false writeDoubleBE readDoubleBE.
Definition float_codecs : list float_codec := [FloatLE; FloatBE; DoubleLE; DoubleBE].

(** The bytes of a number of the format, and the number of bytes. *)
Definition fc_encode (c : float_codec) (v : num) : list Z :=
  let bs := le_bytes (fc_bytes c) (word (fc_mLen c) (fc_eLen c) v) in if fc_little_endian c then bs else rev bs.
Definition fc_decode (c : float_codec) (bs : list Z) : num :=
  ieee_decode (fc_mLen c) (fc_eLen c) (le_val (if fc_little_endian c then bs else rev bs)).

Lemma fc_encode_length c v : length (fc_encode c v) = fc_bytes c.
Proof. unfold fc_encode. destruct (fc_little_endian c); rewrite ?length_rev; apply length_le_bytes. Qed.

Lemma fc_encode_bytes c v : Forall byte (fc_encode c v).
Proof. unfold fc_encode. destruct (fc_little_endian c); [|apply Forall_rev]; apply le_bytes_bytes. Qed.

Lemma word_range mLen eLen v : widths mLen eLen -> in_format mLen eLen v -> 0 <= word mLen eLen v < 2 ^ (1 + eLen + mLen).
Proof.
  intros Hw Hf. destruct (fields_range _ _ _ Hw Hf) as (HM & HE).
  assert (Hs : 0 <= sign_bit v <= 1) by (rewrite sign_bit_cases; destruct (is_neg v); lia).
  destruct (eMax_bias _ _ Hw) as (_ & _ & _ & _ & HmL). assert (0 <= eLen) by (destruct Hw as [[_ ->]|[_ ->]]; lia).
  rewrite !Z.pow_add_r by lia. unfold word. change (2 ^ 1) with 2. set (E := 2 ^ eLen) in *. set (P := 2 ^ mLen) in *.
  assert (0 <= sign_bit v * E + e_of eLen v < 2 * E) by nia. nia.
Qed.

Lemma float_codec_format c : c ∈ float_codecs -> exists q k,
  format (fc_mLen c) (Z.of_nat (fc_bytes c)) q k /\ fc_eLen c = 15 - q /\ fc_bytes c = S (S k) /\
  widths (fc_mLen c) (fc_eLen c) /\ 1 + fc_eLen c + fc_mLen c = 8 * Z.of_nat (fc_bytes c).
Proof.
  unfold float_codecs. rewrite !elem_of_cons, elem_of_nil.
  intros [->|[->|[->|[->|[]]]]]; [exists 7, 2%nat|exists 7, 2%nat|exists 4, 6%nat|exists 4, 6%nat]; unfold format, widths; cbn; lia.
Qed.

Lemma fc_decode_encode c v : c ∈ float_codecs -> in_format (fc_mLen c) (fc_eLen c) v -> fc_decode c (fc_encode c v) = v.
Proof.
  intros Hc Hf. destruct (float_codec_format c Hc) as (q & k & _ & _ & _ & Hw & Hn).
  unfold fc_decode, fc_encode. replace (if fc_little_endian c then _ else _) with (le_bytes (fc_bytes c) (word (fc_mLen c) (fc_eLen c) v)).
  2:{ destruct (fc_little_endian c); [done|]. by rewrite rev_involutive. }
  rewrite le_val_bytes, Z.mod_small; [by apply word_decode|]. rewrite pow256, <- Hn. by apply word_range.
Qed.

(** What the readers return for any bytes. *)
Lemma fc_read_spec c h b (o : nat) : c ∈ float_codecs -> wf_view h b -> (o + fc_bytes c <= v_len b)%nat ->
  fc_read c b (Z.of_nat o) false h = Done (fc_decode c (window h b o (fc_bytes c))) h.
Proof.
  intros Hc Hwf Ho. assert (Hr : ieee754_read b (Z.of_nat o) (fc_little_endian c) (fc_mLen c) (Z.of_nat (fc_bytes c)) h =
    Done (fc_decode c (window h b o (fc_bytes c))) h).
  { destruct (float_codec_format c Hc) as (q & k & Hfm & Eq & Ek & _). set (w := window h b o (fc_bytes c)).
    assert (Hl : length w = fc_bytes c) by (by apply (length_window h b b o o)).
    assert (HF : Forall byte w) by (by apply window_bytes).
    rewrite (read_list b (Z.of_nat o) (fc_little_endian c) _ _ q k (if fc_little_endian c then rev w else w) h Hfm).
    - unfold fc_decode. rewrite Eq, be_val_le, Z.mul_0_l, Z.add_0_l. destruct (fc_little_endian c); by rewrite ?rev_involutive.
    - destruct (fc_little_endian c); [by apply Forall_rev|done].
    - rewrite <- Ek. destruct (fc_little_endian c); by rewrite ?length_rev.
    - intros j x Hj.
      assert (Hx : exists n, w !! n = Some x /\ (n < fc_bytes c)%nat /\
        Z.of_nat o + (if fc_little_endian c then Z.of_nat (fc_bytes c) - 1 else 0) + Z.of_nat j * (if fc_little_endian c then -1 else 1) = Z.of_nat (o + n)).
      { pose proof (lookup_lt_Some _ _ _ Hj) as Hlt. destruct (fc_little_endian c).
        - rewrite length_rev in Hlt. rewrite rev_alt in Hj. change (reverse w !! j = Some x) in Hj.
          rewrite reverse_lookup in Hj by lia. exists (length w - S j)%nat. split; [done|lia].
        - exists j. split; [done|lia]. }
      destruct Hx as (n & Hn & Hlt & ->). rewrite get_nat by done. f_equal. rewrite <- Hn. by apply (window_lookup h b b o o). }
  unfold float_codecs in Hc. rewrite !elem_of_cons, elem_of_nil in Hc.
  destruct Hc as [->|[->|[->|[->|[]]]]]; cbn in Ho |- *;
    unfold readFloatLE, readFloatBE, readDoubleLE, readDoubleBE; cbn [negb mwhen];
    (erewrite bind_Done by (apply checkOffset_ok; unfold blen; lia)); exact Hr.
Qed.

Lemma checkIEEE754_ok b o ext h : 0 <= o -> o + ext <= blen b -> checkIEEE754 b o ext h = Done tt h.
Proof. intros H1 H2. unfold checkIEEE754. destr_cmp; [lia|lia|done]. Qed.

Lemma fc_write_spec c h b v (o : nat) : c ∈ float_codecs -> wf_view h b -> (o + fc_bytes c <= v_len b)%nat ->
  in_format (fc_mLen c) (fc_eLen c) v ->
  fc_write c b v (Z.of_nat o) false h = Done (Z.of_nat o + Z.of_nat (fc_bytes c)) (write_bytes b o (fc_encode c v) h).
Proof.
  intros Hc Hwf Ho Hf.
  assert (Hr : ieee754_write b v (Z.of_nat o) (fc_little_endian c) (fc_mLen c) (Z.of_nat (fc_bytes c)) h =
    Done tt (write_bytes b o (fc_encode c v) h)).
  { destruct (float_codec_format c Hc) as (q & k & Hfm & Eq & Ek & _). rewrite Eq in Hf.
    rewrite (write_spec b v o (fc_little_endian c) _ _ q k h Hfm Hf Hwf) by lia. f_equal. unfold fc_encode. rewrite Eq, <- Ek.
    destruct (fc_little_endian c); [by rewrite Z.add_0_r, puts_up|].
    rewrite <- puts_down, length_le_bytes. f_equal. lia. }
  unfold float_codecs in Hc. rewrite !elem_of_cons, elem_of_nil in Hc.
  destruct Hc as [->|[->|[->|[->|[]]]]]; cbn [fc_write fc_bytes FloatLE FloatBE DoubleLE DoubleBE] in Ho |- *;
    unfold writeFloatLE, writeFloatBE, writeDoubleLE, writeDoubleBE, writeFloat, writeDouble; cbn [negb mwhen];
    (erewrite bind_Done by (apply checkIEEE754_ok; unfold blen; lia)); (erewrite bind_Done by exact Hr); done.
Qed.

Lemma fc_roundtrip c h b v (o : nat) : c ∈ float_codecs -> wf_view h b -> (o + fc_bytes c <= v_len b)%nat ->
  in_format (fc_mLen c) (fc_eLen c) v ->
  let h' := write_bytes b o (fc_encode c v) h in
  wf_view h' b /\ contents h' b = list_inserts o (fc_encode c v) (contents h b) /\
  fc_read c b (Z.of_nat o) false h' = Done v h'.
Proof.
  intros Hc Hwf Ho Hf h'. assert (Hwf' : wf_view h' b) by (apply wf_write_bytes; [done|apply fc_encode_bytes]).
  assert (E : contents h' b = list_inserts o (fc_encode c v) (contents h b))
    by (apply contents_write_bytes; [done|by rewrite fc_encode_length]).
  split; [done|]. split; [done|]. rewrite fc_read_spec by done. f_equal. unfold window. rewrite E.
  rewrite <- (fc_encode_length c v) at 1. rewrite take_drop_list_inserts by (by rewrite fc_encode_length, length_contents).
  by apply fc_decode_encode.
Qed.

(** A place that is not inside the buffer is refused, by writers and readers, and nothing is stored. *)
Lemma float_access_rejects c h b v o : c ∈ float_codecs -> o < 0 \/ blen b < o + Z.of_nat (fc_bytes c) ->
  fc_write c b v o false h = Raise (RangeError "Index out of range") h /\
  exists msg, fc_read c b o false h = Raise (RangeError msg) h.
Proof.
  intros Hc Ho.
  assert (Hw : checkIEEE754 b o (Z.of_nat (fc_bytes c)) h = Raise (RangeError "Index out of range") h)
    by (unfold checkIEEE754; destr_cmp; (done || lia)).
  assert (Hr : exists msg, checkOffset o (Z.of_nat (fc_bytes c)) (blen b) h = Raise (RangeError msg) h)
    by (unfold checkOffset; destr_cmp; first [by eexists|lia]).
  unfold float_codecs in Hc. rewrite !elem_of_cons, elem_of_nil in Hc. destruct Hr as [msg Hr].
  destruct Hc as [->|[->|[->|[->|[]]]]]; (split; [|exists msg]);
    cbn [fc_write fc_read FloatLE FloatBE DoubleLE DoubleBE];
    unfold writeFloatLE, writeFloatBE, writeDoubleLE, writeDoubleBE, writeFloat, writeDouble,
      readFloatLE, readFloatBE, readDoubleLE, readDoubleBE; cbn [negb mwhen];
    first [by erewrite bind_Raise by exact Hw|by erewrite bind_Raise by exact Hr].
Qed.
End Write.

(** ** Properties *)

(** The binary exponent times [LN2] will do as a logarithm: a check of every exponent of a double. *)
Definition exponent_near (k : Z) : bool :=
  let x := floor (div (mul (of_Z k) LN2) LN2) in bool_decide (x = of_Z k) || bool_decide (x = of_Z (k - 1)).

Lemma exponents_near : forallb exponent_near (seqZ (-1074) 2098) = true.
Proof. vm_compute. reflexivity. Qed.

#[export] Instance coarse_log_laws : @MathLogLaws coarse_log.
Proof.
  split; [done|]. intros m e Hm (_ & H1 & H2 & H3). rewrite Z.abs_eq in * by lia. pose proof (Z.log2_nonneg m).
  unfold math_log, coarse_log. destruct (Z.ltb_spec m 0); [lia|]. set (k := Z.log2 m + e) in *.
  pose proof exponents_near as Hall. rewrite forallb_forall in Hall. specialize (Hall k).
  unfold exponent_near in Hall. rewrite orb_true_iff, !bool_decide_eq_true in Hall.
  destruct Hall as [E|E]; [apply list_elem_of_In, elem_of_seqZ; lia|exists k|exists (k - 1)]; (split; [exact E|lia]).
Qed.

(** C12: The floating-point methods of Buffer, single and double, in both byte orders: a number of
    the format (for the doubles, every number) written inside the buffer, for any [Math.log] that
    is at most one binary exponent off, is stored as the bytes of its IEEE 754 word in the method's
    order and nothing else is changed, the offset after it is returned, and the reader returns it:
    zeros with their sign, subnormals, infinities and NaN included. *)
Theorem float_write_read_roundtrip (ML : MathLog) (LL : MathLogLaws) c h b v (o : nat) :
  c ∈ float_codecs -> wf_view h b -> (o + fc_bytes c <= v_len b)%nat -> in_format (fc_mLen c) (fc_eLen c) v ->
  fc_decode c (fc_encode c v) = v /\
  exists h', fc_write c b v (Z.of_nat o) false h = Done (Z.of_nat o + Z.of_nat (fc_bytes c)) h' /\
    wf_view h' b /\ contents h' b = list_inserts o (fc_encode c v) (contents h b) /\
    fc_read c b (Z.of_nat o) false h' = Done v h'.
Proof.
  intros Hc Hwf Ho Hf. split; [by apply fc_decode_encode|]. eexists. split; [by apply fc_write_spec|].
  by apply fc_roundtrip.
Qed.

Definition float_store : store := Store [repeat 170 10] 1.
Definition float_view : view := View 0 0 0 10.

Lemma float_write_read_roundtrip_witness :
  exists h', @writeDoubleBE coarse_log float_view (Fin (-7) (-1)) 1 false float_store = Done 9 h' /\
    contents h' float_view = [170; 192; 12; 0; 0; 0; 0; 0; 0; 170] /\
    readDoubleBE float_view 1 false h' = Done (Fin (-7) (-1)) h'.
Proof.
  destruct (float_write_read_roundtrip coarse_log coarse_log_laws (@DoubleBE coarse_log) float_store float_view (Fin (-7) (-1)) 1)
    as (_ & h' & E & _ & C & R); [by do 3 right; left|vm_decide|vm_compute; lia|vm_compute; intuition discriminate|].
  exists h'. split; [exact E|]. split; [rewrite C; by vm_compute|exact R].
Defined.

(** A number half way between two singles is stored as the one away from zero: [1 + 2 ^ -24] as
    [1 + 2 ^ -23], where IEEE 754 rounds to the even significand, 1. *)
Example float_tie_away :
  match (let! _ := @writeFloatBE coarse_log float_view (Fin (2 ^ 24 + 1) (-24)) 0 false in readFloatBE float_view 0 false) float_store with
  | Done x _ => x = Fin (2 ^ 23 + 1) (-23)
  | _ => False
  end.
Proof. vm_compute. reflexivity. Qed.
