(* ===== verification/YamlValue.v ===== *)
(** The JavaScript values js-yaml loads and dumps, the heap they live in, and the
    helpers of js-yaml's common.js. *)
From S2P Require Import Prelude JsString JsNumber.

(** ** Values and heap

    Arrays, plain objects, dates, buffers and regular expressions have an identity (anchors and
    aliases share them, merge keys mutate them), so they are heap cells. *)

Inductive value :=
  | VUndef
  | VNull
  | VBool (b : bool)
  | VNum (n : num)
  | VStr (s : jsstr)
  | VFunc (params : list jsstr) (body : jsstr)
  | VRef (l : nat).

#[global] Instance value_eq_dec : EqDecision value.
Proof. solve_decision. Defined.

(** A plain object is the list of its own properties in insertion order. *)
Inductive obj :=
  | OArr (l : list value)
  | OObj (l : list (jsstr * value))
  | ODate (t : Z)              (* milliseconds since the epoch *)
  | OBuf (l : list Z)
  | ORegExp (source : jsstr) (global ignoreCase multiline : bool).

Abbreviation heap := (list obj).

Definition alloc_obj (h : heap) (o : obj) : value * heap := (VRef (length h), h ++ [o]).

(** ** Own properties *)

Fixpoint assoc {A} (k : jsstr) (l : list (jsstr * A)) : option A :=
  match l with
  | [] => None
  | (k', v) :: l' => if bool_decide (k = k') then Some v else assoc k l'
  end.

(** [Object.prototype.hasOwnProperty.call(o, k)] *)
Definition has_own {A} (k : jsstr) (l : list (jsstr * A)) : bool :=
  match assoc k l with Some _ => true | None => false end.

Fixpoint put {A} (k : jsstr) (v : A) (l : list (jsstr * A)) : list (jsstr * A) :=
  match l with
  | [] => [(k, v)]
  | (k', v') :: l' => if bool_decide (k = k') then (k', v) :: l' else (k', v') :: put k v l'
  end.

(** [o[k] = v]: assigning [__proto__] makes no own property. *)
Definition set_prop {A} (k : jsstr) (v : A) (l : list (jsstr * A)) : list (jsstr * A) :=
  if bool_decide (k = js "__proto__") then l else put k v l.

(** [delete o[k]] *)
Fixpoint del_prop {A} (k : jsstr) (l : list (jsstr * A)) : list (jsstr * A) :=
  match l with
  | [] => []
  | (k', v) :: l' => if bool_decide (k = k') then l' else (k', v) :: del_prop k l'
  end.

(** The array index a key spells, if it does. *)
Definition array_index (k : jsstr) : option Z :=
  match span_digits k with
  | (d :: ds, []) =>
      let n := digits_value 10 (d :: ds) in
      if bool_decide (digits 10 n = k) && (n <? 2 ^ 32 - 1) then Some n else None
  | _ => None
  end.

Fixpoint insert_index (n : Z) (k : jsstr) (l : list (Z * jsstr)) : list (Z * jsstr) :=
  match l with
  | [] => [(n, k)]
  | (n', k') :: l' => if n <=? n' then (n, k) :: l else (n', k') :: insert_index n k l'
  end.

(** [Object.keys]: array indices in ascending order, then the other keys in
    insertion order. *)
Definition obj_keys {A} (l : list (jsstr * A)) : list jsstr :=
  let ks := fst <$> l in
  let idx := foldr (fun k acc => match array_index k with
                                 | Some n => insert_index n k acc | None => acc end) [] ks in
  (snd <$> idx) ++ base.filter (fun k => array_index k = None) ks.

(** ** common.js *)

Definition isNothing (v : value) : bool :=
  match v with VUndef | VNull => true | _ => false end.

(** [typeof v === "object" && v !== null] *)
Definition isObject (v : value) : bool := match v with VRef _ => true | _ => false end.

(** [toArray]: an array stays, nothing is no element, the rest is one element. *)
Definition toArray (h : heap) (v : value) : list value :=
  match v with
  | VRef l => match h !! l with Some (OArr vs) => vs | _ => [v] end
  | _ => if isNothing v then [] else [v]
  end.

(** [extend(target, source)] copies the own properties. *)
Definition extend {A} (target source : list (jsstr * A)) : list (jsstr * A) :=
  foldl (fun t k => match assoc k source with Some v => set_prop k v t | None => t end)
    target (obj_keys source).

Fixpoint repeat_str (s : jsstr) (n : nat) : jsstr :=
  match n with O => [] | S n' => s ++ repeat_str s n' end.

Definition repeat (s : jsstr) (count : Z) : jsstr := repeat_str s (Z.to_nat count).

(** ** Laws of own properties *)

Section Props.
Context {A : Type}.
Implicit Types (l : list (jsstr * A)) (k : jsstr) (v : A).

Lemma assoc_put_eq k v l : assoc k (put k v l) = Some v.
Proof.
  induction l as [|[k' v'] l IH]; simpl.
  - by rewrite bool_decide_eq_true_2.
  - case_bool_decide as E; simpl; [by rewrite bool_decide_eq_true_2|].
    by rewrite bool_decide_eq_false_2.
Qed.

Lemma assoc_put_ne k k' v l : k <> k' -> assoc k (put k' v l) = assoc k l.
Proof.
  intros Hne. induction l as [|[k2 v2] l IH]; simpl.
  - by rewrite bool_decide_eq_false_2.
  - case_bool_decide as E; simpl; [subst; by rewrite !bool_decide_eq_false_2|].
    case_bool_decide; [done|]. exact IH.
Qed.

Lemma assoc_set_prop k k' v l :
  assoc k (set_prop k' v l) =
  if bool_decide (k = k' /\ k' <> js "__proto__") then Some v else assoc k l.
Proof.
  unfold set_prop. case_bool_decide as E.
  - rewrite bool_decide_eq_false_2; [done|]. tauto.
  - destruct (decide (k = k')) as [->|Hne].
    + rewrite bool_decide_eq_true_2 by done. apply assoc_put_eq.
    + rewrite bool_decide_eq_false_2 by tauto. by apply assoc_put_ne.
Qed.

Lemma put_keys k v l :
  fst <$> put k v l = if bool_decide (k ∈ fst <$> l) then fst <$> l else (fst <$> l) ++ [k].
Proof.
  induction l as [|[k' v'] l IH].
  - done.
  - cbn [put]. destruct (decide (k = k')) as [->|Hne].
    + rewrite bool_decide_eq_true_2 by done. rewrite !fmap_cons.
      rewrite bool_decide_eq_true_2; [done|left].
    + rewrite bool_decide_eq_false_2 by done. rewrite !fmap_cons, IH. simpl.
      case_bool_decide as E1; case_bool_decide as E2; try done.
      * destruct E2. by right.
      * apply elem_of_cons in E2. tauto.
Qed.

Lemma assoc_elem k l : assoc k l <> None <-> k ∈ fst <$> l.
Proof.
  induction l as [|[k' v'] l IH]; cbn [assoc].
  - split; [done|]. by intros ?%not_elem_of_nil.
  - rewrite fmap_cons, elem_of_cons. simpl. case_bool_decide; [naive_solver|]. rewrite IH. tauto.
Qed.
End Props.

(** ** The order of keys *)

Lemma Permutation_insert_index n k l : Permutation (snd <$> insert_index n k l) (k :: (snd <$> l)).
Proof.
  induction l as [|[n' k'] l IH]; cbn [insert_index]; [done|]. destruct (n <=? n'); [done|].
  rewrite !fmap_cons. cbn [snd]. rewrite IH. apply Permutation_swap.
Qed.

(** [Object.keys] lists the own keys, each once. *)
Lemma obj_keys_permutation {A} (l : list (jsstr * A)) : Permutation (obj_keys l) (fst <$> l).
Proof.
  unfold obj_keys. induction (fst <$> l) as [|k ks IH]; [done|]. cbn [foldr]. rewrite filter_cons.
  destruct (array_index k) eqn:E.
  - rewrite decide_False by done. rewrite Permutation_insert_index. cbn [app]. by rewrite IH.
  - rewrite decide_True by done. rewrite <- Permutation_middle. by rewrite IH.
Qed.

Lemma elem_obj_keys {A} q (l : list (jsstr * A)) : q ∈ obj_keys l <-> q ∈ fst <$> l.
Proof. by rewrite obj_keys_permutation. Qed.

Lemma obj_keys_nodup {A} (l : list (jsstr * A)) : NoDup (fst <$> l) -> NoDup (obj_keys l).
Proof. by rewrite obj_keys_permutation. Qed.
