(* ===== verification/YamlTypes.v ===== *)
(** The YAML types of js-yaml's default safe schema: null, bool, int, float,
    timestamp, merge, binary, omap, pairs, set, str, seq and map. *)
From S2P Require Import Prelude BufferStore JsString JsNumber JsRegex Base64Js YamlValue.

Inductive kind := Scalar | Sequence | Mapping.

#[global] Instance kind_eq_dec : EqDecision kind.
Proof. solve_decision. Defined.

(** [represent]: absent, a function of the object and the style, or one function
    per style. *)
Inductive representer :=
  | RepNone
  | RepFun (f : heap -> value -> option jsstr -> jsstr)
  | RepStyles (l : list (jsstr * (heap -> value -> jsstr))).

Record ytype := YType {
  t_tag : jsstr;
  t_kind : kind;
  t_resolve : heap -> value -> bool;
  t_construct : heap -> value -> js_error + (value * heap);
  t_predicate : option (heap -> value -> bool);   (* [instanceOf] or [predicate] *)
  t_represent : representer;
  t_defaultStyle : option jsstr;
  t_styleAliases : list (jsstr * jsstr)
}.

(** [compileStyleAliases]: alias to style. *)
Definition compileStyleAliases (m : list (jsstr * list jsstr)) : list (jsstr * jsstr) :=
  foldl (fun acc p => foldl (fun acc alias => set_prop alias (fst p) acc) acc (snd p)) [] m.

Definition yaml_tag (name : string) : jsstr := js "tag:yaml.org,2002:" ++ js name.

Definition is_str (v : value) (s : string) : bool := bool_decide (v = VStr (js s)).
Definition is_any (v : value) (l : list string) : bool := existsb (is_str v) l.

(** [data !== null ? data : empty] *)
Definition or_new (o : obj) (h : heap) (v : value) : value * heap :=
  match v with VNull => alloc_obj h o | _ => (v, h) end.

Definition constructYamlStr (h : heap) (v : value) : value * heap :=
  match v with VNull => (VStr [], h) | _ => (v, h) end.

(** ** null *)

Definition resolveYamlNull (h : heap) (v : value) : bool :=
  match v with
  | VNull => true
  | _ => is_any v ["~"; "null"; "Null"; "NULL"]%string
  end.

Definition constructYamlNull (h : heap) (v : value) : value * heap := (VNull, h).

Definition isNull (h : heap) (v : value) : bool := bool_decide (v = VNull).

(** ** bool *)

Definition resolveYamlBoolean (h : heap) (v : value) : bool :=
  is_any v ["true"; "True"; "TRUE"; "false"; "False"; "FALSE"]%string.

Definition constructYamlBoolean (h : heap) (v : value) : value * heap :=
  (VBool (is_any v ["true"; "True"; "TRUE"]%string), h).

Definition isBoolean (h : heap) (v : value) : bool := match v with VBool _ => true | _ => false end.

Definition rep_bool (t f : string) (h : heap) (v : value) : jsstr :=
  match v with VBool true => js t | _ => js f end.

(** ** int *)

Definition isHexCode (c : Z) : bool :=
  ((48 <=? c) && (c <=? 57)) || ((65 <=? c) && (c <=? 70)) || ((97 <=? c) && (c <=? 102)).
Definition isOctCode (c : Z) : bool := (48 <=? c) && (c <=? 55).
Definition isDecCode (c : Z) : bool := (48 <=? c) && (c <=? 57).
Definition isBinCode (c : Z) : bool := (c =? 48) || (c =? 49).

(** The loop over the digits of a prefixed literal; [ch] is the last character
    read, [has] is [hasDigits]. *)
Fixpoint scan_digits (ok : Z -> bool) (s : jsstr) (ch : Z) (has : bool) : bool :=
  match s with
  | [] => has && negb (ch =? 95)
  | c :: s' => if c =? 95 then scan_digits ok s' c has
               else if ok c then scan_digits ok s' c true else false
  end.

Definition rsexagesimal : regex :=
  rplus (rseqs [rchar 58; ropt (rrange 48 53); rdigit]).

(** The decimal loop, which stops at a colon. *)
Fixpoint scan_decimal (s : jsstr) (ch : Z) (has : bool) : bool :=
  match s with
  | [] => has && negb (ch =? 95)
  | c :: s' => if c =? 95 then scan_decimal s' c has
               else if c =? 58 then has && full_match rsexagesimal s
               else if isDecCode c then scan_decimal s' c true else false
  end.

Definition drop_sign (s : jsstr) : jsstr :=
  match s with c :: s' => if (c =? 45) || (c =? 43) then s' else s | [] => [] end.

Definition resolve_int (s : jsstr) : bool :=
  match drop_sign s with
  | [] => false
  | 48 :: [] => true
  | 48 :: 98 :: s' => scan_digits isBinCode s' 98 false
  | 48 :: 120 :: s' => scan_digits isHexCode s' 120 false
  | 48 :: s' => scan_digits isOctCode s' 48 false
  | 95 :: _ => false
  | s' => scan_decimal s' NaN_code false
  end.

Definition resolveYamlInteger (h : heap) (v : value) : bool :=
  match v with VStr s => resolve_int s | _ => false end.

(** [s.split(c)] for a one-unit separator. *)
Fixpoint split_on (c : Z) (s : jsstr) : list jsstr :=
  match s with
  | [] => [[]]
  | x :: s' => if x =? c then [] :: split_on c s'
               else match split_on c s' with p :: r => (x :: p) :: r | [] => [[x]] end
  end.

(** Least significant first: [value += d * base; base *= 60]. *)
Fixpoint base60 (ds : list num) (value base : num) : num :=
  match ds with
  | [] => value
  | d :: ds' => base60 ds' (add value (mul d base)) (mul base (of_Z 60))
  end.

Definition strip_underscores (s : jsstr) : jsstr := base.filter (fun c => c <> 95) s.

Definition construct_int (s : jsstr) : num :=
  let s := strip_underscores s in
  let sign := match s with 45 :: _ => of_Z (-1) | _ => of_Z 1 end in
  let s := drop_sign s in
  match s with
  | [48] => of_Z 0
  | 48 :: 98 :: s' => mul sign (parseInt_num s' 2)
  | 48 :: 120 :: s' => mul sign (parseInt_num s 16)
  | 48 :: _ => mul sign (parseInt_num s 8)
  | _ => if existsb (Z.eqb 58) s
         then mul sign (base60 (rev ((fun p => parseInt_num p 10) <$> split_on 58 s)) (of_Z 0) (of_Z 1))
         else mul sign (parseInt_num s 10)
  end.

Definition constructYamlInteger (h : heap) (v : value) : value * heap :=
  (match v with VStr s => VNum (construct_int s) | _ => VNum NaN end, h).

Definition isInteger (h : heap) (v : value) : bool :=
  match v with VNum n => is_integral n && negb (isNegativeZero n) | _ => false end.

Definition int_of (v : value) : num := match v with VNum n => n | _ => NaN end.

(** [obj >= 0 ? prefix + digits : "-" + prefix + digits.slice(1)] *)
Definition rep_prefixed (prefix : string) (radix : Z) (up : bool) (h : heap) (v : value) : jsstr :=
  let n := int_of v in
  let s := toString_radix radix n in
  let s := if up then toUpperCase s else s in
  if 0 <=? to_Z n then js prefix ++ s else 45 :: js prefix ++ drop 1 s.

Definition rep_decimal (h : heap) (v : value) : jsstr := toString10 (int_of v).

(** ** float *)

Definition rdigit_ : regex := RClass (fun c => isDecCode c || (c =? 95)).
Definition rsign : regex := rany "-+".
Definition rexp : regex := ropt (rseqs [rany "eE"; ropt rsign; rplus rdigit]).

Definition YAML_FLOAT_PATTERN : regex := ralts
  [ rseqs [ropt rsign; RAlt (rchar 48) (RSeq (rrange 49 57) (RStar rdigit_));
           ropt (RSeq (rchar 46) (RStar rdigit_)); rexp];
    rseqs [rchar 46; rplus rdigit_; rexp];
    rseqs [ropt rsign; rdigit; RStar rdigit_;
           rplus (rseqs [rchar 58; ropt (rrange 48 53); rdigit]); rchar 46; RStar rdigit_];
    rseqs [ropt rsign; rchar 46; ralts [rlit (js "inf"); rlit (js "Inf"); rlit (js "INF")]];
    RSeq (rchar 46) (ralts [rlit (js "nan"); rlit (js "NaN"); rlit (js "NAN")]) ].

Definition resolve_float (s : jsstr) : bool :=
  full_match YAML_FLOAT_PATTERN s && negb (charCodeAt s (slen s - 1) =? 95).

Definition resolveYamlFloat (h : heap) (v : value) : bool :=
  match v with VStr s => resolve_float s | _ => false end.

Definition construct_float (s : jsstr) : num :=
  let s := toLowerCase (strip_underscores s) in
  let neg := match s with 45 :: _ => true | _ => false end in
  let s := drop_sign s in
  let sign := if neg then of_Z (-1) else of_Z 1 in
  if bool_decide (s = js ".inf") then Inf neg
  else if bool_decide (s = js ".nan") then NaN
  else if existsb (Z.eqb 58) s
  then mul sign (base60 (rev (parseFloat <$> split_on 58 s)) (of_Z 0) (of_Z 1))
  else mul sign (parseFloat s).

Definition constructYamlFloat (h : heap) (v : value) : value * heap :=
  (match v with VStr s => VNum (construct_float s) | _ => VNum NaN end, h).

(** [/^[-+]?[0-9]+e/] *)
Definition SCIENTIFIC_WITHOUT_DOT : regex := rseqs [ropt rsign; rplus rdigit; rchar 101].

(** [res.replace("e", ".e")] *)
Fixpoint dot_e (s : jsstr) : jsstr :=
  match s with [] => [] | c :: s' => if c =? 101 then 46 :: c :: s' else c :: dot_e s' end.

Definition by_style (st : option jsstr) (lo up camel : string) : option jsstr :=
  match st with
  | None => None
  | Some st => if bool_decide (st = js "lowercase") then Some (js lo)
               else if bool_decide (st = js "uppercase") then Some (js up)
               else if bool_decide (st = js "camelcase") then Some (js camel) else None
  end.

Definition represent_float (n : num) (st : option jsstr) : jsstr :=
  let res := toString10 n in
  let plain := if prefix_match SCIENTIFIC_WITHOUT_DOT res then dot_e res else res in
  match n with
  | NaN => default plain (by_style st ".nan" ".NAN" ".NaN")
  | Inf false => default plain (by_style st ".inf" ".INF" ".Inf")
  | Inf true => default plain (by_style st "-.inf" "-.INF" "-.Inf")
  | Zero true => js "-0.0"
  | _ => plain
  end.

Definition representYamlFloat (h : heap) (v : value) (st : option jsstr) : jsstr :=
  represent_float (int_of v) st.

Definition isFloat (h : heap) (v : value) : bool :=
  match v with VNum n => negb (is_integral n) || isNegativeZero n | _ => false end.

(** ** timestamp *)

(** A field of one or two digits, or exactly two. *)
Definition digit_of (c : Z) : option Z := if isDecCode c then Some (c - 48) else None.

Definition two_digits (s : jsstr) : option (Z * jsstr) :=
  match s with
  | a :: b :: r => match digit_of a, digit_of b with
                   | Some x, Some y => Some (10 * x + y, r) | _, _ => None end
  | _ => None
  end.

Definition one_or_two (s : jsstr) : option (Z * jsstr) :=
  match two_digits s with
  | Some r => Some r
  | None => match s with
            | a :: r => (fun x => (x, r)) <$> digit_of a
            | [] => None end
  end.

Definition four_digits (s : jsstr) : option (Z * jsstr) :=
  match two_digits s with
  | Some (x, r) => (fun '(y, r) => (100 * x + y, r)) <$> two_digits r
  | None => None
  end.

Definition expect (c : Z) (s : jsstr) : option jsstr :=
  match s with x :: r => if x =? c then Some r else None | [] => None end.

Fixpoint skip_blanks (s : jsstr) : jsstr :=
  match s with c :: r => if (c =? 32) || (c =? 9) then skip_blanks r else s | [] => [] end.

(** [(?:[Tt]|[ \t]+)] *)
Definition date_separator (s : jsstr) : option jsstr :=
  match s with
  | c :: r => if (c =? 84) || (c =? 116) then Some r
              else if (c =? 32) || (c =? 9) then Some (skip_blanks r) else None
  | [] => None
  end.

(** The fields of a match: date, and time of day with fraction and zone. *)
Record stamp := Stamp {
  ts_year : Z; ts_month : Z; ts_day : Z;
  ts_time : option (Z * Z * Z * jsstr * option (bool * Z * Z))
}.

Definition match_date (s : jsstr) : option stamp :=
  '(y, s) ← four_digits s; s ← expect 45 s;
  '(m, s) ← two_digits s; s ← expect 45 s;
  '(d, s) ← two_digits s;
  match s with [] => Some (Stamp y m d None) | _ => None end.

(** [(?:[ \t]*(Z|([-+])([0-9][0-9]?)(?::([0-9][0-9]))?))?$]: a zone is its sign
    (true for minus), hours and minutes. *)
Definition match_zone (s : jsstr) : option (option (bool * Z * Z)) :=
  match s with
  | [] => Some None
  | _ =>
      match skip_blanks s with
      | [90] => Some None
      | c :: s' =>
          if (c =? 45) || (c =? 43) then
            '(zh, s') ← one_or_two s';
            match s' with
            | [] => Some (Some (c =? 45, zh, 0))
            | _ => s' ← expect 58 s'; '(zm, s') ← two_digits s';
                   match s' with [] => Some (Some (c =? 45, zh, zm)) | _ => None end
            end
          else None
      | [] => None
      end
  end.

Definition match_timestamp (s : jsstr) : option stamp :=
  '(y, s) ← four_digits s; s ← expect 45 s;
  '(mo, s) ← one_or_two s; s ← expect 45 s;
  '(d, s) ← one_or_two s; s ← date_separator s;
  '(hh, s) ← one_or_two s; s ← expect 58 s;
  '(mi, s) ← two_digits s; s ← expect 58 s;
  '(se, s) ← two_digits s;
  let '(frac, s) := match s with
                    | 46 :: s' => let '(ds, r) := span_digits s' in ((fun d => d + 48) <$> ds, r)
                    | _ => ([], s) end in
  z ← match_zone s;
  Some (Stamp y mo d (Some (hh, mi, se, frac, z))).

Definition exec_timestamp (s : jsstr) : option stamp :=
  match match_date s with Some m => Some m | None => match_timestamp s end.

Definition resolveYamlTimestamp (h : heap) (v : value) : bool :=
  match v with
  | VStr s => match exec_timestamp s with Some _ => true | None => false end
  | _ => false
  end.

(** Days from 1970-01-01 to the civil date, months counted from 0 and allowed
    out of range (the [MakeDay] of the language). *)
Definition days_of_civil (y m d : Z) : Z :=
  let y := y + m / 12 in
  let m := m mod 12 in
  let y' := if m <=? 1 then y - 1 else y in
  let mp := (m + 10) mod 12 in
  365 * y' + y' / 4 - y' / 100 + y' / 400 + (153 * mp + 2) / 5 + (d - 1) - 719468.

(** [Date.UTC]: a year from 0 to 99 counts from 1900. *)
Definition Date_UTC (y m d hh mi se ms : Z) : Z :=
  let y := if (0 <=? y) && (y <=? 99) then 1900 + y else y in
  ((days_of_civil y m d * 24 + hh) * 60 + mi) * 60000 + se * 1000 + ms.

(** The fraction cut or padded to three digits. *)
Definition millis (frac : jsstr) : Z :=
  let f := take 3 frac in
  digits_value 10 ((fun c => c - 48) <$> (f ++ replicate (3 - length f) 48)).

Definition construct_timestamp (s : jsstr) : option Z :=
  m ← exec_timestamp s;
  match ts_time m with
  | None => Some (Date_UTC (ts_year m) (ts_month m - 1) (ts_day m) 0 0 0 0)
  | Some (hh, mi, se, frac, z) =>
      let delta := match z with
                   | None => 0
                   | Some (neg, zh, zm) =>
                       let d := (zh * 60 + zm) * 60000 in if (neg : bool) then - d else d end in
      Some (Date_UTC (ts_year m) (ts_month m - 1) (ts_day m) hh mi se (millis frac) - delta)
  end.

Definition constructYamlTimestamp (h : heap) (v : value) : value * heap :=
  match v with
  | VStr s => match construct_timestamp s with
              | Some t => alloc_obj h (ODate t) | None => (VUndef, h) end
  | _ => (VUndef, h)
  end.

(** Civil date of a day number (months from 0). *)
Definition civil_of_days (z : Z) : Z * Z * Z :=
  let z := z + 719468 in
  let era := z / 146097 in
  let doe := z mod 146097 in
  let yoe := (doe - doe / 1460 + doe / 36524 - doe / 146096) / 365 in
  let doy := doe - (365 * yoe + yoe / 4 - yoe / 100) in
  let mp := (5 * doy + 2) / 153 in
  let d := doy - (153 * mp + 2) / 5 + 1 in
  let m := if mp <? 10 then mp + 2 else mp - 10 in
  (yoe + era * 400 + (if m <=? 1 then 1 else 0), m, d).

Definition pad (w : Z) (n : Z) : jsstr :=
  let s := digits 10 n in zeros (w - slen s) ++ s.

(** [toISOString] *)
Definition iso_year (y : Z) : jsstr :=
  if (0 <=? y) && (y <=? 9999) then pad 4 y
  else (if y <? 0 then 45 else 43) :: pad 6 (Z.abs y).

Definition toISOString (t : Z) : jsstr :=
  let '(y, m, d) := civil_of_days (t / 86400000) in
  let ms := t mod 86400000 in
  iso_year y ++ 45 :: pad 2 (m + 1) ++ 45 :: pad 2 d ++ 84 ::
  pad 2 (ms / 3600000) ++ 58 :: pad 2 (ms / 60000 mod 60) ++ 58 ::
  pad 2 (ms / 1000 mod 60) ++ 46 :: pad 3 (ms mod 1000) ++ [90].

Definition representYamlTimestamp (h : heap) (v : value) (st : option jsstr) : jsstr :=
  match v with
  | VRef l => match h !! l with Some (ODate t) => toISOString t | _ => [] end
  | _ => []
  end.

Definition isDate (h : heap) (v : value) : bool :=
  match v with
  | VRef l => match h !! l with Some (ODate _) => true | _ => false end
  | _ => false
  end.

(** ** merge *)

Definition resolveYamlMerge (h : heap) (v : value) : bool :=
  match v with VNull => true | _ => is_str v "<<" end.

(** ** binary *)

Definition BASE64_MAP : jsstr := alphabet ++ [61; 10; 13].

Fixpoint binary_bits (s : jsstr) (bitlen : Z) : option Z :=
  match s with
  | [] => Some bitlen
  | c :: s' => let code := index_unit BASE64_MAP c in
               if 64 <? code then binary_bits s' bitlen
               else if code <? 0 then None else binary_bits s' (bitlen + 6)
  end.

Definition resolve_binary (s : jsstr) : bool :=
  match binary_bits s 0 with Some n => n mod 8 =? 0 | None => false end.

Definition resolveYamlBinary (h : heap) (v : value) : bool :=
  match v with VStr s => resolve_binary s | _ => false end.

Definition out3 (bits : Z) : list Z :=
  [js_and (js_shr bits 16) 255; js_and (js_shr bits 8) 255; js_and bits 255].

(** The loop of the decoder: the accumulated bits and the bytes pushed. *)
Fixpoint binary_decode (input : jsstr) (idx bits : Z) : list Z * Z :=
  match input with
  | [] => ([], bits)
  | c :: input' =>
      let pushed := if (idx mod 4 =? 0) && negb (idx =? 0) then out3 bits else [] in
      let '(rest, b) := binary_decode input' (idx + 1)
                          (js_or (js_shl bits 6) (index_unit BASE64_MAP c)) in
      (pushed ++ rest, b)
  end.

Definition construct_binary (s : jsstr) : list Z :=
  let input := base.filter (fun c => c <> 13 /\ c <> 10 /\ c <> 61) s in
  let '(result, bits) := binary_decode input 0 0 in
  let tailbits := slen input mod 4 * 6 in
  result ++
  (if tailbits =? 0 then out3 bits
   else if tailbits =? 18 then [js_and (js_shr bits 10) 255; js_and (js_shr bits 2) 255]
   else if tailbits =? 12 then [js_and (js_shr bits 4) 255]
   else []).

Definition constructYamlBinary (h : heap) (v : value) : value * heap :=
  match v with VStr s => alloc_obj h (OBuf (construct_binary s)) | _ => (VUndef, h) end.

Definition out4 (bits : Z) : jsstr :=
  (fun i => default 0 (BASE64_MAP !! Z.to_nat (js_and i 63))) <$>
  [js_shr bits 18; js_shr bits 12; js_shr bits 6; bits].

Definition sextet (i : Z) : Z := default 0 (BASE64_MAP !! Z.to_nat (js_and i 63)).

Fixpoint binary_encode (object : list Z) (idx bits : Z) : jsstr * Z :=
  match object with
  | [] => ([], bits)
  | x :: object' =>
      let pushed := if (idx mod 3 =? 0) && negb (idx =? 0) then out4 bits else [] in
      let '(rest, b) := binary_encode object' (idx + 1) (js_shl bits 8 + x) in
      (pushed ++ rest, b)
  end.

Definition represent_binary (object : list Z) : jsstr :=
  let '(result, bits) := binary_encode object 0 0 in
  let tail := Z.of_nat (length object) mod 3 in
  result ++
  (if tail =? 0 then out4 bits
   else if tail =? 2 then [sextet (js_shr bits 10); sextet (js_shr bits 4); sextet (js_shl bits 2); 61]
   else [sextet (js_shr bits 2); sextet (js_shl bits 4); 61; 61]).

Definition representYamlBinary (h : heap) (v : value) (st : option jsstr) : jsstr :=
  match v with
  | VRef l => match h !! l with Some (OBuf b) => represent_binary b | _ => [] end
  | _ => []
  end.

Definition isBinary (h : heap) (v : value) : bool :=
  match v with
  | VRef l => match h !! l with Some (OBuf _) => true | _ => false end
  | _ => false
  end.

(** ** omap, pairs, set *)

(** The elements of a sequence node. *)
Definition elements (h : heap) (v : value) : list value :=
  match v with
  | VRef l => match h !! l with Some (OArr vs) => vs | _ => [] end
  | _ => []
  end.

(** The own properties of a value whose class is [[object Object]]. *)
Definition plain_object (h : heap) (v : value) : option (list (jsstr * value)) :=
  match v with
  | VRef l => match h !! l with Some (OObj ps) => Some ps | _ => None end
  | _ => None
  end.

Fixpoint omap_loop (h : heap) (vs : list value) (objectKeys : list jsstr) : bool :=
  match vs with
  | [] => true
  | p :: vs' =>
      match plain_object h p with
      | Some ps =>
          match obj_keys ps with
          | [k] => if bool_decide (k ∈ objectKeys) then false
                   else omap_loop h vs' (objectKeys ++ [k])
          | _ => false
          end
      | None => false
      end
  end.

Definition resolveYamlOmap (h : heap) (v : value) : bool :=
  match v with VNull => true | _ => omap_loop h (elements h v) [] end.

Definition resolveYamlPairs (h : heap) (v : value) : bool :=
  match v with
  | VNull => true
  | _ => forallb (fun p => match plain_object h p with
                           | Some ps => bool_decide (length (obj_keys ps) = 1%nat)
                           | None => false end) (elements h v)
  end.

(** Each pair becomes a fresh two-element array. *)
Fixpoint pairs_loop (h : heap) (vs : list value) : list value * heap :=
  match vs with
  | [] => ([], h)
  | p :: vs' =>
      let ps := default [] (plain_object h p) in
      let kv := match obj_keys ps with
                  | k :: _ => [VStr k; default VUndef (assoc k ps)]
                  | [] => [VUndef; VUndef] end in
      let '(a, h1) := alloc_obj h (OArr kv) in
      let '(r, h2) := pairs_loop h1 vs' in
      (a :: r, h2)
  end.

Definition constructYamlPairs (h : heap) (v : value) : value * heap :=
  match v with
  | VNull => alloc_obj h (OArr [])
  | _ => let '(l, h1) := pairs_loop h (elements h v) in alloc_obj h1 (OArr l)
  end.

Definition resolveYamlSet (h : heap) (v : value) : bool :=
  match v with
  | VNull => true
  | _ => match plain_object h v with
         | Some ps => forallb (fun p => bool_decide (snd p = VNull)) ps
         | None => true end
  end.

(** ** The types of the full schema

    What the sources take from the engine: whether a pattern is a valid regular
    expression, and the parameters and body of the function expression that
    esprima (a global of the page, possibly absent) finds in a text. *)

Class JsEngine := {
  valid_regexp : jsstr -> bool;
  esprima_function : jsstr -> option (list jsstr * jsstr)
}.

Definition is_flag (c : Z) : bool := (c =? 103) || (c =? 105) || (c =? 109).

(** The modifiers behind the last slash, if only letters g, i, m follow it. *)
Fixpoint span_flags (s : jsstr) : jsstr * jsstr :=
  match s with
  | c :: s' => if is_flag c then let '(f, r) := span_flags s' in (c :: f, r) else ([], s)
  | [] => ([], [])
  end.

Definition regexp_tail (s : jsstr) : option jsstr :=
  match span_flags (rev s) with
  | (f, 47 :: _) => Some (rev f)
  | _ => None
  end.

Definition regexp_modifiers (s : jsstr) : jsstr :=
  match s with 47 :: _ => default [] (regexp_tail s) | _ => [] end.

Definition resolve_regexp (s : jsstr) : bool :=
  match s with
  | [] => false
  | 47 :: _ => let m := regexp_modifiers s in
               (slen m <=? 3) && (charCodeAt s (slen s - slen m - 1) =? 47)
  | _ => true
  end.

Definition resolveJavascriptRegExp (h : heap) (v : value) : bool :=
  match v with VStr s => resolve_regexp s | _ => false end.

Definition has_flag (c : Z) (m : jsstr) : bool := bool_decide (c ∈ m).

Section FullTypes.
Context {engine : JsEngine}.

(** [new RegExp(source, flags)]: a flag may not be repeated. *)
Definition constructJavascriptRegExp (h : heap) (v : value) : js_error + (value * heap) :=
  match v with
  | VStr s =>
      let m := regexp_modifiers s in
      let source := match s with 47 :: _ => sslice s 1 (slen s - slen m - 1) | _ => s end in
      if bool_decide (NoDup m) && valid_regexp source
      then inr (alloc_obj h (ORegExp source (has_flag 103 m) (has_flag 105 m) (has_flag 109 m)))
      else inl (PlainError "SyntaxError")
  | _ => inl (PlainError "TypeError")
  end.

Definition resolveJavascriptFunction (h : heap) (v : value) : bool :=
  match v with
  | VStr s => match esprima_function s with Some _ => true | None => false end
  | _ => false
  end.

Definition constructJavascriptFunction (h : heap) (v : value) : js_error + (value * heap) :=
  match v with
  | VStr s => match esprima_function s with
              | Some (params, body) => inr (VFunc params body, h)
              | None => inl (PlainError "Failed to resolve function") end
  | _ => inl (PlainError "Failed to resolve function")
  end.
End FullTypes.

Definition representJavascriptRegExp (h : heap) (v : value) (st : option jsstr) : jsstr :=
  match v with
  | VRef l =>
      match h !! l with
      | Some (ORegExp src g i m) =>
          47 :: src ++ 47 :: (if g then [103] else []) ++ (if m then [109] else []) ++ (if i then [105] else [])
      | _ => [] end
  | _ => []
  end.

Definition isRegExp (h : heap) (v : value) : bool :=
  match v with
  | VRef l => match h !! l with Some (ORegExp _ _ _ _) => true | _ => false end
  | _ => false
  end.

Definition constructJavascriptUndefined (h : heap) (v : value) : value * heap := (VUndef, h).
Definition representJavascriptUndefined (h : heap) (v : value) (st : option jsstr) : jsstr := [].
Definition isUndefined (h : heap) (v : value) : bool := bool_decide (v = VUndef).

(** ** The type objects *)

Definition keep (h : heap) (v : value) : value * heap := (v, h).

(** A constructor that cannot throw. *)
Definition pure_ (f : heap -> value -> value * heap) (h : heap) (v : value) : js_error + (value * heap) :=
  inr (f h v).

Definition type_str : ytype :=
  YType (yaml_tag "str") Scalar (fun _ _ => true) (pure_ constructYamlStr) None RepNone None [].
Definition type_seq : ytype :=
  YType (yaml_tag "seq") Sequence (fun _ _ => true) (pure_ (or_new (OArr []))) None RepNone None [].
Definition type_map : ytype :=
  YType (yaml_tag "map") Mapping (fun _ _ => true) (pure_ (or_new (OObj []))) None RepNone None [].

Definition const_rep (s : string) (h : heap) (v : value) : jsstr := js s.

Definition type_null : ytype :=
  YType (yaml_tag "null") Scalar resolveYamlNull (pure_ constructYamlNull) (Some isNull)
    (RepStyles [(js "canonical", const_rep "~"); (js "lowercase", const_rep "null");
                (js "uppercase", const_rep "NULL"); (js "camelcase", const_rep "Null")])
    (Some (js "lowercase")) [].

Definition type_bool : ytype :=
  YType (yaml_tag "bool") Scalar resolveYamlBoolean (pure_ constructYamlBoolean) (Some isBoolean)
    (RepStyles [(js "lowercase", rep_bool "true" "false"); (js "uppercase", rep_bool "TRUE" "FALSE");
                (js "camelcase", rep_bool "True" "False")])
    (Some (js "lowercase")) [].

Definition int_styleAliases : list (jsstr * list jsstr) :=
  [(js "binary", [js "2"; js "bin"]); (js "octal", [js "8"; js "oct"]);
   (js "decimal", [js "10"; js "dec"]); (js "hexadecimal", [js "16"; js "hex"])].

Definition int_represent : list (jsstr * (heap -> value -> jsstr)) :=
  [(js "binary", rep_prefixed "0b" 2 false); (js "octal", rep_prefixed "0" 8 false);
   (js "decimal", rep_decimal); (js "hexadecimal", rep_prefixed "0x" 16 true)].

Definition type_int : ytype :=
  YType (yaml_tag "int") Scalar resolveYamlInteger (pure_ constructYamlInteger) (Some isInteger)
    (RepStyles int_represent) (Some (js "decimal")) (compileStyleAliases int_styleAliases).

Definition type_float : ytype :=
  YType (yaml_tag "float") Scalar resolveYamlFloat (pure_ constructYamlFloat) (Some isFloat)
    (RepFun representYamlFloat) (Some (js "lowercase")) [].

Definition type_timestamp : ytype :=
  YType (yaml_tag "timestamp") Scalar resolveYamlTimestamp (pure_ constructYamlTimestamp) (Some isDate)
    (RepFun representYamlTimestamp) None [].

Definition type_merge : ytype :=
  YType (yaml_tag "merge") Scalar resolveYamlMerge (pure_ keep) None RepNone None [].

Definition type_binary : ytype :=
  YType (yaml_tag "binary") Scalar resolveYamlBinary (pure_ constructYamlBinary) (Some isBinary)
    (RepFun representYamlBinary) None [].

Definition type_omap : ytype :=
  YType (yaml_tag "omap") Sequence resolveYamlOmap (pure_ (or_new (OArr []))) None RepNone None [].
Definition type_pairs : ytype :=
  YType (yaml_tag "pairs") Sequence resolveYamlPairs (pure_ constructYamlPairs) None RepNone None [].
Definition type_set : ytype :=
  YType (yaml_tag "set") Mapping resolveYamlSet (pure_ (or_new (OObj []))) None RepNone None [].

Definition type_js_undefined : ytype :=
  YType (yaml_tag "js/undefined") Scalar (fun _ _ => true) (pure_ constructJavascriptUndefined)
    (Some isUndefined) (RepFun representJavascriptUndefined) None [].

Definition type_js_regexp `{JsEngine} : ytype :=
  YType (yaml_tag "js/regexp") Scalar resolveJavascriptRegExp constructJavascriptRegExp
    (Some isRegExp) (RepFun representJavascriptRegExp) None [].

(** The text of a function is the engine's; [funcText] gives it. *)
Definition isFunction (h : heap) (v : value) : bool := match v with VFunc _ _ => true | _ => false end.

Definition type_js_function `{JsEngine} (funcText : value -> jsstr) : ytype :=
  YType (yaml_tag "js/function") Scalar resolveJavascriptFunction constructJavascriptFunction
    (Some isFunction) (RepFun (fun _ v _ => funcText v)) None [].
