(* ===== verification/YamlSchema.v ===== *)
(** Schemas of js-yaml: inclusion, compilation of the type lists and of the type
    map, and the default schemas. *)
From S2P Require Import Prelude JsString YamlValue YamlTypes.

Inductive schema := Schema (include : list schema) (implicit explicit : list ytype).

Inductive which := Implicit | Explicit.

Definition own_types (w : which) (s : schema) : list ytype :=
  match s, w with Schema _ i _, Implicit => i | Schema _ _ e, Explicit => e end.

Definition same_key (t u : ytype) : bool :=
  bool_decide (t_tag t = t_tag u) && bool_decide (t_kind t = t_kind u).

(** Indices of [result] with the key of [t]. *)
Definition clashes (t : ytype) (result : list ytype) : list nat :=
  fst <$> base.filter (fun p => same_key (snd p) t = true) (imap pair result).

(** The loop over the types of a schema: the growing result and [exclude]. *)
Definition add_types (ts : list ytype) (result : list ytype) : list ytype * list nat :=
  foldl (fun acc t => let '(r, ex) := acc in (r ++ [t], ex ++ clashes t r)) (result, []) ts.

Definition drop_excluded (r : list ytype) (exclude : list nat) : list ytype :=
  snd <$> base.filter (fun p => ~ fst p ∈ exclude) (imap pair r).

Fixpoint compileList (s : schema) (w : which) (result : list ytype) : list ytype :=
  match s with
  | Schema include _ _ =>
      let result := (fix go (l : list schema) (r : list ytype) : list ytype :=
                       match l with [] => r | s' :: l' => go l' (compileList s' w r) end)
                      include result in
      let '(r, ex) := add_types (own_types w s) result in
      drop_excluded r ex
  end.

(** The compiled map: one table per kind and the fallback table. *)
Record typemap := TypeMap {
  tm_kind : kind -> list (jsstr * ytype);
  tm_fallback : list (jsstr * ytype)
}.

Definition collectType (m : typemap) (t : ytype) : typemap :=
  TypeMap (fun k => if decide (k = t_kind t) then set_prop (t_tag t) t (tm_kind m k) else tm_kind m k)
          (set_prop (t_tag t) t (tm_fallback m)).

Definition compileMap (implicit explicit : list ytype) : typemap :=
  foldl collectType (foldl collectType (TypeMap (fun _ => []) []) implicit) explicit.

Record compiled := Compiled {
  compiledImplicit : list ytype;
  compiledExplicit : list ytype;
  compiledTypeMap : typemap
}.

Definition compile (s : schema) : compiled :=
  let i := compileList s Implicit [] in
  let e := compileList s Explicit [] in
  Compiled i e (compileMap i e).

(** [Schema.create(schemas, types)] *)
Definition createSchema (schemas : list schema) (types : list ytype) : schema :=
  Schema schemas [] types.

(** ** The default schemas *)

Definition FAILSAFE : schema := Schema [] [] [type_str; type_seq; type_map].
Definition JSON_SCHEMA : schema :=
  Schema [FAILSAFE] [type_null; type_bool; type_int; type_float] [].
Definition CORE : schema := Schema [JSON_SCHEMA] [] [].
Definition DEFAULT_SAFE_SCHEMA : schema :=
  Schema [CORE] [type_timestamp; type_merge] [type_binary; type_omap; type_pairs; type_set].

Definition DEFAULT_FULL_SCHEMA `{JsEngine} (funcText : value -> jsstr) : schema :=
  Schema [DEFAULT_SAFE_SCHEMA] [] [type_js_undefined; type_js_regexp; type_js_function funcText].

(** ** Specification: the last declaration of a key wins *)

(** The declarations in order, included schemas first. *)
Fixpoint flatten (s : schema) (w : which) : list ytype :=
  match s with
  | Schema include _ _ =>
      (fix go (l : list schema) : list ytype :=
         match l with [] => [] | s' :: l' => flatten s' w ++ go l' end) include ++ own_types w s
  end.

Fixpoint keep_last (l : list ytype) : list ytype :=
  match l with
  | [] => []
  | t :: l' => if existsb (same_key t) l' then keep_last l' else t :: keep_last l'
  end.

Definition unique_keys (l : list ytype) : Prop := keep_last l = l.

Lemma same_key_spec t u : same_key t u = true <-> t_tag t = t_tag u /\ t_kind t = t_kind u.
Proof. unfold same_key. by rewrite andb_true_iff, !bool_decide_eq_true. Qed.

Lemma same_key_sym t u : same_key t u = same_key u t.
Proof. apply eq_true_iff_eq. rewrite !same_key_spec. naive_solver. Qed.

Lemma existsb_keep_last t l : existsb (same_key t) (keep_last l) = existsb (same_key t) l.
Proof.
  induction l as [|u l IH]; simpl; [done|]. destruct (existsb (same_key u) l) eqn:E; simpl; [|by rewrite IH].
  rewrite IH. destruct (same_key t u) eqn:Etu; [|done]. simpl.
  apply existsb_exists in E as (x & Hx & Hux). apply existsb_exists. exists x. split; [done|].
  rewrite same_key_spec in *. naive_solver congruence.
Qed.

Lemma keep_last_app a b : keep_last (keep_last a ++ b) = keep_last (a ++ b).
Proof.
  induction a as [|t a IH]; simpl; [done|]. rewrite existsb_app.
  destruct (existsb (same_key t) a) eqn:E; simpl; [done|].
  by rewrite existsb_app, existsb_keep_last, E, IH.
Qed.

Lemma keep_last_unique l : unique_keys (keep_last l).
Proof. unfold unique_keys. pose proof (keep_last_app l []) as H. by rewrite !app_nil_r in H. Qed.

(** *** The index bookkeeping of [compileList] *)

(** What [add_types] leaves out, as a predicate on positions. *)
Lemma elem_clashes t r i : i ∈ clashes t r <-> exists u, r !! i = Some u /\ same_key u t = true.
Proof.
  unfold clashes. rewrite list_elem_of_fmap. split.
  - intros ([j u] & -> & [Hk Hj]%list_elem_of_filter). simpl in *.
    apply elem_of_lookup_imap in Hj as (j' & u' & E & Hl). injection E as -> ->. eauto.
  - intros (u & Hl & Hk). exists (i, u). split; [done|]. apply list_elem_of_filter. split; [done|].
    apply elem_of_lookup_imap. eauto.
Qed.

Lemma add_types_gen ts r ex :
  exists ex', foldl (fun acc t => let '(r, ex) := acc in (r ++ [t], ex ++ clashes t r)) (r, ex) ts =
    (r ++ ts, ex') /\
  forall i, i ∈ ex' <-> i ∈ ex \/ exists j t u, (length r <= j)%nat /\ (i < j)%nat /\
    (r ++ ts) !! j = Some t /\ (r ++ ts) !! i = Some u /\ same_key u t = true.
Proof.
  revert r ex. induction ts as [|t ts IH]; intros r ex.
  - exists ex. rewrite app_nil_r. split; [done|]. intros i. split; [by left|].
    intros [?|(j & t & u & H1 & _ & H2 & _)]; [done|]. apply lookup_lt_Some in H2. lia.
  - simpl. destruct (IH (r ++ [t]) (ex ++ clashes t r)) as (ex' & E & Hex). exists ex'.
    rewrite E, <- app_assoc. split; [done|]. intros i. rewrite Hex, elem_of_app, elem_clashes.
    rewrite <- app_assoc, length_app. simpl.
    assert (Ht : (r ++ t :: ts) !! length r = Some t) by (by rewrite list_lookup_middle).
    split.
    + intros [[?|(u & Hl & Hk)]|(j & t' & u & H1 & H2)]; [by left| |].
      * right. exists (length r), t, u. pose proof (lookup_lt_Some _ _ _ Hl).
        rewrite (lookup_app_l r _ i) by done. auto 10.
      * right. exists j, t', u. split; [lia|done].
    + intros [?|(j & t' & u & H1 & H2 & H3 & H4 & H5)]; [by left; left|].
      destruct (decide (j = length r)) as [->|Hne].
      * left. right. rewrite Ht in H3. injection H3 as <-. exists u.
        by rewrite lookup_app_l in H4 by done.
      * right. exists j, t', u. split; [lia|done].
Qed.

Lemma drop_excluded_keep_last L ex :
  (forall i u, L !! i = Some u -> i ∈ ex <-> existsb (same_key u) (drop (S i) L) = true) ->
  drop_excluded L ex = keep_last L.
Proof.
  intros H. unfold drop_excluded.
  assert (Hn : forall n, (forall i u, L !! i = Some u ->
      (n + i)%nat ∈ ex <-> existsb (same_key u) (drop (S i) L) = true) ->
    snd <$> base.filter (fun p => ~ fst p ∈ ex) (imap (fun i u => ((n + i)%nat, u)) L) = keep_last L);
    [|by apply (Hn 0%nat)].
  clear H. induction L as [|t L IH]; intros n Hn; [done|].
  rewrite imap_cons. cbn [keep_last].
  assert (IH' : snd <$> base.filter (fun p => ~ fst p ∈ ex) (imap ((fun i u => ((n + i)%nat, u)) ∘ S) L) =
                keep_last L).
  { rewrite <- (IH (S n)).
    - do 2 f_equal. apply imap_ext. intros i x _. simpl. f_equal. lia.
    - intros i u Hu. rewrite <- (Hn (S i) u Hu). by replace (n + S i)%nat with (S n + i)%nat by lia. }
  specialize (Hn 0%nat t eq_refl). change (drop 1 (t :: L)) with L in Hn.
  rewrite Nat.add_0_r in *.
  destruct (existsb (same_key t) L) eqn:E.
  - rewrite filter_cons_False; [exact IH'|]. simpl. rewrite Hn. tauto.
  - rewrite filter_cons_True; [rewrite fmap_cons, IH'; done|]. simpl. rewrite Hn. congruence.
Qed.

Lemma keep_last_no_clash L i j u t :
  unique_keys L -> (i < j)%nat -> L !! i = Some u -> L !! j = Some t -> same_key u t = false.
Proof.
  unfold unique_keys. revert i j. induction L as [|x L IH]; intros i j Hu Hij Hi Hj; [done|].
  simpl in Hu. destruct (existsb (same_key x) L) eqn:E.
  { exfalso. assert (Hlen : forall l, (length (keep_last l) <= length l)%nat).
    { clear. induction l as [|y l IHl]; simpl; [lia|]. destruct (existsb _ l); simpl; lia. }
    specialize (Hlen L). apply (f_equal length) in Hu. simpl in Hu. lia. }
  injection Hu as Hu. destruct j as [|j]; [lia|]. destruct i as [|i]; simpl in *.
  - injection Hi as ->. apply not_true_is_false. intros Ek. assert (existsb (same_key u) L = true).
    { apply existsb_exists. exists t. split; [|done]. apply list_elem_of_In. by eapply list_elem_of_lookup_2. }
    congruence.
  - apply (IH i j); auto with lia.
Qed.

Lemma compile_step ts r : unique_keys r ->
  (let '(r', ex) := add_types ts r in drop_excluded r' ex) = keep_last (r ++ ts).
Proof.
  intros Hu. unfold add_types. destruct (add_types_gen ts r []) as (ex & -> & Hex).
  apply drop_excluded_keep_last. intros i u Hi. rewrite Hex. split.
  - intros [?%not_elem_of_nil|(j & t & u' & H1 & H2 & H3 & H4 & H5)]; [done|].
    rewrite Hi in H4. injection H4 as <-. apply existsb_exists. exists t. split; [|done].
    apply list_elem_of_In, list_elem_of_lookup. exists (j - S i)%nat. rewrite lookup_drop.
    by replace (S i + (j - S i))%nat with j by lia.
  - intros (t & Hin & Hk)%existsb_exists. apply list_elem_of_In, list_elem_of_lookup in Hin as (k & Hk').
    rewrite lookup_drop in Hk'. right. exists (S i + k)%nat, t, u. split; [|by auto with lia].
    destruct (decide (length r <= S i + k)%nat); [done|]. exfalso.
    rewrite lookup_app_l in Hk' by lia. rewrite lookup_app_l in Hi by lia.
    rewrite (keep_last_no_clash r i (S i + k) u t) in Hk; [done|done|lia|done|done].
Qed.

Fixpoint schema_rect' (P : schema -> Prop)
    (f : forall inc i e, Forall P inc -> P (Schema inc i e)) (s : schema) : P s :=
  match s with
  | Schema inc i e =>
      f inc i e ((fix go l : Forall P l :=
                    match l with
                    | [] => @Forall_nil _ P
                    | s' :: l' => @Forall_cons _ P s' l' (schema_rect' P f s') (go l')
                    end) inc)
  end.

Lemma compileList_spec s w r :
  unique_keys r -> compileList s w r = keep_last (r ++ flatten s w).
Proof.
  revert r. induction s as [inc i e IH] using schema_rect'. intros r Hu. cbn [compileList flatten].
  set (go := fix go l r := match l with [] => r | s' :: l' => go l' (compileList s' w r) end).
  set (fl := fix go l := match l with [] => [] | s' :: l' => flatten s' w ++ go l' end).
  assert (Hgo : forall r, unique_keys r -> go inc r = keep_last (r ++ fl inc)).
  { clear r Hu. induction IH as [|s' l Hs _ IHl]; intros r Hu; simpl.
    - by rewrite app_nil_r.
    - rewrite Hs by done. rewrite IHl by apply keep_last_unique.
      by rewrite keep_last_app, <- app_assoc. }
  rewrite Hgo by done.
  pose proof (compile_step (own_types w (Schema inc i e)) (keep_last (r ++ fl inc)) (keep_last_unique _)) as Hc.
  destruct (add_types _ _) as [r' ex]. rewrite Hc, keep_last_app, <- app_assoc. done.
Qed.

(** The last type of a list with the tag and kind. *)
Definition has_key (tag : jsstr) (k : kind) (t : ytype) : bool :=
  bool_decide (t_tag t = tag) && bool_decide (t_kind t = k).

Fixpoint last_decl (tag : jsstr) (k : kind) (l : list ytype) : option ytype :=
  match l with
  | [] => None
  | t :: l' => match last_decl tag k l' with
               | Some u => Some u
               | None => if has_key tag k t then Some t else None end
  end.

Lemma last_decl_app tag k a b :
  last_decl tag k (a ++ b) = match last_decl tag k b with Some u => Some u | None => last_decl tag k a end.
Proof.
  induction a as [|t a IH]; simpl; [by destruct (last_decl tag k b)|]. rewrite IH.
  by destruct (last_decl tag k b).
Qed.

Lemma last_decl_existsb tag k t l :
  has_key tag k t = true -> existsb (same_key t) l = true -> last_decl tag k l <> None.
Proof.
  intros Ht. induction l as [|u l IH]; simpl; [done|]. intros [E|E]%orb_true_iff.
  - destruct (last_decl tag k l); [done|]. assert (has_key tag k u = true) as ->; [|done].
    unfold has_key in *. rewrite same_key_spec in E. destruct E as [<- <-]. done.
  - destruct (last_decl tag k l); [done|]. by apply IH in E.
Qed.

Lemma last_decl_keep_last tag k l : last_decl tag k (keep_last l) = last_decl tag k l.
Proof.
  induction l as [|t l IH]; simpl; [done|]. destruct (existsb (same_key t) l) eqn:E; simpl; rewrite IH; [|done].
  destruct (last_decl tag k l) eqn:El; [done|]. destruct (has_key tag k t) eqn:Ek; [|done].
  by destruct (last_decl_existsb tag k t l Ek E).
Qed.

Lemma collect_spec tag k l m : tag <> js "__proto__" ->
  assoc tag (tm_kind (foldl collectType m l) k) =
  match last_decl tag k l with Some u => Some u | None => assoc tag (tm_kind m k) end.
Proof.
  intros Hp. revert m. induction l as [|t l IH]; intros m; simpl; [done|]. rewrite IH.
  destruct (last_decl tag k l); [done|]. simpl. unfold has_key. case_decide as Ek.
  - rewrite assoc_set_prop, (bool_decide_eq_true_2 (t_kind t = k)), andb_true_r by done.
    destruct (decide (t_tag t = tag)) as [<-|Hne].
    + by rewrite !bool_decide_eq_true_2.
    + rewrite (bool_decide_eq_false_2 (t_tag t = tag)) by done.
      rewrite bool_decide_eq_false_2; [done|]. intros [? _]. congruence.
  - by rewrite (bool_decide_eq_false_2 (t_kind t = k)), andb_false_r by congruence.
Qed.

(** ** Properties *)

(** Schema compilation lets the last declaration win: the compiled implicit
    and explicit lists hold each (tag, kind) once, the type declared last
    (included schemas before including ones), in declaration order. *)
Theorem compileList_last_wins s w :
  compileList s w [] = keep_last (flatten s w) /\
  forall i j t u, compileList s w [] !! i = Some t -> compileList s w [] !! j = Some u ->
    t_tag t = t_tag u -> t_kind t = t_kind u -> i = j.
Proof.
  rewrite compileList_spec by done. split; [done|]. simpl.
  pose proof (keep_last_unique (flatten s w)) as Hu. set (L := keep_last (flatten s w)) in *.
  assert (H : forall i j t u, L !! i = Some t -> L !! j = Some u -> t_tag t = t_tag u ->
    t_kind t = t_kind u -> ~ (i < j)%nat).
  { intros i j t u Hi Hj Et Ek Hij. pose proof (keep_last_no_clash L i j t u Hu Hij Hi Hj) as E.
    assert (same_key t u = true) by (by apply same_key_spec). congruence. }
  intros i j t u Hi Hj Et Ek. pose proof (H i j t u Hi Hj Et Ek).
  pose proof (H j i u t Hj Hi (eq_sym Et) (eq_sym Ek)). lia.
Qed.

(** the compiled type map answers with the last declaration of a tag for a
    kind, explicit types overriding implicit ones. *)
Theorem typeMap_last_wins s tag k :
  tag <> js "__proto__" ->
  assoc tag (tm_kind (compiledTypeMap (compile s)) k) =
  last_decl tag k (flatten s Implicit ++ flatten s Explicit).
Proof.
  intros Hp. unfold compile. cbn [compiledTypeMap]. unfold compileMap.
  rewrite !collect_spec by done. rewrite !compileList_spec by done. simpl.
  rewrite !last_decl_keep_last, last_decl_app.
  destruct (last_decl tag k (flatten s Explicit)); [done|]. by destruct (last_decl tag k (flatten s Implicit)).
Qed.

Lemma typeMap_last_wins_witness :
  t_resolve <$> assoc (yaml_tag "int") (tm_kind (compiledTypeMap (compile
     (createSchema [DEFAULT_SAFE_SCHEMA] [type_merge]))) Scalar) = Some resolveYamlInteger.
Proof. rewrite typeMap_last_wins; [reflexivity|discriminate]. Defined.
