(* ===== verification/YamlTypeLaws.v ===== *)
(** The scalar types of js-yaml: what a representer writes is recognised by the
    resolver of the type and constructed back to the value. *)
From S2P Require Import Prelude JsString JsNumber JsRegex Base64Js YamlValue YamlTypes.

(** ** Integers *)

Lemma digits_head_fuel fuel radix n acc :
  2 <= radix -> 0 < n < 2 ^ Z.of_nat fuel ->
  exists d r, digits_fuel fuel radix n acc = digit_char d :: r /\ 0 < d < radix.
Proof.
  intros Hr. revert n acc. induction fuel as [|f IH]; intros n acc Hn; [simpl in Hn; lia|].
  simpl. pose proof (Z.div_mod n radix ltac:(lia)) as Hd.
  pose proof (Z.mod_pos_bound n radix ltac:(lia)) as Hm.
  destruct (Z.eqb_spec (n / radix) 0) as [E|E].
  - exists (n mod radix), acc. split; [done|]. rewrite E in Hd. lia.
  - apply IH. split; [pose proof (Z.div_pos n radix ltac:(lia) ltac:(lia)); lia|].
    apply Z.div_lt_upper_bound; [lia|]. rewrite Nat2Z.inj_succ, Z.pow_succ_r in Hn by lia. nia.
Qed.

(** No leading zero. *)
Lemma digits_head radix n : 2 <= radix -> 0 < n ->
  exists d r, digits radix n = digit_char d :: r /\ 0 < d < radix.
Proof.
  intros Hr Hn. apply digits_head_fuel; [done|]. split; [done|].
  rewrite Nat2Z.inj_succ, Z2Nat.id by apply Z.log2_nonneg. by apply Z.log2_spec.
Qed.

(** A numeral of a radix, its letters in either case. *)
Section Numeral.
Context (radix : Z) (f : Z -> Z) (ok : Z -> bool).
Hypothesis Hf : forall d, 0 <= d < radix -> digit_val (f d) = Some d /\ 48 <= f d <= 102 /\ f d <> 95 /\ ok (f d) = true.

Lemma numeral_run ds : Forall (fun d => 0 <= d < radix) ds -> digit_run radix (f <$> ds) = ds.
Proof.
  induction 1 as [|d ds Hd _ IH]; [done|]. cbn [fmap list_fmap digit_run].
  destruct (Hf d Hd) as [-> _]. destruct (Z.ltb_spec d radix); [|lia]. by f_equal.
Qed.

Lemma numeral_strip ds : Forall (fun d => 0 <= d < radix) ds -> strip_underscores (f <$> ds) = f <$> ds.
Proof.
  intros HF. induction HF as [|d ds Hd _ IH]; [done|]. unfold strip_underscores in *.
  cbn [fmap list_fmap]. rewrite filter_cons_True by (by destruct (Hf d Hd) as (_ & _ & ? & _)). f_equal. exact IH.
Qed.

Lemma numeral_scan ds ch has : Forall (fun d => 0 <= d < radix) ds -> ds <> [] \/ (has = true /\ ch <> 95) ->
  scan_digits ok (f <$> ds) ch has = true.
Proof.
  intros HF. revert ch has. induction HF as [|d ds Hd _ IH]; intros ch has H; cbn [fmap list_fmap scan_digits].
  - destruct H as [?|[-> H]]; [done|]. by destruct (Z.eqb_spec ch 95).
  - destruct (Hf d Hd) as (_ & _ & H95 & ->). destruct (Z.eqb_spec (f d) 95); [done|]. apply IH. by right.
Qed.

Lemma numeral_parse ds : radix <> 16 -> Forall (fun d => 0 <= d < radix) ds -> ds <> [] ->
  parseInt (f <$> ds) radix = Some (false, digits_value radix ds).
Proof.
  intros H16 HF Hne. pose proof (numeral_run ds HF) as Hrun. unfold parseInt.
  destruct ds as [|d ds]; [done|]. destruct (Hf d (Forall_inv HF)) as (_ & Hr & _).
  cbn [fmap list_fmap trim_left] in *.
  assert (is_space (f d) = false) as -> by (unfold is_space; bool_arith).
  assert (Hsgn : forall s', match f d :: s' with 45 :: s'' => (true, s'') | 43 :: s'' => (false, s'')
    | _ => (false, f d :: s') end = (false, f d :: s')).
  { intros s'. destruct (f d) as [|p|p]; try lia. do 6 (destruct p as [p|p|]; try done; try lia). }
  rewrite Hsgn. destruct (Z.eqb_spec radix 16); [done|]. by rewrite Hrun.
Qed.
End Numeral.

Lemma numeral_parse_hex f ds :
  (forall d, 0 <= d < 16 -> digit_val (f d) = Some d) -> Forall (fun d => 0 <= d < 16) ds -> ds <> [] ->
  parseInt (48 :: 120 :: (f <$> ds)) 16 = Some (false, digits_value 16 ds).
Proof.
  intros Hf HF Hne. unfold parseInt. cbn [trim_left]. change (is_space 48) with false. cbv iota.
  change (16 =? 16) with true. change ((120 =? 120) || (120 =? 88)) with true. cbv iota.
  assert (digit_run 16 (f <$> ds) = ds) as ->; [|by destruct ds].
  induction HF as [|d ds Hd HF IH]; [done|]. cbn [fmap list_fmap digit_run]. rewrite Hf by done.
  destruct (Z.ltb_spec d 16); [|lia]. f_equal. destruct ds; [done|by apply IH].
Qed.

(** The characters of a digit below sixteen, letters in upper case when [up]. *)
Definition numeral_char (up : bool) (d : Z) : Z := if up then upper_unit (digit_char d) else digit_char d.

Lemma numeral_char_facts radix up ok :
  2 <= radix <= 16 ->
  forall_below 16 (fun d => (radix <=? d) || ok (numeral_char up d)) = true ->
  forall d, 0 <= d < radix ->
    digit_val (numeral_char up d) = Some d /\ 48 <= numeral_char up d <= 102 /\ numeral_char up d <> 95 /\
    ok (numeral_char up d) = true.
Proof.
  intros Hr Hok d Hd. pose proof (forall_below_spec 16 _ d Hok ltac:(lia)) as H. simpl in H.
  pose proof (forall_below_spec 16 (fun d => forallb (fun up => let c := numeral_char up d in
     bool_decide (digit_val c = Some d) && (48 <=? c) && (c <=? 102) && negb (c =? 95)) [true; false]) d
     ltac:(by vm_compute) ltac:(lia)) as H1. cbn [forallb] in H1. bool_hyps.
  apply orb_true_iff in H as [H|H]; [bool_hyps; lia|].
  destruct up; bool_hyps; repeat match goal with H : bool_decide _ = true |- _ => apply bool_decide_eq_true in H end;
    done.
Qed.

(** The numeral of a non-negative integer, as digits. *)
Lemma numeral_digits (up : bool) radix n : 2 <= radix <= 16 -> 0 <= n ->
  exists ds : list Z, (if up then toUpperCase (digits radix n) else digits radix n) = numeral_char up <$> ds /\
    Forall (fun d => 0 <= d < radix) ds /\ ds <> [] /\ digits_value radix ds = n.
Proof.
  intros Hr Hn. destruct (digits_spec radix n) as (ds & E & HF & Hne & V); [lia..|].
  exists ds. rewrite E. repeat split; [|done..]. destruct up; [|done]. unfold toUpperCase.
  by rewrite <- list_fmap_compose.
Qed.

(** What the sign does to a magnitude. *)
Lemma signed_value z : safe_int z ->
  mul (if z <? 0 then of_Z (-1) else of_Z 1) (of_Z (Z.abs z)) = of_Z z.
Proof.
  intros Hz. destruct (Z.ltb_spec z 0).
  - rewrite mul_sign_neg by (unfold safe_int in *; lia). f_equal. lia.
  - rewrite mul_sign by (unfold safe_int in *; lia). f_equal. lia.
Qed.

(** The text of an integer: an optional minus sign before the body. *)
Lemma rep_prefixed_text prefix radix (up : bool) h z : safe_int z ->
  rep_prefixed prefix radix up h (VNum (of_Z z)) =
  (if z <? 0 then [45] else []) ++ js prefix ++
  (if up then toUpperCase (digits radix (Z.abs z)) else digits radix (Z.abs z)).
Proof.
  intros Hz. unfold rep_prefixed, int_of, toString_radix. rewrite !to_Z_of_Z by done. unfold int_to_string.
  destruct (Z.ltb_spec z 0), (Z.leb_spec 0 z); try lia.
  - rewrite Z.abs_neq by lia. by destruct up.
  - rewrite Z.abs_eq by lia. by destruct up.
Qed.

(** The constructor behind the sign. *)
Definition construct_body (sign : num) (s : jsstr) : num :=
  match s with
  | [48] => of_Z 0
  | 48 :: 98 :: s' => mul sign (parseInt_num s' 2)
  | 48 :: 120 :: s' => mul sign (parseInt_num s 16)
  | 48 :: _ => mul sign (parseInt_num s 8)
  | _ => if existsb (Z.eqb 58) s
         then mul sign (base60 (rev ((fun p => parseInt_num p 10) <$> split_on 58 s)) (of_Z 0) (of_Z 1))
         else mul sign (parseInt_num s 10)
  end.

Lemma drop_sign_digit c r : 48 <= c <= 57 -> drop_sign (c :: r) = c :: r.
Proof. intros H. cbn [drop_sign]. destruct (Z.eqb_spec c 45), (Z.eqb_spec c 43); try lia. done. Qed.

Lemma signed_int (z : Z) (c : Z) (r : jsstr) : 48 <= c <= 57 -> strip_underscores (c :: r) = c :: r ->
  let s := (if z <? 0 then [45] else []) ++ c :: r in
  resolve_int s = resolve_int (c :: r) /\
  construct_int s = construct_body (if z <? 0 then of_Z (-1) else of_Z 1) (c :: r).
Proof.
  intros Hc Hs. cbv zeta. unfold resolve_int, construct_int. rewrite drop_sign_digit by done.
  destruct (z <? 0); cbn [app].
  - split; [done|]. assert (strip_underscores (45 :: c :: r) = 45 :: c :: r) as ->.
    { unfold strip_underscores in *. rewrite filter_cons_True by done. by rewrite Hs. }
    done.
  - rewrite drop_sign_digit, Hs by done. split; [done|].
    assert (match c :: r with 45 :: _ => of_Z (-1) | _ => of_Z 1 end = of_Z 1) as ->.
    { destruct c as [|p|p]; try done. do 6 (destruct p as [p|p|]; try done; try lia). }
    by rewrite drop_sign_digit.
Qed.

Lemma parseInt_num_pos s radix n : parseInt s radix = Some (false, n) -> parseInt_num s radix = of_Z n.
Proof. unfold parseInt_num. by intros ->. Qed.

(** [0b], [0] and [0x]: the prefix is digits and letters, what follows is a
    numeral the resolver accepts and [parseInt] reads. *)
Lemma int_prefixed prefix radix (up : bool) ok h z c r :
  2 <= radix <= 16 -> forall_below 16 (fun d => (radix <=? d) || ok (numeral_char up d)) = true ->
  js prefix = c :: r -> 48 <= c <= 57 -> strip_underscores (c :: r) = c :: r ->
  (forall ds, Forall (fun d => 0 <= d < radix) ds -> ds <> [] ->
    let s := js prefix ++ (numeral_char up <$> ds) in
    resolve_int s = true /\ forall sign, construct_body sign s = mul sign (of_Z (digits_value radix ds))) ->
  safe_int z ->
  let s := rep_prefixed prefix radix up h (VNum (of_Z z)) in
  resolve_int s = true /\ construct_int s = of_Z z.
Proof.
  intros Hr Hok Hp Hc Hs Hbody Hz. cbv zeta. rewrite rep_prefixed_text by done.
  destruct (numeral_digits up radix (Z.abs z) Hr ltac:(lia)) as (ds & -> & HF & Hne & HV).
  destruct (Hbody ds HF Hne) as [H1 H2]. rewrite Hp in *. cbn [app] in *.
  destruct (signed_int z c (r ++ (numeral_char up <$> ds)) Hc) as [E1 E2].
  { unfold strip_underscores in *. change (c :: r ++ ?x) with ((c :: r) ++ x). rewrite list.filter_app, Hs.
    f_equal. apply (numeral_strip radix (numeral_char up) ok); [|done]. by apply numeral_char_facts. }
  rewrite E1, E2, H2, HV. split; [done|]. by apply signed_value.
Qed.

Lemma int_binary h z : safe_int z ->
  let s := rep_prefixed "0b" 2 false h (VNum (of_Z z)) in resolve_int s = true /\ construct_int s = of_Z z.
Proof.
  apply (int_prefixed "0b" 2 false isBinCode h z 48 [98]); try done; try lia.
  intros ds HF Hne. pose proof (numeral_char_facts 2 false isBinCode ltac:(lia) ltac:(done)) as Hf. split.
  - apply (numeral_scan 2 _ _ Hf); [done|by left].
  - intros sign. cbn [construct_body js app]. f_equal. apply parseInt_num_pos.
    apply (numeral_parse 2 _ isBinCode Hf); done.
Qed.

Lemma int_hexadecimal h z : safe_int z ->
  let s := rep_prefixed "0x" 16 true h (VNum (of_Z z)) in resolve_int s = true /\ construct_int s = of_Z z.
Proof.
  apply (int_prefixed "0x" 16 true isHexCode h z 48 [120]); try done; try lia.
  intros ds HF Hne. pose proof (numeral_char_facts 16 true isHexCode ltac:(lia) ltac:(done)) as Hf. split.
  - apply (numeral_scan 16 _ _ Hf); [done|by left].
  - intros sign. cbn [construct_body js app]. f_equal. apply parseInt_num_pos, numeral_parse_hex; [|done..].
    intros d Hd. by apply Hf.
Qed.

Lemma int_octal h z : safe_int z ->
  let s := rep_prefixed "0" 8 false h (VNum (of_Z z)) in resolve_int s = true /\ construct_int s = of_Z z.
Proof.
  apply (int_prefixed "0" 8 false isOctCode h z 48 []); try done; try lia.
  intros ds HF Hne. pose proof (numeral_char_facts 8 false isOctCode ltac:(lia) ltac:(done)) as Hf.
  pose proof (numeral_scan 8 _ _ Hf ds 48 false HF (or_introl Hne)) as Hscan.
  pose proof (numeral_parse 8 _ isOctCode Hf (0 :: ds) ltac:(done)
    ltac:(by constructor; [lia|]) ltac:(done)) as Hpar.
  destruct ds as [|d ds]; [done|]. destruct (Hf d (Forall_inv HF)) as (_ & _ & _ & Ho).
  unfold isOctCode in Ho. bool_hyps. change (js "0") with [48]. cbn [app fmap list_fmap] in *.
  change (numeral_char false 0) with 48 in Hpar. set (x := numeral_char false d) in *. clearbody x.
  apply parseInt_num_pos in Hpar. split.
  - unfold resolve_int. rewrite drop_sign_digit by lia. cbv beta iota.
    destruct x as [|p|p]; try lia. do 7 (destruct p as [p|p|]; try lia; try exact Hscan).
  - intros sign. unfold construct_body.
    destruct x as [|p|p]; try lia. do 7 (destruct p as [p|p|]; try lia; try (by rewrite Hpar)).
Qed.

Lemma scan_decimal_digits ds ch has : Forall (fun d => 0 <= d < 10) ds -> ds <> [] \/ (has = true /\ ch <> 95) ->
  scan_decimal (digit_char <$> ds) ch has = true.
Proof.
  intros HF. revert ch has. induction HF as [|d ds Hd _ IH]; intros ch has H; cbn [fmap list_fmap scan_decimal].
  - destruct H as [?|[-> H]]; [done|]. by destruct (Z.eqb_spec ch 95).
  - assert (digit_char d = 48 + d) as -> by (unfold digit_char; destr_cmp; lia).
    destruct (Z.eqb_spec (48 + d) 95), (Z.eqb_spec (48 + d) 58); try lia.
    assert (isDecCode (48 + d) = true) as -> by (unfold isDecCode; lia). apply IH. right. split; [done|lia].
Qed.

Lemma int_decimal h z : safe_int z ->
  let s := rep_decimal h (VNum (of_Z z)) in resolve_int s = true /\ construct_int s = of_Z z.
Proof.
  intros Hz. cbv zeta. unfold rep_decimal, int_of. rewrite toString10_of_Z by done.
  destruct (Z.eq_dec z 0) as [->|Hne]; [by vm_compute|].
  assert (int_to_string 10 z = (if z <? 0 then [45] else []) ++ digits 10 (Z.abs z)) as ->.
  { unfold int_to_string. destruct (Z.ltb_spec z 0); [rewrite Z.abs_neq by lia|rewrite Z.abs_eq by lia]; done. }
  destruct (digits_head 10 (Z.abs z)) as (d0 & r & Ed & Hd0); [lia..|].
  destruct (digits_spec 10 (Z.abs z)) as (ds & E & HF & Hn & HV); [lia..|].
  pose proof (numeral_char_facts 10 false isDecCode ltac:(lia) ltac:(done)) as Hf.
  pose proof (numeral_strip 10 _ _ Hf ds HF) as Hstrip.
  pose proof (numeral_parse 10 _ _ Hf ds ltac:(done) HF Hn) as Hpar.
  change (numeral_char false <$> ds) with (digit_char <$> ds) in *. apply parseInt_num_pos in Hpar.
  pose proof (scan_decimal_digits ds NaN_code false HF (or_introl Hn)) as Hscan.
  assert (H58 : existsb (Z.eqb 58) (digit_char <$> ds) = false).
  { clear -HF. induction HF as [|d ds Hd _ IH]; [done|]. cbn [fmap list_fmap existsb]. rewrite IH, orb_false_r.
    apply Z.eqb_neq. unfold digit_char. destr_cmp; lia. }
  rewrite <- E, Ed in *.
  assert (digit_char d0 = 48 + d0) as Edc by (unfold digit_char; destr_cmp; lia). rewrite Edc in *.
  destruct (signed_int z (48 + d0) r ltac:(lia) Hstrip) as [-> ->]. split.
  - unfold resolve_int. rewrite drop_sign_digit by lia.
    destruct (48 + d0) as [|p|p] eqn:Ex; try lia. do 7 (destruct p as [p|p|]; try lia; try exact Hscan).
  - rewrite <- (signed_value z Hz), <- HV, <- Hpar. unfold construct_body. rewrite H58.
    destruct (48 + d0) as [|p|p] eqn:Ex; try lia. do 7 (destruct p as [p|p|]; try lia; try done).
Qed.

(** C33: in every style of the type (binary, octal, decimal, hexadecimal) the text
    written for an integer below [2 ^ 53] in magnitude is resolved as an integer
    and constructed back to the same number, sign and zero included. *)
Theorem int_styles_roundtrip (h : heap) (z : Z) (style : jsstr) (rep : heap -> value -> jsstr) :
  safe_int z -> (style, rep) ∈ int_represent ->
  isInteger h (VNum (of_Z z)) = true /\
  resolveYamlInteger h (VStr (rep h (VNum (of_Z z)))) = true /\
  constructYamlInteger h (VStr (rep h (VNum (of_Z z)))) = (VNum (of_Z z), h).
Proof.
  intros Hz Hin. split.
  - unfold isInteger. rewrite is_integral_of_Z by done.
    by destruct (of_Z_cases z Hz) as [[-> ->]|(_ & m & e & -> & _)].
  - cut (resolve_int (rep h (VNum (of_Z z))) = true /\ construct_int (rep h (VNum (of_Z z))) = of_Z z).
    { intros [H1 H2]. split; [done|]. unfold constructYamlInteger. by rewrite H2. }
    unfold int_represent in Hin. rewrite !elem_of_cons in Hin.
    destruct Hin as [[= _ ->]|[[= _ ->]|[[= _ ->]|[[= _ ->]|Hin]]]].
    + by apply int_binary.
    + by apply int_octal.
    + by apply int_decimal.
    + by apply int_hexadecimal.
    + by apply elem_of_nil in Hin.
Qed.

Lemma int_styles_roundtrip_witness :
  isInteger [] (VNum (of_Z (-255))) = true /\
  resolveYamlInteger [] (VStr (rep_prefixed "0x" 16 true [] (VNum (of_Z (-255))))) = true /\
  constructYamlInteger [] (VStr (rep_prefixed "0x" 16 true [] (VNum (of_Z (-255))))) = (VNum (of_Z (-255)), []).
Proof.
  apply (int_styles_roundtrip [] (-255) (js "hexadecimal")).
  - unfold safe_int. lia.
  - unfold int_represent. do 3 right. left.
Defined.
