(* ===== verification/YamlBinary.v ===== *)
(** The binary type of js-yaml: its base64 encoder is base64-js's, its decoder the
    inverse, on every non-empty sequence of bytes. *)
From S2P Require Import Prelude BufferStore JsString JsNumber Base64Js YamlValue YamlTypes.

(** ** Fields of the 24 low bits *)

Lemma field_mod x k n : 0 <= k -> 0 <= n -> k + n <= 24 ->
  (x / 2 ^ k) mod 2 ^ n = (x mod 2 ^ 24 / 2 ^ k) mod 2 ^ n.
Proof.
  intros Hk Hn H. apply Z.bits_inj'. intros i Hi. destruct (Z.lt_ge_cases i n).
  - rewrite !Z.mod_pow2_bits_low, !Z.div_pow2_bits, Z.mod_pow2_bits_low by lia. done.
  - by rewrite !Z.mod_pow2_bits_high by lia.
Qed.

Lemma shr_field b k n : 0 <= k -> 0 <= n -> k + n <= 24 ->
  js_and (js_shr b k) (Z.ones n) = (b mod 2 ^ 24 / 2 ^ k) mod 2 ^ n.
Proof.
  intros Hk Hn H. rewrite js_and_ones by lia. unfold js_shr, shift_count.
  rewrite (Z.mod_small k), Z.shiftr_div_pow2 by lia. by rewrite field_mod, toInt32_mod by lia.
Qed.

Lemma shl_mod b k j : 0 <= k < 32 -> 0 <= j <= 32 -> js_shl b k mod 2 ^ j = (b * 2 ^ k) mod 2 ^ j.
Proof.
  intros Hk Hj. assert (0 < 2 ^ j) by (apply Z.pow_pos_nonneg; lia).
  unfold js_shl, shift_count. rewrite (Z.mod_small k), toInt32_mod, Z.shiftl_mul_pow2 by lia.
  by rewrite <- Z.mul_mod_idemp_l, toInt32_mod, Z.mul_mod_idemp_l by lia.
Qed.

(** ** Encoder *)

Lemma sextet_ch i : sextet i = ch (js_and i 63).
Proof.
  unfold sextet, ch, BASE64_MAP. rewrite js_and_63. pose proof (Z.mod_pos_bound i 64).
  by rewrite lookup_app_l by (change (length alphabet) with 64%nat; lia).
Qed.

Lemma out4_enc3 bits a b c : triple_bytes (a, b, c) -> bits mod 2 ^ 24 = group24 a b c ->
  out4 bits = enc3 (a, b, c).
Proof.
  intros (Ha & Hb & Hc) Hm. destruct (group24_sextets a b c Ha Hb Hc) as (Hg & H0 & _).
  change (out4 bits) with (sextet <$> [js_shr bits 18; js_shr bits 12; js_shr bits 6; bits]).
  unfold enc3. cbn [fmap list_fmap]. rewrite !sextet_ch.
  change 63 with (Z.ones 6). rewrite !shr_field by lia. rewrite Hm.
  assert (js_and bits (Z.ones 6) = group24 a b c mod 64) as ->.
  { rewrite js_and_ones by lia. rewrite <- Hm. change (2 ^ 24) with (64 * 2 ^ 18).
    change (2 ^ 6) with 64. rewrite Z.rem_mul_r by lia. Z.div_mod_to_equations. lia. }
  change (2 ^ 18) with 262144. change (2 ^ 12) with 4096. change (2 ^ 6) with 64.
  by rewrite (Z.mod_small (_ / 262144)) by done.
Qed.

(** A byte shifted in. *)
Lemma shift_in bits x : (js_shl bits 8 + x) mod 2 ^ 24 = (bits * 256 + x) mod 2 ^ 24.
Proof. rewrite <- Z.add_mod_idemp_l, shl_mod, Z.add_mod_idemp_l by lia. done. Qed.

Lemma shift_in3 bits a b c : byte a -> byte b -> byte c ->
  (js_shl (js_shl (js_shl bits 8 + a) 8 + b) 8 + c) mod 2 ^ 24 = group24 a b c.
Proof.
  intros Ha Hb Hc. unfold byte, group24 in *. rewrite shift_in.
  rewrite <- Z.add_mod_idemp_l, <- Z.mul_mod_idemp_l, shift_in, Z.mul_mod_idemp_l, Z.add_mod_idemp_l by lia.
  replace ((_ * 256 + b) * 256 + c) with ((js_shl bits 8 + a) * 65536 + (b * 256 + c)) by ring.
  rewrite <- Z.add_mod_idemp_l, <- Z.mul_mod_idemp_l, shift_in, Z.mul_mod_idemp_l, Z.add_mod_idemp_l by lia.
  replace (_ * 65536 + _) with (a * 65536 + b * 256 + c + bits * 2 ^ 24) by lia.
  rewrite Z.mod_add by lia. apply Z.mod_small. lia.
Qed.

(** The bytes left at the end. *)
Definition encode_tail (rest : list Z) (bits : Z) : jsstr :=
  match rest with
  | [] => out4 bits
  | [_] => [sextet (js_shr bits 2); sextet (js_shl bits 4); 61; 61]
  | _ => [sextet (js_shr bits 10); sextet (js_shr bits 4); sextet (js_shl bits 2); 61]
  end.

Lemma low_mod x k m : 0 <= k <= m -> (x mod 2 ^ m) mod 2 ^ k = x mod 2 ^ k.
Proof.
  intros H. apply Z.bits_inj'. intros i Hi. destruct (Z.lt_ge_cases i k).
  - by rewrite !Z.mod_pow2_bits_low by lia.
  - by rewrite !Z.mod_pow2_bits_high by lia.
Qed.

Lemma encode_tail1 bits a : byte a -> encode_tail [a] (js_shl bits 8 + a) = enc_rest [a].
Proof.
  intros Ha. unfold byte in Ha. unfold encode_tail, enc_rest. rewrite !sextet_ch. change 63 with (Z.ones 6).
  rewrite (shr_field _ 2 6), (js_and_ones (js_shl _ 4) 6), (shl_mod _ 4 6), shift_in by lia.
  change (2 ^ 24) with 16777216. change (2 ^ 2) with 4. change (2 ^ 6) with 64. change (2 ^ 4) with 16.
  assert (js_shl bits 8 mod 256 = 0).
  { change 256 with (2 ^ 8). rewrite shl_mod by lia. rewrite Z.mod_mul; lia. }
  set (x := js_shl bits 8) in *. clearbody x.
  f_equal; [f_equal; Z.div_mod_to_equations; lia|]. f_equal. f_equal. Z.div_mod_to_equations. lia.
Qed.

Lemma encode_tail2 bits a b : byte a -> byte b ->
  encode_tail [a; b] (js_shl (js_shl bits 8 + a) 8 + b) = enc_rest [a; b].
Proof.
  intros Ha Hb. unfold byte in *. unfold encode_tail, enc_rest. rewrite !sextet_ch. change 63 with (Z.ones 6).
  set (x := js_shl bits 8 + a). set (y := js_shl x 8 + b).
  assert (H1 : x mod 256 = a).
  { unfold x. rewrite <- Z.add_mod_idemp_l by lia. change 256 with (2 ^ 8). rewrite shl_mod, Z.mod_mul by lia.
    by apply Z.mod_small. }
  assert (H2 : y mod 65536 = a * 256 + b).
  { unfold y. rewrite <- Z.add_mod_idemp_l by lia. change 65536 with (2 ^ 16). rewrite shl_mod by lia.
    rewrite Z.add_mod_idemp_l by lia. change (2 ^ 8) with 256. change (2 ^ 16) with 65536.
    Z.div_mod_to_equations. lia. }
  rewrite (shr_field y 10 6), (shr_field y 4 6), (js_and_ones (js_shl _ 2) 6), (shl_mod y 2 6) by lia. clearbody x y.
  change (2 ^ 24) with 16777216. change (2 ^ 2) with 4. change (2 ^ 6) with 64. change (2 ^ 4) with 16.
  change (2 ^ 10) with 1024.
  f_equal; [f_equal; Z.div_mod_to_equations; lia|]. f_equal; [f_equal; Z.div_mod_to_equations; lia|].
  f_equal. f_equal. Z.div_mod_to_equations. lia.
Qed.

(** The bits of the last whole group, if any, still wait to be pushed. *)
Definition pending (prev : option (Z * Z * Z)) (n : Z) (idx bits : Z) : Prop :=
  match prev with
  | None => idx = 0
  | Some (a, b, c) => 0 < idx /\ idx mod n = 0 /\ triple_bytes (a, b, c) /\ bits mod 2 ^ 24 = group24 a b c
  end.

Lemma pending_push prev idx bits : pending prev 3 idx bits ->
  (if (idx mod 3 =? 0) && negb (idx =? 0) then out4 bits else []) = default [] (enc3 <$> prev).
Proof.
  destruct prev as [[[a b] c]|]; simpl.
  - intros (Hi & Hm & Ht & Hg). rewrite Hm, Z.eqb_refl. destruct (Z.eqb_spec idx 0); [lia|]. by apply out4_enc3.
  - by intros ->.
Qed.

Lemma no_push idx k : (k = 1 \/ k = 2) -> idx mod 3 = 0 -> ((idx + k) mod 3 =? 0) = false.
Proof. intros Hk H. apply Z.eqb_neq. Z.div_mod_to_equations. lia. Qed.

Lemma pending_mod prev idx bits : pending prev 3 idx bits -> idx mod 3 = 0.
Proof. destruct prev as [[[a b] c]|]; simpl; [tauto|by intros ->]. Qed.

Lemma encode_from ts : forall prev rest idx bits,
  pending prev 3 idx bits -> Forall triple_bytes ts -> short_rest rest -> (prev <> None \/ ts <> [] \/ rest <> []) ->
  let '(r, b) := binary_encode (flat3 ts ++ rest) idx bits in
  r ++ encode_tail rest b = default [] (enc3 <$> prev) ++ enc3s ts ++ enc_rest rest.
Proof.
  induction ts as [|[[a b] c] ts IH]; intros prev rest idx bits Hp HF Hr Hne;
    pose proof (pending_mod _ _ _ Hp) as Hm.
  - cbn [flat3 enc3s mbind list_bind app].
    destruct Hr as [->|[(a & -> & Ha)|(a & b & -> & Ha & Hb)]]; cbn [binary_encode app].
    + destruct prev as [[[a b] c]|]; [|destruct Hne as [?|[?|?]]; done]. cbn [encode_tail fmap option_fmap option_map default enc_rest].
      destruct Hp as (_ & _ & Ht & Hg). rewrite (out4_enc3 bits a b c Ht Hg). done.
    + rewrite (pending_push prev idx bits Hp), app_nil_r, encode_tail1 by done. done.
    + rewrite (pending_push prev idx bits Hp), no_push by auto. cbn [andb app].
      rewrite app_nil_r, encode_tail2 by done. done.
  - apply Forall_cons_1 in HF as [(Ha & Hb & Hc) HF].
    change (flat3 ((a, b, c) :: ts) ++ rest) with (a :: b :: c :: (flat3 ts ++ rest)).
    change (enc3s ((a, b, c) :: ts)) with (enc3 (a, b, c) ++ enc3s ts). cbn [binary_encode].
    replace (idx + 1 + 1) with (idx + 2) by lia.
    rewrite (pending_push prev idx bits Hp), (no_push idx 1), (no_push idx 2) by auto.
    cbn [andb app].
    specialize (IH (Some (a, b, c)) rest (idx + 2 + 1) (js_shl (js_shl (js_shl bits 8 + a) 8 + b) 8 + c)).
    destruct (binary_encode (flat3 ts ++ rest) _ _) as [r b'].
    rewrite <- !app_assoc, IH; [done| |done|done|by left].
    split; [|split; [|split]]; [|Z.div_mod_to_equations; lia|done|by apply shift_in3].
    assert (0 <= idx) by (destruct prev as [[[x y] z]|]; simpl in Hp; lia). lia.
Qed.

Lemma represent_binary_spec ts rest : Forall triple_bytes ts -> short_rest rest -> ts <> [] \/ rest <> [] ->
  represent_binary (flat3 ts ++ rest) = enc3s ts ++ enc_rest rest.
Proof.
  intros HF Hr Hne. unfold represent_binary.
  pose proof (encode_from ts None rest 0 0 eq_refl HF Hr (or_intror Hne)) as H.
  destruct (binary_encode (flat3 ts ++ rest) 0 0) as [r b]. cbn [fmap option_fmap option_map default app] in H.
  rewrite <- H. f_equal. rewrite length_app, length_flat3.
  assert (Z.of_nat (3 * length ts + length rest) mod 3 = Z.of_nat (length rest)) as ->.
  { assert (length rest < 3)%nat by (destruct Hr as [->|[(a & -> & _)|(a & b' & -> & _)]]; simpl; lia).
    Z.div_mod_to_equations. lia. }
  by destruct Hr as [->|[(a & -> & _)|(a & b' & -> & _)]].
Qed.

(** ** Decoder *)

Lemma index_ch x : 0 <= x < 64 -> index_unit BASE64_MAP (ch x) = x /\ ch x <> 13 /\ ch x <> 10 /\ ch x <> 61.
Proof.
  intros Hx. pose proof (forall_below_spec 64 (fun x => (index_unit BASE64_MAP (ch x) =? x) &&
    negb (ch x =? 13) && negb (ch x =? 10) && negb (ch x =? 61)) x ltac:(by vm_compute) Hx) as H.
  cbv beta in H. bool_hyps. done.
Qed.

(** A sextet shifted in. *)
Lemma or_in bits x : 0 <= x < 64 -> js_or (js_shl bits 6) x = js_shl bits 6 + x.
Proof.
  intros Hx. assert (Hm : js_shl bits 6 mod 64 = 0).
  { change 64 with (2 ^ 6). rewrite shl_mod by lia. rewrite Z.mod_mul; lia. }
  pose proof (toInt32_range (Z.shiftl (toInt32 bits) (shift_count 6))) as Hr. fold (js_shl bits 6) in Hr.
  assert (E : js_shl bits 6 = js_shl bits 6 / 64 * 2 ^ 6) by (change (2 ^ 6) with 64; Z.div_mod_to_equations; lia).
  rewrite E. rewrite js_or_add_l; [done|lia|lia|lia|]. rewrite <- E. lia.
Qed.

Lemma or_in_mod bits x : 0 <= x < 64 -> js_or (js_shl bits 6) x mod 2 ^ 24 = (bits * 64 + x) mod 2 ^ 24.
Proof. intros Hx. rewrite or_in by done. rewrite <- Z.add_mod_idemp_l, shl_mod, Z.add_mod_idemp_l by lia. done. Qed.

Definition feed (bits : Z) (xs : list Z) : Z := foldl (fun b x => js_or (js_shl b 6) x) bits xs.

Lemma feed_mod bits xs : Forall (fun x => 0 <= x < 64) xs ->
  feed bits xs mod 2 ^ 24 = foldl (fun b x => b * 64 + x) bits xs mod 2 ^ 24.
Proof.
  intros HF. unfold feed. induction xs as [|x xs IH] using rev_ind; [done|].
  apply Forall_app in HF as [HF Hx%Forall_inv]. rewrite !foldl_app. cbn [foldl]. rewrite or_in_mod by done.
  rewrite <- Z.add_mod_idemp_l, <- Z.mul_mod_idemp_l, IH, Z.mul_mod_idemp_l, Z.add_mod_idemp_l by (done || lia).
  done.
Qed.

Definition bytes3 (t : Z * Z * Z) : list Z := let '(a, b, c) := t in [a; b; c].

Lemma out3_bytes bits a b c : triple_bytes (a, b, c) -> bits mod 2 ^ 24 = group24 a b c -> out3 bits = [a; b; c].
Proof.
  intros (Ha & Hb & Hc) Hg. unfold out3. change 255 with (Z.ones 8). rewrite !shr_field, js_and_ones by lia.
  assert (bits mod 2 ^ 8 = group24 a b c mod 2 ^ 8) as -> by (rewrite <- Hg, low_mod by lia; done).
  rewrite Hg. unfold group24, byte in *. change (2 ^ 16) with 65536. change (2 ^ 8) with 256.
  f_equal; [|f_equal; [|f_equal]]; Z.div_mod_to_equations; lia.
Qed.

Lemma feed_group bits a b c : byte a -> byte b -> byte c ->
  let g := group24 a b c in
  feed bits [g / 262144; (g / 4096) mod 64; (g / 64) mod 64; g mod 64] mod 2 ^ 24 = g.
Proof.
  intros Ha Hb Hc. cbv zeta. destruct (group24_sextets a b c Ha Hb Hc) as (Hg & H0 & H1 & H2 & H3 & E).
  rewrite feed_mod by (repeat constructor; lia). cbn [foldl].
  set (g := group24 a b c) in *. clearbody g.
  replace (_ * 64 + g mod 64) with (g + bits * 2 ^ 24) by lia. rewrite Z.mod_add by lia. by apply Z.mod_small.
Qed.

Lemma pending_pop prev idx bits : pending prev 4 idx bits ->
  (if (idx mod 4 =? 0) && negb (idx =? 0) then out3 bits else []) = default [] (bytes3 <$> prev).
Proof.
  destruct prev as [[[a b] c]|]; simpl.
  - intros (Hi & Hm & Ht & Hg). rewrite Hm, Z.eqb_refl. destruct (Z.eqb_spec idx 0); [lia|]. by apply out3_bytes.
  - by intros ->.
Qed.

Lemma no_pop idx k : (k = 1 \/ k = 2 \/ k = 3) -> idx mod 4 = 0 -> ((idx + k) mod 4 =? 0) = false.
Proof. intros Hk H. apply Z.eqb_neq. Z.div_mod_to_equations. lia. Qed.

Lemma pending_mod4 prev idx bits : pending prev 4 idx bits -> idx mod 4 = 0.
Proof. destruct prev as [[[a b] c]|]; simpl; [tauto|by intros ->]. Qed.

(** Up to four sextets read at the start of a group. *)
Lemma decode_group prev idx bits xs rest : pending prev 4 idx bits ->
  Forall (fun x => 0 <= x < 64) xs -> (length xs <= 4)%nat -> xs <> [] ->
  binary_decode ((ch <$> xs) ++ rest) idx bits =
  let '(r, b) := binary_decode rest (idx + Z.of_nat (length xs)) (feed bits xs) in
  (default [] (bytes3 <$> prev) ++ r, b).
Proof.
  intros Hp HF Hl Hne. pose proof (pending_mod4 _ _ _ Hp) as Hm. pose proof (pending_pop _ _ _ Hp) as Hpop.
  destruct xs as [|x0 [|x1 [|x2 [|x3 [|]]]]]; try (simpl in Hl; lia); try done;
    repeat match goal with H : Forall _ (_ :: _) |- _ => apply Forall_cons_1 in H as [? H] end;
    cbn [fmap list_fmap app binary_decode length feed foldl];
    rewrite ?(fun x H => proj1 (index_ch x H)) by done; rewrite Hpop;
    rewrite <- ?Z.add_assoc; rewrite ?(no_pop idx (1 + (1 + 1))), ?(no_pop idx (1 + 1)), ?(no_pop idx 1) by (try done; lia);
    cbn [andb app]; match goal with |- context [binary_decode rest ?i ?b] => 
      match goal with |- context [binary_decode rest ?j b] => replace i with j by lia end end; by destruct (binary_decode rest _ _).
Qed.

(** The sextets of the bytes left at the end. *)
Definition rest_sextets (rest : list Z) : list Z :=
  match rest with
  | [a] => [a / 4; (a * 16) mod 64]
  | [a; b] => let t := a * 256 + b in [t / 1024; (t / 16) mod 64; (t * 4) mod 64]
  | _ => []
  end.

Definition decode_tail (rest : list Z) (bits : Z) : list Z :=
  match rest with
  | [] => out3 bits
  | [_] => [js_and (js_shr bits 4) 255]
  | _ => [js_and (js_shr bits 10) 255; js_and (js_shr bits 2) 255]
  end.

Lemma rest_facts rest bits : short_rest rest -> rest <> [] ->
  Forall (fun x => 0 <= x < 64) (rest_sextets rest) /\ (length (rest_sextets rest) <= 4)%nat /\ rest_sextets rest <> [] /\
  decode_tail rest (feed bits (rest_sextets rest)) = rest.
Proof.
  intros [->|[(a & -> & Ha)|(a & b & -> & Ha & Hb)]] Hne; [done| |]; unfold byte in *; cbn [rest_sextets length].
  - assert (HF : Forall (fun x => 0 <= x < 64) [a / 4; (a * 16) mod 64])
      by (repeat constructor; Z.div_mod_to_equations; lia).
    split; [done|]. split; [lia|]. split; [done|]. cbn [decode_tail]. change 255 with (Z.ones 8).
    rewrite shr_field, feed_mod by (done || lia). cbn [foldl].
    change (2 ^ 24) with 16777216. change (2 ^ 4) with 16. change (2 ^ 8) with 256.
    f_equal. Z.div_mod_to_equations. lia.
  - cbv zeta. assert (exists t, t = a * 256 + b) as [t Et] by eauto. rewrite <- Et.
    assert (0 <= t < 65536) by lia.
    assert (a = t / 256 /\ b = t mod 256) as [Ea Eb] by (rewrite Et; Z.div_mod_to_equations; lia).
    assert (HF : Forall (fun x => 0 <= x < 64) [t / 1024; (t / 16) mod 64; (t * 4) mod 64])
      by (repeat constructor; Z.div_mod_to_equations; lia).
    split; [done|]. split; [lia|]. split; [done|]. cbn [decode_tail]. change 255 with (Z.ones 8).
    rewrite !shr_field, feed_mod by (done || lia). cbn [foldl].
    change (2 ^ 24) with 16777216. change (2 ^ 10) with 1024. change (2 ^ 2) with 4. change (2 ^ 8) with 256.
    replace (((bits * 64 + t / 1024) * 64 + (t / 16) mod 64) * 64 + (t * 4) mod 64)
      with (bits * 262144 + t * 4) by (clear Ea Eb; Z.div_mod_to_equations; lia).
    f_equal; [rewrite Ea|f_equal; rewrite Eb]; clear Ea Eb Et Ha Hb; Z.div_mod_to_equations; lia.
Qed.

Lemma decode_from ts : forall prev rest idx bits,
  pending prev 4 idx bits -> Forall triple_bytes ts -> short_rest rest -> (prev <> None \/ ts <> [] \/ rest <> []) ->
  let '(r, b) := binary_decode (enc3s ts ++ (ch <$> rest_sextets rest)) idx bits in
  r ++ decode_tail rest b = default [] (bytes3 <$> prev) ++ flat3 ts ++ rest.
Proof.
  induction ts as [|[[a b] c] ts IH]; intros prev rest idx bits Hp HF Hr Hne.
  - cbn [flat3 enc3s mbind list_bind app]. destruct (decide (rest = [])) as [->|Hrest].
    + destruct prev as [[[a b] c]|]; [|destruct Hne as [?|[?|?]]; done]. simpl.
      destruct Hp as (_ & _ & Ht & Hg). by rewrite (out3_bytes bits a b c Ht Hg).
    + destruct (rest_facts rest bits Hr Hrest) as (H1 & H2 & H3 & H4).
      rewrite <- (app_nil_r (ch <$> _)), (decode_group prev) by done. cbn [binary_decode].
      by rewrite app_nil_r, H4.
  - apply Forall_cons_1 in HF as [Ht HF]. pose proof Ht as (Ha & Hb & Hc).
    destruct (group24_sextets a b c Ha Hb Hc) as (Hg & H0 & H1 & H2 & H3 & E). set (g := group24 a b c) in *.
    change (enc3s ((a, b, c) :: ts)) with
      ((ch <$> [g / 262144; (g / 4096) mod 64; (g / 64) mod 64; g mod 64]) ++ enc3s ts).
    change (flat3 ((a, b, c) :: ts)) with ([a; b; c] ++ flat3 ts).
    rewrite <- app_assoc, (decode_group prev); [|done|repeat (constructor; [done|]); constructor|done|done].
    specialize (IH (Some (a, b, c)) rest (idx + 4) (feed bits [g / 262144; (g / 4096) mod 64; (g / 64) mod 64; g mod 64])).
    change (Z.of_nat (length _)) with 4. destruct (binary_decode _ (idx + 4) _) as [r b'].
    rewrite <- !app_assoc, IH; [done| |done|done|by left].
    pose proof (pending_mod4 _ _ _ Hp). split; [|split; [|split]]; [|Z.div_mod_to_equations; lia|done|by apply feed_group].
    assert (0 <= idx) by (destruct prev as [[[x y] z]|]; simpl in Hp; lia). lia.
Qed.

(** What the filter of the decoder keeps of an encoding. *)
Lemma encoded_units rest : short_rest rest ->
  enc_rest rest = (ch <$> rest_sextets rest) ++ replicate ((3 - length rest) mod 3) 61.
Proof. by intros [->|[(a & -> & _)|(a & b & -> & _)]]. Qed.

Lemma filter_units (dec : forall c : Z, Decision (c <> 13 /\ c <> 10 /\ c <> 61)) xs n :
  Forall (fun x => 0 <= x < 64) xs ->
  @base.filter Z (list Z) _ (fun c => c <> 13 /\ c <> 10 /\ c <> 61) dec ((ch <$> xs) ++ replicate n 61) = ch <$> xs.
Proof.
  intros HF. induction HF as [|x xs Hx _ IH]; cbn [fmap list_fmap app].
  - induction n as [|n IH]; [done|]. cbn [replicate]. rewrite filter_cons_False by (intros (_ & _ & ?); done). exact IH.
  - rewrite filter_cons_True by (by apply index_ch). f_equal. exact IH.
Qed.

Lemma enc3s_sextets ts : Forall triple_bytes ts ->
  exists xs, enc3s ts = ch <$> xs /\ Forall (fun x => 0 <= x < 64) xs /\ length xs = (4 * length ts)%nat.
Proof.
  induction 1 as [|[[a b] c] ts (Ha & Hb & Hc) _ IH]; [by exists []|]. destruct IH as (xs & E & HF & Hl).
  destruct (group24_sextets a b c Ha Hb Hc) as (Hg & H0 & H1 & H2 & H3 & _). set (g := group24 a b c) in *.
  exists ([g / 262144; (g / 4096) mod 64; (g / 64) mod 64; g mod 64] ++ xs). split; [|split].
  - change (enc3s ((a, b, c) :: ts)) with (enc3 (a, b, c) ++ enc3s ts). by rewrite E, fmap_app.
  - apply Forall_app. split; [|done]. repeat (constructor; [done|]). constructor.
  - simpl. lia.
Qed.

Lemma binary_bits_units s n : Forall (fun c => 0 <= index_unit BASE64_MAP c <= 64) s ->
  binary_bits s n = Some (n + 6 * slen s).
Proof.
  intros HF. revert n. induction HF as [|c s Hc _ IH]; intros n; cbn [binary_bits].
  - unfold slen. simpl. f_equal. lia.
  - cbv zeta. destruct (Z.ltb_spec 64 (index_unit BASE64_MAP c)), (Z.ltb_spec (index_unit BASE64_MAP c) 0); try lia.
    rewrite IH. unfold slen. cbn [length]. f_equal. lia.
Qed.

(** A non-empty byte sequence in groups, with the sextets of its encoding. *)
Lemma encoding_shape bs : Forall byte bs -> bs <> [] ->
  exists ts rest xs, bs = flat3 ts ++ rest /\ Forall triple_bytes ts /\ short_rest rest /\ (ts <> [] \/ rest <> []) /\
    enc3s ts ++ (ch <$> rest_sextets rest) = ch <$> xs /\ Forall (fun x => 0 <= x < 64) xs /\
    represent_binary bs = (ch <$> xs) ++ replicate ((3 - length rest) mod 3) 61 /\
    length xs = (4 * length ts + length (rest_sextets rest))%nat.
Proof.
  intros HF Hne. destruct (triples_split bs HF) as (ts & rest & -> & Ht & Hr). exists ts, rest.
  destruct (enc3s_sextets ts Ht) as (xs & E & Hxs & Hl). exists (xs ++ rest_sextets rest).
  assert (Hor : ts <> [] \/ rest <> []).
  { destruct (decide (ts = [])) as [->|?]; [right|by left]. intros ->. done. }
  repeat split; try done.
  - by rewrite E, fmap_app.
  - apply Forall_app. split; [done|]. destruct (decide (rest = [])) as [->|?]; [constructor|].
    by apply (rest_facts rest 0).
  - rewrite represent_binary_spec, encoded_units, E, fmap_app, <- app_assoc by done. done.
  - by rewrite length_app, Hl.
Qed.

Lemma construct_represent bs : Forall byte bs -> bs <> [] -> construct_binary (represent_binary bs) = bs.
Proof.
  intros HF Hne. destruct (encoding_shape bs HF Hne) as (ts & rest & xs & -> & Ht & Hr & Hor & E & Hxs & -> & Hl).
  unfold construct_binary.
  rewrite filter_units by done.
  pose proof (decode_from ts None rest 0 0 eq_refl Ht Hr (or_intror Hor)) as H. rewrite E in H.
  destruct (binary_decode (ch <$> xs) 0 0) as [r b]. cbn [fmap option_fmap option_map default app] in H.
  rewrite <- H. f_equal. unfold slen. rewrite length_fmap, Hl.
  assert (Z.of_nat (4 * length ts + length (rest_sextets rest)) mod 4 = Z.of_nat (length (rest_sextets rest))) as ->.
  { assert (length (rest_sextets rest) < 4)%nat by (destruct Hr as [->|[(a & -> & _)|(a & b' & -> & _)]]; simpl; lia).
    Z.div_mod_to_equations. lia. }
  by destruct Hr as [->|[(a & -> & _)|(a & b' & -> & _)]].
Qed.

Lemma resolve_represent bs : Forall byte bs -> bs <> [] -> resolve_binary (represent_binary bs) = true.
Proof.
  intros HF Hne. destruct (encoding_shape bs HF Hne) as (ts & rest & xs & -> & Ht & Hr & Hor & E & Hxs & -> & Hl).
  unfold resolve_binary. rewrite binary_bits_units.
  - apply Z.eqb_eq. unfold slen. rewrite length_app, length_fmap, length_replicate, Hl.
    destruct Hr as [->|[(a & -> & _)|(a & b & -> & _)]]; cbn [rest_sextets length]; [change ((3 - 0) mod 3)%nat with 0%nat
      |change ((3 - 1) mod 3)%nat with 2%nat|change ((3 - 2) mod 3)%nat with 1%nat]; Z.div_mod_to_equations; lia.
  - apply Forall_app. split.
    + apply Forall_fmap. eapply Forall_impl; [|exact Hxs]. intros x Hx. cbv beta in Hx.
      pose proof (proj1 (index_ch x Hx)) as E1. unfold compose. rewrite E1. lia.
    + apply Forall_replicate. by vm_compute.
Qed.

(** C34: For a Buffer that is not empty, the text the binary type writes is the base64 text base64-js
    writes for the same bytes, its resolver accepts it, and the constructor makes a fresh Buffer with
    the same bytes. *)
Theorem binary_roundtrip (h : heap) (l : nat) (bs : list Z) (st : option jsstr) :
  h !! l = Some (OBuf bs) -> Forall byte bs -> bs <> [] ->
  let s := representYamlBinary h (VRef l) st in
  isBinary h (VRef l) = true /\ s = fromByteArray bs /\ resolveYamlBinary h (VStr s) = true /\
  constructYamlBinary h (VStr s) = (VRef (length h), h ++ [OBuf bs]).
Proof.
  intros Hl HF Hne. cbv zeta. unfold isBinary, representYamlBinary. rewrite Hl. split; [done|]. split; [|split].
  - destruct (triples_split bs HF) as (ts & rest & -> & Ht & Hr). rewrite fromByteArray_spec by done.
    apply represent_binary_spec; [done|done|]. destruct (decide (ts = [])) as [->|?]; [right|by left]. by intros ->.
  - by apply resolve_represent.
  - unfold constructYamlBinary, alloc_obj. by rewrite construct_represent.
Qed.

Lemma binary_roundtrip_witness :
  let h := [OBuf [0; 255; 16; 128]] in
  let s := representYamlBinary h (VRef 0) None in
  isBinary h (VRef 0) = true /\ s = fromByteArray [0; 255; 16; 128] /\ resolveYamlBinary h (VStr s) = true /\
  constructYamlBinary h (VStr s) = (VRef 1, h ++ [OBuf [0; 255; 16; 128]]).
Proof.
  apply (binary_roundtrip [OBuf [0; 255; 16; 128]] 0 [0; 255; 16; 128] None); [reflexivity| |discriminate].
  apply (bool_decide_unpack _). reflexivity.
Defined.

(** An empty Buffer does not survive: its text decodes to three zero bytes,
    and so does the empty text. *)
Theorem binary_empty (st : option jsstr) :
  representYamlBinary [OBuf []] (VRef 0) st = js "AAAA" /\
  constructYamlBinary [] (VStr (js "AAAA")) = (VRef 0, [OBuf [0; 0; 0]]) /\
  constructYamlBinary [] (VStr []) = (VRef 0, [OBuf [0; 0; 0]]).
Proof. by vm_compute. Qed.
