(* ===== verification/YamlTimestamp.v ===== *)
(** The timestamp type of js-yaml: what [toISOString] writes is matched by the
    timestamp pattern and constructed back to the same instant. *)
From S2P Require Import Prelude JsString JsNumber YamlValue YamlTypes.

(** ** Days and civil dates *)

Lemma year_of_era doe : 0 <= doe < 146097 ->
  let yoe := (doe - doe / 1460 + doe / 36524 - doe / 146096) / 365 in
  0 <= yoe <= 399 /\ 0 <= doe - (365 * yoe + yoe / 4 - yoe / 100) <= 365.
Proof. intros H. cbv zeta. Z.div_mod_to_equations. lia. Qed.

Lemma month_of_year doy : 0 <= doy <= 365 ->
  let mp := (5 * doy + 2) / 153 in
  0 <= mp <= 11 /\ 1 <= doy - (153 * mp + 2) / 5 + 1 <= 31.
Proof. intros H. cbv zeta. Z.div_mod_to_equations. lia. Qed.

Lemma civil_days z : let '(y, m, d) := civil_of_days z in
  0 <= m <= 11 /\ 1 <= d <= 31 /\ days_of_civil y m d = z.
Proof.
  unfold civil_of_days. set (era := (z + 719468) / 146097). set (doe := (z + 719468) mod 146097).
  assert (Hz : z + 719468 = era * 146097 + doe) by (unfold era, doe; Z.div_mod_to_equations; lia).
  assert (Hdoe : 0 <= doe < 146097) by (apply Z.mod_pos_bound; lia). clearbody era doe.
  destruct (year_of_era doe Hdoe) as [Hy Hd]. cbv zeta in *.
  set (yoe := (doe - doe / 1460 + doe / 36524 - doe / 146096) / 365) in *. clearbody yoe.
  destruct (month_of_year _ Hd) as [Hm Hday]. cbv zeta in *.
  set (doy := doe - (365 * yoe + yoe / 4 - yoe / 100)) in *.
  set (mp := (5 * doy + 2) / 153) in *. assert (Edoy : doy = doe - (365 * yoe + yoe / 4 - yoe / 100)) by done.
  clearbody mp doy.
  set (m := if mp <? 10 then mp + 2 else mp - 10).
  assert (Hmm : 0 <= m <= 11) by (unfold m; destr_cmp; lia).
  assert (Hmp : (m + 10) mod 12 = mp) by (unfold m; destr_cmp; Z.div_mod_to_equations; lia).
  split; [done|]. split; [done|]. unfold days_of_civil. rewrite (Z.mod_small m), (Z.div_small m), Hmp by lia.
  set (y' := if m <=? 1 then _ else _).
  assert (y' = yoe + era * 400) as -> by (unfold y'; destruct (m <=? 1); lia).
  replace ((yoe + era * 400) / 4) with (yoe / 4 + era * 100) by (Z.div_mod_to_equations; lia).
  replace ((yoe + era * 400) / 100) with (yoe / 100 + era * 4) by (Z.div_mod_to_equations; lia).
  replace ((yoe + era * 400) / 400) with era by (Z.div_mod_to_equations; lia).
  lia.
Qed.

(** ** Padded numerals *)

Lemma pad_digits (k : nat) n : 0 <= n < 10 ^ Z.of_nat (S k) ->
  exists ds, pad (Z.of_nat (S k)) n = (fun d => 48 + d) <$> ds /\ length ds = S k /\
    Forall (fun d => 0 <= d < 10) ds /\ digits_value 10 ds = n.
Proof.
  intros Hn. destruct (digits_spec 10 n) as (ds & E & HF & _ & V); [lia..|].
  pose proof (length_digits 10 n k ltac:(lia) Hn) as Hl. unfold pad, zeros, slen. rewrite E in *.
  rewrite length_fmap in *. exists (replicate (S k - length ds) 0 ++ ds). repeat split.
  - rewrite fmap_app, fmap_replicate. f_equal; [f_equal; lia|]. apply list_fmap_ext.
    intros i d Hd. rewrite Forall_lookup in HF. specialize (HF i d Hd). unfold digit_char. destr_cmp; lia.
  - rewrite length_app, length_replicate. lia.
  - apply Forall_app. split; [apply Forall_replicate; lia|done].
  - unfold digits_value in *. rewrite foldl_app.
    assert (forall j, foldl (fun acc d => acc * 10 + d) 0 (replicate j 0) = 0) as ->; [|done].
    induction j as [|j IH]; [done|]. exact IH.
Qed.

Lemma digit_of_char d : 0 <= d < 10 -> digit_of (48 + d) = Some d.
Proof. intros H. unfold digit_of, isDecCode. destr_cmp; try lia. simpl. f_equal. lia. Qed.

Lemma pad2 n r : 0 <= n < 100 -> two_digits (pad 2 n ++ r) = Some (n, r).
Proof.
  intros H. destruct (pad_digits 1 n ltac:(done)) as (ds & E & Hl & HF & V).
  change (Z.of_nat 2) with 2 in E. rewrite E. destruct ds as [|a [|b [|]]]; try done.
  apply Forall_cons_1 in HF as [Ha [Hb _]%Forall_cons_1]. unfold digits_value in V. simpl in V.
  cbn [fmap list_fmap app two_digits]. rewrite !digit_of_char by done. do 2 f_equal. lia.
Qed.

Lemma one_or_two_pad n r : 0 <= n < 100 -> one_or_two (pad 2 n ++ r) = Some (n, r).
Proof. intros H. unfold one_or_two. by rewrite pad2. Qed.

Lemma pad4 n r : 0 <= n < 10000 -> four_digits (pad 4 n ++ r) = Some (n, r).
Proof.
  intros H. destruct (pad_digits 3 n ltac:(done)) as (ds & E & Hl & HF & V).
  change (Z.of_nat 4) with 4 in E. rewrite E. destruct ds as [|a [|b [|c [|d [|]]]]]; try done.
  apply Forall_cons_1 in HF as [Ha [Hb [Hc [Hd _]%Forall_cons_1]%Forall_cons_1]%Forall_cons_1].
  unfold digits_value in V. simpl in V. unfold four_digits. cbn [fmap list_fmap app two_digits].
  rewrite !digit_of_char by done. cbv beta iota. cbn [two_digits]. rewrite !digit_of_char by done.
  cbn [fmap option_fmap option_map]. do 2 f_equal. lia.
Qed.

Lemma span_digits_pad ds r : Forall (fun d => 0 <= d < 10) ds ->
  span_digits (((fun d => 48 + d) <$> ds) ++ 90 :: r) = (ds, 90 :: r).
Proof.
  induction 1 as [|d ds Hd _ IH]; [done|]. cbn [fmap list_fmap app span_digits].
  change (list_fmap Z Z (fun d => 48 + d) ds) with ((fun d => 48 + d) <$> ds). rewrite IH.
  destr_cmp; try lia. simpl. do 2 f_equal. lia.
Qed.

Lemma millis_pad n : 0 <= n < 1000 ->
  exists ds, pad 3 n = (fun d => 48 + d) <$> ds /\ Forall (fun d => 0 <= d < 10) ds /\
    millis ((fun d => d + 48) <$> ds) = n.
Proof.
  intros H. destruct (pad_digits 2 n ltac:(done)) as (ds & E & Hl & HF & V). exists ds. split; [exact E|].
  split; [done|]. unfold millis. rewrite firstn_all2 by (rewrite length_fmap; lia).
  rewrite length_fmap, Hl. change (replicate (3 - 3) 48) with (@nil Z). rewrite app_nil_r, <- list_fmap_compose.
  rewrite <- V. f_equal. rewrite <- (list_fmap_id ds) at 2. apply list_fmap_ext. intros. simpl. lia.
Qed.

(** ** The pattern on an ISO text *)

Section Iso.
Context (y m d hh mi se ms : Z).
Hypothesis Hy : 0 <= y < 10000.
Hypothesis Hm : 0 <= m < 100.
Hypothesis Hd : 0 <= d < 100.
Hypothesis Hhh : 0 <= hh < 100.
Hypothesis Hmi : 0 <= mi < 100.
Hypothesis Hse : 0 <= se < 100.
Hypothesis Hms : 0 <= ms < 1000.

Definition iso_text : jsstr :=
  pad 4 y ++ 45 :: pad 2 m ++ 45 :: pad 2 d ++ 84 ::
  pad 2 hh ++ 58 :: pad 2 mi ++ 58 :: pad 2 se ++ 46 :: pad 3 ms ++ [90].

Lemma iso_not_date : match_date iso_text = None.
Proof.
  unfold match_date, iso_text. rewrite pad4 by done. cbn [mbind option_bind expect].
  change (45 =? 45) with true. cbv iota. cbn [mbind option_bind]. rewrite pad2 by done. cbn [mbind option_bind expect].
  change (45 =? 45) with true. cbv iota. cbn [mbind option_bind]. rewrite pad2 by done. done.
Qed.

Lemma iso_matches : exists frac,
  match_timestamp iso_text = Some (Stamp y m d (Some (hh, mi, se, frac, None))) /\ millis frac = ms.
Proof.
  destruct (millis_pad ms Hms) as (ds & Ep & HF & Hmil). exists ((fun d => d + 48) <$> ds). split; [|done].
  unfold match_timestamp, iso_text. rewrite pad4 by done. cbn [mbind option_bind expect].
  change (45 =? 45) with true. cbv iota. cbn [mbind option_bind]. rewrite one_or_two_pad by done.
  cbn [mbind option_bind expect]. change (45 =? 45) with true. cbv iota. cbn [mbind option_bind].
  rewrite one_or_two_pad by done. cbn [mbind option_bind date_separator]. change (84 =? 84) with true. cbn [orb].
  cbv iota. cbn [mbind option_bind]. rewrite one_or_two_pad by done. cbn [mbind option_bind expect]. change (58 =? 58) with true. cbv iota.
  cbn [mbind option_bind]. rewrite pad2 by done. cbn [mbind option_bind expect]. change (58 =? 58) with true. cbv iota.
  cbn [mbind option_bind]. rewrite pad2 by done. cbn [mbind option_bind]. rewrite Ep, span_digits_pad by done. done.
Qed.
End Iso.

Lemma civil_year z : let '(y, m, d) := civil_of_days z in -683003 <= z < 2932897 -> 100 <= y <= 9999.
Proof.
  pose proof (civil_days z) as H. destruct (civil_of_days z) as [[y m] d]. destruct H as (Hm & Hd & E). intros Hz.
  unfold days_of_civil in E. rewrite (Z.mod_small m), (Z.div_small m) in E by lia.
  assert (Hmp : (m + 10) mod 12 = if m <=? 1 then m + 10 else m - 2) by (destr_cmp; Z.div_mod_to_equations; lia).
  rewrite Hmp in E. destruct (Z.leb_spec m 1); Z.div_mod_to_equations; lia.
Qed.

(** A Date of the years 100 to 9999 is written as an ISO text that the
    timestamp resolver accepts and that constructs a fresh Date of the same
    millisecond. *)
Theorem timestamp_roundtrip (h : heap) (l : nat) (t : Z) (st : option jsstr) :
  h !! l = Some (ODate t) -> -59011459200000 <= t < 253402300800000 ->
  let s := representYamlTimestamp h (VRef l) st in
  isDate h (VRef l) = true /\ resolveYamlTimestamp h (VStr s) = true /\
  constructYamlTimestamp h (VStr s) = (VRef (length h), h ++ [ODate t]).
Proof.
  intros Hl Ht. cbv zeta. unfold isDate, representYamlTimestamp. rewrite Hl. split; [done|].
  unfold resolveYamlTimestamp, constructYamlTimestamp, construct_timestamp, toISOString.
  assert (Hz : t / 86400000 * 86400000 + t mod 86400000 = t) by (Z.div_mod_to_equations; lia).
  assert (Hr : 0 <= t mod 86400000 < 86400000) by (apply Z.mod_pos_bound; lia).
  assert (Hdays : -683003 <= t / 86400000 < 2932897) by (Z.div_mod_to_equations; lia).
  pose proof (civil_days (t / 86400000)) as Hc. pose proof (civil_year (t / 86400000)) as Hy.
  set (r := t mod 86400000) in *. set (z := t / 86400000) in *. clearbody r z.
  destruct (civil_of_days z) as [[y m] d]. specialize (Hy Hdays). destruct Hc as (Hm & Hd & Ed).
  assert (iso_year y = pad 4 y) as ->.
  { unfold iso_year. destruct (Z.leb_spec 0 y), (Z.leb_spec y 9999); try lia. done. }
  fold (iso_text y (m + 1) d (r / 3600000) (r / 60000 mod 60) (r / 1000 mod 60) (r mod 1000)).
  unfold exec_timestamp. rewrite iso_not_date; [|Z.div_mod_to_equations; lia..].
  destruct (iso_matches y (m + 1) d (r / 3600000) (r / 60000 mod 60) (r / 1000 mod 60) (r mod 1000))
    as (frac & -> & Hf); [Z.div_mod_to_equations; lia..|]. split; [done|]. cbn [mbind option_bind ts_time ts_year ts_month ts_day].
  unfold alloc_obj. do 2 f_equal. f_equal. f_equal. rewrite Hf. unfold Date_UTC.
  destruct (Z.leb_spec 0 y), (Z.leb_spec y 99); try lia. cbn [andb].
  replace (m + 1 - 1) with m by lia. rewrite Ed. clear -Hz. Z.div_mod_to_equations. lia.
Qed.

Lemma timestamp_roundtrip_witness :
  let h := [ODate 951782400123] in
  let s := representYamlTimestamp h (VRef 0) None in
  isDate h (VRef 0) = true /\ resolveYamlTimestamp h (VStr s) = true /\
  constructYamlTimestamp h (VStr s) = (VRef 1, h ++ [ODate 951782400123]).
Proof. apply (timestamp_roundtrip [ODate 951782400123] 0 951782400123 None); [reflexivity|lia]. Defined.

(** A Date of the first century does not survive: midnight of 1 March of the
    year 50 is written with the year 0050 and read back as 1 March 1950. *)
Theorem timestamp_first_century :
  let t := Date_UTC 450 2 1 0 0 0 0 - 146097 * 86400000 in
  toISOString t = js "0050-03-01T00:00:00.000Z" /\
  construct_timestamp (toISOString t) = Some (Date_UTC 1950 2 1 0 0 0 0) /\ t <> Date_UTC 1950 2 1 0 0 0 0.
Proof. by vm_compute. Qed.
