(* ===== verification/YamlLoader.v ===== *)
(** The loader of js-yaml: a recursive-descent reader over the code units of the
    input, with its mutable state as a record. *)
From S2P Require Import Prelude JsString JsNumber JsRegex BufferCodec YamlValue YamlTypes YamlSchema.

(** ** Configuration and state *)

(** [anchorMap] with the prototype an anchor called [__proto__] gives it. *)
Record anchors := Anchors { a_own : list (jsstr * value); a_proto : option value }.

(** What code of the document can reach: the objects, the prototypes that a [__proto__] key gave
    them (an object not listed has the one it was made with), and the anchors. *)
Abbreviation protos := (list (nat * value)).
Record store := Store { st_heap : heap; st_protos : protos; st_anchors : anchors }.

(** A function to call: one of the document, or the method [name] of the built-in prototype of the
    object [from], which is no plain object.  It is called on an object or on [anchorMap]. *)
Inductive callee := Written (params : list jsstr) (body : jsstr) | Inherited (from : value) (name : jsstr).
Inductive receiver := OnValue (v : value) | OnAnchors.

(** The engine: how deep arrays can be nested before joining them exhausts the stack; the text of
    a function; whether an assignment to a name, on an object that has [from] (a function, Buffer or
    regular expression) among its prototypes, makes a property; the member of a name that the
    built-in prototypes have ([None]: the plain objects); and what a call does ([None]: it does not
    return). *)
Record runtime := Runtime {
  rt_depth : nat;
  rt_text : value -> jsstr;
  rt_assign : value -> jsstr -> js_error + bool;
  rt_member : option value -> jsstr -> value;
  rt_call : callee -> receiver -> list value -> store -> option ((js_error + value) * store)
}.

(** What [State] fixes for a run.  [c_input] ends with the NUL the loader
    appends and [c_length] does not count it.  [c_dateString] is the rendering of a date as a
    mapping key, which belongs to the engine (time zone). *)
Record config := Config {
  c_input : jsstr;
  c_length : Z;
  c_schema : compiled;
  c_onWarning : bool;
  c_legacy : bool;
  c_json : bool;
  c_dateString : Z -> jsstr;
  c_runtime : runtime
}.

Record lstate := LState {
  l_position : Z;
  l_line : Z;
  l_lineStart : Z;
  l_lineIndent : Z;
  l_version : option jsstr;
  l_checkLineBreaks : bool;
  l_tagMap : list (jsstr * jsstr);
  l_anchorMap : anchors;
  l_tag : option jsstr;
  l_anchor : option jsstr;
  l_kind : option kind;
  l_result : value;
  l_documents : list value;
  l_warnings : list jsstr;
  l_heap : heap;
  l_protos : protos
}.

Definition set_position (p : Z) (s : lstate) : lstate :=
  LState p (l_line s) (l_lineStart s) (l_lineIndent s) (l_version s) (l_checkLineBreaks s)
    (l_tagMap s) (l_anchorMap s) (l_tag s) (l_anchor s) (l_kind s) (l_result s) (l_documents s)
    (l_warnings s) (l_heap s) (l_protos s).
Definition set_line (ln ls : Z) (s : lstate) : lstate :=
  LState (l_position s) ln ls (l_lineIndent s) (l_version s) (l_checkLineBreaks s)
    (l_tagMap s) (l_anchorMap s) (l_tag s) (l_anchor s) (l_kind s) (l_result s) (l_documents s)
    (l_warnings s) (l_heap s) (l_protos s).
Definition set_lineIndent (i : Z) (s : lstate) : lstate :=
  LState (l_position s) (l_line s) (l_lineStart s) i (l_version s) (l_checkLineBreaks s)
    (l_tagMap s) (l_anchorMap s) (l_tag s) (l_anchor s) (l_kind s) (l_result s) (l_documents s)
    (l_warnings s) (l_heap s) (l_protos s).
Definition set_directives (v : option jsstr) (clb : bool) (tm : list (jsstr * jsstr)) (s : lstate) : lstate :=
  LState (l_position s) (l_line s) (l_lineStart s) (l_lineIndent s) v clb
    tm (l_anchorMap s) (l_tag s) (l_anchor s) (l_kind s) (l_result s) (l_documents s)
    (l_warnings s) (l_heap s) (l_protos s).
Definition set_anchorMap (a : anchors) (s : lstate) : lstate :=
  LState (l_position s) (l_line s) (l_lineStart s) (l_lineIndent s) (l_version s) (l_checkLineBreaks s)
    (l_tagMap s) a (l_tag s) (l_anchor s) (l_kind s) (l_result s) (l_documents s)
    (l_warnings s) (l_heap s) (l_protos s).
Definition set_tag (t : option jsstr) (s : lstate) : lstate :=
  LState (l_position s) (l_line s) (l_lineStart s) (l_lineIndent s) (l_version s) (l_checkLineBreaks s)
    (l_tagMap s) (l_anchorMap s) t (l_anchor s) (l_kind s) (l_result s) (l_documents s)
    (l_warnings s) (l_heap s) (l_protos s).
Definition set_anchor (a : option jsstr) (s : lstate) : lstate :=
  LState (l_position s) (l_line s) (l_lineStart s) (l_lineIndent s) (l_version s) (l_checkLineBreaks s)
    (l_tagMap s) (l_anchorMap s) (l_tag s) a (l_kind s) (l_result s) (l_documents s)
    (l_warnings s) (l_heap s) (l_protos s).
Definition set_node (k : option kind) (r : value) (s : lstate) : lstate :=
  LState (l_position s) (l_line s) (l_lineStart s) (l_lineIndent s) (l_version s) (l_checkLineBreaks s)
    (l_tagMap s) (l_anchorMap s) (l_tag s) (l_anchor s) k r (l_documents s)
    (l_warnings s) (l_heap s) (l_protos s).
Definition push_document (d : value) (s : lstate) : lstate :=
  LState (l_position s) (l_line s) (l_lineStart s) (l_lineIndent s) (l_version s) (l_checkLineBreaks s)
    (l_tagMap s) (l_anchorMap s) (l_tag s) (l_anchor s) (l_kind s) (l_result s) (l_documents s ++ [d])
    (l_warnings s) (l_heap s) (l_protos s).
Definition push_warning (w : jsstr) (s : lstate) : lstate :=
  LState (l_position s) (l_line s) (l_lineStart s) (l_lineIndent s) (l_version s) (l_checkLineBreaks s)
    (l_tagMap s) (l_anchorMap s) (l_tag s) (l_anchor s) (l_kind s) (l_result s) (l_documents s)
    (l_warnings s ++ [w]) (l_heap s) (l_protos s).
Definition set_heap (h : heap) (s : lstate) : lstate :=
  LState (l_position s) (l_line s) (l_lineStart s) (l_lineIndent s) (l_version s) (l_checkLineBreaks s)
    (l_tagMap s) (l_anchorMap s) (l_tag s) (l_anchor s) (l_kind s) (l_result s) (l_documents s)
    (l_warnings s) h (l_protos s).
Definition set_protos (p : protos) (s : lstate) : lstate :=
  LState (l_position s) (l_line s) (l_lineStart s) (l_lineIndent s) (l_version s) (l_checkLineBreaks s)
    (l_tagMap s) (l_anchorMap s) (l_tag s) (l_anchor s) (l_kind s) (l_result s) (l_documents s)
    (l_warnings s) (l_heap s) p.

Definition store_of (s : lstate) : store := Store (l_heap s) (l_protos s) (l_anchorMap s).
Definition set_store (st : store) (s : lstate) : lstate :=
  set_anchorMap (st_anchors st) (set_protos (st_protos st) (set_heap (st_heap st) s)).

Abbreviation L := (M lstate).

Definition gets {A} (f : lstate -> A) : L A := fun s => Done (f s) s.

(** ** Character classes *)

Definition is_EOL (c : Z) : bool := (c =? 10) || (c =? 13).
Definition is_WHITE_SPACE (c : Z) : bool := (c =? 9) || (c =? 32).
Definition is_WS_OR_EOL (c : Z) : bool := (c =? 9) || (c =? 32) || (c =? 10) || (c =? 13).
Definition is_FLOW_INDICATOR (c : Z) : bool :=
  (c =? 44) || (c =? 91) || (c =? 93) || (c =? 123) || (c =? 125).

Definition fromHexCode (c : Z) : Z :=
  if (48 <=? c) && (c <=? 57) then c - 48
  else
    let lc := js_or c 32 in
    if (97 <=? lc) && (lc <=? 102) then lc - 97 + 10 else -1.

Definition escapedHexLen (c : Z) : Z :=
  if c =? 120 then 2 else if c =? 117 then 4 else if c =? 85 then 8 else 0.

Definition fromDecimalCode (c : Z) : Z := if (48 <=? c) && (c <=? 57) then c - 48 else -1.

Definition simpleEscapeSequence (c : Z) : option Z :=
  if c =? 48 then Some 0 else if c =? 97 then Some 7 else if c =? 98 then Some 8
  else if c =? 116 then Some 9 else if c =? 9 then Some 9 else if c =? 110 then Some 10
  else if c =? 118 then Some 11 else if c =? 102 then Some 12 else if c =? 114 then Some 13
  else if c =? 101 then Some 27 else if c =? 32 then Some 32 else if c =? 34 then Some 34
  else if c =? 47 then Some 47 else if c =? 92 then Some 92 else if c =? 78 then Some 133
  else if c =? 95 then Some 160 else if c =? 76 then Some 8232 else if c =? 80 then Some 8233
  else None.

Definition charFromCodepoint (c : Z) : jsstr :=
  if c <=? 65535 then [c mod 65536]
  else [(js_shr (c - 65536) 10 + 55296) mod 65536; (js_and (c - 65536) 1023 + 56320) mod 65536].

(** [PATTERN_NON_PRINTABLE]: a control or non-character, or an unpaired
    surrogate; [prev] is the unit before. *)
Definition bad_unit (c : Z) : bool :=
  ((0 <=? c) && (c <=? 8)) || (c =? 11) || (c =? 12) || ((14 <=? c) && (c <=? 31)) ||
  ((127 <=? c) && (c <=? 132)) || ((134 <=? c) && (c <=? 159)) || (c =? 65534) || (c =? 65535).
Definition lead_unit (c : Z) : bool := (55296 <=? c) && (c <=? 56319).
Definition trail_unit (c : Z) : bool := (56320 <=? c) && (c <=? 57343).

Fixpoint non_printable (prev : option Z) (s : jsstr) : bool :=
  match s with
  | [] => false
  | c :: s' =>
      bad_unit c ||
      (lead_unit c && negb (match s' with d :: _ => trail_unit d | [] => false end)) ||
      (trail_unit c && negb (match prev with Some p => lead_unit p | None => false end)) ||
      non_printable (Some c) s'
  end.

Definition PATTERN_TAG_HANDLE : regex :=
  let letter := RClass (fun c => ((97 <=? c) && (c <=? 122)) || ((65 <=? c) && (c <=? 90)) || (c =? 45)) in
  ralts [rchar 33; rlit (js "!!"); rseqs [rchar 33; rplus letter; rchar 33]].

Definition PATTERN_TAG_URI : regex :=
  let hex := RClass isHexCode in
  let uri := RClass (fun c => isDecCode c || ((97 <=? c) && (c <=? 122)) || ((65 <=? c) && (c <=? 90)) ||
                              bool_decide (c ∈ js "-#;/?:@&=+$,_.!~*'()[]")) in
  RSeq (RAlt (rchar 33) (RClass (fun c => negb (bool_decide (c ∈ js ",[]{}")))))
       (RStar (RAlt (rseqs [rchar 37; hex; hex]) uri)).

Section Loader.
Context (cfg : config).

(** [state.input.charCodeAt(p)] *)
Definition at_ (p : Z) : Z := charCodeAt (c_input cfg) p.

(** Every loop advances through the input, so its length bounds the iterations. *)
Definition fuel : nat := S (length (c_input cfg)).

Definition ch : L Z := fun s => Done (at_ (l_position s)) s.

(** [state.position += n] *)
Definition move (n : Z) : L unit := modify (fun s => set_position (l_position s + n) s).

(** [ch = state.input.charCodeAt(++state.position)] *)
Definition next : L Z := do! move 1; ch.

(** [while (p(ch)) ch = state.input.charCodeAt(++state.position)] *)
Fixpoint seek_fuel (n : nat) (p : Z -> bool) : L Z :=
  match n with
  | O => fun _ => NoFuel
  | S n' => let! c := ch in
            if p c then do! move 1; seek_fuel n' p else ret c
  end.

Definition seek (p : Z -> bool) : L Z := seek_fuel fuel p.

Definition generateError (s : lstate) (message : jsstr) : js_error :=
  YAMLException message (Some (l_position s, l_line s, l_position s - l_lineStart s)).

Definition throwErrorS {A} (message : jsstr) : L A := fun s => Raise (generateError s message) s.

Definition throwError {A} (message : string) : L A := throwErrorS (js message).

(** [onWarning] receives the message; the model records it. *)
Definition throwWarningS (message : jsstr) : L unit :=
  if c_onWarning cfg then modify (push_warning message) else ret tt.

Definition throwWarning (message : string) : L unit := throwWarningS (js message).

Definition slice_input (a b : Z) : jsstr := sslice (c_input cfg) a b.

(** [state.result += x] *)
Definition append (x : jsstr) : L unit :=
  modify (fun s => set_node (l_kind s)
    (match l_result s with VStr r => VStr (r ++ x) | v => v end) s).

Definition json_char (c : Z) : bool := (c =? 9) || ((32 <=? c) && (c <=? 1114111)).

Definition captureSegment (start stop : Z) (checkJson : bool) : L unit :=
  if start <? stop then
    let r := slice_input start stop in
    if checkJson then
      if forallb json_char r then append r else throwError "expected valid JSON character"
    else if non_printable None r then throwError "the stream contains non-printable characters"
    else append r
  else ret tt.

Definition readLineBreak : L unit :=
  let! c := ch in
  do! (if c =? 10 then move 1
       else if c =? 13 then
         do! move 1;
         let! d := ch in mwhen (d =? 10) (move 1)
       else throwError "a line break is expected");
  modify (fun s => set_line (l_line s + 1) (l_position s) s).

(** [while (ch === 32) { state.lineIndent++; ... }] *)
Fixpoint indent_loop (n : nat) : L unit :=
  match n with
  | O => fun _ => NoFuel
  | S n' => let! c := ch in
            if c =? 32 then
              do! modify (fun s => set_lineIndent (l_lineIndent s + 1) s);
              do! move 1; indent_loop n'
            else ret tt
  end.

Definition not_eol_nul (c : Z) : bool := negb (is_EOL c) && negb (c =? 0).

Fixpoint separation_loop (n : nat) (allowComments : bool) (lineBreaks : Z) : L Z :=
  match n with
  | O => fun _ => NoFuel
  | S n' =>
      let! c := ch in
      if c =? 0 then ret lineBreaks
      else
        let! c := seek is_WHITE_SPACE in
        let! c := (if allowComments && (c =? 35) then do! move 1; seek not_eol_nul else ret c) in
        if is_EOL c then
          do! readLineBreak;
          do! modify (set_lineIndent 0);
          do! indent_loop fuel;
          separation_loop n' allowComments (lineBreaks + 1)
        else ret lineBreaks
  end.

Definition skipSeparationSpace (allowComments : bool) (checkIndent : Z) : L Z :=
  let! lineBreaks := separation_loop fuel allowComments 0 in
  let! ind := gets l_lineIndent in
  do! mwhen (negb (checkIndent =? -1) && negb (lineBreaks =? 0) && (ind <? checkIndent))
        (throwWarning "deficient indentation");
  ret lineBreaks.

Definition testDocumentSeparator (p : Z) : bool :=
  let c := at_ p in
  ((c =? 45) || (c =? 46)) && (c =? at_ (p + 1)) && (c =? at_ (p + 2)) &&
  ((at_ (p + 3) =? 0) || is_WS_OR_EOL (at_ (p + 3))).

Definition writeFoldedLines (count : Z) : L unit :=
  if count =? 1 then append [32]
  else if 1 <? count then append (repeat [10] (count - 1)) else ret tt.

(** ** Plain scalars *)

Definition cannot_start_plain (c : Z) : bool :=
  is_WS_OR_EOL c || is_FLOW_INDICATOR c || (c =? 35) || (c =? 38) || (c =? 42) || (c =? 33) ||
  (c =? 124) || (c =? 62) || (c =? 39) || (c =? 34) || (c =? 37) || (c =? 64) || (c =? 96).

(** The tests that end a plain scalar at the current character. *)
Definition plain_ends (flow : bool) (s : lstate) : bool :=
  let p := l_position s in
  let c := at_ p in
  if c =? 58 then is_WS_OR_EOL (at_ (p + 1)) || (flow && is_FLOW_INDICATOR (at_ (p + 1)))
  else if c =? 35 then is_WS_OR_EOL (at_ (p - 1))
  else ((p =? l_lineStart s) && testDocumentSeparator p) || (flow && is_FLOW_INDICATOR c).

(** The main loop; [line0] is [_line], the line of the last line break. *)
Fixpoint plain_loop (n : nat) (nodeIndent : Z) (flow : bool)
    (captureStart captureEnd : Z) (pending : bool) (line0 : Z) : L (Z * Z) :=
  match n with
  | O => fun _ => NoFuel
  | S n' =>
      let! c := ch in
      let! ends := gets (plain_ends flow) in
      if (c =? 0) || ends then ret (captureStart, captureEnd)
      else if is_EOL c then
        let! line := gets l_line in
        let! lineStart := gets l_lineStart in
        let! lineIndent := gets l_lineIndent in
        let! _ := skipSeparationSpace false (-1) in
        let! ind := gets l_lineIndent in
        if nodeIndent <=? ind then plain_loop n' nodeIndent flow captureStart captureEnd true line
        else
          do! modify (fun s => set_lineIndent lineIndent (set_line line lineStart (set_position captureEnd s)));
          ret (captureStart, captureEnd)
      else
        let! line := gets l_line in
        let! p := gets l_position in
        do! mwhen pending (do! captureSegment captureStart captureEnd false;
                           writeFoldedLines (line - line0));
        let captureStart := if pending then p else captureStart in
        let captureEnd := if pending then p else captureEnd in
        let captureEnd := if is_WHITE_SPACE c then captureEnd else p + 1 in
        do! move 1;
        plain_loop n' nodeIndent flow captureStart captureEnd false line0
  end.

Definition readPlainScalar (nodeIndent : Z) (flow : bool) : L bool :=
  let! c := ch in
  let! p := gets l_position in
  let following := at_ (p + 1) in
  if cannot_start_plain c then ret false
  else if ((c =? 63) || (c =? 45)) &&
          (is_WS_OR_EOL following || (flow && is_FLOW_INDICATOR following)) then ret false
  else
    let! kind0 := gets l_kind in
    let! result0 := gets l_result in
    do! modify (set_node (Some Scalar) (VStr []));
    let! cap := plain_loop fuel nodeIndent flow p p false 0 in
    do! captureSegment (fst cap) (snd cap) false;
    let! r := gets l_result in
    if decide (r = VStr []) then do! modify (set_node kind0 result0); ret false
    else ret true.

(** ** Quoted scalars *)

Fixpoint single_loop (n : nat) (nodeIndent captureStart captureEnd : Z) : L bool :=
  match n with
  | O => fun _ => NoFuel
  | S n' =>
      let! c := ch in
      let! p := gets l_position in
      let! ls := gets l_lineStart in
      if c =? 0 then throwError "unexpected end of the stream within a single quoted scalar"
      else if c =? 39 then
        do! captureSegment captureStart p true;
        let! d := next in
        if d =? 39 then do! move 1; single_loop n' nodeIndent (p + 1) (p + 2)
        else ret true
      else if is_EOL c then
        do! captureSegment captureStart captureEnd true;
        let! k := skipSeparationSpace false nodeIndent in
        do! writeFoldedLines k;
        let! q := gets l_position in
        single_loop n' nodeIndent q q
      else if (p =? ls) && testDocumentSeparator p then
        throwError "unexpected end of the document within a single quoted scalar"
      else do! move 1; single_loop n' nodeIndent captureStart (p + 1)
  end.

Definition readSingleQuotedScalar (nodeIndent : Z) : L bool :=
  let! c := ch in
  if negb (c =? 39) then ret false
  else
    do! modify (set_node (Some Scalar) (VStr []));
    do! move 1;
    let! p := gets l_position in
    single_loop fuel nodeIndent p p.

(** The hexadecimal digits of an escape. *)
Fixpoint hex_escape (n : nat) (hexResult : Z) : L Z :=
  match n with
  | O => ret hexResult
  | S n' =>
      let! c := next in
      let tmp := fromHexCode c in
      if 0 <=? tmp then hex_escape n' (js_shl hexResult 4 + tmp)
      else throwError "expected hexadecimal character"
  end.

(** After a backslash: the position ends up behind the escape. *)
Definition read_escape (nodeIndent : Z) : L unit :=
  let! c := next in
  if is_EOL c then let! _ := skipSeparationSpace false nodeIndent in ret tt
  else
    match (if (0 <=? c) && (c <? 256) then simpleEscapeSequence c else None) with
    | Some x => do! append [x]; move 1
    | None =>
        let tmp := escapedHexLen c in
        if 0 <? tmp then
          let! r := hex_escape (Z.to_nat tmp) 0 in
          do! append (charFromCodepoint r); move 1
        else throwError "unknown escape sequence"
    end.

Fixpoint double_loop (n : nat) (nodeIndent captureStart captureEnd : Z) : L bool :=
  match n with
  | O => fun _ => NoFuel
  | S n' =>
      let! c := ch in
      let! p := gets l_position in
      let! ls := gets l_lineStart in
      if c =? 0 then throwError "unexpected end of the stream within a double quoted scalar"
      else if c =? 34 then
        do! captureSegment captureStart p true;
        do! move 1; ret true
      else if c =? 92 then
        do! captureSegment captureStart p true;
        do! read_escape nodeIndent;
        let! q := gets l_position in
        double_loop n' nodeIndent q q
      else if is_EOL c then
        do! captureSegment captureStart captureEnd true;
        let! k := skipSeparationSpace false nodeIndent in
        do! writeFoldedLines k;
        let! q := gets l_position in
        double_loop n' nodeIndent q q
      else if (p =? ls) && testDocumentSeparator p then
        throwError "unexpected end of the document within a double quoted scalar"
      else do! move 1; double_loop n' nodeIndent captureStart (p + 1)
  end.

Definition readDoubleQuotedScalar (nodeIndent : Z) : L bool :=
  let! c := ch in
  if negb (c =? 34) then ret false
  else
    do! modify (set_node (Some Scalar) (VStr []));
    do! move 1;
    let! p := gets l_position in
    double_loop fuel nodeIndent p p.

(** ** Mapping entries *)

(** The prototype an object was given. *)
Fixpoint proto_of (l : nat) (ps : protos) : option value :=
  match ps with [] => None | (l', v) :: ps' => if bool_decide (l = l') then Some v else proto_of l ps' end.

(** What a plain object has under a name: a property of its own or of a plain object among its
    prototypes, what [Object.prototype] has, what an object that is not plain has, or nothing where a
    prototype is null.  The prototypes of an object form no cycle, so they are at most as many as
    were given. *)
Inductive member := Found (v : value) | OfObject | OfOther (from : value) | Missing.

Fixpoint inherited (n : nat) (st : store) (k : jsstr) (proto : option value) : member :=
  match proto with
  | None => OfObject
  | Some VNull => Missing
  | Some (VRef l) =>
      match st_heap st !! l with
      | Some (OObj ps) =>
          match assoc k ps, n with
          | Some v, _ => Found v
          | None, S n' => inherited n' st k (proto_of l (st_protos st))
          | None, O => Missing
          end
      | _ => OfOther (VRef l)
      end
  | Some v => OfOther v
  end.
Definition member_of (st : store) (k : jsstr) (proto : option value) : member :=
  inherited (S (length (st_protos st))) st k proto.

(** [f.apply(this, args)] *)
Definition call (f : callee) (this : receiver) (args : list value) : L value := fun s =>
  match rt_call (c_runtime cfg) f this args (store_of s) with
  | Some (inr v, st) => Done v (set_store st s)
  | Some (inl e, st) => Raise e (set_store st s)
  | None => NoFuel
  end.

Definition is_primitive (v : value) : bool := match v with VFunc _ _ | VRef _ => false | _ => true end.

(** [v[name]()] of a plain object, where it has such a method; the one of [Object.prototype] returns
    [builtin]. *)
Definition invoke (name : string) (builtin v : value) : L (option value) :=
  let! st := gets store_of in
  match member_of st (js name) (Some v) with
  | Found (VFunc params body) => let! r := call (Written params body) (OnValue v) [] in ret (Some r)
  | Found _ | Missing => ret None
  | OfObject => ret (Some builtin)
  | OfOther from => let! r := call (Inherited from (js name)) (OnValue v) [] in ret (Some r)
  end.

(** The first of the results that is a primitive value *)
Definition primitive_or (m : L (option value)) (otherwise : L value) : L value :=
  let! r := m in
  match r with
  | Some x => if is_primitive x then ret x else otherwise
  | None => otherwise
  end.

(** A plain object as a primitive value: what its [toString] or else its [valueOf] returns. *)
Definition to_primitive (v : value) : L value :=
  primitive_or (invoke "toString" (VStr (js "[object Object]")) v)
    (primitive_or (invoke "valueOf" v v) (throw (TypeError "Cannot convert object to primitive value"))).

Fixpoint join_comma (l : list jsstr) : jsstr :=
  match l with [] => [] | [s] => s | s :: l' => s ++ 44 :: join_comma l' end.

(** The text of a value that is no plain object and no array. *)
Definition plain_text (h : heap) (v : value) : jsstr :=
  match v with
  | VUndef => js "undefined"
  | VNull => js "null"
  | VBool b => js (if b then "true" else "false")
  | VNum x => toString10 x
  | VStr s => s
  | VFunc _ _ => rt_text (c_runtime cfg) v
  | VRef l =>
      match h !! l with
      | Some (ODate t) => c_dateString cfg t
      | Some (OBuf b) => utf8_decode (length b) b
      | Some (ORegExp src g i m) =>
          47 :: src ++ 47 :: (if g then [103] else []) ++ (if i then [105] else []) ++ (if m then [109] else [])
      | _ => []
      end
  end.

(** The [n] elements of the array at [l] from the [i]th on, as texts; they are read while they are
    joined. *)
Fixpoint join_elems (to_text : value -> L jsstr) (l n i : nat) : L (list jsstr) :=
  match n with
  | O => ret []
  | S n' =>
      let! vs := gets (fun s => elements (l_heap s) (VRef l)) in
      let! t := (match default VUndef (vs !! i) with VUndef | VNull => ret [] | x => to_text x end) in
      let! ts := join_elems to_text l n' (S i) in
      ret (t :: ts)
  end.

(** [String(v)]: an array is joined with commas, an object asked for its text; [seen] are the arrays
    being joined, which count as empty. *)
Fixpoint to_string (n : nat) (seen : list nat) (v : value) : L jsstr :=
  let! h := gets l_heap in
  match v with
  | VRef l =>
      match h !! l with
      | Some (OArr vs) =>
          if bool_decide (l ∈ seen) then ret []
          else match n with
               | O => throw (RangeError "Maximum call stack size exceeded")
               | S n' => let! ts := join_elems (to_string n' (l :: seen)) l (length vs) 0 in ret (join_comma ts)
               end
      | Some (OObj _) => let! p := to_primitive v in ret (plain_text h p)
      | _ => ret (plain_text h v)
      end
  | _ => ret (plain_text h v)
  end.

Definition String_ (v : value) : L jsstr :=
  match v with
  | VRef _ => to_string (rt_depth (c_runtime cfg)) [] v
  | _ => gets (fun s => plain_text (l_heap s) v)
  end.

(** What [o[k] = v] does on an object without a property [k], as its prototypes have it: the setter
    of [__proto__] in [Object.prototype] is met, or a property is made, or nothing, or it throws. *)
Inductive effect := MakesProperty | SetsPrototype | NoEffect.

Fixpoint assignment (n : nat) (st : store) (k : jsstr) (proto : option value) : js_error + effect :=
  let at_end := if bool_decide (k = js "__proto__") then SetsPrototype else MakesProperty in
  let foreign v :=
    if bool_decide (k = js "__proto__") then inr SetsPrototype
    else match rt_assign (c_runtime cfg) v k with
         | inl e => inl e
         | inr makes => inr (if makes : bool then MakesProperty else NoEffect)
         end in
  match proto with
  | None => inr at_end
  | Some VNull => inr MakesProperty
  | Some (VRef l) =>
      match st_heap st !! l with
      | Some (OObj ps) =>
          if has_own k ps then inr MakesProperty
          else match n with
               | S n' => assignment n' st k (proto_of l (st_protos st))
               | O => inr at_end
               end
      | Some (OArr _) | Some (ODate _) => inr at_end
      | _ => foreign (VRef l)
      end
  | Some v => foreign v
  end.
Definition assignment_on (st : store) (k : jsstr) (proto : option value) : js_error + effect :=
  assignment (S (length (st_protos st))) st k proto.

(** The prototype [v] has the object at [l] among its own, or is it. *)
Fixpoint leads_to (n : nat) (st : store) (l : nat) (v : value) : bool :=
  match v with
  | VRef l' =>
      bool_decide (l' = l) ||
      match plain_object (st_heap st) v, n with
      | Some _, S n' => match proto_of l' (st_protos st) with Some v' => leads_to n' st l v' | None => false end
      | _, _ => false
      end
  | _ => false
  end.

Definition is_prototype (v : value) : bool := match v with VNull | VFunc _ _ | VRef _ => true | _ => false end.

(** The own enumerable properties of an object, in [Object.keys] order. *)
Definition own_props (h : heap) (v : value) : list (jsstr * value) :=
  match v with
  | VRef l =>
      match h !! l with
      | Some (OObj ps) => (fun k => (k, default VUndef (assoc k ps))) <$> obj_keys ps
      | Some (OArr vs) => imap (fun i v => (digits 10 (Z.of_nat i), v)) vs
      | Some (OBuf b) => imap (fun i x => (digits 10 (Z.of_nat i), VNum (of_Z x))) b
      | _ => []
      end
  | _ => []
  end.

Definition get_obj (v : value) : L (list (jsstr * value)) :=
  gets (fun s => default [] (plain_object (l_heap s) v)).

Definition set_obj (v : value) (o : obj) : L unit :=
  modify (fun s => match v with
                   | VRef l => set_heap (<[l := o]> (l_heap s)) s
                   | _ => s end).

Definition new_obj (o : obj) : L value := fun s =>
  let '(v, h) := alloc_obj (l_heap s) o in Done v (set_heap h s).

(** [_result.push(x)] *)
Definition push_elem (arr x : value) : L unit :=
  let! vs := gets (fun s => elements (l_heap s) arr) in
  set_obj arr (OArr (vs ++ [x])).

(** [o[k] = v] of a plain object *)
Definition assign_key (o : value) (k : jsstr) (v : value) : L unit :=
  match o with
  | VRef l =>
      let! ps := get_obj o in
      let! st := gets store_of in
      if has_own k ps then set_obj o (OObj (put k v ps))
      else match assignment_on st k (proto_of l (st_protos st)) with
           | inl e => throw e
           | inr MakesProperty => set_obj o (OObj (put k v ps))
           | inr SetsPrototype =>
               if negb (is_prototype v) then ret tt
               else if leads_to (S (length (st_protos st))) st l v then throw (TypeError "Cyclic __proto__ value")
               else modify (fun s => set_protos ((l, v) :: l_protos s) s)
           | inr NoEffect => ret tt
           end
  | _ => ret tt
  end.

Abbreviation overridable := (list (jsstr * bool)).

(** The properties the destination lacks are put into it, and may be overridden. *)
Fixpoint merge_loop (destination : value) (props : list (jsstr * value)) (ov : overridable) : L overridable :=
  match props with
  | [] => ret ov
  | (k, v) :: props' =>
      let! dest := get_obj destination in
      if has_own k dest then merge_loop destination props' ov
      else do! assign_key destination k v; merge_loop destination props' (set_prop k true ov)
  end.

Definition mergeMappings (destination source : value) (ov : overridable) : L overridable :=
  if negb (isObject source)
  then throwError "cannot merge mappings; the provided source object is unacceptable"
  else
    let! props := gets (fun s => own_props (l_heap s) source) in
    merge_loop destination props ov.

Fixpoint merge_all (destination : value) (sources : list value) (ov : overridable) : L overridable :=
  match sources with
  | [] => ret ov
  | v :: vs => let! ov := mergeMappings destination v ov in merge_all destination vs ov
  end.

(** [startLine || state.line]: 0 is falsy. *)
Definition or_else (a b : Z) : Z := if a =? 0 then b else a.

Definition storeMappingPair (r : value) (ov : overridable) (keyTag : option jsstr)
    (keyNode valueNode : value) (start : option (Z * Z)) : L (value * overridable) :=
  let! key := String_ keyNode in
  let! r := (match r with VNull => new_obj (OObj []) | _ => ret r end) in
  if decide (keyTag = Some (yaml_tag "merge")) then
    let! h := gets l_heap in
    let! ov := (match valueNode with
                | VRef l => match h !! l with
                            | Some (OArr vs) => merge_all r vs ov
                            | _ => mergeMappings r valueNode ov end
                | _ => mergeMappings r valueNode ov end) in
    ret (r, ov)
  else
    let! ps := get_obj r in
    if negb (c_json cfg) && negb (has_own key ov) && has_own key ps then
      do! modify (fun s =>
            let '(ln, p) := default (0, 0) start in
            set_position (or_else p (l_position s)) (set_line (or_else ln (l_line s)) (l_lineStart s) s));
      throwError "duplicated mapping key"
    else
      do! assign_key r key valueNode;
      ret (r, del_prop key ov).

(** [state.anchorMap[state.anchor] = v] when there is an anchor; no object of a document has
    [anchorMap] among its prototypes. *)
Definition set_anchor_value (v : value) : L unit :=
  let! a := gets l_anchor in
  match a with
  | None => ret tt
  | Some a =>
      let! m := gets l_anchorMap in
      let! st := gets store_of in
      if has_own a (a_own m) then modify (set_anchorMap (Anchors (put a v (a_own m)) (a_proto m)))
      else match assignment_on st a (a_proto m) with
           | inl e => throw e
           | inr MakesProperty => modify (set_anchorMap (Anchors (put a v (a_own m)) (a_proto m)))
           | inr SetsPrototype =>
               if is_prototype v then modify (set_anchorMap (Anchors (a_own m) (Some v))) else ret tt
           | inr NoEffect => ret tt
           end
  end.

(** ** Block scalars *)

Inductive chomp := CHOMPING_CLIP | CHOMPING_STRIP | CHOMPING_KEEP.

#[global] Instance chomp_eq_dec : EqDecision chomp.
Proof. solve_decision. Defined.

(** The header: chomping and indentation indicators. *)
Fixpoint header_loop (n : nat) (nodeIndent : Z) (chomping : chomp) (detected : bool) (textIndent : Z)
    : L (chomp * bool * Z) :=
  match n with
  | O => fun _ => NoFuel
  | S n' =>
      let! c := ch in
      if c =? 0 then ret (chomping, detected, textIndent)
      else
        let! c := next in
        if (c =? 43) || (c =? 45) then
          if decide (chomping = CHOMPING_CLIP)
          then header_loop n' nodeIndent (if c =? 43 then CHOMPING_KEEP else CHOMPING_STRIP) detected textIndent
          else throwError "repeat of a chomping mode identifier"
        else
          let tmp := fromDecimalCode c in
          if 0 <=? tmp then
            if tmp =? 0
            then throwError "bad explicit indentation width of a block scalar; it cannot be less than one"
            else if negb detected
            then header_loop n' nodeIndent chomping true (nodeIndent + tmp - 1)
            else throwError "repeat of an indentation width identifier"
          else ret (chomping, detected, textIndent)
  end.

(** [while ((!detectedIndent || state.lineIndent < textIndent) && ch === 32)] *)
Fixpoint text_indent_loop (n : nat) (detected : bool) (textIndent : Z) : L unit :=
  match n with
  | O => fun _ => NoFuel
  | S n' =>
      let! c := ch in
      let! ind := gets l_lineIndent in
      if (negb detected || (ind <? textIndent)) && (c =? 32) then
        do! modify (fun s => set_lineIndent (l_lineIndent s + 1) s);
        do! move 1; text_indent_loop n' detected textIndent
      else ret tt
  end.

Definition repeat_nl (n : Z) : jsstr := repeat [10] n.

Fixpoint block_lines (n : nat) (folding : bool) (chomping : chomp) (textIndent : Z)
    (didRead detected atMore : bool) (emptyLines : Z) : L unit :=
  match n with
  | O => fun _ => NoFuel
  | S n' =>
      let! c := ch in
      if c =? 0 then ret tt
      else
        do! readLineBreak;
        do! modify (set_lineIndent 0);
        do! text_indent_loop fuel detected textIndent;
        let! c := ch in
        let! ind := gets l_lineIndent in
        let textIndent := if negb detected && (textIndent <? ind) then ind else textIndent in
        if is_EOL c then
          block_lines n' folding chomping textIndent didRead detected atMore (emptyLines + 1)
        else
          let breaks := if didRead then 1 + emptyLines else emptyLines in
          if ind <? textIndent then
            match chomping with
            | CHOMPING_KEEP => append (repeat_nl breaks)
            | CHOMPING_CLIP => mwhen didRead (append [10])
            | CHOMPING_STRIP => ret tt
            end
          else
            do! (if folding then
                   if is_WHITE_SPACE c then append (repeat_nl breaks)
                   else if atMore then append (repeat_nl (emptyLines + 1))
                   else if emptyLines =? 0 then mwhen didRead (append [32])
                   else append (repeat_nl emptyLines)
                 else append (repeat_nl breaks));
            let atMore := if folding then is_WHITE_SPACE c else atMore in
            let! captureStart := gets l_position in
            let! _ := seek not_eol_nul in
            let! p := gets l_position in
            do! captureSegment captureStart p false;
            block_lines n' folding chomping textIndent true true atMore 0
  end.

Definition readBlockScalar (nodeIndent : Z) : L bool :=
  let! c := ch in
  if negb ((c =? 124) || (c =? 62)) then ret false
  else
    let folding := c =? 62 in
    do! modify (set_node (Some Scalar) (VStr []));
    let! hd := header_loop fuel nodeIndent CHOMPING_CLIP false nodeIndent in
    let '(chomping, detected, textIndent) := hd in
    let! c := ch in
    do! mwhen (is_WHITE_SPACE c)
          (do! move 1;
           let! c := seek is_WHITE_SPACE in
           mwhen (c =? 35) (do! move 1; let! _ := seek not_eol_nul in ret tt));
    do! block_lines fuel folding chomping textIndent false detected false 0;
    ret true.

(** ** Node properties *)

Fixpoint tag_loop (n : nat) (isNamed : bool) (tagHandle : jsstr) (pos0 : Z) : L (bool * jsstr * Z) :=
  match n with
  | O => fun _ => NoFuel
  | S n' =>
      let! c := ch in
      let! p := gets l_position in
      if (c =? 0) || is_WS_OR_EOL c then ret (isNamed, tagHandle, pos0)
      else if c =? 33 then
        if negb isNamed then
          let handle := slice_input (pos0 - 1) (p + 1) in
          if negb (full_match PATTERN_TAG_HANDLE handle)
          then throwError "named tag handle cannot contain such characters"
          else do! move 1; tag_loop n' true handle (p + 1)
        else throwError "tag suffix cannot contain exclamation marks"
      else do! move 1; tag_loop n' isNamed tagHandle pos0
  end.

Definition resolve_tag (isVerbatim : bool) (tagHandle tagName : jsstr) : L unit :=
  let! tm := gets l_tagMap in
  if isVerbatim then modify (set_tag (Some tagName))
  else match assoc tagHandle tm with
       | Some prefix => modify (set_tag (Some (prefix ++ tagName)))
       | None =>
           if bool_decide (tagHandle = js "!") then modify (set_tag (Some (33 :: tagName)))
           else if bool_decide (tagHandle = js "!!")
           then modify (set_tag (Some (js "tag:yaml.org,2002:" ++ tagName)))
           else throwErrorS (js "undeclared tag handle " ++ 34 :: tagHandle ++ [34])
       end.

Definition readTagProperty : L bool :=
  let! c := ch in
  let! tag := gets l_tag in
  if negb (c =? 33) then ret false
  else match tag with
  | Some _ => throwError "duplication of a tag property"
  | None =>
      let! c := next in
      let isVerbatim := c =? 60 in
      let isNamed := c =? 33 in
      do! mwhen (isVerbatim || isNamed) (move 1);
      let! pos0 := gets l_position in
      let! name :=
        (if isVerbatim then
           do! move 1;
           let! _ := seek (fun c => negb (c =? 0) && negb (c =? 62)) in
           let! p := gets l_position in
           if p <? c_length cfg then do! move 1; ret (js "!", slice_input pos0 p)
           else throwError "unexpected end of the stream within a verbatim tag"
         else
           let! r := tag_loop fuel isNamed (if isNamed then js "!!" else js "!") pos0 in
           let '(_, handle, start) := r in
           let! p := gets l_position in
           let tagName := slice_input start p in
           if existsb is_FLOW_INDICATOR tagName
           then throwError "tag suffix cannot contain flow indicator characters"
           else ret (handle, tagName)) in
      let '(handle, tagName) := name in
      if negb (bool_decide (tagName = [])) && negb (full_match PATTERN_TAG_URI tagName)
      then throwErrorS (js "tag name cannot contain such characters: " ++ tagName)
      else do! resolve_tag isVerbatim handle tagName; ret true
  end.

Definition name_char (c : Z) : bool :=
  negb (c =? 0) && negb (is_WS_OR_EOL c) && negb (is_FLOW_INDICATOR c).

Definition readAnchorProperty : L bool :=
  let! c := ch in
  let! anchor := gets l_anchor in
  if negb (c =? 38) then ret false
  else match anchor with
  | Some _ => throwError "duplication of an anchor property"
  | None =>
      do! move 1;
      let! pos0 := gets l_position in
      let! _ := seek name_char in
      let! p := gets l_position in
      if p =? pos0 then throwError "name of an anchor node must contain at least one character"
      else do! modify (set_anchor (Some (slice_input pos0 p))); ret true
  end.

(** What [anchorMap] has under a name. *)
Definition anchor_member (st : store) (k : jsstr) : member :=
  let m := st_anchors st in
  match assoc k (a_own m) with Some v => Found v | None => member_of st k (a_proto m) end.

(** A value that counts as false *)
Definition falsy (v : value) : bool :=
  match v with
  | VUndef | VNull | VBool false | VStr [] => true
  | VNum x => match x with Zero _ | NaN => true | _ => false end
  | _ => false
  end.

(** [state.anchorMap.hasOwnProperty(alias)]: the method is the one of [Object.prototype], unless an
    anchor has its name. *)
Definition has_anchor (alias : jsstr) : L bool :=
  let! st := gets store_of in
  match anchor_member st (js "hasOwnProperty") with
  | OfObject | OfOther _ => ret (has_own alias (a_own (st_anchors st)))
  | Found (VFunc params body) => let! r := call (Written params body) OnAnchors [VStr alias] in ret (negb (falsy r))
  | Found _ | Missing => throw (TypeError "state.anchorMap.hasOwnProperty is not a function")
  end.

(** [state.anchorMap[alias]] *)
Definition anchor_value (st : store) (alias : jsstr) : value :=
  match anchor_member st alias with
  | Found v => v
  | OfObject => rt_member (c_runtime cfg) None alias
  | OfOther from => rt_member (c_runtime cfg) (Some from) alias
  | Missing => VUndef
  end.

Definition readAlias : L bool :=
  let! c := ch in
  if negb (c =? 42) then ret false
  else
    do! move 1;
    let! pos0 := gets l_position in
    let! _ := seek name_char in
    let! p := gets l_position in
    if p =? pos0 then throwError "name of an alias node must contain at least one character"
    else
      let alias := slice_input pos0 p in
      let! known := has_anchor alias in
      if negb known then throwErrorS (js "unidentified alias " ++ 34 :: alias ++ [34])
      else
        let! k := gets l_kind in
        let! st := gets store_of in
        do! modify (set_node k (anchor_value st alias));
        let! _ := skipSeparationSpace true (-1) in
        ret true.

(** ** Collections

    The collection readers call [composeNode], which calls them: they take it
    as an argument and [composeNode] ties the knot on its fuel. *)

Inductive context := CONTEXT_FLOW_IN | CONTEXT_FLOW_OUT | CONTEXT_BLOCK_IN | CONTEXT_BLOCK_OUT.

#[global] Instance context_eq_dec : EqDecision context.
Proof. solve_decision. Defined.

Definition composer : Type := Z -> context -> bool -> bool -> L bool.

Section Collections.
Context (compose : composer).

Fixpoint flow_loop (n : nat) (nodeIndent terminator : Z) (isMapping : bool)
    (tag0 anchor0 : option jsstr) (r : value) (ov : overridable) (readNext : bool) : L bool :=
  match n with
  | O => fun _ => NoFuel
  | S n' =>
      let! c := ch in
      if c =? 0 then throwError "unexpected end of the stream within a flow collection"
      else
        let! _ := skipSeparationSpace true nodeIndent in
        let! c := ch in
        let! p := gets l_position in
        if c =? terminator then
          do! move 1;
          do! modify (fun s => set_node (Some (if isMapping then Mapping else Sequence)) r
                                 (set_anchor anchor0 (set_tag tag0 s)));
          ret true
        else if negb readNext then throwError "missed comma between flow collection entries"
        else
          let isExplicitPair := (c =? 63) && is_WS_OR_EOL (at_ (p + 1)) in
          do! mwhen isExplicitPair
                (do! move 1; let! _ := skipSeparationSpace true nodeIndent in ret tt);
          let! line := gets l_line in
          let! _ := compose nodeIndent CONTEXT_FLOW_IN false true in
          let! keyTag := gets l_tag in
          let! keyNode := gets l_result in
          let! _ := skipSeparationSpace true nodeIndent in
          let! c := ch in
          let! line' := gets l_line in
          let hasValue := (isExplicitPair || (line' =? line)) && (c =? 58) in
          let! valueNode :=
            (if hasValue then
               do! move 1;
               let! _ := skipSeparationSpace true nodeIndent in
               let! _ := compose nodeIndent CONTEXT_FLOW_IN false true in
               gets l_result
             else ret VNull) in
          let isPair := isExplicitPair || hasValue in
          let! ov :=
            (if isMapping then
               let! p := storeMappingPair r ov keyTag keyNode valueNode None in ret (snd p)
             else if isPair then
               let! p := storeMappingPair VNull ov keyTag keyNode valueNode None in
               do! push_elem r (fst p); ret (snd p)
             else do! push_elem r keyNode; ret ov) in
          let! _ := skipSeparationSpace true nodeIndent in
          let! c := ch in
          if c =? 44
          then do! move 1; flow_loop n' nodeIndent terminator isMapping tag0 anchor0 r ov true
          else flow_loop n' nodeIndent terminator isMapping tag0 anchor0 r ov false
  end.

Definition readFlowCollection (nodeIndent : Z) : L bool :=
  let! c := ch in
  let! tag0 := gets l_tag in
  let! anchor0 := gets l_anchor in
  if c =? 91 then
    let! r := new_obj (OArr []) in
    do! set_anchor_value r;
    do! move 1;
    flow_loop fuel nodeIndent 93 false tag0 anchor0 r [] true
  else if c =? 123 then
    let! r := new_obj (OObj []) in
    do! set_anchor_value r;
    do! move 1;
    flow_loop fuel nodeIndent 125 true tag0 anchor0 r [] true
  else ret false.

Fixpoint sequence_loop (n : nat) (nodeIndent : Z) (r : value) (detected : bool) : L bool :=
  match n with
  | O => fun _ => NoFuel
  | S n' =>
      let! c := ch in
      let! p := gets l_position in
      if (c =? 0) || negb (c =? 45) || negb (is_WS_OR_EOL (at_ (p + 1))) then ret detected
      else
        do! move 1;
        let! breaks := skipSeparationSpace true (-1) in
        let! ind := gets l_lineIndent in
        if negb (breaks =? 0) && (ind <=? nodeIndent) then
          do! push_elem r VNull;
          sequence_loop n' nodeIndent r true
        else
          let! line := gets l_line in
          let! _ := compose nodeIndent CONTEXT_BLOCK_IN false true in
          let! v := gets l_result in
          do! push_elem r v;
          let! _ := skipSeparationSpace true (-1) in
          let! c := ch in
          let! line' := gets l_line in
          let! ind := gets l_lineIndent in
          if ((line' =? line) || (nodeIndent <? ind)) && negb (c =? 0)
          then throwError "bad indentation of a sequence entry"
          else if ind <? nodeIndent then ret true
          else sequence_loop n' nodeIndent r true
  end.

Definition readBlockSequence (nodeIndent : Z) : L bool :=
  let! tag0 := gets l_tag in
  let! anchor0 := gets l_anchor in
  let! r := new_obj (OArr []) in
  do! set_anchor_value r;
  let! detected := sequence_loop fuel nodeIndent r false in
  if detected then
    do! modify (fun s => set_node (Some Sequence) r (set_anchor anchor0 (set_tag tag0 s)));
    ret true
  else ret false.

(** The variables of the block mapping loop. *)
Record mapvars := MapVars {
  mv_ov : overridable;
  mv_keyTag : option jsstr;
  mv_keyNode : value;
  mv_valueNode : value;
  mv_atExplicitKey : bool;
  mv_detected : bool;
  mv_allowCompact : bool
}.

(** Store the pending explicit key with no value. *)
Definition flush_key (r : value) (m : mapvars) : L mapvars :=
  if mv_atExplicitKey m then
    let! p := storeMappingPair r (mv_ov m) (mv_keyTag m) (mv_keyNode m) VNull None in
    ret (MapVars (snd p) None VNull VNull true (mv_detected m) (mv_allowCompact m))
  else ret m.

(** The key part of an entry: [inl] leaves the reader ([true] from the early
    return, [false] from the break), [inr] goes on to the value. *)
Definition read_key (flowIndent : Z) (tag0 anchor0 : option jsstr) (r : value) (m : mapvars)
    : L (bool + mapvars) :=
  let! c := ch in
  let! p := gets l_position in
  let! line := gets l_line in
  let no_mapping : L (bool + mapvars) :=
    do! modify (fun s => set_anchor anchor0 (set_tag tag0 s)); ret (inl true) in
  if ((c =? 63) || (c =? 58)) && is_WS_OR_EOL (at_ (p + 1)) then
    let! m :=
      (if c =? 63 then
         let! m := flush_key r m in
         ret (MapVars (mv_ov m) (mv_keyTag m) (mv_keyNode m) (mv_valueNode m) true true true)
       else if mv_atExplicitKey m then
         ret (MapVars (mv_ov m) (mv_keyTag m) (mv_keyNode m) (mv_valueNode m) false (mv_detected m) true)
       else throwError "incomplete explicit mapping pair; a key node is missed; or followed by a non-tabulated empty line") in
    do! move 1;
    ret (inr m)
  else
    let! some := compose flowIndent CONTEXT_FLOW_OUT false true in
    if negb some then ret (inl false)
    else
      let! line' := gets l_line in
      if line' =? line then
        let! c := seek is_WHITE_SPACE in
        if c =? 58 then
          let! c := next in
          if negb (is_WS_OR_EOL c)
          then throwError "a whitespace character is expected after the key-value separator within a block mapping"
          else
            let! m := flush_key r m in
            let! keyTag := gets l_tag in
            let! keyNode := gets l_result in
            ret (inr (MapVars (mv_ov m) keyTag keyNode (mv_valueNode m) false true false))
        else if mv_detected m then throwError "can not read an implicit mapping pair; a colon is missed"
        else no_mapping
      else if mv_detected m
      then throwError "can not read a block mapping entry; a multiline key may not be an implicit key"
      else no_mapping.

(** The value part of an entry, if it starts here. *)
Definition read_value (nodeIndent line p : Z) (r : value) (m : mapvars) : L mapvars :=
  let! some := compose nodeIndent CONTEXT_BLOCK_OUT true (mv_allowCompact m) in
  let! v := gets l_result in
  let m := if some then
             if mv_atExplicitKey m
             then MapVars (mv_ov m) (mv_keyTag m) v (mv_valueNode m) true (mv_detected m) (mv_allowCompact m)
             else MapVars (mv_ov m) (mv_keyTag m) (mv_keyNode m) v false (mv_detected m) (mv_allowCompact m)
           else m in
  let! m := (if mv_atExplicitKey m then ret m
             else
               let! q := storeMappingPair r (mv_ov m) (mv_keyTag m) (mv_keyNode m) (mv_valueNode m) (Some (line, p)) in
               ret (MapVars (snd q) None VNull VNull false (mv_detected m) (mv_allowCompact m))) in
  let! _ := skipSeparationSpace true (-1) in
  ret m.

Fixpoint mapping_loop (n : nat) (nodeIndent flowIndent : Z) (tag0 anchor0 : option jsstr) (r : value)
    (m : mapvars) : L (bool + mapvars) :=
  match n with
  | O => fun _ => NoFuel
  | S n' =>
      let! c := ch in
      if c =? 0 then ret (inr m)
      else
        let! line := gets l_line in
        let! p := gets l_position in
        let! k := read_key flowIndent tag0 anchor0 r m in
        match k with
        | inl true => ret (inl true)
        | inl false => ret (inr m)
        | inr m =>
            let! line' := gets l_line in
            let! ind := gets l_lineIndent in
            let! m := (if (line' =? line) || (nodeIndent <? ind)
                       then read_value nodeIndent line p r m else ret m) in
            let! ind := gets l_lineIndent in
            let! c := ch in
            if (nodeIndent <? ind) && negb (c =? 0) then throwError "bad indentation of a mapping entry"
            else if ind <? nodeIndent then ret (inr m)
            else mapping_loop n' nodeIndent flowIndent tag0 anchor0 r m
        end
  end.

Definition readBlockMapping (nodeIndent flowIndent : Z) : L bool :=
  let! tag0 := gets l_tag in
  let! anchor0 := gets l_anchor in
  let! r := new_obj (OObj []) in
  do! set_anchor_value r;
  let! m := mapping_loop fuel nodeIndent flowIndent tag0 anchor0 r
              (MapVars [] None VNull VNull false false false) in
  match m with
  | inl b => ret b
  | inr m =>
      let! m := flush_key r m in
      if mv_detected m then
        do! modify (fun s => set_node (Some Mapping) r (set_anchor anchor0 (set_tag tag0 s)));
        ret true
      else ret false
  end.

(** ** Nodes *)

Definition indent_status (parentIndent ind : Z) : Z :=
  if parentIndent <? ind then 1 else if ind =? parentIndent then 0 else -1.

(** [while (readTagProperty(state) || readAnchorProperty(state))]; the loop
    state is (indentStatus, atNewLine, allowBlockCollections). *)
Fixpoint properties_loop (n : nat) (parentIndent : Z) (allowBlockStyles : bool)
    (st : Z * bool * bool) : L (Z * bool * bool) :=
  match n with
  | O => fun _ => NoFuel
  | S n' =>
      let! t := readTagProperty in
      let! some := (if t then ret true else readAnchorProperty) in
      if negb some then ret st
      else
        let! breaks := skipSeparationSpace true (-1) in
        let! ind := gets l_lineIndent in
        properties_loop n' parentIndent allowBlockStyles
          (if breaks =? 0 then (fst (fst st), snd (fst st), false)
           else (indent_status parentIndent ind, true, allowBlockStyles))
  end.

Definition orelse (a b : L bool) : L bool := let! x := a in if x then ret true else b.
Definition andalso (a : bool) (b : L bool) : L bool := if a then b else ret false.

(** The content of a node at a greater indentation. *)
Definition read_content (nodeContext : context) (allowBlockStyles allowBlockCollections : bool)
    (flowIndent blockIndent : Z) : L bool :=
  let! coll := orelse (andalso allowBlockCollections
                         (orelse (readBlockSequence blockIndent) (readBlockMapping blockIndent flowIndent)))
                      (readFlowCollection flowIndent) in
  if coll then ret true
  else
    let! sc := orelse (andalso allowBlockStyles (readBlockScalar flowIndent))
                 (orelse (readSingleQuotedScalar flowIndent) (readDoubleQuotedScalar flowIndent)) in
    let! has :=
      (if sc then ret true
       else
         let! al := readAlias in
         let! tag := gets l_tag in
         let! anchor := gets l_anchor in
         if al then
           match tag, anchor with
           | None, None => ret true
           | _, _ => throwError "alias node should not have any properties"
           end
         else
           let! pl := readPlainScalar flowIndent (bool_decide (nodeContext = CONTEXT_FLOW_IN)) in
           if pl then
             do! modify (fun s => match l_tag s with None => set_tag (Some (js "?")) s | _ => s end);
             ret true
           else ret false) in
    let! r := gets l_result in
    do! set_anchor_value r;
    ret has.

(** [type.construct], with its effect on the heap. *)
Definition construct (t : ytype) : L unit := fun s =>
  match t_construct t (l_heap s) (l_result s) with
  | inr (v, h) => Done tt (set_node (l_kind s) v (set_heap h s))
  | inl e => Raise e s
  end.

Fixpoint implicit_loop (ts : list ytype) : L unit :=
  match ts with
  | [] => ret tt
  | t :: ts' =>
      let! ok := gets (fun s => t_resolve t (l_heap s) (l_result s)) in
      if ok then
        do! construct t;
        do! modify (set_tag (Some (t_tag t)));
        let! r := gets l_result in set_anchor_value r
      else implicit_loop ts'
  end.

Definition kind_name (k : option kind) : jsstr :=
  match k with Some Scalar => js "scalar" | Some Sequence => js "sequence" | Some Mapping => js "mapping"
             | None => js "null" end.

(** Resolution of the node's tag. *)
Definition resolve_node : L unit :=
  let! tag := gets l_tag in
  match tag with
  | None => ret tt
  | Some tag =>
      if bool_decide (tag = js "!") then ret tt
      else if bool_decide (tag = js "?") then implicit_loop (compiledImplicit (c_schema cfg))
      else
        let! k := gets l_kind in
        let! r := gets l_result in
        let tm := compiledTypeMap (c_schema cfg) in
        match assoc tag (match k with Some k => tm_kind tm k | None => tm_fallback tm end) with
        | None => throwErrorS (js "unknown tag !<" ++ tag ++ js ">")
        | Some t =>
            if negb (bool_decide (r = VNull)) && negb (bool_decide (Some (t_kind t) = k))
            then throwErrorS (js "unacceptable node kind for !<" ++ tag ++ js "> tag; it should be " ++
                              34 :: kind_name (Some (t_kind t)) ++ 34 :: js ", not " ++ 34 :: kind_name k ++ [34])
            else
              let! ok := gets (fun s => t_resolve t (l_heap s) (l_result s)) in
              if negb ok then throwErrorS (js "cannot resolve a node with !<" ++ tag ++ js "> explicit tag")
              else
                do! construct t;
                let! r := gets l_result in set_anchor_value r
        end
  end.

Definition composeNode_body (parentIndent : Z) (nodeContext : context) (allowToSeek allowCompact : bool)
    : L bool :=
  do! modify (fun s => set_node None VNull (set_anchor None (set_tag None s)));
  let allowBlockStyles := bool_decide (nodeContext = CONTEXT_BLOCK_OUT) ||
                          bool_decide (nodeContext = CONTEXT_BLOCK_IN) in
  let! st0 :=
    (if allowToSeek then
       let! breaks := skipSeparationSpace true (-1) in
       let! ind := gets l_lineIndent in
       ret (if breaks =? 0 then (1, false) else (indent_status parentIndent ind, true))
     else ret (1, false)) in
  let '(indentStatus, atNewLine) := st0 in
  let! st := (if indentStatus =? 1
              then properties_loop fuel parentIndent allowBlockStyles (indentStatus, atNewLine, allowBlockStyles)
              else ret (indentStatus, atNewLine, allowBlockStyles)) in
  let '(indentStatus, atNewLine, allowBlockCollections) := st in
  let allowBlockCollections := allowBlockCollections && (atNewLine || allowCompact) in
  let! pos := gets l_position in
  let! ls := gets l_lineStart in
  let flowIndent := if bool_decide (nodeContext = CONTEXT_FLOW_IN) ||
                       bool_decide (nodeContext = CONTEXT_FLOW_OUT)
                    then parentIndent else parentIndent + 1 in
  let blockIndent := pos - ls in
  let! hasContent :=
    (if indentStatus =? 1
     then read_content nodeContext allowBlockStyles allowBlockCollections flowIndent blockIndent
     else if bool_decide (nodeContext = CONTEXT_BLOCK_OUT) && (indentStatus =? 0)
     then andalso allowBlockCollections (readBlockSequence blockIndent)
     else ret false) in
  do! resolve_node;
  let! tag := gets l_tag in
  let! anchor := gets l_anchor in
  ret (match tag, anchor with None, None => hasContent | _, _ => true end).
End Collections.

Fixpoint composeNode (n : nat) : composer :=
  match n with
  | O => fun _ _ _ _ _ => NoFuel
  | S n' => composeNode_body (composeNode n')
  end.

(** Nesting: each level of collections consumes a character, and a mapping
    looks at its first key through one more call. *)
Definition depth : nat := 2 * fuel.

(** ** Directives *)

(** [/^([0-9]+)\.([0-9]+)$/]: the major and minor versions. *)
Definition match_version (s : jsstr) : option (Z * Z) :=
  match span_digits s with
  | (d :: ds, 46 :: r) =>
      match span_digits r with
      | (e :: es, []) => Some (digits_value 10 (d :: ds), digits_value 10 (e :: es))
      | _ => None
      end
  | _ => None
  end.

Definition handleYamlDirective (args : list jsstr) : L unit :=
  let! v := gets l_version in
  let! tm := gets l_tagMap in
  match v, args with
  | Some _, _ => throwError "duplication of %YAML directive"
  | None, [a] =>
      match match_version a with
      | None => throwError "ill-formed argument of the YAML directive"
      | Some (major, minor) =>
          if negb (major =? 1) then throwError "unacceptable YAML version of the document"
          else
            do! modify (set_directives (Some a) (minor <? 2) tm);
            mwhen (negb (minor =? 1) && negb (minor =? 2))
              (throwWarning "unsupported YAML version of the document")
      end
  | None, _ => throwError "YAML directive accepts exactly one argument"
  end.

Definition handleTagDirective (args : list jsstr) : L unit :=
  let! v := gets l_version in
  let! clb := gets l_checkLineBreaks in
  let! tm := gets l_tagMap in
  match args with
  | [handle; prefix] =>
      if negb (full_match PATTERN_TAG_HANDLE handle)
      then throwError "ill-formed tag handle (first argument) of the TAG directive"
      else if has_own handle tm
      then throwErrorS (js "there is a previously declared suffix for " ++ 34 :: handle ++ 34 :: js " tag handle")
      else if negb (full_match PATTERN_TAG_URI prefix)
      then throwError "ill-formed tag prefix (second argument) of the TAG directive"
      else modify (set_directives v clb (put handle prefix tm))
  | _ => throwError "TAG directive accepts exactly two arguments"
  end.

Definition word_char (c : Z) : bool := negb (c =? 0) && negb (is_WS_OR_EOL c).

(** The arguments of a directive, to the end of its line. *)
Fixpoint args_loop (n : nat) (args : list jsstr) : L (list jsstr) :=
  match n with
  | O => fun _ => NoFuel
  | S n' =>
      let! c := ch in
      if c =? 0 then ret args
      else
        let! c := seek is_WHITE_SPACE in
        if c =? 35 then do! move 1; let! _ := seek not_eol_nul in ret args
        else if is_EOL c then ret args
        else
          let! p := gets l_position in
          let! _ := seek word_char in
          let! q := gets l_position in
          args_loop n' (args ++ [slice_input p q])
  end.

(** The directives in front of a document; returns [hasDirectives]. *)
Fixpoint directives_loop (n : nat) (hasDirectives : bool) : L bool :=
  match n with
  | O => fun _ => NoFuel
  | S n' =>
      let! c := ch in
      if c =? 0 then ret hasDirectives
      else
        let! _ := skipSeparationSpace true (-1) in
        let! c := ch in
        let! ind := gets l_lineIndent in
        if (0 <? ind) || negb (c =? 37) then ret hasDirectives
        else
          do! move 1;
          let! p := gets l_position in
          let! _ := seek word_char in
          let! q := gets l_position in
          let name := slice_input p q in
          if slen name <? 1
          then throwError "directive name must not be less than one character in length"
          else
            let! args := args_loop fuel [] in
            let! c := ch in
            do! mwhen (negb (c =? 0)) readLineBreak;
            do! (if bool_decide (name = js "YAML") then handleYamlDirective args
                 else if bool_decide (name = js "TAG") then handleTagDirective args
                 else throwWarningS (js "unknown document directive " ++ 34 :: name ++ [34]));
            directives_loop n' true
  end.

(** ** Documents *)

Definition non_ascii_break (c : Z) : bool := (c =? 133) || (c =? 8232) || (c =? 8233).

Definition readDocument : L unit :=
  let! documentStart := gets l_position in
  do! modify (fun s => set_anchorMap (Anchors [] None) (set_directives None (c_legacy cfg) [] s));
  let! hasDirectives := directives_loop fuel false in
  let! _ := skipSeparationSpace true (-1) in
  let! ind := gets l_lineIndent in
  let! p := gets l_position in
  do! (if (ind =? 0) && (at_ p =? 45) && (at_ (p + 1) =? 45) && (at_ (p + 2) =? 45) then
         do! move 3; let! _ := skipSeparationSpace true (-1) in ret tt
       else if hasDirectives then throwError "directives end mark is expected"
       else ret tt);
  let! ind := gets l_lineIndent in
  let! _ := composeNode depth (ind - 1) CONTEXT_BLOCK_OUT false true in
  let! _ := skipSeparationSpace true (-1) in
  let! p := gets l_position in
  let! clb := gets l_checkLineBreaks in
  do! mwhen (clb && existsb non_ascii_break (slice_input documentStart p))
        (throwWarning "non-ASCII line breaks are interpreted as content");
  let! r := gets l_result in
  do! modify (push_document r);
  let! ls := gets l_lineStart in
  if (p =? ls) && testDocumentSeparator p then
    mwhen (at_ p =? 46) (do! move 3; let! _ := skipSeparationSpace true (-1) in ret tt)
  else if p <? c_length cfg - 1
  then throwError "end of the stream or a document separator is expected"
  else ret tt.

Fixpoint documents_loop (n : nat) : L unit :=
  match n with
  | O => fun _ => NoFuel
  | S n' => let! p := gets l_position in
            if p <? c_length cfg - 1 then do! readDocument; documents_loop n' else ret tt
  end.
End Loader.

(** ** Entry points *)

Record options := Options {
  o_schema : schema;
  o_onWarning : bool;
  o_legacy : bool;
  o_json : bool;
  o_dateString : Z -> jsstr;
  o_runtime : runtime
}.

(** A final line break is added and a byte order mark removed. *)
Definition prepare (input : jsstr) : jsstr :=
  match input with
  | [] => []
  | _ =>
      let c := charCodeAt input (slen input - 1) in
      let input := if (c =? 10) || (c =? 13) then input else input ++ [10] in
      if charCodeAt input 0 =? 65279 then drop 1 input else input
  end.

Definition make_config (input : jsstr) (o : options) : config :=
  let input := prepare input in
  Config (input ++ [0]) (slen input) (compile (o_schema o)) (o_onWarning o) (o_legacy o) (o_json o)
    (o_dateString o) (o_runtime o).

Definition initial : lstate :=
  LState 0 0 0 0 None false [] (Anchors [] None) None None None VNull [] [] [] [].

Definition loadDocuments (input : jsstr) (o : options) : outcome lstate (list value) :=
  let cfg := make_config input o in
  (do! indent_loop cfg (fuel cfg);
   do! documents_loop cfg (fuel cfg);
   gets l_documents) initial.

(** [load]: [undefined] for no document, an exception for several. *)
Definition load (input : jsstr) (o : options) : outcome lstate value :=
  match loadDocuments input o with
  | Done [] s => Done VUndef s
  | Done [d] s => Done d s
  | Done _ s => Raise (YAMLException (js "expected a single document in the stream, but found more") None) s
  | Raise e s => Raise e s
  | NoFuel => NoFuel
  end.

(** [loadAll] without an iterator returns the documents; with one it passes them
    on in order. *)
Definition loadAll (input : jsstr) (o : options) : outcome lstate (list value) := loadDocuments input o.

Section Entry.
Context {engine : JsEngine} (dateString : Z -> jsstr).

(** [options || {}] with no option given. *)
Definition no_options (rt : runtime) : options :=
  Options (DEFAULT_FULL_SCHEMA (rt_text rt)) false false false dateString rt.

(** The engine while a document without functions is loaded: what the methods of built-in prototypes
    do, which then returns, and, for a collection made of an object that inherits an iterator, the
    entries it yields ([None]: one of them is none). *)
Record builtins := Builtins {
  bi_depth : nat;
  bi_assign : value -> jsstr -> js_error + bool;
  bi_member : option value -> jsstr -> value;
  bi_method : value -> jsstr -> receiver -> list value -> store -> (js_error + value) * store;
  bi_entries : value -> store -> option (list (jsstr * value))
}.

(** A document of the safe schema holds no function, so none is called. *)
Definition safe_runtime (b : builtins) : runtime :=
  Runtime (bi_depth b) (fun _ => []) (bi_assign b) (bi_member b)
    (fun f this args st => Some (match f with
                                 | Inherited from name => bi_method b from name this args st
                                 | Written _ _ => (inl (TypeError "not a function"), st)
                                 end)).

(** [common.extend({ schema: DEFAULT_SAFE_SCHEMA }, options)], no schema being
    among the options. *)
Definition safe_options (b : builtins) (onWarning legacy json : bool) : options :=
  Options DEFAULT_SAFE_SCHEMA onWarning legacy json dateString (safe_runtime b).

Definition safeLoad (b : builtins) (input : jsstr) (onWarning legacy json : bool) : outcome lstate value :=
  load input (safe_options b onWarning legacy json).

(** [safeLoadAll(input, output, options)]: without an output function the
    extended options are given to [loadAll] as its iterator, so it runs with no
    options at all. *)
Definition safeLoadAll (b : builtins) (rt : runtime) (input : jsstr) (output : bool) (onWarning legacy json : bool)
    : outcome lstate (list value) :=
  if output then loadAll input (safe_options b onWarning legacy json)
  else loadAll input (no_options rt).
End Entry.

(** An engine for examples: assignments make properties, and the built-in methods return nothing. *)
Definition plain_builtins : builtins :=
  Builtins 0 (fun _ _ => inr true) (fun _ _ => VUndef) (fun _ _ _ _ st => (inr VUndef, st)) (fun _ _ => Some []).
