(* ===== verification/YamlMapping.v ===== *)
(** Mapping entries of the YAML loader: explicit keys and merge keys. *)
From S2P Require Import Prelude JsString JsNumber JsRegex Base64Js YamlValue YamlTypes YamlSchema YamlLoader.

Abbreviation proto := (js "__proto__").

(** ** Own properties of the source of a merge *)

Lemma assoc_fmap_keys {A} (f : jsstr -> A) q ks :
  assoc q ((fun k => (k, f k)) <$> ks) = if decide (q ∈ ks) then Some (f q) else None.
Proof.
  induction ks as [|k ks IH]; [done|]. cbn [fmap list_fmap assoc]. case_bool_decide as E.
  - subst. by rewrite decide_True by left.
  - change (list_fmap _ _ (fun k => (k, f k)) ks) with ((fun k => (k, f k)) <$> ks). rewrite IH.
    destruct (decide (q ∈ ks)) as [Hq|Hq].
    + by rewrite decide_True by (by right).
    + rewrite decide_False; [done|]. rewrite elem_of_cons. tauto.
Qed.

Lemma assoc_own_props h m ps q : h !! m = Some (OObj ps) -> assoc q (own_props h (VRef m)) = assoc q ps.
Proof.
  intros Hm. unfold own_props. rewrite Hm, assoc_fmap_keys.
  pose proof (assoc_elem q ps) as He. rewrite <- (elem_obj_keys q ps) in He.
  destruct (decide (q ∈ obj_keys ps)) as [Hq|Hq]; destruct (assoc q ps) as [v|]; try done; intuition congruence.
Qed.

(** ** Merging *)

(** What merging properties makes of those of the destination and of the keys that may be
    overridden. *)
Fixpoint merge_into (props : list (jsstr * value)) (dest : list (jsstr * value)) (ov : list (jsstr * bool))
    : list (jsstr * value) * list (jsstr * bool) :=
  match props with
  | [] => (dest, ov)
  | (k, v) :: props' =>
      if has_own k dest then merge_into props' dest ov
      else merge_into props' (set_prop k v dest) (set_prop k true ov)
  end.

Lemma has_own_set_prop {A} q k (v : A) l : q <> proto ->
  has_own q (set_prop k v l) = bool_decide (q = k) || has_own q l.
Proof.
  intros Hq. unfold has_own. rewrite assoc_set_prop. destruct (decide (q = k)) as [->|Hne].
  - by rewrite !bool_decide_eq_true_2.
  - rewrite !bool_decide_eq_false_2 by tauto. done.
Qed.

(** The keys of an object are unique. *)
Lemma NoDup_set_prop {A} k (v : A) l : NoDup (fst <$> l) -> NoDup (fst <$> set_prop k v l).
Proof.
  intros Hn. unfold set_prop. case_bool_decide; [done|]. rewrite put_keys. case_bool_decide as Hk; [done|].
  apply list.NoDup_app. split; [done|]. split; [|apply NoDup_singleton].
  intros x Hx ->%list_elem_of_singleton. done.
Qed.

Lemma NoDup_merge props : forall dest (ov : list (jsstr * bool)),
  NoDup (fst <$> ov) -> NoDup (fst <$> snd (merge_into props dest ov)).
Proof.
  induction props as [|[k v] props IH]; intros dest ov Hn; cbn [merge_into]; [done|].
  destruct (has_own k dest); apply IH; [done|]. by apply NoDup_set_prop.
Qed.

Lemma del_prop_sub {A} k (l : list (jsstr * A)) x : x ∈ fst <$> del_prop k l -> x ∈ fst <$> l.
Proof.
  induction l as [|[k' v] l IH]; cbn [del_prop]; [done|]. case_bool_decide; rewrite !fmap_cons, ?elem_of_cons.
  - by right.
  - intros [?|?]; [by left|right; by apply IH].
Qed.

Lemma NoDup_del_prop {A} k (l : list (jsstr * A)) : NoDup (fst <$> l) -> NoDup (fst <$> del_prop k l).
Proof.
  induction l as [|[k' v] l IH]; cbn [del_prop]; [done|]. rewrite fmap_cons. intros [H1 H2]%list.NoDup_cons.
  case_bool_decide; [done|]. rewrite fmap_cons. apply list.NoDup_cons. split; [|by apply IH].
  intros Hin. apply H1. by apply del_prop_sub in Hin.
Qed.

Lemma has_own_del {A} q k (l : list (jsstr * A)) : NoDup (fst <$> l) ->
  has_own q (del_prop k l) = negb (bool_decide (q = k)) && has_own q l.
Proof.
  unfold has_own. induction l as [|[k' v] l IH]; cbn [del_prop assoc]; [by rewrite andb_false_r|].
  rewrite fmap_cons. intros [H1 H2]%list.NoDup_cons. specialize (IH H2). destruct (decide (k = k')) as [->|Hne].
  - rewrite bool_decide_eq_true_2 by done. cbv iota. destruct (decide (q = k')) as [->|Hq].
    + rewrite !bool_decide_eq_true_2 by done. cbv iota. destruct (assoc k' l) eqn:E; [|done].
      exfalso. apply H1. apply assoc_elem. simpl. by rewrite E.
    + by rewrite !bool_decide_eq_false_2.
  - rewrite (bool_decide_eq_false_2 (k = k')) by done. cbv iota. cbn [assoc]. destruct (decide (q = k')) as [->|Hq].
    + rewrite !bool_decide_eq_true_2, bool_decide_eq_false_2 by done. done.
    + rewrite !(bool_decide_eq_false_2 (q = k')) by done. exact IH.
Qed.

(** A merged property neither replaces an own one nor an earlier one, and may be
    overridden. *)
Lemma merge_into_spec q props : q <> proto -> forall dest ov,
  let '(dest', ov') := merge_into props dest ov in
  assoc q dest' = match assoc q dest with Some v => Some v | None => assoc q props end /\
  has_own q ov' = has_own q ov || (negb (has_own q dest) && has_own q props).
Proof.
  intros Hq. induction props as [|[k v] props IH]; intros dest ov; cbn [merge_into].
  - split; [by destruct (assoc q dest)|]. unfold has_own. simpl. by rewrite andb_false_r, orb_false_r.
  - destruct (has_own k dest) eqn:Hk.
    + specialize (IH dest ov). destruct (merge_into props dest ov) as [dest' ov']. destruct IH as [-> ->].
      unfold has_own in *. cbn [assoc]. destruct (decide (q = k)) as [->|Hne].
      * rewrite bool_decide_eq_true_2 by done. destruct (assoc k dest); [|done]. split; [done|]. by destruct (assoc k props).
      * by rewrite bool_decide_eq_false_2.
    + specialize (IH (set_prop k v dest) (set_prop k true ov)).
      destruct (merge_into props (set_prop k v dest) (set_prop k true ov)) as [dest' ov']. destruct IH as [-> ->].
      rewrite !has_own_set_prop by done. rewrite assoc_set_prop. unfold has_own in *. cbn [assoc].
      destruct (decide (q = k)) as [->|Hne].
      * rewrite !bool_decide_eq_true_2 by done. destruct (assoc k dest); [done|]. simpl. by rewrite orb_true_r.
      * rewrite !bool_decide_eq_false_2 by tauto. done.
Qed.

(** ** A sequence of entries *)

(** An entry with an explicit string key, or a merge: of a mapping, or of a list of mappings. *)
Inductive entry := Pair (k : jsstr) (v : value) | Merge (m : nat).

Section Entries.
Context (cfg : config) (tag : option jsstr) (start : option (Z * Z)).
Hypothesis Htag : tag <> Some (yaml_tag "merge").

(** The entries of one mapping, stored one after the other. *)
Fixpoint store_all (r : value) (ov : list (jsstr * bool)) (es : list entry) : L (value * list (jsstr * bool)) :=
  match es with
  | [] => ret (r, ov)
  | e :: es' =>
      let! p := (match e with
                 | Pair k v => storeMappingPair cfg r ov tag (VStr k) v start
                 | Merge m => storeMappingPair cfg r ov (Some (yaml_tag "merge")) (VStr (js "<<")) (VRef m) start
                 end) in
      store_all (fst p) (snd p) es'
  end.

(** The value of the last explicit entry for [q]. *)
Fixpoint explicit (q : jsstr) (es : list entry) : option value :=
  match es with
  | [] => None
  | Pair k v :: es' => match explicit q es' with Some w => Some w | None => if bool_decide (q = k) then Some v else None end
  | Merge _ :: es' => explicit q es'
  end.

Definition props_of (h : heap) (m : nat) : list (jsstr * value) :=
  match h !! m with Some (OObj ps) => ps | _ => [] end.

(** The mappings a merge names, in their order, and the value of the first that has [q]. *)
Definition merge_sources (h : heap) (m : nat) : list nat :=
  match h !! m with
  | Some (OArr vs) => omap (fun v => match v with VRef l => Some l | _ => None end) vs
  | _ => [m]
  end.

Lemma refs_of_list (ms : list nat) : omap (fun v => match v with VRef l => Some l | _ => None end) (VRef <$> ms) = ms.
Proof. induction ms as [|m ms IH]; [done|]. cbn. f_equal. exact IH. Qed.

Fixpoint first_having (h : heap) (q : jsstr) (ms : list nat) : option value :=
  match ms with
  | [] => None
  | m :: ms' => match assoc q (props_of h m) with Some v => Some v | None => first_having h q ms' end
  end.

(** The value of the first merged mapping that has [q]. *)
Fixpoint merged (h : heap) (q : jsstr) (es : list entry) : option value :=
  match es with
  | [] => None
  | Pair _ _ :: es' => merged h q es'
  | Merge m :: es' => match first_having h q (merge_sources h m) with Some v => Some v | None => merged h q es' end
  end.

Definition mapping_value (h : heap) (q : jsstr) (es : list entry) : option value :=
  match explicit q es with Some v => Some v | None => merged h q es end.

Definition explicit_keys (es : list entry) : list jsstr :=
  es ≫= fun e => match e with Pair k _ => [k] | Merge _ => [] end.

(** A mapping other than the one being filled, without a property [__proto__]. *)
Definition source_ok (h : heap) (l m : nat) : Prop :=
  m <> l /\ exists ps, h !! m = Some (OObj ps) /\ assoc proto ps = None.

Definition entry_ok (h : heap) (l : nat) (e : entry) : Prop :=
  match e with
  | Pair k _ => k <> proto
  | Merge m => source_ok h l m \/ (m <> l /\ exists ms, h !! m = Some (OArr (VRef <$> ms)) /\ Forall (source_ok h l) ms)
  end.

(** The mapping after the entries [es]. *)
Definition filled (h : heap) (es : list entry) (ps : list (jsstr * value)) (ov : list (jsstr * bool)) : Prop :=
  NoDup (fst <$> ov) /\ forall q, q <> proto ->
    assoc q ps = mapping_value h q es /\
    has_own q ov = bool_decide (explicit q es = None) && bool_decide (merged h q es <> None).

Lemma explicit_app q es1 es2 : explicit q (es1 ++ es2) = match explicit q es2 with Some v => Some v | None => explicit q es1 end.
Proof.
  induction es1 as [|[k v|m] es1 IH]; cbn [app explicit]; [by destruct (explicit q es2)| |done]. rewrite IH.
  by destruct (explicit q es2).
Qed.

Lemma merged_app h q es1 es2 : merged h q (es1 ++ es2) = match merged h q es1 with Some v => Some v | None => merged h q es2 end.
Proof. induction es1 as [|[k v|m] es1 IH]; cbn [app merged]; [done|done|]. by destruct (first_having _ _ _). Qed.

Lemma first_having_app h q ms1 ms2 :
  first_having h q (ms1 ++ ms2) = match first_having h q ms1 with Some v => Some v | None => first_having h q ms2 end.
Proof. induction ms1 as [|m ms1 IH]; cbn [app first_having]; [done|]. by destruct (assoc q _). Qed.

Lemma explicit_key q es : explicit q es <> None <-> q ∈ explicit_keys es.
Proof.
  induction es as [|[k v|m] es IH]; cbn [explicit].
  - split; [done|]. by intros ?%not_elem_of_nil.
  - change (explicit_keys (Pair k v :: es)) with (k :: explicit_keys es). rewrite elem_of_cons, <- IH.
    destruct (explicit q es); [by split; [right|]|]. case_bool_decide; split; [by left|done|done|by intros [?|?]].
  - exact IH.
Qed.

(** *** One entry *)

Lemma filled_pair h es ps ov k v : filled h es ps ov -> k <> proto ->
  filled h (es ++ [Pair k v]) (set_prop k v ps) (del_prop k ov).
Proof.
  intros (Hn & Hf) Hk. split; [by apply NoDup_del_prop|]. intros q Hq. destruct (Hf q Hq) as [H1 H2].
  rewrite assoc_set_prop, has_own_del by done. unfold mapping_value in *.
  rewrite explicit_app, merged_app, H1, H2. cbn [explicit merged].
  destruct (decide (q = k)) as [->|Hne].
  - rewrite !bool_decide_eq_true_2 by done. done.
  - rewrite (bool_decide_eq_false_2 (q = k)), (bool_decide_eq_false_2 (q = k /\ _)) by tauto.
    destruct (explicit q es), (merged h q es); done.
Qed.

(** What the mappings [ms] of a merge have added so far. *)
Definition merging (h : heap) (es : list entry) (ms : list nat) (ps : list (jsstr * value)) (ov : list (jsstr * bool)) : Prop :=
  NoDup (fst <$> ov) /\ forall q, q <> proto ->
    let m := match merged h q es with Some v => Some v | None => first_having h q ms end in
    assoc q ps = match explicit q es with Some v => Some v | None => m end /\
    has_own q ov = bool_decide (explicit q es = None) && bool_decide (m <> None).

Lemma merging_start h es ps ov : filled h es ps ov -> merging h es [] ps ov.
Proof.
  intros (Hn & Hf). split; [done|]. intros q Hq. cbv zeta. destruct (Hf q Hq) as [H1 H2]. unfold mapping_value in H1.
  by destruct (merged h q es).
Qed.

Lemma merging_end h es m ps ov : merging h es (merge_sources h m) ps ov -> filled h (es ++ [Merge m]) ps ov.
Proof.
  intros (Hn & Hf). split; [done|]. intros q Hq. destruct (Hf q Hq) as [H1 H2]. unfold mapping_value.
  rewrite explicit_app, merged_app. cbn [explicit merged]. rewrite H1, H2. by destruct (explicit q es), (merged h q es), (first_having h q (merge_sources h m)).
Qed.

Lemma merging_next h es ms m pm ps ov : merging h es ms ps ov -> h !! m = Some (OObj pm) ->
  merging h es (ms ++ [m]) (fst (merge_into (own_props h (VRef m)) ps ov)) (snd (merge_into (own_props h (VRef m)) ps ov)).
Proof.
  intros (Hn & Hf) Hm. split; [by apply NoDup_merge|]. intros q Hq. cbv zeta. destruct (Hf q Hq) as [H1 H2].
  pose proof (merge_into_spec q (own_props h (VRef m)) Hq ps ov) as Hs.
  destruct (merge_into (own_props h (VRef m)) ps ov) as [ps' ov']. cbn [fst snd]. destruct Hs as [-> ->].
  unfold has_own in *. rewrite H2, (assoc_own_props h m pm q Hm), H1. rewrite first_having_app. cbn [first_having]. unfold props_of.
  rewrite Hm. destruct (explicit q es), (merged h q es), (first_having h q ms), (assoc q pm); done.
Qed.

Lemma has_own_explicit h es ps ov k : filled h es ps ov -> k <> proto ->
  negb (has_own k ov) && has_own k ps = bool_decide (explicit k es <> None).
Proof.
  intros (_ & Hf) Hk. destruct (Hf k Hk) as [H1 ->]. unfold has_own, mapping_value in *. rewrite H1.
  destruct (explicit k es), (merged h k es); done.
Qed.

(** The loader state in which the mapping at [l] has the properties [ps]. *)
Definition with_props (l : nat) (ps : list (jsstr * value)) (s : lstate) : lstate :=
  set_heap (<[l := OObj ps]> (l_heap s)) s.

Lemma with_props_twice l ps ps' s : with_props l ps' (with_props l ps s) = with_props l ps' s.
Proof. unfold with_props. destruct s; simpl. by rewrite list_insert_insert_eq. Qed.

Lemma key_text k s : String_ cfg (VStr k) s = Done k s.
Proof. done. Qed.

(** A mapping with the prototype it was made with. *)
Definition ordinary (l : nat) (s : lstate) : Prop := (l < length (l_heap s))%nat /\ proto_of l (l_protos s) = None.

Lemma get_props l ps s : ordinary l s -> get_obj (VRef l) (with_props l ps s) = Done ps (with_props l ps s).
Proof.
  intros [Hl _]. unfold get_obj, gets. cbn [l_heap with_props set_heap plain_object]. by rewrite list_lookup_insert_eq by done.
Qed.

Lemma assign_props l ps k v s : ordinary l s -> k <> proto ->
  assign_key cfg (VRef l) k v (with_props l ps s) = Done tt (with_props l (set_prop k v ps) s).
Proof.
  intros Ho Hk. unfold assign_key. erewrite bind_Done by (by apply get_props). unfold gets. erewrite bind_Done by done.
  assert (Es : set_obj (VRef l) (OObj (put k v ps)) (with_props l ps s) = Done tt (with_props l (set_prop k v ps) s)).
  { unfold set_obj, modify. f_equal. unfold set_prop. rewrite bool_decide_eq_false_2 by done. apply with_props_twice. }
  destruct (has_own k ps); [exact Es|]. unfold assignment_on. cbn [st_protos store_of with_props set_heap l_protos].
  rewrite (proj2 Ho). cbn [assignment]. rewrite bool_decide_eq_false_2 by done. exact Es.
Qed.

Lemma merge_run l s props : ordinary l s -> Forall (fun kv => kv.1 <> proto) props -> forall ps ov,
  merge_loop cfg (VRef l) props ov (with_props l ps s) =
  Done (snd (merge_into props ps ov)) (with_props l (fst (merge_into props ps ov)) s).
Proof.
  intros Ho. induction 1 as [|[k v] props Hk _ IH]; intros ps ov; cbn [merge_loop merge_into]; [done|].
  erewrite bind_Done by (by apply get_props). destruct (has_own k ps); [apply IH|].
  erewrite bind_Done by (by apply assign_props). apply IH.
Qed.

Lemma own_props_plain h m ps : h !! m = Some (OObj ps) -> assoc proto ps = None ->
  Forall (fun kv => kv.1 <> proto) (own_props h (VRef m)).
Proof.
  intros Hm Hp. apply list.Forall_forall. intros [k v] Hk Ek. cbn [fst] in Ek. subst k.
  rewrite <- (assoc_own_props h m ps proto Hm) in Hp. apply (list_elem_of_fmap_2 fst) in Hk. apply assoc_elem in Hk. done.
Qed.

(** Merging one mapping *)
Lemma merge_one l s m ps ov : ordinary l s -> source_ok (l_heap s) l m ->
  mergeMappings cfg (VRef l) (VRef m) ov (with_props l ps s) =
  (let r := merge_into (own_props (l_heap s) (VRef m)) ps ov in Done (snd r) (with_props l (fst r) s)).
Proof.
  intros Ho (Hml & pm & Hm & Hp). cbv zeta. unfold mergeMappings. cbn [isObject negb]. unfold gets. erewrite bind_Done by done.
  assert (own_props (l_heap (with_props l ps s)) (VRef m) = own_props (l_heap s) (VRef m)) as ->.
  { unfold own_props. cbn [with_props l_heap set_heap]. by rewrite list_lookup_insert_ne by done. }
  apply merge_run; [done|]. by eapply own_props_plain.
Qed.

Lemma merge_list l s es ms2 : ordinary l s -> Forall (source_ok (l_heap s) l) ms2 -> forall ms1 ps ov,
  merging (l_heap s) es ms1 ps ov -> exists ps' ov',
    merge_all cfg (VRef l) (VRef <$> ms2) ov (with_props l ps s) = Done ov' (with_props l ps' s) /\
    merging (l_heap s) es (ms1 ++ ms2) ps' ov'.
Proof.
  intros Ho. induction 1 as [|m ms2 Hm HF IH]; intros ms1 ps ov Hf.
  { exists ps, ov. by rewrite app_nil_r. }
  rewrite fmap_cons. cbn [merge_all]. erewrite bind_Done by (by apply merge_one). destruct Hm as (_ & pm & Hpm & _).
  replace (ms1 ++ m :: ms2) with ((ms1 ++ [m]) ++ ms2) by (by rewrite <- app_assoc). eapply IH. by eapply merging_next.
Qed.

Lemma store_pair l ps ov k v s : ordinary l s -> k <> proto ->
  negb (c_json cfg) && negb (has_own k ov) && has_own k ps = false ->
  storeMappingPair cfg (VRef l) ov tag (VStr k) v start (with_props l ps s) =
  Done (VRef l, del_prop k ov) (with_props l (set_prop k v ps) s).
Proof.
  intros Ho Hp Hk. unfold storeMappingPair. erewrite bind_Done by apply key_text.
  unfold ret at 1. erewrite bind_Done by done. rewrite decide_False by done. erewrite bind_Done by (by apply get_props).
  rewrite Hk. by erewrite bind_Done by (by apply assign_props).
Qed.

Lemma store_duplicate l ps ov k v s : ordinary l s ->
  negb (c_json cfg) && negb (has_own k ov) && has_own k ps = true ->
  exists mark s', storeMappingPair cfg (VRef l) ov tag (VStr k) v start (with_props l ps s) =
    Raise (YAMLException (js "duplicated mapping key") mark) s'.
Proof.
  intros Ho Hk. unfold storeMappingPair. erewrite bind_Done by apply key_text.
  unfold ret at 1. erewrite bind_Done by done. rewrite decide_False by done. erewrite bind_Done by (by apply get_props).
  rewrite Hk. unfold modify. erewrite bind_Done by done. unfold throwError, throwErrorS, generateError. eauto.
Qed.

Lemma store_merge l es ps ov m s : ordinary l s -> filled (l_heap s) es ps ov -> entry_ok (l_heap s) l (Merge m) ->
  exists ps' ov',
    storeMappingPair cfg (VRef l) ov (Some (yaml_tag "merge")) (VStr (js "<<")) (VRef m) start (with_props l ps s) =
      Done (VRef l, ov') (with_props l ps' s) /\
    filled (l_heap s) (es ++ [Merge m]) ps' ov'.
Proof.
  intros Ho Hf Hm. apply merging_start in Hf.
  assert (Hml : m <> l) by (destruct Hm as [[? _]|[? _]]; done).
  assert (Hh : l_heap (with_props l ps s) !! m = l_heap s !! m).
  { cbn [with_props l_heap set_heap]. by rewrite list_lookup_insert_ne. }
  assert (Hrun : exists ps' ov', match l_heap s !! m with
      | Some (OArr vs) => merge_all cfg (VRef l) vs ov | _ => mergeMappings cfg (VRef l) (VRef m) ov end (with_props l ps s)
      = Done ov' (with_props l ps' s) /\ merging (l_heap s) es (merge_sources (l_heap s) m) ps' ov').
  { unfold merge_sources. destruct Hm as [Hs|(_ & ms & E & Hs)].
    - pose proof Hs as (_ & pm & E & _). rewrite E. eexists _, _. split; [by apply merge_one|].
      change [m] with ([] ++ [m]). by eapply merging_next.
    - rewrite E. rewrite refs_of_list.
      change ms with ([] ++ ms) at 2. by apply merge_list. }
  destruct Hrun as (ps' & ov' & E & Hmg). exists ps', ov'. split; [|by apply merging_end].
  unfold storeMappingPair. erewrite bind_Done by apply key_text. unfold ret at 1. erewrite bind_Done by done.
  rewrite decide_True by done. unfold gets. erewrite bind_Done by done. rewrite Hh.
  by erewrite bind_Done by exact E.
Qed.

Lemma explicit_keys_app es1 es2 : explicit_keys (es1 ++ es2) = explicit_keys es1 ++ explicit_keys es2.
Proof. unfold explicit_keys. by rewrite bind_app. Qed.

Lemma explicit_keys_snoc es k v :
  NoDup (explicit_keys es) -> explicit k es = None -> NoDup (explicit_keys (es ++ [Pair k v])).
Proof.
  intros Hn Hk. rewrite explicit_keys_app. change (explicit_keys [Pair k v]) with [k].
  apply list.NoDup_app. split; [done|]. split; [|apply NoDup_singleton]. intros x Hx ->%list_elem_of_singleton.
  by apply (explicit_key k es) in Hx.
Qed.

Lemma explicit_dup es1 k v es2 : explicit k es1 <> None -> ~ NoDup (explicit_keys (es1 ++ Pair k v :: es2)).
Proof.
  intros Hx Hn. rewrite explicit_keys_app in Hn. apply list.NoDup_app in Hn as (_ & Hn & _).
  apply (Hn k); [by apply explicit_key|]. left.
Qed.

(** Whether the entries are accepted: keys may be repeated under the option [json] only. *)
Definition accepted (es : list entry) : Prop := c_json cfg = true \/ NoDup (explicit_keys es).

Lemma store_all_spec es2 : forall es1 ps ov l s,
  ordinary l s -> filled (l_heap s) es1 ps ov -> Forall (entry_ok (l_heap s) l) es2 -> accepted es1 ->
  (exists ps' ov', store_all (VRef l) ov es2 (with_props l ps s) = Done (VRef l, ov') (with_props l ps' s) /\
     filled (l_heap s) (es1 ++ es2) ps' ov' /\ accepted (es1 ++ es2)) \/
  (exists mark s', store_all (VRef l) ov es2 (with_props l ps s) =
     Raise (YAMLException (js "duplicated mapping key") mark) s' /\ ~ accepted (es1 ++ es2)).
Proof.
  induction es2 as [|e es2 IH]; intros es1 ps ov l s Hl Hf Hs Hn; cbn [store_all].
  { left. exists ps, ov. rewrite app_nil_r. done. }
  apply Forall_cons_1 in Hs as [He Hs]. destruct e as [k v|m].
  - cbn [entry_ok] in He. pose proof (has_own_explicit (l_heap s) es1 ps ov k Hf He) as Hown.
    destruct (negb (c_json cfg) && (negb (has_own k ov) && has_own k ps)) eqn:E; rewrite andb_assoc in E.
    + destruct (store_duplicate l ps ov k v s Hl E) as (mark & s' & Er). right. exists mark, s'. split; [by apply bind_Raise|].
      rewrite <- andb_assoc, Hown in E. apply andb_true_iff in E as [Ej Ed]. apply bool_decide_eq_true in Ed.
      intros [Hj|Hd]; [by rewrite Hj in Ej|]. by apply (explicit_dup es1 k v es2).
    + erewrite bind_Done by (by apply store_pair). cbn [fst snd].
      specialize (IH (es1 ++ [Pair k v]) (set_prop k v ps) (del_prop k ov) l s Hl).
      rewrite <- app_assoc in IH. apply IH; [by apply filled_pair|done|].
      destruct Hn as [Hj|Hn]; [by left|]. destruct (c_json cfg) eqn:Ej; [by left|]. right. apply explicit_keys_snoc; [done|].
      cbn [negb] in E. rewrite andb_true_l, Hown in E. apply bool_decide_eq_false in E. destruct (explicit k es1); [by destruct E|done].
  - destruct (store_merge l es1 ps ov m s Hl Hf He) as (ps' & ov' & E & Hf').
    erewrite bind_Done by exact E. cbn [fst snd].
    specialize (IH (es1 ++ [Merge m]) ps' ov' l s Hl Hf' Hs). rewrite <- app_assoc in IH. apply IH.
    destruct Hn as [Hj|Hn]; [by left|]. right. by rewrite explicit_keys_app, app_nil_r.
Qed.
End Entries.

(** C31: the entries of a new mapping stored in any order, explicit keys, merged mappings and merged
    lists of mappings mixed: every key ends with the value of its last explicit entry if it has one and
    else that of the first merged mapping that has the key, and nothing else of the heap changes;
    without the option [json], a repeated explicit key fails with a duplicated mapping key.  No key of
    an entry or of a merged mapping is [__proto__], and no merged mapping is the one being filled. *)
Theorem mapping_entries (cfg : config) (tag : option jsstr) (start : option (Z * Z)) (l : nat) (es : list entry)
    (s : lstate) :
  tag <> Some (yaml_tag "merge") -> l_heap s !! l = Some (OObj []) -> proto_of l (l_protos s) = None ->
  Forall (entry_ok (l_heap s) l) es ->
  if c_json cfg || bool_decide (NoDup (explicit_keys es))
  then exists ps ov, store_all cfg tag start (VRef l) [] es s =
         Done (VRef l, ov) (set_heap (<[l := OObj ps]> (l_heap s)) s) /\
       forall q, q <> proto -> assoc q ps = mapping_value (l_heap s) q es
  else exists mark s', store_all cfg tag start (VRef l) [] es s =
         Raise (YAMLException (js "duplicated mapping key") mark) s'.
Proof.
  intros Ht Hl Hp Hs. assert (Ho : ordinary l s) by (split; [by eapply lookup_lt_Some|done]).
  assert (Hw : with_props l [] s = s).
  { unfold with_props. rewrite list_insert_id by done. by destruct s. }
  destruct (store_all_spec cfg tag start Ht es [] [] [] l s Ho) as [(ps & ov & E & Hf & Hn)|(mark & s' & E & Hn)].
  - split; [constructor|]. done.
  - done.
  - right. constructor.
  - rewrite Hw in E. assert (c_json cfg || bool_decide (NoDup (explicit_keys es)) = true) as ->.
    { apply orb_true_iff. destruct Hn; [by left|right; by apply bool_decide_eq_true]. }
    exists ps, ov. split; [done|]. intros q Hq. by apply Hf.
  - rewrite Hw in E. destruct (_ || _) eqn:Eb; [|eauto]. destruct Hn. apply orb_true_iff in Eb as [?|?%bool_decide_eq_true]; [by left|by right].
Qed.

(** [b: x], then [<<: [m1, m2]] *)
Module Entries.
Definition cfg : config := make_config [] (safe_options (fun _ => []) plain_builtins false false false).
Definition cells : heap :=
  [OObj []; OObj [(js "a", VBool true); (js "b", VNull)]; OObj [(js "a", VBool false); (js "c", VNull)]; OArr [VRef 1; VRef 2]].
Definition es : list entry := [Pair (js "b") (VStr (js "x")); Merge 3].
End Entries.

Lemma mapping_entries_witness :
  exists ps ov, store_all Entries.cfg None None (VRef 0) [] Entries.es (set_heap Entries.cells initial) =
      Done (VRef 0, ov) (set_heap (<[0%nat := OObj ps]> Entries.cells) (set_heap Entries.cells initial)) /\
    forall q, q <> proto -> assoc q ps = mapping_value Entries.cells q Entries.es.
Proof.
  apply (mapping_entries Entries.cfg None None 0 Entries.es (set_heap Entries.cells initial)).
  - discriminate.
  - reflexivity.
  - reflexivity.
  - constructor; [done|]. constructor; [|constructor]. right. split; [done|]. exists [1%nat; 2%nat]. split; [done|].
    constructor; [|constructor; [|constructor]]; (split; [done|]); eexists; (split; [reflexivity|reflexivity]).
Defined.
