(* ===== verification/YamlDumper.v ===== *)
(** The dumper of js-yaml: scalar styles, block and flow collections, anchors for
    shared objects. *)
From S2P Require Import Prelude JsString JsNumber JsRegex YamlValue YamlTypes YamlSchema.

(** ** Options and state *)

Inductive sort_keys :=
  | SortNone
  | SortDefault                                  (* [sortKeys: true] *)
  | SortFun (f : list jsstr -> list jsstr)       (* the effect of [keys.sort(fn)] *)
  | SortInvalid.

Record dconfig := DConfig {
  d_schema : compiled;
  d_indent : Z;
  d_skipInvalid : bool;
  d_flowLevel : Z;
  d_styleMap : list (jsstr * jsstr);
  d_sortKeys : sort_keys;
  d_lineWidth : Z;
  d_noRefs : bool;
  d_noCompatMode : bool;
  d_condenseFlow : bool
}.

(** The options of a call; [None] and 0 are the falsy values that select the
    defaults. *)
Record doptions := DOptions {
  do_indent : Z;
  do_skipInvalid : bool;
  do_flowLevel : option Z;
  do_styles : list (jsstr * jsstr);
  do_sortKeys : sort_keys;
  do_lineWidth : Z;
  do_noRefs : bool;
  do_noCompatMode : bool;
  do_condenseFlow : bool
}.

Definition default_doptions : doptions :=
  DOptions 0 false None [] SortNone 0 false false false.

(** Styles given by tag, with the [!!] shorthand and the style aliases expanded. *)
Definition compileStyleMap (c : compiled) (styles : list (jsstr * jsstr)) : list (jsstr * jsstr) :=
  foldl (fun acc tag =>
    let style := default [] (assoc tag styles) in
    let tag := match tag with 33 :: 33 :: t => js "tag:yaml.org,2002:" ++ t | _ => tag end in
    let style := match assoc tag (tm_fallback (compiledTypeMap c)) with
                 | Some t => default style (assoc style (t_styleAliases t))
                 | None => style end in
    set_prop tag style acc) [] (obj_keys styles).

Definition make_dconfig (s : schema) (o : doptions) : dconfig :=
  let c := compile s in
  DConfig c (Z.max 1 (if do_indent o =? 0 then 2 else do_indent o)) (do_skipInvalid o)
    (default (-1) (do_flowLevel o)) (compileStyleMap c (do_styles o)) (do_sortKeys o)
    (if do_lineWidth o =? 0 then 80 else do_lineWidth o) (do_noRefs o) (do_noCompatMode o)
    (do_condenseFlow o).

(** ** Strings *)

Definition ESCAPE_SEQUENCES (c : Z) : option jsstr :=
  if c =? 0 then Some (js "\0") else if c =? 7 then Some (js "\a") else if c =? 8 then Some (js "\b")
  else if c =? 9 then Some (js "\t") else if c =? 10 then Some (js "\n") else if c =? 11 then Some (js "\v")
  else if c =? 12 then Some (js "\f") else if c =? 13 then Some (js "\r") else if c =? 27 then Some (js "\e")
  else if c =? 34 then Some [92; 34] else if c =? 92 then Some [92; 92]
  else if c =? 133 then Some (js "\N") else if c =? 160 then Some (js "\_")
  else if c =? 8232 then Some (js "\L") else if c =? 8233 then Some (js "\P") else None.

Definition DEPRECATED_BOOLEANS_SYNTAX : list jsstr :=
  js <$> ["y"; "Y"; "yes"; "Yes"; "YES"; "on"; "On"; "ON";
          "n"; "N"; "no"; "No"; "NO"; "off"; "Off"; "OFF"]%string.

(** A code point above [0xFFFFFFFF] makes the source throw; none reaches it. *)
Definition encodeHex (c : Z) : option jsstr :=
  let s := toUpperCase (digits 16 c) in
  if c <=? 255 then Some (92 :: 120 :: repeat [48] (2 - slen s) ++ s)
  else if c <=? 65535 then Some (92 :: 117 :: repeat [48] (4 - slen s) ++ s)
  else if c <=? 4294967295 then Some (92 :: 85 :: repeat [48] (8 - slen s) ++ s)
  else None.

(** The first line with its line feed, and the rest. *)
Fixpoint take_line (s : jsstr) : jsstr * jsstr :=
  match s with
  | [] => ([], [])
  | c :: s' => if c =? 10 then ([10], s') else let '(l, r) := take_line s' in (c :: l, r)
  end.

Fixpoint indent_lines (n : nat) (ind s : jsstr) : jsstr :=
  match n, s with
  | S n', _ :: _ =>
      let '(line, rest) := take_line s in
      (if bool_decide (line = [10]) then [] else ind) ++ line ++ indent_lines n' ind rest
  | _, _ => []
  end.

Definition indentString (s : jsstr) (spaces : Z) : jsstr :=
  indent_lines (length s) (repeat [32] spaces) s.

Definition isWhitespace (c : Z) : bool := (c =? 32) || (c =? 9).

Definition isPrintable (c : Z) : bool :=
  ((32 <=? c) && (c <=? 126)) ||
  ((161 <=? c) && (c <=? 55295) && negb (c =? 8232) && negb (c =? 8233)) ||
  ((57344 <=? c) && (c <=? 65533) && negb (c =? 65279)) ||
  ((65536 <=? c) && (c <=? 1114111)).

Definition isPlainSafe (c : Z) : bool :=
  isPrintable c && negb (c =? 65279) && negb (c =? 44) && negb (c =? 91) && negb (c =? 93) &&
  negb (c =? 123) && negb (c =? 125) && negb (c =? 58) && negb (c =? 35).

Definition isPlainSafeFirst (c : Z) : bool :=
  isPrintable c && negb (c =? 65279) && negb (isWhitespace c) && negb (c =? 45) && negb (c =? 63) &&
  negb (c =? 58) && negb (c =? 44) && negb (c =? 91) && negb (c =? 93) && negb (c =? 123) &&
  negb (c =? 125) && negb (c =? 35) && negb (c =? 38) && negb (c =? 42) && negb (c =? 33) &&
  negb (c =? 124) && negb (c =? 62) && negb (c =? 39) && negb (c =? 34) && negb (c =? 37) &&
  negb (c =? 64) && negb (c =? 96).

(** [/^\n* /] *)
Fixpoint needIndentIndicator (s : jsstr) : bool :=
  match s with c :: s' => if c =? 10 then needIndentIndicator s' else c =? 32 | [] => false end.

Inductive style := STYLE_PLAIN | STYLE_SINGLE | STYLE_LITERAL | STYLE_FOLDED | STYLE_DOUBLE.

#[global] Instance style_eq_dec : EqDecision style.
Proof. solve_decision. Defined.

(** A line from [previousLineBreak + 1] to [i] that is too long to keep. *)
Definition foldable (s : jsstr) (i prev lineWidth : Z) : bool :=
  negb (lineWidth =? -1) && (lineWidth <? i - prev - 1) && negb (charCodeAt s (prev + 1) =? 32).

(** The multi-line scan: [None] for a unit that is not printable, else
    (plain, hasLineBreak, hasFoldableLine, previousLineBreak). *)
Fixpoint scan_multi (s rest : jsstr) (i lineWidth : Z) (plain lb fl : bool) (prev : Z)
    : option (bool * bool * bool * Z) :=
  match rest with
  | [] => Some (plain, lb, fl, prev)
  | c :: rest' =>
      if c =? 10 then
        scan_multi s rest' (i + 1) lineWidth (plain && isPlainSafe c) true
          (fl || foldable s i prev lineWidth) (if lineWidth =? -1 then prev else i)
      else if negb (isPrintable c) then None
      else scan_multi s rest' (i + 1) lineWidth (plain && isPlainSafe c) lb fl prev
  end.

Fixpoint scan_single (rest : jsstr) (plain : bool) : option bool :=
  match rest with
  | [] => Some plain
  | c :: rest' => if negb (isPrintable c) then None else scan_single rest' (plain && isPlainSafe c)
  end.

Definition chooseScalarStyle (s : jsstr) (singleLineOnly : bool) (indentPerLevel lineWidth : Z)
    (testAmbiguousType : jsstr -> bool) : style :=
  let plain := isPlainSafeFirst (charCodeAt s 0) && negb (isWhitespace (charCodeAt s (slen s - 1))) in
  match (if singleLineOnly then (fun p => (p, false, false)) <$> scan_single s plain
         else (fun '(p, lb, fl, prev) => (p, lb, fl || foldable s (slen s) prev lineWidth)) <$>
              scan_multi s s 0 lineWidth plain false false (-1)) with
  | None => STYLE_DOUBLE
  | Some (plain, hasLineBreak, hasFoldableLine) =>
      if negb hasLineBreak && negb hasFoldableLine then
        if plain && negb (testAmbiguousType s) then STYLE_PLAIN else STYLE_SINGLE
      else if (9 <? indentPerLevel) && needIndentIndicator s then STYLE_DOUBLE
      else if hasFoldableLine then STYLE_FOLDED else STYLE_LITERAL
  end.

Definition blockHeader (s : jsstr) (indentPerLevel : Z) : jsstr :=
  let indicator := if needIndentIndicator s then digits 10 indentPerLevel else [] in
  let clip := charCodeAt s (slen s - 1) =? 10 in
  let keep := clip && ((charCodeAt s (slen s - 2) =? 10) || bool_decide (s = [10])) in
  indicator ++ (if keep then [43] else if clip then [] else [45]) ++ [10].

Definition dropEndingNewline (s : jsstr) : jsstr :=
  if charCodeAt s (slen s - 1) =? 10 then take (length s - 1) s else s.

(** The indices a line may be broken at: a space before a non-space. *)
Fixpoint breaks (line : jsstr) (i : Z) : list Z :=
  match line with
  | c :: ((d :: _) as line') => if (c =? 32) && negb (d =? 32) then i :: breaks line' (i + 1)
                                else breaks line' (i + 1)
  | _ => []
  end.

Fixpoint fold_breaks (line : jsstr) (bs : list Z) (width start curr : Z) (result : jsstr)
    : jsstr * Z * Z :=
  match bs with
  | [] => (result, start, curr)
  | next :: bs' =>
      if width <? next - start then
        let stop := if start <? curr then curr else next in
        fold_breaks line bs' width (stop + 1) next (result ++ 10 :: sslice line start stop)
      else fold_breaks line bs' width start next result
  end.

Definition foldLine (line : jsstr) (width : Z) : jsstr :=
  match line with
  | [] => []
  | 32 :: _ => line
  | _ =>
      let '(result, start, curr) := fold_breaks line (breaks line 0) width 0 0 [] in
      let result := result ++ [10] in
      let result :=
        if (width <? slen line - start) && (start <? curr)
        then result ++ sslice line start curr ++ 10 :: drop (Z.to_nat (curr + 1)) line
        else result ++ drop (Z.to_nat start) line in
      drop 1 result
  end.

Fixpoint span_lf (s : jsstr) : jsstr * jsstr :=
  match s with
  | c :: s' => if c =? 10 then let '(p, r) := span_lf s' in (c :: p, r) else ([], s)
  | [] => ([], [])
  end.
Fixpoint span_text (s : jsstr) : jsstr * jsstr :=
  match s with
  | c :: s' => if c =? 10 then ([], s) else let '(p, r) := span_text s' in (c :: p, r)
  | [] => ([], [])
  end.

(** Runs of line feeds, each with the line that follows, one after the other. *)
Fixpoint fold_lines (n : nat) (s : jsstr) (width : Z) (prevMoreIndented : bool) : jsstr :=
  match n, s with
  | S n', _ :: _ =>
      let '(prefix, r) := span_lf s in
      let '(line, r) := span_text r in
      let moreIndented := match line with 32 :: _ => true | _ => false end in
      prefix ++
      (if negb prevMoreIndented && negb moreIndented && negb (bool_decide (line = [])) then [10] else []) ++
      foldLine line width ++ fold_lines n' r width moreIndented
  | _, _ => []
  end.

Definition foldString (s : jsstr) (width : Z) : jsstr :=
  let '(first, r) := span_text s in
  let prevMoreIndented := match s with c :: _ => (c =? 10) || (c =? 32) | [] => false end in
  foldLine first width ++ fold_lines (length r) r width prevMoreIndented.

(** One character of a double-quoted scalar. *)
Definition escape_unit (c : Z) : jsstr :=
  match ESCAPE_SEQUENCES c with
  | Some e => e
  | None => if isPrintable c then [c] else default [] (encodeHex c)
  end.

Fixpoint escapeString (s : jsstr) : jsstr :=
  match s with
  | [] => []
  | c :: s' =>
      match s' with
      | d :: s'' =>
          if (55296 <=? c) && (c <=? 56319) && (56320 <=? d) && (d <=? 57343)
          then default [] (encodeHex ((c - 55296) * 1024 + d - 56320 + 65536)) ++ escapeString s''
          else escape_unit c ++ escapeString s'
      | [] => escape_unit c
      end
  end.

(** [string.replace(/'/g, "''")] *)
Definition double_quotes (s : jsstr) : jsstr := s ≫= fun c => if c =? 39 then [39; 39] else [c].

(** ** Nodes *)

Record dstate := DState {
  d_tag : option jsstr;
  d_dump : value;
  d_used : list bool          (* [usedDuplicates] *)
}.

Abbreviation D := (M dstate).

Definition dgets {A} (f : dstate -> A) : D A := fun s => Done (f s) s.
Definition set_dtag (t : option jsstr) : D unit := modify (fun s => DState t (d_dump s) (d_used s)).
Definition set_dump (v : value) : D unit := modify (fun s => DState (d_tag s) v (d_used s)).
Definition set_used (i : nat) : D unit :=
  modify (fun s => DState (d_tag s) (d_dump s) (<[i := true]> (d_used s))).

(** [state.dump] once it is a string. *)
Definition dump_str : D jsstr := dgets (fun s => match d_dump s with VStr x => x | _ => [] end).

(** The class [Object.prototype.toString] reports. *)
Inductive jsclass := CString | CObject (ps : list (jsstr * value)) | CArray (vs : list value) | COther.

Fixpoint index_of (v : value) (l : list value) : option nat :=
  match l with
  | [] => None
  | x :: l' => if bool_decide (x = v) then Some O else S <$> index_of v l'
  end.

(** ** The keys of a mapping *)

(** Order of strings by code units. *)
Fixpoint str_le (a b : jsstr) : bool :=
  match a, b with
  | [], _ => true
  | _ :: _, [] => false
  | x :: a', y :: b' => if x <? y then true else if y <? x then false else str_le a' b'
  end.

Fixpoint insert_sorted (k : jsstr) (l : list jsstr) : list jsstr :=
  match l with
  | [] => [k]
  | k' :: l' => if str_le k k' then k :: l else k' :: insert_sorted k l'
  end.

Definition sort_strings (l : list jsstr) : list jsstr := foldr insert_sorted [] l.

Section Dumper.
Context (cfg : dconfig) (h : heap) (duplicates : list value).

Definition generateNextLine (level : Z) : jsstr := 10 :: repeat [32] (d_indent cfg * level).

Definition testImplicitResolving (s : jsstr) : bool :=
  existsb (fun t => t_resolve t h (VStr s)) (compiledImplicit (d_schema cfg)).

Definition scalar_text (s : jsstr) (level : Z) (iskey : bool) : jsstr :=
  if slen s =? 0 then [39; 39]
  else if negb (d_noCompatMode cfg) && bool_decide (s ∈ DEPRECATED_BOOLEANS_SYNTAX)
  then 39 :: s ++ [39]
  else
    let indent := d_indent cfg * Z.max 1 level in
    let lineWidth := if d_lineWidth cfg =? -1 then -1
                     else Z.max (Z.min (d_lineWidth cfg) 40) (d_lineWidth cfg - indent) in
    let singleLineOnly := iskey || ((-1 <? d_flowLevel cfg) && (d_flowLevel cfg <=? level)) in
    match chooseScalarStyle s singleLineOnly (d_indent cfg) lineWidth testImplicitResolving with
    | STYLE_PLAIN => s
    | STYLE_SINGLE => 39 :: double_quotes s ++ [39]
    | STYLE_LITERAL =>
        124 :: blockHeader s (d_indent cfg) ++ dropEndingNewline (indentString s indent)
    | STYLE_FOLDED =>
        62 :: blockHeader s (d_indent cfg) ++
        dropEndingNewline (indentString (foldString s lineWidth) indent)
    | STYLE_DOUBLE => 34 :: escapeString s ++ [34]
    end.

Definition writeScalar (s : jsstr) (level : Z) (iskey : bool) : D unit :=
  set_dump (VStr (scalar_text s level iskey)).

Definition class_of (v : value) : jsclass :=
  match v with
  | VStr _ => CString
  | VRef l => match h !! l with
              | Some (OObj ps) => CObject ps
              | Some (OArr vs) => CArray vs
              | _ => COther end
  | _ => COther
  end.

Definition class_name (v : value) : jsstr :=
  match v with
  | VUndef => js "[object Undefined]"
  | VNull => js "[object Null]"
  | VBool _ => js "[object Boolean]"
  | VNum _ => js "[object Number]"
  | VStr _ => js "[object String]"
  | VFunc _ _ => js "[object Function]"
  | VRef l => match h !! l with
              | Some (OObj _) => js "[object Object]"
              | Some (OArr _) => js "[object Array]"
              | Some (ODate _) => js "[object Date]"
              | Some (ORegExp _ _ _ _) => js "[object RegExp]"
              | _ => js "[object Uint8Array]" end
  end.

(** [detectType(state, object, explicit)] *)
Fixpoint detect_loop (types : list ytype) (explicit : bool) (object : value) : D bool :=
  match types with
  | [] => ret false
  | t :: ts =>
      match t_predicate t with
      | Some p =>
          if p h object then
            do! set_dtag (Some (if explicit then t_tag t else js "?"));
            let style := match assoc (t_tag t) (d_styleMap cfg) with
                         | Some ((_ :: _) as st) => Some st
                         | _ => t_defaultStyle t end in
            do! (match t_represent t with
                 | RepNone => ret tt
                 | RepFun f => set_dump (VStr (f h object style))
                 | RepStyles l =>
                     match (st ← style; assoc st l) with
                     | Some f => set_dump (VStr (f h object))
                     | None => throw (YAMLException (js "!<" ++ t_tag t ++ js "> tag resolver accepts not " ++
                                 34 :: default (js "null") style ++ 34 :: js " style") None)
                     end
                 end);
            ret true
          else detect_loop ts explicit object
      | None => detect_loop ts explicit object
      end
  end.

Definition detectType (object : value) (explicit : bool) : D bool :=
  detect_loop (if explicit then compiledExplicit (d_schema cfg) else compiledImplicit (d_schema cfg))
    explicit object.

Definition starts_lf (s : jsstr) : bool := match s with c :: _ => c =? 10 | [] => false end.

(** [writeNode(state, level, object, block, compact, iskey)] *)
Definition writer : Type := Z -> value -> bool -> bool -> bool -> D bool.

Section Collections.
Context (writeNode : writer).

Fixpoint flow_seq_loop (vs : list value) (level index : Z) (result : jsstr) : D jsstr :=
  match vs with
  | [] => ret result
  | v :: vs' =>
      let! ok := writeNode level v false false false in
      let! d := dump_str in
      flow_seq_loop vs' level (index + 1)
        (if ok then result ++ (if index =? 0 then [] else 44 :: if d_condenseFlow cfg then [] else [32]) ++ d
         else result)
  end.

Definition writeFlowSequence (level : Z) (vs : list value) : D unit :=
  let! tag := dgets d_tag in
  let! r := flow_seq_loop vs level 0 [] in
  do! set_dtag tag;
  set_dump (VStr (91 :: r ++ [93])).

Fixpoint block_seq_loop (vs : list value) (level index : Z) (compact : bool) (result : jsstr) : D jsstr :=
  match vs with
  | [] => ret result
  | v :: vs' =>
      let! ok := writeNode (level + 1) v true true false in
      let! d := dump_str in
      block_seq_loop vs' level (index + 1) compact
        (if ok then
           result ++ (if negb compact || negb (index =? 0) then generateNextLine level else []) ++
           (if starts_lf d then [45] else [45; 32]) ++ d
         else result)
  end.

Definition writeBlockSequence (level : Z) (vs : list value) (compact : bool) : D unit :=
  let! tag := dgets d_tag in
  let! r := block_seq_loop vs level 0 compact [] in
  do! set_dtag tag;
  set_dump (VStr (match r with [] => [91; 93] | _ => r end)).

Fixpoint flow_map_loop (ps : list (jsstr * value)) (level index : Z) (result : jsstr) : D jsstr :=
  match ps with
  | [] => ret result
  | (k, v) :: ps' =>
      let quote := if d_condenseFlow cfg then [34] else [] in
      let! ok := writeNode level (VStr k) false false false in
      let! dk := dump_str in
      if negb ok then flow_map_loop ps' level (index + 1) result
      else
        let pair := quote ++ (if index =? 0 then [] else [44; 32]) ++
                    (if 1024 <? slen dk then [63; 32] else []) ++ dk ++ quote ++
                    58 :: (if d_condenseFlow cfg then [] else [32]) in
        let! ok := writeNode level v false false false in
        let! dv := dump_str in
        flow_map_loop ps' level (index + 1) (if ok then result ++ pair ++ dv else result)
  end.

Definition ordered (ps : list (jsstr * value)) (ks : list jsstr) : list (jsstr * value) :=
  (fun k => (k, default VUndef (assoc k ps))) <$> ks.

Definition writeFlowMapping (level : Z) (ps : list (jsstr * value)) : D unit :=
  let! tag := dgets d_tag in
  let! r := flow_map_loop (ordered ps (obj_keys ps)) level 0 [] in
  do! set_dtag tag;
  set_dump (VStr (123 :: r ++ [125])).

Fixpoint block_map_loop (ps : list (jsstr * value)) (level index : Z) (compact : bool) (result : jsstr)
    : D jsstr :=
  match ps with
  | [] => ret result
  | (k, v) :: ps' =>
      let lead := if negb compact || negb (index =? 0) then generateNextLine level else [] in
      let! ok := writeNode (level + 1) (VStr k) true true true in
      if negb ok then block_map_loop ps' level (index + 1) compact result
      else
        let! tag := dgets d_tag in
        let! dk := dump_str in
        let explicitPair := match tag with
                            | Some t => negb (bool_decide (t = js "?")) | None => false end ||
                            (1024 <? slen dk) in
        let! ok := writeNode (level + 1) v true explicitPair false in
        let! dv := dump_str in
        let pair := lead ++ (if explicitPair then if starts_lf dk then [63] else [63; 32] else []) ++ dk ++
                    (if explicitPair then generateNextLine level else []) ++
                    (if starts_lf dv then [58] else [58; 32]) ++ dv in
        block_map_loop ps' level (index + 1) compact (if ok then result ++ pair else result)
  end.

Definition writeBlockMapping (level : Z) (ps : list (jsstr * value)) (compact : bool) : D unit :=
  let! tag := dgets d_tag in
  let ks := obj_keys ps in
  let! ks := (match d_sortKeys cfg with
              | SortNone => ret ks
              | SortDefault => ret (sort_strings ks)
              | SortFun f => ret (f ks)
              | SortInvalid => throw (YAMLException (js "sortKeys must be a boolean or a function") None)
              end) in
  let! r := block_map_loop (ordered ps ks) level 0 compact [] in
  do! set_dtag tag;
  set_dump (VStr (match r with [] => [123; 125] | _ => r end)).

(** [state.dump = "&ref_" + i + sep + state.dump] for a shared object. *)
Definition anchor_dump (dup : option nat) (sep : jsstr) : D unit :=
  match dup with
  | None => ret tt
  | Some i => let! d := dump_str in
              set_dump (VStr (js "&ref_" ++ digits 10 (Z.of_nat i) ++ sep ++ d))
  end.

Definition writeNode_body (level : Z) (object : value) (block compact iskey : bool) : D bool :=
  do! modify (fun s => DState None object (d_used s));
  let! ok := detectType object false in
  do! (if ok then ret tt else let! _ := detectType object true in ret tt);
  let! dump := dgets d_dump in
  let! tag := dgets d_tag in
  let! used := dgets d_used in
  let class := class_of dump in
  let block := block && ((d_flowLevel cfg <? 0) || (level <? d_flowLevel cfg)) in
  let dup := match class with CObject _ | CArray _ => index_of object duplicates | _ => None end in
  let tagged := match tag with Some t => negb (bool_decide (t = js "?")) | None => false end in
  let compact := compact && negb (tagged || bool_decide (dup <> None) ||
                                  (negb (d_indent cfg =? 2) && (0 <? level))) in
  let is_used := match dup with Some i => default false (used !! i) | None => false end in
  if is_used then
    do! set_dump (VStr (js "*ref_" ++ digits 10 (Z.of_nat (default O dup)))); ret true
  else
    do! (match dup with Some i => set_used i | None => ret tt end);
    let! ok :=
      (match class with
       | CObject ps =>
           if block && negb (bool_decide (obj_keys ps = []))
           then do! writeBlockMapping level ps compact; do! anchor_dump dup []; ret true
           else do! writeFlowMapping level ps; do! anchor_dump dup [32]; ret true
       | CArray vs =>
           if block && negb (bool_decide (vs = []))
           then do! writeBlockSequence level vs compact; do! anchor_dump dup []; ret true
           else do! writeFlowSequence level vs; do! anchor_dump dup [32]; ret true
       | CString =>
           let! d := dump_str in
           do! mwhen (negb (bool_decide (tag = Some (js "?")))) (writeScalar d level iskey);
           ret true
       | COther =>
           if d_skipInvalid cfg then ret false
           else throw (YAMLException (js "unacceptable kind of an object to dump " ++ class_name dump) None)
       end) in
    if negb ok then ret false
    else
      do! mwhen tagged
            (let! d := dump_str in
             set_dump (VStr (js "!<" ++ default [] tag ++ js "> " ++ d)));
      ret true.
End Collections.

Fixpoint writeNode (n : nat) : writer :=
  match n with
  | O => fun _ _ _ _ _ _ => NoFuel
  | S n' => writeNode_body (writeNode n')
  end.
End Dumper.

(** ** Shared objects *)

(** The values directly inside an object. *)
Definition children (h : heap) (v : value) : list value :=
  match v with
  | VRef l => match h !! l with
              | Some (OArr vs) => vs
              | Some (OObj ps) => snd <$> ordered ps (obj_keys ps)
              | _ => [] end
  | _ => []
  end.

(** [inspectNode]: the objects seen and the indices of those met again. *)
Fixpoint inspectNode (n : nat) (h : heap) (v : value) (acc : list value * list nat)
    : list value * list nat :=
  let '(objects, dups) := acc in
  if isObject v then
    match index_of v objects with
    | Some i => (objects, if bool_decide (i ∈ dups) then dups else dups ++ [i])
    | None =>
        match n with
        | O => (objects, dups)
        | S n' => foldl (fun acc c => inspectNode n' h c acc) (objects ++ [v], dups) (children h v)
        end
    end
  else acc.

Definition getDuplicateReferences (h : heap) (v : value) : list value :=
  let '(objects, dups) := inspectNode (S (length h)) h v ([], []) in
  (fun i => default VUndef (objects !! i)) <$> dups.

(** ** Entry points *)

(** Each nested call enters an array or object; a shared one is entered once, so
    their number (and one more for keys and scalars) bounds the depth. *)
Definition dump (h : heap) (v : value) (s : schema) (o : doptions) : outcome dstate jsstr :=
  let cfg := make_dconfig s o in
  let dups := if d_noRefs cfg then [] else getDuplicateReferences h v in
  (let! ok := writeNode cfg h dups (S (S (length h))) 0 v true true false in
   let! d := dump_str in
   ret (if ok then d ++ [10] else []))
  (DState None VUndef (replicate (length dups) false)).

Definition safeDump (h : heap) (v : value) (o : doptions) : outcome dstate jsstr :=
  dump h v DEFAULT_SAFE_SCHEMA o.
