(* ===== verification/YamlScalars.v ===== *)
(** Scalars written by the dumper are read back by the loader: double-quoted,
    single-quoted and plain styles. *)
From S2P Require Import Prelude JsString JsNumber JsRegex Base64Js YamlValue YamlTypes YamlSchema YamlLoader YamlDumper.

(** ** Escapes *)

Lemma fromHexCode_upper d : 0 <= d < 16 -> fromHexCode (upper_unit (digit_char d)) = d.
Proof.
  intros H. pose proof (forall_below_spec 16 (fun d => fromHexCode (upper_unit (digit_char d)) =? d) d
    ltac:(by vm_compute) ltac:(lia)) as E. by apply Z.eqb_eq.
Qed.

(** The zero-padded upper-case hexadecimal digits of [c], as numbers. *)
Lemma hex_digits c (k : nat) : 0 <= c < 16 ^ Z.of_nat (S k) ->
  exists ds, repeat [48] (Z.of_nat (S k) - slen (toUpperCase (digits 16 c))) ++ toUpperCase (digits 16 c) =
      (fun d => upper_unit (digit_char d)) <$> ds /\
    length ds = S k /\ Forall (fun d => 0 <= d < 16) ds /\ digits_value 16 ds = c.
Proof.
  intros Hc. destruct (digits_spec 16 c) as (ds & E & HF & _ & V); [lia..|].
  pose proof (length_digits 16 c k ltac:(lia) Hc) as Hl.
  rewrite E. rewrite E, length_fmap in Hl. unfold toUpperCase, slen. rewrite <- list_fmap_compose, length_fmap.
  exists (replicate (S k - length ds) 0 ++ ds). repeat split.
  - rewrite fmap_app, fmap_replicate. f_equal. unfold repeat.
    replace (Z.to_nat (Z.of_nat (S k) - Z.of_nat (length ds))) with (S k - length ds)%nat by lia.
    induction (S k - length ds)%nat as [|m IH]; simpl; [done|]. by rewrite IH.
  - rewrite length_app, length_replicate. lia.
  - apply Forall_app. split; [apply Forall_replicate; lia|done].
  - unfold digits_value in *. rewrite foldl_app.
    transitivity (foldl (fun acc d => acc * 16 + d) 0 ds); [|done]. f_equal.
    induction (S k - length ds)%nat as [|m IH]; simpl; [done|]. exact IH.
Qed.

(** ** Reading at a position *)

Section Reading.
Context (cfg : config) (s0 : lstate).

(** The state of a scalar reader: position and text read so far. *)
Definition scal (p : Z) (r : jsstr) : lstate :=
  set_position p (set_node (Some Scalar) (VStr r) s0).

Lemma at_app pre s post k c :
  c_input cfg = pre ++ s ++ post -> s !! k = Some c -> at_ cfg (slen pre + Z.of_nat k) = c.
Proof.
  intros E Hk. unfold at_, charCodeAt, slen. rewrite E.
  destruct (Z.ltb_spec (Z.of_nat (length pre) + Z.of_nat k) 0); [lia|].
  replace (Z.to_nat (Z.of_nat (length pre) + Z.of_nat k)) with (length pre + k)%nat by lia.
  rewrite lookup_app_r by lia. replace (length pre + k - length pre)%nat with k by lia.
  by rewrite (lookup_app_l_Some s post k c Hk).
Qed.

Lemma slice_app pre s post :
  c_input cfg = pre ++ s ++ post -> slice_input cfg (slen pre) (slen pre + slen s) = s.
Proof.
  intros E. unfold slice_input, sslice, slen. rewrite E, Nat2Z.id, drop_app_length.
  replace (Z.to_nat _) with (length s) by lia. apply take_app_length.
Qed.

Lemma append_scal p r x : append x (scal p r) = Done tt (scal p (r ++ x)).
Proof. done. Qed.

Lemma captureSegment_scal pre seg post p r :
  c_input cfg = pre ++ seg ++ post -> forallb json_char seg = true ->
  captureSegment cfg (slen pre) (slen pre + slen seg) true (scal p r) = Done tt (scal p (r ++ seg)).
Proof.
  intros E Hj. unfold captureSegment. destruct (Z.ltb_spec (slen pre) (slen pre + slen seg)) as [H|H].
  - rewrite (slice_app pre seg post E), Hj. apply append_scal.
  - unfold slen in H. destruct seg; [by rewrite app_nil_r|simpl in H; lia].
Qed.

Lemma ch_scal p r : ch cfg (scal p r) = Done (at_ cfg p) (scal p r).
Proof. done. Qed.
Lemma move_scal p r n : move n (scal p r) = Done tt (scal (p + n) r).
Proof. done. Qed.
Lemma next_scal p r : next cfg (scal p r) = Done (at_ cfg (p + 1)) (scal (p + 1) r).
Proof. done. Qed.

(** ** Hexadecimal escapes *)

Lemma hex_escape_spec ds pre post r acc :
  c_input cfg = pre ++ ((fun d => upper_unit (digit_char d)) <$> ds) ++ post ->
  Forall (fun d => 0 <= d < 16) ds -> 0 <= acc ->
  foldl (fun a d => a * 16 + d) acc ds < 2 ^ 31 ->
  hex_escape cfg (length ds) acc (scal (slen pre - 1) r) =
  Done (foldl (fun a d => a * 16 + d) acc ds) (scal (slen pre + slen ds - 1) r).
Proof.
  intros E HF. revert pre acc E. induction HF as [|d ds Hd HF IH]; intros pre acc E Hacc Hlt.
  - unfold slen. simpl. unfold ret. do 2 f_equal. lia.
  - cbn [length hex_escape foldl] in *. erewrite bind_Done by apply next_scal.
    replace (slen pre - 1 + 1) with (slen pre + Z.of_nat 0) by lia.
    rewrite (at_app pre _ post 0 (upper_unit (digit_char d)) E) by done.
    rewrite fromHexCode_upper by done. destruct (Z.leb_spec 0 d); [|lia].
    assert (Hmono : forall l a, 0 <= a -> Forall (fun d => 0 <= d < 16) l -> a <= foldl (fun a d => a * 16 + d) a l).
    { clear. induction l as [|x l IHl]; intros a Ha Hl; simpl; [lia|]. apply Forall_cons_1 in Hl as [Hx Hl].
      specialize (IHl (a * 16 + x) ltac:(lia) Hl). lia. }
    pose proof (Hmono ds (acc * 16 + d) ltac:(lia) HF).
    rewrite shl_small by lia. change (2 ^ 4) with 16.
    replace (slen pre + Z.of_nat 0) with (slen (pre ++ [upper_unit (digit_char d)]) - 1)
      by (unfold slen; rewrite length_app; simpl; lia).
    rewrite IH.
    + f_equal. f_equal. unfold slen. rewrite length_app. simpl. lia.
    + rewrite E. rewrite fmap_cons, <- app_assoc. done.
    + lia.
    + done.
Qed.

(** An escape [e] whose reading appends the units [w]. *)
Definition reads_as (e w : jsstr) : Prop :=
  forall pre post r ni, c_input cfg = pre ++ e ++ post ->
    read_escape cfg ni (scal (slen pre) r) = Done tt (scal (slen pre + slen e) (r ++ w)).

Lemma simple_reads x c :
  simpleEscapeSequence x = Some c -> 0 <= x < 256 -> is_EOL x = false -> reads_as [92; x] [c].
Proof.
  intros Hx Hr He pre post r ni E. unfold read_escape. erewrite bind_Done by apply next_scal.
  replace (slen pre + 1) with (slen pre + Z.of_nat 1) by lia. rewrite (at_app pre _ post 1 x E) by done.
  rewrite He. destruct (Z.leb_spec 0 x), (Z.ltb_spec x 256); try lia. cbn [andb]. rewrite Hx.
  erewrite bind_Done by apply append_scal. rewrite move_scal. do 2 f_equal. unfold slen. simpl. lia.
Qed.

Lemma escape_sequence_reads c e : ESCAPE_SEQUENCES c = Some e -> (exists t, e = 92 :: t) /\ reads_as e [c].
Proof.
  unfold ESCAPE_SEQUENCES. intros H.
  repeat match type of H with
  | (if ?b then _ else _) = _ => destruct b eqn:?; bool_hyps; subst;
      [injection H as <-; split; [by eexists|]; apply simple_reads; [done|lia|done]|]
  end. done.
Qed.

Lemma hex_reads (n : nat) hd c w : escapedHexLen hd = Z.of_nat (S n) -> simpleEscapeSequence hd = None ->
  is_EOL hd = false -> 0 <= c < 16 ^ Z.of_nat (S n) -> c < 2 ^ 31 -> charFromCodepoint c = w ->
  reads_as (92 :: hd :: repeat [48] (Z.of_nat (S n) - slen (toUpperCase (digits 16 c))) ++ toUpperCase (digits 16 c)) w.
Proof.
  intros Hh Hs He Hc Hc31 Hw pre post r ni E. destruct (hex_digits c n Hc) as (ds & Ed & Hl & HF & V).
  rewrite Ed in *. unfold read_escape. erewrite bind_Done by apply next_scal.
  replace (slen pre + 1) with (slen pre + Z.of_nat 1) by lia. rewrite (at_app pre _ post 1 hd E) by done.
  rewrite He, Hs. replace (if (0 <=? hd) && (hd <? 256) then None else @None Z) with (@None Z) by (by destruct (_ && _)).
  rewrite Hh. destruct (Z.ltb_spec 0 (Z.of_nat (S n))); [|lia]. rewrite Nat2Z.id, <- Hl.
  replace (slen pre + Z.of_nat 1) with (slen (pre ++ [92; hd]) - 1) by (unfold slen; rewrite length_app; simpl; lia).
  unfold digits_value in V. erewrite bind_Done.
  2: { apply hex_escape_spec with (post := post); [by rewrite E, <- app_assoc|done|lia|by rewrite V]. }
  rewrite V, Hw. erewrite bind_Done by apply append_scal. rewrite move_scal. do 2 f_equal.
  unfold slen. rewrite length_app. simpl. rewrite length_fmap. lia.
Qed.

Lemma encodeHex_reads c w : 0 <= c <= 1114111 -> charFromCodepoint c = w ->
  exists e t, encodeHex c = Some e /\ e = 92 :: t /\ reads_as e w.
Proof.
  intros Hc Hw. unfold encodeHex.
  destruct (Z.leb_spec c 255); [|destruct (Z.leb_spec c 65535); [|destruct (Z.leb_spec c 4294967295); [|lia]]];
    do 2 eexists; (split; [done|]); (split; [done|]).
  - apply (hex_reads 1); try done; lia.
  - apply (hex_reads 3); try done; lia.
  - apply (hex_reads 7); try done; lia.
Qed.

Lemma charFromCodepoint_unit c : 0 <= c < 65536 -> charFromCodepoint c = [c].
Proof.
  intros H. unfold charFromCodepoint. destruct (Z.leb_spec c 65535); [|lia]. by rewrite Z.mod_small.
Qed.

Lemma charFromCodepoint_pair c d : 55296 <= c <= 56319 -> 56320 <= d <= 57343 ->
  charFromCodepoint ((c - 55296) * 1024 + d - 56320 + 65536) = [c; d].
Proof.
  intros Hc Hd. unfold charFromCodepoint. destruct (Z.leb_spec ((c - 55296) * 1024 + d - 56320 + 65536) 65535); [lia|].
  change 1023 with (Z.ones 10). rewrite js_and_ones, js_shr_div by lia.
  f_equal; [|f_equal]; Z.div_mod_to_equations; lia.
Qed.

(** Each unit is written as itself, printable and harmless, or as an escape. *)
Lemma escape_unit_cases c : code_unit c ->
  (escape_unit c = [c] /\ isPrintable c = true /\ c <> 34 /\ c <> 92) \/
  ((exists t, escape_unit c = 92 :: t) /\ reads_as (escape_unit c) [c]).
Proof.
  intros Hc. unfold escape_unit. destruct (ESCAPE_SEQUENCES c) as [e|] eqn:Ee.
  - right. by apply escape_sequence_reads.
  - destruct (isPrintable c) eqn:Ep.
    + left. repeat split; try done; intros ->; done.
    + right. unfold code_unit in Hc.
      destruct (encodeHex_reads c [c]) as (e & t & -> & -> & Hr); [lia|by apply charFromCodepoint_unit|].
      simpl. split; [by eexists|done].
Qed.

Lemma isPrintable_range c : isPrintable c = true -> 32 <= c <= 1114111 /\ c <> 127.
Proof. unfold isPrintable. intros H. repeat (apply orb_true_iff in H as [H|H]); bool_hyps; lia. Qed.

Lemma printable_json c : isPrintable c = true -> json_char c = true.
Proof.
  intros [H _]%isPrintable_range. unfold json_char.
  destruct (Z.leb_spec 32 c), (Z.leb_spec c 1114111); try lia.
Qed.

(** The first piece of an escaped string, and the rest. *)
Lemma escapeString_split str : str <> [] -> Forall code_unit str ->
  exists w e rest, str = w ++ rest /\ w <> [] /\ escapeString str = e ++ escapeString rest /\
    ((exists c, w = [c] /\ e = [c] /\ isPrintable c = true /\ c <> 34 /\ c <> 92) \/
     ((exists t, e = 92 :: t) /\ reads_as e w)).
Proof.
  intros Hne HF. destruct str as [|c str]; [done|]. apply Forall_cons_1 in HF as [Hc HF].
  assert (Hone : forall rest, escapeString (c :: str) = escape_unit c ++ escapeString rest -> str = rest ->
    exists w e rest, c :: str = w ++ rest /\ w <> [] /\ escapeString (c :: str) = e ++ escapeString rest /\
    ((exists c, w = [c] /\ e = [c] /\ isPrintable c = true /\ c <> 34 /\ c <> 92) \/
     ((exists t, e = 92 :: t) /\ reads_as e w))).
  { intros rest Hr <-. exists [c], (escape_unit c), str. repeat split; try done.
    destruct (escape_unit_cases c Hc) as [(E & H1 & H2 & H3)|H]; [left; exists c|right]; done. }
  cbn [escapeString] in *. destruct str as [|d str]; [apply (Hone []); simpl; rewrite ?app_nil_r; done|].
  destruct (_ && _) eqn:E; [|by eapply Hone]. bool_hyps.
  destruct (encodeHex_reads ((c - 55296) * 1024 + d - 56320 + 65536) [c; d]) as (e & t & -> & -> & Hr);
    [lia|by apply charFromCodepoint_pair|].
  exists [c; d], (92 :: t), str. repeat split; try done. right. split; [by eexists|done].
Qed.

Context (ni : Z).

Lemma double_loop_spec str : forall n pre seg post r ce,
  Forall code_unit str -> forallb json_char seg = true ->
  c_input cfg = pre ++ seg ++ escapeString str ++ 34 :: post ->
  l_lineStart s0 < slen pre -> (length (escapeString str) < n)%nat ->
  double_loop cfg n ni (slen pre) ce (scal (slen pre + slen seg) r) =
  Done true (scal (slen pre + slen seg + slen (escapeString str) + 1) (r ++ seg ++ str)).
Proof.
  induction str as [str IH] using (induction_ltof1 _ (@length Z)). unfold ltof in IH.
  intros n pre seg post r ce HF Hj E Hls Hn. destruct n as [|n]; [lia|]. cbn [double_loop].
  erewrite bind_Done by apply ch_scal. unfold gets at 1. erewrite bind_Done by done.
  unfold gets at 1. erewrite bind_Done by done. cbn [l_position scal set_position].
  assert (Hat : forall k c, (escapeString str ++ 34 :: post) !! k = Some c ->
    at_ cfg (slen pre + slen seg + Z.of_nat k) = c).
  { intros k c Hk. replace (slen pre + slen seg) with (slen (pre ++ seg)) by (unfold slen; rewrite length_app; lia).
    eapply (at_app (pre ++ seg) (escapeString str ++ 34 :: post) []); [by rewrite E, app_nil_r, <- app_assoc|done]. }
  specialize (Hat 0%nat). rewrite Z.add_0_r in Hat.
  destruct (decide (str = [])) as [->|Hne].
  - rewrite (Hat 34 eq_refl). change (34 =? 0) with false. change (34 =? 34) with true. cbv iota.
    erewrite bind_Done by (eapply captureSegment_scal; done). erewrite bind_Done by apply move_scal.
    unfold ret. rewrite app_nil_r. do 2 f_equal. unfold slen. simpl. lia.
  - destruct (escapeString_split str Hne HF) as (w & e & rest & Es & Hw & Ee & Hcase).
    assert (Hlen : (length rest < length str)%nat).
    { rewrite Es, length_app. destruct w; [done|simpl; lia]. }
    assert (HFr : Forall code_unit rest) by (rewrite Es in HF; by apply Forall_app in HF as [_ ?]).
    rewrite Ee in E, Hat, Hn |- *. rewrite <- app_assoc in E. rewrite length_app in Hn.
    destruct Hcase as [(c & -> & -> & Hp & H34 & H92)|[[t ->] Hr]].
    + rewrite (Hat c eq_refl). pose proof (isPrintable_range c Hp) as [Hc _].
      destruct (Z.eqb_spec c 0), (Z.eqb_spec c 34), (Z.eqb_spec c 92); try lia.
      replace (is_EOL c) with false by (unfold is_EOL; destr_cmp; simpl; done || lia).
      change (l_lineStart (scal (slen pre + slen seg) r)) with (l_lineStart s0).
      destruct (Z.eqb_spec (slen pre + slen seg) (l_lineStart s0)); [unfold slen in *; lia|]. cbn [andb].
      erewrite bind_Done by apply move_scal.
      pose proof (IH rest Hlen n pre (seg ++ [c]) post r (slen pre + slen seg + 1) HFr) as IH'.
      replace (slen pre + slen (seg ++ [c])) with (slen pre + slen seg + 1) in IH'
        by (unfold slen; rewrite length_app; simpl; lia).
      simpl in Hn. rewrite IH'; [|by rewrite forallb_app, Hj; simpl; rewrite printable_json
                         |by rewrite E, <- !app_assoc|done|lia].
      rewrite Es. do 2 f_equal; [unfold slen; simpl; lia|by rewrite <- !app_assoc].
    + rewrite (Hat 92 eq_refl). change (92 =? 0) with false. change (92 =? 34) with false.
      change (92 =? 92) with true. cbv iota.
      erewrite bind_Done by (eapply captureSegment_scal; [exact E|done]).
      replace (slen pre + slen seg) with (slen (pre ++ seg)) by (unfold slen; rewrite length_app; lia).
      erewrite bind_Done by (eapply Hr; rewrite E, <- app_assoc; done).
      unfold gets. erewrite bind_Done by done. cbn [l_position scal set_position].
      pose proof (IH rest Hlen n (pre ++ seg ++ 92 :: t) [] post (r ++ seg ++ w)
                    (slen (pre ++ seg) + slen (92 :: t)) HFr eq_refl) as IH'.
      replace (slen (pre ++ seg ++ 92 :: t)) with (slen (pre ++ seg) + slen (92 :: t)) in IH'
        by (unfold slen; rewrite !length_app; lia).
      replace (slen (pre ++ seg) + slen (92 :: t) + slen []) with (slen (pre ++ seg) + slen (92 :: t)) in IH'
        by (unfold slen; simpl; lia).
      rewrite <- app_assoc. rewrite IH'; [|by rewrite E, <- !app_assoc|unfold slen in *; rewrite length_app; lia|simpl in Hn; lia].
      rewrite Es. do 2 f_equal; [unfold slen; rewrite !length_app; simpl; lia|].
      simpl. by rewrite <- !app_assoc.
Qed.

(** ** Quoted scalars *)

Lemma scal_start pos r : scal pos r = set_position pos (scal (l_position s0) r).
Proof. done. Qed.

(** A double-quoted scalar is read back, whatever units the string has. *)
Lemma readDoubleQuotedScalar_spec str pre post :
  Forall code_unit str -> c_input cfg = pre ++ 34 :: escapeString str ++ 34 :: post ->
  l_position s0 = slen pre -> l_lineStart s0 <= slen pre ->
  readDoubleQuotedScalar cfg ni s0 = Done true (scal (slen pre + slen (34 :: escapeString str ++ [34])) str).
Proof.
  intros HF E Hp Hls. unfold readDoubleQuotedScalar.
  erewrite bind_Done by (unfold ch; done). rewrite Hp.
  assert (at_ cfg (slen pre) = 34) as ->.
  { rewrite <- (Z.add_0_r (slen pre)). by apply (at_app pre (34 :: escapeString str ++ 34 :: post) [] 0);
      [rewrite E, app_nil_r|]. }
  change (negb (34 =? 34)) with false. cbv iota.
  unfold modify. erewrite bind_Done by done. erewrite bind_Done.
  2: { unfold move, modify. done. }
  unfold gets. erewrite bind_Done by done.
  cbn [l_position set_position set_node]. rewrite Hp.
  change (set_position (slen pre + 1) (set_node (Some Scalar) (VStr []) s0)) with (scal (slen pre + 1) []).
  pose proof (double_loop_spec str (fuel cfg) (pre ++ [34]) [] post [] (slen pre + 1) HF eq_refl) as Hd.
  replace (slen (pre ++ [34])) with (slen pre + 1) in Hd by (unfold slen; rewrite length_app; simpl; lia).
  replace (slen pre + 1 + slen []) with (slen pre + 1) in Hd by (unfold slen; simpl; lia).
  rewrite Hd.
  - do 2 f_equal. unfold slen. simpl. rewrite length_app. simpl. lia.
  - rewrite E, <- app_assoc. done.
  - lia.
  - unfold fuel. rewrite E. rewrite !length_app. simpl. rewrite length_app. simpl. lia.
Qed.

Lemma single_loop_spec str : forall n pre seg post r ce,
  Forall (fun c => isPrintable c = true) str -> forallb json_char seg = true ->
  c_input cfg = pre ++ seg ++ double_quotes str ++ 39 :: post ->
  match post with c :: _ => c <> 39 | [] => True end ->
  l_lineStart s0 < slen pre -> (length (double_quotes str) < n)%nat ->
  single_loop cfg n ni (slen pre) ce (scal (slen pre + slen seg) r) =
  Done true (scal (slen pre + slen seg + slen (double_quotes str) + 1) (r ++ seg ++ str)).
Proof.
  induction str as [|c str IH]; intros n pre seg post r ce HF Hj E Hpost Hls Hn;
    (destruct n as [|n]; [lia|]); cbn [single_loop];
    (erewrite bind_Done by apply ch_scal); unfold gets at 1; (erewrite bind_Done by done);
    unfold gets at 1; (erewrite bind_Done by done); cbn [l_position scal set_position].
  - assert (Hat : forall k d, (39 :: post) !! k = Some d -> at_ cfg (slen pre + slen seg + Z.of_nat k) = d).
    { intros k d Hk. replace (slen pre + slen seg) with (slen (pre ++ seg)) by (unfold slen; rewrite length_app; lia).
      eapply (at_app (pre ++ seg) (39 :: post) []); [by rewrite E, app_nil_r, <- app_assoc|done]. }
    pose proof (Hat 0%nat 39 eq_refl) as H0. rewrite Z.add_0_r in H0. rewrite H0.
    change (39 =? 0) with false. change (39 =? 39) with true. cbv iota.
    erewrite bind_Done by (eapply captureSegment_scal; done). erewrite bind_Done by apply next_scal.
    assert ((at_ cfg (slen pre + slen seg + 1) =? 39) = false) as ->.
    { destruct post as [|d post].
      - apply Z.eqb_neq. unfold at_, charCodeAt. rewrite E. simpl. destruct (Z.ltb_spec (slen pre + slen seg + 1) 0); [done|].
        rewrite lookup_ge_None_2; [done|]. rewrite !length_app. unfold slen. simpl. lia.
      - apply Z.eqb_neq. pose proof (Hat 1%nat d eq_refl) as H1. change (Z.of_nat 1) with 1 in H1. by rewrite H1. }
    unfold ret. rewrite app_nil_r. do 2 f_equal. unfold slen. simpl. lia.
  - apply Forall_cons_1 in HF as [Hc HF]. cbn [double_quotes mbind list_bind] in *.
    change (str ≫= (fun c => if c =? 39 then [39; 39] else [c])) with (double_quotes str) in *.
    set (e := if c =? 39 then [39; 39] else [c]) in *.
    assert (Hat : forall k d, e !! k = Some d -> at_ cfg (slen pre + slen seg + Z.of_nat k) = d).
    { intros k d Hk. replace (slen pre + slen seg) with (slen (pre ++ seg)) by (unfold slen; rewrite length_app; lia).
      eapply (at_app (pre ++ seg) e (double_quotes str ++ 39 :: post)); [by rewrite E, <- !app_assoc|done]. }
    pose proof (isPrintable_range c Hc) as [Hr _]. rewrite length_app in Hn.
    destruct (Z.eqb_spec c 39) as [->|H39]; subst e.
    + pose proof (Hat 0%nat 39 eq_refl) as H0. rewrite Z.add_0_r in H0. rewrite H0.
      change (39 =? 0) with false. change (39 =? 39) with true. cbv iota.
      erewrite bind_Done by (eapply captureSegment_scal; [exact E|done]).
      erewrite bind_Done by apply next_scal. pose proof (Hat 1%nat 39 eq_refl) as H1.
      change (Z.of_nat 1) with 1 in H1. rewrite H1. change (39 =? 39) with true. cbv iota.
      erewrite bind_Done by apply move_scal.
      pose proof (IH n (pre ++ seg ++ [39]) [39] post (r ++ seg) (slen pre + slen seg + 2) HF eq_refl) as IH'.
      replace (slen (pre ++ seg ++ [39])) with (slen pre + slen seg + 1) in IH'
        by (unfold slen; rewrite !length_app; simpl; lia).
      replace (slen pre + slen seg + 1 + slen [39]) with (slen pre + slen seg + 1 + 1) in IH' by (unfold slen; simpl; lia).
      rewrite IH'; [|by rewrite E, <- !app_assoc|done|unfold slen in *; lia|simpl in Hn; lia].
      do 2 f_equal; [unfold slen; simpl; lia|]. by rewrite <- !app_assoc.
    + pose proof (Hat 0%nat c eq_refl) as H0. rewrite Z.add_0_r in H0. rewrite H0.
      destruct (Z.eqb_spec c 0), (Z.eqb_spec c 39); try lia.
      replace (is_EOL c) with false by (unfold is_EOL; destr_cmp; simpl; done || lia).
      change (l_lineStart (scal (slen pre + slen seg) r)) with (l_lineStart s0).
      destruct (Z.eqb_spec (slen pre + slen seg) (l_lineStart s0)); [unfold slen in *; lia|]. cbn [andb].
      erewrite bind_Done by apply move_scal.
      pose proof (IH n pre (seg ++ [c]) post r (slen pre + slen seg + 1) HF) as IH'.
      replace (slen pre + slen (seg ++ [c])) with (slen pre + slen seg + 1) in IH'
        by (unfold slen; rewrite length_app; simpl; lia).
      rewrite IH'; [|by rewrite forallb_app, Hj; simpl; rewrite printable_json
                    |by rewrite E, <- !app_assoc|done|done|simpl in Hn; lia].
      do 2 f_equal; [unfold slen; simpl; lia|]. by rewrite <- !app_assoc.
Qed.

(** A single-quoted scalar of printable units is read back. *)
Lemma readSingleQuotedScalar_spec str pre post :
  Forall (fun c => isPrintable c = true) str ->
  c_input cfg = pre ++ 39 :: double_quotes str ++ 39 :: post ->
  match post with c :: _ => c <> 39 | [] => True end ->
  l_position s0 = slen pre -> l_lineStart s0 <= slen pre ->
  readSingleQuotedScalar cfg ni s0 = Done true (scal (slen pre + slen (39 :: double_quotes str ++ [39])) str).
Proof.
  intros HF E Hpost Hp Hls. unfold readSingleQuotedScalar.
  erewrite bind_Done by (unfold ch; done). rewrite Hp.
  assert (at_ cfg (slen pre) = 39) as ->.
  { rewrite <- (Z.add_0_r (slen pre)). by apply (at_app pre (39 :: double_quotes str ++ 39 :: post) [] 0);
      [rewrite E, app_nil_r|]. }
  change (negb (39 =? 39)) with false. cbv iota.
  unfold modify. erewrite bind_Done by done. erewrite bind_Done.
  2: { unfold move, modify. done. }
  unfold gets. erewrite bind_Done by done.
  cbn [l_position set_position set_node]. rewrite Hp.
  change (set_position (slen pre + 1) (set_node (Some Scalar) (VStr []) s0)) with (scal (slen pre + 1) []).
  pose proof (single_loop_spec str (fuel cfg) (pre ++ [39]) [] post [] (slen pre + 1) HF eq_refl) as Hd.
  replace (slen (pre ++ [39])) with (slen pre + 1) in Hd by (unfold slen; rewrite length_app; simpl; lia).
  replace (slen pre + 1 + slen []) with (slen pre + 1) in Hd by (unfold slen; simpl; lia).
  rewrite Hd.
  - do 2 f_equal. unfold slen. simpl. rewrite length_app. simpl. lia.
  - rewrite E, <- app_assoc. done.
  - done.
  - lia.
  - unfold fuel. rewrite E. rewrite !length_app. simpl. rewrite length_app. simpl. lia.
Qed.
End Reading.

(** Wherever a document holds the double-quoted form of a string, and
    whatever surrounds it, the double-quoted reader returns the string, for every
    sequence of UTF-16 code units (control characters, line breaks, quotes,
    surrogates in or out of pairs), and stops right behind the closing quote. *)
Theorem double_quoted_reads_back (cfg : config) (s : lstate) (nodeIndent : Z) (str pre post : jsstr) :
  Forall code_unit str -> c_input cfg = pre ++ 34 :: escapeString str ++ 34 :: post ->
  l_position s = slen pre -> l_lineStart s <= slen pre ->
  readDoubleQuotedScalar cfg nodeIndent s =
  Done true (set_position (slen pre + slen (34 :: escapeString str ++ [34])) (set_node (Some Scalar) (VStr str) s)).
Proof. apply readDoubleQuotedScalar_spec. Qed.

Definition ex_config (input : jsstr) : config :=
  Config input (slen input) (compile DEFAULT_SAFE_SCHEMA) false false false (fun _ => []) (safe_runtime plain_builtins).

Lemma double_quoted_reads_back_witness :
  let str := [0; 10; 34; 55357; 56832; 55296] in
  let cfg := ex_config (js "k: " ++ 34 :: escapeString str ++ 34 :: js " # c") in
  readDoubleQuotedScalar cfg 0 (set_position 3 initial) =
  Done true (set_position (3 + slen (34 :: escapeString str ++ [34]))
    (set_node (Some Scalar) (VStr str) (set_position 3 initial))).
Proof.
  apply (double_quoted_reads_back
    (ex_config (js "k: " ++ 34 :: escapeString [0; 10; 34; 55357; 56832; 55296] ++ 34 :: js " # c"))
    (set_position 3 initial) 0 [0; 10; 34; 55357; 56832; 55296] (js "k: ") (js " # c")).
  - apply (bool_decide_unpack _). reflexivity.
  - reflexivity.
  - reflexivity.
  - vm_compute. discriminate.
Defined.

(** The same for the single-quoted form of a string of printable characters
    that no further quote follows. *)
Theorem single_quoted_reads_back (cfg : config) (s : lstate) (nodeIndent : Z) (str pre post : jsstr) :
  Forall (fun c => isPrintable c = true) str ->
  c_input cfg = pre ++ 39 :: double_quotes str ++ 39 :: post ->
  match post with c :: _ => c <> 39 | [] => True end ->
  l_position s = slen pre -> l_lineStart s <= slen pre ->
  readSingleQuotedScalar cfg nodeIndent s =
  Done true (set_position (slen pre + slen (39 :: double_quotes str ++ [39])) (set_node (Some Scalar) (VStr str) s)).
Proof. apply readSingleQuotedScalar_spec. Qed.

Lemma single_quoted_reads_back_witness :
  let cfg := ex_config (js "k: " ++ 39 :: double_quotes (js "it's: x") ++ 39 :: [10]) in
  readSingleQuotedScalar cfg 0 (set_position 3 initial) =
  Done true (set_position (3 + slen (39 :: double_quotes (js "it's: x") ++ [39]))
    (set_node (Some Scalar) (VStr (js "it's: x")) (set_position 3 initial))).
Proof.
  apply (single_quoted_reads_back (ex_config (js "k: " ++ 39 :: double_quotes (js "it's: x") ++ 39 :: [10]))
    (set_position 3 initial) 0 (js "it's: x") (js "k: ") [10]).
  - repeat constructor.
  - reflexivity.
  - discriminate.
  - reflexivity.
  - vm_compute. discriminate.
Defined.
