(* ===== verification/YamlRoundTrip.v ===== *)
(** A string document written by [safeDump] in a plain, single-quoted or
    double-quoted style is what [safeLoad] reads. *)
From S2P Require Import Prelude JsString JsNumber JsRegex Base64Js YamlValue YamlTypes YamlSchema YamlLoader YamlDumper YamlScalars.

(** Evaluate the tests on the node context. *)
Ltac context_tests :=
  repeat match goal with
  | |- context [@bool_decide (@eq context ?a ?b) ?d] =>
      let v := eval vm_compute in (@bool_decide (a = b) d) in
      change (@bool_decide (a = b) d) with v
  end; cbn [andb orb].

(** ** A document that is one line followed by a line feed and the end mark *)

Section Document.
Context (cfg : config) (text : jsstr) (c0 : Z).
Hypothesis Hin : c_input cfg = text ++ [10; 0].
Hypothesis Hlen : c_length cfg = slen text + 1.
Hypothesis Hlegacy : c_legacy cfg = false.
Hypothesis Hfirst : text !! 0%nat = Some c0.

(** A first character that starts neither separation, a directive, a property,
    a block indicator nor a flow collection. *)
Definition starts_scalar (c : Z) : bool :=
  negb (is_WS_OR_EOL c || (c =? 0) || (c =? 35) || (c =? 37) || (c =? 45) || (c =? 33) || (c =? 38) ||
        (c =? 63) || (c =? 58) || (c =? 91) || (c =? 123)).
Hypothesis Hstart : starts_scalar c0 = true.

Lemma at_text k c : text !! k = Some c -> at_ cfg (Z.of_nat k) = c.
Proof. intros H. by apply (at_app cfg [] text [10; 0] k c). Qed.

Lemma at_lf : at_ cfg (slen text) = 10.
Proof.
  replace (slen text) with (slen text + Z.of_nat 0) by lia.
  by apply (at_app cfg text [10; 0] [] 0); [rewrite Hin, app_nil_r|].
Qed.

Lemma at_end : at_ cfg (slen text + 1) = 0.
Proof.
  replace (slen text + 1) with (slen text + Z.of_nat 1) by lia.
  by apply (at_app cfg text [10; 0] [] 1); [rewrite Hin, app_nil_r|].
Qed.

Lemma at_0 : at_ cfg 0 = c0.
Proof. by apply (at_text 0). Qed.

Lemma ch_first s : l_position s = 0 -> ch cfg s = Done c0 s.
Proof. intros E. unfold ch. by rewrite E, at_0. Qed.

Lemma ch_lf s : l_position s = slen text -> ch cfg s = Done 10 s.
Proof. intros E. unfold ch. by rewrite E, at_lf. Qed.

Lemma ch_end s : l_position s = slen text + 1 -> ch cfg s = Done 0 s.
Proof. intros E. unfold ch. by rewrite E, at_end. Qed.

Lemma fuel_pos : exists n, fuel cfg = S (S (S n)).
Proof. unfold fuel. rewrite Hin, length_app. simpl. exists (length text). lia. Qed.

Lemma start_facts :
  c0 <> 0 /\ c0 <> 9 /\ c0 <> 32 /\ c0 <> 10 /\ c0 <> 13 /\ c0 <> 35 /\ c0 <> 37 /\ c0 <> 45 /\
  c0 <> 33 /\ c0 <> 38 /\ c0 <> 63 /\ c0 <> 58 /\ c0 <> 91 /\ c0 <> 123.
Proof.
  pose proof Hstart as H. unfold starts_scalar, is_WS_OR_EOL in H. bool_hyps. repeat split; done.
Qed.

(** Nothing to skip before such a character. *)
Lemma skip_none ac ci s :
  let c := at_ cfg (l_position s) in
  is_WS_OR_EOL c = false -> c <> 35 -> skipSeparationSpace cfg ac ci s = Done 0 s.
Proof.
  intros c Hw H35. unfold skipSeparationSpace. destruct fuel_pos as [n Hn].
  erewrite bind_Done with (a := 0) (s' := s).
  - unfold gets. erewrite bind_Done by done. rewrite (andb_comm _ (negb (0 =? 0))). done.
  - rewrite Hn. cbn [separation_loop]. unfold ch at 1. erewrite bind_Done by done. fold c.
    destruct (Z.eqb_spec c 0); [done|]. erewrite bind_Done with (a := c) (s' := s).
    + erewrite bind_Done with (a := c) (s' := s).
      * assert (is_EOL c = false) as ->; [|done]. unfold is_WS_OR_EOL, is_EOL in *.
        apply orb_false_iff in Hw as [Hw ->]. apply orb_false_iff in Hw as [_ ->]. done.
      * destruct (Z.eqb_spec c 35); [done|]. by rewrite andb_false_r.
    + unfold seek. rewrite Hn. cbn [seek_fuel]. unfold ch. erewrite bind_Done by done. fold c.
      assert (is_WHITE_SPACE c = false) as ->; [|done]. unfold is_WS_OR_EOL, is_WHITE_SPACE in *.
      apply orb_false_iff in Hw as [Hw _]. by apply orb_false_iff in Hw as [Hw _].
Qed.

Lemma skip_first ac ci s : l_position s = 0 -> skipSeparationSpace cfg ac ci s = Done 0 s.
Proof.
  intros Hp. pose proof start_facts. apply skip_none; rewrite Hp, at_0; [|lia].
  unfold is_WS_OR_EOL. destr_cmp; try lia; done.
Qed.

(** The state behind the final line feed. *)
Definition past_lf (s : lstate) : lstate :=
  set_lineIndent 0 (set_line (l_line s + 1) (slen text + 1) (set_position (slen text + 1) s)).

Lemma skip_last ac s : l_position s = slen text -> skipSeparationSpace cfg ac (-1) s = Done 1 (past_lf s).
Proof.
  intros Hp. unfold skipSeparationSpace. destruct fuel_pos as [n Hn].
  erewrite bind_Done with (a := 1) (s' := past_lf s).
  { unfold gets. erewrite bind_Done by done. done. }
  rewrite Hn. cbn [separation_loop]. erewrite bind_Done by (by apply ch_lf).
  change (10 =? 0) with false. cbv iota.
  erewrite bind_Done with (a := 10) (s' := s).
  2: { unfold seek. rewrite Hn. cbn [seek_fuel]. erewrite bind_Done by (by apply ch_lf). done. }
  change (10 =? 35) with false. rewrite andb_false_r. unfold ret at 1. erewrite bind_Done by done.
  change (is_EOL 10) with true. cbv iota.
  set (s1 := set_line (l_line s + 1) (slen text + 1) (set_position (slen text + 1) s)).
  erewrite bind_Done with (a := tt) (s' := s1).
  2: { unfold readLineBreak. erewrite bind_Done by (by apply ch_lf). change (10 =? 10) with true. cbv iota.
       unfold move, modify. erewrite bind_Done by done. simpl. unfold s1. by rewrite Hp. }
  unfold modify. erewrite bind_Done by done.
  erewrite bind_Done with (a := tt) (s' := past_lf s).
  2: { rewrite Hn. cbn [indent_loop]. erewrite bind_Done by (by apply ch_end). done. }
  cbn [separation_loop]. erewrite bind_Done by (by apply ch_end). done.
Qed.

(** ** Composing the document around its only scalar *)

(** The state in which the scalar is read: the block readers have allocated
    their (unused) collections. *)
Definition inner : lstate := set_heap [OArr []; OObj []] initial.

Lemma no_properties s : l_position s = 0 -> readTagProperty cfg s = Done false s /\
  readAnchorProperty cfg s = Done false s.
Proof.
  intros Hp. pose proof start_facts. unfold readTagProperty, readAnchorProperty, ch, gets, bind.
  rewrite Hp, at_0. destruct (Z.eqb_spec c0 33), (Z.eqb_spec c0 38); try lia. done.
Qed.

Lemma properties_none pi abs st s : l_position s = 0 ->
  properties_loop cfg (fuel cfg) pi abs st s = Done st s.
Proof.
  intros Hp. destruct fuel_pos as [n Hn]. rewrite Hn. cbn [properties_loop].
  destruct (no_properties s Hp) as [E1 E2]. erewrite bind_Done by exact E1.
  cbv iota. erewrite bind_Done by exact E2. done.
Qed.

Lemma no_anchor v s : l_anchor s = None -> set_anchor_value cfg v s = Done tt s.
Proof. intros Ha. unfold set_anchor_value, gets, bind. by rewrite Ha. Qed.

Lemma no_sequence comp i s : l_position s = 0 -> l_anchor s = None ->
  readBlockSequence cfg comp i s = Done false (set_heap (l_heap s ++ [OArr []]) s).
Proof.
  intros Hp Ha. pose proof start_facts. destruct fuel_pos as [n Hn].
  unfold readBlockSequence, gets, new_obj. do 3 (erewrite bind_Done by done). erewrite bind_Done by (by apply no_anchor).
  rewrite Hn. cbn [sequence_loop]. unfold ch, gets, bind. cbn [l_position set_heap]. rewrite Hp, at_0.
  destruct (Z.eqb_spec c0 0), (Z.eqb_spec c0 45); try lia. done.
Qed.

Lemma no_flow comp i s : l_position s = 0 -> readFlowCollection cfg comp i s = Done false s.
Proof.
  intros Hp. pose proof start_facts. unfold readFlowCollection, ch, gets, bind. rewrite Hp, at_0.
  destruct (Z.eqb_spec c0 91), (Z.eqb_spec c0 123); try lia. done.
Qed.

Lemma compose_inner comp s1 s2 :
  read_content cfg comp CONTEXT_FLOW_OUT false false 0 0 inner = Done true s1 ->
  resolve_node cfg s1 = Done tt s2 ->
  composeNode_body cfg comp 0 CONTEXT_FLOW_OUT false true inner = Done true s2.
Proof.
  intros H1 H2. unfold composeNode_body. unfold modify. erewrite bind_Done by done.
  change (set_node None VNull (set_anchor None (set_tag None inner))) with inner.
  unfold ret at 1. erewrite bind_Done by done. change (1 =? 1) with true. cbv iota.
  erewrite bind_Done by (by apply properties_none). cbv iota.
  unfold gets at 1. erewrite bind_Done by done. unfold gets at 1. erewrite bind_Done by done.
  erewrite bind_Done by exact H1. erewrite bind_Done by exact H2.
  unfold gets. unfold bind, ret. by destruct (l_tag s2), (l_anchor s2).
Qed.

(** The block mapping reader meets the scalar, no colon behind it, and gives up
    with the scalar as the node. *)
Lemma scalar_no_mapping comp s2 :
  comp 0 CONTEXT_FLOW_OUT false true inner = Done true s2 ->
  (l_position s2 = slen text /\ l_line s2 = 0) \/ l_line s2 <> 0 ->
  readBlockMapping cfg comp 0 0 (set_heap [OArr []] initial) = Done true (set_anchor None (set_tag None s2)).
Proof.
  intros Hc Hpos. pose proof start_facts. destruct fuel_pos as [n Hn].
  unfold readBlockMapping, gets, new_obj. do 3 (erewrite bind_Done by done). erewrite bind_Done by (by apply no_anchor).
  cbn [alloc_obj l_heap l_anchor set_heap initial l_tag app length].
  erewrite bind_Done with (a := inl true) (s' := set_anchor None (set_tag None s2)); [done|].
  rewrite Hn. cbn [mapping_loop]. erewrite bind_Done by (by apply ch_first).
  destruct (Z.eqb_spec c0 0); [lia|]. unfold gets. do 2 (erewrite bind_Done by done).
  erewrite bind_Done with (a := inl true) (s' := set_anchor None (set_tag None s2)); [done|].
  unfold read_key. erewrite bind_Done by (by apply ch_first).
  unfold gets. do 2 (erewrite bind_Done by done).
  destruct (Z.eqb_spec c0 63), (Z.eqb_spec c0 58); try lia. cbn [orb andb].
  change (set_heap [OArr []; OObj []] (set_heap [OArr []] initial)) with inner.
  erewrite bind_Done by exact Hc. cbn [negb]. erewrite bind_Done by done.
  change (l_line inner) with 0.
  destruct (Z.eqb_spec (l_line s2) 0) as [E|E].
  - destruct Hpos as [[Hp _]|?]; [|done]. erewrite bind_Done with (a := 10) (s' := s2).
    + change (10 =? 58) with false. cbn [mv_detected]. done.
    + unfold seek. rewrite Hn. cbn [seek_fuel]. by erewrite bind_Done by (by apply ch_lf).
  - done.
Qed.

Lemma compose_document comp s2 :
  comp 0 CONTEXT_FLOW_OUT false true inner = Done true s2 ->
  (l_position s2 = slen text /\ l_line s2 = 0) \/ l_line s2 <> 0 ->
  composeNode_body cfg comp (-1) CONTEXT_BLOCK_OUT false true initial =
  Done true (set_anchor None (set_tag None s2)).
Proof.
  intros Hc Hpos. unfold composeNode_body. unfold modify. erewrite bind_Done by done.
  change (set_node None VNull (set_anchor None (set_tag None initial))) with initial.
  unfold ret at 1. erewrite bind_Done by done. change (1 =? 1) with true. cbv iota.
  erewrite bind_Done by (by apply properties_none). cbv iota.
  unfold gets at 1. erewrite bind_Done by done. unfold gets at 1. erewrite bind_Done by done.
  change (0 - 0) with 0. cbn [l_position l_lineStart initial].
  erewrite bind_Done with (a := true) (s' := set_anchor None (set_tag None s2)).
  - done.
  - change (1 =? 1) with true. cbv iota. unfold read_content.
    erewrite bind_Done with (a := true) (s' := set_anchor None (set_tag None s2)); [done|].
    unfold orelse, andalso. context_tests.
    erewrite bind_Done with (a := true) (s' := set_anchor None (set_tag None s2)); [done|].
    erewrite bind_Done by (by apply no_sequence). cbv iota.
    apply scalar_no_mapping; done.
Qed.

(** The whole stream: one document, the string. *)
Lemma document_loads str s2 n :
  composeNode_body cfg (composeNode cfg n) 0 CONTEXT_FLOW_OUT false true inner = Done true s2 ->
  depth cfg = S (S n) ->
  (l_position s2 = slen text /\ l_line s2 = 0) \/
  (l_position s2 = slen text + 1 /\ l_lineStart s2 = slen text + 1 /\ l_line s2 <> 0) ->
  l_result s2 = VStr str -> l_documents s2 = [] -> l_checkLineBreaks s2 = false ->
  exists s3, (do! indent_loop cfg (fuel cfg); do! documents_loop cfg (fuel cfg); gets l_documents) initial =
    Done [VStr str] s3.
Proof.
  intros Hc Hd Hpos Hr Hdoc Hclb. pose proof start_facts as Hst. destruct fuel_pos as [m Hm].
  set (s3 := set_anchor None (set_tag None s2)).
  assert (Hcomp : composeNode cfg (depth cfg) (-1) CONTEXT_BLOCK_OUT false true initial = Done true s3).
  { rewrite Hd. cbn [composeNode]. apply compose_document; [exact Hc|].
    destruct Hpos as [?|(_ & _ & ?)]; [by left|by right]. }
  (* skipping the end of the line leads to the same position in both cases *)
  assert (Hskip : exists k s4, skipSeparationSpace cfg true (-1) s3 = Done k s4 /\
    l_position s4 = slen text + 1 /\ l_lineStart s4 = slen text + 1 /\ l_result s4 = VStr str /\
    l_documents s4 = [] /\ l_checkLineBreaks s4 = false).
  { destruct Hpos as [[Hp _]|(Hp & Hl & _)].
    - exists 1, (past_lf s3). split; [by apply skip_last|]. done.
    - exists 0, s3. assert (l_position s3 = slen text + 1) as Ep by done.
      split; [apply skip_none; rewrite Ep, at_end; done|]. done. }
  destruct Hskip as (k & s4 & Hsk & Hp4 & Hl4 & Hr4 & Hd4 & Hc4).
  erewrite bind_Done with (a := tt) (s' := initial).
  2: { rewrite Hm. cbn [indent_loop]. erewrite bind_Done by (by apply ch_first).
       destruct (Z.eqb_spec c0 32); [lia|done]. }
  assert (Hread : readDocument cfg initial = Done tt (push_document (VStr str) s4)).
  { unfold readDocument, gets, modify. erewrite bind_Done by done. erewrite bind_Done by done.
    rewrite Hlegacy. change (set_anchorMap (Anchors [] None) (set_directives None false [] initial)) with initial.
    erewrite bind_Done with (a := false) (s' := initial).
    2: { rewrite Hm. cbn [directives_loop]. erewrite bind_Done by (by apply ch_first).
         destruct (Z.eqb_spec c0 0); [lia|]. erewrite bind_Done by (by apply skip_first).
         erewrite bind_Done by (by apply ch_first). unfold gets. erewrite bind_Done by done.
         destruct (Z.eqb_spec c0 37); [lia|done]. }
    erewrite bind_Done by (by apply skip_first). do 2 (erewrite bind_Done by done).
    cbn [l_position l_lineIndent initial]. rewrite at_0. destruct (Z.eqb_spec c0 45); [lia|].
    change (0 =? 0) with true. cbn [andb]. unfold ret at 1. erewrite bind_Done by done.
    erewrite bind_Done by done. change (0 - 1) with (-1).
    erewrite bind_Done by exact Hcomp. erewrite bind_Done by exact Hsk.
    do 2 (erewrite bind_Done by done). rewrite Hc4. cbn [andb mwhen]. unfold ret at 1. erewrite bind_Done by done.
    do 3 (erewrite bind_Done by done). rewrite Hr4. cbn [l_lineStart push_document]. rewrite Hp4, Hl4.
    rewrite Z.eqb_refl. unfold testDocumentSeparator. rewrite at_end. change (0 =? 45) with false.
    change (0 =? 46) with false. cbn [orb andb]. rewrite Hlen.
    destruct (Z.ltb_spec (slen text + 1) (slen text + 1 - 1)); [lia|done]. }
  assert (0 < slen text) by (unfold slen; apply lookup_lt_Some in Hfirst; lia).
  exists (push_document (VStr str) s4). erewrite bind_Done with (a := tt) (s' := push_document (VStr str) s4).
  - unfold gets. cbn [l_documents push_document]. by rewrite Hd4.
  - rewrite Hm. cbn [documents_loop]. unfold gets. erewrite bind_Done by done. cbn [l_position initial].
    rewrite Hlen. destruct (Z.ltb_spec 0 (slen text + 1 - 1)); [|lia].
    erewrite bind_Done by exact Hread. erewrite bind_Done by done. cbn [l_position push_document]. rewrite Hp4.
    destruct (Z.ltb_spec (slen text + 1) (slen text + 1 - 1)); [lia|done].
Qed.

(** ** The three styles *)

(** Reading the content of the inner node: the flow collection reader and, by
    the first character, all scalar readers but one refuse. *)
Lemma content_quoted comp s1 :
  orelse (readSingleQuotedScalar cfg 0) (readDoubleQuotedScalar cfg 0) inner = Done true s1 ->
  l_anchor s1 = None ->
  read_content cfg comp CONTEXT_FLOW_OUT false false 0 0 inner = Done true s1.
Proof.
  intros H Ha. unfold read_content. unfold orelse at 1, andalso at 1. unfold ret at 1.
  erewrite bind_Done with (a := false) (s' := inner) by (erewrite bind_Done by done; by apply no_flow).
  cbv iota. unfold orelse at 1, andalso. unfold ret at 1.
  erewrite bind_Done with (a := true) (s' := s1) by (erewrite bind_Done by done; exact H).
  cbv iota. unfold ret at 1. erewrite bind_Done by done. unfold gets. erewrite bind_Done by done.
  erewrite bind_Done by (by apply no_anchor). done.
Qed.

Lemma not_single s : l_position s = 0 -> c0 <> 39 -> readSingleQuotedScalar cfg 0 s = Done false s.
Proof.
  intros Hp Hc. unfold readSingleQuotedScalar. erewrite bind_Done by (by apply ch_first).
  destruct (Z.eqb_spec c0 39); [done|done].
Qed.

Lemma inner_double comp str :
  text = 34 :: escapeString str ++ [34] -> Forall code_unit str ->
  composeNode_body cfg comp 0 CONTEXT_FLOW_OUT false true inner = Done true (scal inner (slen text) str).
Proof.
  intros Ht HF. assert (c0 = 34) by (rewrite Ht in Hfirst; by injection Hfirst).
  apply (compose_inner comp (scal inner (slen text) str)); [|done]. apply content_quoted; [|done].
  unfold orelse. erewrite bind_Done by (apply not_single; [done|lia]). cbv iota.
  rewrite (readDoubleQuotedScalar_spec cfg inner 0 str [] [10; 0]); [|done| |done|done].
  - unfold slen at 1. simpl length. rewrite Z.add_0_l. by rewrite Ht.
  - rewrite Hin, Ht. simpl. by rewrite <- app_assoc.
Qed.

Lemma inner_single comp str :
  text = 39 :: double_quotes str ++ [39] -> Forall (fun c => isPrintable c = true) str ->
  composeNode_body cfg comp 0 CONTEXT_FLOW_OUT false true inner = Done true (scal inner (slen text) str).
Proof.
  intros Ht HF. apply (compose_inner comp (scal inner (slen text) str)); [|done]. apply content_quoted; [|done].
  unfold orelse. erewrite bind_Done.
  2: { apply (readSingleQuotedScalar_spec cfg inner 0 str [] [10; 0]); [done| |done|done|done].
       rewrite Hin, Ht. simpl. by rewrite <- app_assoc. }
  unfold slen at 1. simpl length. rewrite Z.add_0_l. by rewrite Ht.
Qed.

(** *** Plain scalars *)

(** [captureEnd] after the units [rest] from position [p] on. *)
Fixpoint capture_end (p ce : Z) (rest : jsstr) : Z :=
  match rest with
  | [] => ce
  | c :: rest' => capture_end (p + 1) (if is_WHITE_SPACE c then ce else p + 1) rest'
  end.

Lemma capture_end_last p ce rest c :
  is_WHITE_SPACE c = false -> capture_end p ce (rest ++ [c]) = p + slen rest + 1.
Proof.
  intros Hc. revert p ce. induction rest as [|d rest IH]; intros p ce; simpl.
  - rewrite Hc. unfold slen. simpl. lia.
  - rewrite IH. unfold slen. simpl. lia.
Qed.

Lemma plain_safe_facts c : isPlainSafe c = true ->
  32 <= c <= 1114111 /\ c <> 58 /\ c <> 35 /\ is_FLOW_INDICATOR c = false /\ is_EOL c = false.
Proof.
  unfold isPlainSafe. intros H. bool_hyps.
  match goal with H : isPrintable c = true |- _ => pose proof (isPrintable_range c H) as [Hr _] end.
  unfold is_FLOW_INDICATOR, is_EOL. repeat split; try lia; bool_arith.
Qed.

Hypothesis Hsep : testDocumentSeparator cfg 0 = false.

Lemma plain_loop_spec rest : forall pre n ce,
  text = pre ++ rest -> Forall (fun c => isPlainSafe c = true) rest -> (length rest + 2 <= n)%nat ->
  plain_loop cfg n 0 false 0 ce false 0 (scal inner (slen pre) []) =
  Done (0, capture_end (slen pre) ce rest) (past_lf (scal inner (slen text) [])).
Proof.
  induction rest as [|c rest IH]; intros pre n ce Ht HF Hn; (destruct n as [|n]; [lia|]); cbn [plain_loop].
  - rewrite app_nil_r in Ht. rewrite <- Ht. erewrite bind_Done by (by apply ch_lf).
    unfold gets at 1. erewrite bind_Done by done.
    assert (plain_ends cfg false (scal inner (slen text) []) = false) as ->.
    { unfold plain_ends. change (l_position (scal inner (slen text) [])) with (slen text).
      change (l_lineStart (scal inner (slen text) [])) with 0. rewrite at_lf.
      change (10 =? 58) with false. change (10 =? 35) with false. cbv iota.
      assert (0 < slen text) by (unfold slen; apply lookup_lt_Some in Hfirst; lia).
      destruct (Z.eqb_spec (slen text) 0) as [E|]; [lia|done]. }
    change (10 =? 0) with false. change (is_EOL 10) with true. cbn [orb]. cbv iota.
    unfold gets. do 3 (erewrite bind_Done by done). erewrite bind_Done by (by apply skip_last).
    erewrite bind_Done by done. change (0 <=? l_lineIndent (past_lf (scal inner (slen text) []))) with true. cbv iota.
    destruct n as [|n]; [lia|]. cbn [plain_loop]. erewrite bind_Done by (by apply ch_end).
    unfold gets. erewrite bind_Done by done. done.
  - apply Forall_cons_1 in HF as [Hc HF]. destruct (plain_safe_facts c Hc) as (Hr & H58 & H35 & Hfi & He).
    assert (Hat : at_ cfg (slen pre) = c).
    { rewrite <- (Z.add_0_r (slen pre)). apply (at_app cfg pre (c :: rest) [10; 0] 0); [|done].
      by rewrite Hin, Ht, <- app_assoc. }
    erewrite bind_Done by (unfold ch; cbn [l_position scal set_position]; by rewrite Hat).
    unfold gets at 1. erewrite bind_Done by done.
    assert (plain_ends cfg false (scal inner (slen pre) []) = false) as ->.
    { unfold plain_ends. change (l_position (scal inner (slen pre) [])) with (slen pre).
      change (l_lineStart (scal inner (slen pre) [])) with 0. rewrite Hat.
      destruct (Z.eqb_spec c 58), (Z.eqb_spec c 35); try lia. rewrite orb_false_r.
      destruct (Z.eqb_spec (slen pre) 0) as [E|]; [|done]. by rewrite E, Hsep. }
    destruct (Z.eqb_spec c 0); [lia|]. cbn [orb]. rewrite He. unfold gets. do 2 (erewrite bind_Done by done).
    cbn [mwhen]. unfold ret at 1. erewrite bind_Done by done. cbn [l_position scal set_position].
    erewrite bind_Done by apply move_scal. cbn [capture_end].
    replace (slen pre + 1) with (slen (pre ++ [c])) by (unfold slen; rewrite length_app; simpl; lia).
    apply IH; [by rewrite <- app_assoc|done|simpl in Hn; lia].
Qed.

Lemma printable_text s prev : Forall (fun c => isPlainSafe c = true) s -> non_printable prev s = false.
Proof.
  intros HF. revert prev. induction HF as [|c s Hc _ IH]; intros prev; [done|]. cbn [non_printable].
  unfold isPlainSafe in Hc. bool_hyps.
  match goal with H : isPrintable c = true |- _ => rename H into Hp end.
  assert ((32 <= c <= 126) \/ (161 <= c <= 55295) \/ (57344 <= c <= 65533) \/ 65536 <= c) as Hr.
  { unfold isPrintable in Hp. repeat (apply orb_true_iff in Hp as [Hp|Hp]); bool_hyps; lia. }
  assert (bad_unit c = false) as -> by (unfold bad_unit; bool_arith).
  assert (lead_unit c = false) as -> by (unfold lead_unit; bool_arith).
  assert (trail_unit c = false) as -> by (unfold trail_unit; bool_arith).
  simpl. apply IH.
Qed.

(** The state after the plain scalar. *)
Definition after_plain : lstate :=
  set_node (Some Scalar) (VStr text) (past_lf (scal inner (slen text) [])).

Lemma readPlainScalar_spec body c1 :
  text = body ++ [c1] -> Forall (fun c => isPlainSafe c = true) text ->
  isPlainSafeFirst c0 = true -> is_WHITE_SPACE c1 = false ->
  readPlainScalar cfg 0 false inner = Done true after_plain.
Proof.
  intros Hb HF H0 Hws. unfold readPlainScalar. erewrite bind_Done by (by apply ch_first).
  unfold gets at 1. erewrite bind_Done by done.
  assert (cannot_start_plain c0 = false) as ->.
  { unfold isPlainSafeFirst, isWhitespace in H0. bool_hyps. pose proof start_facts.
    unfold cannot_start_plain, is_WS_OR_EOL, is_FLOW_INDICATOR. bool_arith. }
  pose proof start_facts. destruct (Z.eqb_spec c0 63), (Z.eqb_spec c0 45); try lia. cbn [orb andb].
  unfold gets. do 2 (erewrite bind_Done by done). unfold modify at 1. erewrite bind_Done by done.
  change (set_node (Some Scalar) (VStr []) inner) with (scal inner (slen []) []).
  pose proof (plain_loop_spec text [] (fuel cfg) 0 eq_refl HF) as Hl.
  change (l_position inner) with 0.
  assert (Hce : capture_end (slen []) 0 text = slen text).
  { rewrite Hb, capture_end_last by done. unfold slen. rewrite length_app. simpl. lia. }
  rewrite Hce in Hl.
  erewrite bind_Done by (apply Hl; unfold fuel; rewrite Hin, length_app; simpl; lia).
  cbn [fst snd]. assert (0 < slen text) by (unfold slen; apply lookup_lt_Some in Hfirst; lia).
  erewrite bind_Done with (a := tt) (s' := after_plain).
  - erewrite bind_Done by done. cbn [l_result after_plain set_node].
    rewrite decide_False by (intros [=E]; by rewrite E in Hfirst). done.
  - unfold captureSegment. destruct (Z.ltb_spec 0 (slen text)); [|lia].
    pose proof (slice_app cfg [] text [10; 0] Hin) as Hsl. rewrite Z.add_0_l in Hsl.
    change (slen []) with 0 in Hsl. rewrite Hsl, printable_text by done. done.
Qed.

(** No implicit type takes the string. *)
Lemma implicit_none ts s :
  existsb (fun t => t_resolve t (l_heap s) (l_result s)) ts = false -> implicit_loop cfg ts s = Done tt s.
Proof.
  induction ts as [|t ts IH]; [done|]. cbn [existsb implicit_loop]. intros H. bool_hyps.
  unfold gets. erewrite bind_Done by done.
  destruct (t_resolve t (l_heap s) (l_result s)); [done|]. by apply IH.
Qed.

Lemma inner_plain comp body c1 :
  text = body ++ [c1] -> Forall (fun c => isPlainSafe c = true) text ->
  isPlainSafeFirst c0 = true -> is_WHITE_SPACE c1 = false ->
  existsb (fun t => t_resolve t [OArr []; OObj []] (VStr text)) (compiledImplicit (c_schema cfg)) = false ->
  composeNode_body cfg comp 0 CONTEXT_FLOW_OUT false true inner = Done true (set_tag (Some (js "?")) after_plain).
Proof.
  intros Hb HF H0 Hws Himp. apply (compose_inner comp (set_tag (Some (js "?")) after_plain)).
  - pose proof H0 as H0'. unfold isPlainSafeFirst in H0'. bool_hyps.
    unfold read_content. unfold orelse at 1, andalso at 1. unfold ret at 1.
    erewrite bind_Done with (a := false) (s' := inner) by (erewrite bind_Done by done; by apply no_flow).
    cbv iota. unfold orelse at 1, andalso. unfold ret at 1.
    erewrite bind_Done with (a := false) (s' := inner).
    2: { erewrite bind_Done by done. cbv iota. unfold orelse.
         erewrite bind_Done by (by apply not_single). cbv iota. unfold readDoubleQuotedScalar.
         erewrite bind_Done by (by apply ch_first). by destruct (Z.eqb_spec c0 34). }
    cbv iota. erewrite bind_Done with (a := true) (s' := set_tag (Some (js "?")) after_plain).
    + unfold gets. erewrite bind_Done by done. by erewrite bind_Done by (by apply no_anchor).
    + erewrite bind_Done with (a := false) (s' := inner).
      * unfold gets. do 2 (erewrite bind_Done by done). context_tests.
        by erewrite bind_Done by (by apply (readPlainScalar_spec body c1)).
      * unfold readAlias. erewrite bind_Done by (by apply ch_first). by destruct (Z.eqb_spec c0 42).
  - unfold resolve_node, gets. erewrite bind_Done by done. cbn [l_tag set_tag after_plain].
    rewrite bool_decide_false by done. rewrite bool_decide_true by done. by apply implicit_none.
Qed.
End Document.

(** ** What the dumper writes *)

Lemma detect_none cfg h ts explicit v s :
  Forall (fun t => match t_predicate t with Some p => p h v = false | None => True end) ts ->
  detect_loop cfg h ts explicit v s = Done false s.
Proof.
  induction 1 as [|t ts Ht _ IH]; [done|]. cbn [detect_loop].
  destruct (t_predicate t) as [p|]; [rewrite Ht|]; exact IH.
Qed.

(** The types of the default safe schema. *)
Lemma safe_implicit : compiledImplicit (compile DEFAULT_SAFE_SCHEMA) =
  [type_null; type_bool; type_int; type_float; type_timestamp; type_merge].
Proof. reflexivity. Qed.

Lemma safe_explicit : compiledExplicit (compile DEFAULT_SAFE_SCHEMA) =
  [type_str; type_seq; type_map; type_binary; type_omap; type_pairs; type_set].
Proof. reflexivity. Qed.

(** No type of the default safe schema is detected in a string. *)
Lemma string_undetected h str explicit cfg s : d_schema cfg = compile DEFAULT_SAFE_SCHEMA ->
  detectType cfg h (VStr str) explicit s = Done false s.
Proof.
  intros Hs. unfold detectType. rewrite Hs. apply detect_none.
  destruct explicit; [rewrite safe_explicit|rewrite safe_implicit]; repeat constructor.
Qed.

Lemma safeDump_string h s o :
  exists s', safeDump h (VStr s) o =
    Done (scalar_text (make_dconfig DEFAULT_SAFE_SCHEMA o) h s 0 false ++ [10]) s'.
Proof.
  unfold safeDump, dump. set (cfg := make_dconfig DEFAULT_SAFE_SCHEMA o).
  set (dups := if d_noRefs cfg then [] else getDuplicateReferences h (VStr s)).
  set (s0 := DState None VUndef (replicate (length dups) false)).
  set (txt := scalar_text cfg h s 0 false).
  exists (DState None (VStr txt) (replicate (length dups) false)).
  erewrite bind_Done with (a := true) (s' := DState None (VStr txt) (replicate (length dups) false)); [done|].
  cbn [writeNode]. unfold writeNode_body, modify. erewrite bind_Done by done.
  erewrite bind_Done by (by apply string_undetected). cbv iota.
  erewrite bind_Done with (a := tt) (s' := DState None (VStr s) (replicate (length dups) false)).
  2: { by erewrite bind_Done by (by apply string_undetected). }
  done.
Qed.

Lemma scan_multi_facts s rest : forall i lw plain lb fl prev p fl' prev',
  scan_multi s rest i lw plain lb fl prev = Some (p, false, fl', prev') ->
  lb = false /\ Forall (fun c => isPrintable c = true) rest /\
  (p = true -> plain = true /\ Forall (fun c => isPlainSafe c = true) rest).
Proof.
  induction rest as [|c rest IH]; intros i lw plain lb fl prev p fl' prev'; cbn [scan_multi].
  - by intros [= -> -> _ _].
  - destruct (c =? 10); [by intros (? & _)%IH|]. destruct (isPrintable c) eqn:Hc; [cbn [negb]|done].
    intros (Hlb & HF & Hp)%IH. split; [done|]. split; [by constructor|].
    intros [H1 H2]%Hp. bool_hyps. split; [done|by constructor].
Qed.

Lemma scan_single_facts rest : forall plain p,
  scan_single rest plain = Some p ->
  Forall (fun c => isPrintable c = true) rest /\
  (p = true -> plain = true /\ Forall (fun c => isPlainSafe c = true) rest).
Proof.
  induction rest as [|c rest IH]; intros plain p; cbn [scan_single].
  - by intros [= ->].
  - destruct (isPrintable c) eqn:Hc; [cbn [negb]|done].
    intros (HF & Hp)%IH. split; [by constructor|].
    intros [H1 H2]%Hp. bool_hyps. split; [done|by constructor].
Qed.

(** What the choice of a style says of the string. *)
Definition style_facts (s : jsstr) (ambiguous : bool) (st : style) : Prop :=
  match st with
  | STYLE_PLAIN => isPlainSafeFirst (charCodeAt s 0) = true /\ isWhitespace (charCodeAt s (slen s - 1)) = false /\
      Forall (fun c => isPlainSafe c = true) s /\ ambiguous = false
  | STYLE_SINGLE => Forall (fun c => isPrintable c = true) s
  | _ => True
  end.

Lemma choose_facts s single ind lw f :
  style_facts s (f s) (chooseScalarStyle s single ind lw f).
Proof.
  unfold chooseScalarStyle.
  set (pl := isPlainSafeFirst (charCodeAt s 0) && negb (isWhitespace (charCodeAt s (slen s - 1)))).
  destruct (if single then _ else _) as [[[p lb] fl]|] eqn:E; [|done].
  destruct lb; [cbn [negb andb]; repeat case_match; done|].
  assert (Forall (fun c => isPrintable c = true) s /\
    (p = true -> pl = true /\ Forall (fun c => isPlainSafe c = true) s)) as [H1 H2].
  { destruct single.
    - apply fmap_Some in E as (p' & E & [= -> ->]). by apply scan_single_facts.
    - apply fmap_Some in E as ([[[p' lb'] fl''] prev] & E & [= -> <- _]).
      apply scan_multi_facts in E. tauto. }
  destruct fl; [cbn [negb andb]; repeat case_match; done|]. cbn [negb andb].
  destruct p; [|done]. cbn [andb]. destruct (f s) eqn:Ef; [done|]. cbn [negb style_facts].
  destruct (H2 eq_refl) as [Hpl HF]. unfold pl in Hpl. bool_hyps. done.
Qed.

(** ** The round trip *)

Section RoundTrip.
Context (dateString : Z -> jsstr) (bi : builtins) (onWarning json : bool).

(** The configuration in which a dumped line is loaded. *)
Definition line_config (text : jsstr) : config :=
  make_config (text ++ [10]) (safe_options dateString bi onWarning false json).

(** The line loads as the string. *)
Definition loads (text str : jsstr) : Prop :=
  exists s, safeLoad dateString bi (text ++ [10]) onWarning false json = Done (VStr str) s.

Lemma line_input text c0 : text !! 0%nat = Some c0 -> c0 <> 65279 ->
  c_input (line_config text) = text ++ [10; 0] /\ c_length (line_config text) = slen text + 1.
Proof.
  intros H0 Hc. unfold line_config, make_config. cbn [c_input c_length].
  assert (prepare (text ++ [10]) = text ++ [10]) as ->.
  - unfold prepare. destruct text as [|d text]; [done|]. cbn [app].
    assert (charCodeAt (d :: text ++ [10]) (slen (d :: text ++ [10]) - 1) = 10) as ->.
    { unfold charCodeAt, slen. cbn [length]. rewrite length_app. simpl length.
      destruct (Z.ltb_spec (Z.of_nat (S (length text + 1)) - 1) 0); [lia|].
      replace (Z.to_nat _) with (S (length text)) by lia. simpl.
      by rewrite lookup_app_r, Nat.sub_diag by lia. }
    cbn [orb Z.eqb Pos.eqb]. injection H0 as ->.
    change (charCodeAt (c0 :: text ++ [10]) 0) with c0. by destruct (Z.eqb_spec c0 65279).
  - rewrite <- app_assoc. split; [done|]. unfold slen. rewrite length_app. simpl. lia.
Qed.

Lemma line_loads text c0 str s2 :
  text !! 0%nat = Some c0 -> c0 <> 65279 -> starts_scalar c0 = true ->
  (forall comp, composeNode_body (line_config text) comp 0 CONTEXT_FLOW_OUT false true inner = Done true s2) ->
  (l_position s2 = slen text /\ l_line s2 = 0) \/
  (l_position s2 = slen text + 1 /\ l_lineStart s2 = slen text + 1 /\ l_line s2 <> 0) ->
  l_result s2 = VStr str -> l_documents s2 = [] -> l_checkLineBreaks s2 = false ->
  loads text str.
Proof.
  intros H0 Hbom Hst Hc Hpos Hr Hd Hclb. destruct (line_input text c0 H0 Hbom) as [Hin Hlen].
  destruct (fuel_pos (line_config text) text Hin) as [n Hn].
  destruct (document_loads (line_config text) text c0 Hin Hlen eq_refl H0 Hst str s2
    (S (S (n + (n + 2))))) as [s3 E]; try done.
  - unfold depth. rewrite Hn. lia.
  - exists s3. unfold safeLoad, load, loadDocuments. fold (line_config text). by rewrite E.
Qed.

Lemma loads_double s : Forall code_unit s -> loads (34 :: escapeString s ++ [34]) s.
Proof.
  intros HF. destruct (line_input (34 :: escapeString s ++ [34]) 34 eq_refl ltac:(done)) as [Hin Hlen].
  eapply (line_loads _ 34); [done|done|done|intros comp| | | |].
  - apply (inner_double _ _ 34 Hin eq_refl eq_refl comp s eq_refl HF).
  - by left.
  - done.
  - done.
  - done.
Qed.

Lemma loads_single s : Forall (fun c => isPrintable c = true) s -> loads (39 :: double_quotes s ++ [39]) s.
Proof.
  intros HF. destruct (line_input (39 :: double_quotes s ++ [39]) 39 eq_refl ltac:(done)) as [Hin Hlen].
  eapply (line_loads _ 39); [done|done|done|intros comp| | | |].
  - apply (inner_single _ _ 39 Hin eq_refl eq_refl comp s eq_refl HF).
  - by left.
  - done.
  - done.
  - done.
Qed.

(** [...] followed by white space or the end: the end mark of a document. *)
Definition end_marker (s : jsstr) : bool :=
  match s with
  | 46 :: 46 :: 46 :: rest => match rest with [] => true | c :: _ => is_WS_OR_EOL c || (c =? 0) end
  | _ => false
  end.

Lemma plain_first s : isPlainSafeFirst (charCodeAt s 0) = true -> exists c0, s !! 0%nat = Some c0 /\
  isPlainSafeFirst c0 = true /\ c0 <> 65279 /\ starts_scalar c0 = true.
Proof.
  intros H. destruct s as [|c0 s]; [done|]. change (charCodeAt (c0 :: s) 0) with c0 in H.
  exists c0. split; [done|]. split; [done|].
  unfold isPlainSafeFirst, isWhitespace in H. bool_hyps.
  match goal with H : isPrintable c0 = true |- _ => pose proof (isPrintable_range c0 H) as [Hr _] end.
  split; [done|]. unfold starts_scalar, is_WS_OR_EOL. apply negb_true_iff. bool_arith.
Qed.

Lemma plain_last s : s <> [] -> isWhitespace (charCodeAt s (slen s - 1)) = false ->
  exists body c1, s = body ++ [c1] /\ is_WHITE_SPACE c1 = false.
Proof.
  intros Hs. destruct s as [|c1 body _] using rev_ind; [done|]. intros H. exists body, c1. split; [done|].
  unfold charCodeAt, slen in H. rewrite length_app in H. simpl length in H.
  destruct (Z.ltb_spec (Z.of_nat (length body + 1) - 1) 0); [lia|].
  replace (Z.to_nat _) with (length body) in H by lia.
  rewrite lookup_app_r, Nat.sub_diag in H by lia. simpl in H. unfold isWhitespace, is_WHITE_SPACE in *.
  bool_hyps. bool_arith.
Qed.

Lemma no_separator s c0 : c_input (line_config s) = s ++ [10; 0] -> s !! 0%nat = Some c0 -> c0 <> 45 ->
  Forall (fun c => isPlainSafe c = true) s -> end_marker s = false ->
  testDocumentSeparator (line_config s) 0 = false.
Proof.
  intros Hin H0 H45 HF Hm. unfold testDocumentSeparator, at_. rewrite Hin.
  destruct s as [|a s]; [done|]. injection H0 as ->. change (charCodeAt ((c0 :: s) ++ [10; 0]) 0) with c0.
  destruct (Z.eqb_spec c0 45); [done|]. destruct (Z.eqb_spec c0 46) as [->|]; [|done]. cbn [orb andb].
  change (charCodeAt ((46 :: s) ++ [10; 0]) (0 + 1)) with (charCodeAt (s ++ [10; 0]) 0).
  destruct s as [|b s]; [done|]. change (charCodeAt ((b :: s) ++ [10; 0]) 0) with b.
  destruct (Z.eqb_spec 46 b) as [<-|]; [|done].
  change (charCodeAt ((46 :: 46 :: s) ++ [10; 0]) (0 + 2)) with (charCodeAt (s ++ [10; 0]) 0).
  destruct s as [|c s]; [done|]. change (charCodeAt ((c :: s) ++ [10; 0]) 0) with c.
  destruct (Z.eqb_spec 46 c) as [<-|]; [|done]. cbn [andb].
  change (charCodeAt ((46 :: 46 :: 46 :: s) ++ [10; 0]) (0 + 3)) with (charCodeAt (s ++ [10; 0]) 0).
  destruct s as [|d s]; [done|]. change (charCodeAt ((d :: s) ++ [10; 0]) 0) with d.
  cbn [end_marker] in Hm. by rewrite orb_comm.
Qed.

Lemma loads_plain o h s :
  style_facts s (testImplicitResolving (make_dconfig DEFAULT_SAFE_SCHEMA o) h s) STYLE_PLAIN ->
  end_marker s = false -> loads s s.
Proof.
  intros (Hf & Hw & HF & Hamb) Hm. destruct (plain_first s Hf) as (c0 & H0 & Hf0 & Hbom & Hst).
  destruct (line_input s c0 H0 Hbom) as [Hin Hlen].
  destruct (plain_last s) as (body & c1 & Hb & Hc1); [by intros -> | done |].
  assert (Hsep : testDocumentSeparator (line_config s) 0 = false).
  { apply (no_separator s c0); [done|done| |done|done]. unfold isPlainSafeFirst in Hf0. by bool_hyps. }
  eapply (line_loads s c0); [done|done|done|intros comp| | | |].
  - apply (inner_plain _ s c0 Hin H0 Hst Hsep comp body c1); [done|done|done|done|].
    unfold testImplicitResolving in Hamb. exact Hamb.
  - by right.
  - done.
  - done.
  - done.
Qed.

(** The text opens a literal or folded block scalar. *)
Definition block_header (text : jsstr) : bool :=
  match text with c :: _ => (c =? 124) || (c =? 62) | [] => false end.

Lemma deprecated_printable s : s ∈ DEPRECATED_BOOLEANS_SYNTAX ->
  double_quotes s = s /\ Forall (fun c => isPrintable c = true) s.
Proof.
  intros H. cut (Forall (fun s => double_quotes s = s /\ Forall (fun c => isPrintable c = true) s)
    DEPRECATED_BOOLEANS_SYNTAX); [by intros HF; rewrite Forall_forall in HF; apply HF, list_elem_of_In|].
  repeat constructor.
Qed.

Lemma scalar_text_loads o h s : Forall code_unit s -> end_marker s = false ->
  let text := scalar_text (make_dconfig DEFAULT_SAFE_SCHEMA o) h s 0 false in
  block_header text = false -> loads text s.
Proof.
  intros HF Hm text. subst text. unfold scalar_text. set (dc := make_dconfig DEFAULT_SAFE_SCHEMA o).
  destruct (Z.eqb_spec (slen s) 0) as [E|_].
  { intros _. destruct s; [|unfold slen in E; simpl in E; lia]. apply (loads_single []). constructor. }
  destruct (negb _ && bool_decide _) eqn:E.
  { bool_hyps. match goal with H : bool_decide _ = true |- _ => apply bool_decide_eq_true in H; rename H into Hs end.
    destruct (deprecated_printable s Hs) as [E Hp]. intros _. rewrite <- E at 1. by apply loads_single. }
  match goal with |- context [chooseScalarStyle s ?a ?b ?c ?d] =>
    pose proof (choose_facts s a b c d) as Hst; destruct (chooseScalarStyle s a b c d) end.
  - intros _. exact (loads_plain o h s Hst Hm).
  - intros _. by apply loads_single.
  - done.
  - done.
  - intros _. by apply loads_double.
Qed.
End RoundTrip.

(** C2: for every string of UTF-16 code units, whatever the dump options,
    [safeDump] produces a text and, unless that text is a literal or folded block
    scalar or the string is a document end mark, [safeLoad] of the text is the
    string: plain text is not taken for another type, quoting and every escape
    are undone. *)
Theorem string_dump_load (o : doptions) (h : heap) (s : jsstr)
    (dateString : Z -> jsstr) (bi : builtins) (onWarning json : bool) :
  Forall code_unit s -> end_marker s = false ->
  exists text s1, safeDump h (VStr s) o = Done text s1 /\
    (block_header text = false ->
     exists s2, safeLoad dateString bi text onWarning false json = Done (VStr s) s2).
Proof.
  intros HF Hm. destruct (safeDump_string h s o) as [s1 E]. eexists _, s1. split; [exact E|]. intros Hb.
  apply scalar_text_loads; [done|done|].
  by destruct (scalar_text (make_dconfig DEFAULT_SAFE_SCHEMA o) h s 0 false) as [|c t].
Qed.

Lemma string_dump_load_witness :
  exists text s1, safeDump [] (VStr (js "true")) default_doptions = Done text s1 /\
    (block_header text = false ->
     exists s2, safeLoad (fun _ => []) plain_builtins text false false false = Done (VStr (js "true")) s2).
Proof.
  apply (string_dump_load default_doptions [] (js "true")); [|reflexivity].
  apply (bool_decide_unpack _). reflexivity.
Defined.

(** A string that is a document end mark does not survive: it is written
    plain and read back as an empty document. *)
Theorem end_marker_lost :
  (exists s1, safeDump [] (VStr (js "...")) default_doptions = Done (js "..." ++ [10]) s1) /\
  (exists s2, safeLoad (fun _ => []) plain_builtins (js "..." ++ [10]) false false false = Done VNull s2).
Proof. split; eexists; vm_compute; reflexivity. Qed.
