(* ===== verification/YamlEdge.v ===== *)
(** Edge cases of the YAML loader and dumper, on concrete documents. *)
From S2P Require Import Prelude JsString JsNumber JsRegex YamlValue YamlTypes YamlSchema YamlLoader YamlDumper.

Section Edge.
Context {engine : JsEngine} (dateString : Z -> jsstr) (b : builtins) (rt : runtime).

(** without an iterator, [safeLoadAll] passes its options where [loadAll]
    takes the iterator, so the documents are loaded with the full schema: a tag
    that [safeLoad] rejects is constructed. *)
Theorem safeLoadAll_full_schema :
  (exists s, safeLoadAll dateString b rt (js "!!js/undefined ''") false false false false = Done [VUndef] s) /\
  (exists mark s, safeLoad dateString b (js "!!js/undefined ''") false false false =
     Raise (YAMLException (js "unknown tag !<tag:yaml.org,2002:js/undefined>") mark) s).
Proof. split; [eexists|eexists _, _]; vm_compute; reflexivity. Qed.

(** An anchor named [hasOwnProperty] shadows the method that aliases are
    looked up with: the next alias is a TypeError. *)
Theorem anchor_hasOwnProperty :
  exists s, safeLoad dateString b (js "[&hasOwnProperty a, *hasOwnProperty]") false false false =
    Raise (TypeError "state.anchorMap.hasOwnProperty is not a function") s.
Proof. eexists. vm_compute. reflexivity. Qed.

(** A [__proto__] key makes no entry. *)
Theorem proto_key_lost :
  exists s, safeLoad dateString b (js "{__proto__: a, b: c}") false false false = Done (VRef 2) s /\
    l_heap s !! 2%nat = Some (OObj [(js "b", VStr (js "c"))]).
Proof. eexists. vm_compute. split; reflexivity. Qed.
(** A mapping as a key is asked for its text: with a property [toString] that is no function, and
    with the prototype null, it has none. *)
Example key_without_text :
  (exists s, safeLoad dateString plain_builtins (js "? {toString: x}") false false false =
     Raise (TypeError "Cannot convert object to primitive value") s) /\
  (exists s, safeLoad dateString plain_builtins (js "? {__proto__: null}") false false false =
     Raise (TypeError "Cannot convert object to primitive value") s).
Proof. split; eexists; vm_compute; reflexivity. Qed.

(** The prototype that [__proto__] gives a mapping is asked as well, and must not lead back. *)
Example key_with_prototype :
  (exists s, safeLoad dateString plain_builtins (js "? {__proto__: {a: b}}") false false false = Done (VRef 1) s /\
     l_heap s !! 1%nat = Some (OObj [(js "[object Object]", VNull)])) /\
  (exists s, safeLoad dateString plain_builtins (js "? {__proto__: {toString: x}}") false false false =
     Raise (TypeError "Cannot convert object to primitive value") s) /\
  (exists s, safeLoad dateString plain_builtins (js "&a {__proto__: *a}") false false false = Raise (TypeError "Cyclic __proto__ value") s).
Proof. split; [|split]; eexists; vm_compute; repeat split; reflexivity. Qed.
End Edge.

(** With [condenseFlow], the separator of a flow mapping lands inside the
    quotes of the key. *)
Theorem condense_flow_separator :
  let h := [OObj [(js "a", VNum (of_Z 1)); (js "b", VNum (of_Z 2))]] in
  let o := DOptions 0 false (Some 0) [] SortNone 0 false false true in
  exists s, safeDump h (VRef 0) o = Done (js "{" ++ 34 :: js "a" ++ 34 :: js ":1" ++ 34 :: js ", b" ++ 34 :: js ":2}" ++ [10]) s.
Proof. cbv zeta. eexists. vm_compute. reflexivity. Qed.

(** With [skipInvalid], a flow sequence whose first element is skipped keeps
    the separator of the second. *)
Theorem skipped_first_element :
  let h := [OArr [VUndef; VNum (of_Z 1)]] in
  let o := DOptions 0 true (Some 0) [] SortNone 0 false false false in
  exists s, safeDump h (VRef 0) o = Done (js "[, 1]" ++ [10]) s.
Proof. cbv zeta. eexists. vm_compute. reflexivity. Qed.
