(* ===== verification/YamlTotal.v ===== *)
(** The YAML loader terminates: on every input, with every schema and option, the
    fuel of its loops and of its recursion is enough, where the functions it calls return. *)
From S2P Require Import Prelude JsString JsNumber JsRegex Base64Js YamlValue YamlTypes YamlSchema YamlLoader.

(** ** Runs that do not run out of fuel *)

(** The computation returns with [Q] or throws. *)
Definition ok {A} (m : L A) (s : lstate) (Q : A -> lstate -> Prop) : Prop :=
  match m s with Done a s' => Q a s' | Raise _ _ => True | NoFuel => False end.

Lemma ok_bind {A B} (m : L A) (k : A -> L B) s Q :
  ok m s (fun a s' => ok (k a) s' Q) -> ok (bind m k) s Q.
Proof. unfold ok, bind. by destruct (m s). Qed.

Lemma ok_assoc {A B C} (m : L A) (f : A -> L B) (k : B -> L C) s Q :
  ok (bind (bind m f) k) s Q -> ok (bind m (fun a => bind (f a) k)) s Q.
Proof. unfold ok, bind. by destruct (m s). Qed.

Lemma ok_conseq {A} (m : L A) s (P Q : A -> lstate -> Prop) :
  ok m s P -> (forall a s', P a s' -> Q a s') -> ok m s Q.
Proof. unfold ok. destruct (m s); auto. Qed.

Lemma ok_ret {A} (a : A) s (Q : A -> lstate -> Prop) : Q a s -> ok (ret a) s Q.
Proof. done. Qed.
Lemma ok_gets {A} (f : lstate -> A) s (Q : A -> lstate -> Prop) : Q (f s) s -> ok (gets f) s Q.
Proof. done. Qed.
Lemma ok_modify f s (Q : unit -> lstate -> Prop) : Q tt (f s) -> ok (modify f) s Q.
Proof. done. Qed.
Lemma ok_throw {A} e s (Q : A -> lstate -> Prop) : ok (throw e) s Q.
Proof. done. Qed.
Lemma ok_throwError {A} msg s (Q : A -> lstate -> Prop) : ok (throwError msg) s Q.
Proof. done. Qed.
Lemma ok_throwErrorS {A} msg s (Q : A -> lstate -> Prop) : ok (throwErrorS msg) s Q.
Proof. done. Qed.
Lemma ok_mwhen b m s (Q : unit -> lstate -> Prop) :
  (b = true -> ok m s Q) -> (b = false -> Q tt s) -> ok (mwhen b m) s Q.
Proof. destruct b; unfold mwhen; [auto|]. intros _ H. by apply ok_ret, H. Qed.

(** Every function that is called returns or throws. *)
Definition calls_return (rt : runtime) : Prop := forall f this args st, rt_call rt f this args st <> None.

Section Total.
Context (cfg : config) (N : Z).
Hypothesis Hlen : c_length cfg = N.
Hypothesis HN : 0 <= N.
Hypothesis Hinput : Z.of_nat (length (c_input cfg)) = N + 1.
Hypothesis Hend : at_ cfg N = 0.
Hypothesis Hlast : N = 0 \/ at_ cfg (N - 1) = 10 \/ at_ cfg (N - 1) = 13.
Hypothesis Hcalls : calls_return (c_runtime cfg).

(** Positions in the input; at the start of a line nothing is indented yet. *)
Definition inv (s : lstate) : Prop :=
  0 <= l_lineStart s <= l_position s /\ l_position s <= N /\
  (0 <= l_lineIndent s /\ (l_lineStart s = l_position s -> l_lineIndent s = 0)).

Definition tagged (s : lstate) : Prop := l_tag s <> None \/ l_anchor s <> None.

(** The position never goes back; while it stays, so does the line, and no tag or
    anchor appears. *)
Definition rel (s s' : lstate) : Prop :=
  l_position s <= l_position s' /\
  (l_position s' = l_position s -> l_lineStart s' = l_lineStart s /\ l_lineIndent s' = l_lineIndent s /\ (tagged s' -> tagged s)).

Definition good (s s' : lstate) : Prop := inv s' /\ rel s s'.

Lemma rel_refl s : rel s s.
Proof. unfold rel. auto with lia. Qed.

Lemma rel_trans s1 s2 s3 : rel s1 s2 -> rel s2 s3 -> rel s1 s3.
Proof.
  intros [H1 H2] [H3 H4]. split; [lia|]. intros E. destruct H2 as (E1 & E2 & E3); [lia|].
  destruct H4 as (E4 & E5 & E6); [lia|]. split; [congruence|]. split; [congruence|]. auto.
Qed.

Lemma rel_moved s s' : l_position s < l_position s' -> rel s s'.
Proof. intros H. split; lia. Qed.

Lemma good_trans s1 s2 s3 : good s1 s2 -> good s2 s3 -> good s1 s3.
Proof. intros [_ H1] [H2 H3]. split; [done|]. by apply (rel_trans s1 s2 s3). Qed.

Lemma good_refl s : inv s -> good s s.
Proof. intros H. split; [done|apply rel_refl]. Qed.

(** Updates that leave position, line, tag and anchor alone. *)
Definition same (s s' : lstate) : Prop :=
  l_position s' = l_position s /\ l_lineStart s' = l_lineStart s /\ l_lineIndent s' = l_lineIndent s /\
  l_tag s' = l_tag s /\ l_anchor s' = l_anchor s.

Lemma good_same s s1 s2 : good s s1 -> same s1 s2 -> good s s2.
Proof.
  intros [Hi [H1 H2]] (E1 & E2 & E3 & E4 & E5). unfold good, inv, rel, tagged in *. rewrite E1, E2, E3, E4, E5. auto.
Qed.

Lemma at_nonzero s : inv s -> at_ cfg (l_position s) <> 0 -> l_position s < N.
Proof. intros (_ & H & _) Hc. destruct (Z.eq_dec (l_position s) N) as [E|]; [by rewrite E in Hc|lia]. Qed.

(** The position after a character. *)
Lemma good_move s s1 : good s s1 -> at_ cfg (l_position s1) <> 0 ->
  good s (set_position (l_position s1 + 1) s1) /\ l_position s < l_position (set_position (l_position s1 + 1) s1).
Proof.
  intros [Hi [H1 H2]] Hc. pose proof (at_nonzero s1 Hi Hc). destruct Hi as (H3 & H4 & H5).
  unfold good, inv, rel. simpl. repeat split; try lia.
Qed.

(** *** Specifications of the primitives *)

Lemma ch_ok s (Q : Z -> lstate -> Prop) : Q (at_ cfg (l_position s)) s -> ok (ch cfg) s Q.
Proof. done. Qed.

Lemma move_ok s : inv s -> at_ cfg (l_position s) <> 0 ->
  ok (move 1) s (fun _ s' => good s s' /\ l_position s' = l_position s + 1).
Proof.
  intros Hi Hc. destruct (good_move s s (good_refl s Hi) Hc) as [H1 H2]. by split.
Qed.

Lemma next_ok s : inv s -> at_ cfg (l_position s) <> 0 ->
  ok (next cfg) s (fun c s' => good s s' /\ l_position s' = l_position s + 1 /\ c = at_ cfg (l_position s')).
Proof. intros Hi Hc. apply ok_bind. eapply ok_conseq; [by apply move_ok|]. intros _ s' [H1 H2]. by apply ch_ok. Qed.

Lemma same_ok f s : inv s -> same s (f s) -> ok (modify f) s (fun _ s' => good s s' /\ same s s').
Proof. intros Hi Hs. apply ok_modify. split; [|done]. by apply (good_same s s). Qed.

Lemma same_refl s : same s s.
Proof. done. Qed.

(** Symbolic execution: one step. *)
Ltac wp :=
  lazymatch goal with
  | |- ok (bind _ _) _ _ => apply ok_bind
  | |- ok (throwError _) _ _ => apply ok_throwError
  | |- ok (throwErrorS _) _ _ => apply ok_throwErrorS
  | |- ok (throw _) _ _ => apply ok_throw
  | |- ok (gets _) _ _ => apply ok_gets
  | |- ok (ret _) _ _ => apply ok_ret
  | |- ok (ch _) _ _ => apply ch_ok
  | |- ok (mwhen _ _) _ _ => apply ok_mwhen; intros ?
  | |- ok (if negb true then _ else _) _ _ => change (negb true) with false; cbv iota
  | |- ok (if negb false then _ else _) _ _ => change (negb false) with true; cbv iota
  | |- ok (if ?b then _ else _) _ _ => destruct b eqn:?
  | |- ok (match ?x with _ => _ end) _ _ => destruct x eqn:?
  end.

(** Use a specification for the first computation. *)
Ltac use H := eapply ok_conseq; [eapply H|cbv beta].

(** Chains of states. *)
Ltac chain :=
  match goal with
  | |- good ?s ?s => apply good_refl; assumption
  | H : good ?a ?b |- good ?a ?b => exact H
  | H : good ?b ?c |- good ?a ?c => apply (good_trans a b c); [chain|exact H]
  end.

Lemma good_inv s s' : good s s' -> inv s'.
Proof. by intros [? _]. Qed.
Lemma good_pos s s' : good s s' -> l_position s <= l_position s'.
Proof. by intros [_ [? _]]. Qed.

(** The invariant of a state of the context, and positions of chained states. *)
Ltac have_inv := first [assumption | eapply good_inv; eassumption].
Ltac positions :=
  repeat match goal with
  | H : good ?a ?b |- _ =>
      lazymatch goal with
      | _ : l_position a <= l_position b |- _ => fail
      | _ => pose proof (good_pos a b H)
      end
  end.

Lemma fuel_enough s : inv s -> N - l_position s < Z.of_nat (fuel cfg) - 1.
Proof. intros [? _]. unfold fuel. lia. Qed.

(** *** Characters *)

Lemma seek_fuel_ok p n : p 0 = false -> forall s, inv s -> N - l_position s < Z.of_nat n ->
  ok (seek_fuel cfg n p) s (fun c s' => good s s' /\ c = at_ cfg (l_position s') /\ p c = false /\
    (if p (at_ cfg (l_position s)) then l_position s < l_position s' else s' = s)).
Proof.
  intros Hp. induction n as [|n IH]; intros s Hi Hn; [destruct Hi as (? & ? & _); lia|].
  cbn [seek_fuel]. wp. wp. destruct (p (at_ cfg (l_position s))) eqn:Hc.
  - assert (Hz : at_ cfg (l_position s) <> 0) by (intros E; by rewrite E, Hp in Hc).
    wp. use move_ok; [done|done|]. intros _ s1 [G E]. use IH; [have_inv|lia|].
    intros c s2 (G2 & H1 & H2 & _). positions. split; [chain|]. repeat split; [done|done|]. lia.
  - wp. split; [by apply good_refl|]. repeat split; done.
Qed.

Lemma seek_ok p s : p 0 = false -> inv s ->
  ok (seek cfg p) s (fun c s' => good s s' /\ c = at_ cfg (l_position s') /\ p c = false /\
    (if p (at_ cfg (l_position s)) then l_position s < l_position s' else s' = s)).
Proof. intros Hp Hi. apply seek_fuel_ok; [done|done|]. pose proof (fuel_enough s Hi). lia. Qed.

Lemma warning_ok msg s : inv s -> ok (throwWarningS cfg msg) s (fun _ s' => good s s' /\ same s s').
Proof.
  intros Hi. unfold throwWarningS. destruct (c_onWarning cfg); [by apply same_ok|]. wp. split; [by apply good_refl|done].
Qed.

Lemma append_ok x s : inv s -> ok (append x) s (fun _ s' => good s s' /\ same s s').
Proof. intros Hi. by apply same_ok. Qed.

Lemma capture_ok a b j s : inv s -> ok (captureSegment cfg a b j) s (fun _ s' => good s s' /\ same s s').
Proof.
  intros Hi. unfold captureSegment. repeat (wp || (by apply append_ok)); (split; [by apply good_refl|done]).
Qed.

(** *** Lines *)

(** Right behind a line break; the indentation is not reset yet. *)
Definition broken (s s' : lstate) : Prop :=
  l_position s < l_position s' <= N /\ l_lineStart s' = l_position s' /\ 0 <= l_position s.

Lemma readLineBreak_ok s : inv s -> ok (readLineBreak cfg) s (fun _ s' => broken s s').
Proof.
  intros Hi. unfold readLineBreak. wp. wp. wp.
  destruct (Z.eqb_spec (at_ cfg (l_position s)) 10) as [E|_].
  - use move_ok; [done|by rewrite E|]. intros _ s1 [G E1]. pose proof (good_inv _ _ G) as (H1 & H2 & _).
    apply ok_modify. unfold broken. destruct Hi. simpl. lia.
  - destruct (Z.eqb_spec (at_ cfg (l_position s)) 13) as [E|_]; [|wp].
    wp. use move_ok; [done|by rewrite E|]. intros _ s1 [G E1]. pose proof (good_inv _ _ G) as Hi1. wp. wp. wp.
    + match goal with H : _ = true |- _ => apply Z.eqb_eq in H; rename H into E2 end.
      use move_ok; [done|by rewrite E2|]. intros _ s2 [G2 E3]. pose proof (good_inv _ _ G2) as (H1 & H2 & _).
      apply ok_modify. unfold broken. destruct Hi. simpl. lia.
    + apply ok_modify. unfold broken. destruct Hi as [? _], Hi1 as (? & ? & _). simpl. lia.
Qed.

Lemma broken_reset s s' : broken s s' -> good s (set_lineIndent 0 s').
Proof. intros (H1 & H2 & H3). unfold good, inv, rel. simpl. lia. Qed.

(** An indentation character counted and skipped. *)
Lemma good_indent s : inv s -> at_ cfg (l_position s) <> 0 ->
  let s' := set_position (l_position s + 1) (set_lineIndent (l_lineIndent s + 1) s) in
  good s s' /\ l_position s' = l_position s + 1.
Proof.
  intros Hi Hc. pose proof (at_nonzero s Hi Hc). destruct Hi as (H1 & H2 & H3 & _). unfold good, inv, rel. simpl. lia.
Qed.

Lemma indent_loop_ok n : forall s, inv s -> N - l_position s < Z.of_nat n ->
  ok (indent_loop cfg n) s (fun _ s' => good s s').
Proof.
  induction n as [|n IH]; intros s Hi Hn; [destruct Hi as (? & ? & _); lia|]. cbn [indent_loop]. wp. wp.
  destruct (Z.eqb_spec (at_ cfg (l_position s)) 32) as [E|_]; [|wp; by apply good_refl].
  destruct (good_indent s Hi ltac:(by rewrite E)) as [G Ep]. wp. apply ok_modify. wp. unfold move. apply ok_modify.
  simpl l_position at 1. use IH; [have_inv|simpl in *; lia|]. intros _ s2 G2. chain.
Qed.

Lemma text_indent_ok n d t : forall s, inv s -> N - l_position s < Z.of_nat n ->
  ok (text_indent_loop cfg n d t) s (fun _ s' => good s s').
Proof.
  induction n as [|n IH]; intros s Hi Hn; [destruct Hi as (? & ? & _); lia|]. cbn [text_indent_loop]. wp. wp. wp. wp.
  destruct ((negb d || _) && _) eqn:E; [|wp; by apply good_refl]. bool_hyps.
  match goal with H : at_ _ _ = 32 |- _ => rename H into E32 end.
  destruct (good_indent s Hi ltac:(by rewrite E32)) as [G Ep]. wp. apply ok_modify. wp. unfold move. apply ok_modify.
  simpl l_position at 1. use IH; [have_inv|simpl in *; lia|]. intros _ s2 G2. chain.
Qed.

(** Behind separation space there is neither white space nor a line break. *)
Definition stopped (s : lstate) : Prop := is_WS_OR_EOL (at_ cfg (l_position s)) = false.

Lemma stops c : is_WHITE_SPACE c = false -> is_EOL c = false -> is_WS_OR_EOL c = false.
Proof. unfold is_WHITE_SPACE, is_EOL, is_WS_OR_EOL. intros. bool_hyps. bool_arith. Qed.

Lemma not_eol_white c : not_eol_nul c = false -> is_WHITE_SPACE c = false.
Proof.
  unfold not_eol_nul, is_EOL, is_WHITE_SPACE. intros H. destruct (Z.eqb_spec c 9) as [->|]; [done|].
  destruct (Z.eqb_spec c 32) as [->|]; [done|]. done.
Qed.

(** White space and, with comments, a comment: the next character. *)
Lemma blanks_ok ac s : inv s ->
  ok (let! c := seek cfg is_WHITE_SPACE in
      if ac && (c =? 35) then do! move 1; seek cfg not_eol_nul else ret c) s
    (fun c s' => good s s' /\ c = at_ cfg (l_position s') /\ is_WHITE_SPACE c = false /\
      (is_EOL (at_ cfg (l_position s)) = true -> s' = s)).
Proof.
  intros Hi. wp. use seek_ok; [done|done|]. intros c s1 (G1 & Hc & Hw & Hs).
  assert (He : is_EOL (at_ cfg (l_position s)) = true -> s1 = s /\ c <> 35).
  { intros E. destruct (is_WHITE_SPACE (at_ cfg (l_position s))) eqn:E1.
    - exfalso. unfold is_EOL, is_WHITE_SPACE in *. apply orb_true_iff in E as [E|E]; apply Z.eqb_eq in E; rewrite E in E1; done.
    - subst. split; [done|]. intros E2. by rewrite E2 in E. }
  wp.
  - bool_hyps. wp. use move_ok; [have_inv|congruence|]. intros _ s2 [G2 _]. use seek_ok; [done|have_inv|].
    intros c' s3 (G3 & Hc' & Hn & _). split; [chain|]. split; [done|]. split; [by apply not_eol_white|].
    intros E. destruct (He E). congruence.
  - wp. split; [done|]. repeat split; [done|done|]. intros E. by destruct (He E).
Qed.

Lemma separation_loop_ok n ac : forall k s, inv s -> N - l_position s < Z.of_nat n ->
  ok (separation_loop cfg n ac k) s (fun k' s' => good s s' /\ stopped s' /\
    (is_EOL (at_ cfg (l_position s)) = true -> l_position s < l_position s')).
Proof.
  induction n as [|n IH]; intros k s Hi Hn; [destruct Hi as (? & ? & _); lia|]. cbn [separation_loop]. wp. wp.
  destruct (Z.eqb_spec (at_ cfg (l_position s)) 0) as [E|Hz].
  { wp. split; [by apply good_refl|]. unfold stopped. rewrite E. done. }
  apply (ok_assoc _ (fun c => if ac && (c =? 35) then do! move 1; seek cfg not_eol_nul else ret c)). wp.
  use blanks_ok; [done|]. intros c s1 (G1 & Hc & Hw & He).
  wp.
  - wp. use readLineBreak_ok; [have_inv|]. intros _ s3 B. wp. apply ok_modify. pose proof (broken_reset _ _ B) as G3. wp.
    use indent_loop_ok; [have_inv|pose proof (fuel_enough _ (good_inv _ _ G3)); lia|]. intros _ s4 G4.
    positions. destruct B as [B _]. use IH; [have_inv|simpl in *; lia|]. intros k' s5 (G5 & Hs & _). positions.
    split; [chain|]. split; [done|]. simpl in *. lia.
  - wp. split; [done|]. split; [unfold stopped; subst; by apply stops|].
    intros E. rewrite (He E) in Hc. congruence.
Qed.

Lemma skip_ok ac ci s : inv s ->
  ok (skipSeparationSpace cfg ac ci) s (fun k s' => good s s' /\ stopped s' /\
    (is_EOL (at_ cfg (l_position s)) = true -> l_position s < l_position s')).
Proof.
  intros Hi. unfold skipSeparationSpace. wp. use separation_loop_ok; [done|pose proof (fuel_enough s Hi); lia|].
  intros k s1 (G & Hs & He). wp. wp. wp. wp.
  - use warning_ok; [have_inv|]. intros _ s2 [G2 S2]. wp. destruct S2 as (E & _). split; [chain|].
    unfold stopped. rewrite E. done.
  - wp. done.
Qed.

(** *** Quoted scalars *)

Lemma folded_ok k s : inv s -> ok (writeFoldedLines k) s (fun _ s' => good s s' /\ same s s').
Proof.
  intros Hi. unfold writeFoldedLines. repeat wp; try (by apply append_ok). split; [by apply good_refl|done].
Qed.

(** A reader: it moves when it succeeds. *)
Definition reader (b : bool) (s s' : lstate) : Prop := good s s' /\ (b = true -> l_position s < l_position s').

Lemma single_loop_ok n : forall ni cs ce s, inv s -> N - l_position s < Z.of_nat n ->
  ok (single_loop cfg n ni cs ce) s (fun _ s' => good s s').
Proof.
  induction n as [|n IH]; intros ni cs ce s Hi Hn; [destruct Hi as (? & ? & _); lia|]. cbn [single_loop].
  do 6 wp. destruct (Z.eqb_spec (at_ cfg (l_position s)) 0) as [E|Hz]; [wp|].
  destruct (at_ cfg (l_position s) =? 39).
  - wp. use capture_ok; [done|]. intros _ s1 [G1 [E1 _]]. wp. use next_ok; [have_inv|by rewrite E1|].
    intros c s2 (G2 & E2 & Hc). destruct (Z.eqb_spec c 39) as [->|]; [|wp; chain].
    wp. use move_ok; [have_inv|by rewrite <- Hc|]. intros _ s3 [G3 E3].
    use IH; [have_inv|lia|]. intros _ s4 G4. chain.
  - destruct (is_EOL (at_ cfg (l_position s))) eqn:He.
    + wp. use capture_ok; [done|]. intros _ s1 [G1 [E1 _]]. wp. use skip_ok; [have_inv|].
      intros k s2 (G2 & _ & Hm). rewrite E1 in Hm. specialize (Hm He). wp. use folded_ok; [have_inv|].
      intros _ s3 [G3 _]. wp. wp. positions. use IH; [have_inv|lia|]. intros _ s4 G4. chain.
    + wp; [wp|]. wp. use move_ok; [done|done|]. intros _ s1 [G1 E1]. use IH; [have_inv|lia|]. intros _ s2 G2. chain.
Qed.

Lemma readSingle_ok ni s : inv s -> ok (readSingleQuotedScalar cfg ni) s (fun b s' => reader b s s').
Proof.
  intros Hi. unfold readSingleQuotedScalar. wp. wp. destruct (Z.eqb_spec (at_ cfg (l_position s)) 39) as [E|_].
  - wp. wp. use same_ok; [done|done|]. intros _ s1 [G1 [E1 _]]. wp.
    use move_ok; [have_inv|by rewrite E1, E|]. intros _ s2 [G2 E2]. wp. wp.
    use single_loop_ok; [have_inv|pose proof (fuel_enough s2 (good_inv _ _ G2)); lia|]. intros b s3 G3. positions.
    split; [chain|lia].
  - wp. wp. split; [by apply good_refl|done].
Qed.

Lemma hex_escape_ok n : forall r s, inv s -> at_ cfg (l_position s) <> 0 ->
  ok (hex_escape cfg n r) s (fun _ s' => good s s' /\ at_ cfg (l_position s') <> 0).
Proof.
  induction n as [|n IH]; intros r s Hi Hz; cbn [hex_escape]; [wp; split; [by apply good_refl|done]|].
  wp. use next_ok; [done|done|]. intros c s1 (G1 & E1 & Hc). cbv zeta. wp; [|wp].
  use IH; [have_inv| |].
  - intros E. rewrite E in Hc. subst c. done.
  - intros r' s2 [G2 Hz2]. split; [chain|done].
Qed.

Lemma read_escape_ok ni s : inv s -> at_ cfg (l_position s) <> 0 ->
  ok (read_escape cfg ni) s (fun _ s' => good s s' /\ l_position s < l_position s').
Proof.
  intros Hi Hz. unfold read_escape. wp. use next_ok; [done|done|]. intros c s1 (G1 & E1 & Hc). wp.
  - wp. use skip_ok; [have_inv|]. intros k s2 (G2 & _). wp. positions. split; [chain|lia].
  - assert (Hmv : forall s2, good s1 s2 -> at_ cfg (l_position s2) <> 0 ->
      ok (move 1) s2 (fun _ s' => good s s' /\ l_position s < l_position s')).
    { intros s2 G2 Hz2. use move_ok; [have_inv|done|]. intros _ s3 [G3 E3]. positions. split; [chain|lia]. }
    wp.
    + wp. use append_ok; [have_inv|]. intros _ s2 [G2 [E2 _]]. apply Hmv; [done|]. rewrite E2, <- Hc.
      intros ->. done.
    + cbv zeta. wp; [|wp]. wp. use hex_escape_ok; [have_inv| |].
      * rewrite <- Hc. intros ->. done.
      * intros r s2 [G2 Hz2]. wp. use append_ok; [have_inv|]. intros _ s3 [G3 [E3 _]].
        apply Hmv; [chain|]. by rewrite E3.
Qed.

Lemma double_loop_ok n : forall ni cs ce s, inv s -> N - l_position s < Z.of_nat n ->
  ok (double_loop cfg n ni cs ce) s (fun _ s' => good s s').
Proof.
  induction n as [|n IH]; intros ni cs ce s Hi Hn; [destruct Hi as (? & ? & _); lia|]. cbn [double_loop].
  do 6 wp. destruct (Z.eqb_spec (at_ cfg (l_position s)) 0) as [E|Hz]; [wp|].
  destruct (at_ cfg (l_position s) =? 34).
  - wp. use capture_ok; [done|]. intros _ s1 [G1 [E1 _]]. wp. use move_ok; [have_inv|by rewrite E1|].
    intros _ s2 [G2 E2]. wp. chain.
  - destruct (at_ cfg (l_position s) =? 92).
    + wp. use capture_ok; [done|]. intros _ s1 [G1 [E1 _]]. wp. use read_escape_ok; [have_inv|by rewrite E1|].
      intros _ s2 [G2 E2]. wp. wp. positions. use IH; [have_inv|lia|]. intros _ s4 G4. chain.
    + destruct (is_EOL (at_ cfg (l_position s))) eqn:He.
      * wp. use capture_ok; [done|]. intros _ s1 [G1 [E1 _]]. wp. use skip_ok; [have_inv|].
        intros k s2 (G2 & _ & Hm). rewrite E1 in Hm. specialize (Hm He). wp. use folded_ok; [have_inv|].
        intros _ s3 [G3 _]. wp. wp. positions. use IH; [have_inv|lia|]. intros _ s4 G4. chain.
      * wp; [wp|]. wp. use move_ok; [done|done|]. intros _ s1 [G1 E1]. use IH; [have_inv|lia|]. intros _ s2 G2. chain.
Qed.

Lemma readDouble_ok ni s : inv s -> ok (readDoubleQuotedScalar cfg ni) s (fun b s' => reader b s s').
Proof.
  intros Hi. unfold readDoubleQuotedScalar. wp. wp. destruct (Z.eqb_spec (at_ cfg (l_position s)) 34) as [E|_].
  - wp. wp. use same_ok; [done|done|]. intros _ s1 [G1 [E1 _]]. wp.
    use move_ok; [have_inv|by rewrite E1, E|]. intros _ s2 [G2 E2]. wp. wp.
    use double_loop_ok; [have_inv|pose proof (fuel_enough s2 (good_inv _ _ G2)); lia|]. intros b s3 G3. positions.
    split; [chain|lia].
  - wp. wp. split; [by apply good_refl|done].
Qed.

(** *** Plain scalars *)

Lemma good_moved s s' : inv s' -> l_position s < l_position s' -> good s s'.
Proof. intros Hi H. split; [done|]. by apply rel_moved. Qed.

Lemma same_trans s1 s2 s3 : same s1 s2 -> same s2 s3 -> same s1 s3.
Proof. intros (?&?&?&?&?) (?&?&?&?&?). repeat split; congruence. Qed.

(** Flushing a pending segment. *)
Lemma pending_ok (b : bool) cs ce k s : inv s ->
  ok (mwhen b (do! captureSegment cfg cs ce false; writeFoldedLines k)) s (fun _ s' => good s s' /\ same s s').
Proof.
  intros Hi. wp; [|split; [by apply good_refl|done]]. wp. use capture_ok; [done|]. intros _ s1 [G1 S1].
  use folded_ok; [have_inv|]. intros _ s2 [G2 S2]. split; [chain|]. by apply (same_trans s s1 s2).
Qed.

Lemma stopped_white s : stopped s -> is_WHITE_SPACE (at_ cfg (l_position s)) = false.
Proof. unfold stopped, is_WS_OR_EOL, is_WHITE_SPACE. intros. bool_hyps. bool_arith. Qed.

(** The captured segment ends behind a character of the current line, or the next
    one is about to start at a character. *)
Definition plain_inv (p0 ce : Z) (pending : bool) (s : lstate) : Prop :=
  inv s /\ 0 <= p0 < ce /\ ce <= l_position s /\ (if pending then stopped s else l_lineStart s < ce).

Lemma plain_loop_ok n ni flow p0 : forall cs ce pending line0 s, plain_inv p0 ce pending s ->
  N - l_position s < Z.of_nat n ->
  ok (plain_loop cfg n ni flow cs ce pending line0) s (fun _ s' => inv s' /\ p0 < l_position s').
Proof.
  induction n as [|n IH]; intros cs ce pending line0 s (Hi & Hp & Hce & Hpend) Hn; [destruct Hi as (? & ? & _); lia|].
  cbn [plain_loop]. do 4 wp.
  destruct ((at_ cfg (l_position s) =? 0) || plain_ends cfg flow s) eqn:Hend'; [wp; split; [done|lia]|].
  apply orb_false_iff in Hend' as [Hz _]. apply Z.eqb_neq in Hz. destruct (is_EOL (at_ cfg (l_position s))) eqn:He.
  - destruct pending; [exfalso; revert Hpend He; unfold stopped, is_EOL, is_WS_OR_EOL; intros; bool_hyps; bool_arith|].
    do 7 wp. use skip_ok; [done|]. intros k s1 (G1 & Hs & Hm). specialize (Hm He). wp. wp. wp.
    + use IH; [|lia|done]. split; [have_inv|]. split; [done|]. split; [lia|done].
    + wp. apply ok_modify. wp. destruct Hi as (H1 & H2 & H3 & _). unfold inv. simpl. lia.
  - do 5 wp. use pending_ok; [done|]. intros _ s1 [G1 S1]. cbv zeta. wp. destruct S1 as (E1 & E2 & _).
    destruct (good_move s s1 G1 ltac:(by rewrite E1)) as [G2 _]. unfold move. apply ok_modify.
    pose proof Hi as (H1 & H2 & _). use IH; [|simpl; lia|done]. split; [have_inv|]. simpl. rewrite E1, E2.
    destruct pending; [|destruct (is_WHITE_SPACE _); lia]. by rewrite (stopped_white s Hpend); lia.
Qed.

Lemma plain_start c : cannot_start_plain c = false -> is_WS_OR_EOL c = false.
Proof. unfold cannot_start_plain. intros H. by bool_hyps. Qed.

Lemma plain_first_ok ni flow s : inv s -> stopped s ->
  ok (plain_loop cfg (fuel cfg) ni flow (l_position s) (l_position s) false 0) s
    (fun cap s' => (s' = s /\ cap = (l_position s, l_position s)) \/ (inv s' /\ l_position s < l_position s')).
Proof.
  intros Hi Hs. unfold fuel. cbn [plain_loop]. do 4 wp.
  destruct ((at_ cfg (l_position s) =? 0) || plain_ends cfg flow s) eqn:Hend'; [wp; by left|].
  apply orb_false_iff in Hend' as [Hz _]. apply Z.eqb_neq in Hz.
  destruct (is_EOL (at_ cfg (l_position s))) eqn:He.
  { exfalso. revert Hs He. unfold stopped, is_EOL, is_WS_OR_EOL. intros. bool_hyps. bool_arith. }
  do 5 wp. use pending_ok; [done|]. intros _ s1 [G1 (E1 & E2 & _)]. cbv zeta. rewrite (stopped_white s Hs). wp.
  destruct (good_move s s1 G1 ltac:(by rewrite E1)) as [G2 _]. unfold move. apply ok_modify.
  pose proof Hi as (H1 & H2 & _). use (plain_loop_ok (length (c_input cfg)) ni flow (l_position s)); [|simpl; lia|by right].
  split; [have_inv|]. simpl. lia.
Qed.

Lemma readPlain_ok ni flow s : inv s -> ok (readPlainScalar cfg ni flow) s (fun b s' => reader b s s').
Proof.
  intros Hi. unfold readPlainScalar. do 4 wp. cbv zeta. wp; [wp; split; [by apply good_refl|done]|].
  wp; [wp; split; [by apply good_refl|done]|].
  match goal with H : cannot_start_plain _ = false |- _ => apply plain_start in H; rename H into Hst end.
  do 5 wp. apply ok_modify. set (s1 := set_node _ _ s). assert (G1 : good s s1) by (by apply (good_same s s); [apply good_refl|]).
  wp. change (l_position s) with (l_position s1) in *. use plain_first_ok; [have_inv|done|].
  intros cap s2 [[-> ->]|[Hi2 Hm]].
  - simpl. wp. unfold captureSegment. rewrite Z.ltb_irrefl. wp. wp. wp. simpl. wp. apply ok_modify. wp.
    split; [|done]. by apply (good_same s s1).
  - wp. use capture_ok; [done|]. intros _ s3 [G3 _]. positions. wp. wp.
    assert (G : good s s3) by (apply good_moved; [have_inv|simpl in *; lia]).
    destruct (decide _).
    + wp. apply ok_modify. wp. split; [|done]. by apply (good_same s s3).
    + wp. split; [done|]. simpl in *. lia.
Qed.

(** *** Block scalars *)

Lemma header_loop_ok n ni : forall c d t s, inv s -> N - l_position s < Z.of_nat n ->
  ok (header_loop cfg n ni c d t) s (fun _ s' => good s s' /\
    (at_ cfg (l_position s) <> 0 -> l_position s < l_position s')).
Proof.
  induction n as [|n IH]; intros c d t s Hi Hn; [destruct Hi as (? & ? & _); lia|]. cbn [header_loop]. wp. wp.
  destruct (Z.eqb_spec (at_ cfg (l_position s)) 0) as [E|Hz]; [wp; split; [by apply good_refl|done]|].
  wp. use next_ok; [done|done|]. intros x s1 (G1 & E1 & _). cbv zeta.
  assert (Hrec : forall c d t, ok (header_loop cfg n ni c d t) s1 (fun _ s' => good s s' /\
    (at_ cfg (l_position s) <> 0 -> l_position s < l_position s'))).
  { intros. use IH; [have_inv|lia|]. intros _ s2 [G2 _]. positions. split; [chain|lia]. }
  repeat (wp; try by apply Hrec). split; [chain|lia].
Qed.

Lemma block_lines_ok n fo ch : forall ti dr de am el s, inv s -> N - l_position s < Z.of_nat n ->
  ok (block_lines cfg n fo ch ti dr de am el) s (fun _ s' => good s s').
Proof.
  induction n as [|n IH]; intros ti dr de am el s Hi Hn; [destruct Hi as (? & ? & _); lia|]. cbn [block_lines]. wp. wp.
  wp; [wp; by apply good_refl|]. wp. use readLineBreak_ok; [done|]. intros _ s1 B. wp. apply ok_modify.
  pose proof (broken_reset _ _ B) as G1. wp.
  use text_indent_ok; [have_inv|pose proof (fuel_enough _ (good_inv _ _ G1)); lia|]. intros _ s2 G2.
  assert (Hm : l_position s < l_position s2) by (positions; destruct B as [B _]; simpl in *; lia).
  assert (G : good s s2) by chain. clear G1 G2 B. do 4 wp. cbv zeta. wp.
  { use IH; [have_inv|lia|]. intros _ s3 G3. chain. }
  assert (Happ : forall x, ok (append x) s2 (fun _ s' => good s s')).
  { intros x. use append_ok; [have_inv|]. intros _ s3 [G3 _]. chain. }
  wp; [repeat wp; (by apply Happ) || chain|]. wp. eapply ok_conseq.
  { instantiate (1 := fun _ s' => good s2 s').
    repeat wp; try (use append_ok; [have_inv|]; by intros _ s3 [G3 _]). by apply good_refl; have_inv. }
  cbv beta. intros _ s3 G3. positions. wp. wp. wp. use seek_ok; [done|have_inv|]. intros _ s4 (G4 & _). wp. wp. wp.
  use capture_ok; [have_inv|]. intros _ s5 [G5 _]. positions. use IH; [have_inv|lia|]. intros _ s6 G6. chain.
Qed.

Lemma readBlockScalar_ok ni s : inv s -> ok (readBlockScalar cfg ni) s (fun b s' => reader b s s').
Proof.
  intros Hi. unfold readBlockScalar. wp. wp. wp; [wp; split; [by apply good_refl|done]|]. cbv zeta.
  wp. use same_ok; [done|done|]. intros _ s1 [G1 [E1 _]]. wp. use header_loop_ok; [have_inv| |].
  { pose proof (fuel_enough _ (good_inv _ _ G1)). lia. }
  intros [[c d] t] s2 [G2 Hm]. assert (Hz : at_ cfg (l_position s1) <> 0).
  { rewrite E1. intros E. by match goal with H : negb _ = false |- _ => rewrite E in H end. }
  specialize (Hm Hz). do 3 wp. eapply ok_conseq.
  { instantiate (1 := fun _ s' => good s2 s'). wp; [|by apply good_refl; have_inv]. wp. use move_ok; [have_inv| |].
    { intros E. by match goal with H : is_WHITE_SPACE _ = true |- _ => rewrite E in H end. }
    intros _ s3 [G3 _]. wp. use seek_ok; [done|have_inv|]. intros x s4 (G4 & Hx & _). wp; [|chain].
    match goal with H : _ = true |- _ => apply Z.eqb_eq in H; rename H into E35 end.
    wp. use move_ok; [have_inv|congruence|]. intros _ s5 [G5 _]. wp. use seek_ok; [done|have_inv|].
    intros _ s6 (G6 & _). wp. chain. }
  cbv beta. intros _ s3 G3. wp. use block_lines_ok; [have_inv|pose proof (fuel_enough _ (good_inv _ _ G3)); lia|].
  intros _ s4 G4. wp. positions. split; [chain|lia].
Qed.

(** *** Node properties *)

(** A move inside the input, over any character. *)
Lemma move_in s : inv s -> l_position s < N -> ok (move 1) s (fun _ s' => good s s' /\ l_position s' = l_position s + 1).
Proof.
  intros (H1 & H2 & H3 & _) H. unfold move. apply ok_modify. split; [|done]. apply good_moved; unfold inv; simpl; lia.
Qed.

Lemma tag_loop_ok n : forall b h p s, inv s -> N - l_position s < Z.of_nat n ->
  ok (tag_loop cfg n b h p) s (fun _ s' => good s s').
Proof.
  induction n as [|n IH]; intros b h p s Hi Hn; [destruct Hi as (? & ? & _); lia|]. cbn [tag_loop]. do 4 wp.
  destruct ((at_ cfg (l_position s) =? 0) || _) eqn:E; [wp; by apply good_refl|].
  apply orb_false_iff in E as [Hz _]. apply Z.eqb_neq in Hz.
  assert (Hrec : forall b h p, ok (do! move 1; tag_loop cfg n b h p) s (fun _ s' => good s s')).
  { intros. wp. use move_ok; [done|done|]. intros _ s1 [G1 E1]. use IH; [have_inv|lia|]. intros _ s2 G2. chain. }
  cbv zeta. repeat (first [by apply Hrec|wp]).
Qed.

Lemma before_last s : inv s -> at_ cfg (l_position s) = 60 -> l_position s + 1 < N.
Proof.
  intros Hi E. pose proof (at_nonzero s Hi ltac:(by rewrite E)). destruct (Z.eq_dec (l_position s) (N - 1)) as [E1|]; [|lia].
  rewrite E1 in E. destruct Hi as (? & ? & _), Hlast as [|[HL|HL]]; [lia| |]; by rewrite HL in E.
Qed.

Lemma verbatim_ok pos0 s : inv s -> l_position s < N ->
  ok (do! move 1; let! _ := seek cfg (fun c => negb (c =? 0) && negb (c =? 62)) in
      let! p := gets l_position in
      if p <? c_length cfg then do! move 1; ret (js "!", slice_input cfg pos0 p)
      else throwError "unexpected end of the stream within a verbatim tag") s (fun _ s' => good s s').
Proof.
  intros Hi H. wp. use move_in; [have_inv|lia|]. intros _ s2 [G2 _]. wp. use seek_ok; [done|have_inv|]. intros _ s3 (G3 & _).
  do 3 wp; [|wp]. match goal with H : _ = true |- _ => apply Z.ltb_lt in H end. wp. rewrite Hlen in *.
  use move_in; [have_inv|done|]. intros _ s4 [G4 _]. wp. chain.
Qed.

Lemma resolve_tag_ok v h n s : inv s ->
  ok (resolve_tag v h n) s (fun _ s' => inv s' /\ l_position s' = l_position s).
Proof. intros Hi. unfold resolve_tag. repeat wp; apply ok_modify; done. Qed.

Lemma readTag_ok s : inv s -> ok (readTagProperty cfg) s (fun b s' => reader b s s').
Proof.
  intros Hi. unfold readTagProperty. do 4 wp.
  destruct (Z.eqb_spec (at_ cfg (l_position s)) 33) as [E|_]; [|wp; wp; split; [by apply good_refl|done]].
  wp. wp; [wp|]. wp. use next_ok; [done|by rewrite E|]. intros c s1 (G1 & E1 & Hc).
  cbv zeta.
  assert (Hfin : forall v x s', good s1 s' -> ok (let '(handle, tagName) := x in
      if negb (bool_decide (tagName = [])) && negb (full_match PATTERN_TAG_URI tagName)
      then throwErrorS (js "tag name cannot contain such characters: " ++ tagName)
      else do! resolve_tag v handle tagName; ret true) s' (fun b s' => reader b s s')).
  { intros v [h n] s' G. positions. wp; [wp|]. wp. use resolve_tag_ok; [have_inv|]. intros _ s2 [Hi2 E2]. wp.
    split; [apply good_moved; [done|lia]|lia]. }
  destruct (Z.eqb_spec c 60) as [->|].
  - unfold mwhen. simpl. pose proof (before_last s1 (good_inv _ _ G1) (eq_sym Hc)). wp.
    use move_ok; [have_inv|rewrite <- Hc; done|]. intros _ s2 [G2 E2]. wp. wp. wp.
    use verbatim_ok; [have_inv|lia|]. intros x s3 G3. apply Hfin. chain.
  - simpl orb. wp. eapply ok_conseq.
    { instantiate (1 := fun _ s' => good s1 s'). wp; [|apply good_refl; have_inv].
      match goal with H : _ = true |- _ => apply Z.eqb_eq in H; rename H into E33 end.
      use move_ok; [have_inv|congruence|]. by intros _ s2 [G2 _]. }
    cbv beta. intros _ s2 G2. do 3 wp.
    eapply (ok_conseq _ _ (fun _ s' => good s1 s')); [|intros x s3 G3; by apply Hfin]. wp.
    use tag_loop_ok; [have_inv|pose proof (fuel_enough _ (good_inv _ _ G2)); lia|]. intros [[b h] st] s3 G3.
    repeat wp. chain.
Qed.

Lemma readAnchor_ok s : inv s -> ok (readAnchorProperty cfg) s (fun b s' => reader b s s').
Proof.
  intros Hi. unfold readAnchorProperty. do 4 wp.
  destruct (Z.eqb_spec (at_ cfg (l_position s)) 38) as [E|_]; [|wp; wp; split; [by apply good_refl|done]].
  wp. wp; [wp|]. wp. use move_ok; [done|by rewrite E|]. intros _ s1 [G1 E1].
  do 3 wp. use seek_ok; [done|have_inv|]. intros _ s2 (G2 & _). positions. do 3 wp; [wp|]. wp. apply ok_modify. wp.
  split; [|simpl; lia]. apply good_moved; [|simpl; lia]. apply (good_inv _ _ G2).
Qed.

(** *** The heap: computations that leave the reader where it is *)

Definition still {A} (m : L A) : Prop := forall s, ok m s (fun _ s' => same s s').

Lemma still_ok {A} (m : L A) s : still m -> inv s -> ok m s (fun _ s' => good s s' /\ same s s').
Proof. intros Hm Hi. use Hm. intros a s' S. split; [|done]. by apply (good_same s s); [apply good_refl|]. Qed.

Lemma still_ret {A} (a : A) : still (ret a).
Proof. done. Qed.
Lemma still_gets {A} (f : lstate -> A) : still (gets f).
Proof. done. Qed.
Lemma still_throw {A} e : still (throw e : L A).
Proof. done. Qed.
Lemma still_throwError {A} msg : still (throwError msg : L A).
Proof. done. Qed.
Lemma still_modify f : (forall s, same s (f s)) -> still (modify f).
Proof. intros Hf s. apply Hf. Qed.
Lemma still_bind {A B} (m : L A) (k : A -> L B) : still m -> (forall a, still (k a)) -> still (bind m k).
Proof. intros Hm Hk s. wp. use Hm. intros a s1 S1. use Hk. intros b s2 S2. by apply (same_trans s s1). Qed.

Lemma still_call f this args : still (call cfg f this args).
Proof.
  intros s. unfold ok, call. pose proof (Hcalls f this args (store_of s)) as Hc. by destruct (rt_call _ _ _ _ _) as [[[e|v] st]|].
Qed.

Lemma still_set_obj v o : still (set_obj v o).
Proof. apply still_modify. intros s. by destruct v. Qed.

Ltac stay := repeat first
  [ apply still_ret | apply still_gets | apply still_throw | apply still_throwError | apply still_call | apply still_set_obj
  | apply still_bind; [|intros ?] | apply still_modify; intros ?; done
  | match goal with |- still (match ?x with _ => _ end) => destruct x end ].

Lemma still_invoke name bi v : still (invoke cfg name bi v).
Proof. unfold invoke. stay. Qed.

Lemma still_primitive v : still (to_primitive cfg v).
Proof. unfold to_primitive, primitive_or. stay; apply still_invoke. Qed.

Lemma still_join to_text l n : (forall v, still (to_text v)) -> forall i, still (join_elems to_text l n i).
Proof. intros Ht. induction n as [|n IH]; intros i; cbn [join_elems]; stay; first [apply Ht|apply IH]. Qed.

Lemma still_text n : forall seen v, still (to_string cfg n seen v).
Proof.
  induction n as [|n IH]; intros seen v; cbn [to_string]; stay; first [apply still_primitive|by apply still_join].
Qed.

Lemma still_String v : still (String_ cfg v).
Proof. unfold String_. stay. apply still_text. Qed.

Lemma still_assign o k v : still (assign_key cfg o k v).
Proof. unfold assign_key, get_obj. stay. Qed.

Lemma still_merge_loop d props : forall ov, still (merge_loop cfg d props ov).
Proof.
  induction props as [|[k v] props IH]; intros ov; cbn [merge_loop]; unfold get_obj; stay; first [apply IH|apply still_assign].
Qed.

Lemma still_merge d v ov : still (mergeMappings cfg d v ov).
Proof. unfold mergeMappings. stay. apply still_merge_loop. Qed.

Lemma still_merge_all d vs : forall ov, still (merge_all cfg d vs ov).
Proof. induction vs as [|v vs IH]; intros ov; cbn [merge_all]; stay; [apply still_merge|apply IH]. Qed.

Lemma still_anchor_value v : still (set_anchor_value cfg v).
Proof. unfold set_anchor_value. stay. Qed.

Lemma new_obj_ok o s : inv s -> ok (new_obj o) s (fun _ s' => good s s' /\ same s s').
Proof. by apply still_ok. Qed.

Lemma anchor_value_ok v s : inv s -> ok (set_anchor_value cfg v) s (fun _ s' => good s s' /\ same s s').
Proof. apply still_ok, still_anchor_value. Qed.

Lemma push_ok r x s : inv s -> ok (push_elem r x) s (fun _ s' => good s s' /\ same s s').
Proof. apply still_ok. unfold push_elem. stay. Qed.

Lemma readAlias_ok s : inv s -> ok (readAlias cfg) s (fun b s' => reader b s s').
Proof.
  intros Hi. unfold readAlias. wp. wp.
  destruct (Z.eqb_spec (at_ cfg (l_position s)) 42) as [E|_]; [|wp; wp; split; [by apply good_refl|done]].
  wp. wp. use move_ok; [done|by rewrite E|]. intros _ s1 [G1 E1].
  do 3 wp. use seek_ok; [done|have_inv|]. intros _ s2 (G2 & _). positions. do 3 wp; [wp|]. cbv zeta. wp.
  eapply ok_conseq; [apply (still_ok (has_anchor cfg _)); [unfold has_anchor; stay|have_inv]|]. cbv beta. intros known s3 [G3 S3].
  wp; [wp|]. do 5 wp. use same_ok; [have_inv|done|]. intros _ s4 [G4 _]. wp.
  use skip_ok; [have_inv|]. intros _ s5 (G5 & _). wp. positions. split; [chain|lia].
Qed.

Lemma store_ok r ov kt kn vn st s : inv s ->
  ok (storeMappingPair cfg r ov kt kn vn st) s (fun _ s' => good s s' /\ same s s').
Proof.
  intros Hi. unfold storeMappingPair, get_obj. wp.
  eapply ok_conseq; [apply (still_ok (String_ cfg kn)); [apply still_String|done]|]. cbv beta. intros key s0 [G0 S0]. wp.
  eapply ok_conseq; [instantiate (1 := fun _ s' => good s0 s' /\ same s0 s')|].
  { destruct r; first [apply new_obj_ok; have_inv|wp; split; [apply good_refl; have_inv|done]]. }
  cbv beta. intros r1 s1 [G1 S1]. assert (S01 : same s s1) by (by apply (same_trans s s0)). destruct (decide _).
  - do 3 wp. eapply ok_conseq; [apply still_ok; [|have_inv]|].
    { stay; first [apply still_merge_loop|apply still_merge_all]. }
    cbv beta. intros ov2 s2 [G2 S2]. wp. split; [chain|]. by apply (same_trans s s1 s2).
  - wp. wp. wp; [wp; apply ok_modify; wp|]. wp. eapply ok_conseq; [apply still_ok; [apply still_assign|have_inv]|].
    cbv beta. intros _ s2 [G2 S2]. wp. split; [chain|]. by apply (same_trans s s1 s2).
Qed.

(** A node restored to its tag and anchor, behind where it started. *)
Lemma restored s s1 k r a t : good s s1 -> l_position s < l_position s1 ->
  good s (set_node k r (set_anchor a (set_tag t s1))).
Proof. intros [Hi _] Hm. by apply good_moved. Qed.

Section Collections.
Context (comp : composer) (B : Z).

Definition extra (c : context) : Z := match c with CONTEXT_BLOCK_IN | CONTEXT_BLOCK_OUT => 1 | _ => 0 end.

Hypothesis Hcomp : forall pi c sk ac s, inv s -> 2 * (N - l_position s) + extra c < B ->
  ok (comp pi c sk ac) s (fun b s' => reader b s s').

Lemma flow_tail n ni t isM tag0 a0 r ov :
  (forall ov (rn : bool) s, inv s -> N - l_position s + (if rn then 1 else 0) < Z.of_nat n -> 2 * (N - l_position s) < B ->
     ok (flow_loop cfg comp n ni t isM tag0 a0 r ov rn) s (fun _ s' => inv s' /\ l_position s <= l_position s')) ->
  forall s, inv s -> N - l_position s < Z.of_nat n -> 2 * (N - l_position s) < B ->
  ok (let! _ := skipSeparationSpace cfg true ni in
      let! c := ch cfg in
      if c =? 44 then do! move 1; flow_loop cfg comp n ni t isM tag0 a0 r ov true
      else flow_loop cfg comp n ni t isM tag0 a0 r ov false) s (fun _ s' => inv s' /\ l_position s <= l_position s').
Proof.
  intros Hrec s Hi Hn HB. wp. use skip_ok; [done|]. intros _ s1 (G1 & _). positions. wp. wp.
  destruct (Z.eqb_spec (at_ cfg (l_position s1)) 44) as [E|_].
  - wp. use move_ok; [have_inv|by rewrite E|]. intros _ s2 [G2 E2]. use Hrec; [have_inv|lia|lia|].
    intros _ s3 [Hi3 Hp]. split; [done|lia].
  - use Hrec; [have_inv|lia|lia|]. intros _ s3 [Hi3 Hp]. split; [done|lia].
Qed.

Lemma flow_loop_ok n ni t isM tag0 a0 r : forall ov (rn : bool) s, t <> 0 -> inv s ->
  N - l_position s + (if rn then 1 else 0) < Z.of_nat n -> 2 * (N - l_position s) < B ->
  ok (flow_loop cfg comp n ni t isM tag0 a0 r ov rn) s (fun _ s' => inv s' /\ l_position s <= l_position s').
Proof.
  induction n as [|n IH]; intros ov rn s Ht Hi Hn HB; [destruct Hi as (? & ? & _), rn; lia|]. cbn [flow_loop]. wp. wp. wp; [wp|].
  wp. use skip_ok; [done|]. intros _ s1 (G1 & _). do 4 wp. positions.
  destruct (Z.eqb_spec (at_ cfg (l_position s1)) t) as [E|_].
  { wp. use move_ok; [have_inv|by rewrite E|]. intros _ s2 [G2 E2]. wp. apply ok_modify. wp.
    split; [apply (good_inv _ _ G2)|simpl; lia]. }
  destruct rn; [|wp; wp]. wp. cbv zeta. wp.
  eapply ok_conseq; [instantiate (1 := fun _ s' => good s1 s')|].
  { wp; [|apply good_refl; have_inv]. wp. use move_ok; [have_inv| |].
    { intros E. match goal with H : (_ && _) = true |- _ => by rewrite E in H end. }
    intros _ s2 [G2 _]. wp. use skip_ok; [have_inv|]. intros _ s3 (G3 & _). wp. chain. }
  cbv beta. intros _ s2 G2. positions. do 3 wp. use Hcomp; [have_inv|simpl; lia|]. intros b s3 [G3 _]. do 5 wp.
  use skip_ok; [have_inv|]. intros _ s4 (G4 & _). positions. do 5 wp.
  eapply ok_conseq; [instantiate (1 := fun _ s' => good s4 s')|].
  { wp; [|wp; apply good_refl; have_inv]. bool_hyps. wp. use move_ok; [have_inv|congruence|]. intros _ s5 [G5 _]. wp.
    use skip_ok; [have_inv|]. intros _ s6 (G6 & _). positions. wp. use Hcomp; [have_inv|simpl; lia|].
    intros b' s7 [G7 _]. wp. chain. }
  cbv beta. intros v s5 G5. positions. wp. eapply ok_conseq; [instantiate (1 := fun _ s' => good s5 s')|].
  { wp; [wp; use store_ok; [have_inv|]; intros p s6 [G6 _]; wp; chain|]. wp.
    - wp. use store_ok; [have_inv|]. intros p s6 [G6 _]. wp. use push_ok; [have_inv|]. intros _ s7 [G7 _]. wp. chain.
    - wp. use push_ok; [have_inv|]. intros _ s7 [G7 _]. wp. chain. }
  cbv beta. intros ov2 s6 G6. positions. use (flow_tail n); [by intros; apply IH|have_inv|lia|lia|].
  intros _ s7 [Hi7 Hp7]. split; [done|lia].
Qed.

Lemma readFlow_ok ni s : inv s -> 2 * (N - l_position s) <= B ->
  ok (readFlowCollection cfg comp ni) s (fun b s' => reader b s s').
Proof.
  intros Hi HB. unfold readFlowCollection. do 6 wp.
  assert (Hgo : forall o t isM a b, t <> 0 -> at_ cfg (l_position s) <> 0 ->
    ok (let! r := new_obj o in do! set_anchor_value cfg r; do! move 1;
        flow_loop cfg comp (fuel cfg) ni t isM a b r [] true) s (fun b s' => reader b s s')).
  { intros o t isM a b Ht Hz. wp. use new_obj_ok; [done|]. intros r s1 [G1 [E1 _]]. wp.
    use anchor_value_ok; [have_inv|]. intros _ s2 [G2 [E2 _]]. wp.
    use move_ok; [have_inv|by rewrite E2, E1|]. intros _ s3 [G3 E3].
    use flow_loop_ok; [done|have_inv|unfold fuel; destruct Hi as [? _]; lia|lia|].
    intros b' s4 [Hi4 Hp4]. assert (l_position s < l_position s4) by lia. split; [by apply good_moved|done]. }
  destruct (Z.eqb_spec (at_ cfg (l_position s)) 91) as [E|_]; [by apply Hgo; rewrite ?E|].
  destruct (Z.eqb_spec (at_ cfg (l_position s)) 123) as [E|_]; [by apply Hgo; rewrite ?E|].
  wp. split; [by apply good_refl|done].
Qed.

(** A loop of entries: unless it was already under way, it moves when it succeeds. *)
Definition entries (started b : bool) (s s' : lstate) : Prop :=
  good s s' /\ (b = true -> started = true \/ l_position s < l_position s').

Lemma sequence_loop_ok n ni r : forall d s, inv s -> N - l_position s < Z.of_nat n -> 2 * (N - l_position s) < B ->
  ok (sequence_loop cfg comp n ni r d) s (fun b s' => entries d b s s').
Proof.
  induction n as [|n IH]; intros d s Hi Hn HB; [destruct Hi as (? & ? & _); lia|]. cbn [sequence_loop]. do 4 wp.
  destruct ((at_ cfg (l_position s) =? 0) || _ || _) eqn:E.
  { wp. split; [by apply good_refl|by left]. }
  bool_hyps. wp. use move_ok; [done|done|]. intros _ s1 [G1 E1]. wp. use skip_ok; [have_inv|]. intros k s2 (G2 & _).
  positions. do 2 wp.
  assert (Hrec : forall s', good s s' -> l_position s < l_position s' ->
    ok (sequence_loop cfg comp n ni r true) s' (fun b s' => entries d b s s')).
  { intros s' G Hm. use IH; [have_inv|lia|lia|]. intros b s3 [G3 _]. positions. split; [chain|]. right. lia. }
  wp.
  - wp. use push_ok; [have_inv|]. intros _ s3 [G3 _]. positions. apply Hrec; [chain|lia].
  - do 3 wp. use Hcomp; [have_inv|simpl; lia|]. intros b s3 [G3 _]. do 3 wp. use push_ok; [have_inv|].
    intros _ s4 [G4 _]. wp. use skip_ok; [have_inv|]. intros _ s5 (G5 & _). positions. do 6 wp. wp; [wp|]. wp.
    + wp. split; [chain|]. right. lia.
    + apply Hrec; [chain|lia].
Qed.

Lemma readSequence_ok ni s : inv s -> 2 * (N - l_position s) < B ->
  ok (readBlockSequence cfg comp ni) s (fun b s' => reader b s s').
Proof.
  intros Hi HB. unfold readBlockSequence. do 5 wp. use new_obj_ok; [done|]. intros r s1 [G1 _]. wp.
  use anchor_value_ok; [have_inv|]. intros _ s2 [G2 _]. positions. wp.
  use sequence_loop_ok; [have_inv|pose proof (fuel_enough _ (good_inv _ _ G2)); lia|lia|].
  intros b s3 [G3 Hb]. positions. destruct b; [|wp; split; [chain|done]]. destruct (Hb eq_refl) as [|Hm]; [done|].
  wp. apply ok_modify. wp. split; [apply restored; [chain|lia]|intros _; simpl; lia].
Qed.

Lemma flush_ok r m s : inv s ->
  ok (flush_key cfg r m) s (fun m' s' => good s s' /\ same s s' /\ mv_detected m' = mv_detected m).
Proof.
  intros Hi. unfold flush_key. wp; [|wp; split; [by apply good_refl|done]]. wp. use store_ok; [done|].
  intros p s1 [G1 S1]. wp. done.
Qed.

(** A key is read and the reader moves, or the entry ends where a node did not start,
    or what was read is the node itself. *)
Lemma read_key_ok fi tag0 a0 r m s : inv s -> at_ cfg (l_position s) <> 0 -> 2 * (N - l_position s) < B ->
  ok (read_key cfg comp fi tag0 a0 r m) s (fun k s' => good s s' /\
    match k with inl false => True | _ => l_position s < l_position s' end).
Proof.
  intros Hi Hz HB. unfold read_key. do 6 wp. cbv zeta. wp.
  - wp. eapply ok_conseq; [instantiate (1 := fun _ s' => good s s' /\ same s s')|].
    { wp; [|wp; [wp; split; [by apply good_refl|done]|wp]]. wp. use flush_ok; [done|]. intros m' s1 (G1 & S1 & _).
      by wp. }
    cbv beta. intros m' s1 [G1 [E1 _]]. wp. use move_ok; [have_inv|by rewrite E1|]. intros _ s2 [G2 E2]. wp.
    split; [chain|lia].
  - wp. use Hcomp; [done|simpl; lia|]. intros b s1 [G1 Hb]. destruct b; wp; [|wp; split; [chain|done]].
    specialize (Hb eq_refl). wp. wp.
    assert (Hno : forall s2, good s1 s2 -> ok (do! modify (fun s => set_anchor a0 (set_tag tag0 s)); ret (inl true : bool + mapvars)) s2
      (fun k s' => good s s' /\ match k with inl false => True | _ => l_position s < l_position s' end)).
    { intros s2 G2. positions. wp. apply ok_modify. wp. split; [|simpl; lia].
      apply good_moved; [apply (good_inv _ _ G2)|simpl; lia]. }
    wp; [|wp; [wp|apply Hno, good_refl; have_inv]].
    wp. use seek_ok; [done|have_inv|]. intros c s2 (G2 & Hc & _). wp; [|wp; [wp|by apply Hno]].
    match goal with H : (c =? 58) = true |- _ => apply Z.eqb_eq in H; rename H into Ec end.
    wp. use next_ok; [have_inv|congruence|]. intros c2 s3 (G3 & E3 & _). wp; [wp|]. wp. use flush_ok; [have_inv|].
    intros m' s4 (G4 & _). positions. do 5 wp. split; [chain|lia].
Qed.

Lemma read_value_ok ni line p r m s : inv s -> 2 * (N - l_position s) + 1 < B ->
  ok (read_value cfg comp ni line p r m) s (fun _ s' => good s s').
Proof.
  intros Hi HB. unfold read_value. wp. use Hcomp; [done|simpl; lia|]. intros b s1 [G1 _]. wp. wp. cbv zeta. wp.
  eapply ok_conseq; [instantiate (1 := fun _ s' => good s1 s')|].
  { wp; [wp; apply good_refl; have_inv|]. wp. use store_ok; [have_inv|]. intros q s2 [G2 _]. wp. chain. }
  cbv beta. intros m' s2 G2. wp. use skip_ok; [have_inv|]. intros _ s3 (G3 & _). wp. chain.
Qed.

Lemma mapping_loop_ok n ni fi tag0 a0 r : forall m s, inv s -> N - l_position s < Z.of_nat n ->
  2 * (N - l_position s) < B ->
  ok (mapping_loop cfg comp n ni fi tag0 a0 r m) s (fun k s' => good s s' /\
    match k with inr m' => m' = m \/ l_position s < l_position s' | _ => l_position s < l_position s' end).
Proof.
  induction n as [|n IH]; intros m s Hi Hn HB; [destruct Hi as (? & ? & _); lia|]. cbn [mapping_loop]. wp. wp.
  destruct (Z.eqb_spec (at_ cfg (l_position s)) 0) as [_|Hz]; [wp; split; [by apply good_refl|by left]|].
  do 5 wp. use read_key_ok; [done|done|done|]. intros k s1 [G1 Hk].
  destruct k as [[|]|m1]; [wp; split; [chain|lia]|wp; split; [chain|by left]|]. do 5 wp.
  eapply ok_conseq; [instantiate (1 := fun _ s' => good s1 s')|].
  { wp; [apply read_value_ok; [have_inv|lia]|wp; apply good_refl; have_inv]. }
  cbv beta. intros m2 s2 G2. positions. do 4 wp. wp; [wp|]. wp; [wp; split; [chain|right; lia]|].
  use IH; [have_inv|lia|lia|]. intros k s3 [G3 _]. positions. split; [chain|]. destruct k; [|right]; lia.
Qed.

Lemma readMapping_ok ni fi s : inv s -> 2 * (N - l_position s) < B ->
  ok (readBlockMapping cfg comp ni fi) s (fun b s' => reader b s s').
Proof.
  intros Hi HB. unfold readBlockMapping. do 5 wp. use new_obj_ok; [done|]. intros r s1 [G1 _]. wp.
  use anchor_value_ok; [have_inv|]. intros _ s2 [G2 _]. positions. wp.
  use mapping_loop_ok; [have_inv|pose proof (fuel_enough _ (good_inv _ _ G2)); lia|lia|].
  intros [b|m] s3 [G3 Hm]; positions; [wp; split; [chain|lia]|]. wp. use flush_ok; [have_inv|].
  intros m' s4 (G4 & _ & Ed). positions. rewrite Ed. destruct (mv_detected m) eqn:Hd; [|wp; split; [chain|done]].
  destruct Hm as [->|Hm]; [done|]. wp. apply ok_modify. wp.
  split; [apply restored; [chain|lia]|intros _; simpl; lia].
Qed.

(** *** Nodes *)

Lemma properties_loop_ok n pi ab : forall st s, inv s -> N - l_position s < Z.of_nat n -> (snd st = true -> ab = true) ->
  ok (properties_loop cfg n pi ab st) s (fun st' s' => good s s' /\ (snd st' = true -> ab = true)).
Proof.
  induction n as [|n IH]; intros st s Hi Hn Hst; [destruct Hi as (? & ? & _); lia|]. cbn [properties_loop].
  wp. use readTag_ok; [done|]. intros b1 s1 [G1 Hb1]. wp.
  eapply ok_conseq; [instantiate (1 := fun b s' => good s s' /\ (b = true -> l_position s < l_position s'))|].
  { destruct b1; [by wp; split; [chain|]|]. use readAnchor_ok; [have_inv|]. intros b s2 [G2 Hb2]. positions.
    split; [chain|]. intros E. specialize (Hb2 E). lia. }
  cbv beta. intros b s2 [G2 Hb2]. destruct b; [|by wp; wp; split; [chain|]]. specialize (Hb2 eq_refl). wp.
  wp. use skip_ok; [have_inv|]. intros k s3 (G3 & _). positions. wp. wp.
  use IH; [have_inv|lia|by destruct (k =? 0)|]. intros st' s4 [G4 Hst']. split; [chain|done].
Qed.

Lemma orelse_ok a b s : ok a s (fun x s' => reader x s s') ->
  (forall s1, good s s1 -> ok b s1 (fun x s' => reader x s1 s')) -> ok (orelse a b) s (fun x s' => reader x s s').
Proof.
  intros Ha Hb. unfold orelse. wp. eapply ok_conseq; [exact Ha|]. cbv beta. intros x s1 [G1 Hx].
  destruct x; [by wp; split|]. use Hb; [done|]. intros y s2 [G2 Hy]. positions. split; [chain|].
  intros E. specialize (Hy E). lia.
Qed.

Lemma andalso_ok (a : bool) b s : inv s -> (a = true -> ok b s (fun x s' => reader x s s')) ->
  ok (andalso a b) s (fun x s' => reader x s s').
Proof. intros Hi H. unfold andalso. destruct a; [by apply H|]. wp. split; [by apply good_refl|done]. Qed.

(** An alias, or a plain scalar with its non-specific tag. *)
Lemma alias_or_plain_ok fi fl s : inv s ->
  ok (let! al := readAlias cfg in
      let! tag := gets l_tag in
      let! anchor := gets l_anchor in
      if al then
        match tag, anchor with
        | None, None => ret true
        | _, _ => throwError "alias node should not have any properties"
        end
      else
        let! pl := readPlainScalar cfg fi fl in
        if pl then
          do! modify (fun s => match l_tag s with None => set_tag (Some (js "?")) s | _ => s end);
          ret true
        else ret false) s (fun b s' => reader b s s').
Proof.
  intros Hi. wp. use readAlias_ok; [done|]. intros al s1 [G1 Ha]. do 4 wp. destruct al.
  { specialize (Ha eq_refl). repeat wp. by split. }
  wp. use readPlain_ok; [have_inv|]. intros pl s2 [G2 Hp]. destruct pl; [|wp; by split; [chain|]].
  specialize (Hp eq_refl). positions. wp. apply ok_modify. wp.
  destruct (l_tag s2); [split; [chain|lia]|]. split; [|simpl; lia].
  apply good_moved; [apply (good_inv _ _ G2)|simpl; lia].
Qed.

Lemma read_content_ok c ab abc fi bi s : inv s -> 2 * (N - l_position s) <= B ->
  (abc = true -> 2 * (N - l_position s) < B) ->
  ok (read_content cfg comp c ab abc fi bi) s (fun b s' => reader b s s').
Proof.
  intros Hi HB Habc. unfold read_content. wp. eapply ok_conseq.
  { apply orelse_ok; [|intros s1 G1; positions; apply readFlow_ok; [have_inv|lia]].
    apply andalso_ok; [done|]. intros E. specialize (Habc E).
    apply orelse_ok; [by apply readSequence_ok|]. intros s1 G1. positions. apply readMapping_ok; [have_inv|lia]. }
  cbv beta. intros coll s1 [G1 Hc]. destruct coll; [wp; by split|]. wp. eapply ok_conseq.
  { apply orelse_ok; [apply andalso_ok; [have_inv|intros _; apply readBlockScalar_ok; have_inv]|]. intros s2 G2.
    apply orelse_ok; [apply readSingle_ok; have_inv|]. intros s3 G3. apply readDouble_ok; have_inv. }
  cbv beta. intros sc s2 [G2 Hs]. wp. positions.
  eapply ok_conseq; [instantiate (1 := fun b s' => reader b s s')|].
  { destruct sc; [wp; split; [chain|intros _; specialize (Hs eq_refl); lia]|].
    use alias_or_plain_ok; [have_inv|]. intros b s3 [G3 Hb]. split; [chain|]. intros E. specialize (Hb E). lia. }
  cbv beta. intros has s3 [G3 Hh]. do 3 wp. use anchor_value_ok; [have_inv|]. intros _ s4 [G4 [E4 _]]. wp.
  split; [chain|]. intros E. rewrite E4. by apply Hh.
Qed.

Lemma construct_ok t s : inv s -> ok (construct t) s (fun _ s' => good s s' /\ same s s').
Proof.
  intros Hi. unfold ok, construct. destruct (t_construct t (l_heap s) (l_result s)) as [e|[v h]]; [done|].
  split; [|done]. by apply (good_same s s); [apply good_refl|].
Qed.

(** A node that has a tag may get another. *)
Lemma retagged s t : inv s -> tagged s -> good s (set_tag t s).
Proof. intros Hi Ht. by split. Qed.

Lemma implicit_loop_ok ts s : inv s -> tagged s -> ok (implicit_loop cfg ts) s (fun _ s' => good s s').
Proof.
  intros Hi Ht. induction ts as [|t ts IH]; cbn [implicit_loop]; [wp; by apply good_refl|]. wp. wp. wp; [|done].
  wp. use construct_ok; [done|]. intros _ s1 [G1 S1]. wp. apply ok_modify.
  assert (G2 : good s1 (set_tag (Some (t_tag t)) s1)).
  { apply retagged; [have_inv|]. destruct S1 as (_ & _ & _ & E4 & E5). unfold tagged in *. by rewrite E4, E5. }
  do 2 wp. use anchor_value_ok; [have_inv|]. intros _ s3 [G3 _]. chain.
Qed.

Lemma resolve_node_ok s : inv s -> ok (resolve_node cfg) s (fun _ s' => good s s').
Proof.
  intros Hi. unfold resolve_node. wp. wp. destruct (l_tag s) as [tag|] eqn:Et; [|wp; by apply good_refl].
  assert (Ht : tagged s) by (left; by rewrite Et).
  wp; [wp; by apply good_refl|]. wp; [by apply implicit_loop_ok|]. do 4 wp. cbv zeta. wp; [|wp]. wp; [wp|].
  wp. wp. wp; [wp|]. wp. use construct_ok; [done|]. intros _ s1 [G1 _]. do 2 wp. use anchor_value_ok; [have_inv|].
  intros _ s2 [G2 _]. chain.
Qed.

Definition block_context (c : context) : bool :=
  bool_decide (c = CONTEXT_BLOCK_OUT) || bool_decide (c = CONTEXT_BLOCK_IN).

Lemma composeNode_body_ok pi c sk ac s : inv s -> 2 * (N - l_position s) + extra c <= B ->
  ok (composeNode_body cfg comp pi c sk ac) s (fun b s' => reader b s s').
Proof.
  intros Hi HB. unfold composeNode_body. fold (block_context c). wp. apply ok_modify.
  set (s0 := set_node _ _ _). assert (G0 : good s s0).
  { split; [done|]. split; [simpl; lia|]. intros _. do 2 (split; [done|]). intros [H|H]; done. }
  assert (Hnt : ~ tagged s0) by (intros [H|H]; done).
  cbv zeta. wp. eapply ok_conseq; [instantiate (1 := fun _ s' => good s0 s')|].
  { wp; [|wp; apply good_refl; have_inv]. wp. use skip_ok; [have_inv|]. intros k s1 (G1 & _). do 3 wp. done. }
  cbv beta. intros [st0 nl] s1 G1. wp.
  eapply ok_conseq; [instantiate (1 := fun st s' => good s0 s' /\ (snd st = true -> block_context c = true))|].
  { wp; [|by wp]. use properties_loop_ok; [have_inv|pose proof (fuel_enough _ (good_inv _ _ G1)); lia|done|].
    intros st s2 [G2 Hst]. split; [chain|done]. }
  cbv beta. intros [[st1 nl1] abc] s2 [G2 Habc]. simpl in Habc. do 5 wp. positions.
  assert (Hx : block_context c = true -> extra c = 1) by (by destruct c).
  assert (Hx0 : 0 <= extra c) by (by destruct c). change (l_position s0) with (l_position s) in *.
  eapply ok_conseq; [instantiate (1 := fun b s' => reader b s2 s')|].
  { wp; [|wp; [|wp; split; [apply good_refl; have_inv|done]]].
    - apply read_content_ok; [have_inv|lia|]. intros E. bool_hyps. specialize (Hx (Habc ltac:(done))). lia.
    - apply andalso_ok; [have_inv|]. intros E. bool_hyps. specialize (Hx (Habc ltac:(done))).
      apply readSequence_ok; [have_inv|lia]. }
  cbv beta. intros b s3 [G3 Hb]. wp. use resolve_node_ok; [have_inv|]. intros _ s4 G4. positions. do 5 wp.
  assert (G : good s0 s4) by chain. split; [chain|]. intros E.
  destruct (Z.eq_dec (l_position s4) (l_position s)) as [Ep|]; [exfalso|lia].
  destruct G as [_ [_ Hr]]. destruct (Hr Ep) as (_ & _ & Htag).
  destruct (l_tag s4) eqn:Et; [apply Hnt, Htag; left; by rewrite Et|].
  destruct (l_anchor s4) eqn:Ea; [apply Hnt, Htag; right; by rewrite Ea|]. specialize (Hb E). lia.
Qed.
End Collections.

Lemma composeNode_ok n : forall pi c sk ac s, inv s -> 2 * (N - l_position s) + extra c < Z.of_nat n ->
  ok (composeNode cfg n pi c sk ac) s (fun b s' => reader b s s').
Proof.
  induction n as [|n IH]; intros pi c sk ac s Hi Hn; [destruct Hi as (? & ? & _), c; simpl in *; lia|].
  cbn [composeNode]. apply (composeNode_body_ok _ (Z.of_nat n)); [done|done|lia].
Qed.

(** *** Directives *)

(** Moves along a line: the indentation stays what it was. *)
Definition along (s s' : lstate) : Prop := good s s' /\ l_lineIndent s' = l_lineIndent s.

Lemma along_trans s1 s2 s3 : along s1 s2 -> along s2 s3 -> along s1 s3.
Proof. intros [H1 H2] [H3 H4]. split; [chain|congruence]. Qed.

Lemma move_along s : inv s -> at_ cfg (l_position s) <> 0 ->
  ok (move 1) s (fun _ s' => along s s' /\ l_position s' = l_position s + 1).
Proof. intros Hi Hc. destruct (good_move s s (good_refl s Hi) Hc) as [G _]. by repeat split; try apply G. Qed.

Lemma seek_fuel_indent p n : forall s, match seek_fuel cfg n p s with
  Done _ s' => l_lineIndent s' = l_lineIndent s | _ => True end.
Proof.
  induction n as [|n IH]; intros s; cbn [seek_fuel]; [done|]. unfold bind at 1, ch.
  destruct (p (at_ cfg (l_position s))); [|done]. specialize (IH (set_position (l_position s + 1) s)).
  exact IH.
Qed.

Lemma seek_along p s : p 0 = false -> inv s ->
  ok (seek cfg p) s (fun c s' => along s s' /\ c = at_ cfg (l_position s') /\ p c = false /\
    (if p (at_ cfg (l_position s)) then l_position s < l_position s' else s' = s)).
Proof.
  intros Hp Hi. pose proof (seek_ok p s Hp Hi) as H. pose proof (seek_fuel_indent p (fuel cfg) s) as H2.
  unfold ok, seek in *. destruct (seek_fuel cfg (fuel cfg) p s); [|done..]. unfold along. tauto.
Qed.

Lemma word_start c : is_WHITE_SPACE c = false -> is_EOL c = false -> c <> 0 -> word_char c = true.
Proof. intros H1 H2 Hz. unfold word_char. rewrite (stops c H1 H2). by apply Z.eqb_neq in Hz as ->. Qed.

Lemma args_loop_ok n : forall args s, inv s -> N - l_position s < Z.of_nat n ->
  ok (args_loop cfg n args) s (fun _ s' => along s s').
Proof.
  induction n as [|n IH]; intros args s Hi Hn; [destruct Hi as (? & ? & _); lia|]. cbn [args_loop]. wp. wp.
  wp; [wp; split; [by apply good_refl|done]|]. wp. use seek_along; [done|done|]. intros c s1 (A1 & Hc & Hw & Hm).
  pose proof (proj1 A1) as G1. positions. destruct (Z.eqb_spec c 35) as [->|_].
  { wp. use move_along; [have_inv|by rewrite <- Hc|]. intros _ s2 [A2 _]. pose proof (proj1 A2) as G2. wp.
    use seek_along; [done|have_inv|]. intros _ s3 (A3 & _). wp.
    by apply (along_trans s s1); [|apply (along_trans s1 s2)]. }
  wp; [by wp|]. do 3 wp. use seek_along; [done|have_inv|]. intros c2 s2 (A2 & _ & _ & Hm2).
  pose proof (proj1 A2) as G2. positions. do 2 wp.
  destruct (Z.eq_dec c 0) as [Ez|Hz].
  - (* a NUL behind the blanks: the next turn returns *)
    rewrite <- Hc, Ez in Hm2. simpl in Hm2. subst s2. assert (l_position s < l_position s1).
    { destruct (is_WHITE_SPACE (at_ cfg (l_position s))); [done|]. subst s1.
      match goal with H : (_ =? 0) = false |- _ => rewrite <- Hc, Ez in H; done end. }
    use IH; [have_inv|lia|]. intros _ s3 A3. by apply (along_trans s s1).
  - rewrite <- Hc in Hm2. rewrite (word_start c) in Hm2 by done.
    use IH; [have_inv|lia|]. intros _ s3 A3. by apply (along_trans s s1), (along_trans s1 s2).
Qed.

Lemma yaml_directive_ok args s : inv s -> ok (handleYamlDirective cfg args) s (fun _ s' => good s s' /\ same s s').
Proof.
  intros Hi. unfold handleYamlDirective. do 4 wp. repeat (wp; try wp).
  use same_ok; [done|done|]. intros _ s1 [G1 S1]. wp; [|by split]. use warning_ok; [have_inv|].
  intros _ s2 [G2 S2]. split; [chain|]. by apply (same_trans s s1).
Qed.

Lemma tag_directive_ok args s : inv s -> ok (handleTagDirective args) s (fun _ s' => good s s' /\ same s s').
Proof. intros Hi. unfold handleTagDirective. do 6 wp. repeat wp. by apply same_ok. Qed.

(** The line break after a directive, whose line is not indented. *)
Lemma directive_break_ok s : inv s -> l_lineIndent s = 0 ->
  ok (readLineBreak cfg) s (fun _ s' => good s s' /\ l_position s < l_position s').
Proof.
  intros Hi E. assert (H : match readLineBreak cfg s with Done _ s' => l_lineIndent s' = l_lineIndent s | _ => True end).
  { unfold readLineBreak, bind, ch, move, mwhen. simpl. repeat (destruct (_ =? _); simpl; try done). }
  pose proof (readLineBreak_ok s Hi) as H2. unfold ok in *. destruct (readLineBreak cfg s) as [u s'| |]; [|done..].
  destruct H2 as (H3 & H4 & H5). split; [apply good_moved; [|lia]|lia]. unfold inv. lia.
Qed.

Lemma directives_loop_ok n : forall b s, inv s -> N - l_position s < Z.of_nat n ->
  ok (directives_loop cfg n b) s (fun _ s' => good s s').
Proof.
  induction n as [|n IH]; intros b s Hi Hn; [destruct Hi as (? & ? & _); lia|]. cbn [directives_loop]. wp. wp.
  wp; [wp; by apply good_refl|]. wp. use skip_ok; [done|]. intros _ s1 (G1 & _). do 4 wp.
  destruct ((0 <? l_lineIndent s1) || negb (at_ cfg (l_position s1) =? 37)) eqn:E; [wp; chain|]. bool_hyps.
  assert (Ei : l_lineIndent s1 = 0) by (pose proof (good_inv _ _ G1) as (_ & _ & ? & _); lia).
  wp. use move_along; [have_inv|congruence|]. intros _ s2 [[G2 A2] E2]. do 3 wp.
  use seek_along; [done|have_inv|]. intros _ s3 ([G3 A3] & _). do 2 wp. cbv zeta. wp; [wp|]. wp.
  use args_loop_ok; [have_inv|pose proof (fuel_enough _ (good_inv _ _ G3)); lia|]. intros args s4 [G4 A4]. do 3 wp.
  eapply ok_conseq; [instantiate (1 := fun _ s' => good s4 s')|].
  { wp; [|apply good_refl; have_inv]. use directive_break_ok; [have_inv|congruence|]. by intros _ s5 [G5 _]. }
  cbv beta. intros _ s5 G5. wp. eapply ok_conseq; [instantiate (1 := fun _ s' => good s5 s' /\ same s5 s')|].
  { wp; [apply yaml_directive_ok; have_inv|]. wp; [apply tag_directive_ok; have_inv|]. apply warning_ok; have_inv. }
  cbv beta. intros _ s6 [G6 _]. positions. use IH; [have_inv|lia|]. intros _ s7 G7. chain.
Qed.

(** *** Documents *)

Lemma mark_in p : 0 <= p <= N -> at_ cfg p <> 0 -> at_ cfg (p + 1) <> 0 -> at_ cfg (p + 2) <> 0 -> p + 3 <= N.
Proof.
  intros Hp H0 H1 H2.
  destruct (Z.eq_dec p N) as [E|]; [by rewrite E in H0|].
  destruct (Z.eq_dec (p + 1) N) as [E|]; [by rewrite E in H1|].
  destruct (Z.eq_dec (p + 2) N) as [E|]; [by rewrite E in H2|]. lia.
Qed.

(** Skipping a document marker and the separation behind it. *)
Lemma skip_marker_ok s : inv s -> at_ cfg (l_position s) <> 0 -> at_ cfg (l_position s + 1) <> 0 ->
  at_ cfg (l_position s + 2) <> 0 ->
  ok (do! move 3; let! _ := skipSeparationSpace cfg true (-1) in ret tt) s
    (fun _ s' => good s s' /\ l_position s < l_position s').
Proof.
  intros Hi H0 H1 H2. pose proof Hi as (H3 & H4 & H5 & _).
  assert (H6 : l_position s + 3 <= N) by (apply mark_in; [lia|done..]).
  wp. unfold move. apply ok_modify. set (s1 := set_position _ s).
  assert (G1 : good s s1) by (apply good_moved; [unfold inv|]; simpl; lia).
  wp. use skip_ok; [have_inv|]. intros _ s2 (G2 & _). wp. positions. split; [chain|]. simpl in *. lia.
Qed.

Lemma separator_marks p : testDocumentSeparator cfg p = true ->
  (at_ cfg p = 45 \/ at_ cfg p = 46) /\ at_ cfg (p + 1) = at_ cfg p /\ at_ cfg (p + 2) = at_ cfg p.
Proof.
  unfold testDocumentSeparator. intros H. apply andb_true_iff in H as [H _]. apply andb_true_iff in H as [H H2].
  apply andb_true_iff in H as [H H1]. apply orb_true_iff in H. apply Z.eqb_eq in H1, H2. rewrite <- H1, <- H2.
  split; [|done]. destruct H as [H|H]; apply Z.eqb_eq in H; auto.
Qed.

(** Up to the directives end mark: without it, the reader is not at one on an
    unindented line. *)
Definition dashes (s : lstate) : bool :=
  (l_lineIndent s =? 0) && (at_ cfg (l_position s) =? 45) && (at_ cfg (l_position s + 1) =? 45) &&
  (at_ cfg (l_position s + 2) =? 45).

Lemma end_mark_ok (hd : bool) s : inv s ->
  ok (if dashes s then do! move 3; let! _ := skipSeparationSpace cfg true (-1) in ret tt
      else if hd then throwError "directives end mark is expected" else ret tt) s
    (fun _ s' => good s s' /\ (l_position s' = l_position s -> dashes s = false)).
Proof.
  intros Hi. destruct (dashes s) eqn:E.
  - pose proof E as E'. unfold dashes in E'. bool_hyps. use skip_marker_ok; [done|congruence..|].
    intros _ s1 [G1 Hm]. split; [chain|lia].
  - wp; [wp|]. wp. split; [by apply good_refl|done].
Qed.

(** A turn of the document loop ends behind where it started, or at the end. *)
Lemma readDocument_ok s : inv s ->
  ok (readDocument cfg) s (fun _ s' => inv s' /\ (l_position s < l_position s' \/ N - 1 <= l_position s')).
Proof.
  intros Hi. unfold readDocument. do 3 wp. use same_ok; [done|done|]. intros _ s0 [G0 _]. wp.
  use directives_loop_ok; [have_inv|pose proof (fuel_enough _ (good_inv _ _ G0)); lia|]. intros hd s1 G1. wp.
  use skip_ok; [have_inv|]. intros _ s2 (G2 & _). do 5 wp. fold (dashes s2). use end_mark_ok; [have_inv|].
  intros _ s3 [G3 Hd]. do 3 wp. use composeNode_ok; [have_inv| |].
  { pose proof (good_inv _ _ G3) as (? & ? & _). unfold depth, fuel. simpl. lia. }
  intros b s4 [G4 _]. wp. use skip_ok; [have_inv|]. intros _ s5 (G5 & _). do 5 wp.
  eapply ok_conseq; [instantiate (1 := fun _ s' => good s5 s' /\ same s5 s')|].
  { wp; [apply warning_ok; have_inv|]. split; [apply good_refl; have_inv|done]. }
  cbv beta. intros _ s6 [G6 S6]. do 3 wp. use same_ok; [have_inv|done|]. intros _ s7 [G7 S7]. do 2 wp.
  assert (S : same s5 s7) by (by apply (same_trans s5 s6)). destruct S as (E1 & E2 & E3 & _). rewrite E2, Hlen.
  positions. assert (Hi7 : inv s7) by have_inv. wp; [|wp; [wp|wp; split; [done|right]]].
  - match goal with H : (_ && _) = true |- _ => apply andb_true_iff in H as [El Hs] end. apply Z.eqb_eq in El.
    pose proof (separator_marks _ Hs) as (Hc & Hc1 & Hc2). rewrite <- E1 in *.
    assert (Hz : at_ cfg (l_position s7) <> 0) by (intros E; rewrite E in Hc; destruct Hc; done).
    wp.
    + use skip_marker_ok; [done|congruence..|]. intros _ s8 [G8 Hm]. split; [have_inv|left; lia].
    + split; [done|left]. destruct (Z.eq_dec (l_position s7) (l_position s)) as [Ep|]; [exfalso|lia].
      destruct Hc as [Hc|Hc]; [|rewrite Hc in *; done].
      assert (G27 : good s2 s7) by chain. destruct G27 as [_ [_ Hr]]. destruct Hr as (Hl & Hli & _); [lia|].
      assert (Hi2 : inv s2) by have_inv. destruct Hi2 as (_ & _ & _ & Hz2). specialize (Hd ltac:(lia)).
      unfold dashes in Hd. rewrite Hz2 in Hd by lia. replace (l_position s2) with (l_position s7) in Hd by lia.
      rewrite Hc1, Hc2, Hc in Hd. done.
  - match goal with H : (_ <? _) = false |- _ => apply Z.ltb_ge in H end. lia.
Qed.

Lemma documents_loop_ok n : forall s, inv s -> N - l_position s < Z.of_nat n ->
  ok (documents_loop cfg n) s (fun _ _ => True).
Proof.
  induction n as [|n IH]; intros s Hi Hn; [destruct Hi as (? & ? & _); lia|]. cbn [documents_loop]. wp. wp.
  rewrite Hlen. wp; [|by wp]. wp. use readDocument_ok; [done|]. intros _ s1 [Hi1 [Hm|Hm]]; [apply IH; [done|lia]|].
  destruct n as [|n]; [destruct Hi as (? & ? & _); lia|].
  match goal with H : (_ <? _) = true |- _ => apply Z.ltb_lt in H end. apply IH; [done|lia].
Qed.

Lemma documents_ok : ok (do! indent_loop cfg (fuel cfg); do! documents_loop cfg (fuel cfg); gets l_documents)
  initial (fun _ _ => True).
Proof.
  assert (Hi : inv initial) by (unfold inv; simpl; lia).
  wp. use indent_loop_ok; [done|pose proof (fuel_enough _ Hi); lia|]. intros _ s1 G1. wp.
  use documents_loop_ok; [have_inv|pose proof (fuel_enough _ (good_inv _ _ G1)); lia|]. intros _ s2 _. by wp.
Qed.
End Total.

(** ** The entry points *)

(** The prepared input is empty or ends with a line break. *)
Definition ends_line (s : jsstr) : Prop := s = [] \/ exists c, list.last s = Some c /\ (c = 10 \/ c = 13).

Lemma last_code s : s <> [] -> list.last s = Some (charCodeAt s (slen s - 1)).
Proof.
  intros Hs. destruct s as [|x s]; [done|]. unfold charCodeAt, slen.
  destruct (Z.ltb_spec (Z.of_nat (length (x :: s)) - 1) 0); [simpl in *; lia|].
  rewrite last_lookup. replace (Z.to_nat (Z.of_nat (length (x :: s)) - 1)) with (pred (length (x :: s))) by lia.
  destruct (lookup_lt_is_Some_2 (x :: s) (pred (length (x :: s)))) as [y Hy]; [simpl; lia|]. by rewrite Hy.
Qed.

Lemma ends_line_drop s : ends_line s -> charCodeAt s 0 = 65279 -> ends_line (drop 1 s).
Proof.
  intros [->|(c & Hl & Hc)] H0; [by left|]. right. exists c. split; [|done]. destruct s as [|x [|y s]]; [done| |done].
  simpl in Hl. injection Hl as <-. change (x = 65279) in H0. lia.
Qed.

Lemma prepare_ends input : ends_line (prepare input).
Proof.
  destruct input as [|x input]; [by left|]. unfold prepare. set (s := x :: input). cbv zeta.
  set (s1 := if (_ : bool) then s else s ++ [10]).
  assert (H : ends_line s1).
  { unfold s1. destruct ((charCodeAt s (slen s - 1) =? 10) || _) eqn:E; right.
    - exists (charCodeAt s (slen s - 1)). split; [by apply last_code|].
      apply orb_true_iff in E as [E|E]; apply Z.eqb_eq in E; auto.
    - exists 10. rewrite last_snoc. auto. }
  destruct (Z.eqb_spec (charCodeAt s1 0) 65279) as [E|]; [by apply ends_line_drop|done].
Qed.

Lemma charCodeAt_snoc s c : charCodeAt (s ++ [c]) (slen s) = c.
Proof. unfold charCodeAt, slen. destruct (Z.ltb_spec (Z.of_nat (length s)) 0); [lia|]. by rewrite Nat2Z.id, list_lookup_middle. Qed.

Lemma charCodeAt_app_l s t i : i < slen s -> charCodeAt (s ++ t) i = charCodeAt s i.
Proof.
  unfold charCodeAt, slen. intros Hi. destruct (Z.ltb_spec i 0); [done|]. by rewrite lookup_app_l by lia.
Qed.

(** The loader terminates on every input: whatever the text, the schema and the
    options, reading all documents returns or throws; the fuel of its loops (the
    length of the input) and of its recursion (twice that) is never exhausted. *)
Lemma loadDocuments_terminates input o : calls_return (o_runtime o) -> loadDocuments input o <> NoFuel.
Proof.
  intros Hcalls. set (cfg := make_config input o).
  assert (H : ok (do! indent_loop cfg (fuel cfg); do! documents_loop cfg (fuel cfg); gets l_documents)
    initial (fun _ _ => True)).
  { apply (documents_ok cfg (slen (prepare input))); [done|unfold slen; lia| | | |done].
    - simpl. rewrite length_app. unfold slen. simpl. lia.
    - apply charCodeAt_snoc.
    - destruct (prepare_ends input) as [E|(c & Hl & Hc)]; [left; by rewrite E|]. right.
      unfold at_. simpl. rewrite charCodeAt_app_l by lia. rewrite last_code in Hl by (intros E; by rewrite E in Hl).
      by injection Hl as ->. }
  unfold loadDocuments. fold cfg. intros E. unfold ok in H. by rewrite E in H.
Qed.

(** C1: [load] answers every input under every option but the listener, which is not modelled: it
    returns a value or throws, provided every function it calls for the text of a key or for an alias
    does (a function of the document, of the schema with functions, and the methods of built-in
    prototypes). *)
Theorem load_terminates input o : calls_return (o_runtime o) ->
  (exists v s, load input o = Done v s) \/ (exists e s, load input o = Raise e s).
Proof.
  intros Hc. pose proof (loadDocuments_terminates input o Hc) as H. unfold load.
  destruct (loadDocuments input o) as [[|d [|d2 l]] s|e s|]; eauto. done.
Qed.

Lemma load_terminates_witness :
  let o := safe_options (fun _ => []) plain_builtins false false false in
  (exists v s, load (js "{a: [b") o = Done v s) \/ (exists e s, load (js "{a: [b") o = Raise e s).
Proof. apply load_terminates. intros f this args st. discriminate. Defined.

(** Without functions no call is needed: the safe loader answers. *)
Lemma safe_calls_return b : calls_return (safe_runtime b).
Proof. intros f this args st. discriminate. Qed.
