(* ===== verification/YamlMark.v ===== *)
(** js-yaml's mark.js and exception.js: where an error is and how it is shown. *)
From S2P Require Import Prelude JsString YamlValue.

(** ** Mark *)

Record mark := Mark {
  m_name : jsstr;        (* the file name, empty when there is none *)
  m_buffer : jsstr;
  m_position : Z;
  m_line : Z;
  m_column : Z
}.

(** ["\0\r\n\u2028\u2029".indexOf(c) === -1] *)
Definition line_end (c : Z) : bool :=
  (c =? 0) || (c =? 13) || (c =? 10) || (c =? 8232) || (c =? 8233).

Definition ellipsis : jsstr := js " ... ".

(** The backward loop: [n] characters are left in front of [start]; the result is
    [(head, start)]. [d > maxLength / 2 - 1] is compared doubled. *)
Fixpoint snippet_head (buffer : jsstr) (position maxLength : Z) (n : nat) : jsstr * Z :=
  match n with
  | O => ([], 0)
  | S n' =>
      if line_end (charCodeAt buffer (Z.of_nat n')) then ([], Z.of_nat n)
      else if maxLength - 2 <? 2 * (position - Z.of_nat n')
      then (ellipsis, Z.of_nat n' + 5)
      else snippet_head buffer position maxLength n'
  end.

(** The forward loop, over the characters from [stop] on; the result is [(tail, end)]. *)
Fixpoint snippet_tail (rest : jsstr) (position maxLength stop : Z) : jsstr * Z :=
  match rest with
  | [] => ([], stop)
  | c :: rest' =>
      if line_end c then ([], stop)
      else if maxLength - 2 <? 2 * (stop + 1 - position)
      then (ellipsis, stop + 1 - 5)
      else snippet_tail rest' position maxLength (stop + 1)
  end.

(** [getSnippet(indent, maxLength)]; [None] stands for [null], 0 for an argument
    that is not given. *)
Definition getSnippet (m : mark) (indent maxLength : Z) : option jsstr :=
  if decide (m_buffer m = []) then None
  else
    let indent := if indent =? 0 then 4 else indent in
    let maxLength := if maxLength =? 0 then 75 else maxLength in
    let '(head, start) := snippet_head (m_buffer m) (m_position m) maxLength (Z.to_nat (m_position m)) in
    let '(tail, stop) := snippet_tail (drop (Z.to_nat (m_position m)) (m_buffer m)) (m_position m) maxLength
                           (m_position m) in
    let snippet := sslice (m_buffer m) start stop in
    Some (repeat [32] indent ++ head ++ snippet ++ tail ++ [10] ++
          repeat [32] (indent + m_position m - start + slen head) ++ [94]).

Definition mark_toString (m : mark) (compact : bool) : jsstr :=
  (if decide (m_name m = []) then [] else js "in " ++ 34 :: m_name m ++ 34 :: [32]) ++
  js "at line " ++ int_to_string 10 (m_line m + 1) ++ js ", column " ++ int_to_string 10 (m_column m + 1) ++
  (if compact then []
   else match getSnippet m 0 0 with
        | Some snippet => js ":" ++ 10 :: snippet
        | None => []
        end).

(** ** YAMLException *)

Definition reason_or_unknown (reason : jsstr) : jsstr :=
  if decide (reason = []) then js "(unknown reason)" else reason.

(** [this.message] of a new exception. *)
Definition exception_message (reason : jsstr) (m : option mark) : jsstr :=
  reason_or_unknown reason ++ (match m with Some m => 32 :: mark_toString m false | None => [] end).

Definition exception_toString (reason : jsstr) (m : option mark) (compact : bool) : jsstr :=
  js "YAMLException: " ++ reason_or_unknown reason ++
  (if compact then [] else match m with Some m => 32 :: mark_toString m false | None => [] end).

(** [generateError]: the mark of an exception of the loader over its input and file
    name. *)
Definition error_mark (filename input : jsstr) (e : js_error) : option mark :=
  match e with
  | YAMLException _ (Some (position, line, column)) => Some (Mark filename input position line column)
  | _ => None
  end.

(** ** The excerpt and the caret *)

Lemma sslice_empty s a b : b <= a -> sslice s a b = [].
Proof. intros H. unfold sslice. by replace (Z.to_nat (b - a)) with 0%nat by lia. Qed.

Lemma length_sslice s a b : 0 <= a -> b <= slen s -> slen (sslice s a b) = Z.max 0 (b - a).
Proof. intros Ha Hb. unfold sslice, slen in *. rewrite length_take, length_drop. lia. Qed.

Lemma lookup_sslice s a b i : 0 <= a -> 0 <= i < b - a ->
  sslice s a b !! Z.to_nat i = s !! Z.to_nat (a + i).
Proof.
  intros Ha Hi. unfold sslice. rewrite lookup_take_lt by lia. rewrite lookup_drop. f_equal. lia.
Qed.

(** What the backward loop found: no line end from [start] to [position], at most half the width,
    and the start of the line, or an ellipsis. *)
Definition head_ok (buffer : jsstr) (position maxLength : Z) (r : jsstr * Z) : Prop :=
  0 <= snd r <= position /\ 2 * (slen (fst r) + (position - snd r)) <= maxLength /\
  (forall i, snd r <= i < position -> line_end (charCodeAt buffer i) = false) /\
  (fst r = ellipsis \/ fst r = [] /\ (snd r = 0 \/ line_end (charCodeAt buffer (snd r - 1)) = true)).

Lemma snippet_head_ok buffer position M n : 10 <= M -> Z.of_nat n <= position -> 2 * (position - Z.of_nat n) <= M - 2 ->
  (forall i, Z.of_nat n <= i < position -> line_end (charCodeAt buffer i) = false) ->
  head_ok buffer position M (snippet_head buffer position M n).
Proof.
  intros HM. induction n as [|n IH]; intros Hn Hd Hl; cbn [snippet_head].
  - unfold head_ok, slen. cbn [fst snd length]. split; [lia|]. split; [lia|]. split; [intros; apply Hl; lia|]. right. split; [done|by left].
  - destruct (line_end (charCodeAt buffer (Z.of_nat n))) eqn:E.
    + unfold head_ok. unfold slen. cbn [fst snd length]. split; [lia|]. split; [lia|]. split; [done|]. right. split; [done|]. right.
      by replace (Z.of_nat (S n) - 1) with (Z.of_nat n) by lia.
    + assert (Hl' : forall i, Z.of_nat n <= i < position -> line_end (charCodeAt buffer i) = false).
      { intros i Hi. destruct (Z.eq_dec i (Z.of_nat n)) as [->|]; [done|apply Hl; lia]. }
      destruct (Z.ltb_spec (M - 2) (2 * (position - Z.of_nat n))).
      * unfold head_ok. unfold slen, ellipsis. cbn [fst snd length js].
        split; [lia|]. split; [lia|]. split; [intros; apply Hl'; lia|by left].
      * apply IH; [lia|lia|done].
Qed.

Definition tail_ok (buffer : jsstr) (position maxLength : Z) (r : jsstr * Z) : Prop :=
  position <= snd r <= slen buffer /\ 2 * (slen (fst r) + (snd r - position)) <= maxLength /\
  (forall i, position <= i < snd r -> line_end (charCodeAt buffer i) = false) /\
  (fst r = ellipsis \/ fst r = [] /\ (snd r = slen buffer \/ line_end (charCodeAt buffer (snd r)) = true)).

Lemma snippet_tail_ok buffer position M : 10 <= M -> 0 <= position -> forall rest stop,
  drop (Z.to_nat stop) buffer = rest -> position <= stop <= slen buffer -> 2 * (stop - position) <= M - 2 ->
  (forall i, position <= i < stop -> line_end (charCodeAt buffer i) = false) ->
  tail_ok buffer position M (snippet_tail rest position M stop).
Proof.
  intros HM Hp. induction rest as [|c rest IH]; intros stop Hr Hs Hd Hl; cbn [snippet_tail].
  - assert (He : stop = slen buffer) by (apply (f_equal length) in Hr; rewrite length_drop in Hr; unfold slen in *; cbn in Hr; lia).
    unfold tail_ok, slen in *. cbn [fst snd length]. split; [lia|]. split; [lia|]. split; [intros; apply Hl; lia|]. right. split; [done|by left].
  - assert (Hc : charCodeAt buffer stop = c /\ stop < slen buffer).
    { assert (Hk : buffer !! Z.to_nat stop = Some c).
      { rewrite <- (Nat.add_0_r (Z.to_nat stop)), <- lookup_drop, Hr. done. }
      unfold charCodeAt. destruct (Z.ltb_spec stop 0); [lia|]. rewrite Hk. split; [done|].
      apply lookup_lt_Some in Hk. unfold slen. lia. }
    destruct Hc as [Hc Hlt]. destruct (line_end c) eqn:E.
    + unfold tail_ok, slen in *. cbn [fst snd length]. split; [lia|]. split; [lia|]. split; [done|]. right. split; [done|]. right. by rewrite Hc.
    + assert (Hl' : forall i, position <= i < stop + 1 -> line_end (charCodeAt buffer i) = false).
      { intros i Hi. destruct (Z.eq_dec i stop) as [->|]; [by rewrite Hc|apply Hl; lia]. }
      destruct (Z.ltb_spec (M - 2) (2 * (stop + 1 - position))).
      * unfold tail_ok. unfold ellipsis, slen in *. cbn [fst snd length js].
        split; [lia|]. split; [lia|]. split; [intros; apply Hl'; lia|by left].
      * apply IH; [|lia|lia|done]. replace (Z.to_nat (stop + 1)) with (S (Z.to_nat stop)) by lia.
        by rewrite <- Nat.add_1_r, <- drop_drop, Hr.
Qed.

Lemma length_repeat1 c n : 0 <= n -> slen (repeat [c] n) = n.
Proof.
  intros Hn. unfold repeat, slen. rewrite <- (Z2Nat.id n) at 2 by done.
  induction (Z.to_nat n) as [|k IH]; [done|]. cbn [repeat_str]. rewrite length_app. simpl length. lia.
Qed.

Lemma lookup_app_at (s t : jsstr) i : slen s <= i -> (s ++ t) !! Z.to_nat i = t !! Z.to_nat (i - slen s).
Proof. intros Hi. unfold slen in *. rewrite lookup_app_r by lia. f_equal. lia. Qed.

(** The tail keeps the character at the position when the width allows. *)
Lemma snippet_tail_keeps rest position M : 12 <= M -> forall stop, position <= stop ->
  (stop = position -> exists c r, rest = c :: r /\ line_end c = false) ->
  position < snd (snippet_tail rest position M stop).
Proof.
  intros HM. induction rest as [|c rest IH]; intros stop Hs Hc; cbn [snippet_tail].
  - simpl. destruct (Z.eq_dec stop position) as [E|]; [|lia]. by destruct (Hc E) as (? & ? & ? & ?).
  - destruct (line_end c) eqn:E.
    + simpl. destruct (Z.eq_dec stop position) as [Es|]; [|lia]. destruct (Hc Es) as (? & ? & [= <- <-] & ?). congruence.
    + destruct (Z.ltb_spec (M - 2) (2 * (stop + 1 - position))); cbn [snd]; [lia|]. apply IH; lia.
Qed.

(** [getSnippet] on its defaults. *)
Definition or_default (x d : Z) : Z := if x =? 0 then d else x.

(** The part of a text from [start] to [stop] is a part of one line of it, and ellipses stand for what
    is left out of that line. *)
Definition excerpt (buffer : jsstr) (start stop : Z) (head tail : jsstr) : Prop :=
  0 <= start <= stop /\ stop <= slen buffer /\ (forall i, start <= i < stop -> line_end (charCodeAt buffer i) = false) /\
  (head = ellipsis \/ head = [] /\ (start = 0 \/ line_end (charCodeAt buffer (start - 1)) = true)) /\
  (tail = ellipsis \/ tail = [] /\ (stop = slen buffer \/ line_end (charCodeAt buffer stop) = true)).

(** C40: With a maximal length of 12 or more (75 where none is given), the excerpt of an error is the
    indentation and a part of one line of the input (lines end at NUL, CR, LF, U+2028 and U+2029), whole
    or with an ellipsis at an end that was left out, not wider than the indentation and the maximal
    length, followed by a caret line; the caret stands under the character at the position of the mark,
    unless that is a line end or the end of the input. *)
Theorem snippet_caret m indent maxLength :
  m_buffer m <> [] -> 0 <= m_position m <= slen (m_buffer m) ->
  0 <= indent -> 12 <= or_default maxLength 75 ->
  exists head start stop tail col,
    let line := repeat [32] (or_default indent 4) ++ head ++ sslice (m_buffer m) start stop ++ tail in
    getSnippet m indent maxLength = Some (line ++ [10] ++ repeat [32] col ++ [94]) /\
    excerpt (m_buffer m) start stop head tail /\ start <= m_position m <= stop /\
    slen line <= or_default indent 4 + or_default maxLength 75 /\
    0 <= col <= slen line /\
    (m_position m < slen (m_buffer m) -> line_end (charCodeAt (m_buffer m) (m_position m)) = false ->
     charCodeAt line col = charCodeAt (m_buffer m) (m_position m)).
Proof.
  intros Hb Hp Hi HM. unfold getSnippet. rewrite decide_False by done. fold (or_default indent 4) (or_default maxLength 75).
  set (I := or_default indent 4). set (X := or_default maxLength 75) in *. assert (HI : 0 < I) by (unfold I, or_default; destr_cmp; lia).
  pose proof (snippet_head_ok (m_buffer m) (m_position m) X (Z.to_nat (m_position m))) as Hh.
  pose proof (snippet_tail_ok (m_buffer m) (m_position m) X ltac:(lia) ltac:(lia) _ (m_position m) eq_refl) as Ht.
  pose proof (snippet_tail_keeps (drop (Z.to_nat (m_position m)) (m_buffer m)) (m_position m) X HM (m_position m)) as Hk.
  destruct (snippet_head _ _ _ _) as [head start], (snippet_tail _ _ _ _) as [tail stop].
  destruct Hh as (H1 & H2 & H3 & H4); [lia..|]. destruct Ht as (H5 & H6 & H7 & H8); [lia..|]. cbn [fst snd] in *.
  exists head, start, stop, tail, (I + m_position m - start + slen head). cbv zeta.
  pose proof (length_repeat1 32 I ltac:(lia)) as L1.
  pose proof (length_sslice (m_buffer m) start stop ltac:(lia) ltac:(lia)) as L2.
  split; [by rewrite <- !app_assoc|]. split; [|split; [lia|split; [|split; [split|]]]].
  - split; [lia|]. split; [lia|]. split; [|done]. intros i Hr. destruct (Z.lt_ge_cases i (m_position m)); [apply H3|apply H7]; lia.
  - unfold slen in *. rewrite !length_app. lia.
  - unfold slen in *. lia.
  - unfold slen in *. rewrite !length_app. lia.
  - intros Hlt Hne. unfold charCodeAt at 1 2. destruct (Z.ltb_spec (I + m_position m - start + slen head) 0); [unfold slen in *; lia|].
    destruct (Z.ltb_spec (m_position m) 0); [lia|]. f_equal.
    rewrite !lookup_app_at by (unfold slen in *; lia).
    assert (Hs : m_position m < stop).
    { apply Hk; [lia|]. intros _. unfold charCodeAt in Hne. destruct (Z.ltb_spec (m_position m) 0); [lia|].
      destruct (m_buffer m !! Z.to_nat (m_position m)) as [c|] eqn:E; [|apply lookup_ge_None in E; unfold slen in *; lia].
      exists c, (drop (S (Z.to_nat (m_position m))) (m_buffer m)). split; [by apply drop_S|done]. }
    rewrite L1. replace (I + m_position m - start + slen head - I - slen head) with (m_position m - start) by lia.
    rewrite lookup_app_l by (unfold slen in *; lia). rewrite lookup_sslice by lia. f_equal. lia.
Qed.

Lemma snippet_caret_witness :
  let m := Mark [] (js "a: [1, 2" ++ [10; 0]) 7 0 7 in
  exists head start stop tail col,
    let line := repeat [32] 4 ++ head ++ sslice (m_buffer m) start stop ++ tail in
    getSnippet m 0 0 = Some (line ++ [10] ++ repeat [32] col ++ [94]) /\
    excerpt (m_buffer m) start stop head tail /\ start <= 7 <= stop /\ slen line <= 4 + 75 /\ 0 <= col <= slen line /\
    (7 < slen (m_buffer m) -> line_end (charCodeAt (m_buffer m) 7) = false -> charCodeAt line col = charCodeAt (m_buffer m) 7).
Proof. apply (snippet_caret (Mark [] (js "a: [1, 2" ++ [10; 0]) 7 0 7) 0 0); [done|vm_decide|lia|vm_decide]. Defined.
