(* ===== verification/UriCodec.v ===== *)
(** [encodeURIComponent] and [decodeURIComponent] of the language, [split] and [join]
    on strings, and that decoding undoes encoding. *)
From S2P Require Import Prelude JsString BufferCodec BufferText.

(** ** Encoding *)

Definition unreserved (c : Z) : bool :=
  ((48 <=? c) && (c <=? 57)) || ((65 <=? c) && (c <=? 90)) || ((97 <=? c) && (c <=? 122)) ||
  bool_decide (c ∈ js "-_.!~*'()").

Definition upper_hex (d : Z) : Z := if d <? 10 then 48 + d else 55 + d.

(** [%XX] *)
Definition percent (b : Z) : jsstr := [37; upper_hex (b / 16); upper_hex (b mod 16)].

Fixpoint encodeURIComponent (s : jsstr) : js_error + jsstr :=
  match s with
  | [] => inr []
  | c :: s' =>
      if unreserved c then push [c] (encodeURIComponent s')
      else if is_trail c then inl URIError
      else if is_lead c then
        match s' with
        | d :: s'' =>
            if is_trail d
            then push (utf8_ref ((c - 55296) * 1024 + (d - 56320) + 65536) ≫= percent) (encodeURIComponent s'')
            else inl URIError
        | [] => inl URIError
        end
      else push (utf8_ref c ≫= percent) (encodeURIComponent s')
  end.

(** ** Decoding *)

Definition hex_val (c : Z) : option Z :=
  match digit_val c with Some d => if d <? 16 then Some d else None | None => None end.

(** The octet of an escape whose percent sign was read. *)
Definition octet (s : jsstr) : option (Z * jsstr) :=
  match s with
  | x :: y :: s' =>
      match hex_val x, hex_val y with
      | Some a, Some b => Some (16 * a + b, s')
      | _, _ => None
      end
  | _ => None
  end.

(** The escapes of [n] continuation octets. *)
Fixpoint octets (n : nat) (s : jsstr) : option (list Z * jsstr) :=
  match n with
  | O => Some ([], s)
  | S n' =>
      match s with
      | 37 :: s' =>
          match octet s' with
          | Some (b, r) =>
              if is_cont b then
                match octets n' r with Some (bs, r') => Some (b :: bs, r') | None => None end
              else None
          | None => None
          end
      | _ => None
      end
  end.

(** The number of octets a leading octet announces; 0 for none. *)
Definition sequence_length (b : Z) : nat :=
  if (192 <=? b) && (b <? 224) then 2
  else if (224 <=? b) && (b <? 240) then 3
  else if (240 <=? b) && (b <? 248) then 4 else 0.

Definition is_scalar (cp : Z) : bool :=
  (0 <=? cp) && (cp <? 1114112) && negb ((55296 <=? cp) && (cp <? 57344)).

(** The bits a sequence carries. *)
Definition utf8_bits (bs : list Z) : Z :=
  match bs with
  | [b0; b1] => (b0 - 192) * 64 + (b1 - 128)
  | [b0; b1; b2] => (b0 - 224) * 4096 + (b1 - 128) * 64 + (b2 - 128)
  | [b0; b1; b2; b3] => (b0 - 240) * 262144 + (b1 - 128) * 4096 + (b2 - 128) * 64 + (b3 - 128)
  | _ => -1
  end.

(** The code point of a valid sequence: the bits, if they encode back to it (no
    overlong form, no surrogate). *)
Definition utf8_value (bs : list Z) : option Z :=
  let cp := utf8_bits bs in
  if is_scalar cp && bool_decide (utf8_ref cp = bs) then Some cp else None.

Fixpoint decode_uri (n : nat) (s : jsstr) : js_error + jsstr :=
  match n with
  | O => inl URIError
  | S n' =>
      match s with
      | [] => inr []
      | c :: s' =>
          if c =? 37 then
            match octet s' with
            | None => inl URIError
            | Some (b, r) =>
                if b <? 128 then push [b] (decode_uri n' r)
                else
                  match sequence_length b with
                  | O => inl URIError
                  | S k =>
                      match octets k r with
                      | None => inl URIError
                      | Some (bs, r') =>
                          match utf8_value (b :: bs) with
                          | None => inl URIError
                          | Some cp => push (utf16 cp) (decode_uri n' r')
                          end
                      end
                  end
            end
          else push [c] (decode_uri n' s')
      end
  end.

Definition decodeURIComponent (s : jsstr) : js_error + jsstr := decode_uri (S (length s)) s.

(** ** Splitting and joining *)

(** [s.split(c)] for a one-unit separator. *)
Fixpoint split_unit (c : Z) (s : jsstr) : list jsstr :=
  match s with
  | [] => [[]]
  | x :: s' =>
      if x =? c then [] :: split_unit c s'
      else match split_unit c s' with
           | p :: ps => (x :: p) :: ps
           | [] => [[x]]
           end
  end.

(** [l.join(c)] for a one-unit separator. *)
Fixpoint join_unit (c : Z) (l : list jsstr) : jsstr :=
  match l with
  | [] => []
  | [s] => s
  | s :: l' => s ++ c :: join_unit c l'
  end.

(** ** The fuel of the decoder *)

Lemma octet_length s b r : octet s = Some (b, r) -> (length s = 2 + length r)%nat.
Proof.
  destruct s as [|x [|y s]]; simpl; [done|done|]. destruct (hex_val x), (hex_val y); [|done..]. by intros [= _ ->].
Qed.

Lemma octets_length n : forall s bs r, octets n s = Some (bs, r) -> (length r <= length s)%nat.
Proof.
  induction n as [|n IH]; intros s bs r; cbn [octets]; [by intros [= _ ->]|].
  destruct s as [|c s]; [done|]. destruct (decide (c = 37)) as [->|Hc].
  - destruct (octet s) as [[b r1]|] eqn:E; [|done]. apply octet_length in E. destruct (is_cont b); [|done].
    destruct (octets n r1) as [[bs1 r2]|] eqn:E2; [|done]. apply IH in E2. intros [= _ ->]. simpl. lia.
  - intros H. exfalso. revert H. destruct c as [|c|c]; [done| |done]. by repeat (destruct c as [c|c|]; try done).
Qed.

(** Any fuel beyond the length gives the same answer. *)
Lemma decode_uri_fuel n : forall m s, (length s < n)%nat -> (length s < m)%nat -> decode_uri n s = decode_uri m s.
Proof.
  induction n as [|n IH]; intros m s Hn Hm; [lia|]. destruct m as [|m]; [lia|]. cbn [decode_uri].
  destruct s as [|c s]; [done|]. simpl in Hn, Hm. destruct (c =? 37).
  - destruct (octet s) as [[b r]|] eqn:E; [|done]. apply octet_length in E. destruct (b <? 128).
    + by rewrite (IH m r) by lia.
    + destruct (sequence_length b) as [|k]; [done|]. destruct (octets k r) as [[bs r']|] eqn:E2; [|done].
      apply octets_length in E2. destruct (utf8_value (b :: bs)); [|done]. by rewrite (IH m r') by lia.
  - by rewrite (IH m s) by lia.
Qed.

Lemma decode_any_fuel n s : (length s < n)%nat -> decode_uri n s = decodeURIComponent s.
Proof. intros H. apply decode_uri_fuel; [done|lia]. Qed.

(** ** Round trip *)

Lemma hex_val_upper d : 0 <= d < 16 -> hex_val (upper_hex d) = Some d.
Proof. intros H. unfold hex_val, digit_val, upper_hex. destr_cmp; simpl; try lia; destr_cmp; try lia; f_equal; lia. Qed.

Lemma octet_percent b r : 0 <= b < 256 -> octet (drop 1 (percent b) ++ r) = Some (b, r).
Proof.
  intros H. cbn [percent drop app octet]. rewrite !hex_val_upper by (Z.div_mod_to_equations; lia).
  do 2 f_equal. Z.div_mod_to_equations; lia.
Qed.

Lemma octets_percent bs : Forall (fun b => 128 <= b < 192) bs -> forall r,
  octets (length bs) ((bs ≫= percent) ++ r) = Some (bs, r).
Proof.
  induction 1 as [|b bs Hb _ IH]; intros r; [done|]. cbn [mbind list_bind length]. rewrite <- app_assoc.
  change (percent b ++ (bs ≫= percent) ++ r) with (37 :: drop 1 (percent b) ++ (bs ≫= percent) ++ r).
  cbn [octets]. rewrite octet_percent by lia. rewrite is_cont_byte by lia. by rewrite IH.
Qed.

(** The sequence of a code point beyond ASCII. *)
Lemma utf8_ref_shape cp : 128 <= cp < 1114112 -> exists b bs,
  utf8_ref cp = b :: bs /\ 128 <= b < 256 /\ sequence_length b = S (length bs) /\
  Forall (fun b => 128 <= b < 192) bs.
Proof.
  intros H. unfold utf8_ref. destr_cmp; [lia|..]; do 2 eexists; (split; [done|]).
  all: unfold sequence_length; split; [Z.div_mod_to_equations; lia|]; split.
  all: try (repeat constructor; Z.div_mod_to_equations; lia).
  all: destr_cmp; simpl; try done; Z.div_mod_to_equations; lia.
Qed.

Lemma is_scalar_true cp : scalar cp -> is_scalar cp = true.
Proof. intros [H1 H2]. unfold is_scalar. destr_cmp; simpl; try lia; done. Qed.

Lemma utf8_value_ref cp : scalar cp -> 128 <= cp -> utf8_value (utf8_ref cp) = Some cp.
Proof.
  intros Hs Hc. unfold utf8_value. assert (Hv : utf8_bits (utf8_ref cp) = cp).
  { destruct Hs as [Hs _]. unfold utf8_ref. destr_cmp; [lia|..]; cbn [utf8_bits]; Z.div_mod_to_equations; lia. }
  cbv zeta. rewrite Hv, is_scalar_true by done. by rewrite bool_decide_eq_true_2.
Qed.

Lemma decode_scalar cp n r : scalar cp ->
  decode_uri (S n) ((utf8_ref cp ≫= percent) ++ r) = push (utf16 cp) (decode_uri n r).
Proof.
  intros Hs. destruct (Z.lt_ge_cases cp 128).
  - assert (E : utf8_ref cp = [cp]) by (unfold utf8_ref; destr_cmp; [done|lia..]).
    rewrite E. cbn [mbind list_bind]. rewrite app_nil_r.
    change (percent cp ++ r) with (37 :: drop 1 (percent cp) ++ r). cbn [decode_uri Z.eqb Pos.eqb].
    destruct Hs as [Hs _]. rewrite octet_percent by lia. destruct (Z.ltb_spec cp 128); [|lia].
    unfold utf16. destr_cmp; [done|lia].
  - destruct (utf8_ref_shape cp) as (b & bs & E & Hb & Hl & HF); [destruct Hs; lia|].
    pose proof (utf8_value_ref cp Hs) as Hv. rewrite E in *. cbn [mbind list_bind]. rewrite <- app_assoc.
    change (percent b ++ (bs ≫= percent) ++ r) with (37 :: drop 1 (percent b) ++ (bs ≫= percent) ++ r).
    cbn [decode_uri Z.eqb Pos.eqb]. rewrite octet_percent by lia. destruct (Z.ltb_spec b 128); [lia|].
    rewrite Hl, octets_percent by done. by rewrite Hv by lia.
Qed.

Lemma unreserved_marks c : c ∈ js "-_.!~*'()" -> 0 <= c < 128.
Proof.
  assert (F : Forall (fun c => 0 <= c < 128) (js "-_.!~*'()")) by vm_decide.
  rewrite list.Forall_forall in F. apply F.
Qed.

Lemma encode_scalar cp s : scalar cp ->
  encodeURIComponent (utf16 cp ++ s) =
  push (if unreserved cp then [cp] else utf8_ref cp ≫= percent) (encodeURIComponent s).
Proof.
  intros [Hr Hn]. unfold utf16. destruct (Z.ltb_spec cp 65536).
  - cbn [app encodeURIComponent]. destruct (unreserved cp); [done|].
    assert (is_trail cp = false /\ is_lead cp = false) as [-> ->]; [|done].
    unfold is_trail, is_lead. rewrite !andb_false_iff, !Z.leb_gt, !Z.ltb_ge. lia.
  - set (l := 55296 + (cp - 65536) / 1024). set (c := 56320 + (cp - 65536) mod 1024).
    assert (55296 <= l < 56320 /\ 56320 <= c < 57344 /\ (l - 55296) * 1024 + (c - 56320) + 65536 = cp)
      as (Hl & Hc & E) by (subst l c; Z.div_mod_to_equations; lia).
    clearbody l c. cbn [app encodeURIComponent]. rewrite E.
    assert (Hu : forall x, 128 <= x -> unreserved x = false).
    { intros x Hx. unfold unreserved. destr_cmp; simpl; try lia; apply bool_decide_eq_false_2;
        intros ?%unreserved_marks; lia. }
    rewrite !Hu by lia. unfold is_trail, is_lead. destr_cmp; simpl; try lia; done.
Qed.

Lemma unreserved_plain c : unreserved c = true -> c <> 37 /\ c <> 38 /\ c <> 61 /\ 0 <= c < 128.
Proof.
  intros H. assert (Hc : 0 <= c < 128 \/ ~ 0 <= c < 128) by lia. destruct Hc as [Hc|Hc].
  - assert (E : (if unreserved c then negb ((c =? 37) || (c =? 38) || (c =? 61)) else true) = true).
    { apply (forall_below_spec 128 (fun c => if unreserved c then negb ((c =? 37) || (c =? 38) || (c =? 61)) else true));
        [vm_compute; done|lia]. }
    rewrite H in E. bool_hyps. lia.
  - exfalso. unfold unreserved in H. apply orb_true_iff in H as [H|H].
    + apply orb_true_iff in H as [H|H]; [apply orb_true_iff in H as [H|H]|]; bool_hyps; lia.
    + apply bool_decide_eq_true_1, unreserved_marks in H. lia.
Qed.

Lemma decode_plain c n s : c <> 37 -> decode_uri (S n) (c :: s) = push [c] (decode_uri n s).
Proof. intros H. cbn [decode_uri]. by destruct (Z.eqb_spec c 37). Qed.

(** The encoding of a well-formed string: a string of unreserved units and escapes,
    decoded to the string. *)
Lemma uri_roundtrip s : wf16 s = true ->
  exists e, encodeURIComponent s = inr e /\ decodeURIComponent e = inr s /\
    Forall (fun c => c <> 38 /\ c <> 61) e /\ (s <> [] -> e <> []).
Proof.
  intros (cps & HF & ->)%wf16_scalars. induction HF as [|cp cps Hs _ (e & He & Hd & HF & _)]; [by exists []|].
  cbn [mbind list_bind]. rewrite encode_scalar, He by done. eexists. split; [done|].
  destruct (unreserved cp) eqn:Hu.
  - destruct (unreserved_plain cp Hu) as (H1 & H2 & H3 & H4). repeat split; [|by constructor|done].
    unfold decodeURIComponent at 1. cbn [app length]. rewrite decode_plain by done.
    rewrite decode_any_fuel by lia. rewrite Hd. unfold utf16. destr_cmp; [done|lia].
  - repeat split.
    + rewrite <- (decode_any_fuel (S (S (length ((utf8_ref cp ≫= percent) ++ e))))) by lia.
      rewrite decode_scalar by done. rewrite decode_any_fuel by (rewrite length_app; lia). by rewrite Hd.
    + apply Forall_app. split; [|done]. apply Forall_bind. pose proof (utf8_ref_bytes cp (proj1 Hs)) as Hb.
      rewrite list.Forall_forall in Hb. intros b Hb2%Hb. unfold BufferStore.byte in Hb2.
      unfold compose, percent, upper_hex. repeat constructor; try (destr_cmp; Z.div_mod_to_equations; lia).
    + intros _ E. apply app_eq_nil in E as [E _]. unfold utf8_ref in E. revert E. by destr_cmp.
Qed.

Lemma split_no_sep c s : Forall (fun x => x <> c) s -> split_unit c s = [s].
Proof.
  induction 1 as [|x s Hx _ IH]; [done|]. cbn [split_unit]. destruct (Z.eqb_spec x c); [done|]. by rewrite IH.
Qed.

Lemma split_app c s t : Forall (fun x => x <> c) s -> split_unit c (s ++ c :: t) = s :: split_unit c t.
Proof.
  induction 1 as [|x s Hx _ IH]; cbn [app split_unit]; [by rewrite Z.eqb_refl|].
  destruct (Z.eqb_spec x c); [done|]. by rewrite IH.
Qed.

(** Splitting undoes joining when no part contains the separator. *)
Lemma split_join c l : l <> [] -> Forall (Forall (fun x => x <> c)) l -> split_unit c (join_unit c l) = l.
Proof.
  intros Hl HF. induction HF as [|s l Hs HF IH]; [done|]. destruct l as [|s2 l].
  - by apply split_no_sep.
  - change (join_unit c (s :: s2 :: l)) with (s ++ c :: join_unit c (s2 :: l)). rewrite split_app by done.
    by rewrite IH.
Qed.
