(* ===== verification/SuiUrl.v ===== *)
(** Swagger UI: query strings, form bodies and deep links (core/utils.js and the
    deep-linking plugin, with the location it writes and reads). *)
From S2P Require Import Prelude BufferStore JsString BufferCodec BufferText UriCodec YamlValue.

(** ** Results *)

Definition rbind {A B} (r : js_error + A) (k : A -> js_error + B) : js_error + B :=
  match r with inr a => k a | inl e => inl e end.
Notation "'let?' x ':=' r 'in' k" := (rbind r (fun x => k))
  (at level 10, x binder, r at level 100, k at level 200,
   format "'let?'  x  ':='  r  'in' '//' k") : js_scope.

Fixpoint traverse {A B} (f : A -> js_error + B) (l : list A) : js_error + list B :=
  match l with
  | [] => inr []
  | x :: l' => let? y := f x in let? ys := traverse f l' in inr (y :: ys)
  end.

Lemma traverse_all {A B} (f : A -> js_error + B) (g : A -> B) l :
  Forall (fun x => f x = inr (g x)) l -> traverse f l = inr (g <$> l).
Proof. induction 1 as [|x l Hx _ IH]; [done|]. cbn [traverse]. rewrite Hx. cbn [rbind]. by rewrite IH. Qed.

(** ** Query strings *)

(** [serializeSearch]: an object whose values are strings. *)
Definition serializeSearch (searchMap : list (jsstr * jsstr)) : js_error + jsstr :=
  let? parts := traverse (fun k =>
    let? ek := encodeURIComponent k in
    let? ev := encodeURIComponent (default (js "undefined") (assoc k searchMap)) in
    inr (ek ++ 61 :: ev)) (obj_keys searchMap) in
  inr (join_unit 38 parts).

(** One [key=value] part; [i[1] && decodeURIComponent(i[1]) || ""]. *)
Definition parse_part (part : jsstr) : js_error + (jsstr * jsstr) :=
  let i := split_unit 61 part in
  let? k := decodeURIComponent (default [] (i !! 0%nat)) in
  let? v := (match i !! 1%nat with
             | None | Some [] => inr []
             | Some w => decodeURIComponent w
             end) in
  inr (k, v).

Fixpoint parse_parts (parts : list jsstr) (map : list (jsstr * jsstr)) : js_error + list (jsstr * jsstr) :=
  match parts with
  | [] => inr map
  | part :: parts' => let? kv := parse_part part in parse_parts parts' (set_prop (fst kv) (snd kv) map)
  end.

(** [parseSearch] of [location.search]. *)
Definition parseSearch (search : jsstr) : js_error + list (jsstr * jsstr) :=
  match search with
  | [] => inr []
  | _ => parse_parts (split_unit 38 (drop 1 search)) []
  end.

(** ** Form bodies *)

(** [s.replace(/%20/g, "+")] *)
Fixpoint plus_for_space (s : jsstr) : jsstr :=
  match s with
  | [] => []
  | c :: s' =>
      match s' with
      | d :: e :: s'' =>
          if (c =? 37) && (d =? 50) && (e =? 48) then 43 :: plus_for_space s'' else c :: plus_for_space s'
      | _ => c :: plus_for_space s'
      end
  end.

(** [buildFormData]: a value that is undefined or empty is left out. *)
Definition buildFormData (data : list (jsstr * option jsstr)) : js_error + jsstr :=
  let? parts := traverse (fun k =>
    match assoc k data with
    | Some (Some (c :: v)) => let? ev := encodeURIComponent (c :: v) in inr [k ++ 61 :: plus_for_space ev]
    | _ => inr []
    end) (obj_keys data) in
  inr (join_unit 38 (List.concat parts)).

(** ** Deep links *)

(** [createDeepLinkPath]: trimmed, every white space an underscore. *)
Definition createDeepLinkPath (str : jsstr) : jsstr :=
  (fun c => if is_space c then 95 else c) <$> trim str.

(** Missing elements of a short key are [undefined]. *)
Definition urlHashArrayFromIsShownKey (isShownKey : list jsstr) : list (option jsstr) :=
  let tag := isShownKey !! 1%nat in
  let operationId := isShownKey !! 2%nat in
  if decide (isShownKey !! 0%nat = Some (js "operations")) then [tag; operationId]
  else if decide (isShownKey !! 0%nat = Some (js "operations-tag")) then [tag] else [].

Definition isShownKeyFromUrlHashArray (urlHashArray : list jsstr) : list jsstr :=
  match urlHashArray with
  | tag :: operationId :: _ =>
      if decide (operationId = []) then if decide (tag = []) then [] else [js "operations-tag"; tag]
      else [js "operations"; tag; operationId]
  | [tag] => if decide (tag = []) then [] else [js "operations-tag"; tag]
  | [] => []
  end.

(** A string in a concatenation. *)
Definition or_undefined (s : option jsstr) : jsstr := default (js "undefined") s.

(** What the [show] wrapper hands to [setHash], if anything. *)
Definition show_hash (tokenArray : list jsstr) (shown : bool) : option jsstr :=
  match urlHashArrayFromIsShownKey tokenArray with
  | [] => None
  | type :: rest =>
      if negb shown then Some (js "/")
      else match rest with
           | [assetName] => Some (createDeepLinkPath (js "/" ++ or_undefined type ++ js "/" ++ or_undefined assetName))
           | [] => Some (createDeepLinkPath (js "/" ++ or_undefined type))
           | _ => None
           end
  end.

(** The browser keeps the URL as the URL standard says: C0 controls and spaces at its end are cut off,
    tabs and line ends are left out, and in the fragment controls, characters outside ASCII and space,
    quote, less-than, greater-than and backquote are percent-encoded in UTF-8, half a surrogate pair as
    U+FFFD. *)
Definition fragment_char (c : Z) : bool := (33 <=? c) && (c <=? 126) && negb (bool_decide (c ∈ [34; 60; 62; 96])).

Fixpoint fragment (s : jsstr) : jsstr :=
  match s with
  | [] => []
  | c :: s' =>
      if fragment_char c then c :: fragment s'
      else if is_lead c then
        match s' with
        | d :: s'' =>
            if is_trail d then (utf8_ref ((c - 55296) * 1024 + (d - 56320) + 65536) ≫= percent) ++ fragment s''
            else (utf8_ref 65533 ≫= percent) ++ fragment s'
        | [] => utf8_ref 65533 ≫= percent
        end
      else (utf8_ref (if is_trail c then 65533 else c) ≫= percent) ++ fragment s'
  end.

Fixpoint drop_controls (s : jsstr) : jsstr :=
  match s with c :: s' => if c <=? 32 then drop_controls s' else s | [] => [] end.

(** [window.location.hash] after [setHash(value)] *)
Definition setHash (value : jsstr) : jsstr :=
  match fragment (base.filter (fun c => c ∉ [9; 10; 13]) (rev (drop_controls (rev value)))) with
  | [] => []
  | f => 35 :: f
  end.

Definition underscore_to_space (c : Z) : Z := if c =? 95 then 32 else c.

(** [parseDeepLinkHash]: the key that is shown and scrolled to. *)
Definition parseDeepLinkHash (rawHash : jsstr) : option (list jsstr) :=
  match rawHash with
  | [] => None
  | _ :: hash =>
      let hash := match hash with 33 :: h => h | h => h end in
      let hash := match hash with 47 :: h => h | h => h end in
      Some (isShownKeyFromUrlHashArray ((fun val : jsstr => underscore_to_space <$> val) <$> split_unit 47 hash))
  end.

(** ** Query strings survive *)

Lemma traverse_inr {A B} (f : A -> js_error + B) l ys :
  traverse f l = inr ys <-> Forall2 (fun x y => f x = inr y) l ys.
Proof.
  revert ys. induction l as [|x l IH]; intros ys; cbn [traverse].
  - split; [by intros [= <-]|]. by intros ->%Forall2_nil_inv_l.
  - unfold rbind. split.
    + destruct (f x) as [|y] eqn:E; [done|]. destruct (traverse f l) as [|zs] eqn:E2; [done|].
      intros [= <-]. constructor; [done|]. by apply IH.
    + intros (y & zs & E & H & ->)%Forall2_cons_inv_l. rewrite E. apply IH in H. by rewrite H.
Qed.

Lemma parse_part_encoded k v ek ev :
  decodeURIComponent ek = inr k -> decodeURIComponent ev = inr v ->
  Forall (fun c => c <> 61) ek -> Forall (fun c => c <> 61) ev ->
  parse_part (ek ++ 61 :: ev) = inr (k, v).
Proof.
  intros Hk Hv H1 H2. unfold parse_part. rewrite split_app, split_no_sep by done. cbv zeta.
  change (default [] ([ek; ev] !! 0%nat)) with ek. change ([ek; ev] !! 1%nat) with (Some ev).
  unfold rbind. rewrite Hk. destruct ev as [|c ev].
  - vm_compute in Hv. by injection Hv as <-.
  - by rewrite Hv.
Qed.

Definition good_entry (kv : jsstr * jsstr) : Prop :=
  wf16 (fst kv) = true /\ wf16 (snd kv) = true /\ fst kv <> js "__proto__".

Lemma parse_parts_encoded l parts m :
  Forall2 (fun (kv : jsstr * jsstr) part => parse_part part = inr kv) l parts ->
  parse_parts parts m = inr (foldl (fun m kv => set_prop (fst kv) (snd kv) m) m l).
Proof.
  intros H. revert m. induction H as [|kv part l parts E _ IH]; intros m; cbn [parse_parts foldl]; [done|].
  rewrite E. cbn [rbind]. apply IH.
Qed.

(** Building an object property by property. *)
Lemma assoc_foldl_set {A} (l : list (jsstr * A)) : forall m k, Forall (fun kv => fst kv <> js "__proto__") l -> NoDup (fst <$> l) ->
  assoc k (foldl (fun m kv => set_prop (fst kv) (snd kv) m) m l) =
  match assoc k l with Some v => Some v | None => assoc k m end.
Proof.
  induction l as [|[k' v'] l IH]; intros m k HF HN; [done|]. rewrite fmap_cons in HN.
  apply list.NoDup_cons in HN as [Hk' HN]. apply list.Forall_cons in HF as [Hp HF]. cbn [foldl assoc].
  rewrite IH by done. rewrite assoc_set_prop. cbn [fst snd] in *.
  destruct (decide (k = k')) as [->|Hne].
  - rewrite !(bool_decide_eq_true_2 _) by done. destruct (assoc k' l) eqn:E; [|done].
    destruct Hk'. apply assoc_elem. by rewrite E.
  - rewrite !(bool_decide_eq_false_2 _) by tauto. done.
Qed.

Lemma assoc_in {A} k (v : A) l : NoDup (fst <$> l) -> (k, v) ∈ l -> assoc k l = Some v.
Proof.
  induction l as [|[k' v'] l IH]; intros HN Hin; [by apply not_elem_of_nil in Hin|].
  rewrite fmap_cons in HN. apply list.NoDup_cons in HN as [Hk' HN]. cbn [assoc].
  apply elem_of_cons in Hin as [[= <- <-]|Hin]; [by rewrite bool_decide_eq_true_2|].
  rewrite bool_decide_eq_false_2; [by apply IH|]. intros ->. destruct Hk'. apply list_elem_of_fmap.
  by exists (k', v).
Qed.

(** Listing an object in key order keeps its properties. *)
Lemma assoc_key_order {A} (d : A) m k :
  assoc k ((fun k => (k, default d (assoc k m))) <$> obj_keys m) = assoc k m.
Proof.
  assert (Hk : k ∈ obj_keys m <-> k ∈ fst <$> m) by (by rewrite obj_keys_permutation).
  destruct (assoc k m) as [v|] eqn:E.
  - assert (Hin : k ∈ obj_keys m) by (apply Hk, assoc_elem; by rewrite E). clear Hk.
    induction (obj_keys m) as [|k' ks IH]; [by apply not_elem_of_nil in Hin|]. rewrite fmap_cons. cbn [assoc].
    case_bool_decide as Ek; [subst; by rewrite E|]. apply elem_of_cons in Hin as [?|Hin]; [done|]. by apply IH.
  - assert (Hin : ~ k ∈ obj_keys m) by (rewrite Hk, <- assoc_elem, E; tauto). clear Hk.
    induction (obj_keys m) as [|k' ks IH]; [done|]. rewrite fmap_cons. cbn [assoc].
    apply not_elem_of_cons in Hin as [Hne Hin]. rewrite bool_decide_eq_false_2 by done. by apply IH.
Qed.

(** The entries in the order of [Object.keys]. *)
Definition entries (m : list (jsstr * jsstr)) : list (jsstr * jsstr) :=
  (fun k => (k, default (js "undefined") (assoc k m))) <$> obj_keys m.

Lemma assoc_entries m k : assoc k (entries m) = assoc k m.
Proof. apply assoc_key_order. Qed.

Lemma entries_good m : NoDup (fst <$> m) -> Forall good_entry m -> Forall good_entry (entries m).
Proof.
  intros HN HF. unfold entries. apply Forall_fmap, list.Forall_forall. intros k Hk.
  rewrite obj_keys_permutation in Hk. apply list_elem_of_fmap in Hk as ([k' v] & -> & Hin).
  unfold compose. cbn [fst]. rewrite (assoc_in k' v) by done. rewrite list.Forall_forall in HF. by apply HF.
Qed.

(** One entry encoded, and how the encoding is read back. *)
Lemma entry_encoded m k : good_entry (k, default (js "undefined") (assoc k m)) -> exists part,
  (let? ek := encodeURIComponent k in
   let? ev := encodeURIComponent (default (js "undefined") (assoc k m)) in inr (ek ++ 61 :: ev)) = inr part /\
  parse_part part = inr (k, default (js "undefined") (assoc k m)) /\ Forall (fun c => c <> 38) part.
Proof.
  intros (H1 & H2 & _). cbn [fst snd] in *.
  destruct (uri_roundtrip k H1) as (ek & E1 & D1 & F1 & _), (uri_roundtrip _ H2) as (ev & E2 & D2 & F2 & _).
  rewrite E1, E2. cbn [rbind]. eexists. split; [done|]. apply list.Forall_and in F1 as [F1 F1'], F2 as [F2 F2'].
  split; [by apply parse_part_encoded|]. apply Forall_app. split; [done|]. by constructor.
Qed.

(** A query string written by [serializeSearch] is read back by [parseSearch]: the
    two objects have the same properties, for all keys and values that are well-formed
    strings ([__proto__] apart, which an assignment does not make a property). *)
Theorem search_roundtrip m : m <> [] -> NoDup (fst <$> m) -> Forall good_entry m ->
  exists s r, serializeSearch m = inr s /\ parseSearch (63 :: s) = inr r /\ forall k, assoc k r = assoc k m.
Proof.
  intros Hm HN HF. unfold serializeSearch. set (f := fun k => rbind _ _).
  assert (Hparts : exists parts, Forall2 (fun k part => f k = inr part) (obj_keys m) parts /\
    Forall2 (fun kv part => parse_part part = inr kv) (entries m) parts /\ Forall (Forall (fun c => c <> 38)) parts).
  { pose proof (entries_good m HN HF) as HG. unfold entries in *. induction (obj_keys m) as [|k ks IH].
    - by exists [].
    - rewrite fmap_cons in *. apply list.Forall_cons in HG as [Hk HG]. destruct (IH HG) as (parts & P1 & P2 & P3).
      destruct (entry_encoded m k Hk) as (part & Q1 & Q2 & Q3). exists (part :: parts). by repeat constructor. }
  destruct Hparts as (parts & P1 & P2 & P3). exists (join_unit 38 parts). eexists.
  apply traverse_inr in P1 as ->. split; [done|]. unfold parseSearch. cbn [drop].
  assert (Hne : parts <> []).
  { intros ->. apply Forall2_nil_inv_r in P2. unfold entries in P2. apply fmap_nil_inv in P2.
    pose proof (obj_keys_permutation m) as HP. rewrite P2 in HP. apply Permutation_nil_l in HP.
    by destruct m. }
  rewrite drop_0, split_join by done. rewrite (parse_parts_encoded _ _ _ P2). split; [done|]. intros k.
  rewrite assoc_foldl_set, assoc_entries.
  - by destruct (assoc k m).
  - eapply list.Forall_impl; [by apply entries_good|]. by intros kv (_ & _ & ?).
  - unfold entries. rewrite <- list_fmap_compose. unfold compose. cbn [fst].
    rewrite list_fmap_id. by rewrite obj_keys_permutation.
Qed.

Lemma search_roundtrip_witness : exists s r,
  serializeSearch [(js "url", js "http://x/?a=1&b"); (js "0", [233; 55357; 56832])] = inr s /\
  parseSearch (63 :: s) = inr r /\ assoc (js "url") r = Some (js "http://x/?a=1&b").
Proof.
  destruct (search_roundtrip [(js "url", js "http://x/?a=1&b"); (js "0", [233; 55357; 56832])])
    as (s & r & H1 & H2 & H3); [done|vm_decide|vm_decide|]. exists s, r. split; [exact H1|]. split; [exact H2|].
  rewrite H3. reflexivity.
Defined.

(** ** Deep links *)

Lemma trim_id c s d : is_space c = false -> is_space d = false -> trim (c :: s ++ [d]) = c :: s ++ [d].
Proof.
  intros Hc Hd. unfold trim. rewrite (trim_left_id (c :: s ++ [d])) by done.
  rewrite app_comm_cons, rev_app_distr. cbn [rev app]. rewrite trim_left_id by done.
  cbn [rev]. by rewrite rev_app_distr, rev_involutive.
Qed.

(** ** The hash *)

Lemma percent_long bs : (length bs <= length (bs ≫= percent))%nat /\ (bs <> [] -> (3 <= length (bs ≫= percent))%nat).
Proof.
  split; [induction bs as [|b bs IH]; [done|]|destruct bs as [|b bs]; [done|intros _]]; cbn [mbind list_bind]; rewrite length_app; cbn; lia.
Qed.

Lemma utf8_some cp : (utf8_ref cp : jsstr) <> [].
Proof. unfold utf8_ref. by repeat case_match. Qed.

Lemma fragment_plain s : Forall (fun c => fragment_char c = true) s -> fragment s = s.
Proof. induction 1 as [|c s Hc _ IH]; [done|]. cbn [fragment]. by rewrite Hc, IH. Qed.

(** A code unit *)
Definition code_unit (c : Z) : Prop := 0 <= c < 65536.

(** The text is encoded one character at a time: a unit that stays, or escapes for one or two units. *)
Lemma fragment_cases c s : code_unit c -> Forall code_unit s -> fragment_char c = false ->
  exists cp n, fragment (c :: s) = (utf8_ref cp ≫= percent) ++ fragment (drop n s) /\ (n <= 1)%nat /\ 0 <= cp < 1114112.
Proof.
  intros Hc Hs Hf. cbn [fragment]. rewrite Hf. unfold code_unit in *. destruct (is_lead c) eqn:Hl.
  - destruct s as [|d s]; [exists 65533, 0%nat; rewrite app_nil_r; (split; [done|]); lia|].
    destruct (is_trail d) eqn:Hd; [|exists 65533, 0%nat; (split; [done|lia])].
    apply list.Forall_cons in Hs as [Hd0 _]. unfold is_lead, is_trail in *. eexists _, 1%nat. split; [done|]. split; lia.
  - eexists _, 0%nat. split; [done|]. split; [lia|]. destruct (is_trail c); lia.
Qed.

(** What is encoded gets longer. *)
Lemma fragment_length s : Forall code_unit s -> (length s <= length (fragment s))%nat /\
  (length (fragment s) = length s -> Forall (fun c => fragment_char c = true) s).
Proof.
  remember (length s) as n eqn:Hn. revert s Hn. induction (lt_wf n) as [n _ IH]. intros s -> Hs. destruct s as [|c s]; [done|].
  apply list.Forall_cons in Hs as [Hc Hs]. destruct (fragment_char c) eqn:Hf.
  - cbn [fragment length] in *. rewrite Hf. destruct (IH (length s)) with (s := s) as [I1 I2]; [lia|done|done|]. cbn [length].
    split; [lia|]. intros E. constructor; [done|]. apply I2. lia.
  - destruct (fragment_cases c s Hc Hs Hf) as (cp & k & -> & Hk & _).
    destruct (IH (length (drop k s))) with (s := drop k s) as [I1 _]; [rewrite length_drop; cbn; lia|done|by apply Forall_drop|].
    pose proof (proj2 (percent_long (utf8_ref cp)) (utf8_some cp)). rewrite length_app, length_drop in *. cbn [length] in *. split; lia.
Qed.

Lemma percent_no_slash bs : Forall byte bs -> Forall (fun c => c <> 47) (bs ≫= percent).
Proof.
  rewrite list.Forall_forall. unfold byte. intros HF. apply Forall_bind. intros b Hb%HF. unfold percent, upper_hex.
  repeat constructor; destr_cmp; Z.div_mod_to_equations; lia.
Qed.

(** A slash separates what is encoded. *)
Lemma fragment_slash s t : Forall code_unit s -> fragment (s ++ 47 :: t) = fragment s ++ 47 :: fragment t.
Proof.
  remember (length s) as n eqn:Hn. revert s Hn. induction (lt_wf n) as [n _ IH]. intros s -> Hs. destruct s as [|c s]; [done|].
  apply list.Forall_cons in Hs as [_ Hs]. cbn [app fragment]. cbn [length] in IH. pose proof (fun r : jsstr => IH (length r)) as I.
  destruct (fragment_char c); [by rewrite (I s) by first [done|cbn; lia]|]. destruct (is_lead c).
  - destruct s as [|d s]; [done|]. cbn [app]. apply list.Forall_cons in Hs as [Hd Hs]. cbn [length] in I.
    destruct (is_trail d); [rewrite (I s) by first [done|cbn; lia]; by rewrite <- app_assoc|].
    change (d :: s ++ 47 :: t) with ((d :: s) ++ 47 :: t). rewrite (I (d :: s)) by (first [by constructor|cbn; lia|done]). by rewrite <- app_assoc.
  - rewrite (I s) by first [done|cbn; lia]. by rewrite <- app_assoc.
Qed.

Lemma fragment_no_slash s : Forall code_unit s -> Forall (fun c => c <> 47) s -> Forall (fun c => c <> 47) (fragment s).
Proof.
  remember (length s) as n eqn:Hn. revert s Hn. induction (lt_wf n) as [n _ IH]. intros s -> Hs H47. destruct s as [|c s]; [done|].
  apply list.Forall_cons in Hs as [Hc Hs], H47 as [Hc7 H47]. destruct (fragment_char c) eqn:Hf.
  - cbn [fragment]. rewrite Hf. constructor; [done|]. apply (IH (length s)); [cbn; lia|done|done|done].
  - destruct (fragment_cases c s Hc Hs Hf) as (cp & k & -> & Hk & Hcp). apply Forall_app. split; [by apply percent_no_slash, utf8_ref_bytes|].
    apply (IH (length (drop k s))); [rewrite length_drop; cbn; lia|done|by apply Forall_drop|by apply Forall_drop].
Qed.

(** What a character of a path becomes. *)
Definition dash (c : Z) : Z := if is_space c then 95 else c.

(** A character that comes back through the hash. *)
Definition link_safe (c : Z) : Prop := c = 32 \/ (fragment_char c = true /\ c <> 95).

Lemma fragment_no_space c : fragment_char c = true -> is_space c = false.
Proof. unfold fragment_char, is_space. intros Hc. bool_hyps. lia. Qed.

Lemma link_safe_spec c : link_safe c <-> fragment_char (dash c) = true /\ underscore_to_space (dash c) = c.
Proof.
  unfold link_safe, dash, underscore_to_space. split.
  - intros [->|[Hc H95]]; [done|]. rewrite (fragment_no_space c Hc). split; [done|]. by destruct (Z.eqb_spec c 95).
  - destruct (is_space c); [intros [_ <-]; by left|]. intros [Hc E]. right. split; [done|]. by destruct (Z.eqb_spec c 95) as [->|].
Qed.

Lemma dash_units s : Forall code_unit s -> Forall code_unit (dash <$> s).
Proof. intros HF. apply Forall_fmap. eapply list.Forall_impl; [exact HF|]. unfold code_unit. intros c Hc. unfold compose, dash. destruct (is_space c); lia. Qed.

Lemma dash_no_slash s : Forall (fun c => c <> 47) s -> Forall (fun c => c <> 47) (dash <$> s).
Proof. intros H. apply Forall_fmap. eapply list.Forall_impl; [exact H|]. intros c Hc. unfold compose, dash. by destruct (is_space c). Qed.

Lemma fmap_id_iff {A} (f : A -> A) (l : list A) : f <$> l = l <-> Forall (fun x => f x = x) l.
Proof.
  split.
  - induction l as [|x l IH]; [done|]. rewrite fmap_cons. intros [= E1 E2]. constructor; [done|]. by apply IH.
  - induction 1 as [|x l E _ IH]; [done|]. by rewrite fmap_cons, E, IH.
Qed.

(** A name that comes back is one of safe characters. *)
Lemma name_returns s : Forall code_unit s -> underscore_to_space <$> fragment (dash <$> s) = s <-> Forall link_safe s.
Proof.
  intros Hs. split.
  - intros E. assert (El : length (fragment (dash <$> s)) = length (dash <$> s)) by (pose proof (f_equal length E) as E'; rewrite length_fmap in E'; by rewrite length_fmap).
    apply fragment_length in El; [|by apply dash_units]. rewrite fragment_plain, <- list_fmap_compose in E by done.
    apply fmap_id_iff in E. apply Forall_fmap in El. rewrite list.Forall_forall in E, El |- *. intros c Hc. apply link_safe_spec. by split; [apply El|apply E].
  - intros HF. rewrite fragment_plain.
    + rewrite <- list_fmap_compose. apply fmap_id_iff. eapply list.Forall_impl; [exact HF|]. by intros c [_ ?]%link_safe_spec.
    + apply Forall_fmap. eapply list.Forall_impl; [exact HF|]. by intros c [? _]%link_safe_spec.
Qed.

Lemma hash_written s d : Forall (fun c => is_space c = false) s -> 32 < d -> fragment (s ++ [d]) <> [] ->
  setHash (s ++ [d]) = 35 :: fragment (s ++ [d]).
Proof.
  intros Hs Hd Hne. unfold setHash. rewrite rev_app_distr. cbn [rev app drop_controls]. destruct (Z.leb_spec d 32); [lia|].
  cbn [rev]. rewrite rev_involutive.
  assert (E : base.filter (fun c => c ∉ [9; 10; 13]) (s ++ [d]) = s ++ [d]).
  { rewrite list.filter_app. f_equal.
    - clear Hne. induction Hs as [|c s Hc _ IH]; [done|]. rewrite filter_cons_True; [by rewrite IH|].
      intros Hin. repeat (apply elem_of_cons in Hin as [->|Hin]; [done|]). by apply not_elem_of_nil in Hin.
    - rewrite filter_cons_True; [done|]. intros Hin. repeat (apply elem_of_cons in Hin as [->|Hin]; [lia|]). by apply not_elem_of_nil in Hin. }
  rewrite E. by destruct (fragment _).
Qed.

Lemma dashed s : Forall (fun c => is_space c = false) (dash <$> s).
Proof. apply Forall_fmap, list.Forall_forall. intros c _. unfold compose, dash. by destruct (is_space c) eqn:E. Qed.

(** The key a deep link leads to. *)
Lemma deep_link_key tag op d : Forall code_unit (tag ++ op ++ [d]) -> Forall (fun c => c <> 47) (tag ++ op ++ [d]) ->
  32 < d -> is_space d = false ->
  exists value, show_hash [js "operations"; tag; op ++ [d]] true = Some value /\
    parseDeepLinkHash (setHash value) =
      Some [js "operations"; underscore_to_space <$> fragment (dash <$> tag); underscore_to_space <$> fragment (dash <$> op ++ [d])].
Proof.
  intros [U1 U2]%Forall_app [H1 H2]%Forall_app Hd Hd2. unfold show_hash, urlHashArrayFromIsShownKey. cbn [lookup list_lookup]. rewrite decide_True by done.
  cbn [negb or_undefined default]. eexists. split; [done|]. unfold createDeepLinkPath. fold dash.
  change (js "/" ++ id tag ++ js "/" ++ id (op ++ [d])) with (47 :: tag ++ 47 :: op ++ [d]).
  rewrite (app_comm_cons op [d]), app_assoc, trim_id by done. rewrite <- app_assoc. cbn [app].
  repeat first [rewrite fmap_cons|rewrite fmap_app]. change (dash 47) with 47. change (dash <$> []) with (@nil Z).
  assert (Ed : dash d = d) by (unfold dash; by rewrite Hd2). rewrite Ed.
  pose proof (dash_units tag U1) as T1. pose proof (dash_no_slash tag H1) as T2.
  pose proof (dash_units _ U2) as O1. pose proof (dash_no_slash _ H2) as O2. rewrite fmap_app, fmap_cons, Ed in O1, O2.
  change (dash <$> []) with (@nil Z) in O1, O2. set (t := dash <$> tag) in *. set (o := dash <$> op) in *.
  assert (Ef : fragment (47 :: t ++ 47 :: o ++ [d]) = 47 :: fragment t ++ 47 :: fragment (o ++ [d])).
  { change (fragment (47 :: ?s)) with (47 :: fragment s). by rewrite fragment_slash. }
  replace (47 :: t ++ 47 :: o ++ [d]) with ((47 :: t ++ 47 :: o) ++ [d]) in * by (cbn [app]; rewrite <- app_assoc; done).
  rewrite hash_written; [|constructor; [done|]; apply Forall_app; split; [apply dashed|constructor; [done|apply dashed]]|done|by rewrite Ef].
  rewrite Ef. unfold parseDeepLinkHash. cbv zeta iota beta.
  rewrite split_app, split_no_sep by (by apply fragment_no_slash). rewrite !fmap_cons. cbn [isShownKeyFromUrlHashArray fmap list_fmap]. rewrite decide_False; [done|].
  intros E%fmap_nil_inv. destruct (fragment_length _ O1) as [Hl _]. rewrite E, length_app in Hl. cbn in Hl. lia.
Qed.

(** C36: A deep link to an operation, read from the location after it was set there, leads back to it
    exactly when every character of its tag and id is the space or a printable ASCII character other than
    the underscore, the quote, the less-than and greater-than signs and the backquote: the others are
    percent-encoded by the browser and not decoded, or made a space.  Tag and id contain no slash, and
    the id ends with a character that is no white space and no control. *)
Theorem deep_link_roundtrip tag op d : Forall code_unit (tag ++ op ++ [d]) -> Forall (fun c => c <> 47) (tag ++ op ++ [d]) ->
  32 < d -> is_space d = false ->
  exists value, show_hash [js "operations"; tag; op ++ [d]] true = Some value /\
    (parseDeepLinkHash (setHash value) = Some [js "operations"; tag; op ++ [d]] <-> Forall link_safe (tag ++ op ++ [d])).
Proof.
  intros HU HS Hd Hs. destruct (deep_link_key tag op d HU HS Hd Hs) as (value & E1 & E2). exists value. split; [done|].
  apply Forall_app in HU as [U1 U2]. rewrite E2, Forall_app, <- (name_returns tag U1), <- (name_returns (op ++ [d]) U2).
  split; [by intros [= -> ->]|]. by intros [-> ->].
Qed.

Lemma deep_link_roundtrip_witness : exists value,
  show_hash [js "operations"; js "my pets"; js "ge" ++ [116]] true = Some value /\
  (parseDeepLinkHash (setHash value) = Some [js "operations"; js "my pets"; js "get"] <-> Forall link_safe (js "my pets" ++ js "ge" ++ [116])).
Proof. apply (deep_link_roundtrip (js "my pets") (js "ge") 116); [vm_decide|vm_decide|done|done]. Defined.

(** An operation id with an underscore is not found behind its own link, nor one with a letter that is
    encoded. *)
Example deep_link_underscore :
  show_hash [js "operations"; js "pet"; js "find_pets"] true = Some (js "/pet/find_pets") /\
  parseDeepLinkHash (setHash (js "/pet/find_pets")) = Some [js "operations"; js "pet"; js "find pets"].
Proof. vm_compute. done. Qed.

Example deep_link_encoded :
  show_hash [js "operations"; [252]; js "get"] true = Some (47 :: 252 :: js "/get") /\
  parseDeepLinkHash (setHash (47 :: 252 :: js "/get")) = Some [js "operations"; js "%C3%BC"; js "get"].
Proof. vm_compute. done. Qed.

(** The names of a form body are not encoded: one field can smuggle in another. *)
Example form_name_not_encoded :
  buildFormData [(js "a=1&b", Some (js "2"))] = inr (js "a=1&b=2") /\
  buildFormData [(js "a", Some (js "1")); (js "b", Some (js "2"))] = inr (js "a=1&b=2").
Proof. vm_compute. done. Qed.
