(* ===== verification/SuiHighlight.v ===== *)
(** Swagger UI: the syntax highlighter of core/utils.js ([highlight]), a state machine
    that cuts a text into styled spans. *)
From S2P Require Import Prelude JsString JsNumber UriCodec.

(** ** Characters and their classes *)

(** What [prev1] and [prev2] hold: [undefined], the number 1, or a character. *)
Inductive hchar := HUndef | HOne | HCh (c : Z).

#[global] Instance hchar_eq_dec : EqDecision hchar.
Proof. solve_decision. Defined.

Definition is_ch (x : hchar) (c : Z) : bool := bool_decide (x = HCh c).
Definition is_char (x : option Z) (c : Z) : bool := bool_decide (x = Some c).

(** [/[$\w]/] *)
Definition word_unit (c : Z) : bool :=
  (c =? 36) || (c =? 95) || ((48 <=? c) && (c <=? 57)) || ((65 <=? c) && (c <=? 90)) || ((97 <=? c) && (c <=? 122)).

Definition open_unit (c : Z) : bool := bool_decide (c ∈ js "/{}[(-+*=<>:;|\.,?!&@~").
Definition close_unit (c : Z) : bool := bool_decide (c ∈ js "])").

(** A regular expression tested on [undefined] is tested on the text of it, in which
    only the word class matches. *)
Definition test_word (x : option Z) : bool := match x with Some c => word_unit c | None => true end.
Definition test_open (x : option Z) : bool := match x with Some c => open_unit c | None => false end.
Definition test_close (x : option Z) : bool := match x with Some c => close_unit c | None => false end.

Definition keywords : list jsstr := split_unit 32 (
  js "abstract alias and arguments array asm assert as auto base begin boolean bool break byte" ++ 32 ::
  js "case catch char checked class clone compl const continue debugger decimal declare" ++ 32 ::
  js "default defer def deinit delegate delete del do double echo elsif elif elseif else end" ++ 32 ::
  js "ensure enum event except exec explicit export extends extension extern fallthrough false" ++ 32 ::
  js "finally final fixed float foreach for friend from function func global goto guard if" ++ 32 ::
  js "implements implicit import init include_once include inline inout instanceof interface" ++ 32 ::
  js "internal int in is lambda let lock long microlight module mutable NaN namespace native" ++ 32 ::
  js "next new nil not null object operator or out override package params private protected" ++ 32 ::
  js "protocol public raise readonly redo ref register repeat require_once require rescue" ++ 32 ::
  js "restrict retry return sbyte sealed self short signed sizeof static string struct" ++ 32 ::
  js "subscript super synchronized switch template then this throws throw transient true try" ++ 32 ::
  js "typealias typedef typeid typename typeof unchecked undefined undef union unless unsigned" ++ 32 ::
  js "until use using var virtual void volatile wchar_t when where while with xor yield").

(** ** The machine *)

Record hstate := HState {
  h_pos : Z;
  h_chr : option Z;               (* the 1 it starts with is [h_started] = false *)
  h_next1 : option Z;
  h_started : bool;
  h_prev1 : hchar;
  h_prev2 : hchar;
  h_token : jsstr;
  h_tokenType : Z;
  h_lastTokenType : option Z;
  h_out : list (Z * jsstr)        (* the spans: index of the style, text *)
}.

Section Machine.
Context (text : jsstr).

Definition text_at (i : Z) : option Z := if i <? 0 then None else text !! Z.to_nat i.

(** [!tokenType ? 0 : tokenType < 3 ? 2 : tokenType > 6 ? 4 : tokenType > 3 ? 3 : +keyword] *)
Definition style (tokenType : Z) (token : jsstr) : Z :=
  if tokenType =? 0 then 0 else if tokenType <? 3 then 2 else if 6 <? tokenType then 4
  else if 3 <? tokenType then 3 else if bool_decide (token ∈ keywords) then 1 else 0.

(** The table of the conditions that end a token, by its type. *)
Definition token_ends (s : hstate) (c : Z) (pos : Z) : bool :=
  let multichar := 1 <? slen (h_token s) in
  let t := h_tokenType s in
  ((8 <? t) && (c =? 10)) ||
  (if t =? 0 then negb (is_space c)
   else if (t =? 1) || (t =? 2) then true
   else if t =? 3 then negb (word_unit c)
   else if t =? 4 then (is_ch (h_prev1 s) 47 || is_ch (h_prev1 s) 10) && multichar
   else if t =? 5 then is_ch (h_prev1 s) 34 && multichar
   else if t =? 6 then is_ch (h_prev1 s) 39 && multichar
   else if t =? 7 then is_char (text_at (pos - 4)) 45 && is_ch (h_prev2 s) 45 && is_ch (h_prev1 s) 62
   else if t =? 8 then is_ch (h_prev2 s) 42 && is_ch (h_prev1 s) 47
   else false).

(** [while (![...][--tokenType])]: the type of the token that starts at [chr]. *)
Definition classify (chr next1 : option Z) (pos : Z) (last : option Z) (prev1 : hchar) : Z :=
  if is_char chr 35 then 10
  else if is_char chr 47 && is_char next1 47 then 9
  else if is_char chr 47 && is_char next1 42 then 8
  else if is_char chr 60 && is_char next1 33 && is_char (text_at (pos + 1)) 45 && is_char (text_at (pos + 2)) 45 then 7
  else if is_char chr 39 then 6
  else if is_char chr 34 then 5
  else if is_char chr 47 && (match last with Some l => l <? 2 | None => false end) && negb (is_ch prev1 60) then 4
  else if test_word chr then 3
  else if test_close chr then 2
  else if test_open chr then 1
  else 0.

(** The loop condition: [prev2 = prev1, prev1 = tokenType < 7 && prev1 == "\\" ? 1 : chr]. *)
Definition next_prev1 (s : hstate) : hchar :=
  if (h_tokenType s <? 7) && is_ch (h_prev1 s) 92 then HOne
  else if h_started s then match h_chr s with Some c => HCh c | None => HUndef end
  else HOne.

(** The loop body, on the state the condition left. *)
Definition hl_body (s : hstate) : hstate :=
  let chr := h_next1 s in
  let pos := h_pos s + 1 in
  let next1 := text_at pos in
  let flush := match chr with Some c => token_ends s c pos | None => true end in
  let out := if flush && negb (bool_decide (h_token s = []))
             then h_out s ++ [(style (h_tokenType s) (h_token s), h_token s)] else h_out s in
  let last := if flush && negb (h_tokenType s =? 0) && (h_tokenType s <? 7)
              then Some (h_tokenType s) else h_lastTokenType s in
  let tokenType := if flush then classify chr next1 pos last (h_prev1 s) else h_tokenType s in
  let token := (if flush then [] else h_token s) ++
               (match chr with Some c => [c] | None => js "undefined" end) in
  HState pos chr next1 true (h_prev1 s) (h_prev2 s) token tokenType last out.

Fixpoint hl_loop (n : nat) (s : hstate) : option (list (Z * jsstr)) :=
  match n with
  | O => None
  | S n' =>
      let p := next_prev1 s in
      match p with
      | HUndef => Some (h_out s)
      | _ => hl_loop n' (hl_body (HState (h_pos s) (h_chr s) (h_next1 s) (h_started s) p (h_prev1 s)
                                    (h_token s) (h_tokenType s) (h_lastTokenType s) (h_out s)))
      end
  end.

Definition hl_start : hstate := HState 0 None (text_at 0) false HUndef HUndef [] 0 None [].

(** One turn per character, one at the end, and at most one more. *)
Definition reset : option (list (Z * jsstr)) := hl_loop (length text + 4) hl_start.
End Machine.

Definition MAX_LENGTH : Z := 5000.

(** [highlight(el)]: a long text is left alone, another is replaced by spans; [None]
    would be a run that does not end. *)
Definition highlight (text : jsstr) : option (jsstr + list (Z * jsstr)) :=
  if MAX_LENGTH <? slen text then Some (inl text)
  else match reset text with Some out => Some (inr out) | None => None end.

Definition spans_text (out : list (Z * jsstr)) : jsstr := out ≫= snd.

(** ** No character is lost *)

(** The spans and the token under way are the text read so far. *)
Definition hl_inv (text : jsstr) (s : hstate) : Prop :=
  0 <= h_pos s <= slen text /\ h_next1 s = text_at text (h_pos s) /\
  spans_text (h_out s) ++ h_token s = take (Z.to_nat (h_pos s)) text.

Lemma spans_text_snoc out i t : spans_text (out ++ [(i, t)]) = spans_text out ++ t.
Proof. unfold spans_text. rewrite bind_app. cbn [mbind list_bind]. by rewrite app_nil_r. Qed.

(** The spans with the token under way flushed. *)
Definition flushed (s : hstate) : list (Z * jsstr) :=
  if bool_decide (h_token s = []) then h_out s else h_out s ++ [(style (h_tokenType s) (h_token s), h_token s)].

Lemma flushed_text s : spans_text (flushed s) = spans_text (h_out s) ++ h_token s.
Proof. unfold flushed. case_bool_decide as E; [by rewrite E, app_nil_r|apply spans_text_snoc]. Qed.

Lemma text_at_Some text i c : text_at text i = Some c -> 0 <= i < slen text /\ text !! Z.to_nat i = Some c.
Proof.
  unfold text_at, slen. destruct (Z.ltb_spec i 0); [done|]. intros E. split; [|done]. apply lookup_lt_Some in E. lia.
Qed.

Lemma hl_body_inv text s c : hl_inv text s -> h_next1 s = Some c ->
  hl_inv text (hl_body text s) /\ h_chr (hl_body text s) = Some c /\ h_pos (hl_body text s) = h_pos s + 1.
Proof.
  intros (H1 & H2 & H3) Hc. rewrite Hc in H2. symmetry in H2. apply text_at_Some in H2 as [H4 H5].
  split; [|unfold hl_body; by rewrite Hc]. unfold hl_inv, hl_body. rewrite Hc. cbn [h_pos h_next1 h_out h_token].
  split; [lia|]. split; [done|]. replace (Z.to_nat (h_pos s + 1)) with (S (Z.to_nat (h_pos s))) by lia.
  rewrite (take_S_r _ _ c) by done. rewrite <- H3. destruct (token_ends text s c (h_pos s + 1)).
  - cbn [andb app]. pose proof (flushed_text s) as F. unfold flushed in F.
    destruct (bool_decide (h_token s = [])); cbn [negb]; by rewrite <- F.
  - cbn [andb]. by rewrite app_assoc.
Qed.

(** At the end of the text. *)
Lemma hl_body_end text s : hl_inv text s -> h_next1 s = None ->
  h_pos s = slen text /\ h_out (hl_body text s) = flushed s /\ spans_text (flushed s) = text /\
  h_chr (hl_body text s) = None /\ h_next1 (hl_body text s) = None /\ h_token (hl_body text s) = js "undefined" /\
  h_tokenType (hl_body text s) = 3 /\ h_started (hl_body text s) = true /\ h_prev1 (hl_body text s) = h_prev1 s.
Proof.
  intros (H1 & H2 & H3) Hc. rewrite Hc in H2. assert (Hp : h_pos s = slen text).
  { unfold text_at in H2. destruct (Z.ltb_spec (h_pos s) 0); [lia|]. symmetry in H2. apply lookup_ge_None in H2.
    unfold slen in *. lia. }
  rewrite flushed_text, H3. unfold hl_body, flushed. rewrite Hc. cbn [h_out h_chr h_next1 h_token h_tokenType h_started h_prev1 andb].
  repeat split; try done.
  - by destruct (bool_decide (h_token s = [])).
  - rewrite take_ge; [done|]. unfold slen in *. lia.
  - unfold text_at. destruct (Z.ltb_spec (h_pos s + 1) 0); [lia|]. apply lookup_ge_None. unfold slen in *. lia.
Qed.

(** The state the loop condition leaves. *)
Definition set_prev (s : hstate) : hstate :=
  HState (h_pos s) (h_chr s) (h_next1 s) (h_started s) (next_prev1 s) (h_prev1 s)
    (h_token s) (h_tokenType s) (h_lastTokenType s) (h_out s).

Lemma hl_loop_step text n s : next_prev1 s <> HUndef -> hl_loop text (S n) s = hl_loop text n (hl_body text (set_prev s)).
Proof. intros H. cbn [hl_loop]. unfold set_prev. by destruct (next_prev1 s). Qed.

Lemma hl_loop_stop text n s : next_prev1 s = HUndef -> hl_loop text (S n) s = Some (h_out s).
Proof. intros H. cbn [hl_loop]. by rewrite H. Qed.

(** The end of the run: the text, and the word [undefined] behind a backslash the
    machine still holds. *)
Lemma hl_finish text n s : hl_inv text s -> next_prev1 s <> HUndef -> h_next1 s = None ->
  exists out, hl_loop text (S (S (S n))) s = Some out /\
    spans_text out = text ++ (if is_ch (next_prev1 s) 92 then js "undefined" else []).
Proof.
  intros Hi Hp Hn. rewrite hl_loop_step by done.
  destruct (hl_body_end text (set_prev s) Hi Hn) as (E1 & E2 & E3 & E4 & E5 & E6 & E7 & E8 & E9).
  set (s1 := hl_body text (set_prev s)) in *.
  assert (Ep : h_prev1 s1 = next_prev1 s) by done.
  destruct (is_ch (next_prev1 s) 92) eqn:Eb.
  - assert (Hq : next_prev1 s1 = HOne) by (unfold next_prev1; by rewrite E7, Ep, Eb).
    rewrite hl_loop_step by (by rewrite Hq). set (s2 := hl_body text (set_prev s1)).
    assert (Hq2 : next_prev1 s2 = HUndef).
    { unfold next_prev1. assert (h_prev1 s2 = HOne) as -> by exact Hq.
      assert (h_chr s2 = None) as -> by exact E5.
      assert (h_started s2 = true) as -> by done. by rewrite andb_false_r. }
    rewrite hl_loop_stop by done. eexists. split; [done|].
    unfold s2, hl_body. cbn [set_prev h_next1 h_token h_out h_tokenType h_pos]. rewrite E5, E6, E2. cbn [andb].
    rewrite bool_decide_eq_false_2 by done. cbn [negb]. by rewrite spans_text_snoc, E3.
  - assert (Hq : next_prev1 s1 = HUndef) by (unfold next_prev1; rewrite Ep, Eb, andb_false_r, E8, E4; done).
    rewrite hl_loop_stop by done. exists (h_out s1). split; [done|]. by rewrite E2, E3, app_nil_r.
Qed.

(** What the loop condition sees of the last character. *)
Definition seen (text : jsstr) (s : hstate) : Prop :=
  next_prev1 s <> HUndef /\
  (is_ch (next_prev1 s) 92 = true -> 0 < h_pos s /\ text_at text (h_pos s - 1) = Some 92).

Lemma seen_body text s c : hl_inv text (set_prev s) -> h_next1 s = Some c -> seen text (hl_body text (set_prev s)).
Proof.
  intros Hi Hc. destruct (hl_body_inv text (set_prev s) c Hi Hc) as (_ & E1 & E2). unfold seen, next_prev1.
  assert (h_started (hl_body text (set_prev s)) = true) as -> by done. rewrite E1.
  destruct (_ && _); [done|]. split; [done|]. unfold is_ch. intros [= ->]%bool_decide_eq_true_1.
  destruct Hi as (H1 & H2 & _). rewrite E2. split; [lia|]. rewrite Z.add_simpl_r. rewrite <- H2. exact Hc.
Qed.

Lemma hl_loop_text text n : forall s, hl_inv text s -> seen text s -> slen text - h_pos s + 3 <= Z.of_nat n ->
  exists out, hl_loop text n s = Some out /\
    (spans_text out = text \/ list.last text = Some 92 /\ spans_text out = text ++ js "undefined").
Proof.
  induction n as [|n IH]; intros s Hi Hs Hn; [destruct Hi; lia|]. destruct (h_next1 s) as [c|] eqn:Hc.
  - rewrite hl_loop_step by apply Hs. assert (Hi' : hl_inv text (set_prev s)) by exact Hi.
    destruct (hl_body_inv text (set_prev s) c Hi' Hc) as (Hi2 & _ & E2). cbn [set_prev h_pos] in E2.
    apply IH; [done|by apply (seen_body text s c)|lia].
  - destruct n as [|[|n]]; [destruct Hi; lia..|]. destruct (hl_finish text n s Hi (proj1 Hs) Hc) as (out & E1 & E2).
    exists out. split; [done|].
    destruct (is_ch (next_prev1 s) 92) eqn:Eb; [right; split; [|done]|left; by rewrite E2, app_nil_r].
    destruct (proj2 Hs Eb) as [Hp Ht]. destruct Hi as (H1 & H2 & _). rewrite last_lookup. rewrite Hc in H2. apply text_at_Some in Ht as [Ht1 Ht2].
    assert (h_pos s = slen text) as E.
    { unfold text_at in H2. destruct (Z.ltb_spec (h_pos s) 0); [lia|]. symmetry in H2. apply lookup_ge_None in H2.
      unfold slen in *. lia. }
    rewrite E in Ht2. rewrite <- Ht2. f_equal. unfold slen in *. lia.
Qed.

(** C37: The highlighter ends on every text, and the spans it makes, read one after the
    other, are the text: nothing is lost, repeated or reordered, except that a text
    that ends with a backslash may get the word [undefined] appended.  A text over the
    length limit is returned as it is. *)
Theorem highlight_keeps_text text : exists r, highlight text = Some r /\
  match r with
  | inl t => t = text /\ MAX_LENGTH < slen text
  | inr out => slen text <= MAX_LENGTH /\
      (spans_text out = text \/ list.last text = Some 92 /\ spans_text out = text ++ js "undefined")
  end.
Proof.
  unfold highlight. destruct (Z.ltb_spec MAX_LENGTH (slen text)); [by eexists|].
  destruct (hl_loop_text text (length text + 4) (hl_start text)) as (out & E & H2).
  - unfold hl_inv, hl_start. cbn [h_pos h_next1 h_out h_token]. unfold slen. repeat split; lia.
  - by unfold seen, next_prev1, hl_start.
  - unfold hl_start, slen. cbn [h_pos]. lia.
  - unfold reset. rewrite E. eexists. by split.
Qed.

(** A text that ends with a backslash gets the word [undefined] appended. *)
Example highlight_backslash : option_map spans_text (reset (js "a\")) = Some (js "a\undefined").
Proof. vm_compute. done. Qed.
