(* ===== verification/SuiImm.v ===== *)
(** The values of Swagger UI's store: plain JavaScript data and the collections of
    Immutable.js, with the operations of the latter the store uses.

    A Map is the list of its entries.  For an OrderedMap that is the order of
    iteration; a Map iterates in an order of its own, and the theorems about Maps are
    stated through [get].  A List reads its elements under the decimal form of their
    index.  Collections are values: an update makes a new one, so sharing them cannot
    be observed. *)
From S2P Require Import Prelude JsString JsNumber YamlValue SuiUrl.

(** ** Values *)

Inductive jv :=
  | JUndef
  | JNull
  | JBool (b : bool)
  | JNum (x : num)
  | JStr (s : jsstr)
  | JArr (l : list jv)
  | JObj (ps : list (jsstr * jv))
  | JFun (id : nat)                      (* a function, known by its identity *)
  | JHost (id : nat)                     (* a File, a Blob or another host object *)
  | IList (l : list jv)
  | IMap (ordered : bool) (ps : list (jsstr * jv)).

Definition truthy (v : jv) : bool :=
  match v with
  | JUndef | JNull | JBool false | JNum NaN | JNum (Zero _) | JStr [] => false
  | _ => true
  end.

(** [typeof v === "object" && v] *)
Definition is_object (v : jv) : bool :=
  match v with JArr _ | JObj _ | JHost _ | IList _ | IMap _ _ => true | _ => false end.

Definition is_map (v : jv) : bool := match v with IMap _ _ => true | _ => false end.
Definition is_list (v : jv) : bool := match v with IList _ => true | _ => false end.
Definition is_immutable (v : jv) : bool := is_map v || is_list v.

Definition empty_map : jv := IMap false [].

(** [===] with a string *)
Definition is_str (v : jv) (s : jsstr) : bool :=
  match v with JStr t => bool_decide (t = s) | _ => false end.

(** The own properties of an object in the order of [Object.keys]. *)
Definition in_key_order (ps : list (jsstr * jv)) : list (jsstr * jv) :=
  (fun k => (k, default JUndef (assoc k ps))) <$> obj_keys ps.

(** [fromJS]: plain arrays and objects, at every depth. *)
Fixpoint fromJS (v : jv) : jv :=
  match v with
  | JArr l => IList (map fromJS l)
  | JObj ps => IMap false (in_key_order (map (fun p => match p with (k, x) => (k, fromJS x) end) ps))
  | _ => v
  end.

(** The browser: which host objects are Files and Blobs, the text an object has in
    a concatenation, and the entries (converted themselves) an OrderedMap takes from a host object:
    those its iterator yields, or else those of its own properties; [None] where one of them is no
    entry, as the bytes of a Buffer. *)
Class Host := {
  is_file : nat -> bool;
  is_blob : nat -> bool;
  object_text : jv -> jsstr;
  host_entries : nat -> option (list (jsstr * jv))
}.

(** What [fromJSOrdered] of core/utils.js makes of a value, and whether it does: an object that does
    not yield entries is refused with an exception. *)
Fixpoint ordered_value `{Host} (v : jv) : jv :=
  match v with
  | JArr l => IList (map ordered_value l)
  | JObj ps => IMap true (in_key_order (map (fun p => match p with (k, x) => (k, ordered_value x) end) ps))
  | JHost id => if is_file id then v else IMap true (default [] (host_entries id))
  | _ => v
  end.

Fixpoint convertible `{Host} (v : jv) : bool :=
  match v with
  | JArr l => forallb convertible l
  | JObj ps => forallb (fun p => match p with (_, x) => convertible x end) ps
  | JHost id => is_file id || match host_entries id with Some _ => true | None => false end
  | _ => true
  end.

(** [fromJSOrdered(v)] *)
Definition fromJSOrdered `{Host} (v : jv) : js_error + jv :=
  if convertible v then inr (ordered_value v) else inl (TypeError "Expected [K, V] tuple").

(** [v + ""] *)
Definition js_string `{Host} (v : jv) : jsstr :=
  match v with
  | JUndef => js "undefined"
  | JNull => js "null"
  | JBool b => js (if b then "true" else "false")
  | JNum x => toString10 x
  | JStr s => s
  | _ => object_text v
  end.

(** [toJS] *)
Fixpoint toJS (v : jv) : jv :=
  match v with
  | IList l => JArr (map toJS l)
  | IMap _ ps => JObj (map (fun p => match p with (k, x) => (k, toJS x) end) ps)
  | _ => v
  end.

(** ** Collections *)

(** [v.get(k, NOT_SET)] of a collection. *)
Definition im_get (v : jv) (k : jsstr) : option jv :=
  match v with
  | IMap _ ps => assoc k ps
  | IList l => match array_index k with Some i => l !! Z.to_nat i | None => None end
  | _ => None
  end.

(** [v.get(k)]; a value without the method throws. *)
Definition get (v : jv) (k : jsstr) : js_error + jv :=
  if is_immutable v then inr (default JUndef (im_get v k)) else inl (TypeError "get is not a function").

(** [v.get(k, notSet)] *)
Definition get_or (v : jv) (k : jsstr) (notSet : jv) : js_error + jv :=
  if is_immutable v then inr (default notSet (im_get v k)) else inl (TypeError "get is not a function").

(** A List grows with [undefined]; a key that is no index changes nothing. *)
Definition list_set (l : list jv) (i : nat) (x : jv) : list jv :=
  if (i <? length l)%nat then <[i := x]> l else l ++ replicate (i - length l) JUndef ++ [x].

Definition im_set (v : jv) (k : jsstr) (x : jv) : jv :=
  match v with
  | IMap o ps => IMap o (put k x ps)
  | IList l => match array_index k with Some i => IList (list_set l (Z.to_nat i) x) | None => v end
  | _ => v
  end.

Fixpoint remove_key (k : jsstr) (ps : list (jsstr * jv)) : list (jsstr * jv) :=
  match ps with
  | [] => []
  | (k', x) :: ps' => if bool_decide (k = k') then remove_key k ps' else (k', x) :: remove_key k ps'
  end.

Definition im_remove (v : jv) (k : jsstr) : jv :=
  match v with
  | IMap o ps => IMap o (remove_key k ps)
  | IList l => match array_index k with Some i => IList (delete (Z.to_nat i) l) | None => v end
  | _ => v
  end.

Definition jset (v : jv) (k : jsstr) (x : jv) : js_error + jv :=
  if is_immutable v then inr (im_set v k x) else inl (TypeError "set is not a function").

(** [v.getIn(path)]: [None] where the value is not set. *)
Fixpoint getIn (v : jv) (path : list jsstr) : option jv :=
  match path with
  | [] => Some v
  | k :: path' => match im_get v k with Some x => getIn x path' | None => None end
  end.

Definition getIn_or (v : jv) (path : list jsstr) (notSet : jv) : jv := default notSet (getIn v path).

(** What an updater returns: the very value it was given, the mark NOT_SET, or a
    new value. *)
Inductive updated := Same | Unset | NewValue (v : jv).

(** The recursive function of [updateIn]; [None] is NOT_SET. *)
Fixpoint update_deep (t : option jv) (path : list jsstr) (notSet : option jv)
    (updater : option jv -> js_error + updated) : js_error + option jv :=
  match path with
  | [] =>
      let? r := updater (match t with None => notSet | Some _ => t end) in
      inr (match r with Same => t | Unset => None | NewValue v => Some v end)
  | k :: path' =>
      if match t with Some v => is_immutable v | None => true end then
        let existing := match t with Some v => im_get v k | None => None end in
        let? next := update_deep existing path' notSet updater in
        inr (match existing, next with
             | None, None => t
             | Some _, None => (fun v => im_remove v k) <$> t
             | _, Some x => Some (im_set (default empty_map t) k x)
             end)
      else inl (PlainError "invalid keyPath")
  end.

(** [v.updateIn(path, notSet, updater)] *)
Definition updateIn (v : jv) (path : list jsstr) (notSet : option jv)
    (updater : option jv -> js_error + updated) : js_error + jv :=
  let? r := update_deep (Some v) path notSet updater in
  inr (default JUndef r).

Definition setIn (v : jv) (path : list jsstr) (x : jv) : js_error + jv :=
  updateIn v path None (fun _ => inr (NewValue x)).

Definition deleteIn (v : jv) (path : list jsstr) : js_error + jv :=
  updateIn v path (Some JUndef) (fun _ => inr Unset).

(** Entries in the order of iteration. *)
Definition entries_of (v : jv) : list (jsstr * jv) :=
  match v with
  | IMap _ ps => ps
  | IList l => imap (fun i x => (digits 10 (Z.of_nat i), x)) l
  | _ => []
  end.

(** ** Laws *)

Lemma getIn_app v p q : getIn v (p ++ q) = match getIn v p with Some x => getIn x q | None => None end.
Proof. revert v. induction p as [|k p IH]; intros v; [done|]. cbn [app getIn]. by destruct (im_get v k). Qed.

(** Every node in front of the end of the path is a Map, as far as it is there. *)
Fixpoint maps_along (v : jv) (path : list jsstr) : bool :=
  match path with
  | [] => true
  | k :: path' => is_map v && match im_get v k with Some x => maps_along x path' | None => true end
  end.

Lemma im_get_set_eq v k x : is_map v = true -> im_get (im_set v k x) k = Some x.
Proof. destruct v; try done. intros _. apply assoc_put_eq. Qed.

Lemma im_get_set_ne v k k' x : is_map v = true -> k <> k' -> im_get (im_set v k' x) k = im_get v k.
Proof. destruct v; try done. intros _ H. by apply assoc_put_ne. Qed.

Lemma assoc_remove k k' ps : assoc k (remove_key k' ps) = if bool_decide (k = k') then None else assoc k ps.
Proof.
  induction ps as [|[k2 x] ps IH]; cbn [remove_key assoc]; [by case_bool_decide|].
  destruct (decide (k' = k2)) as [->|Hne].
  - rewrite (bool_decide_eq_true_2 (k2 = k2)) by done. rewrite IH.
    case_bool_decide as E; [done|]. by rewrite ?(bool_decide_eq_false_2 _) by done.
  - rewrite (bool_decide_eq_false_2 (k' = k2)) by done. cbn [assoc]. rewrite IH.
    destruct (decide (k = k2)) as [->|H2].
    + rewrite (bool_decide_eq_true_2 (k2 = k2)) by done. by rewrite bool_decide_eq_false_2 by congruence.
    + by rewrite (bool_decide_eq_false_2 (k = k2)) by done.
Qed.

Lemma im_get_remove v k k' : is_map v = true ->
  im_get (im_remove v k') k = if bool_decide (k = k') then None else im_get v k.
Proof. destruct v; try done. intros _. apply assoc_remove. Qed.

(** Paths that part at some key. *)
Fixpoint diverges (p q : list jsstr) : Prop :=
  match p, q with
  | k :: p', k' :: q' => k <> k' \/ (k = k' /\ diverges p' q')
  | _, _ => False
  end.

(** Reading where nothing may be set. *)
Definition getO (t : option jv) (path : list jsstr) : option jv :=
  match t with Some v => getIn v path | None => None end.
Definition mapsO (t : option jv) (path : list jsstr) : Prop :=
  match t with Some v => maps_along v path = true | None => True end.

Lemma getO_cons t k q : getO t (k :: q) = getO (match t with Some v => im_get v k | None => None end) q.
Proof. destruct t as [v|]; [|done]. cbn [getO getIn]. by destruct (im_get v k). Qed.

(** The node an update leaves in place of [t]. *)
Definition rebuilt (t : option jv) (k : jsstr) (existing next : option jv) : option jv :=
  match existing, next with
  | None, None => t
  | Some _, None => (fun v => im_remove v k) <$> t
  | _, Some x => Some (im_set (default empty_map t) k x)
  end.

Lemma rebuilt_spec t k next : (match t with Some v => is_map v = true | None => True end) ->
  let existing := match t with Some v => im_get v k | None => None end in
  let t' := rebuilt t k existing next in
  (match t' with Some v => im_get v k | None => None end) = next /\
  (forall k', k <> k' -> (match t' with Some v => im_get v k' | None => None end) =
                        (match t with Some v => im_get v k' | None => None end)) /\
  (t <> None -> exists v', t' = Some v' /\ is_map v' = true).
Proof.
  intros Ht. cbv zeta. destruct t as [v|]; cbn [rebuilt].
  - destruct (im_get v k) as [y|] eqn:E; destruct next as [x|]; cbn [rebuilt default fmap option_fmap option_map].
    + split; [by apply im_get_set_eq|]. split; [intros; by apply im_get_set_ne|]. intros _. eexists. split; [done|].
      by destruct v.
    + split; [rewrite im_get_remove by done; by rewrite bool_decide_eq_true_2|].
      split; [intros; rewrite im_get_remove by done; by rewrite bool_decide_eq_false_2|]. intros _. eexists. split; [done|].
      by destruct v.
    + split; [by apply im_get_set_eq|]. split; [intros; by apply im_get_set_ne|]. intros _. eexists. split; [done|].
      by destruct v.
    + split; [done|]. split; [done|]. intros _. by eexists.
  - destruct next as [x|]; cbn [default]; [|done]. split; [by apply (im_get_set_eq empty_map)|].
    split; [|done]. intros k' Hk. by rewrite (im_get_set_ne empty_map).
Qed.

Lemma rebuilt_map t k existing next : (match t with Some v => is_map v = true | None => True end) ->
  match rebuilt t k existing next with Some v => is_map v = true | None => True end.
Proof. destruct t as [[]|], existing, next; done. Qed.

Definition updated_value (old : option jv) (r : updated) : option jv :=
  match r with Same => old | Unset => None | NewValue x => Some x end.

Lemma update_deep_spec path notSet f r : forall t, mapsO t path ->
  f (match getO t path with None => notSet | Some x => Some x end) = inr r ->
  exists t', update_deep t path notSet f = inr t' /\
    getO t' path = updated_value (getO t path) r /\
    (forall q, diverges path q -> getO t' q = getO t q) /\
    mapsO t' path /\
    (path <> [] -> t <> None -> exists v', t' = Some v' /\ is_map v' = true).
Proof.
  induction path as [|k path IH]; intros t Hm Hf.
  - cbn [update_deep]. assert (Et : getO t [] = t) by (by destruct t). rewrite Et in *.
    assert (Ef : f (match t with None => notSet | Some _ => t end) = inr r) by (by destruct t).
    rewrite Ef. cbn [rbind]. eexists. split; [done|]. split; [by destruct r, t|]. split; [done|]. by destruct r, t.
  - set (existing := match t with Some v => im_get v k | None => None end).
    assert (Ht : match t with Some v => is_map v = true | None => True end).
    { destruct t as [v|]; [|done]. simpl in Hm. by apply andb_true_iff in Hm as [? _]. }
    assert (He : mapsO existing path).
    { subst existing. destruct t as [v|]; [|done]. simpl in Hm. apply andb_true_iff in Hm as [_ Hm].
      by destruct (im_get v k). }
    rewrite getO_cons in Hf. destruct (IH existing He Hf) as (next & E1 & E2 & E3 & E4 & _).
    exists (rebuilt t k existing next). split.
    { cbn [update_deep]. replace (match t with Some v => is_immutable v | None => true end) with true.
      - fold existing. by rewrite E1.
      - destruct t as [v|]; [|done]. unfold is_immutable. by rewrite Ht. }
    destruct (rebuilt_spec t k next Ht) as (R1 & R2 & R3). fold existing in R1, R2, R3.
    rewrite !getO_cons. rewrite R1. fold existing. split; [done|]. split; [|split; [|done]].
    2:{ pose proof (rebuilt_map t k existing next Ht) as Hr. destruct (rebuilt t k existing next) as [v'|]; [|done].
        cbn [mapsO maps_along]. rewrite Hr, R1. by destruct next. }
    intros q Hq. destruct q as [|k' q]; [done|]. rewrite !getO_cons. destruct Hq as [Hne|[<- Hq]].
    + by rewrite R2.
    + rewrite R1. fold existing. by apply E3.
Qed.

(** [updateIn] on a path of Maps. *)
Lemma updateIn_spec v path notSet f r : path <> [] -> maps_along v path = true ->
  f (match getIn v path with None => notSet | Some x => Some x end) = inr r ->
  exists v', updateIn v path notSet f = inr v' /\ is_map v' = true /\
    getIn v' path = updated_value (getIn v path) r /\
    (forall q, diverges path q -> getIn v' q = getIn v q) /\ maps_along v' path = true.
Proof.
  intros Hp Hm Hf. destruct (update_deep_spec path notSet f r (Some v) Hm Hf) as (t' & E1 & E2 & E3 & E5 & E4).
  destruct E4 as (v' & -> & Hv'); [done|done|]. exists v'. unfold updateIn. rewrite E1. cbn [rbind default]. by repeat split.
Qed.

Lemma setIn_spec v path x : path <> [] -> maps_along v path = true ->
  exists v', setIn v path x = inr v' /\ is_map v' = true /\ getIn v' path = Some x /\
    (forall q, diverges path q -> getIn v' q = getIn v q) /\ maps_along v' path = true.
Proof. intros Hp Hm. exact (updateIn_spec v path None (fun _ => inr (NewValue x)) (NewValue x) Hp Hm eq_refl). Qed.

Lemma deleteIn_spec v path : path <> [] -> maps_along v path = true ->
  exists v', deleteIn v path = inr v' /\ is_map v' = true /\ getIn v' path = None /\
    (forall q, diverges path q -> getIn v' q = getIn v q) /\ maps_along v' path = true.
Proof. intros Hp Hm. exact (updateIn_spec v path (Some JUndef) (fun _ => inr Unset) Unset Hp Hm eq_refl). Qed.

(** An update along [p ++ q] is an update along [p] by an update along [q]. *)
Definition as_updated (r : option jv) : updated := match r with Some x => NewValue x | None => Unset end.

Lemma update_deep_app p q notSet f : forall t,
  update_deep t (p ++ q) notSet f =
  update_deep t p None (fun o => let? r := update_deep o q notSet f in inr (as_updated r)).
Proof.
  induction p as [|k p IH]; intros t; cbn [app update_deep].
  - replace (match t with None => None | Some _ => t end) with t by (by destruct t).
    destruct (update_deep t q notSet f) as [|[]]; done.
  - by rewrite IH.
Qed.

Lemma updateIn_app v p q notSet f :
  updateIn v (p ++ q) notSet f =
  updateIn v p None (fun o => let? r := update_deep o q notSet f in inr (as_updated r)).
Proof. unfold updateIn. by rewrite update_deep_app. Qed.

Lemma maps_along_app v p q :
  maps_along v (p ++ q) = maps_along v p && match getIn v p with Some x => maps_along x q | None => true end.
Proof.
  revert v. induction p as [|k p IH]; intros v; cbn [app maps_along getIn]; [done|].
  destruct (im_get v k); [|by rewrite !andb_true_r]. by rewrite IH, andb_assoc.
Qed.

(** Any update of a Map that does not throw is a Map again. *)
Lemma update_deep_map path notSet f t t' : path <> [] -> is_map t = true ->
  update_deep (Some t) path notSet f = inr t' -> exists v, t' = Some v /\ is_map v = true.
Proof.
  destruct path as [|k path]; [done|]. intros _ Ht. cbn [update_deep]. unfold is_immutable. rewrite Ht. cbn [orb].
  destruct (update_deep (im_get t k) path notSet f) as [|next]; [done|]. cbn [rbind]. intros [= <-].
  destruct (rebuilt_spec (Some t) k next Ht) as (_ & _ & H). by apply H.
Qed.

Lemma updateIn_map v path notSet f v' : path <> [] -> is_map v = true -> updateIn v path notSet f = inr v' -> is_map v' = true.
Proof.
  intros Hp Hv. unfold updateIn. destruct (update_deep (Some v) path notSet f) as [|t'] eqn:E; [done|]. cbn [rbind].
  destruct (update_deep_map path notSet f v t' Hp Hv E) as (x & -> & Hx). by intros [= <-].
Qed.

Create HintDb imm.
#[export] Hint Resolve updateIn_map : imm.

Lemma getIn_single v k : getIn v [k] = im_get v k.
Proof. cbn [getIn]. by destruct (im_get v k). Qed.

Lemma get_map v k : is_map v = true -> get v k = inr (default JUndef (im_get v k)).
Proof. intros Hv. unfold get, is_immutable. by rewrite Hv. Qed.

Lemma get_or_map v k d : is_map v = true -> get_or v k d = inr (default d (im_get v k)).
Proof. intros Hv. unfold get_or, is_immutable. by rewrite Hv. Qed.

Lemma assoc_in_key_order k ps : assoc k (in_key_order ps) = assoc k ps.
Proof. apply assoc_key_order. Qed.

Lemma assoc_map_values (f : jv -> jv) k ps :
  assoc k (map (fun p => match p with (k, x) => (k, f x) end) ps) = f <$> assoc k ps.
Proof. induction ps as [|[k' x] ps IH]; [done|]. cbn [map assoc]. by case_bool_decide. Qed.

(** A property of an object is the entry of its Map. *)
Lemma fromJS_get k ps : im_get (fromJS (JObj ps)) k = fromJS <$> assoc k ps.
Proof. cbn [fromJS im_get]. by rewrite assoc_in_key_order, assoc_map_values. Qed.

(** ** Maps with every key once *)

Definition map_ok (v : jv) : Prop := match v with IMap _ ps => NoDup (fst <$> ps) | _ => False end.

Lemma map_ok_is_map v : map_ok v -> is_map v = true.
Proof. by destruct v. Qed.

Lemma put_nodup {A} k (x : A) l : NoDup (fst <$> l) -> NoDup (fst <$> put k x l).
Proof.
  intros H. rewrite put_keys. case_bool_decide as E; [done|]. apply list.NoDup_app. split; [done|]. split.
  - intros y Hy Hk. apply list_elem_of_singleton in Hk as ->. by destruct E.
  - apply list.NoDup_singleton.
Qed.

Lemma im_set_ok v k x : map_ok v -> map_ok (im_set v k x).
Proof. destruct v; try done. apply put_nodup. Qed.

(** The first value there is. *)
Definition first_of {A} (a b : option A) : option A := match a with Some _ => a | None => b end.

(** Entries put in one by one win over those of before. *)
Lemma assoc_put_all {A} (l : list (jsstr * A)) : forall acc k, NoDup (fst <$> l) ->
  assoc k (foldl (fun acc p => put (fst p) (snd p) acc) acc l) = first_of (assoc k l) (assoc k acc).
Proof.
  induction l as [|[k' x] l IH]; intros acc k Hnd; [done|]. cbn [foldl assoc fst snd]. rewrite fmap_cons in Hnd.
  apply list.NoDup_cons in Hnd as [Hni Hnd]. rewrite IH by done. destruct (decide (k = k')) as [->|Hne].
  - rewrite bool_decide_eq_true_2 by done. rewrite assoc_put_eq. cbn [fst] in Hni.
    destruct (assoc k' l) eqn:E; [|done]. destruct Hni. apply assoc_elem. by rewrite E.
  - rewrite bool_decide_eq_false_2 by done. by rewrite assoc_put_ne.
Qed.

Lemma put_all_nodup {A} (l : list (jsstr * A)) : forall acc, NoDup (fst <$> acc) ->
  NoDup (fst <$> foldl (fun acc p => put (fst p) (snd p) acc) acc l).
Proof. induction l as [|[k x] l IH]; intros acc H; [done|]. by apply IH, put_nodup. Qed.

(** A page without files. *)
Definition plain_host : Host :=
  {| is_file := fun _ => false; is_blob := fun _ => false; object_text := fun _ => js "[object Object]"; host_entries := fun _ => Some [] |}.
