(* ===== verification/SuiSpec.v ===== *)
(** Swagger UI: the spec plugin (actions, reducers and selectors) and the way the store
    runs reducers. *)
From S2P Require Import Prelude JsString JsNumber YamlValue SuiUrl SuiImm.

(** ** Reducers under the store *)

(** [makeReducer]: an undefined state is a new Map; a handler that throws is logged and
    returns null ([wrapWithTryCatch]), for which, as for an unknown action, the old state is
    kept. *)
Definition makeReducer {A} (handler : A -> option (jv -> js_error + jv)) (state : jv) (action : A) : jv :=
  let state := match state with JUndef => empty_map | _ => state end in
  match handler action with
  | None => state
  | Some redFn =>
      match redFn state with
      | inl _ | inr JNull => state
      | inr res => res
      end
  end.

Lemma makeReducer_map {A} (handler : A -> option (jv -> js_error + jv)) state action : is_map state = true ->
  makeReducer handler state action =
  match handler action with
  | None => state
  | Some redFn => match redFn state with inl _ | inr JNull => state | inr res => res end
  end.
Proof. by destruct state. Qed.

Section Spec.
Context `{Host}.

(** [param.hashCode()] in decimal. *)
Context (hashCode : jv -> jsstr).

(** [validateParam(param, isXml, isOAS3)] of core/utils.js. *)
Context (validateParam : jv -> bool -> bool -> js_error + list jv).

(** ** Plain objects *)

(** [v.k] *)
Definition prop (v : jv) (k : jsstr) : js_error + jv :=
  match v with
  | JUndef | JNull => inl (TypeError "Cannot read property of undefined")
  | JObj ps => inr (default JUndef (assoc k ps))
  | _ => inr JUndef
  end.

(** [Object.assign(target, source)] *)
Definition assign (target : list (jsstr * jv)) (source : jv) : list (jsstr * jv) :=
  match source with
  | JObj ps => foldl (fun acc p => set_prop (fst p) (snd p) acc) target (in_key_order ps)
  | _ => target
  end.

(** [/xml/i.test(v)] *)
Fixpoint contains_xml (s : jsstr) : bool :=
  match s with
  | x :: ((m :: l :: _) as s') =>
      ((lower_unit x =? 120) && (lower_unit m =? 109) && (lower_unit l =? 108)) || contains_xml s'
  | _ => false
  end.

(** ** Selectors *)

(** [state || Map()] *)
Definition self (state : jv) : jv := if truthy state then state else empty_map.

Definition specJson (state : jv) : js_error + jv := get_or (self state) (js "json") empty_map.

(** [mergerFn]: Maps are merged entry by entry unless the new one was resolved. *)
Fixpoint mergerFn (newVal oldVal : jv) {struct newVal} : jv :=
  match newVal, oldVal with
  | IMap _ nps, IMap _ ops =>
      if truthy (default JUndef (assoc (js "$$ref") nps)) then newVal
      else IMap true ((fix go (nps acc : list (jsstr * jv)) : list (jsstr * jv) :=
             match nps with
             | [] => acc
             | (k, v) :: nps' =>
                 go nps' (put k (match assoc k acc with Some old => mergerFn v old | None => v end) acc)
             end) nps ops)
  | _, _ => newVal
  end.

(** One element of a list of entries; a key that is no string is kept as its text. *)
Definition entry_of (e : jv) : js_error + option (jsstr * jv) :=
  let pair l := inr (Some (js_string (default JUndef (l !! 0%nat)), default JUndef (l !! 1%nat))) in
  match e with
  | IList l | JArr l => pair l
  | JObj ps => pair [default JUndef (assoc (js "0") ps); default JUndef (assoc (js "1") ps)]
  | IMap _ _ | JHost _ | JFun _ => pair []
  | _ => if truthy e then inl (TypeError "Expected [K, V] tuple") else inr None
  end.

(** [KeyedIterable(v)], with the values of plain data converted: a Map or an object has its
    entries, a List or an array is a list of entries. *)
Definition keyed (v : jv) : js_error + list (jsstr * jv) :=
  match v with
  | JUndef | JNull | JHost _ => inr []
  | JObj _ => inr (entries_of (fromJS v))
  | IMap _ _ => inr (entries_of v)
  | IList l => let? es := traverse entry_of l in inr (omap id es)
  | JArr l => let? es := traverse entry_of l in inr (prod_map id fromJS <$> omap id es)
  | _ => inl (TypeError "Expected Array or iterable object of [k, v] entries, or keyed object")
  end.

(** [OrderedMap().mergeWith(mergerFn, json, resolvedSubtrees)] *)
Definition specJsonWithResolvedSubtrees (state : jv) : js_error + jv :=
  let? json := get (self state) (js "json") in
  let? subtrees := get (self state) (js "resolvedSubtrees") in
  let? ops := keyed json in
  let? nps := keyed subtrees in
  inr (IMap true (foldl (fun acc p =>
    put (fst p) (match assoc (fst p) acc with Some old => mergerFn (snd p) old | None => snd p end) acc) ops nps)).

Definition meta_path (pathMethod : list jsstr) : list jsstr := js "meta" :: js "paths" :: pathMethod.

(** [v.map(f)] of a List or Map. *)
Definition map_values (f : jv -> js_error + jv) (v : jv) : js_error + jv :=
  match v with
  | IList l => let? l' := traverse f l in inr (IList l')
  | IMap o ps => let? xs := traverse f (snd <$> ps) in inr (IMap o (zip (fst <$> ps) xs))
  | _ => inl (TypeError "map is not a function")
  end.

Definition values_of (v : jv) : list jv := match v with IList l => l | IMap _ ps => snd <$> ps | _ => [] end.

(** [a === b] on primitive values; two objects are taken to be different. *)
Definition strict_eq (a b : jv) : bool :=
  match a, b with
  | JStr s, JStr t => bool_decide (s = t)
  | JUndef, JUndef | JNull, JNull => true
  | JBool x, JBool y => eqb x y
  | JNum (Zero _), JNum (Zero _) => true
  | JNum NaN, JNum _ | JNum _, JNum NaN => false
  | JNum x, JNum y => bool_decide (x = y)
  | _, _ => false
  end.

Definition param_is (name inn : jv) (p : jv) : js_error + bool :=
  let? i := get p (js "in") in
  let? n := get p (js "name") in
  inr (strict_eq i inn && strict_eq n name).

(** [v.find(pred)] *)
Fixpoint find (pred : jv -> js_error + bool) (l : list jv) : js_error + jv :=
  match l with
  | [] => inr JUndef
  | x :: l' => let? b := pred x in if b then inr x else find pred l'
  end.

(** [a || b] *)
Definition js_or (a b : jv) : jv := if truthy a then a else b.

(** ** Selectors of the document *)

Definition lastError (state : jv) : js_error + jv := get (self state) (js "lastError").
Definition url (state : jv) : js_error + jv := get (self state) (js "url").
Definition specStr (state : jv) : js_error + jv := let? s := get (self state) (js "spec") in inr (js_or s (JStr [])).
Definition specSource (state : jv) : js_error + jv :=
  let? s := get (self state) (js "specSource") in inr (js_or s (JStr (js "not-editor"))).
Definition specResolved (state : jv) : js_error + jv := get_or (self state) (js "resolved") empty_map.
Definition specResolvedSubtree (state : jv) (path : list jsstr) : jv :=
  getIn_or state (js "resolvedSubtrees" :: path) JUndef.

Definition returnSelfOrNewMap (v : jv) : jv := if is_map v then v else empty_map.

(** [returnSelfOrNewMap(spec && spec.get(k))] *)
Definition spec_section (k : jsstr) (state : jv) : js_error + jv :=
  let? spec := specJson state in
  if truthy spec then let? v := get spec k in inr (returnSelfOrNewMap v) else inr empty_map.

Definition info := spec_section (js "info").
Definition externalDocs := spec_section (js "externalDocs").
Definition version (state : jv) : js_error + jv := let? i := info state in get i (js "version").

Definition paths (state : jv) : js_error + jv :=
  let? spec := specJsonWithResolvedSubtrees state in get spec (js "paths").

Definition OPERATION_METHODS : list jsstr :=
  js <$> ["get"; "put"; "post"; "delete"; "options"; "head"; "patch"; "trace"]%string.

(** The record of one operation; [fromJS] keeps the operation, a collection. *)
Definition operation_entry (pathName method : jsstr) (operation : jv) : jv :=
  fromJS (JObj [(js "path", JStr pathName); (js "method", JStr method); (js "operation", operation);
                (js "id", JStr (method ++ 45 :: pathName))]).

(** [paths] is a Map of Maps; what is no collection is passed over. *)
Definition operations_of (paths : jv) : list jv :=
  entries_of paths ≫= (fun p =>
    (fun q => operation_entry (fst p) (fst q) (snd q)) <$>
      base.filter (fun q => fst q ∈ OPERATION_METHODS) (entries_of (snd p))).

Definition operations (state : jv) : js_error + jv := let? p := paths state in inr (IList (operations_of p)).

Definition security (state : jv) : js_error + jv := let? spec := specJson state in get_or spec (js "security") (IList []).
Definition securityDefinitions (state : jv) : js_error + jv := let? spec := specJson state in get spec (js "securityDefinitions").
Definition findDefinition (state : jv) (name : jsstr) : jv :=
  js_or (getIn_or state [js "resolvedSubtrees"; js "definitions"; name] JNull)
    (js_or (getIn_or state [js "json"; js "definitions"; name] JNull) JNull).
Definition definitions (state : jv) : js_error + jv :=
  let? spec := specJson state in let? d := get spec (js "definitions") in inr (js_or d empty_map).
Definition basePath (state : jv) : js_error + jv := let? spec := specJson state in get spec (js "basePath").
Definition host (state : jv) : js_error + jv := let? spec := specJson state in get spec (js "host").
Definition schemes (state : jv) : js_error + jv := let? spec := specJson state in get_or spec (js "schemes") empty_map.
Definition tags (state : jv) : js_error + jv := let? spec := specJson state in get_or spec (js "tags") (IList []).

(** The second argument of [find] is a context, no default: without the tag the
    result is undefined. *)
Definition tagDetails (state tag : jv) : js_error + jv :=
  let? ts := tags state in
  let currentTags := js_or ts (IList []) in
  if is_immutable currentTags then
    find (fun t => let? n := get t (js "name") in inr (strict_eq n tag)) (base.filter (fun t => is_map t = true) (values_of currentTags))
  else inl (TypeError "filter is not a function").

Definition hasHost (state : jv) : js_error + bool :=
  let? h := host state in
  inr (match h with JStr (c :: _) => negb (c =? 47) | _ => false end).

(** ** Selectors of parameters *)

(** [name + "." + in] *)
Definition paramKey (name inn : jv) : jsstr := js_string name ++ 46 :: js_string inn.

Definition hashKey (param name inn : jv) : jsstr := paramKey name inn ++ js ".hash-" ++ hashCode param.

(** [OrderedMap().merge(current, nameInKeyedMeta, hashKeyedMeta)] *)
Definition merge_param (current nameIn hashKeyed : jv) : js_error + jv :=
  let? a := keyed current in
  let? b := keyed nameIn in
  let? c := keyed hashKeyed in
  let add := foldl (fun acc p => put (fst p) (snd p) acc) in
  inr (IMap true (add (add (add [] a) b) c)).

(** The keys are those of [param], for every parameter of the operation. *)
Definition parameterWithMetaByIdentity (state : jv) (pathMethod : list jsstr) (param : jv) : js_error + jv :=
  let? spec := specJsonWithResolvedSubtrees state in
  let opParams := getIn_or spec (js "paths" :: pathMethod ++ [js "parameters"]) (IMap true []) in
  let metaParams := getIn_or state (meta_path pathMethod ++ [js "parameters"]) (IMap true []) in
  let? merged := map_values (fun currentParam =>
    let? name := get param (js "name") in
    let? inn := get param (js "in") in
    let? nameIn := get metaParams (paramKey name inn) in
    let? hashKeyed := get metaParams (hashKey param name inn) in
    merge_param currentParam nameIn hashKeyed) opParams in
  find (fun curr =>
    let? name := get param (js "name") in
    let? inn := get param (js "in") in
    param_is name inn curr) (values_of merged).

Definition operationWithMeta (state : jv) (path method : jsstr) : js_error + jv :=
  let? spec := specJsonWithResolvedSubtrees state in
  let op := getIn_or spec [js "paths"; path; method] (IMap true []) in
  let meta := getIn_or state (meta_path [path; method]) (IMap true []) in
  let? params := get_or op (js "parameters") (IList []) in
  let? merged := map_values (parameterWithMetaByIdentity state [path; method]) params in
  let? a := keyed op in
  let? b := keyed meta in
  let add := foldl (fun acc p => put (fst p) (snd p) acc) in
  inr (IMap true (put (js "parameters") merged (add (add [] a) b))).

(** Without such a parameter the identity is undefined and reading its name throws. *)
Definition parameterWithMeta (state : jv) (pathMethod : list jsstr) (paramName paramIn : jsstr) : js_error + jv :=
  let? spec := specJsonWithResolvedSubtrees state in
  let opParams := getIn_or spec (js "paths" :: pathMethod ++ [js "parameters"]) (IMap true []) in
  if is_immutable opParams then
    let? currentParam := find (param_is (JStr paramName) (JStr paramIn)) (values_of opParams) in
    parameterWithMetaByIdentity state pathMethod currentParam
  else inl (TypeError "find is not a function").

Definition getParameter (state : jv) (pathMethod : list jsstr) (name inType : jsstr) : js_error + jv :=
  let params := getIn_or state (meta_path pathMethod ++ [js "parameters"]) (IList []) in
  if is_immutable params then
    let? r := find (fun p => if is_map p then param_is (JStr name) (JStr inType) p else inr false) (values_of params) in
    inr (js_or r empty_map)
  else inl (TypeError "find is not a function").

(** [parameters.some(p => Map.isMap(p) && p.get(k) === value)] of a List. *)
Definition parametersInclude (k : jsstr) (parameters : jv) (value : jsstr) : bool :=
  match parameters with
  | IList l => existsb (fun p => is_map p && is_str (default JUndef (im_get p k)) value) l
  | _ => false
  end.

Definition parametersIncludeIn := parametersInclude (js "in").
Definition parametersIncludeType := parametersInclude (js "type").

(** The chosen type, else the first the operation produces, else JSON. *)
Definition currentProducesFor (state : jv) (pathMethod : list jsstr) : js_error + jv :=
  let? spec := specJsonWithResolvedSubtrees state in
  match getIn_or spec (js "paths" :: pathMethod) JNull with
  | JNull => inr JUndef
  | operation =>
      if is_immutable operation then
        inr (js_or (getIn_or state (meta_path pathMethod ++ [js "produces_value"]) JNull)
               (js_or (getIn_or operation [js "produces"; js "0"] JNull) (JStr (js "application/json"))))
      else inl (TypeError "getIn is not a function")
  end.

(** The second test looks at [type], where a form parameter has "formData" in [in]. *)
Definition contentTypeValues (state : jv) (pathMethod : list jsstr) : js_error + jv :=
  let? spec := specJsonWithResolvedSubtrees state in
  let op := getIn_or spec (js "paths" :: pathMethod) empty_map in
  let meta := getIn_or state (meta_path pathMethod) empty_map in
  let? producesValue := currentProducesFor state pathMethod in
  let? params := get op (js "parameters") in
  let parameters := js_or params (IList []) in
  let? consumes := get meta (js "consumes_value") in
  let requestContentType :=
    if truthy consumes then consumes
    else if parametersIncludeType parameters (js "file") then JStr (js "multipart/form-data")
    else if parametersIncludeType parameters (js "formData") then JStr (js "application/x-www-form-urlencoded")
    else JUndef in
  inr (fromJS (JObj [(js "requestContentType", requestContentType); (js "responseContentType", producesValue)])).

Definition operationConsumes (state : jv) (pathMethod : list jsstr) : js_error + jv :=
  let? spec := specJsonWithResolvedSubtrees state in
  inr (getIn_or spec (js "paths" :: pathMethod ++ [js "consumes"]) empty_map).

Definition is_lower (c : Z) : bool := (97 <=? c) && (c <=? 122).
Definition is_scheme_char (c : Z) : bool :=
  is_lower c || ((48 <=? c) && (c <=? 57)) || (c =? 43) || (c =? 45) || (c =? 46).

(** The scheme an URL starts with: a letter, then letters, digits, plus, minus and dot, up to
    a colon. *)
Fixpoint scheme_rest (s : jsstr) : option jsstr :=
  match s with
  | [] => None
  | c :: s' => if c =? 58 then Some [] else if is_scheme_char c then cons c <$> scheme_rest s' else None
  end.
Definition url_scheme (s : jsstr) : option jsstr :=
  match s with c :: s' => if is_lower c then cons c <$> scheme_rest s' else None | [] => None end.

Definition operationScheme (state : jv) (path method : jsstr) : js_error + jv :=
  let? u := get state (js "url") in
  match u with
  | JStr s =>
      inr (js_or (getIn_or state [js "scheme"; path; method] JUndef)
            (js_or (getIn_or state [js "scheme"; js "_defaultScheme"] JUndef)
              (js_or (match url_scheme s with Some u => JStr u | None => JNull end) (JStr []))))
  | _ => inl (TypeError "url.match is not a function")
  end.

Definition canExecuteScheme (state : jv) (path method : jsstr) : js_error + bool :=
  let? s := operationScheme state path method in
  inr (is_str s (js "http") || is_str s (js "https")).

(** The first two elements of [pathMethod], as [apply] passes them. *)
Definition apply2 {A} (f : jsstr -> jsstr -> A) (pathMethod : list jsstr) : A :=
  f (or_undefined (pathMethod !! 0%nat)) (or_undefined (pathMethod !! 1%nat)).

(** The value of a parameter, for an XML body the other one. *)
Definition param_value (isXml : bool) (p : jv) : js_error + jv :=
  let? inn := get p (js "in") in
  get p (if isXml && is_str inn (js "body") then js "value_xml" else js "value").

Fixpoint collect_values (isXml : bool) (ps : list jv) (hash : list (jsstr * jv)) : js_error + list (jsstr * jv) :=
  match ps with
  | [] => inr hash
  | p :: ps' =>
      let? v := param_value isXml p in
      let? inn := get p (js "in") in
      let? name := get p (js "name") in
      collect_values isXml ps' (put (js_string inn ++ 46 :: js_string name) v hash)
  end.

Definition parameterValues (state : jv) (pathMethod : list jsstr) (isXml : bool) : js_error + jv :=
  let? op := apply2 (operationWithMeta state) pathMethod in
  let? params := get_or op (js "parameters") (IList []) in
  let? hash := collect_values isXml (values_of params) [] in
  inr (IMap false hash).

Definition responseFor (state : jv) (path method : jsstr) : js_error + jv :=
  let? r := get_or (self state) (js "responses") empty_map in
  inr (getIn_or r [path; method] JNull).

Definition requestFor (state : jv) (path method : jsstr) : js_error + jv :=
  let? r := get_or (self state) (js "requests") empty_map in
  inr (getIn_or r [path; method] JNull).

Definition mutatedRequestFor (state : jv) (path method : jsstr) : js_error + jv :=
  let? r := get_or (self state) (js "mutatedRequests") empty_map in
  inr (getIn_or r [path; method] JNull).

Definition parameterInclusionSettingFor (state : jv) (pathMethod : list jsstr) (paramName paramIn : jsstr) : jv :=
  getIn_or state (meta_path pathMethod ++ [js "parameter_inclusions"; paramName ++ 46 :: paramIn]) (JBool false).

(** [errors && errors.count()] *)
Definition has_errors (p : jv) : js_error + bool :=
  let? errors := get p (js "errors") in
  if truthy errors then
    if is_immutable errors then inr (negb (bool_decide (values_of errors = [])))
    else inl (TypeError "errors.count is not a function")
  else inr false.

(** A loop over the parameters; [isValid] becomes false at the first with errors. *)
Definition validateBeforeExecute (state : jv) (pathMethod : list jsstr) : js_error + bool :=
  let paramValues := getIn_or state (meta_path pathMethod ++ [js "parameters"]) (IList []) in
  if is_immutable paramValues then
    let? bad := traverse has_errors (values_of paramValues) in
    inr (forallb negb bad)
  else inl (TypeError "forEach is not a function").

(** ** Actions *)

Inductive spec_action :=
  | UPDATE_SPEC (payload : jv)
  | UPDATE_URL (payload : jv)
  | UPDATE_JSON (payload : jv)
  | UPDATE_RESOLVED (payload : jv)
  | UPDATE_RESOLVED_SUBTREE (path : list jsstr) (value : jv)
  | UPDATE_PARAM (path : list jsstr) (paramName paramIn : option jsstr) (param value : jv) (isXml : bool)
  | UPDATE_EMPTY_PARAM_INCLUSION (pathMethod : list jsstr) (paramName paramIn : option jsstr) (includeEmptyValue : jv)
  | VALIDATE_PARAMS (pathMethod : list jsstr) (isOAS3 : bool)
  | CLEAR_VALIDATE_PARAMS (pathMethod : list jsstr)
  | SET_RESPONSE (path method : jsstr) (res : jv)
  | SET_REQUEST (path method : jsstr) (req : jv)
  | SET_MUTATED_REQUEST (path method : jsstr) (req : jv)
  | UPDATE_OPERATION_META_VALUE (path : list jsstr) (value : jv) (key : jsstr)
  | CLEAR_RESPONSE (path method : jsstr)
  | CLEAR_REQUEST (path method : jsstr)
  | SET_SCHEME (scheme : jv) (path method : option jsstr)
  | UPDATE_LOADING_STATUS (payload : jv)  (* of the download-url plugin *)
  | LOG_REQUEST (req : jv).              (* no reducer *)

(** [!s] for a string that may be undefined. *)
Definition missing (s : option jsstr) : bool := match s with None | Some [] => true | _ => false end.

(** ** Reducers *)

Definition update_param_key (paramName paramIn : option jsstr) (param : jv) : js_error + jsstr :=
  if is_immutable param && missing paramIn && missing paramName then
    let? name := get param (js "name") in
    let? inn := get param (js "in") in
    inr (hashKey param name inn)
  else inr (or_undefined paramName ++ 46 :: or_undefined paramIn).

Definition reduce_UPDATE_PARAM (path : list jsstr) (paramName paramIn : option jsstr) (param value : jv)
    (isXml : bool) (state : jv) : js_error + jv :=
  let? key := update_param_key paramName paramIn param in
  setIn state (meta_path path ++ [js "parameters"; key; js (if isXml then "value_xml" else "value")]) value.

Definition reduce_UPDATE_EMPTY_PARAM_INCLUSION (pathMethod : list jsstr) (paramName paramIn : option jsstr)
    (includeEmptyValue state : jv) : js_error + jv :=
  if missing paramName || missing paramIn then inr state
  else setIn state (meta_path pathMethod ++
         [js "parameter_inclusions"; or_undefined paramName ++ 46 :: or_undefined paramIn]) includeEmptyValue.

(** The errors of every parameter stored beside its value. *)
Fixpoint store_errors (isXml isOAS3 : bool) (params : list jv) (res : jv) : js_error + jv :=
  match params with
  | [] => inr res
  | param :: params' =>
      let? errors := validateParam param isXml isOAS3 in
      let? name := get param (js "name") in
      let? inn := get param (js "in") in
      let? res := setIn res [paramKey name inn; js "errors"] (fromJS (JArr errors)) in
      store_errors isXml isOAS3 params' res
  end.

Definition reduce_VALIDATE_PARAMS (pathMethod : list jsstr) (isOAS3 : bool) (state : jv) : js_error + jv :=
  let meta := getIn_or state (meta_path pathMethod) empty_map in
  let? consumes := get meta (js "consumes_value") in
  let isXml := contains_xml (js_string consumes) in
  let? op := apply2 (operationWithMeta state) pathMethod in
  updateIn state (meta_path pathMethod ++ [js "parameters"]) (Some empty_map) (fun paramMeta =>
    let? params := get_or op (js "parameters") (IList []) in
    match values_of params with
    | [] => inr Same
    | ps => let? res := store_errors isXml isOAS3 ps (default JUndef paramMeta) in inr (NewValue res)
    end).

Definition clear_errors (param : jv) : js_error + jv := jset param (js "errors") (IList []).

Definition reduce_CLEAR_VALIDATE_PARAMS (pathMethod : list jsstr) (state : jv) : js_error + jv :=
  updateIn state (meta_path pathMethod ++ [js "parameters"]) (Some (IList [])) (fun parameters =>
    let parameters := default JUndef parameters in
    match values_of parameters with
    | [] => if is_immutable parameters then inr Same else inl (TypeError "map is not a function")
    | _ => let? r := map_values clear_errors parameters in inr (NewValue r)
    end).

Definition reduce_SET_RESPONSE (path method : jsstr) (res state : jv) : js_error + jv :=
  let? error := prop res (js "error") in
  let? result :=
    (if truthy error then
       let? err := prop res (js "err") in
       let? name := prop err (js "name") in
       let? message := prop err (js "message") in
       let? statusCode := prop err (js "statusCode") in
       let? response := prop err (js "response") in
       inr (JObj (assign [(js "error", JBool true); (js "name", name); (js "message", message);
                          (js "statusCode", statusCode)] response))
     else inr res) in
  let? headers := prop result (js "headers") in
  let? result := (match result with
                  | JObj ps => inr (JObj (set_prop (js "headers") (if truthy headers then headers else JObj []) ps))
                  | JStr _ | JNum _ | JBool _ => inl (TypeError "Cannot create property 'headers'")
                  | v => inr v end) in
  let? result' := fromJSOrdered result in
  let? newState := setIn state [js "responses"; path; method] result' in
  let? data := prop res (js "data") in
  match data with
  | JHost id => if is_blob id then setIn newState [js "responses"; path; method; js "text"] data else inr newState
  | _ => inr newState
  end.

(** [state.getIn(path)] is truthy. *)
Definition present (state : jv) (path : list jsstr) : bool :=
  match getIn state path with Some v => truthy v | None => false end.

Definition reduce_UPDATE_OPERATION_META_VALUE (path : list jsstr) (value : jv) (key : jsstr) (state : jv)
    : js_error + jv :=
  let operationPath := js "paths" :: path in
  if negb (present state (js "json" :: operationPath)) && negb (present state (js "resolved" :: operationPath)) &&
     negb (present state (js "resolvedSubtrees" :: operationPath))
  then inr state
  else setIn state (meta_path path ++ [key]) (fromJS value).

(** With one of path and method missing the handler returns nothing. *)
Definition reduce_SET_SCHEME (scheme : jv) (path method : option jsstr) (state : jv) : js_error + jv :=
  if negb (missing path) && negb (missing method)
  then setIn state [js "scheme"; or_undefined path; or_undefined method] scheme
  else if missing path && missing method then setIn state [js "scheme"; js "_defaultScheme"] scheme
  else inr JUndef.

Definition spec_reducers (a : spec_action) : option (jv -> js_error + jv) :=
  match a with
  | UPDATE_SPEC payload => Some (fun state => match payload with JStr _ => jset state (js "spec") payload | _ => inr state end)
  | UPDATE_URL payload => Some (fun state => jset state (js "url") (JStr (js_string payload)))
  | UPDATE_JSON payload => Some (fun state => let? json := fromJSOrdered payload in jset state (js "json") json)
  | UPDATE_RESOLVED payload => Some (fun state => let? x := fromJSOrdered payload in setIn state [js "resolved"] x)
  | UPDATE_RESOLVED_SUBTREE path value => Some (fun state => let? x := fromJSOrdered value in setIn state (js "resolvedSubtrees" :: path) x)
  | UPDATE_PARAM path paramName paramIn param value isXml => Some (reduce_UPDATE_PARAM path paramName paramIn param value isXml)
  | UPDATE_EMPTY_PARAM_INCLUSION pathMethod paramName paramIn v =>
      Some (reduce_UPDATE_EMPTY_PARAM_INCLUSION pathMethod paramName paramIn v)
  | VALIDATE_PARAMS pathMethod isOAS3 => Some (reduce_VALIDATE_PARAMS pathMethod isOAS3)
  | CLEAR_VALIDATE_PARAMS pathMethod => Some (reduce_CLEAR_VALIDATE_PARAMS pathMethod)
  | SET_RESPONSE path method res => Some (reduce_SET_RESPONSE path method res)
  | SET_REQUEST path method req => Some (fun state => let? x := fromJSOrdered req in setIn state [js "requests"; path; method] x)
  | SET_MUTATED_REQUEST path method req =>
      Some (fun state => let? x := fromJSOrdered req in setIn state [js "mutatedRequests"; path; method] x)
  | UPDATE_OPERATION_META_VALUE path value key => Some (reduce_UPDATE_OPERATION_META_VALUE path value key)
  | CLEAR_RESPONSE path method => Some (fun state => deleteIn state [js "responses"; path; method])
  | CLEAR_REQUEST path method => Some (fun state => deleteIn state [js "requests"; path; method])
  | SET_SCHEME scheme path method => Some (reduce_SET_SCHEME scheme path method)
  | UPDATE_LOADING_STATUS payload =>
      Some (fun state => match payload with JStr _ => jset state (js "loadingStatus") payload | _ => inr state end)
  | LOG_REQUEST _ => None
  end.

Definition spec_reducer : jv -> spec_action -> jv := makeReducer spec_reducers.
End Spec.
