(* ===== verification/SuiSpecLaws.v ===== *)
(** What the spec plugin of Swagger UI keeps and computes. *)
From S2P Require Import Prelude JsString JsNumber YamlValue SuiUrl SuiImm SuiSpec.

Section Laws.
Context `{Host} (hashCode : jv -> jsstr) (validateParam : jv -> bool -> bool -> js_error + list jv).
Abbreviation reducer := (spec_reducer hashCode validateParam).

(** ** The state stays a Map *)

(** [setScheme] for half an operation. *)
Definition half_scheme (a : spec_action) : bool :=
  match a with SET_SCHEME _ path method => xorb (missing path) (missing method) | _ => false end.

Lemma jset_map v k x r : is_map v = true -> jset v k x = inr r -> is_map r = true.
Proof. destruct v; try done. intros _. by intros [= <-]. Qed.

Lemma setIn_map v path x r : path <> [] -> is_map v = true -> setIn v path x = inr r -> is_map r = true.
Proof. apply updateIn_map. Qed.

Lemma deleteIn_map v path r : path <> [] -> is_map v = true -> deleteIn v path = inr r -> is_map r = true.
Proof. apply updateIn_map. Qed.

Lemma rbind_inr {A B} (r : js_error + A) (k : A -> js_error + B) b :
  rbind r k = inr b -> exists a, r = inr a /\ k a = inr b.
Proof. destruct r; [done|]. intros E. by eexists. Qed.

(** Take a successful computation apart. *)
Ltac run := repeat match goal with
  | E : rbind ?r _ = inr _ |- _ => apply rbind_inr in E as (? & ? & E)
  | E : inr _ = inr _ |- _ => injection E as <-
  end.

Ltac map_result := first
  [ done | by eapply jset_map | eapply setIn_map; [| |eassumption]; done
  | eapply deleteIn_map; [| |eassumption]; done | eapply updateIn_map; [| |eassumption]; done ].

Lemma spec_handler_map a f state r : half_scheme a = false -> is_map state = true ->
  spec_reducers hashCode validateParam a = Some f -> f state = inr r -> is_map r = true.
Proof.
  intros Ha Hs Hf Hr. destruct a; cbn [spec_reducers] in Hf; try done; injection Hf as <-;
    unfold reduce_UPDATE_PARAM, reduce_UPDATE_EMPTY_PARAM_INCLUSION, reduce_VALIDATE_PARAMS,
      reduce_CLEAR_VALIDATE_PARAMS, reduce_SET_RESPONSE, reduce_UPDATE_OPERATION_META_VALUE, reduce_SET_SCHEME in Hr;
    cbv zeta in Hr; run; try map_result.
  - destruct payload; run; map_result.
  - destruct (missing paramName || missing paramIn); run; map_result.
  - match goal with E : setIn state _ _ = inr ?x |- _ => assert (is_map x = true) by map_result end.
    match type of Hr with match ?x with _ => _ end = _ => destruct x end; run; try done.
    destruct (is_blob id); run; map_result.
  - destruct (_ && _); run; map_result.
  - destruct (negb (missing path) && negb (missing method)) eqn:E1; [map_result|].
    destruct (missing path && missing method) eqn:E2; [map_result|].
    cbn [half_scheme] in Ha. destruct (missing path), (missing method); done.
  - destruct payload; run; map_result.
Qed.

Lemma reducer_map a state : half_scheme a = false -> is_map state = true -> is_map (reducer state a) = true.
Proof.
  intros Ha Hs. unfold spec_reducer. rewrite makeReducer_map by done. destruct (spec_reducers hashCode validateParam a) as [f|] eqn:Ef; [|done].
  destruct (f state) as [|r] eqn:Er; [done|]. pose proof (spec_handler_map a f state r Ha Hs Ef Er). by destruct r.
Qed.

(** C19: The state of the spec plugin is a Map after any sequence of actions, whether handlers succeed
    or throw, provided every [setScheme] is given both of path and method or neither; with one of them
    the state is lost. *)
Theorem spec_state_map actions state : is_map state = true -> Forall (fun a => half_scheme a = false) actions ->
  is_map (foldl reducer state actions) = true.
Proof.
  intros Hs HF. revert state Hs. induction HF as [|a actions Ha _ IH]; intros state Hs; [done|].
  cbn [foldl]. by apply IH, reducer_map.
Qed.

(** With a path and no method the state is lost. *)
Example half_scheme_undefined state :
  reducer state (SET_SCHEME (JStr (js "https")) (Some (js "/pets")) None) = JUndef.
Proof. done. Qed.
End Laws.

Lemma spec_state_map_witness :
  is_map (foldl (spec_reducer (H := plain_host) (fun _ => []) (fun _ _ _ => inr [])) empty_map
    [UPDATE_SPEC (JStr (js "swagger: '2.0'")); UPDATE_JSON (JObj [(js "host", JStr (js "a"))]);
     SET_SCHEME (JStr (js "https")) None None; UPDATE_PARAM [js "/a"; js "get"] None None JUndef (JNum NaN) true;
     LOG_REQUEST JNull]) = true.
Proof. apply spec_state_map; [done|]. repeat constructor. Defined.
