(* ===== verification/SuiErr.v ===== *)
(** Swagger UI: the err plugin.  Its reducers build errors by [Object.assign] into one
    object of the module, [DEFAULT_ERROR_STRUCTURE], so that object is part of the state
    here. *)
From S2P Require Import Prelude JsString JsNumber UriCodec YamlValue SuiUrl SuiImm SuiSpec.

(** ** Plain objects *)

Definition DEFAULT_ERROR_STRUCTURE : list (jsstr * jv) :=
  [(js "line", JNum (Zero false)); (js "level", JStr (js "error")); (js "message", JStr (js "Unknown error"))].

(** The own enumerable properties of a value, as [Object.assign] copies them. *)
Definition own_enumerable (v : jv) : list (jsstr * jv) :=
  match v with
  | JObj ps => in_key_order ps
  | JArr l => imap (fun i x => (digits 10 (Z.of_nat i), x)) l
  | JStr s => imap (fun i c => (digits 10 (Z.of_nat i), JStr [c])) s
  | _ => []
  end.

(** [Object.assign(target, source, { type })] *)
Definition assign_error (target : list (jsstr * jv)) (source : jv) (type : jsstr) : list (jsstr * jv) :=
  put (js "type") (JStr type) (foldl (fun acc p => set_prop (fst p) (snd p) acc) target (own_enumerable source)).

(** ** The transformers *)

Definition seekStr : jsstr := js "is not of a type(s)".

Fixpoint index_of (t s : jsstr) : option nat :=
  if bool_decide (take (length t) s = t) then Some 0%nat
  else match s with [] => None | _ :: s' => S <$> index_of t s' end.

(** [makeNewMessage]: [rest] are the types from the current one on. *)
Fixpoint make_message (arr_length : nat) (p : jsstr) (rest : list jsstr) : jsstr :=
  match rest with
  | [] => p
  | [c] => if (1 <? arr_length)%nat then p ++ js "or " ++ c else p ++ c
  | c :: ((next :: _) as rest') =>
      make_message arr_length
        (match next with
         | [] => p ++ c
         | _ => if (2 <? arr_length)%nat then p ++ c ++ js ", " else p ++ c ++ [32]
         end) rest'
  end.
Definition makeNewMessage (types : list jsstr) : jsstr := make_message (length types) (js "should be a") types.

(** A message may be a List too, which has an [indexOf] of its own. *)
Definition transform_NotOfType (err : jv) : js_error + jv :=
  let? message := get err (js "message") in
  match message with
  | JStr s =>
      match index_of seekStr s with
      | Some i =>
          let types := split_unit 44 (drop (i + length seekStr) s) in
          inr (im_set err (js "message") (JStr (take i s ++ makeNewMessage types)))
      | None => inr err
      end
  | IList l => if existsb (fun x => is_str x seekStr) l then inl (TypeError "split is not a function") else inr err
  | _ => inl (TypeError "indexOf is not a function")
  end.

Definition is_line_end (c : Z) : bool := (c =? 10) || (c =? 13) || (c =? 8232) || (c =? 8233).

(** [removeSubstring(str, "instance.")], a regular expression: "instance" and any one character
    but a line end. *)
Definition at_instance (s : jsstr) : bool :=
  bool_decide (take 8 s = js "instance") && match s !! 8%nat with Some c => negb (is_line_end c) | None => false end.
Fixpoint strip_instance (skip : nat) (s : jsstr) : jsstr :=
  match s with
  | [] => []
  | c :: s' =>
      match skip with
      | S n => strip_instance n s'
      | O => if at_instance s then strip_instance 8 s' else c :: strip_instance 0 s'
      end
  end.
Definition removeSubstring (s : jsstr) : jsstr := strip_instance 0 s.

Definition transform_StripInstance (err : jv) : js_error + jv :=
  let? message := get err (js "message") in
  match message with
  | JStr s => inr (im_set err (js "message") (JStr (removeSubstring s)))
  | _ => inl (TypeError "replace is not a function")
  end.

(** One transformer: when it throws its input is kept. *)
Definition run_transformer (f : jv -> js_error + jv) (errors : list jv) : list jv :=
  match traverse f errors with
  | inr errors' => base.filter (fun e => truthy e = true) errors'
  | inl _ => errors
  end.

(** The transformers, one after the other; ParameterOneOf returns its input. *)
Definition transformed (errors : list jv) : list jv :=
  base.filter (fun e => truthy e = true)
    (run_transformer transform_StripInstance (run_transformer inr (run_transformer transform_NotOfType errors))).

(** [transformErrors(errors, system)]; [jsSpec] is [system.specSelectors.specJson().toJS()], which is
    evaluated first and may throw. *)
Definition transformErrors (jsSpec : js_error + jv) (errors : list jv) : js_error + list jv :=
  let? _ := jsSpec in inr (transformed errors).

(** ** Sorting by line *)

(** [a < b] on numbers and what converts to one; other values compare with nothing. *)
Definition line_number (v : jv) : num :=
  match v with JNum x => x | JNull => Zero false | JBool b => if b then Fin 1 0 else Zero false | _ => NaN end.
Definition line_of (err : jv) : num := line_number (default JUndef (im_get err (js "line"))).

Fixpoint insert_by_line (e : jv) (l : list jv) : list jv :=
  match l with
  | [] => [e]
  | x :: l' => if num_lt (line_of x) (line_of e) then x :: insert_by_line e l' else e :: l
  end.

(** A stable sort. *)
Definition sort_by_line (l : list jv) : list jv := foldr insert_by_line [] l.

(** ** Actions and reducers *)

Inductive err_action :=
  | NEW_THROWN_ERR (payload : jv)
  | NEW_THROWN_ERR_BATCH (payload : jv)
  | NEW_SPEC_ERR (payload : jv)
  | NEW_SPEC_ERR_BATCH (payload : jv)
  | NEW_AUTH_ERR (payload : jv)
  | CLEAR (payload : jv)
  | CLEAR_BY (payload : option (jv -> js_error + bool)).   (* None: no function *)

(** The err state and the module's [DEFAULT_ERROR_STRUCTURE]. *)
Record err_store := { e_default : list (jsstr * jv); e_state : jv }.

Definition err_init : err_store := {| e_default := DEFAULT_ERROR_STRUCTURE; e_state := empty_map |}.

(** [errors || List()] *)
Definition errors_of (state : jv) : js_error + list jv :=
  let? v := get state (js "errors") in
  if truthy v then match v with IList l => inr l | _ => inl (TypeError "push is not a function") end else inr [].

(** The document as an error is added: [system.specSelectors.specJson().toJS()]. *)
Section Reducers.
Context (jsSpec : js_error + jv).

(** Both updates of "errors". *)
Definition add_errors (state : jv) (f : list jv -> list jv) : js_error + jv :=
  let? errors := errors_of state in
  let? errors := transformErrors jsSpec (f errors) in
  inr (im_set state (js "errors") (IList errors)).

(** [payload.map] of the batches, the shared object threaded through. *)
Fixpoint assign_batch (d : list (jsstr * jv)) (type : jsstr) (errs : list jv) : list (jsstr * jv) * list jv :=
  match errs with
  | [] => (d, [])
  | e :: errs' =>
      let d := assign_error d e type in
      let '(d', l) := assign_batch d type errs' in (d', fromJS (JObj d) :: l)
  end.

Definition reduce_batch (type : jsstr) (payload : jv) (s : err_store) : list (jsstr * jv) * (js_error + jv) :=
  match payload with
  | JArr errs =>
      let '(d, l) := assign_batch (e_default s) type errs in (d, add_errors (e_state s) (fun errors => errors ++ l))
  | _ => (e_default s, inl (TypeError "map is not a function"))
  end.

Definition reduce_NEW_SPEC_ERR (payload state : jv) : js_error + jv :=
  let? error := jset (fromJS payload) (js "type") (JStr (js "spec")) in
  add_errors state (fun errors => sort_by_line (errors ++ [error])).

Definition reduce_NEW_AUTH_ERR (payload state : jv) : js_error + jv :=
  let error := im_set (fromJS (JObj (foldl (fun acc p => set_prop (fst p) (snd p) acc) [] (own_enumerable payload))))
                 (js "type") (JStr (js "auth")) in
  add_errors state (fun errors => errors ++ [error]).

(** An error stays when no key of it has the value the filter asks for. *)
Definition clear_keeps (payload err : jv) : bool :=
  forallb (fun kv =>
    let filterValue := match payload with JObj ps => default JUndef (assoc (fst kv) ps) | _ => JUndef end in
    negb (truthy filterValue) || negb (strict_eq (snd kv) filterValue)) (entries_of err).

Definition reduce_CLEAR (payload state : jv) : js_error + jv :=
  if negb (truthy payload) then inr state
  else
    let? errors := get state (js "errors") in
    if negb (truthy errors) then inr state
    else match errors with
         | IList l => inr (im_set state (js "errors") (IList (base.filter (fun e => clear_keeps payload e = true) l)))
         | _ => inl (TypeError "filter is not a function")
         end.

Fixpoint filter_by (f : jv -> js_error + bool) (l : list jv) : js_error + list jv :=
  match l with
  | [] => inr []
  | x :: l' => let? b := f x in let? r := filter_by f l' in inr (if b then x :: r else r)
  end.

Definition reduce_CLEAR_BY (payload : option (jv -> js_error + bool)) (state : jv) : js_error + jv :=
  match payload with
  | None => inr state
  | Some f =>
      let? errors := get state (js "errors") in
      match errors with
      | IList l => let? l' := filter_by f l in inr (im_set state (js "errors") (IList l'))
      | _ => inl (TypeError "filter is not a function")
      end
  end.

Definition err_reducers (a : err_action) (s : err_store) : list (jsstr * jv) * (js_error + jv) :=
  match a with
  | NEW_THROWN_ERR payload =>
      let d := assign_error (e_default s) payload (js "thrown") in
      (d, add_errors (e_state s) (fun errors => errors ++ [fromJS (JObj d)]))
  | NEW_THROWN_ERR_BATCH payload => reduce_batch (js "thrown") payload s
  | NEW_SPEC_ERR payload => (e_default s, reduce_NEW_SPEC_ERR payload (e_state s))
  | NEW_SPEC_ERR_BATCH payload => reduce_batch (js "spec") payload s
  | NEW_AUTH_ERR payload => (e_default s, reduce_NEW_AUTH_ERR payload (e_state s))
  | CLEAR payload => (e_default s, reduce_CLEAR payload (e_state s))
  | CLEAR_BY payload => (e_default s, reduce_CLEAR_BY payload (e_state s))
  end.

(** One dispatch under the store, as in [makeReducer], from a state that is not undefined: the
    shared object keeps what a handler that throws has assigned. *)
Definition err_step (s : err_store) (a : err_action) : err_store :=
  let '(d, r) := err_reducers a s in
  {| e_default := d; e_state := match r with inl _ | inr JNull => e_state s | inr v => v end |}.
End Reducers.

Definition allErrors (state : jv) : js_error + jv := get_or state (js "errors") (IList []).

(** ** Every stored error is a Map with a type *)

Definition err_ok (e : jv) : Prop :=
  is_map e = true /\ exists t, im_get e (js "type") = Some (JStr t) /\ t ∈ [js "thrown"; js "spec"; js "auth"].

Definition errors_ok (state : jv) : Prop :=
  is_map state = true /\ forall v, im_get state (js "errors") = Some v -> exists l, v = IList l /\ Forall err_ok l.

Lemma err_ok_truthy e : err_ok e -> truthy e = true.
Proof. intros [He _]. by destruct e. Qed.

Lemma err_ok_message e m : err_ok e -> err_ok (im_set e (js "message") m).
Proof. intros [He (t & Ht & Hin)]. split; [by destruct e|]. exists t. by rewrite im_get_set_ne. Qed.

Lemma traverse_forall {A B} (P : A -> Prop) (Q : B -> Prop) (f : A -> js_error + B) l l' :
  (forall x y, P x -> f x = inr y -> Q y) -> Forall P l -> traverse f l = inr l' -> Forall Q l'.
Proof.
  intros Hf HF. revert l'. induction HF as [|x l Hx _ IH]; intros l' E; cbn [traverse] in E; [by injection E as <-|].
  destruct (f x) as [|y] eqn:Ey; [done|]. cbn [rbind] in E. destruct (traverse f l) as [|ys] eqn:Et; [done|].
  cbn [rbind] in E. injection E as <-. constructor; [by eapply Hf|]. by apply IH.
Qed.

Lemma run_transformer_ok f l : (forall x y, err_ok x -> f x = inr y -> err_ok y) -> Forall err_ok l ->
  Forall err_ok (run_transformer f l).
Proof.
  intros Hf HF. unfold run_transformer. destruct (traverse f l) as [|l'] eqn:E; [done|].
  apply list.Forall_forall. intros x [_ Hx]%list_elem_of_filter.
  pose proof (traverse_forall err_ok err_ok f l l' Hf HF E) as HF'. rewrite list.Forall_forall in HF'. by apply HF'.
Qed.

Lemma transform_NotOfType_ok x y : err_ok x -> transform_NotOfType x = inr y -> err_ok y.
Proof.
  intros Hx. unfold transform_NotOfType. destruct (get x (js "message")) as [|[]]; cbn [rbind]; try done.
  - destruct (index_of seekStr s); intros [= <-]; [by apply err_ok_message|done].
  - destruct (existsb _ l); [done|]. by intros [= <-].
Qed.

Lemma transform_StripInstance_ok x y : err_ok x -> transform_StripInstance x = inr y -> err_ok y.
Proof.
  intros Hx. unfold transform_StripInstance. destruct (get x (js "message")) as [|[]]; cbn [rbind]; try done.
  intros [= <-]. by apply err_ok_message.
Qed.

Lemma transformed_ok l : Forall err_ok l -> Forall err_ok (transformed l).
Proof.
  intros HF. unfold transformed. apply list.Forall_forall. intros x [_ Hx]%list_elem_of_filter. revert x Hx.
  apply list.Forall_forall. apply run_transformer_ok; [apply transform_StripInstance_ok|].
  apply run_transformer_ok; [by intros x y Hx [= <-]|]. by apply run_transformer_ok; [apply transform_NotOfType_ok|].
Qed.

Lemma sort_by_line_perm l : Permutation (sort_by_line l) l.
Proof.
  induction l as [|e l IH]; [done|]. cbn [sort_by_line foldr]. fold (sort_by_line l). rewrite <- IH at 2. clear IH.
  induction (sort_by_line l) as [|x l' IH]; [done|]. cbn [insert_by_line]. destruct (num_lt _ _); [|done].
  rewrite IH. apply Permutation_swap.
Qed.

Lemma errors_of_ok state l : errors_ok state -> errors_of state = inr l -> Forall err_ok l.
Proof.
  intros [Hs He]. unfold errors_of, get, is_immutable. rewrite Hs. cbn [orb rbind].
  destruct (im_get state (js "errors")) as [v|] eqn:E.
  - destruct (He v eq_refl) as (l' & -> & HF). cbn. by intros [= <-].
  - cbn. intros [= <-]. constructor.
Qed.

Lemma set_errors_ok state l : is_map state = true -> Forall err_ok l -> errors_ok (im_set state (js "errors") (IList l)).
Proof.
  intros Hs HF. split; [by destruct state|]. intros v. rewrite im_get_set_eq by done. intros [= <-]. by eexists.
Qed.

Lemma add_errors_ok jsSpec state f r : errors_ok state -> (forall l, Forall err_ok l -> Forall err_ok (f l)) ->
  add_errors jsSpec state f = inr r -> errors_ok r.
Proof.
  intros Hs Hf. unfold add_errors. destruct (errors_of state) as [|l] eqn:E; [done|]. cbn [rbind]. destruct jsSpec; [done|].
  intros [= <-]. apply set_errors_ok; [apply Hs|]. apply transformed_ok, Hf. by eapply errors_of_ok.
Qed.

Lemma assigned_ok d e type : type ∈ [js "thrown"; js "spec"; js "auth"] -> err_ok (fromJS (JObj (assign_error d e type))).
Proof.
  intros Ht. split; [done|]. exists type. split; [|done]. rewrite fromJS_get. unfold assign_error. by rewrite assoc_put_eq.
Qed.

Lemma assign_batch_ok type errs : type ∈ [js "thrown"; js "spec"; js "auth"] -> forall d,
  Forall err_ok (snd (assign_batch d type errs)).
Proof.
  intros Ht. induction errs as [|e errs IH]; intros d; [constructor|]. cbn [assign_batch].
  specialize (IH (assign_error d e type)). destruct (assign_batch _ _ _) as [d' l]. constructor; [by apply assigned_ok|done].
Qed.

Lemma filter_by_sub f l l' : filter_by f l = inr l' -> forall x, x ∈ l' -> x ∈ l.
Proof.
  revert l'. induction l as [|y l IH]; intros l' E x Hx; cbn [filter_by] in E.
  - injection E as <-. by apply not_elem_of_nil in Hx.
  - destruct (f y) as [|b]; [done|]. cbn [rbind] in E. destruct (filter_by f l) as [|r]; [done|]. cbn [rbind] in E.
    injection E as <-. destruct b.
    + apply elem_of_cons in Hx as [->|Hx]; [left|right; by eapply IH].
    + right. by eapply IH.
Qed.

(** [newSpecErr] of an array stores a List. *)
Definition array_spec_err (a : err_action) : bool :=
  match a with NEW_SPEC_ERR (JArr _ | IList _) => true | _ => false end.

Lemma spec_error_ok payload e : array_spec_err (NEW_SPEC_ERR payload) = false ->
  jset (fromJS payload) (js "type") (JStr (js "spec")) = inr e -> err_ok e.
Proof.
  intros Ha E. assert (Hm : is_map (fromJS payload) = true) by (by destruct payload).
  unfold jset, is_immutable in E. rewrite Hm in E. injection E as <-. split; [by destruct payload|].
  exists (js "spec"). rewrite im_get_set_eq by done. split; [done|]. right. left.
Qed.

Lemma reduce_batch_ok jsSpec type payload s d r : type ∈ [js "thrown"; js "spec"; js "auth"] -> errors_ok (e_state s) ->
  reduce_batch jsSpec type payload s = (d, inr r) -> errors_ok r.
Proof.
  intros Ht Hs. unfold reduce_batch. destruct payload; try done.
  pose proof (assign_batch_ok type l Ht (e_default s)) as HF. destruct (assign_batch _ _ _) as [d' l'].
  intros [= _ E]. eapply add_errors_ok; [done| |exact E]. intros l2 Hl2. by apply Forall_app.
Qed.

Lemma err_handler_ok jsSpec a s d r : array_spec_err a = false -> errors_ok (e_state s) ->
  err_reducers jsSpec a s = (d, inr r) -> errors_ok r.
Proof.
  intros Ha Hs. destruct a as [payload|payload|payload|payload|payload|payload|payload]; cbn [err_reducers]; intros E.
  - injection E as _ E. eapply add_errors_ok; [done| |exact E]. intros l Hl. apply Forall_app. split; [done|].
    constructor; [|constructor]. apply (assigned_ok _ _ (js "thrown")). left.
  - eapply reduce_batch_ok; [|done|exact E]. left.
  - injection E as _ E. unfold reduce_NEW_SPEC_ERR in E. destruct (jset _ _ _) as [|e] eqn:Ee; [done|]. cbn [rbind] in E.
    eapply add_errors_ok; [done| |exact E]. intros l Hl. rewrite sort_by_line_perm. apply Forall_app. split; [done|].
    constructor; [|constructor]. by eapply spec_error_ok.
  - eapply reduce_batch_ok; [|done|exact E]. right. left.
  - injection E as _ E. eapply add_errors_ok; [done| |exact E]. intros l Hl. apply Forall_app. split; [done|].
    constructor; [|constructor]. split; [done|]. exists (js "auth"). rewrite im_get_set_eq by done. split; [done|]. right. right. left.
  - injection E as _ E. unfold reduce_CLEAR in E. destruct (negb (truthy payload)); [by injection E as <-|].
    rewrite get_map in E by apply Hs. cbn [rbind] in E. destruct (negb (truthy _)); [by injection E as <-|].
    destruct (im_get (e_state s) (js "errors")) as [v|] eqn:Ev; [|done].
    destruct Hs as [Hm Hs]. destruct (Hs v Ev) as (l & -> & HF). injection E as <-.
    apply set_errors_ok; [done|]. apply list.Forall_forall. intros x [_ Hx]%list_elem_of_filter. rewrite list.Forall_forall in HF. by apply HF.
  - injection E as _ E. unfold reduce_CLEAR_BY in E. destruct payload as [f|]; [|by injection E as <-].
    rewrite get_map in E by apply Hs. cbn [rbind] in E.
    destruct (im_get (e_state s) (js "errors")) as [v|] eqn:Ev; [|done].
    destruct Hs as [Hm Hs]. destruct (Hs v Ev) as (l & -> & HF). cbn [default id] in E.
    destruct (filter_by f l) as [|l'] eqn:El; [done|]. cbn [rbind] in E. injection E as <-.
    apply set_errors_ok; [done|]. apply list.Forall_forall. intros x Hx. rewrite list.Forall_forall in HF.
    apply HF. by eapply filter_by_sub.
Qed.

Lemma err_step_ok jsSpec s a : array_spec_err a = false -> errors_ok (e_state s) -> errors_ok (e_state (err_step jsSpec s a)).
Proof.
  intros Ha Hs. unfold err_step. destruct (err_reducers jsSpec a s) as [d r] eqn:E. cbn [e_state].
  destruct r as [|r]; [done|]. pose proof (err_handler_ok jsSpec a s d r Ha Hs E) as Hr. by destruct r.
Qed.

(** C20: After any sequence of actions, whatever the document is when each is reduced ([jsSpec], which
    may throw) and those that throw included, "errors" is a List of Maps each with the type "thrown",
    "spec" or "auth", where no [newSpecErr] is given an array or a List. *)
Theorem stored_errors_typed (actions : list ((js_error + jv) * err_action)) s :
  errors_ok (e_state s) -> Forall (fun x => array_spec_err x.2 = false) actions ->
  errors_ok (e_state (foldl (fun s x => err_step x.1 s x.2) s actions)).
Proof.
  intros Hs HF. revert s Hs. induction HF as [|[jsSpec a] actions Ha _ IH]; intros s Hs; [done|]. cbn [foldl]. by apply IH, err_step_ok.
Qed.

Lemma stored_errors_typed_witness : errors_ok (e_state (foldl (fun s x => err_step x.1 s x.2) err_init
  [(inr (JObj []), NEW_THROWN_ERR (JStr (js "boom")));
   (inr (JObj []), NEW_SPEC_ERR (JObj [(js "line", JNum (Fin 3 0)); (js "message", JStr (js "bad"))]));
   (inl (TypeError "toJS is not a function"), NEW_AUTH_ERR JUndef); (inr (JObj []), CLEAR (JObj [(js "type", JStr (js "spec"))]));
   (inr (JObj []), CLEAR_BY (Some (fun _ => inl (TypeError "boom"))))])).
Proof. apply stored_errors_typed; [by split|]. repeat constructor. Defined.

(** Where the document is no Immutable collection, no error is added, but the shared object is
    changed all the same. *)
Example no_error_without_document payload s : err_step (inl (TypeError "toJS is not a function")) s (NEW_THROWN_ERR payload) =
  {| e_default := assign_error (e_default s) payload (js "thrown"); e_state := e_state s |}.
Proof. unfold err_step. cbn. unfold add_errors. by destruct (errors_of (e_state s)). Qed.

(** ** The shared object *)

(** What the transformers leave alone: every field but the message. *)
Definition same_fields (e e' : jv) : Prop := forall k, k <> js "message" -> im_get e' k = im_get e k.

#[export] Instance same_fields_preorder : PreOrder same_fields.
Proof. split; [by intros a k Hk|]. intros a b c Hab Hbc k Hk. by rewrite Hbc, Hab. Qed.

Lemma message_fields e m : is_map e = true -> same_fields e (im_set e (js "message") m).
Proof. intros He k Hk. by rewrite im_get_set_ne. Qed.

Lemma filter_errors l : Forall err_ok l -> base.filter (fun e => truthy e = true) l = l.
Proof. induction 1 as [|e l He _ IH]; [done|]. rewrite filter_cons_True by (by apply err_ok_truthy). by rewrite IH. Qed.

(** The transformers change messages only: they keep whatever setting the message keeps. *)
Section Transformed.
Context (S : jv -> jv -> Prop) `{!PreOrder S} (S_message : forall e m, is_map e = true -> S e (im_set e (js "message") m)).

Lemma transformer_keeps f l : Forall err_ok l ->
  (forall x y, err_ok x -> f x = inr y -> err_ok y /\ S x y) -> Forall2 S l (run_transformer f l).
Proof.
  intros HF Hf. unfold run_transformer. destruct (traverse f l) as [|l'] eqn:E; [done|].
  assert (H : Forall2 (fun x y => err_ok y /\ S x y) l l').
  { revert l' E. induction HF as [|x l Hx _ IH]; intros l' E; cbn [traverse] in E; [by injection E as <-; constructor|].
    destruct (f x) as [|y] eqn:Ey; [done|]. cbn [rbind] in E. destruct (traverse f l) as [|ys]; [done|]. cbn [rbind] in E.
    injection E as <-. constructor; [by apply Hf|]. by apply IH. }
  clear E. induction H as [|x y l l' [H1 H2] _ IH]; [constructor|]. rewrite filter_cons_True by (by apply err_ok_truthy).
  constructor; [done|]. apply IH. by inversion HF.
Qed.

Lemma NotOfType_keeps x y : err_ok x -> transform_NotOfType x = inr y -> err_ok y /\ S x y.
Proof.
  intros Hx E. split; [by eapply transform_NotOfType_ok|]. revert E. unfold transform_NotOfType.
  destruct (get x _) as [|[]]; cbn [rbind]; try done.
  - destruct (index_of _ _); intros [= <-]; [apply S_message, Hx|done].
  - destruct (existsb _ _); [done|]. by intros [= <-].
Qed.

Lemma StripInstance_keeps x y : err_ok x -> transform_StripInstance x = inr y -> err_ok y /\ S x y.
Proof.
  intros Hx E. split; [by eapply transform_StripInstance_ok|]. revert E. unfold transform_StripInstance.
  destruct (get x _) as [|[]]; cbn [rbind]; try done. intros [= <-]. apply S_message, Hx.
Qed.

Lemma transformed_keeps l : Forall err_ok l -> Forall2 S l (transformed l).
Proof.
  intros HF. unfold transformed. set (l1 := run_transformer transform_NotOfType l).
  assert (H1 : Forall err_ok l1) by (apply run_transformer_ok; [apply transform_NotOfType_ok|done]).
  set (l2 := run_transformer inr l1).
  assert (H2 : Forall err_ok l2) by (apply run_transformer_ok; [by intros x y Hx [= <-]|done]).
  set (l3 := run_transformer transform_StripInstance l2).
  assert (H3 : Forall err_ok l3) by (apply run_transformer_ok; [apply transform_StripInstance_ok|done]).
  replace (base.filter _ l3) with l3.
  2:{ by rewrite filter_errors. }
  transitivity l1; [apply transformer_keeps; [done|apply NotOfType_keeps]|].
  transitivity l2; [apply transformer_keeps; [done|by intros x y Hx [= <-]]|].
  apply transformer_keeps; [done|apply StripInstance_keeps].
Qed.
End Transformed.

Lemma transformed_fields l : Forall err_ok l -> Forall2 same_fields l (transformed l).
Proof. apply transformed_keeps; [apply _|apply message_fields]. Qed.

(** The error a thrown payload is stored as, and the object it leaves behind. *)
Lemma thrown_stored spec s payload : errors_ok (e_state s) ->
  let d := assign_error (e_default s) payload (js "thrown") in
  let s' := err_step (inr spec) s (NEW_THROWN_ERR payload) in
  e_default s' = d /\ exists l e, errors_of (e_state s') = inr (l ++ [e]) /\ same_fields (fromJS (JObj d)) e.
Proof.
  intros Hs. cbv zeta. unfold err_step. cbn [err_reducers]. set (d := assign_error _ _ _).
  destruct Hs as [Hm Hs]. destruct (errors_of (e_state s)) as [|l] eqn:El.
  { exfalso. revert El. unfold errors_of. rewrite get_map by done. cbn [rbind].
    destruct (im_get (e_state s) (js "errors")) as [v|] eqn:E; [|done]. by destruct (Hs v eq_refl) as (? & -> & _). }
  unfold add_errors. rewrite El. cbn [rbind e_default e_state transformErrors]. split; [done|].
  assert (HF : Forall err_ok (l ++ [fromJS (JObj d)])).
  { apply Forall_app. split; [by eapply errors_of_ok|]. constructor; [|constructor]. apply assigned_ok. left. }
  apply transformed_fields, Forall2_app_inv_l in HF as (k1 & k2 & _ & F2 & Et).
  inversion F2 as [|x e' l2 k3 Hx F3]; subst. inversion F3; subst. exists k1, e'. split; [|done].
  rewrite Et.
  replace (match im_set (e_state s) _ _ with JNull => e_state s | _ => im_set (e_state s) (js "errors") (IList (k1 ++ [e'])) end)
    with (im_set (e_state s) (js "errors") (IList (k1 ++ [e']))) by (by destruct (e_state s)).
  unfold errors_of. rewrite get_map by (by destruct (e_state s)). by rewrite im_get_set_eq.
Qed.

(** The own properties win over what the object had. *)
Lemma assoc_assign_error d ps type k : NoDup (fst <$> ps) -> k <> js "type" -> k <> js "__proto__" ->
  assoc k (assign_error d (JObj ps) type) = first_of (assoc k ps) (assoc k d).
Proof.
  intros Hnd H1 H2. unfold assign_error. rewrite assoc_put_ne by done. cbn [own_enumerable].
  rewrite <- (assoc_in_key_order k ps).
  assert (Hn : NoDup (fst <$> in_key_order ps)).
  { unfold in_key_order. rewrite <- list_fmap_compose. cbn. rewrite list_fmap_id. by rewrite obj_keys_permutation. }
  revert d Hn. induction (in_key_order ps) as [|[k' x] l IH]; intros d Hn; [done|]. rewrite fmap_cons in Hn.
  apply list.NoDup_cons in Hn as [Hni Hn]. cbn [foldl assoc fst snd]. rewrite IH by done. rewrite assoc_set_prop.
  destruct (decide (k = k')) as [<-|Hne].
  - rewrite !bool_decide_eq_true_2 by done. destruct (assoc k l) eqn:E; [|done]. destruct Hni. cbn [fst]. apply assoc_elem. by rewrite E.
  - rewrite !bool_decide_eq_false_2 by tauto. done.
Qed.

(** Errors share one object: a property an error brings (other than the message, which
    transformers rewrite) turns up in the next thrown error that does not have it itself. *)
Theorem error_property_leaks spec s ps1 ps2 k v : errors_ok (e_state s) ->
  NoDup (fst <$> ps1) -> NoDup (fst <$> ps2) -> assoc k ps1 = Some v -> assoc k ps2 = None ->
  k <> js "type" -> k <> js "message" -> k <> js "__proto__" ->
  exists l e, errors_of (e_state (err_step (inr spec) (err_step (inr spec) s (NEW_THROWN_ERR (JObj ps1))) (NEW_THROWN_ERR (JObj ps2)))) =
      inr (l ++ [e]) /\
    im_get e k = Some (fromJS v).
Proof.
  intros Hs Hn1 Hn2 E1 E2 K1 K2 K3.
  destruct (thrown_stored spec s (JObj ps1) Hs) as [D1 _].
  assert (Hs1 : errors_ok (e_state (err_step (inr spec) s (NEW_THROWN_ERR (JObj ps1))))) by (by apply err_step_ok).
  destruct (thrown_stored spec _ (JObj ps2) Hs1) as [_ (l & e & El & He)]. exists l, e. split; [done|].
  rewrite He by done. rewrite fromJS_get, assoc_assign_error, E2 by done. cbn [first_of].
  rewrite D1, assoc_assign_error, E1 by done. done.
Qed.

Lemma error_property_leaks_witness : exists l e,
  errors_of (e_state (err_step (inr (JObj [])) (err_step (inr (JObj [])) err_init
    (NEW_THROWN_ERR (JObj [(js "line", JNum (Fin 7 0))]))) (NEW_THROWN_ERR (JObj [])))) = inr (l ++ [e]) /\
  im_get e (js "line") = Some (fromJS (JNum (Fin 7 0))).
Proof.
  apply (error_property_leaks (JObj []) err_init [(js "line", JNum (Fin 7 0))] [] (js "line") (JNum (Fin 7 0))); try done.
  - by apply (bool_decide_unpack _); vm_compute.
  - constructor.
Defined.

(** A message leaks the same way, where "Unknown error" is meant to stand. *)
Example message_leaks :
  err_step (inr (JObj [])) (err_step (inr (JObj [])) err_init (NEW_THROWN_ERR (JObj [(js "message", JStr (js "boom"))]))) (NEW_THROWN_ERR (JObj [])) =
  let d := [(js "line", JNum (Zero false)); (js "level", JStr (js "error")); (js "message", JStr (js "boom"));
            (js "type", JStr (js "thrown"))] in
  {| e_default := d; e_state := IMap false [(js "errors", IList [IMap false d; IMap false d])] |}.
Proof. by vm_compute. Qed.

(** "instance." is a regular expression, so a word after "instance" loses its space. *)
Example instance_of_lost : removeSubstring (js "is not an instance of Pet, see instance.name") = js "is not an of Pet, see name".
Proof. by vm_compute. Qed.

Example not_of_type : transform_NotOfType (IMap false [(js "message", JStr (js "x is not of a type(s) string,number"))]) =
  inr (IMap false [(js "message", JStr (js "x should be a string or number"))]).
Proof. by vm_compute. Qed.
