(* ===== verification/SuiValidator.v ===== *)
(** Swagger UI: the validators of parameter values (core/utils.js). *)
From S2P Require Import Prelude JsString JsNumber JsRegex YamlValue SuiUrl SuiImm SuiSpec SuiErr.

(** ** Comparison *)

(** The exponent part of a literal, when it is the rest of the text. *)
Definition scan_exponent (s : jsstr) : option Z :=
  match s with
  | [] => Some 0
  | c :: s' =>
      if (c =? 101) || (c =? 69) then
        let '(sgn, r) := match s' with 45 :: r => (-1, r) | 43 :: r => (1, r) | r => (1, r) end in
        match span_digits r with
        | (d :: ds, []) => Some (sgn * digits_value 10 (d :: ds))
        | _ => None
        end
      else None
  end.

Definition radix_number (radix : Z) (s : jsstr) : num :=
  let ds := digit_run radix s in
  if bool_decide (length ds = length s) && negb (bool_decide (s = [])) then of_Z (digits_value radix ds) else NaN.

(** An unsigned decimal literal that is the whole text. *)
Definition decimal_number (sgn : bool) (s : jsstr) : num :=
  if bool_decide (s = js "Infinity") then Inf sgn
  else
    let '(ip, r) := span_digits s in
    let '(fp, r) := match r with 46 :: r' => span_digits r' | _ => ([], r) end in
    match ip ++ fp, scan_exponent r with
    | d :: ds, Some x => of_decimal sgn (digits_value 10 (d :: ds)) (x - Z.of_nat (length fp))
    | _, _ => NaN
    end.

(** [Number(s)] *)
Definition string_to_number (s : jsstr) : num :=
  match trim s with
  | [] => Zero false
  | 48 :: x :: r =>
      if (x =? 120) || (x =? 88) then radix_number 16 r
      else if (x =? 111) || (x =? 79) then radix_number 8 r
      else if (x =? 98) || (x =? 66) then radix_number 2 r
      else decimal_number false (48 :: x :: r)
  | 45 :: r => decimal_number true r
  | 43 :: r => decimal_number false r
  | t => decimal_number false t
  end.

Fixpoint str_lt (s t : jsstr) : bool :=
  match s, t with
  | _, [] => false
  | [], _ :: _ => true
  | a :: s', b :: t' => if a =? b then str_lt s' t' else a <? b
  end.

(** What the engine knows: which texts [Date.parse] and [JSON.parse] accept, and what a
    regular expression given as text matches. *)
Class Engine := {
  date_parses : jsstr -> bool;
  json_valid : jsstr -> bool;
  regexp_test : jsstr -> jsstr -> js_error + bool
}.

Section Validators.
Context `{Host} `{Engine}.

(** The value of an operand of [<]: text or a number. *)
Definition operand (v : jv) : num + jsstr :=
  match v with
  | JUndef => inl NaN
  | JNull => inl (Zero false)
  | JBool b => inl (if b then Fin 1 0 else Zero false)
  | JNum x => inl x
  | JStr s => inr s
  | _ => inr (object_text v)
  end.

(** [a < b] *)
Definition js_lt (a b : jv) : bool :=
  let number o := match o with inl x => x | inr s => string_to_number s end in
  match operand a, operand b with
  | inr s, inr t => str_lt s t
  | x, y => num_lt (number x) (number y)
  end.

(** ** Validators: a message, or none *)

Definition fails (b : bool) (msg : string) : option jsstr := if b then Some (js msg) else None.

Definition validateMaximum (val max : jv) : option jsstr := fails (js_lt max val) "Value must be less than Maximum".
Definition validateMinimum (val min : jv) : option jsstr := fails (js_lt val min) "Value must be greater than Minimum".

Definition digit_re : regex := rrange 48 57.
Definition number_re : regex := RSeq (ropt (rchar 45)) (RSeq (rplus digit_re) (ropt (RSeq (ropt (rchar 46)) (rplus digit_re)))).
Definition integer_re : regex := RSeq (ropt (rchar 45)) (rplus digit_re).

Definition validateNumber (val : jv) : option jsstr := fails (negb (full_match number_re (js_string val))) "Value must be a number".
Definition validateInteger (val : jv) : option jsstr := fails (negb (full_match integer_re (js_string val))) "Value must be an integer".

Definition is_File (v : jv) : bool := match v with JHost id => is_file id | _ => false end.
Definition validateFile (val : jv) : option jsstr := fails (truthy val && negb (is_File val)) "Value must be a file".

Definition validateBoolean (val : jv) : option jsstr :=
  fails (negb (is_str val (js "true") || is_str val (js "false") || match val with JBool _ => true | _ => false end))
    "Value must be a boolean".

Definition validateString (val : jv) : option jsstr :=
  fails (truthy val && match val with JStr _ => false | _ => true end) "Value must be a string".

Definition validateDateTime (val : jv) : option jsstr := fails (negb (date_parses (js_string val))) "Value must be a DateTime".

Fixpoint rtimes (n : nat) (r : regex) : regex := match n with O => REps | S n' => RSeq r (rtimes n' r) end.
Definition hex_re : regex := RAlt (rrange 48 57) (rrange 97 102).
Definition guid_re : regex :=
  rseqs [ropt (rany "{("); rtimes 8 hex_re; rchar 45; rtimes 4 hex_re; rchar 45; rtimes 4 hex_re; rchar 45;
         rtimes 4 hex_re; rchar 45; rtimes 12 hex_re; ropt (rany ")}")].

Definition validateGuid (val : jv) : js_error + option jsstr :=
  match val with
  | JUndef | JNull => inl (TypeError "Cannot read property 'toString' of undefined")
  | _ => inr (fails (negb (full_match guid_re (lower_unit <$> js_string val))) "Value must be a Guid")
  end.

(** [v.length] *)
Definition length_of (v : jv) : js_error + jv :=
  match v with
  | JUndef | JNull => inl (TypeError "Cannot read property 'length' of undefined")
  | JStr s => inr (JNum (of_Z (slen s)))
  | JArr l => inr (JNum (of_Z (Z.of_nat (length l))))
  | _ => inr JUndef
  end.

Definition validateMaxLength (val max : jv) : js_error + option jsstr :=
  let? n := length_of val in inr (fails (js_lt max n) "Value must be less than MaxLength").
Definition validateMinLength (val min : jv) : js_error + option jsstr :=
  let? n := length_of val in inr (fails (js_lt n min) "Value must be greater than MinLength").

Definition validatePattern (val rxPattern : jv) : js_error + option jsstr :=
  let? ok := regexp_test (js_string rxPattern) (js_string val) in
  inr (if ok then None else Some (js "Value must follow pattern " ++ js_string rxPattern)).

(** ** [validateParam] *)

Definition message (o : option jsstr) : list jv := match o with Some m => [JStr m] | None => [] end.

(** [if (cond) { err = v; if (err) errors.push(err) }] *)
Definition when (cond : bool) (v : js_error + option jsstr) : js_error + list jv :=
  if cond then let? o := v in inr (message o) else inr [].

Definition is_zero (v : jv) : bool := match v with JNum (Zero _) => true | _ => false end.

(** The check for objects of OpenAPI 3: whether it passed, or the text is no JSON. *)
Definition object_check (isOAS3 : bool) (type value : jv) : option bool :=
  if isOAS3 && is_str type (js "object") then
    match value with
    | JStr s => if json_valid s then Some true else None
    | JNull => Some true
    | _ => Some (is_object value)
    end
  else Some false.

Definition passed_any (type value : jv) (object_ok : bool) : bool :=
  (is_str type (js "string") && truthy value) ||
  (is_str type (js "array") && match value with JArr l => negb (bool_decide (l = [])) | _ => false end) ||
  (is_str type (js "array") && match value with IList l => negb (bool_decide (l = [])) | _ => false end) ||
  (is_str type (js "file") && is_File value) ||
  (is_str type (js "boolean") && (truthy value || match value with JBool _ => true | _ => false end)) ||
  (is_str type (js "number") && (truthy value || is_zero value)) ||
  (is_str type (js "integer") && (truthy value || is_zero value)) || object_ok.

(** The errors of the items of a List, with their index. *)
Definition item_error (itemType item : jv) : option jsstr :=
  if is_str itemType (js "number") then validateNumber item
  else if is_str itemType (js "integer") then validateInteger item
  else if is_str itemType (js "string") then validateString item
  else None.
Definition item_errors (itemType : jv) (items : list jv) : list jv :=
  List.concat (imap (fun index item =>
    match item_error itemType item with
    | Some err => [JObj [(js "index", JNum (of_Z (Z.of_nat index))); (js "error", JStr err)]]
    | None => []
    end) items).

(** The errors the type of the parameter finds. *)
Definition type_errors (type format value paramDetails : jv) : js_error + list jv :=
  if is_str type (js "string") then
    let? e := (if is_str format (js "date-time") then inr (validateDateTime value)
               else if is_str format (js "uuid") then validateGuid value
               else inr (validateString value)) in
    inr (message e)
  else if is_str type (js "boolean") then inr (message (validateBoolean value))
  else if is_str type (js "number") then inr (message (validateNumber value))
  else if is_str type (js "integer") then inr (message (validateInteger value))
  else if is_str type (js "array") then
    match value with
    | IList items => inr (item_errors (getIn_or paramDetails [js "items"; js "type"] JUndef) items)
    | _ => inr []
    end
  else if is_str type (js "file") then inr (message (validateFile value))
  else inr [].

Definition validateParam (param : jv) (isXml isOAS3 : bool) : js_error + list jv :=
  let? value := param_value isXml param in
  let? required := get param (js "required") in
  let? paramDetails := (if isOAS3 then get param (js "schema") else inr param) in
  if negb (truthy paramDetails) then inr []
  else
    let? maximum := get paramDetails (js "maximum") in
    let? minimum := get paramDetails (js "minimum") in
    let? type := get paramDetails (js "type") in
    let? format := get paramDetails (js "format") in
    let? maxLength := get paramDetails (js "maxLength") in
    let? minLength := get paramDetails (js "minLength") in
    let? pattern := get paramDetails (js "pattern") in
    if truthy type && (truthy required || truthy value) then
      match object_check isOAS3 type value with
      | None => inr [JStr (js "Parameter string value must be valid JSON")]
      | Some object_ok =>
          if truthy required && negb (passed_any type value object_ok)
          then inr [JStr (js "Required field is not provided")]
          else
            let? e1 := when (truthy pattern) (validatePattern value pattern) in
            let? e2 := when (truthy maxLength || is_zero maxLength) (validateMaxLength value maxLength) in
            let? e3 := when (truthy minLength) (validateMinLength value minLength) in
            let? e4 := when (truthy maximum || is_zero maximum) (inr (validateMaximum value maximum)) in
            let? e5 := when (truthy minimum || is_zero minimum) (inr (validateMinimum value minimum)) in
            let? e6 := type_errors type format value paramDetails in
            inr (e1 ++ e2 ++ e3 ++ e4 ++ e5 ++ e6)
      end
    else inr [].
End Validators.
