(* ===== verification/SuiBounds.v ===== *)
(** Swagger UI: the bounds of integer parameters are the mathematical ones, and missing
    required values are reported. *)
From S2P Require Import Prelude JsString JsNumber JsRegex YamlValue SuiUrl SuiImm SuiSpec SuiErr SuiValidator.

(** ** Doubles that are integers *)

(** [x] is the integer [z]; the significand may be scaled down. *)
Definition num_is (x : num) (z : Z) : Prop :=
  match x with
  | Zero _ => z = 0
  | Fin m e => m <> 0 /\ exists j, 0 <= j /\ 0 <= e + j /\ m * 2 ^ (e + j) = z * 2 ^ j
  | _ => False
  end.

Lemma scale m e z j k : 0 <= j -> 0 <= e + j -> m * 2 ^ (e + j) = z * 2 ^ j -> 0 <= k ->
  m * 2 ^ (e + (j + k)) = z * 2 ^ (j + k).
Proof.
  intros Hj He E Hk. replace (e + (j + k)) with ((e + j) + k) by lia.
  rewrite (Z.pow_add_r 2 (e + j) k), (Z.pow_add_r 2 j k), !Z.mul_assoc, E by lia. done.
Qed.

Lemma fin_sign m e z : m <> 0 -> (exists j, 0 <= j /\ 0 <= e + j /\ m * 2 ^ (e + j) = z * 2 ^ j) ->
  z <> 0 /\ (0 < m <-> 0 < z) /\ (m < 0 <-> z < 0).
Proof.
  intros Hm (j & Hj & He & E). assert (0 < 2 ^ (e + j)) by (apply Z.pow_pos_nonneg; lia).
  assert (0 < 2 ^ j) by (apply Z.pow_pos_nonneg; lia). nia.
Qed.

Lemma num_lt_int x y a b : num_is x a -> num_is y b -> num_lt x y = (a <? b).
Proof.
  destruct x as [| |s|m e], y as [| |s'|m' e']; cbn [num_is num_lt]; try done.
  - by intros -> ->.
  - intros -> [Hm Hx]. destruct (fin_sign _ _ _ Hm Hx) as (? & ? & ?). destr_cmp; lia.
  - intros [Hm Hx] ->. destruct (fin_sign _ _ _ Hm Hx) as (? & ? & ?). destr_cmp; lia.
  - intros [_ (j & Hj & He & E)] [_ (j' & Hj' & He' & E')].
    assert (F := scale m e a j j' Hj He E Hj'). assert (F' := scale m' e' b j' j Hj' He' E' Hj).
    rewrite (Z.add_comm j' j) in F'. set (J := j + j') in *. set (d := Z.min e e').
    replace (e + J) with ((e - d) + (d + J)) in F by lia. replace (e' + J) with ((e' - d) + (d + J)) in F' by lia.
    rewrite Z.pow_add_r in F, F' by lia.
    assert (0 < 2 ^ (d + J)) by (apply Z.pow_pos_nonneg; lia). assert (0 < 2 ^ J) by (apply Z.pow_pos_nonneg; lia).
    set (u := m * 2 ^ (e - d)). set (v := m' * 2 ^ (e' - d)).
    assert (E1 : u * 2 ^ (d + J) = a * 2 ^ J) by (subst u; lia). assert (E2 : v * 2 ^ (d + J) = b * 2 ^ J) by (subst v; lia).
    destruct (Z.ltb_spec u v), (Z.ltb_spec a b); try done; nia.
Qed.

Lemma of_Z_is z : safe_int z -> num_is (of_Z z) z.
Proof.
  intros Hz. destruct (of_Z_cases z Hz) as [[-> ->]|(Hne & m & e & -> & He & E)]; [done|]. cbn [num_is]. split.
  - intros ->. lia.
  - exists 0. rewrite Z.add_0_r, Z.pow_0_r, Z.mul_1_r. repeat split; lia.
Qed.

Lemma make_is s n j : 0 <= j -> 0 < n -> num_is (make s (n * 2 ^ j) (- j)) n /\ num_is (make s (- (n * 2 ^ j)) (- j)) (- n).
Proof.
  intros Hj Hn. assert (0 < n * 2 ^ j) by (apply Z.mul_pos_pos; [lia|apply Z.pow_pos_nonneg; lia]).
  destruct (n * 2 ^ j) as [|p|p] eqn:Ep; try lia. change (- Z.pos p) with (Z.neg p). cbn [make].
  pose proof (odd_part_spec p (- j)) as Ho. destruct (odd_part p (- j)) as [q e]. destruct Ho as [H1 H2].
  replace (e - - j) with (e + j) in H2 by lia. cbn [num_is]. split; (split; [done|]); exists j; repeat split; lia.
Qed.

(** A decimal literal without a point, below [2 ^ 53], is exact. *)
Lemma of_decimal_is s n : 0 <= n < 2 ^ 53 -> num_is (of_decimal s n 0) (if s then - n else n).
Proof.
  intros Hn. unfold of_decimal. cbn [Z.leb Z.compare]. change (10 ^ 0) with 1. rewrite Z.mul_1_r. unfold round_ratio.
  destruct (Z.eqb_spec n 0) as [->|Hne]; [by destruct s|]. set (sh := Z.max 0 (56 + Z.log2 1 - Z.log2 n)).
  assert (Hl : 0 <= Z.log2 n < 53) by (split; [apply Z.log2_nonneg|apply Z.log2_lt_pow2; lia]).
  assert (Hsh : sh = 56 - Z.log2 n) by (subst sh; change (Z.log2 1) with 0; lia). clearbody sh.
  rewrite Z.div_1_r, Z.mod_1_r. cbn [Z.eqb]. rewrite Z.add_0_r, Z.shiftl_mul_pow2 by lia.
  set (a := 2 * (n * 2 ^ sh)). assert (Ha : a = n * 2 ^ (sh + 1)) by (subst a; rewrite Z.pow_add_r by lia; lia).
  assert (Hp : 0 < 2 ^ sh) by (apply Z.pow_pos_nonneg; lia). assert (Ha0 : 0 < a) by (subst a; nia).
  assert (Hla : Z.log2 a = 57) by (rewrite Ha, Z.log2_mul_pow2 by lia; lia).
  assert (Hr : round_shift a 5 = n * 2 ^ (sh - 4)).
  { assert (Hd : a = n * 2 ^ (sh - 4) * 2 ^ 5).
    { rewrite Ha. replace (sh + 1) with ((sh - 4) + 5) by lia. rewrite Z.pow_add_r by lia. lia. }
    unfold round_shift. rewrite Hd, Z.div_mul, Z.mod_mul by done. done. }
  assert (Hlq : Z.log2 (n * 2 ^ (sh - 4)) = 52) by (rewrite Z.log2_mul_pow2 by lia; lia).
  unfold round. replace ((if s then -1 else 1) * a =? 0) with false by (destruct s; lia).
  replace (Z.abs ((if s then -1 else 1) * a)) with a by (destruct s; lia). rewrite Hla.
  replace (Z.max (57 + 1 - 53) (-1074 - (- sh - 1))) with 5 by lia. cbn [Z.leb Z.compare]. rewrite Hr, Hlq.
  destruct (Z.leb_spec 1024 (52 + (- sh - 1 + 5))); [lia|].
  replace (- sh - 1 + 5) with (- (sh - 4)) by lia.
  destruct (make_is ((if s then -1 else 1) * a <? 0) n (sh - 4)) as [M1 M2]; [lia|lia|].
  destruct s; [replace (-1 * a <? 0) with true in * by lia|replace (1 * a <? 0) with false in * by lia]; done.
Qed.

(** ** Decimal texts *)

Definition digit_text (ds : list Z) : jsstr := (fun d => 48 + d) <$> ds.
Definition decimal_text (s : bool) (ds : list Z) : jsstr := (if s then [45] else []) ++ digit_text ds.
Definition decimal_value (s : bool) (ds : list Z) : Z := (if s then -1 else 1) * digits_value 10 ds.
Definition digit (d : Z) : Prop := 0 <= d < 10.

Lemma span_digit_text ds : Forall digit ds -> span_digits (digit_text ds) = (ds, []).
Proof.
  induction 1 as [|d ds Hd _ IH]; [done|]. unfold digit in Hd. unfold digit_text in *. rewrite fmap_cons. cbn [span_digits].
  destruct (Z.leb_spec 48 (48 + d)); [|lia]. destruct (Z.leb_spec (48 + d) 57); [|lia]. cbn [andb]. rewrite IH.
  do 2 f_equal. lia.
Qed.

Lemma decimal_number_text s d ds : Forall digit (d :: ds) ->
  decimal_number s (digit_text (d :: ds)) = of_decimal s (digits_value 10 (d :: ds)) 0.
Proof.
  intros HF. unfold decimal_number. rewrite bool_decide_eq_false_2.
  - rewrite span_digit_text by done. cbn [app scan_exponent]. by rewrite app_nil_r.
  - intros E. unfold digit_text in E. rewrite fmap_cons in E. injection E as E _. apply list.Forall_cons in HF as [Hd _].
    unfold digit in Hd. lia.
Qed.

Lemma no_space c : 45 <= c <= 57 -> is_space c = false.
Proof.
  intros Hc. pose proof (forall_below_spec 58 (fun c => if 45 <=? c then negb (is_space c) else true) c ltac:(by vm_compute) ltac:(lia)) as E.
  cbn beta in E. destruct (Z.leb_spec 45 c); [|lia]. by apply negb_true_iff.
Qed.

Lemma decimal_text_trim s ds : Forall digit ds -> trim (decimal_text s ds) = decimal_text s ds.
Proof.
  intros HF. apply BufferText.trim_units. apply Forall_app. split.
  - destruct s; repeat constructor.
  - apply Forall_fmap. eapply list.Forall_impl; [exact HF|]. unfold digit, compose. intros d Hd. apply no_space. lia.
Qed.

Lemma string_to_number_text s d ds : Forall digit (d :: ds) ->
  string_to_number (decimal_text s (d :: ds)) = of_decimal s (digits_value 10 (d :: ds)) 0.
Proof.
  intros HF. rewrite <- (decimal_number_text s d ds) by done. unfold string_to_number. rewrite decimal_text_trim by done.
  destruct s; [done|]. cbn [decimal_text app]. unfold digit_text. rewrite fmap_cons. apply list.Forall_cons in HF as [Hd HF].
  unfold digit in Hd.
  assert (E : d = 0 \/ d = 1 \/ d = 2 \/ d = 3 \/ d = 4 \/ d = 5 \/ d = 6 \/ d = 7 \/ d = 8 \/ d = 9) by lia.
  destruct E as [->|E]; [|by destruct E as [->|[->|[->|[->|[->|[->|[->|[->| ->]]]]]]]]].
  destruct ds as [|d2 ds]; [done|]. rewrite fmap_cons. apply list.Forall_cons in HF as [Hd2 _]. unfold digit in Hd2.
  change (48 + 0) with 48. cbv iota beta.
  destruct (Z.eqb_spec (48 + d2) 120), (Z.eqb_spec (48 + d2) 88), (Z.eqb_spec (48 + d2) 111), (Z.eqb_spec (48 + d2) 79),
    (Z.eqb_spec (48 + d2) 98), (Z.eqb_spec (48 + d2) 66); try lia. done.
Qed.

Lemma digit_star ds : Forall digit ds -> full_match (RStar digit_re) (digit_text ds) = true.
Proof.
  induction 1 as [|d ds Hd _ IH]; [done|]. unfold digit_text in *. rewrite fmap_cons. cbn [full_match deriv digit_re rrange].
  unfold digit in Hd. destruct (Z.leb_spec 48 (48 + d)); [|lia]. destruct (Z.leb_spec (48 + d) 57); [|lia]. exact IH.
Qed.

Lemma integer_text s d ds : Forall digit (d :: ds) -> full_match integer_re (decimal_text s (d :: ds)) = true.
Proof.
  intros HF. assert (HF' := HF). apply list.Forall_cons in HF' as [Hd HF']. pose proof (digit_star ds HF') as Hs. unfold digit in Hd.
  assert (E : full_match (rplus digit_re) (digit_text (d :: ds)) = true).
  { unfold digit_text in *. rewrite fmap_cons. cbn [full_match deriv rplus digit_re rrange nullable].
    destruct (Z.leb_spec 48 (48 + d)); [|lia]. destruct (Z.leb_spec (48 + d) 57); [|lia]. exact Hs. }
  destruct s; [exact E|]. cbn [decimal_text app]. unfold digit_text in *. rewrite fmap_cons in E |- *.
  cbn [full_match] in E |- *. cbn [integer_re deriv ropt rchar nullable orb].
  destruct (Z.eqb_spec (48 + d) 45); [lia|]. exact E.
Qed.

(** ** The parameter *)

Section Bounds.
Context `{Host} `{Engine}.

(** A parameter of type integer with both bounds and nothing else to check. *)
Record bounded_integer (p : jv) (text : jsstr) (lo hi : Z) : Prop := {
  bi_map : is_map p = true;
  bi_type : im_get p (js "type") = Some (JStr (js "integer"));
  bi_value : im_get p (js "value") = Some (JStr text);
  bi_max : im_get p (js "maximum") = Some (JNum (of_Z hi));
  bi_min : im_get p (js "minimum") = Some (JNum (of_Z lo));
  bi_rest : forall k, k ∈ [js "pattern"; js "maxLength"; js "minLength"] -> im_get p k = None;
  bi_lo : safe_int lo;
  bi_hi : safe_int hi
}.

Lemma bound_given z : safe_int z -> truthy (JNum (of_Z z)) || is_zero (JNum (of_Z z)) = true.
Proof. intros Hz. by destruct (of_Z_cases z Hz) as [[_ ->]|(_ & m & e & -> & _)]. Qed.

Lemma get_field p k v : is_map p = true -> im_get p k = v -> get p k = inr (default JUndef v).
Proof. intros Hp <-. by apply get_map. Qed.

Lemma text_bounds s d ds b : Forall digit (d :: ds) -> digits_value 10 (d :: ds) < 2 ^ 53 -> safe_int b ->
  js_lt (JNum (of_Z b)) (JStr (decimal_text s (d :: ds))) = (b <? decimal_value s (d :: ds)) /\
  js_lt (JStr (decimal_text s (d :: ds))) (JNum (of_Z b)) = (decimal_value s (d :: ds) <? b).
Proof.
  intros HF Hv Hb. assert (0 <= digits_value 10 (d :: ds)).
  { clear Hv. unfold digits_value. assert (G : forall l acc, 0 <= acc -> Forall digit l -> 0 <= foldl (fun acc d => acc * 10 + d) acc l).
    { induction l as [|x l IH]; intros acc Ha Hl; [done|]. apply list.Forall_cons in Hl as [Hx Hl]. cbn [foldl]. apply IH; [|done].
      unfold digit in Hx. lia. }
    by apply G. }
  pose proof (of_decimal_is s (digits_value 10 (d :: ds)) ltac:(lia)) as Hd. pose proof (of_Z_is b Hb) as Hz.
  replace (if s then - digits_value 10 (d :: ds) else digits_value 10 (d :: ds)) with (decimal_value s (d :: ds)) in Hd
    by (unfold decimal_value; destruct s; lia).
  unfold js_lt. cbn [operand]. rewrite string_to_number_text by done. split; by apply num_lt_int.
Qed.

(** C30: For a number typed in decimal into an integer parameter with bounds, up to
    [2 ^ 53], validation reports the maximum exactly when the number is above it, the minimum
    exactly when it is below, and nothing else: no error means [lo <= z <= hi]. *)
Theorem integer_bounds_exact p s d ds lo hi : bounded_integer p (decimal_text s (d :: ds)) lo hi ->
  Forall digit (d :: ds) -> digits_value 10 (d :: ds) < 2 ^ 53 ->
  let z := decimal_value s (d :: ds) in
  validateParam p false false =
    inr ((if hi <? z then [JStr (js "Value must be less than Maximum")] else []) ++
         (if z <? lo then [JStr (js "Value must be greater than Minimum")] else [])).
Proof.
  intros [Hm Ht Hv Hx Hn Hr Hl Hh] HF Hz. cbv zeta. unfold validateParam, param_value.
  rewrite (get_map p (js "in")) by done. cbn [rbind andb].
  rewrite (get_field p (js "value") _ Hm Hv), (get_map p (js "required")) by done. cbn [rbind default id].
  replace (truthy p) with true by (by destruct p). cbn [negb].
  rewrite (get_field p _ _ Hm Hx), (get_field p _ _ Hm Hn), (get_field p _ _ Hm Ht), (get_map p (js "format")) by done.
  rewrite (get_field p (js "maxLength") None), (get_field p (js "minLength") None), (get_field p (js "pattern") None);
    [|done|apply Hr; left|done|apply Hr; right; right; left|done|apply Hr; right; left].
  cbn [rbind default id].
  assert (Hne : exists c t, decimal_text s (d :: ds) = c :: t) by (destruct s; by eexists _, _). destruct Hne as (c & t & Et).
  destruct (text_bounds s d ds hi HF Hz Hh) as [B1 _], (text_bounds s d ds lo HF Hz Hl) as [_ B2].
  pose proof (integer_text s d ds HF) as Hint. rewrite Et in *. change (truthy (JStr (c :: t))) with true. rewrite orb_true_r.
  change (is_str (JStr (js "integer")) (js "object")) with false.
  change (truthy (JStr (js "integer"))) with true. cbn [andb object_check].
  assert (Hp : passed_any (JStr (js "integer")) (JStr (c :: t)) false = true) by done. rewrite Hp. cbn [negb]. rewrite andb_false_r.
  rewrite !bound_given by done. cbn [when rbind].
  unfold validateMaximum, validateMinimum. rewrite B1, B2. unfold type_errors.
  change (is_str (JStr (js "integer")) (js "string")) with false. change (is_str (JStr (js "integer")) (js "boolean")) with false.
  change (is_str (JStr (js "integer")) (js "number")) with false. change (is_str (JStr (js "integer")) (js "integer")) with true.
  cbn [rbind]. unfold validateInteger. cbn [js_string]. rewrite Hint. cbn [negb fails message app]. rewrite app_nil_r.
  by destruct (hi <? _), (_ <? lo).
Qed.

(** A required parameter that has a type and was left empty gets exactly the error
    that it is missing; [false] and [0] are values. *)
Theorem required_missing p v t : is_map p = true -> im_get p (js "type") = Some (JStr t) -> t <> [] ->
  truthy (default JUndef (im_get p (js "required"))) = true ->
  default JUndef (im_get p (js "value")) = v -> truthy v = false -> is_zero v = false -> (forall b, v <> JBool b) ->
  validateParam p false false = inr [JStr (js "Required field is not provided")].
Proof.
  intros Hm Ht Hne Hr Hv Hf Hz Hb. unfold validateParam, param_value. rewrite !get_map by done. cbn [rbind andb].
  rewrite !get_map by done. rewrite Hv, Ht. cbn [rbind default id]. replace (truthy p) with true by (by destruct p). cbn [negb].
  replace (truthy (JStr t)) with true by (by destruct t). rewrite Hr. cbn [orb andb object_check].
  replace (passed_any (JStr t) v false) with false; [done|]. symmetry. unfold passed_any. rewrite Hf, Hz.
  destruct v; try done; cbn [orb andb is_File]; rewrite ?andb_false_r; try done. by destruct (Hb b).
Qed.
End Bounds.

(** An engine that knows nothing. *)
Definition no_engine : Engine :=
  {| date_parses := fun _ => false; json_valid := fun _ => false; regexp_test := fun _ _ => inr true |}.

Lemma integer_bounds_exact_witness :
  validateParam (H := plain_host) (H0 := no_engine)
    (IMap true [(js "type", JStr (js "integer")); (js "value", JStr (js "-12")); (js "minimum", JNum (of_Z (-5)));
                (js "maximum", JNum (of_Z 10))]) false false = inr [JStr (js "Value must be greater than Minimum")].
Proof.
  apply (integer_bounds_exact (H := plain_host) (H0 := no_engine) _ true 1 [2] (-5) 10).
  - split; try done. intros k [->|[->|[->|[]%not_elem_of_nil]%elem_of_cons]%elem_of_cons]%elem_of_cons; done.
  - repeat constructor; done.
  - done.
Defined.

Lemma required_missing_witness :
  validateParam (H := plain_host) (H0 := no_engine)
    (IMap true [(js "type", JStr (js "string")); (js "required", JBool true); (js "value", JStr [])]) false false =
  inr [JStr (js "Required field is not provided")].
Proof. by apply (required_missing (H := plain_host) (H0 := no_engine) _ (JStr []) (js "string")). Defined.
