(* ===== verification/SuiParams.v ===== *)
(** Swagger UI: what the reader types into the form of an operation is what
    [parameterValues] hands to the request. *)
From S2P Require Import Prelude JsString JsNumber YamlValue SuiUrl SuiImm SuiSpec.

(** ** Parameters *)

Definition text_of (o : option jv) : jsstr := match o with Some (JStr s) => s | _ => [] end.
Definition pname (p : jv) : jsstr := text_of (im_get p (js "name")).
Definition pin (p : jv) : jsstr := text_of (im_get p (js "in")).

(** A Map with a textual name and place. *)
Definition named (p : jv) : Prop :=
  map_ok p /\ im_get p (js "name") = Some (JStr (pname p)) /\ im_get p (js "in") = Some (JStr (pin p)).

(** The key under which the value of [p] is sent. *)
Definition valueKey (p : jv) : jsstr := pin p ++ 46 :: pname p.

(** What is stored beside a parameter: a Map that does not rename it. *)
Definition meta_entry_ok (x : jv) : Prop :=
  map_ok x /\ im_get x (js "name") = None /\ im_get x (js "in") = None.
Definition meta_ok (m : jv) : Prop := map_ok m /\ forall k x, im_get m k = Some x -> meta_entry_ok x.

Section Params.
Context `{Host} (hashCode : jv -> jsstr) (validateParam : jv -> bool -> bool -> js_error + list jv).
Abbreviation reducer := (spec_reducer hashCode validateParam).
Abbreviation hash_key p := (hashKey hashCode p (JStr (pname p)) (JStr (pin p))).
Abbreviation name_key p := (paramKey (JStr (pname p)) (JStr (pin p))).

(** The operation at [path], [method] has the parameters [ps] and the metadata [m]. *)
Record operation_at (state : jv) (path method : jsstr) (ps : list jv) (m : jv) : Prop := {
  op_state : is_map state = true;
  op_spec : exists spec, specJsonWithResolvedSubtrees state = inr spec /\
    getIn spec [js "paths"; path; method; js "parameters"] = Some (IList ps);
  op_named : Forall named ps;
  op_distinct : NoDup (valueKey <$> ps);
  op_maps : maps_along state (meta_path [path; method] ++ [js "parameters"]) = true;
  op_meta : default empty_map (getIn state (meta_path [path; method] ++ [js "parameters"])) = m;
  op_meta_ok : meta_ok m
}.

(** A field of a parameter: what was stored by identity, then what was stored by name,
    then the document. *)
Definition field (o : option jv) (k : jsstr) : option jv := match o with Some v => im_get v k | None => None end.
Definition stored (m p : jv) (k : jsstr) : option jv :=
  first_of (field (im_get m (hash_key p)) k) (first_of (field (im_get m (name_key p)) k) (im_get p k)).

(** [p] with the metadata of [q]. *)
Definition with_meta (m q c : jv) : jv :=
  let add := foldl (fun acc p => put (fst p) (snd p) acc) in
  IMap true (add (add (add [] (entries_of c)) (entries_of (default JUndef (im_get m (name_key q)))))
                 (entries_of (default JUndef (im_get m (hash_key q))))).

Lemma keyed_map v : is_map v = true -> keyed v = inr (entries_of v).
Proof. by destruct v. Qed.

Lemma keyed_meta m k : meta_ok m -> keyed (default JUndef (im_get m k)) = inr (entries_of (default JUndef (im_get m k))).
Proof.
  intros [_ Hm]. destruct (im_get m k) as [x|] eqn:E; [|done]. apply keyed_map, map_ok_is_map. by apply (Hm k).
Qed.

Lemma im_get_entries v k : map_ok v -> im_get v k = assoc k (entries_of v).
Proof. by destruct v. Qed.

Lemma entries_nodup v : map_ok v -> NoDup (fst <$> entries_of v).
Proof. by destruct v. Qed.

Lemma meta_entries m k k2 : meta_ok m ->
  NoDup (fst <$> entries_of (default JUndef (im_get m k))) /\
  assoc k2 (entries_of (default JUndef (im_get m k))) = field (im_get m k) k2.
Proof.
  intros [_ Hm]. destruct (im_get m k) as [x|] eqn:E.
  - cbn [default field]. destruct (Hm k x E) as [Hx _]. split; [by apply entries_nodup|]. by rewrite im_get_entries.
  - cbn. split; [constructor|done].
Qed.

Lemma with_meta_get m q c k : meta_ok m -> map_ok c ->
  im_get (with_meta m q c) k =
  first_of (field (im_get m (hash_key q)) k) (first_of (field (im_get m (name_key q)) k) (im_get c k)).
Proof.
  intros Hm Hc. cbn [with_meta im_get]. destruct (meta_entries m (hash_key q) k Hm) as [N1 A1].
  destruct (meta_entries m (name_key q) k Hm) as [N2 A2].
  rewrite assoc_put_all, A1 by done. rewrite assoc_put_all, A2 by done. rewrite assoc_put_all by (by apply entries_nodup).
  rewrite <- im_get_entries by done. by destruct (im_get c k).
Qed.

(** The metadata keep the name and the place. *)
Lemma with_meta_names m q c : meta_ok m -> named c ->
  im_get (with_meta m q c) (js "name") = Some (JStr (pname c)) /\ im_get (with_meta m q c) (js "in") = Some (JStr (pin c)).
Proof.
  intros Hm (Hc & Hn & Hi). rewrite !with_meta_get by done. rewrite Hn, Hi.
  assert (N : forall k, field (im_get m k) (js "name") = None /\ field (im_get m k) (js "in") = None).
  { intros k. destruct (im_get m k) as [x|] eqn:E; [|done]. by destruct Hm as [_ Hm], (Hm k x E) as (_ & ? & ?). }
  by rewrite !(proj1 (N _)), !(proj2 (N _)).
Qed.

Lemma named_get p : named p ->
  get p (js "name") = inr (JStr (pname p)) /\ get p (js "in") = inr (JStr (pin p)).
Proof. intros (Hp & Hn & Hi). rewrite !get_map by (by apply map_ok_is_map). by rewrite Hn, Hi. Qed.

(** ** [parameterWithMetaByIdentity] *)

Lemma find_image (pred : jv -> js_error + bool) (g : jv -> jv) (b : jv -> bool) (x : jv) l :
  Forall (fun c => pred (g c) = inr (b c) /\ (b c = true -> c = x)) l -> x ∈ l -> b x = true ->
  find pred (g <$> l) = inr (g x).
Proof.
  intros HF Hx Hb. induction HF as [|c l [Hc Hu] _ IH]; [by apply not_elem_of_nil in Hx|].
  rewrite fmap_cons. cbn [find]. rewrite Hc. cbn [rbind]. destruct (b c) eqn:E; [by rewrite Hu|].
  apply IH. apply elem_of_cons in Hx as [->|Hx]; [congruence|done].
Qed.

Lemma nodup_image_inj {A B} (f : A -> B) l x y : NoDup (f <$> l) -> x ∈ l -> y ∈ l -> f x = f y -> x = y.
Proof.
  induction l as [|z l IH]; intros Hnd Hx Hy E; [by apply not_elem_of_nil in Hx|]. rewrite fmap_cons in Hnd.
  apply list.NoDup_cons in Hnd as [Hz Hnd]. apply elem_of_cons in Hx as [->|Hx]; apply elem_of_cons in Hy as [->|Hy]; try done.
  - destruct Hz. rewrite E. by apply list_elem_of_fmap_2.
  - destruct Hz. rewrite <- E. by apply list_elem_of_fmap_2.
  - by apply IH.
Qed.

Lemma merge_param_with_meta m q c : meta_ok m -> named c ->
  merge_param c (default JUndef (im_get m (name_key q))) (default JUndef (im_get m (hash_key q))) = inr (with_meta m q c).
Proof.
  intros Hm (Hc & _). unfold merge_param. rewrite keyed_map by (by apply map_ok_is_map). cbn [rbind].
  rewrite keyed_meta by done. cbn [rbind]. by rewrite keyed_meta.
Qed.

Context (state : jv) (path method : jsstr) (ps : list jv) (m : jv) (HO : operation_at state path method ps m).

Lemma meta_params_or d : is_map d = true -> (forall k, im_get d k = None) ->
  let M := getIn_or state (meta_path [path; method] ++ [js "parameters"]) d in
  is_map M = true /\ forall k, im_get M k = im_get m k.
Proof.
  intros Hd Hn. destruct HO as [_ _ _ _ _ Hm [Hm2%map_ok_is_map _]]. unfold getIn_or.
  destruct (getIn state _) as [M|]; cbn [default] in *; subst m; [done|]. split; [done|]. intros k. by rewrite Hn.
Qed.

Lemma by_identity p : p ∈ ps -> parameterWithMetaByIdentity hashCode state [path; method] p = inr (with_meta m p p).
Proof.
  intros Hp. destruct HO as [_ (spec & Es & Eo) Hnamed Hnd _ _ Hok].
  assert (HP : named p) by (by eapply list.Forall_forall in Hnamed). destruct (named_get p HP) as [Gn Gi].
  unfold parameterWithMetaByIdentity. rewrite Es. cbn [rbind].
  replace (getIn_or spec _ _) with (IList ps) by (unfold getIn_or; cbn [app]; by rewrite Eo).
  destruct (meta_params_or (IMap true []) eq_refl (fun _ => eq_refl)) as [HM HG]. cbn [map_values].
  erewrite (traverse_all _ (with_meta m p)).
  2:{ eapply list.Forall_impl; [exact Hnamed|]. intros c Hc. rewrite Gn, Gi. cbn [rbind].
      rewrite !get_map by done. cbn [rbind]. rewrite !HG. by apply merge_param_with_meta. }
  cbn [rbind values_of].
  apply (find_image _ _ (fun c => bool_decide (pin c = pin p) && bool_decide (pname c = pname p))).
  - apply list.Forall_forall. intros c Hc. assert (HC : named c) by (by eapply list.Forall_forall in Hnamed).
    rewrite Gn, Gi. cbn [rbind]. unfold param_is. destruct (with_meta_names m p c Hok HC) as [E1 E2].
    rewrite !get_map by done. rewrite E1, E2. split; [done|]. intros E. apply andb_true_iff in E as [E3 E4].
    apply bool_decide_eq_true in E3, E4. apply (nodup_image_inj valueKey ps); try done. unfold valueKey. congruence.
  - done.
  - by rewrite !bool_decide_eq_true_2.
Qed.

(** ** [operationWithMeta] *)

Lemma operation_of spec : getIn spec [js "paths"; path; method; js "parameters"] = Some (IList ps) ->
  exists o ops, getIn spec [js "paths"; path; method] = Some (IMap o ops) /\ assoc (js "parameters") ops = Some (IList ps).
Proof.
  intros E. change [js "paths"; path; method; js "parameters"] with ([js "paths"; path; method] ++ [js "parameters"]) in E.
  rewrite getIn_app in E. destruct (getIn spec [js "paths"; path; method]) as [v|]; [|done]. cbn [getIn] in E.
  destruct (im_get v (js "parameters")) eqn:E2; [|done]. injection E as ->.
  destruct v; try done. by eexists _, _.
Qed.

Lemma meta_is_map : is_map (getIn_or state (meta_path [path; method]) (IMap true [])) = true.
Proof.
  destruct HO as [_ _ _ _ Hm _ _]. rewrite maps_along_app in Hm. apply andb_true_iff in Hm as [_ Hm].
  unfold getIn_or. destruct (getIn state _) as [v|]; [|done]. cbn [maps_along default] in *. by apply andb_true_iff in Hm as [? _].
Qed.

Lemma operation_params : exists op, operationWithMeta hashCode state path method = inr op /\ is_map op = true /\
  im_get op (js "parameters") = Some (IList ((fun p => with_meta m p p) <$> ps)).
Proof.
  destruct HO as [_ (spec & Es & Eo) _ _ _ _ _]. destruct (operation_of spec Eo) as (o & ops & E1 & E2).
  unfold operationWithMeta. rewrite Es. cbn [rbind].
  replace (getIn_or spec _ _) with (IMap o ops) by (unfold getIn_or; by rewrite E1).
  rewrite get_or_map by done. change (im_get (IMap o ops) (js "parameters")) with (assoc (js "parameters") ops). rewrite E2. cbn [default id rbind map_values].
  erewrite (traverse_all _ (fun p => with_meta m p p)) by (apply list.Forall_forall; intros p Hp; by apply by_identity).
  cbn [rbind keyed entries_of]. rewrite keyed_map by apply meta_is_map. cbn [rbind]. eexists. split; [done|]. split; [done|].
  cbn [im_get]. apply assoc_put_eq.
Qed.

(** ** [parameterValues] *)

Definition value_field (isXml : bool) (p : jv) : jsstr :=
  if isXml && bool_decide (pin p = js "body") then js "value_xml" else js "value".

Lemma collect_values_spec isXml l : Forall named l -> meta_ok m -> NoDup (valueKey <$> l) -> forall hash,
  exists h, collect_values isXml ((fun p => with_meta m p p) <$> l) hash = inr h /\
    (forall p, p ∈ l -> assoc (valueKey p) h = Some (default JUndef (stored m p (value_field isXml p)))) /\
    (forall k, k ∉ (valueKey <$> l) -> assoc k h = assoc k hash).
Proof.
  intros HF Hm. induction HF as [|p l Hp _ IH]; intros Hnd hash.
  - exists hash. split; [done|]. split; [|done]. intros p Hp. by apply not_elem_of_nil in Hp.
  - rewrite fmap_cons in Hnd. rewrite !fmap_cons. apply list.NoDup_cons in Hnd as [Hni Hnd]. cbn [collect_values].
    destruct (with_meta_names m p p Hm Hp) as [En Ei]. unfold param_value. rewrite !get_map by done. rewrite En, Ei.
    cbn [rbind default is_str js_string]. rewrite get_map by done. cbn [rbind].
    edestruct IH as (h & Eh & H1 & H2); [done|]. rewrite Eh. exists h. split; [done|]. split.
    + intros q Hq. apply elem_of_cons in Hq as [->|Hq]; [|by apply H1].
      rewrite H2 by done. unfold valueKey at 1. rewrite assoc_put_eq. f_equal. fold (value_field isXml p).
      rewrite with_meta_get by (done || apply Hp). done.
    + intros k Hk. apply not_elem_of_cons in Hk as [Hk1 Hk2]. rewrite H2 by done. by apply assoc_put_ne.
Qed.

Lemma parameterValues_spec isXml : exists h, parameterValues hashCode state [path; method] isXml = inr (IMap false h) /\
  forall p, p ∈ ps -> assoc (valueKey p) h = Some (default JUndef (stored m p (value_field isXml p))).
Proof.
  destruct operation_params as (op & E1 & E2 & E3). unfold parameterValues, apply2. cbn [lookup list_lookup or_undefined default].
  replace (operationWithMeta hashCode state _ _) with (operationWithMeta hashCode state path method) by done. rewrite E1. cbn [rbind].
  rewrite get_or_map by done. rewrite E3. cbn [default id rbind values_of]. destruct HO as [_ _ Hn Hd _ _ Hok].
  destruct (collect_values_spec isXml ps Hn Hok Hd []) as (h & -> & Hh & _). by exists h.
Qed.
End Params.

Section Change.
Context `{Host} (hashCode : jv -> jsstr) (validateParam : jv -> bool -> bool -> js_error + list jv).
Abbreviation reducer := (spec_reducer hashCode validateParam).
Abbreviation hash_key p := (hashKey hashCode p (JStr (pname p)) (JStr (pin p))).
Abbreviation name_key p := (paramKey (JStr (pname p)) (JStr (pin p))).

(** The document selectors read two entries of the state. *)
Lemma subtrees_frame s s' : is_map s = true -> is_map s' = true ->
  (forall k, k = js "json" \/ k = js "resolvedSubtrees" -> im_get s' k = im_get s k) ->
  specJsonWithResolvedSubtrees s' = specJsonWithResolvedSubtrees s.
Proof.
  intros Hs Hs' Hf. unfold specJsonWithResolvedSubtrees.
  replace (self s) with s by (by destruct s). replace (self s') with s' by (by destruct s').
  rewrite !get_map by done. rewrite !Hf; auto.
Qed.

(** An update below the metadata of an operation changes only these. *)
Lemma meta_update state path method ps m f m' : operation_at state path method ps m ->
  f (getIn state (meta_path [path; method] ++ [js "parameters"])) = inr (NewValue m') -> meta_ok m' ->
  exists state', updateIn state (meta_path [path; method] ++ [js "parameters"]) None f = inr state' /\
    operation_at state' path method ps m' /\
    forall q, diverges (meta_path [path; method] ++ [js "parameters"]) q -> getIn state' q = getIn state q.
Proof.
  intros [Hs (spec & Es & Eo) Hn Hd Hm Em Hok] Hf Hok'. set (P := meta_path [path; method] ++ [js "parameters"]) in *.
  destruct (updateIn_spec state P None f (NewValue m')) as (s' & E1 & E2 & E3 & E4 & E5); [done|done| |].
  { by destruct (getIn state P). }
  exists s'. split; [done|]. split; [|done]. cbn [updated_value] in E3. split; try done.
  - exists spec. split; [|done]. rewrite <- Es. apply subtrees_frame; try done. intros k Hk. rewrite <- !getIn_single.
    apply E4. left. by destruct Hk as [->| ->].
  - fold P. by rewrite E3.
Qed.

(** [changeParamByIdentity(path, param, value, isXml)] *)
Definition change_by_identity (path method : jsstr) (p v : jv) (isXml : bool) : spec_action :=
  UPDATE_PARAM [path; method] None None p v isXml.

Definition with_value (m p v : jv) (isXml : bool) : jv :=
  im_set m (hash_key p) (im_set (default empty_map (im_get m (hash_key p))) (js (if isXml then "value_xml" else "value")) v).

Lemma with_value_ok m p v isXml : meta_ok m -> meta_ok (with_value m p v isXml).
Proof.
  intros [Hmo Hx]. pose proof (map_ok_is_map m Hmo) as Hm. split; [by apply im_set_ok|]. intros k x Hk. unfold with_value in Hk.
  destruct (decide (k = hash_key p)) as [->|Hne].
  - rewrite im_get_set_eq in Hk by done. injection Hk as <-.
    assert (He : meta_entry_ok (default empty_map (im_get m (hash_key p)))).
    { destruct (im_get m (hash_key p)) eqn:E; [by eapply Hx|]. split; [constructor|done]. }
    destruct He as (H1 & H2 & H3). pose proof (map_ok_is_map _ H1).
    split; [by apply im_set_ok|]. by destruct isXml; rewrite !im_get_set_ne by done.
  - rewrite im_get_set_ne in Hk by done. by eapply Hx.
Qed.

Lemma put_value m p v (isXml : bool) o : meta_ok m -> default empty_map o = m ->
  (let? r := update_deep o [hash_key p; js (if isXml then "value_xml" else "value")] None (fun _ => inr (NewValue v)) in
   inr (as_updated r)) = inr (NewValue (with_value m p v isXml)).
Proof.
  intros [Hm%map_ok_is_map Hx] Em. set (k := hash_key p) in *. cbn [update_deep].
  replace (match o with Some v => is_immutable v | None => true end) with true.
  2:{ destruct o as [x|]; [|done]. cbn in Em. subst x. unfold is_immutable. by rewrite Hm. }
  replace (match o with Some v => im_get v k | None => None end) with (im_get m k) by (by destruct o; subst m).
  replace (match im_get m k with Some v => is_immutable v | None => true end) with true.
  2:{ destruct (im_get m k) eqn:E; [|done]. unfold is_immutable. by rewrite (map_ok_is_map _ (proj1 (Hx k _ E))). }
  cbn [rbind]. unfold with_value. fold k. rewrite Em. by destruct (im_get m k) as [y|]; [destruct (im_get y _)|].
Qed.

Lemma change_state state path method ps m p v isXml : operation_at state path method ps m -> p ∈ ps ->
  let state' := reducer state (change_by_identity path method p v isXml) in
  operation_at state' path method ps (with_value m p v isXml) /\
  forall q, diverges (meta_path [path; method] ++ [js "parameters"]) q -> getIn state' q = getIn state q.
Proof.
  cbv zeta.
  intros HO Hp. assert (HP : named p) by (by eapply list.Forall_forall; [apply HO|]).
  destruct (named_get p HP) as [Gn Gi]. pose proof (map_ok_is_map p (proj1 HP)) as Hmp.
  unfold spec_reducer. rewrite makeReducer_map by apply HO. cbn [spec_reducers change_by_identity].
  unfold reduce_UPDATE_PARAM, update_param_key. unfold is_immutable. rewrite Hmp. cbn [orb andb missing].
  rewrite Gn, Gi. cbn [rbind]. unfold setIn.
  change (meta_path [path; method] ++ [js "parameters"; hash_key p; js (if isXml then "value_xml" else "value")])
    with (meta_path [path; method] ++ [js "parameters"] ++ [hash_key p; js (if isXml then "value_xml" else "value")]).
  rewrite app_assoc, updateIn_app.
  edestruct (meta_update state path method ps m) as (s' & -> & Hs' & Hf); [exact HO| |by eapply with_value_ok, HO|].
  - apply put_value; [apply HO|]. apply (op_meta _ _ _ _ _ HO).
  - by destruct s'; destruct Hs'.
Qed.

Lemma stored_change m p q v isXml k : meta_ok m -> hash_key q <> hash_key p -> name_key q <> hash_key p ->
  stored hashCode (with_value m p v isXml) q k = stored hashCode m q k.
Proof. intros [Hm%map_ok_is_map _] H1 H2. unfold stored, with_value. by rewrite !im_get_set_ne. Qed.

Lemma stored_changed m p v (isXml : bool) : meta_ok m ->
  stored hashCode (with_value m p v isXml) p (js (if isXml then "value_xml" else "value")) = Some v.
Proof.
  intros [Hm%map_ok_is_map Hx]. unfold stored, with_value. rewrite im_get_set_eq by done. cbn [field].
  rewrite im_get_set_eq; [done|]. destruct (im_get m (hash_key p)) eqn:E; [|done]. eapply map_ok_is_map, Hx, E.
Qed.

(** A value typed for a parameter ([changeParamByIdentity]) is the value
    [parameterValues] then hands to the request, under "in.name"; the values of the other
    parameters of the operation stay as they were.  The parameters differ in name or place, and the
    keys their values are stored under do not collide. *)
Theorem typed_value_is_sent state path method ps m p v isXml :
  operation_at state path method ps m -> p ∈ ps ->
  (isXml = true -> pin p = js "body") ->
  (forall q, q ∈ ps -> q <> p -> hash_key q <> hash_key p) ->
  (forall q, q ∈ ps -> name_key q <> hash_key p) ->
  exists before after,
    parameterValues hashCode state [path; method] isXml = inr (IMap false before) /\
    parameterValues hashCode (reducer state (change_by_identity path method p v isXml)) [path; method] isXml =
      inr (IMap false after) /\
    assoc (valueKey p) after = Some v /\
    forall q, q ∈ ps -> q <> p -> assoc (valueKey q) after = assoc (valueKey q) before.
Proof.
  intros HO Hp Hx Hh Hk. pose proof (op_meta_ok _ _ _ _ _ HO) as Hok.
  destruct (parameterValues_spec hashCode state path method ps m HO isXml) as (b & Eb & Hb).
  destruct (parameterValues_spec hashCode _ path method ps _
    (proj1 (change_state state path method ps m p v isXml HO Hp)) isXml) as (a & Ea & Ha).
  exists b, a. split; [done|]. split; [done|]. split.
  - rewrite Ha by done. pose proof (stored_changed m p v isXml Hok) as Es. unfold value_field. destruct isXml.
    + rewrite Hx by done. rewrite bool_decide_eq_true_2 by done. cbn [andb]. by rewrite Es.
    + cbn [andb]. by rewrite Es.
  - intros q Hq Hne. rewrite Ha, Hb by done. rewrite stored_change; auto.
Qed.
End Change.

(** ** A document with one operation *)

Module Demo.
#[export] Existing Instance plain_host.

Definition hashCode (_ : jv) : jsstr := js "7".
Definition id_param : jv := IMap true [(js "name", JStr (js "id")); (js "in", JStr (js "path"))].
Definition limit_param : jv :=
  IMap true [(js "name", JStr (js "limit")); (js "in", JStr (js "query")); (js "type", JStr (js "integer"));
             (js "required", JBool true)].
Definition params : list jv := [id_param; limit_param].
Definition state : jv :=
  IMap false [(js "json", IMap true [(js "paths", IMap true [(js "/pets", IMap true [(js "get",
    IMap true [(js "parameters", IList params)])])])])].

Lemma params_cases p : p ∈ params -> p = id_param \/ p = limit_param.
Proof. intros [->|[->|[]%not_elem_of_nil]%elem_of_cons]%elem_of_cons; auto. Qed.

Lemma operation : operation_at state (js "/pets") (js "get") params empty_map.
Proof.
  split; try done.
  - eexists. split; [vm_compute; reflexivity|]. by vm_compute.
  - repeat constructor; by apply (bool_decide_unpack _); vm_compute.
  - by apply (bool_decide_unpack _); vm_compute.
  - split; [constructor|]. intros k x Hk. done.
Defined.
End Demo.

Import Demo.

Lemma typed_value_is_sent_witness : exists before after,
    parameterValues Demo.hashCode Demo.state [js "/pets"; js "get"] false = inr (IMap false before) /\
    parameterValues Demo.hashCode (spec_reducer Demo.hashCode (fun _ _ _ => inr [])
        Demo.state (change_by_identity (js "/pets") (js "get") Demo.limit_param (JStr (js "5")) false))
      [js "/pets"; js "get"] false = inr (IMap false after) /\
    assoc (valueKey Demo.limit_param) after = Some (JStr (js "5")) /\
    forall q, q ∈ Demo.params -> q <> Demo.limit_param -> assoc (valueKey q) after = assoc (valueKey q) before.
Proof.
  apply (typed_value_is_sent Demo.hashCode (fun _ _ _ => inr []) Demo.state (js "/pets") (js "get") Demo.params empty_map
    Demo.limit_param (JStr (js "5")) false).
  - exact Demo.operation.
  - right. left.
  - discriminate.
  - intros q [->| ->]%Demo.params_cases Hne; [|by destruct Hne]. vm_compute. discriminate.
  - intros q [->| ->]%Demo.params_cases; vm_compute; discriminate.
Defined.
