(* ===== verification/SuiValidation.v ===== *)
(** Swagger UI: the validation of parameters before a request is sent. *)
From S2P Require Import Prelude JsString JsNumber YamlValue SuiUrl SuiImm SuiSpec SuiParams SuiErr SuiValidator SuiBounds.

Section Validation.
Context `{Host} (hashCode : jv -> jsstr) (validateParam : jv -> bool -> bool -> js_error + list jv).
Abbreviation reducer := (spec_reducer hashCode validateParam).
Abbreviation name_key p := (paramKey (JStr (pname p)) (JStr (pin p))).
Abbreviation meta_params path method := (meta_path [path; method] ++ [js "parameters"]).

(** The body type in use is an XML one. *)
Definition xml_body (state : jv) (path method : jsstr) : bool :=
  contains_xml (js_string (default JUndef (im_get (getIn_or state (meta_path [path; method]) empty_map) (js "consumes_value")))).

(** What is stored beside the parameters has lists of errors only. *)
Definition errors_known (m : jv) : Prop := forall k x, im_get m k = Some x -> exists b, has_errors x = inr b.

(** ** Storing errors *)

Definition with_errors (m p : jv) (errors : list jv) : jv :=
  im_set m (name_key p) (im_set (default empty_map (im_get m (name_key p))) (js "errors") (IList (map fromJS errors))).

Lemma entry_or_empty m k : meta_ok m -> meta_entry_ok (default empty_map (im_get m k)).
Proof. intros [_ Hm]. destruct (im_get m k) eqn:E; [by eapply Hm|]. split; [constructor|done]. Qed.

Lemma with_errors_ok m p errors : meta_ok m -> meta_ok (with_errors m p errors).
Proof.
  intros Hok. destruct (entry_or_empty m (name_key p) Hok) as (H1 & H2 & H3). destruct Hok as [Hm Hx].
  pose proof (map_ok_is_map _ Hm). pose proof (map_ok_is_map _ H1). split; [by apply im_set_ok|].
  intros k x Hk. unfold with_errors in Hk. destruct (decide (k = name_key p)) as [->|Hne].
  - rewrite im_get_set_eq in Hk by done. injection Hk as <-. split; [by apply im_set_ok|]. by rewrite !im_get_set_ne.
  - rewrite im_get_set_ne in Hk by done. by eapply Hx.
Qed.

Lemma set_errors m p errors : meta_ok m ->
  setIn m [name_key p; js "errors"] (fromJS (JArr errors)) = inr (with_errors m p errors).
Proof.
  intros Hok. destruct (entry_or_empty m (name_key p) Hok) as (H1 & _). destruct Hok as [Hm%map_ok_is_map Hx].
  unfold setIn, updateIn. cbn [update_deep]. unfold is_immutable at 1. rewrite Hm. cbn [orb].
  replace (match im_get m (name_key p) with Some v => is_immutable v | None => true end) with true.
  2:{ destruct (im_get m (name_key p)) eqn:E; [|done]. cbn [default id] in H1. unfold is_immutable. by rewrite (map_ok_is_map _ H1). }
  cbn [rbind default]. unfold with_errors. by destruct (im_get m (name_key p)) as [y|]; [destruct (im_get y _)|].
Qed.

Lemma with_errors_has m p errors : meta_ok m ->
  exists x, im_get (with_errors m p errors) (name_key p) = Some x /\ has_errors x = inr (negb (bool_decide (errors = []))).
Proof.
  intros Hok. destruct (entry_or_empty m (name_key p) Hok) as (H1%map_ok_is_map & _). destruct Hok as [Hm%map_ok_is_map _].
  eexists. unfold with_errors. rewrite im_get_set_eq by done. split; [done|]. unfold has_errors.
  rewrite get_map by (by destruct (default empty_map _)). rewrite im_get_set_eq by done. cbn. do 2 f_equal. by destruct errors.
Qed.

(** The errors of [ps] are in place, the rest is as it was. *)
Definition errors_stored (errs : jv -> list jv) (ps : list jv) (m m' : jv) : Prop :=
  (forall p, p ∈ ps -> exists x, im_get m' (name_key p) = Some x /\ has_errors x = inr (negb (bool_decide (errs p = [])))) /\
  (forall k, (forall p, p ∈ ps -> k <> name_key p) -> im_get m' k = im_get m k).

Lemma store_errors_spec isXml isOAS3 (image : jv -> jv) (errs : jv -> list jv) ps :
  NoDup ((fun p => name_key p) <$> ps) ->
  (forall p, p ∈ ps -> validateParam (image p) isXml isOAS3 = inr (errs p) /\
     get (image p) (js "name") = inr (JStr (pname p)) /\ get (image p) (js "in") = inr (JStr (pin p))) ->
  forall m, meta_ok m -> exists m', store_errors validateParam isXml isOAS3 (image <$> ps) m = inr m' /\
    meta_ok m' /\ errors_stored errs ps m m'.
Proof.
  induction ps as [|p ps IH]; intros Hnd Hv m Hok.
  - exists m. split; [done|]. split; [done|]. split; [|done]. intros p Hp. by apply not_elem_of_nil in Hp.
  - rewrite fmap_cons in Hnd. apply list.NoDup_cons in Hnd as [Hni Hnd].
    destruct (Hv p) as (E1 & E2 & E3); [left|]. rewrite fmap_cons. cbn [store_errors]. rewrite E1, E2, E3. cbn [rbind].
    rewrite set_errors by done. cbn [rbind].
    destruct (IH Hnd (fun q Hq => Hv q (list_elem_of_further _ _ _ Hq)) _ (with_errors_ok m p (errs p) Hok)) as (m' & Em & Hm' & S1 & S2).
    exists m'. split; [done|]. split; [done|]. split.
    + intros q Hq. apply elem_of_cons in Hq as [->|Hq]; [|by apply S1]. rewrite S2; [by apply with_errors_has|].
      intros q Hq E. apply Hni. rewrite E. by apply (list_elem_of_fmap_2 (fun p => name_key p)).
    + intros k Hk. rewrite S2 by (intros q Hq; apply Hk; by right). unfold with_errors. apply im_get_set_ne.
      * apply map_ok_is_map, Hok.
      * apply Hk. left.
Qed.

(** ** Reading them *)

Lemma values_in m x : map_ok m -> x ∈ values_of m <-> exists k, im_get m k = Some x.
Proof.
  destruct m as [| | | | | | | | | |o ps]; try done. cbn [map_ok values_of im_get]. intros Hnd. rewrite list_elem_of_fmap. split.
  - intros ([k y] & -> & Hy). exists k. by apply assoc_in.
  - intros [k Hk]. exists (k, x). split; [done|]. clear Hnd. induction ps as [|[k' y] ps IH]; [done|]. cbn [assoc] in Hk.
    case_bool_decide as E; [injection Hk as ->; rewrite E; left|right; auto].
Qed.

Lemma no_errors_iff l : Forall (fun x => exists b, has_errors x = inr b) l ->
  exists bad, traverse has_errors l = inr bad /\
    (forallb negb bad = true <-> forall x, x ∈ l -> has_errors x = inr false).
Proof.
  induction 1 as [|x l [b Hb] _ (bad & Eb & IH)].
  - exists []. split; [done|]. split; [|done]. intros _ x Hx. by apply not_elem_of_nil in Hx.
  - exists (b :: bad). cbn [traverse]. rewrite Hb. cbn [rbind]. rewrite Eb. split; [done|]. cbn [forallb].
    rewrite andb_true_iff, IH. split.
    + intros [Hn Hl] y Hy. apply elem_of_cons in Hy as [->|Hy]; [|by apply Hl]. rewrite Hb. by destruct b.
    + intros Hl. split.
      * specialize (Hl x). rewrite Hb in Hl. destruct b; [|done]. by discriminate Hl; left.
      * intros y Hy. apply Hl. by right.
Qed.

(** The gate reads the metadata of the operation. *)
Lemma gate_spec state path method m : map_ok m -> errors_known m ->
  default empty_map (getIn state (meta_params path method)) = m ->
  exists b, validateBeforeExecute state [path; method] = inr b /\
    (b = true <-> forall k x, im_get m k = Some x -> has_errors x = inr false).
Proof.
  intros Hm He Em. unfold validateBeforeExecute, getIn_or.
  assert (Hgate : exists bad, traverse has_errors (values_of m) = inr bad /\
    (forallb negb bad = true <-> forall k x, im_get m k = Some x -> has_errors x = inr false)).
  { destruct (no_errors_iff (values_of m)) as (bad & E1 & E2).
    - apply list.Forall_forall. intros x [k Hk]%values_in; [|done]. by eapply He.
    - exists bad. split; [done|]. rewrite E2. split.
      + intros Hx k x Hk. apply Hx, values_in; [done|]. by exists k.
      + intros Hx x [k Hk]%values_in; [|done]. by eapply Hx. }
  destruct Hgate as (bad & E1 & E2). exists (forallb negb bad). split; [|done].
  destruct (getIn state _) as [v|]; cbn [default id] in *; subst m.
  - unfold is_immutable. rewrite (map_ok_is_map _ Hm). cbn [orb]. by rewrite E1.
  - cbn in E1 |- *. by injection E1 as <-.
Qed.

(** ** The reducers *)

(** [VALIDATE_PARAMS] on an operation whose validation does not throw. *)
Lemma validate_state state path method ps m isOAS3 errs :
  operation_at state path method ps m -> NoDup ((fun p => name_key p) <$> ps) ->
  (forall p, p ∈ ps -> validateParam (with_meta hashCode m p p) (xml_body state path method) isOAS3 = inr (errs p)) ->
  exists m', meta_ok m' /\ errors_stored errs ps m m' /\
    default empty_map (getIn (reducer state (VALIDATE_PARAMS [path; method] isOAS3)) (meta_params path method)) = m'.
Proof.
  intros HO Hnd Hv. pose proof (op_meta_ok _ _ _ _ _ HO) as Hok. pose proof (op_meta _ _ _ _ _ HO) as Em.
  destruct (store_errors_spec (xml_body state path method) isOAS3 (fun p => with_meta hashCode m p p) errs ps Hnd)
    with (m := m) as (m' & E1 & E2 & E3); [|done|].
  { intros p Hp. assert (HP : named p) by (by eapply list.Forall_forall; [apply HO|]).
    destruct (with_meta_names hashCode m p p Hok HP) as [En Ei]. rewrite !get_map by done. rewrite En, Ei. auto. }
  exists m'. split; [done|]. split; [done|]. unfold spec_reducer. rewrite makeReducer_map by apply HO. cbn [spec_reducers].
  unfold reduce_VALIDATE_PARAMS, apply2.
  pose proof (meta_is_map state path method ps m HO) as Hmm.
  rewrite get_map by (revert Hmm; unfold getIn_or; by destruct (getIn state (meta_path [path; method]))). cbn [rbind].
  fold (xml_body state path method).
  destruct (operation_params hashCode state path method ps m HO) as (op & Eop & Hop & Epar).
  replace (operationWithMeta hashCode state _ _) with (operationWithMeta hashCode state path method) by done.
  rewrite Eop. cbn [rbind].
  set (f := fun paramMeta : option jv => _).
  assert (Hf : exists r, f (match getIn state (meta_params path method) with None => Some empty_map | Some x => Some x end) = inr r /\
     default empty_map (updated_value (getIn state (meta_params path method)) r) = m').
  { subst f. cbn beta. rewrite get_or_map by done. rewrite Epar. cbn [default id rbind values_of].
    destruct ps as [|p ps]; [exists Same; injection E1 as <-; done|]. rewrite fmap_cons. exists (NewValue m').
    replace (default JUndef _) with m; [|by destruct (getIn state _)]. rewrite fmap_cons in E1. by rewrite E1. }
  destruct Hf as (r & Hf1 & Hf2).
  destruct (updateIn_spec state (meta_params path method) (Some empty_map) f r) as (s' & -> & U1 & U2 & _); try done; [apply HO|].
  destruct s'; try done. by rewrite U2.
Qed.

(** C8: Validating an operation ([VALIDATE_PARAMS]) and then asking whether it may be sent
    ([validateBeforeExecute]) says yes exactly when no parameter has an error and no errors
    are left beside anything that is no parameter of the operation any more. *)
Theorem validation_gate state path method ps m isOAS3 errs :
  operation_at state path method ps m -> NoDup ((fun p => name_key p) <$> ps) -> errors_known m ->
  (forall p, p ∈ ps -> validateParam (with_meta hashCode m p p) (xml_body state path method) isOAS3 = inr (errs p)) ->
  exists b, validateBeforeExecute (reducer state (VALIDATE_PARAMS [path; method] isOAS3)) [path; method] = inr b /\
    (b = true <->
     (forall p, p ∈ ps -> errs p = []) /\
     (forall k x, im_get m k = Some x -> (forall p, p ∈ ps -> k <> name_key p) -> has_errors x = inr false)).
Proof.
  intros HO Hnd Hek Hv. destruct (validate_state state path method ps m isOAS3 errs HO Hnd Hv) as (m' & Hok' & [S1 S2] & Em').
  assert (Hcase : forall k, (exists p, p ∈ ps /\ k = name_key p) \/ (forall p, p ∈ ps -> k <> name_key p)).
  { intros k. destruct (decide (k ∈ (fun p => name_key p) <$> ps)) as [(p & -> & Hp)%list_elem_of_fmap|Hn]; [left; eauto|].
    right. intros p Hp ->. apply Hn. by apply (list_elem_of_fmap_2 (fun p => name_key p)). }
  destruct (gate_spec (reducer state (VALIDATE_PARAMS [path; method] isOAS3)) path method m') as (b & E1 & E2); [apply Hok'| |done|].
  { intros k x Hk. destruct (Hcase k) as [(p & Hp & ->)|Hn].
    - destruct (S1 p Hp) as (y & Hy & Hb). rewrite Hy in Hk. injection Hk as <-. by eexists.
    - rewrite S2 in Hk by done. by eapply Hek. }
  exists b. split; [done|]. rewrite E2. split.
  - intros Ha. split.
    + intros p Hp. destruct (S1 p Hp) as (y & Hy & Hb). specialize (Ha _ _ Hy). rewrite Hb in Ha. injection Ha as Ha.
      case_bool_decide; done.
    + intros k x Hk Hn. apply (Ha k). by rewrite S2.
  - intros [Hp1 Hp2] k x Hk. destruct (Hcase k) as [(p & Hp & ->)|Hn].
    + destruct (S1 p Hp) as (y & Hy & Hb). rewrite Hy in Hk. injection Hk as <-. rewrite Hb. by rewrite Hp1.
    + rewrite S2 in Hk by done. by apply (Hp2 k).
Qed.

Lemma clear_errors_ok x : is_map x = true -> clear_errors x = inr (im_set x (js "errors") (IList [])) /\
  has_errors (im_set x (js "errors") (IList [])) = inr false.
Proof. destruct x; try done. intros _. split; [done|]. unfold has_errors. rewrite get_map by done. by rewrite im_get_set_eq. Qed.

(** After [CLEAR_VALIDATE_PARAMS] the operation may be sent, and nothing beside its
    parameters has changed. *)
Theorem cleared_may_execute state path method ps m : operation_at state path method ps m ->
  let state' := reducer state (CLEAR_VALIDATE_PARAMS [path; method]) in
  validateBeforeExecute state' [path; method] = inr true /\
  forall q, diverges (meta_params path method) q -> getIn state' q = getIn state q.
Proof.
  intros HO. cbv zeta. pose proof (op_meta_ok _ _ _ _ _ HO) as [Hm Hx]. pose proof (op_meta _ _ _ _ _ HO) as Em.
  pose proof (op_maps _ _ _ _ _ HO) as Hmaps. unfold spec_reducer. rewrite makeReducer_map by apply HO. cbn [spec_reducers].
  unfold reduce_CLEAR_VALIDATE_PARAMS. set (f := fun parameters : option jv => _).
  destruct m as [| | | | | | | | | |o mps]; try done. cbn [map_ok] in Hm.
  assert (HF : Forall (fun x => is_map x = true) (snd <$> mps)).
  { apply list.Forall_forall. intros x [k Hk]%(values_in (IMap o mps)); [|done]. by eapply map_ok_is_map, Hx. }
  set (g := fun x => im_set x (js "errors") (IList [])).
  assert (Ht : traverse clear_errors (snd <$> mps) = inr (g <$> (snd <$> mps))).
  { apply traverse_all. eapply list.Forall_impl; [exact HF|]. intros x Hx1. by apply clear_errors_ok. }
  assert (Hgate : traverse has_errors (g <$> (snd <$> mps)) = inr ((fun _ => false) <$> (snd <$> mps))).
  { rewrite (traverse_all _ (fun _ => false)); [by rewrite <- !list_fmap_compose|]. apply Forall_fmap.
    eapply list.Forall_impl; [exact HF|]. intros x Hx1. by apply clear_errors_ok. }
  assert (Hall : forall (l : list jv), forallb negb ((fun _ => false) <$> l) = true) by (intros l; by induction l).
  destruct mps as [|e mps'] eqn:Emps.
  - destruct (updateIn_spec state (meta_params path method) (Some (IList [])) f Same) as (s' & -> & U1 & U2 & U3 & _); try done.
    { subst f. cbn beta. by destruct (getIn state _); [cbn [default id] in *; subst|]. }
    destruct s'; try done. split; [|exact U3]. unfold validateBeforeExecute, getIn_or. rewrite U2. cbn [updated_value].
    by destruct (getIn state _); [cbn [default id] in *; subst|].
  - rewrite <- Emps in *. assert (Eg : getIn state (meta_params path method) = Some (IMap o mps)).
    { destruct (getIn state _); cbn [default id] in Em; [by rewrite Em|]. by subst mps. }
    destruct (updateIn_spec state (meta_params path method) (Some (IList [])) f
      (NewValue (IMap o (zip (fst <$> mps) (g <$> (snd <$> mps)))))) as (s' & -> & U1 & U2 & U3 & _); try done.
    { subst f. cbn beta. rewrite Eg. cbn [default id values_of map_values]. rewrite Ht. cbn [rbind]. by subst mps. }
    destruct s'; try done. split; [|exact U3]. unfold validateBeforeExecute, getIn_or. rewrite U2. cbn [updated_value default id].
    cbn [is_immutable is_map orb values_of]. rewrite snd_zip by (by rewrite !length_fmap). rewrite Hgate. cbn [rbind]. by rewrite Hall.
Qed.
End Validation.

Import Demo.

(** With the required [limit] not given the gate is shut. *)
Definition demo_errors (p : jv) : list jv :=
  if bool_decide (pname p = js "limit") then [JStr (js "Required field is not provided")] else [].

Lemma validation_gate_witness : exists b,
  validateBeforeExecute (spec_reducer Demo.hashCode (validateParam (H0 := no_engine)) Demo.state
    (VALIDATE_PARAMS [js "/pets"; js "get"] false)) [js "/pets"; js "get"] = inr b /\
  (b = true <-> (forall p, p ∈ Demo.params -> demo_errors p = []) /\
     (forall k x, im_get empty_map k = Some x ->
       (forall p, p ∈ Demo.params -> k <> paramKey (JStr (pname p)) (JStr (pin p))) -> has_errors x = inr false)).
Proof.
  apply (validation_gate Demo.hashCode (validateParam (H0 := no_engine)) Demo.state (js "/pets") (js "get") Demo.params
    empty_map false demo_errors).
  - exact Demo.operation.
  - by apply (bool_decide_unpack _); vm_compute.
  - intros k x Hk. discriminate Hk.
  - intros p [->| ->]%Demo.params_cases; by vm_compute.
Defined.

Lemma cleared_may_execute_witness :
  validateBeforeExecute (spec_reducer Demo.hashCode (validateParam (H0 := no_engine)) Demo.state
    (CLEAR_VALIDATE_PARAMS [js "/pets"; js "get"])) [js "/pets"; js "get"] = inr true.
Proof.
  apply (cleared_may_execute Demo.hashCode (validateParam (H0 := no_engine)) Demo.state (js "/pets") (js "get") Demo.params
    empty_map Demo.operation).
Defined.
