(* ===== verification/SuiAuth.v ===== *)
(** Swagger UI: the auth plugin (reducers, selectors, the token requests of the OAuth2
    flows) and [btoa] of core/utils.js, which goes through Buffer. *)
From S2P Require Import Prelude JsString JsNumber BufferStore Base64Js BufferCodec BufferText UriCodec YamlValue.
From S2P Require Import SuiUrl SuiImm SuiSpec SuiErr.

(** ** [btoa] *)

(** [new Buffer(str, "utf-8").toString("base64")] *)
Definition btoa_buffer (str : jsstr) : M store jsstr :=
  let! buffer := Buffer (FString str (Some (js "utf-8"))) true in
  toString buffer (Some (Some (js "base64"), None, None)).

(** The buffer is new and nobody else sees it. *)
Definition btoa (str : jsstr) : js_error + jsstr :=
  match btoa_buffer str (Store [] 0) with
  | Done s _ => inr s
  | Raise e _ => inl e
  | NoFuel => inl (PlainError "unreachable")
  end.

(** ["Basic " + btoa(user + ":" + password)] *)
Definition basic_header (user password : jsstr) : js_error + jsstr :=
  let? b := btoa (user ++ 58 :: password) in inr (js "Basic " ++ b).

(** ** Actions and reducers *)

Inductive auth_action :=
  | SHOW_AUTH_POPUP (payload : jv)
  | AUTHORIZE (payload : jv)
  | AUTHORIZE_OAUTH2 (auth token : jv)
  | LOGOUT (payload : list jsstr)
  | CONFIGURE_AUTH (payload : jv).

Section Auth.
Context `{Host}.

(** [security.getIn(path)]; what is no collection has no such method. *)
Definition getIn_of (v : jv) (path : list jsstr) : js_error + jv :=
  if is_immutable v then inr (getIn_or v path JUndef) else inl (TypeError "getIn is not a function").

(** One entry of the payload; other types of scheme are passed over. *)
Definition authorize_one (key : jsstr) (security map : jv) : js_error + jv :=
  let? type := getIn_of security [js "schema"; js "type"] in
  if is_str type (js "apiKey") || is_str type (js "http") then jset map key security
  else if is_str type (js "basic") then
    let? username := getIn_of security [js "value"; js "username"] in
    let? password := getIn_of security [js "value"; js "password"] in
    let? header := basic_header (js_string username) (js_string password) in
    let? map := setIn map [key; js "value"] (JObj [(js "username", username); (js "header", JStr header)]) in
    let? schema := get security (js "schema") in
    setIn map [key; js "schema"] schema
  else inr map.

Fixpoint authorize_all (securities : list (jsstr * jv)) (map : jv) : js_error + jv :=
  match securities with
  | [] => inr map
  | (key, security) :: rest => let? map := authorize_one key security map in authorize_all rest map
  end.

Definition reduce_AUTHORIZE (payload state : jv) : js_error + jv :=
  let securities := fromJS payload in
  let? authorized := get state (js "authorized") in
  if is_immutable securities then
    let? map := authorize_all (entries_of securities) (js_or authorized empty_map) in
    jset state (js "authorized") map
  else inl (TypeError "entrySeq is not a function").

(** [auth.token = Object.assign({}, token)]; the name of a scheme is text. *)
Definition reduce_AUTHORIZE_OAUTH2 (auth token state : jv) : js_error + jv :=
  match auth with
  | JObj ps =>
      let token := JObj (foldl (fun acc p => set_prop (fst p) (snd p) acc) [] (own_enumerable token)) in
      let parsedAuth := fromJS (JObj (set_prop (js "token") token ps)) in
      let? name := get parsedAuth (js "name") in
      setIn state [js "authorized"; js_string name] parsedAuth
  | _ => inl (TypeError "Cannot set property 'token' of undefined")
  end.

(** Without an "authorized" Map the handler throws. *)
Definition reduce_LOGOUT (payload : list jsstr) (state : jv) : js_error + jv :=
  let? authorized := get state (js "authorized") in
  if is_immutable authorized then jset state (js "authorized") (foldl im_remove authorized payload)
  else inl (TypeError "Cannot read property 'withMutations' of undefined").

Definition auth_reducers (a : auth_action) : option (jv -> js_error + jv) :=
  match a with
  | SHOW_AUTH_POPUP payload => Some (fun state => jset state (js "showDefinitions") payload)
  | AUTHORIZE payload => Some (reduce_AUTHORIZE payload)
  | AUTHORIZE_OAUTH2 auth token => Some (reduce_AUTHORIZE_OAUTH2 auth token)
  | LOGOUT payload => Some (reduce_LOGOUT payload)
  | CONFIGURE_AUTH payload => Some (fun state => jset state (js "configs") payload)
  end.

Definition auth_reducer : jv -> auth_action -> jv := makeReducer auth_reducers.

(** ** Selectors *)

Definition shownDefinitions (auth : jv) : js_error + jv := get auth (js "showDefinitions").
Definition getConfigs (auth : jv) : js_error + jv := get auth (js "configs").

Definition authorized (auth : jv) : js_error + jv :=
  let? v := get auth (js "authorized") in inr (js_or v empty_map).

(** One Map per definition. *)
Definition definitionsToAuthorize (securityDefinitions : jv) : js_error + jv :=
  let definitions := js_or securityDefinitions empty_map in
  if is_immutable definitions then inr (IList ((fun kv => IMap false [kv]) <$> entries_of definitions))
  else inl (TypeError "entrySeq is not a function").

(** The scopes a requirement names, of those the definition has. *)
Definition allowed_scopes (scopes allowed : jv) : jv :=
  match allowed with
  | IMap o ps => IMap o (base.filter (fun kv => existsb (fun s => is_str s (fst kv)) (values_of scopes) = true) ps)
  | v => v
  end.

Definition definition_for (securityDefinitions : jv) (name : jsstr) (scopes : jv) : js_error + jv :=
  let? definition := get securityDefinitions name in
  let? type := get definition (js "type") in
  if is_str type (js "oauth2") && negb (bool_decide (values_of scopes = [])) then
    let? allowed := get definition (js "scopes") in
    if is_immutable allowed then jset definition (js "allowedScopes") (allowed_scopes scopes allowed)
    else inl (TypeError "keySeq is not a function")
  else inr definition.

Definition definitions_by_names (securityDefinitions names : jv) : js_error + jv :=
  if is_immutable names then
    let? l := traverse (fun kv => definition_for securityDefinitions (fst kv) (snd kv)) (entries_of names) in
    inr (IMap false (zip (fst <$> entries_of names) l))
  else inl (TypeError "entrySeq is not a function").

Definition getDefinitionsByNames (securityDefinitions securities : jv) : js_error + jv :=
  if is_immutable securities then
    let? l := traverse (definitions_by_names securityDefinitions) (values_of securities) in inr (IList l)
  else inl (TypeError "valueSeq is not a function").

(** [def.keySeq().first()] *)
Definition first_key (def : jv) : option jsstr := fst <$> head (entries_of def).

(** A definition stays when some requirement has a truthy entry for it; the
    requirements of a specification are a List of Maps. *)
Definition definitionsForRequirements (securityDefinitions securities : jv) : js_error + jv :=
  let? allDefinitions := definitionsToAuthorize securityDefinitions in
  inr (IList (base.filter (fun def =>
    existsb (fun sec => match first_key def with
                        | Some k => truthy (default JUndef (im_get sec k)) | None => false end)
      (values_of securities) = true) (values_of allDefinitions))).

(** [Object.keys(security)] *)
Definition keys_of (v : jv) : js_error + list jsstr :=
  match v with
  | JUndef | JNull => inl (TypeError "Cannot convert undefined or null to object")
  | _ => inr (fst <$> own_enumerable v)
  end.

(** Some requirement has all its schemes authorized; null for what is no List. *)
Definition isAuthorized (auth securities : jv) : js_error + option bool :=
  let? authorized := authorized auth in
  match securities with
  | IList l =>
      let? ok := traverse (fun security =>
        let? keys := keys_of (toJS security) in
        let? found := traverse (fun key => let? v := get authorized key in inr (truthy v)) keys in
        inr (forallb id found)) l in
      inr (Some (existsb id ok))
  | _ => inr None
  end.
End Auth.

(** ** Token requests of the OAuth2 flows *)

(** The fields of the form; a field left out is undefined. *)
Record oauth := {
  o_name : jsstr; o_tokenUrl : jv; o_scopes : list jsstr; o_code : option jsstr;
  o_username : option jsstr; o_password : option jsstr; o_passwordType : option jsstr;
  o_clientId : option jsstr; o_clientSecret : option jsstr
}.

(** The argument of [authorizeRequest]. *)
Record token_request := {
  r_body : jsstr; r_url : jv; r_name : jsstr;
  r_headers : list (jsstr * jsstr); r_query : list (jsstr * jsstr)
}.

Definition or_undefined_text (s : option jsstr) : jsstr := default (js "undefined") s.

(** [if (v) query[k] = v] *)
Definition when_given (k : jsstr) (v : option jsstr) : list (jsstr * jsstr) :=
  match v with Some (c :: s) => [(k, c :: s)] | _ => [] end.

Definition authorization (user password : option jsstr) : js_error + list (jsstr * jsstr) :=
  let? h := basic_header (or_undefined_text user) (or_undefined_text password) in inr [(js "Authorization", h)].

Definition authorizePassword (auth : oauth) : js_error + token_request :=
  let form := [(js "grant_type", Some (js "password")); (js "scope", Some (join_unit 32 (o_scopes auth)))] in
  let? parts :=
    (if bool_decide (o_passwordType auth = Some (js "basic")) then
       let? headers := authorization (o_username auth) (o_password auth) in inr (form, headers, [])
     else
       let form := form ++ [(js "username", o_username auth); (js "password", o_password auth)] in
       if bool_decide (o_passwordType auth = Some (js "query")) then
         inr (form, [], when_given (js "client_id") (o_clientId auth) ++ when_given (js "client_secret") (o_clientSecret auth))
       else let? headers := authorization (o_clientId auth) (o_clientSecret auth) in inr (form, headers, [])) in
  let '(form, headers, query) := parts in
  let? body := buildFormData form in
  inr {| r_body := body; r_url := o_tokenUrl auth; r_name := o_name auth; r_headers := headers; r_query := query |}.

Definition authorizeApplication (auth : oauth) : js_error + token_request :=
  let? headers := authorization (o_clientId auth) (o_clientSecret auth) in
  let? body := buildFormData [(js "grant_type", Some (js "client_credentials"));
                              (js "scope", Some (join_unit 32 (o_scopes auth)))] in
  inr {| r_body := body; r_url := o_tokenUrl auth; r_name := o_name auth; r_headers := headers; r_query := [] |}.

Definition authorizeAccessCodeWithFormParams (auth : oauth) (redirectUrl : option jsstr) : js_error + token_request :=
  let? body := buildFormData [(js "grant_type", Some (js "authorization_code")); (js "code", o_code auth);
    (js "client_id", o_clientId auth); (js "client_secret", o_clientSecret auth); (js "redirect_uri", redirectUrl)] in
  inr {| r_body := body; r_url := o_tokenUrl auth; r_name := o_name auth; r_headers := []; r_query := [] |}.

Definition authorizeAccessCodeWithBasicAuthentication (auth : oauth) (redirectUrl : option jsstr)
    : js_error + token_request :=
  let? headers := authorization (o_clientId auth) (o_clientSecret auth) in
  let? body := buildFormData [(js "grant_type", Some (js "authorization_code")); (js "code", o_code auth);
    (js "client_id", o_clientId auth); (js "redirect_uri", redirectUrl)] in
  inr {| r_body := body; r_url := o_tokenUrl auth; r_name := o_name auth; r_headers := headers; r_query := [] |}.

(** The actions one callback dispatches. *)
Inductive dispatched := ToErr (a : err_action) | ToAuth (a : auth_action).

(** [newAuthErr({ authId, source, level, message })] *)
Definition auth_error (name : jv) (level : jsstr) (message : jv) : dispatched :=
  ToErr (NEW_AUTH_ERR (JObj [(js "authId", name); (js "source", JStr (js "auth")); (js "level", JStr level); (js "message", message)])).

(** [preAuthorizeImplicit]; [stringified] is [JSON.stringify(token)]. *)
Definition preAuthorizeImplicit (auth token : jv) (isValid : bool) (stringified : jsstr) : js_error + list dispatched :=
  let? schema := prop auth (js "schema") in
  let? name := prop auth (js "name") in
  let? flow := get schema (js "flow") in
  let warning := if negb (is_str flow (js "accessCode")) && negb isValid
    then [auth_error name (js "warning") (JStr (js "Authorization may be unsafe, passed state was changed in server Passed state wasn't returned from auth server"))]
    else [] in
  let? error := prop token (js "error") in
  inr (warning ++ if truthy error then [auth_error name (js "error") (JStr stringified)]
                  else [ToAuth (AUTHORIZE_OAUTH2 auth token)]).

(** The answer to a token request; [token] is the parsed body. *)
Definition on_token_response (auth token : jv) (name : jv) (ok : bool) (statusText : jv) (stringified : jsstr)
    : js_error + list dispatched :=
  let? error := (if truthy token then prop token (js "error") else inr token) in
  let? parseError := (if truthy token then prop token (js "parseError") else inr token) in
  if negb ok then inr [auth_error name (js "error") statusText]
  else if truthy error || truthy parseError then inr [auth_error name (js "error") (JStr stringified)]
  else inr [ToAuth (AUTHORIZE_OAUTH2 auth token)].

(** ** The Basic header *)

(** At most three bytes per code unit. *)
Lemma utf8_encode_length s bs : wf16 s = true -> encode Utf8 s = inr bs -> (length bs <= 3 * length s)%nat.
Proof.
  intros (cps & HF & ->)%wf16_scalars. cbn [encode]. unfold utf8ToBytes. rewrite utf8_loop_scalars by done. intros [= <-].
  clear -cps. induction cps as [|cp cps IH]; [done|]. cbn [mbind list_bind]. rewrite !length_app.
  assert (length (utf8_ref cp) <= 3 * length (utf16 cp))%nat; [|lia].
  unfold utf8_ref, utf16. destr_cmp; simpl; lia.
Qed.

Lemma btoa_spec s : wf16 s = true -> slen s < 2 ^ 29 ->
  exists b bs, btoa s = inr b /\ base64ToBytes b = inr bs /\ decode Utf8 bs = s /\ Forall (fun c => 0 <= c < 128) b.
Proof.
  intros Hw Hl. destruct (decode_encode Utf8 s Hw) as (bs & E & Hb & Hd).
  assert (Hlen : Z.of_nat (length bs) < 2 ^ 31) by (pose proof (utf8_encode_length s bs Hw E); unfold slen in Hl; lia).
  destruct (fromString_spec (js "utf-8") Utf8 s bs (Store [] 0)) as (b & h1 & Ef & Hwf & Hc); try done.
  { by apply (encodable_units Utf8). } { lia. }
  destruct (toString_spec (js "base64") Base64Enc b h1) as (h2 & Et & _); try done.
  { unfold blen. rewrite <- (length_contents h1 b), Hc by done. done. }
  exists (decode Base64Enc bs), bs. unfold btoa, btoa_buffer. cbn [Buffer from].
  erewrite bind_Done by exact Ef. rewrite Et, Hc. split; [done|]. split; [by apply base64ToBytes_canonical|].
  split; [done|]. cbn [decode]. destruct (b64_shape bs Hb) as (body & k & -> & HF & _). apply Forall_app. split; [|apply Forall_replicate; lia].
  eapply list.Forall_impl; [exact HF|]. cbn beta. unfold is_b64_unit. intros c. lia.
Qed.

(** The entry of a basic scheme in the payload of [authorize]. *)
Definition basic_entry (u p : jsstr) : jv :=
  JObj [(js "schema", JObj [(js "type", JStr (js "basic"))]);
        (js "value", JObj [(js "username", JStr u); (js "password", JStr p)])].

Lemma basic_entry_fields u p :
  let security := fromJS (basic_entry u p) in
  getIn_of security [js "schema"; js "type"] = inr (JStr (js "basic")) /\
  getIn_of security [js "value"; js "username"] = inr (JStr u) /\
  getIn_of security [js "value"; js "password"] = inr (JStr p) /\
  get security (js "schema") = inr (fromJS (JObj [(js "type", JStr (js "basic"))])).
Proof. by vm_compute. Qed.

Lemma in_key_order_single k x : in_key_order [(k, x)] = [(k, x)].
Proof.
  unfold in_key_order, obj_keys. change (fst <$> [(k, x)]) with [k]. cbn [foldr]. rewrite filter_cons.
  destruct (array_index k) eqn:E.
  - rewrite decide_False by done. cbn. by rewrite bool_decide_eq_true_2.
  - rewrite decide_True by done. cbn. by rewrite bool_decide_eq_true_2.
Qed.

Lemma authorize_basic `{Host} key u p x map : maps_along map [key; js "value"] = true ->
  basic_header u p = inr x -> exists map', authorize_one key (fromJS (basic_entry u p)) map = inr map' /\ is_map map' = true /\
    getIn map' [key; js "value"] = Some (JObj [(js "username", JStr u); (js "header", JStr x)]) /\
    getIn map' [key; js "schema"] = Some (fromJS (JObj [(js "type", JStr (js "basic"))])) /\
    forall k, k <> key -> im_get map' k = im_get map k.
Proof.
  intros Hm Hx. destruct (basic_entry_fields u p) as (F1 & F2 & F3 & F4). unfold authorize_one.
  rewrite F1, F2, F3, F4. cbn [rbind js_string]. rewrite Hx. cbn [rbind].
  change (is_str (JStr (js "basic")) (js "apiKey") || is_str (JStr (js "basic")) (js "http")) with false.
  change (is_str (JStr (js "basic")) (js "basic")) with true. cbv iota.
  destruct (setIn_spec map [key; js "value"] (JObj [(js "username", JStr u); (js "header", JStr x)]))
    as (m1 & -> & H1 & H2 & H3 & H4); [done|done|]. cbn [rbind].
  destruct (setIn_spec m1 [key; js "schema"] (fromJS (JObj [(js "type", JStr (js "basic"))])))
    as (m2 & -> & K1 & K2 & K3 & _); [done| |].
  { revert H4. cbn [maps_along]. destruct (im_get m1 key) as [e|]; [|done]. destruct (is_map e); [|by rewrite !andb_false_r].
    by destruct (im_get e (js "schema")), (im_get e (js "value")). }
  exists m2. split; [done|]. split; [done|]. split; [|split; [done|]].
  - rewrite K3, H2; [done|]. right. split; [done|]. by left.
  - intros k Hk. rewrite <- !getIn_single. rewrite K3, H3; [done|by left|by left].
Qed.

(** C17: Authorizing a basic scheme stores, beside its schema and user name, a header "Basic x"
    where x decodes (base64, then UTF-8) to "user:password" as typed; other schemes keep what they had. *)
Theorem basic_header_decodes `{Host} state o ps key u p :
  state = IMap o ps -> (forall v, assoc (js "authorized") ps = Some v -> maps_along v [key; js "value"] = true) ->
  wf16 (u ++ 58 :: p) = true -> slen (u ++ 58 :: p) < 2 ^ 29 ->
  exists x bs, base64ToBytes x = inr bs /\ decode Utf8 bs = u ++ 58 :: p /\
    let state' := auth_reducer state (AUTHORIZE (JObj [(key, basic_entry u p)])) in
    getIn state' [js "authorized"; key; js "value"] =
      Some (JObj [(js "username", JStr u); (js "header", JStr (js "Basic " ++ x))]) /\
    getIn state' [js "authorized"; key; js "schema"] = Some (fromJS (JObj [(js "type", JStr (js "basic"))])) /\
    forall k, k <> key -> getIn state' [js "authorized"; k] = getIn state [js "authorized"; k].
Proof.
  intros -> Hv Hw Hl. destruct (btoa_spec (u ++ 58 :: p) Hw Hl) as (x & bs & Eb & Ex & Ed & _).
  exists x, bs. split; [done|]. split; [done|]. cbv zeta.
  assert (Hx : basic_header u p = inr (js "Basic " ++ x)) by (unfold basic_header; by rewrite Eb).
  set (m := js_or (default JUndef (assoc (js "authorized") ps)) empty_map).
  assert (Hm : maps_along m [key; js "value"] = true).
  { subst m. destruct (assoc (js "authorized") ps) as [v|]; [|done]. specialize (Hv v eq_refl).
    destruct v; try done; exact Hv. }
  assert (Hold : forall k, getIn (IMap o ps) [js "authorized"; k] = im_get m k).
  { intros k. cbn [getIn im_get]. subst m. destruct (assoc (js "authorized") ps) as [v|]; [|done]. specialize (Hv v eq_refl).
    destruct v; try done. cbn [default id js_or truthy]. by destruct (im_get _ k). }
  destruct (authorize_basic key u p _ m Hm Hx) as (m' & Em & Hm' & G1 & G2 & G3).
  assert (Hs : auth_reducer (IMap o ps) (AUTHORIZE (JObj [(key, basic_entry u p)])) = IMap o (put (js "authorized") m' ps)).
  { unfold auth_reducer. rewrite makeReducer_map by done. cbn [auth_reducers]. unfold reduce_AUTHORIZE. rewrite get_map by done. cbn [rbind im_get].
    fold m. change (fromJS (JObj [(key, basic_entry u p)]))
      with (IMap false (in_key_order [(key, fromJS (basic_entry u p))])).
    rewrite in_key_order_single. cbn [is_immutable is_map orb entries_of authorize_all]. rewrite Em. done. }
  rewrite Hs.
  assert (Hnew : forall q, getIn (IMap o (put (js "authorized") m' ps)) (js "authorized" :: q) = getIn m' q).
  { intros q. cbn [getIn im_get]. by rewrite assoc_put_eq. }
  rewrite !Hnew. split; [done|]. split; [done|]. intros k Hk. rewrite Hnew, Hold, getIn_single. by apply G3.
Qed.

Lemma basic_header_decodes_witness : exists x bs,
  base64ToBytes x = inr bs /\ decode Utf8 bs = js "ann:p:w" /\
  let state' := auth_reducer (H := plain_host) empty_map (AUTHORIZE (JObj [(js "basicAuth", basic_entry (js "ann") (js "p:w"))])) in
  getIn state' [js "authorized"; js "basicAuth"; js "value"] =
    Some (JObj [(js "username", JStr (js "ann")); (js "header", JStr (js "Basic " ++ x))]) /\
  getIn state' [js "authorized"; js "basicAuth"; js "schema"] = Some (fromJS (JObj [(js "type", JStr (js "basic"))])) /\
  forall k, k <> js "basicAuth" -> getIn state' [js "authorized"; k] = getIn empty_map [js "authorized"; k].
Proof.
  apply (basic_header_decodes (H := plain_host) empty_map false [] (js "basicAuth") (js "ann") (js "p:w")); try done.
Defined.

(** ** Which requirements are met *)

Lemma toJS_keys sec : is_map sec = true -> exists ks, keys_of (toJS sec) = inr ks /\ forall k, k ∈ ks <-> im_get sec k <> None.
Proof.
  destruct sec as [| | | | | | | | | |o ps]; try done. intros _. cbn [toJS keys_of own_enumerable]. eexists. split; [done|].
  intros k. rewrite <- (assoc_elem k (in_key_order _)), assoc_in_key_order, assoc_map_values. cbn [im_get]. by destruct (assoc k ps).
Qed.

(** All schemes of a requirement are authorized in [m]. *)
Definition meets (m sec : jv) : Prop := forall k, im_get sec k <> None -> truthy (default JUndef (im_get m k)) = true.

Lemma forallb_id_map {A} (f : A -> bool) l : forallb id (f <$> l) = true <-> forall x, x ∈ l -> f x = true.
Proof.
  induction l as [|x l IH]; cbn [fmap list_fmap forallb id].
  - split; [|done]. intros _ x Hx. by apply not_elem_of_nil in Hx.
  - rewrite andb_true_iff. change (list_fmap A bool f l) with (f <$> l). rewrite IH. split.
    + intros [Hx Hl] y Hy. apply elem_of_cons in Hy as [->|Hy]; [done|]. by apply Hl.
    + intros Hl. split; [apply Hl; left|]. intros y Hy. apply Hl. by right.
Qed.

Lemma isAuthorized_spec auth m l : authorized auth = inr m -> is_map m = true -> Forall (fun sec => is_map sec = true) l ->
  exists b, isAuthorized auth (IList l) = inr (Some b) /\ (b = true <-> exists sec, sec ∈ l /\ meets m sec).
Proof.
  intros Ea Hm HF. unfold isAuthorized. rewrite Ea. cbn [rbind].
  assert (H : exists ok, traverse (fun security =>
      let? keys := keys_of (toJS security) in
      let? found := traverse (fun key => let? v := get m key in inr (truthy v)) keys in
      inr (forallb id found)) l = inr ok /\ (existsb id ok = true <-> exists sec, sec ∈ l /\ meets m sec)).
  { induction HF as [|sec l Hsec _ (ok & Eok & IH)].
    - exists []. split; [done|]. split; [done|]. intros (sec & Hsec & _). by apply not_elem_of_nil in Hsec.
    - destruct (toJS_keys sec Hsec) as (ks & Ek & Hks). cbn [traverse]. rewrite Ek. cbn [rbind].
      rewrite (traverse_all _ (fun k => truthy (default JUndef (im_get m k)))).
      2:{ apply list.Forall_forall. intros k _. by rewrite get_map. }
      cbn [rbind]. rewrite Eok. cbn [rbind]. eexists. split; [done|]. cbn [existsb id]. rewrite orb_true_iff, IH, forallb_id_map. split.
      + intros [Hall|(s2 & Hin & Hs2)]; [exists sec; split; [left|]|exists s2; split; [by right|done]].
        intros k Hk. by apply Hall, Hks.
      + intros (s2 & [->|Hin]%elem_of_cons & Hs2); [left|right; by exists s2]. intros k Hk. by apply Hs2, Hks. }
  destruct H as (ok & -> & Hok). cbn [rbind]. by exists (existsb id ok).
Qed.

Lemma remove_all m ks : is_map m = true -> is_map (foldl im_remove m ks) = true /\
  forall k, im_get (foldl im_remove m ks) k = if bool_decide (k ∈ ks) then None else im_get m k.
Proof.
  revert m. induction ks as [|k0 ks IH]; intros m Hm; cbn [foldl].
  - split; [done|]. intros k. rewrite bool_decide_eq_false_2; [done|]. apply not_elem_of_nil.
  - destruct (IH (im_remove m k0)) as [H1 H2]; [by destruct m|]. split; [done|]. intros k. rewrite H2, im_get_remove by done.
    destruct (decide (k ∈ ks)) as [Hk|Hk].
    + rewrite !bool_decide_eq_true_2; [done|by right|done].
    + rewrite (bool_decide_eq_false_2 (k ∈ ks)) by done. destruct (decide (k = k0)) as [->|Hne].
      * rewrite !bool_decide_eq_true_2; [done|left|done].
      * rewrite !bool_decide_eq_false_2; [done| |done]. rewrite elem_of_cons. tauto.
Qed.

(** C18: After logging out of some schemes an operation counts as authorized exactly when one of its
    alternative requirements uses none of them and was met before. *)
Theorem logout_forgets `{Host} state m ks l : is_map state = true -> im_get state (js "authorized") = Some m -> is_map m = true ->
  Forall (fun sec => is_map sec = true) l ->
  exists b, isAuthorized (auth_reducer state (LOGOUT ks)) (IList l) = inr (Some b) /\
    (b = true <-> exists sec, sec ∈ l /\ meets m sec /\ forall k, k ∈ ks -> im_get sec k = None).
Proof.
  intros Hs Em Hm HF. destruct (remove_all m ks Hm) as [R1 R2].
  assert (Ea : authorized (auth_reducer state (LOGOUT ks)) = inr (foldl im_remove m ks)).
  { unfold auth_reducer. rewrite makeReducer_map by done. cbn [auth_reducers]. unfold reduce_LOGOUT. rewrite get_map, Em by done.
    cbn [rbind default id]. unfold is_immutable, jset. rewrite Hm. cbn [orb]. unfold is_immutable. rewrite Hs. cbn [orb].
    destruct state as [| | | | | | | | | |o ps]; try done. cbn [im_set]. unfold authorized. rewrite get_map by done.
    cbn [im_get]. rewrite assoc_put_eq. cbn [rbind default id]. by destruct (foldl im_remove m ks). }
  destruct (isAuthorized_spec _ _ l Ea R1 HF) as (b & Eb & Hb). exists b. split; [done|]. rewrite Hb.
  assert (Hmeets : forall sec, meets (foldl im_remove m ks) sec <-> meets m sec /\ forall k, k ∈ ks -> im_get sec k = None).
  { intros sec. split.
    - intros Hall. split.
      + intros k Hk. specialize (Hall k Hk). rewrite R2 in Hall. by case_bool_decide.
      + intros k Hk. destruct (im_get sec k) eqn:E; [|done]. specialize (Hall k). rewrite E, R2 in Hall.
        rewrite bool_decide_eq_true_2 in Hall by done. by discriminate Hall.
    - intros [Hall Hno] k Hk. rewrite R2. rewrite bool_decide_eq_false_2; [by apply Hall|]. intros Hin. by apply Hk, Hno. }
  split; intros (sec & Hin & Hsec); exists sec; (split; [done|]); by apply Hmeets.
Qed.

Lemma logout_forgets_witness : exists b,
  isAuthorized (auth_reducer (H := plain_host)
      (IMap false [(js "authorized", IMap false [(js "a", JStr (js "x")); (js "b", JStr (js "y"))])]) (LOGOUT [js "a"]))
    (IList [IMap true [(js "a", IList [])]; IMap true [(js "b", IList [])]]) = inr (Some b) /\
  (b = true <-> exists sec, sec ∈ [IMap true [(js "a", IList [])]; IMap true [(js "b", IList [])]] /\
     meets (IMap false [(js "a", JStr (js "x")); (js "b", JStr (js "y"))]) sec /\
     forall k, k ∈ [js "a"] -> im_get sec k = None).
Proof. apply (logout_forgets (H := plain_host)); try done. by repeat constructor. Defined.

(** Logging out before anything was authorized throws; the state is kept. *)
Example logout_unauthorized : reduce_LOGOUT [js "a"] empty_map = inl (TypeError "Cannot read property 'withMutations' of undefined").
Proof. done. Qed.
