(* ===== verification/SuiForm.v ===== *)
(** Swagger UI: form bodies are read back by the rules of
    [application/x-www-form-urlencoded], and what that means for the OAuth2 password flow. *)
From S2P Require Import Prelude JsString BufferStore BufferCodec BufferText UriCodec YamlValue SuiUrl SuiImm SuiSpec SuiErr SuiAuth.

(** ** Reading a form body *)

Definition space_for_plus (s : jsstr) : jsstr := (fun c => if c =? 43 then 32 else c) <$> s.

(** One field: the name as it is, the value decoded. *)
Definition form_field (part : jsstr) : js_error + (jsstr * jsstr) :=
  let i := split_unit 61 part in
  let? v := decodeURIComponent (space_for_plus (default [] (i !! 1%nat))) in
  inr (default [] (i !! 0%nat), v).

Definition form_fields (body : jsstr) : js_error + list (jsstr * jsstr) :=
  match body with [] => inr [] | _ => traverse form_field (split_unit 38 body) end.

(** ** The escapes *)

Lemma plus_plain c s : c <> 37 -> plus_for_space (c :: s) = c :: plus_for_space s.
Proof.
  intros Hc. cbn [plus_for_space]. destruct (Z.eqb_spec c 37); [done|]. cbn [andb]. by destruct s as [|d [|e s]].
Qed.

Lemma upper_hex_range d : 0 <= d < 16 -> 48 <= upper_hex d <= 57 \/ 65 <= upper_hex d <= 70.
Proof. unfold upper_hex. destr_cmp; lia. Qed.

Lemma percent_parts b : 0 <= b < 256 -> exists x y, percent b = [37; x; y] /\
  (48 <= x <= 57 \/ 65 <= x <= 70) /\ (48 <= y <= 57 \/ 65 <= y <= 70) /\ (x = 50 -> y = 48 -> b = 32).
Proof.
  intros Hb. exists (upper_hex (b / 16)), (upper_hex (b mod 16)). split; [done|].
  assert (0 <= b / 16 < 16) by (Z.div_mod_to_equations; lia). assert (0 <= b mod 16 < 16) by (Z.div_mod_to_equations; lia).
  split; [by apply upper_hex_range|]. split; [by apply upper_hex_range|].
  unfold upper_hex. destr_cmp; intros; Z.div_mod_to_equations; lia.
Qed.

Lemma plus_percent b r : 0 <= b < 256 -> b <> 32 -> plus_for_space (percent b ++ r) = percent b ++ plus_for_space r.
Proof.
  intros Hb Hn. destruct (percent_parts b Hb) as (x & y & -> & Hx & Hy & Hxy). cbn [app].
  rewrite <- (plus_plain y r) by lia. rewrite <- (plus_plain x (y :: r)) by lia. cbn [plus_for_space].
  replace ((37 =? 37) && (x =? 50) && (y =? 48)) with false; [done|]. symmetry.
  destruct (Z.eqb_spec x 50), (Z.eqb_spec y 48); try done. destruct Hn. by apply Hxy.
Qed.

Lemma plus_escapes bs r : Forall (fun b => 0 <= b < 256 /\ b <> 32) bs ->
  plus_for_space ((bs ≫= percent) ++ r) = (bs ≫= percent) ++ plus_for_space r.
Proof.
  induction 1 as [|b bs [Hb Hn] _ IH]; [done|]. cbn [mbind list_bind]. rewrite <- !app_assoc.
  rewrite plus_percent by done. by rewrite <- IH.
Qed.

Lemma unplus_id s : Forall (fun c => c <> 43) s -> space_for_plus s = s.
Proof.
  induction 1 as [|c s Hc _ IH]; [done|]. unfold space_for_plus in *. rewrite fmap_cons, IH. by destruct (Z.eqb_spec c 43).
Qed.

Lemma unplus_app s t : space_for_plus (s ++ t) = space_for_plus s ++ space_for_plus t.
Proof. apply fmap_app. Qed.

Lemma escapes_no_plus bs : Forall (fun b => 0 <= b < 256) bs -> Forall (fun c => c <> 43) (bs ≫= percent).
Proof.
  induction 1 as [|b bs Hb _ IH]; [constructor|]. cbn [mbind list_bind]. apply Forall_app. split; [|done].
  destruct (percent_parts b Hb) as (x & y & -> & Hx & Hy & _). repeat constructor; lia.
Qed.

(** A scalar value that is no space is written without the byte of a space. *)
Lemma utf8_ref_no_space cp : scalar cp -> cp <> 32 -> Forall (fun b => 0 <= b < 256 /\ b <> 32) (utf8_ref cp).
Proof.
  intros [Hs _] Hn. unfold utf8_ref. destr_cmp; repeat constructor; try lia; Z.div_mod_to_equations; lia.
Qed.

(** The value of a field is read back. *)
Lemma form_value_roundtrip s : wf16 s = true -> exists e, encodeURIComponent s = inr e /\
  decodeURIComponent (space_for_plus (plus_for_space e)) = inr s /\
  Forall (fun c => c <> 38 /\ c <> 61) (plus_for_space e).
Proof.
  intros (cps & HF & ->)%wf16_scalars. induction HF as [|cp cps Hs _ (e & He & Hd & HF)]; [by exists []|].
  cbn [mbind list_bind]. rewrite encode_scalar, He by done. eexists. split; [done|].
  destruct (unreserved cp) eqn:Hu.
  - destruct (unreserved_plain cp Hu) as (H1 & H2 & H3 & H4). cbn [app]. rewrite plus_plain by done.
    assert (H5 : cp <> 43) by (intros ->; by vm_compute in Hu).
    split; [|by constructor]. unfold space_for_plus. rewrite fmap_cons. fold (space_for_plus (plus_for_space e)).
    destruct (Z.eqb_spec cp 43); [done|]. unfold decodeURIComponent at 1. cbn [length]. rewrite decode_plain by done.
    rewrite decode_any_fuel by lia. rewrite Hd. unfold utf16. destr_cmp; [done|lia].
  - destruct (decide (cp = 32)) as [->|Hn].
    + change (plus_for_space ((utf8_ref 32 ≫= percent) ++ e)) with (43 :: plus_for_space e).
      split; [|by constructor]. unfold space_for_plus. rewrite fmap_cons. fold (space_for_plus (plus_for_space e)).
      change (if 43 =? 43 then 32 else 43) with 32. unfold decodeURIComponent at 1. cbn [length]. rewrite decode_plain by done.
      rewrite decode_any_fuel by lia. by rewrite Hd.
    + pose proof (utf8_ref_no_space cp Hs Hn) as Hb. assert (Hb' : Forall (fun b => 0 <= b < 256) (utf8_ref cp)).
      { eapply list.Forall_impl; [exact Hb|]. by intros b [? _]. }
      rewrite plus_escapes by done. rewrite unplus_app, (unplus_id (utf8_ref cp ≫= percent)) by (by apply escapes_no_plus). split.
      * rewrite <- (decode_any_fuel (S (S (length ((utf8_ref cp ≫= percent) ++ space_for_plus (plus_for_space e)))))) by lia.
        rewrite decode_scalar by done. rewrite decode_any_fuel by (rewrite length_app; lia). by rewrite Hd.
      * apply Forall_app. split; [|done]. apply Forall_bind. rewrite list.Forall_forall in Hb'. intros b Hb2%Hb'.
        destruct (percent_parts b Hb2) as (x & y & -> & Hx & Hy & _). repeat constructor; lia.
Qed.

(** ** The form *)

Definition plain_name (k : jsstr) : Prop := Forall (fun c => c <> 38 /\ c <> 61) k.
Definition form_entry_ok (p : jsstr * option jsstr) : Prop :=
  plain_name (fst p) /\ match snd p with Some v => wf16 v = true | None => True end.

(** The fields that are sent, in the order of [for in]. *)
Definition sent_fields (data : list (jsstr * option jsstr)) : list (jsstr * jsstr) :=
  obj_keys data ≫= (fun k => match assoc k data with Some (Some (c :: v)) => [(k, c :: v)] | _ => [] end).

Lemma form_part k e v : plain_name k -> Forall (fun c => c <> 38 /\ c <> 61) e ->
  decodeURIComponent (space_for_plus e) = inr v ->
  form_field (k ++ 61 :: e) = inr (k, v) /\ Forall (fun c => c <> 38) (k ++ 61 :: e).
Proof.
  intros Hk He Hd. apply list.Forall_and in Hk as [K1 K2], He as [E1 E2]. split.
  - unfold form_field. rewrite split_app, split_no_sep by done. cbv zeta.
    change (default [] ([k; e] !! 1%nat)) with e. change (default [] ([k; e] !! 0%nat)) with k. by rewrite Hd.
  - apply Forall_app. split; [done|]. by constructor.
Qed.

Lemma form_keys data ks : Forall form_entry_ok data -> NoDup (fst <$> data) -> Forall (fun k => k ∈ fst <$> data) ks ->
  exists parts, traverse (fun k =>
    match assoc k data with
    | Some (Some (c :: v)) => let? ev := encodeURIComponent (c :: v) in inr [k ++ 61 :: plus_for_space ev]
    | _ => inr []
    end) ks = inr parts /\
    Forall2 (fun kv part => form_field part = inr kv /\ Forall (fun c => c <> 38) part /\ part <> [])
      (ks ≫= (fun k => match assoc k data with Some (Some (c :: v)) => [(k, c :: v)] | _ => [] end)) (List.concat parts).
Proof.
  intros HF Hnd Hks. induction Hks as [|k ks Hk _ (parts & Ep & IH)]; [exists []; split; [done|constructor]|].
  cbn [traverse mbind list_bind]. rewrite Ep. apply list_elem_of_fmap in Hk as ([k' o] & -> & Hin). cbn [fst].
  rewrite (assoc_in k' o) by done. rewrite list.Forall_forall in HF. destruct (HF _ Hin) as [Hn Hv]. cbn [fst snd] in *.
  destruct o as [[|c v]|]; cbn [rbind].
  - exists ([] :: parts). split; [done|]. exact IH.
  - destruct (form_value_roundtrip (c :: v) Hv) as (e & -> & Hd & He). cbn [rbind].
    destruct (form_part k' (plus_for_space e) (c :: v) Hn He Hd) as [P1 P2].
    eexists. split; [done|]. cbn [List.concat app]. constructor; [|exact IH]. split; [done|]. split; [done|].
    by destruct k'.
  - exists ([] :: parts). split; [done|]. exact IH.
Qed.

Lemma traverse_forall2 {A B} (f : A -> js_error + B) l l' : Forall2 (fun y x => f x = inr y) l' l -> traverse f l = inr l'.
Proof. induction 1 as [|y x l' l E _ IH]; [done|]. cbn [traverse]. rewrite E. cbn [rbind]. by rewrite IH. Qed.

Lemma form_roundtrip data : Forall form_entry_ok data -> NoDup (fst <$> data) ->
  exists body, buildFormData data = inr body /\ form_fields body = inr (sent_fields data).
Proof.
  intros HF Hnd. destruct (form_keys data (obj_keys data) HF Hnd) as (parts & Ep & H2).
  { apply list.Forall_forall. intros k Hk. by rewrite <- obj_keys_permutation. }
  unfold buildFormData. rewrite Ep. cbn [rbind]. eexists. split; [done|].
  change (Forall2 (fun kv part => form_field part = inr kv /\ Forall (fun c => c <> 38) part /\ part <> [])
    (sent_fields data) (List.concat parts)) in H2.
  assert (Ht : traverse form_field (List.concat parts) = inr (sent_fields data)).
  { apply traverse_forall2. eapply list.Forall2_impl; [exact H2|]. by intros ? ? [? _]. }
  destruct (List.concat parts) as [|p ps] eqn:Ec; [done|].
  assert (Hj : split_unit 38 (join_unit 38 (p :: ps)) = p :: ps).
  { apply split_join; [done|]. rewrite <- Ec in H2 |- *. clear -H2. induction H2 as [|kv q l l' (_ & Hq & _) _ IH]; constructor; done. }
  unfold form_fields. destruct (join_unit 38 (p :: ps)) as [|c s] eqn:Ej; [|by rewrite Hj].
  exfalso. inversion H2 as [|kv q l l' (_ & _ & Hq)]; subst. destruct ps as [|p2 ps]; [done|].
  change (join_unit 38 (p :: p2 :: ps)) with (p ++ 38 :: join_unit 38 (p2 :: ps)) in Ej. by destruct p.
Qed.

(** ** The password flow *)

(** A text the request can carry. *)
Definition text_ok (o : option jsstr) : Prop := match o with Some v => wf16 v = true /\ slen v < 2 ^ 27 | None => True end.

Lemma wf16_app s t : wf16 s = true -> wf16 t = true -> wf16 (s ++ t) = true.
Proof.
  revert t. induction s as [s IH] using (induction_ltof1 _ (@length Z)); intros t Hs Ht; unfold ltof in IH.
  destruct s as [|c s]; [done|]. cbn [app wf16] in *. destruct (is_lead c).
  - destruct s as [|d s]; [done|]. cbn [app]. apply andb_true_iff in Hs as [E Hs]. rewrite E. cbn [andb]. apply IH; [simpl; lia|done..].
  - apply andb_true_iff in Hs as [E Hs]. rewrite E. cbn [andb]. apply IH; [simpl; lia|done..].
Qed.

(** The header is the Basic one of [user] and [password]. *)
Definition carries (headers : list (jsstr * jsstr)) (user password : jsstr) : Prop :=
  exists x bs, headers = [(js "Authorization", js "Basic " ++ x)] /\
    base64ToBytes x = inr bs /\ decode Utf8 bs = user ++ 58 :: password.

Lemma authorization_carries u p : text_ok u -> text_ok p ->
  exists headers, authorization u p = inr headers /\ carries headers (or_undefined_text u) (or_undefined_text p).
Proof.
  intros Hu Hp. set (a := or_undefined_text u). set (b := or_undefined_text p).
  assert (Ha : wf16 a = true /\ slen a < 2 ^ 27) by (subst a; destruct u; [done|by vm_compute]).
  assert (Hb : wf16 b = true /\ slen b < 2 ^ 27) by (subst b; destruct p; [done|by vm_compute]).
  destruct (btoa_spec (a ++ 58 :: b)) as (x & bs & Ex & Eb & Ed & _).
  - apply wf16_app; [apply Ha|]. change (58 :: b) with ([58] ++ b). apply wf16_app; [done|apply Hb].
  - unfold slen in *. rewrite length_app. simpl length. lia.
  - unfold authorization, basic_header. fold a b. rewrite Ex. eexists. split; [done|]. by exists x, bs.
Qed.

Lemma form_sent data : Forall form_entry_ok data -> bool_decide (NoDup (fst <$> data)) = true ->
  exists body, buildFormData data = inr body /\ form_fields body = inr (sent_fields data).
Proof. intros HF Hn. apply form_roundtrip; [done|]. by apply bool_decide_eq_true in Hn. Qed.

Lemma entry_text (k : jsstr) o : bool_decide (plain_name k) = true -> text_ok o -> form_entry_ok (k, o).
Proof. intros Hk Ho. split; [by apply bool_decide_eq_true in Hk|]. destruct o; [apply Ho|done]. Qed.

(** C16: The token request of the password flow carries the credentials as typed, and each pair
    in one place: with type "basic" the user's in the Basic header and only the grant in
    the form; with "query" the user's in the form and the client's in the query; otherwise
    the user's in the form and the client's in the header.  A form is read by the rules of its
    media type; empty fields are left out. *)
Theorem password_flow_credentials auth :
  text_ok (o_username auth) -> text_ok (o_password auth) -> text_ok (o_clientId auth) -> text_ok (o_clientSecret auth) ->
  text_ok (Some (join_unit 32 (o_scopes auth))) ->
  let grant := (js "grant_type", js "password") :: when_given (js "scope") (Some (join_unit 32 (o_scopes auth))) in
  let user := when_given (js "username") (o_username auth) ++ when_given (js "password") (o_password auth) in
  exists r, authorizePassword auth = inr r /\
    if bool_decide (o_passwordType auth = Some (js "basic")) then
      carries (r_headers r) (or_undefined_text (o_username auth)) (or_undefined_text (o_password auth)) /\
      form_fields (r_body r) = inr grant /\ r_query r = []
    else if bool_decide (o_passwordType auth = Some (js "query")) then
      r_headers r = [] /\ form_fields (r_body r) = inr (grant ++ user) /\
      r_query r = when_given (js "client_id") (o_clientId auth) ++ when_given (js "client_secret") (o_clientSecret auth)
    else
      carries (r_headers r) (or_undefined_text (o_clientId auth)) (or_undefined_text (o_clientSecret auth)) /\
      form_fields (r_body r) = inr (grant ++ user) /\ r_query r = [].
Proof.
  intros Hu Hp Hi Hc Hs. cbv zeta. unfold authorizePassword. set (scope := join_unit 32 (o_scopes auth)) in *.
  assert (Hg : text_ok (Some (js "password"))) by done.
  destruct (form_sent [(js "grant_type", Some (js "password")); (js "scope", Some scope)]) as (b1 & E1 & F1).
  { repeat apply Forall_cons; try (apply entry_text; done). constructor. } { by vm_compute. }
  destruct (form_sent ([(js "grant_type", Some (js "password")); (js "scope", Some scope)] ++
    [(js "username", o_username auth); (js "password", o_password auth)])) as (b2 & E2 & F2).
  { repeat apply Forall_cons; try (apply entry_text; done). constructor. } { by vm_compute. }
  destruct (authorization_carries _ _ Hu Hp) as (h1 & A1 & C1), (authorization_carries _ _ Hi Hc) as (h2 & A2 & C2).
  case_bool_decide as B1; [|case_bool_decide as B2].
  - rewrite A1. cbn [rbind]. rewrite E1. cbn [rbind]. eexists. split; [done|]. cbn [r_headers r_body r_query].
    split; [done|]. split; [|done]. rewrite F1. by destruct scope.
  - cbn [rbind]. rewrite E2. cbn [rbind]. eexists. split; [done|]. cbn [r_headers r_body r_query].
    split; [done|]. split; [|done]. rewrite F2. by destruct scope, (o_username auth) as [[]|], (o_password auth) as [[]|].
  - rewrite A2. cbn [rbind]. rewrite E2. cbn [rbind]. eexists. split; [done|]. cbn [r_headers r_body r_query].
    split; [done|]. split; [|done]. rewrite F2. by destruct scope, (o_username auth) as [[]|], (o_password auth) as [[]|].
Qed.

Lemma password_flow_credentials_witness :
  let auth := {| o_name := js "oauth"; o_tokenUrl := JStr (js "/token"); o_scopes := [js "read"; js "write"]; o_code := None;
                 o_username := Some (js "ann"); o_password := Some (js "a b&c"); o_passwordType := Some (js "query");
                 o_clientId := Some (js "id"); o_clientSecret := None |} in
  exists r, authorizePassword auth = inr r /\ r_headers r = [] /\
    form_fields (r_body r) = inr [(js "grant_type", js "password"); (js "scope", js "read write");
                                  (js "username", js "ann"); (js "password", js "a b&c")] /\
    r_query r = [(js "client_id", js "id")].
Proof. apply (password_flow_credentials {| o_name := js "oauth"; o_tokenUrl := JStr (js "/token");
  o_scopes := [js "read"; js "write"]; o_code := None; o_username := Some (js "ann"); o_password := Some (js "a b&c");
  o_passwordType := Some (js "query"); o_clientId := Some (js "id"); o_clientSecret := None |}); by vm_compute. Defined.
