(* ===== verification/SuiSample.v ===== *)
(** Swagger UI: example values from a schema ([sampleFromSchema] of the samples plugin) and
    [deeplyStripKey] of core/utils.js, on the JSON data a schema is. *)
From S2P Require Import Prelude JsString JsNumber YamlValue SuiUrl SuiImm SuiSpec SuiErr.

(** ** Results: out of fuel, an exception, or a value *)

Definition res (A : Type) : Type := option (js_error + A).
Definition sret {A} (a : A) : res A := Some (inr a).
Definition sbind {A B} (m : res A) (k : A -> res B) : res B :=
  match m with Some (inr a) => k a | Some (inl e) => Some (inl e) | None => None end.

Fixpoint smap {A B} (f : A -> res B) (l : list A) : res (list B) :=
  match l with
  | [] => sret []
  | x :: l' => sbind (f x) (fun y => sbind (smap f l') (fun ys => sret (y :: ys)))
  end.

(** ** Helpers of core/utils.js *)

Definition objectify (thing : jv) : jv :=
  if is_object thing then (if is_immutable thing then toJS thing else thing) else JObj [].

Definition normalizeArray (v : jv) : list jv := match v with JArr l => l | _ => [v] end.

(** [v.k] of a value that is neither undefined nor null; only plain objects have such
    properties. *)
Definition field_of (v : jv) (k : jsstr) : jv := match v with JObj ps => default JUndef (assoc k ps) | _ => JUndef end.

Definition contains_hash (v : jv) : bool := match v with JStr s => bool_decide (35 ∈ s) | _ => false end.

(** [deeplyStripKey(input, "$$ref", val => typeof val === "string" && val.indexOf("#") > -1)]:
    objects at every depth, but not inside arrays. *)
Fixpoint deeplyStripKey (input : jv) : jv :=
  match input with
  | JObj ps =>
      JObj (in_key_order ((fix go (ps : list (jsstr * jv)) : list (jsstr * jv) :=
        match ps with
        | [] => []
        | (k, x) :: ps' =>
            if bool_decide (k = js "$$ref") && contains_hash x then go ps' else (k, deeplyStripKey x) :: go ps'
        end) ps))
  | v => v
  end.

Section Sample.
Context `{Host}.

(** [(new Date).toISOString()] *)
Context (now : jsstr).

(** [type] names no property of Object.prototype. *)
Definition primitive (schema : jv) : jv :=
  let schema := objectify schema in
  let type := js_string (field_of schema (js "type")) in
  let name := type ++ 95 :: js_string (field_of schema (js "format")) in
  if bool_decide (name = js "string_email") then JStr (js "user@example.com")
  else if bool_decide (name = js "string_date-time") then JStr now
  else if bool_decide (name = js "number_float") then JNum (Zero false)
  else if bool_decide (type = js "string") then JStr (js "string")
  else if bool_decide (type = js "string_email") then JStr (js "user@example.com")
  else if bool_decide (type = js "string_date-time") then JStr now
  else if bool_decide (type ∈ js <$> ["number"; "number_float"; "integer"]%string) then JNum (Zero false)
  else if bool_decide (type = js "boolean") then
    match field_of schema (js "default") with JBool b => JBool b | _ => JBool true end
  else JStr (js "Unknown Type: " ++ type).

Record config := { includeReadOnly : bool; includeWriteOnly : bool }.

(** Properties that are left out. *)
Definition hidden (c : config) (p : jv) : bool :=
  truthy p && (truthy (field_of p (js "deprecated")) ||
    (truthy (field_of p (js "readOnly")) && negb (includeReadOnly c)) ||
    (truthy (field_of p (js "writeOnly")) && negb (includeWriteOnly c))).

(** The type, inferred where it is missing; [None] returns undefined. *)
Definition sample_type (o : jv) : option jv :=
  let type := field_of o (js "type") in
  if truthy type then Some type
  else if truthy (field_of o (js "properties")) then Some (JStr (js "object"))
  else if truthy (field_of o (js "items")) then Some (JStr (js "array"))
  else None.

Definition additionalProp (i : nat) : jsstr := js "additionalProp" ++ digits 10 (Z.of_nat i).

Fixpoint sampleFromSchema (fuel : nat) (schema : jv) (c : config) : res jv :=
  match fuel with
  | O => None
  | S fuel' =>
      let o := objectify schema in
      let example := field_of o (js "example") in
      match example with
      | JUndef =>
          match sample_type o with
          | None => sret JUndef
          | Some type =>
              if is_str type (js "object") then
                let props := own_enumerable (objectify (field_of o (js "properties"))) in
                sbind (smap (fun p => sbind (sampleFromSchema fuel' (snd p) c) (fun v => sret (fst p, v)))
                         (base.filter (fun p => hidden c (snd p) = false) props))
                  (fun samples =>
                     let obj := foldl (fun acc p => set_prop (fst p) (snd p) acc) [] samples in
                     match field_of o (js "additionalProperties") with
                     | JBool true => sret (JObj (put (additionalProp 1) (JObj []) obj))
                     | ap =>
                         if truthy ap then
                           sbind (sampleFromSchema fuel' (objectify ap) c) (fun v =>
                             sret (JObj (put (additionalProp 3) v (put (additionalProp 2) v (put (additionalProp 1) v obj)))))
                         else sret (JObj obj)
                     end)
              else if is_str type (js "array") then
                match field_of o (js "items") with
                | JUndef | JNull => Some (inl (TypeError "Cannot read property 'anyOf' of undefined"))
                | items =>
                    match field_of items (js "anyOf"), field_of items (js "oneOf") with
                    | JArr l, _ | _, JArr l =>
                        sbind (smap (fun i => sampleFromSchema fuel' i c) l) (fun l => sret (JArr l))
                    | _, _ => sbind (sampleFromSchema fuel' items c) (fun v => sret (JArr [v]))
                    end
                end
              else if truthy (field_of schema (js "enum")) then
                if truthy (field_of schema (js "default")) then sret (field_of schema (js "default"))
                else sret (default JUndef (head (normalizeArray (field_of schema (js "enum")))))
              else if is_str type (js "file") then sret JUndef
              else sret (primitive schema)
          end
      | _ => sret (deeplyStripKey example)
      end
  end.
End Sample.
