(* ===== verification/SuiSampleLaws.v ===== *)
(** Swagger UI: generating an example ends for every schema, and the example has the type the
    schema asks for. *)
From S2P Require Import Prelude JsString JsNumber YamlValue SuiUrl SuiImm SuiSpec SuiErr SuiSample.

(** ** Size *)

Fixpoint jv_size (v : jv) : nat :=
  match v with
  | JArr l | IList l => S (list_sum (map jv_size l))
  | JObj ps | IMap _ ps => S (list_sum (map (fun p => match p with (_, x) => jv_size x end) ps))
  | _ => 1
  end.

Lemma list_sum_in l x : x ∈ l -> (x <= list_sum l)%nat.
Proof. induction l as [|y l IH]; [by intros ?%not_elem_of_nil|]. intros [->|Hx]%elem_of_cons; cbn [list_sum foldr]; [lia|]. specialize (IH Hx). unfold list_sum in *. lia. Qed.

Lemma size_pos v : (1 <= jv_size v)%nat.
Proof. destruct v; cbn [jv_size]; lia. Qed.

Lemma size_entry k x ps : assoc k ps = Some x -> (jv_size x < jv_size (JObj ps))%nat.
Proof.
  intros E. cbn [jv_size]. apply le_n_S, list_sum_in. induction ps as [|[k' y] ps IH]; [done|]. cbn [assoc] in E. cbn [map].
  case_bool_decide; [injection E as ->; left|right; auto].
Qed.

Lemma size_item x l : x ∈ l -> (jv_size x < jv_size (JArr l))%nat.
Proof.
  intros Hx. cbn [jv_size]. apply le_n_S, list_sum_in. change (map jv_size l) with (jv_size <$> l). by apply list_elem_of_fmap_2.
Qed.

(** A property that is there is smaller. *)
Lemma size_field v k : field_of v k <> JUndef -> (jv_size (field_of v k) < jv_size v)%nat.
Proof.
  destruct v; cbn [field_of]; try done. destruct (assoc k ps) as [x|] eqn:E; [|done]. intros _. by apply size_entry in E.
Qed.

(** Nested induction on values. *)
Lemma jv_nested (P : jv -> Prop) :
  P JUndef -> P JNull -> (forall b, P (JBool b)) -> (forall x, P (JNum x)) -> (forall s, P (JStr s)) ->
  (forall l, Forall P l -> P (JArr l)) -> (forall ps, Forall (fun p => P (snd p)) ps -> P (JObj ps)) ->
  (forall id, P (JFun id)) -> (forall id, P (JHost id)) ->
  (forall l, Forall P l -> P (IList l)) -> (forall o ps, Forall (fun p => P (snd p)) ps -> P (IMap o ps)) ->
  forall v, P v.
Proof.
  intros H1 H2 H3 H4 H5 H6 H7 H8 H9 H10 H11. fix IH 1.
  assert (HL : forall l, Forall P l) by (intros l; induction l; constructor; [apply IH|done]).
  assert (HP : forall ps : list (jsstr * jv), Forall (fun p => P (snd p)) ps)
    by (intros ps; induction ps as [|[k x] ps]; constructor; [apply IH|done]).
  intros v; destruct v; [apply H1|apply H2|apply H3|apply H4|apply H5|apply H6, HL|apply H7, HP|apply H8|apply H9|apply H10, HL|apply H11, HP].
Qed.

Lemma sum_ext {A B} (f : A -> nat) (g : B -> nat) (h : A -> B) l :
  Forall (fun x => g (h x) = f x) l -> list_sum (map g (map h l)) = list_sum (map f l).
Proof. induction 1 as [|x l E _ IH]; [done|]. cbn [map list_sum foldr]. unfold list_sum in *. congruence. Qed.

Lemma size_toJS v : jv_size (toJS v) = jv_size v.
Proof.
  induction v as [| | | | | | | | |l HF|o ps HF] using jv_nested; try done; cbn [toJS jv_size]; f_equal.
  - by apply sum_ext.
  - apply sum_ext. eapply list.Forall_impl; [exact HF|]. by intros [k x].
Qed.

Lemma size_objectify v : (jv_size (objectify v) <= jv_size v)%nat.
Proof.
  unfold objectify. destruct (is_object v); [|apply size_pos]. destruct (is_immutable v); [by rewrite size_toJS|done].
Qed.

Lemma objectify_plain v : is_immutable (objectify v) = false /\ forall s, objectify v <> JStr s.
Proof.
  unfold objectify. destruct (is_object v) eqn:E; [|by split]. destruct (is_immutable v) eqn:Ei; [by destruct v|]. by destruct v.
Qed.

(** The own properties of an object are smaller than it. *)
Lemma size_own v p : (forall s, v <> JStr s) -> p ∈ own_enumerable v -> (jv_size (snd p) < jv_size v)%nat.
Proof.
  intros Hs Hp. destruct v; cbn [own_enumerable] in Hp; try by apply not_elem_of_nil in Hp.
  - by destruct (Hs s).
  - apply list_elem_of_lookup in Hp as [i Hi]. rewrite list_lookup_imap in Hi. destruct (l !! i) as [x|] eqn:E; [|done].
    injection Hi as <-. cbn [snd]. apply size_item. by eapply list_elem_of_lookup_2.
  - unfold in_key_order in Hp. apply list_elem_of_fmap in Hp as (k & -> & Hk). cbn [snd]. rewrite obj_keys_permutation in Hk.
    apply assoc_elem in Hk. destruct (assoc k ps) eqn:E; [|done]. by apply size_entry in E.
Qed.

(** What is in a part of the schema is smaller than the schema. *)
Lemma size_sub o k p : p ∈ own_enumerable (objectify (field_of o k)) -> (jv_size (snd p) < jv_size o)%nat.
Proof.
  intros Hp. assert (Hd : field_of o k = JUndef \/ field_of o k <> JUndef) by (destruct (field_of o k); auto).
  destruct Hd as [E|Hne]; [rewrite E in Hp; by apply not_elem_of_nil in Hp|].
  pose proof (size_own _ _ (proj2 (objectify_plain _)) Hp). pose proof (size_objectify (field_of o k)).
  pose proof (size_field o k Hne). lia.
Qed.

(** ** Termination *)

Lemma smap_total {A B} (f : A -> res B) l : (forall x, x ∈ l -> f x <> None) -> smap f l <> None.
Proof.
  induction l as [|x l IH]; intros Hf; [done|]. cbn [smap]. specialize (Hf x (list_elem_of_here _ _)) as Hx.
  destruct (f x) as [[|y]|]; [done| |done]. cbn [sbind]. specialize (IH (fun z Hz => Hf z (list_elem_of_further _ _ _ Hz))).
  by destruct (smap f l) as [[]|].
Qed.
Lemma sbind_total {A B} (m : res A) (k : A -> res B) : m <> None -> (forall a, k a <> None) -> sbind m k <> None.
Proof. intros Hm Hk. destruct m as [[|a]|]; [done|apply Hk|done]. Qed.

Section Laws.
Context `{Host} (now : jsstr).

(** C28: Generating an example ends for every schema: the depth of recursion is bounded by
    the size of the schema, whatever the schema holds. *)
Theorem sample_terminates fuel schema c : (jv_size schema <= fuel)%nat -> sampleFromSchema now fuel schema c <> None.
Proof.
  revert schema. induction fuel as [|fuel IH]; intros schema Hf; [pose proof (size_pos schema); lia|].
  cbn [sampleFromSchema]. cbv zeta. set (o := objectify schema).
  assert (Ho : (jv_size o <= jv_size schema)%nat) by apply size_objectify.
  assert (Hdone : forall x, (jv_size x < jv_size o)%nat -> sampleFromSchema now fuel x c <> None) by (intros x Hx; apply IH; lia).
  destruct (field_of o (js "example")); try done. destruct (sample_type o) as [type|]; [|done].
  destruct (is_str type (js "object")); [|destruct (is_str type (js "array"))].
  - apply sbind_total.
    + apply smap_total. intros p [_ Hp]%list_elem_of_filter. apply sbind_total; [|done]. apply Hdone.
      by apply (size_sub o (js "properties")).
    + intros samples. assert (Hap : forall v, truthy v = true -> field_of o (js "additionalProperties") = v ->
        sampleFromSchema now fuel (objectify v) c <> None).
      { intros v Hv Ev. apply Hdone. pose proof (size_objectify v). pose proof (size_field o (js "additionalProperties")) as Hs.
        rewrite Ev in Hs. assert (Hv' : v <> JUndef) by (by intros ->). specialize (Hs Hv'). lia. }
      destruct (field_of o (js "additionalProperties")) as [| |[]|x|s|l|ps|id|id|l|oo ps] eqn:Eap; try done;
        destruct (truthy _) eqn:Et; try done; (apply sbind_total; [by apply Hap|done]).
  - destruct (field_of o (js "items")) as [| |b|x|s|l|ps|id|id|l|oo ps] eqn:Ei; try done.
    all: assert (Hi : (jv_size (field_of o (js "items")) < jv_size o)%nat) by (apply size_field; by rewrite Ei); rewrite Ei in Hi.
    all: try (apply sbind_total; [by apply Hdone|done]).
    assert (Hlist : forall k l, field_of (JObj ps) k = JArr l ->
      sbind (smap (fun i => sampleFromSchema now fuel i c) l) (fun l => sret (JArr l)) <> None).
    { intros k l El. apply sbind_total; [|done]. apply smap_total. intros x Hx. apply Hdone. apply size_item in Hx.
      pose proof (size_field (JObj ps) k) as Hs. rewrite El in Hs. specialize (Hs ltac:(done)). lia. }
    destruct (field_of (JObj ps) (js "anyOf")) eqn:E1; try (by eapply Hlist);
      (destruct (field_of (JObj ps) (js "oneOf")) eqn:E2; try (by eapply Hlist)); (apply sbind_total; [by apply Hdone|done]).
  - destruct (truthy _); [by destruct (truthy _)|]. by destruct (is_str type (js "file")).
Qed.

End Laws.

(** ** Examples have the type of the schema *)

Record flags := { deprecated : bool; readOnly : bool; writeOnly : bool }.

(** Schemas of JSON data with a type everywhere. *)
Inductive sch := SStr | SNum | SInt | SBool | SArr (s : sch) | SObj (ps : list (jsstr * (flags * sch))).

Definition flag_fields (f : flags) : list (jsstr * jv) :=
  (if deprecated f then [(js "deprecated", JBool true)] else []) ++
  (if readOnly f then [(js "readOnly", JBool true)] else []) ++
  (if writeOnly f then [(js "writeOnly", JBool true)] else []).

Fixpoint sch_fields (s : sch) : list (jsstr * jv) :=
  match s with
  | SStr => [(js "type", JStr (js "string"))]
  | SNum => [(js "type", JStr (js "number"))]
  | SInt => [(js "type", JStr (js "integer"))]
  | SBool => [(js "type", JStr (js "boolean"))]
  | SArr s => [(js "type", JStr (js "array")); (js "items", JObj (sch_fields s))]
  | SObj ps => [(js "type", JStr (js "object"));
      (js "properties", JObj (map (fun p => match p with (k, (f, s)) => (k, JObj (sch_fields s ++ flag_fields f)) end) ps))]
  end.

Definition prop_schema (f : flags) (s : sch) : jv := JObj (sch_fields s ++ flag_fields f).

Definition visible (c : config) (f : flags) : bool :=
  negb (deprecated f || readOnly f && negb (includeReadOnly c) || writeOnly f && negb (includeWriteOnly c)).

(** The value has the type of the schema; an object has exactly the properties that are not
    hidden. *)
Fixpoint valid (c : config) (s : sch) (v : jv) : Prop :=
  match s with
  | SStr => exists t, v = JStr t
  | SNum | SInt => exists x, v = JNum x
  | SBool => exists b, v = JBool b
  | SArr s => exists x, v = JArr [x] /\ valid c s x
  | SObj ps => exists os, v = JObj os /\
      (fix all (ps : list (jsstr * (flags * sch))) : Prop :=
        match ps with
        | [] => True
        | (k, (f, s)) :: ps' =>
            (if visible c f then exists x, assoc k os = Some x /\ valid c s x else assoc k os = None) /\ all ps'
        end) ps /\
      forall k, assoc k os <> None -> k ∈ fst <$> ps
  end.

(** The names of the properties of an object are different. *)
Fixpoint sch_ok (s : sch) : Prop :=
  match s with
  | SArr s => sch_ok s
  | SObj ps => NoDup (fst <$> ps) /\ Forall (fun k => k <> js "__proto__") (fst <$> ps) /\
      (fix all (ps : list (jsstr * (flags * sch))) : Prop :=
        match ps with [] => True | (_, (_, s)) :: ps' => sch_ok s /\ all ps' end) ps
  | _ => True
  end.

Lemma sch_nested (P : sch -> Prop) : P SStr -> P SNum -> P SInt -> P SBool -> (forall s, P s -> P (SArr s)) ->
  (forall ps, Forall (fun p => P (snd (snd p))) ps -> P (SObj ps)) -> forall s, P s.
Proof.
  intros H1 H2 H3 H4 H5 H6. fix IH 1. intros s; destruct s; [apply H1|apply H2|apply H3|apply H4|apply H5, IH|].
  apply H6. induction ps as [|[k [f s]] ps IHps]; constructor; [apply IH|exact IHps].
Qed.

Lemma sch_ok_props ps : sch_ok (SObj ps) -> Forall (fun p => sch_ok (snd (snd p))) ps.
Proof. intros (_ & _ & Ha). induction ps as [|[k [f s]] ps IH]; constructor; [apply Ha|apply IH, Ha]. Qed.

Lemma valid_props c os ps : (forall k f s, (k, (f, s)) ∈ ps ->
    if visible c f then exists x, assoc k os = Some x /\ valid c s x else assoc k os = None) ->
  (forall k, assoc k os <> None -> k ∈ fst <$> ps) -> valid c (SObj ps) (JObj os).
Proof.
  intros Hall Hk. exists os. split; [done|]. split; [|done]. clear Hk. induction ps as [|[k [f s]] ps IH]; [done|].
  split; [apply Hall; left|]. apply IH. intros k' f' s' Hin. apply Hall. by right.
Qed.

(** ** Reading such a schema *)

Lemma assoc_app {A} k (l l' : list (jsstr * A)) : assoc k (l ++ l') = first_of (assoc k l) (assoc k l').
Proof. induction l as [|[k' x] l IH]; [done|]. cbn [app assoc]. by case_bool_decide. Qed.

Lemma flag_other f k : k <> js "deprecated" -> k <> js "readOnly" -> k <> js "writeOnly" -> assoc k (flag_fields f) = None.
Proof.
  intros H1 H2 H3. unfold flag_fields. destruct f as [[] [] []]; cbn [deprecated readOnly writeOnly app assoc];
    rewrite ?bool_decide_eq_false_2 by done; done.
Qed.

Lemma field_prop f s k : k <> js "deprecated" -> k <> js "readOnly" -> k <> js "writeOnly" ->
  field_of (prop_schema f s) k = default JUndef (assoc k (sch_fields s)).
Proof. intros H1 H2 H3. cbn [field_of prop_schema]. rewrite assoc_app, flag_other by done. by destruct (assoc k _). Qed.

Lemma hidden_prop c f s : hidden c (prop_schema f s) = negb (visible c f).
Proof.
  unfold hidden, visible, prop_schema. rewrite negb_involutive. cbn [truthy andb field_of].
  assert (Hk : forall k, k ∈ [js "deprecated"; js "readOnly"; js "writeOnly"] -> assoc k (sch_fields s) = None).
  { intros k [->|[->|[->|[]%not_elem_of_nil]%elem_of_cons]%elem_of_cons]%elem_of_cons; by destruct s. }
  rewrite !assoc_app, !Hk by (repeat (left || right)). by destruct f as [[] [] []].
Qed.

Lemma smap_spec {A B} (f : A -> res B) (Q : A -> B -> Prop) l :
  (forall x, x ∈ l -> exists y, f x = sret y /\ Q x y) -> exists ys, smap f l = sret ys /\ Forall2 Q l ys.
Proof.
  induction l as [|x l IH]; intros Hf; [exists []; by split; [|constructor]|].
  destruct (Hf x (list_elem_of_here _ _)) as (y & Ey & Qy).
  destruct (IH (fun z Hz => Hf z (list_elem_of_further _ _ _ Hz))) as (ys & Es & Qs).
  exists (y :: ys). cbn [smap]. rewrite Ey. cbn [sbind sret]. rewrite Es. by split; [|constructor].
Qed.

Definition schema_entries (ps : list (jsstr * (flags * sch))) : list (jsstr * jv) :=
  map (fun p => match p with (k, (f, s)) => (k, JObj (sch_fields s ++ flag_fields f)) end) ps.

Lemma schema_entries_keys ps : fst <$> schema_entries ps = fst <$> ps.
Proof. induction ps as [|[k [f s]] ps IH]; [done|]. cbn [schema_entries map]. rewrite !fmap_cons. by rewrite <- IH. Qed.

Lemma in_schema_entries ps p : NoDup (fst <$> ps) -> p ∈ in_key_order (schema_entries ps) <->
  exists k f s, (k, (f, s)) ∈ ps /\ p = (k, prop_schema f s).
Proof.
  intros Hnd. assert (Hin : forall k f s, (k, (f, s)) ∈ ps -> assoc k (schema_entries ps) = Some (prop_schema f s)).
  { intros k f s Hin. apply assoc_in; [by rewrite schema_entries_keys|]. unfold schema_entries.
    change (map ?g ps) with (g <$> ps). apply list_elem_of_fmap. by exists (k, (f, s)). }
  unfold in_key_order. rewrite list_elem_of_fmap. split.
  - intros (k & -> & Hk). rewrite obj_keys_permutation, schema_entries_keys in Hk. apply list_elem_of_fmap in Hk as ([k' [f s]] & -> & Hk).
    exists k', f, s. split; [done|]. cbn [fst]. by rewrite (Hin k' f s).
  - intros (k & f & s & Hps & ->). exists k. rewrite (Hin k f s) by done. split; [done|].
    rewrite obj_keys_permutation, schema_entries_keys. apply list_elem_of_fmap. by exists (k, (f, s)).
Qed.

Lemma key_order_nodup ps : NoDup (fst <$> ps) -> NoDup (fst <$> in_key_order ps).
Proof. intros Hn. unfold in_key_order. rewrite <- list_fmap_compose. cbn. rewrite list_fmap_id. by rewrite obj_keys_permutation. Qed.

Lemma filter_nodup {A} (P : jsstr * A -> Prop) `{forall x, Decision (P x)} l :
  NoDup (fst <$> l) -> NoDup (fst <$> base.filter P l).
Proof.
  induction l as [|p l IH]; intros Hn; [done|]. rewrite fmap_cons in Hn. apply list.NoDup_cons in Hn as [Hp Hn].
  rewrite filter_cons. destruct (decide (P p)); [|by apply IH]. rewrite fmap_cons. apply list.NoDup_cons. split; [|by apply IH].
  intros Hin. apply Hp. apply list_elem_of_fmap in Hin as (q & -> & [_ Hq]%list_elem_of_filter). by apply list_elem_of_fmap_2.
Qed.

Section Typed.
Context `{Host} (now : jsstr) (c : config).

(** The object built from the samples of the visible properties. *)
Lemma object_valid ps samples : NoDup (fst <$> ps) -> Forall (fun k => k <> js "__proto__") (fst <$> ps) ->
  Forall2 (fun (p q : jsstr * jv) => fst q = fst p /\ exists f s, (fst p, (f, s)) ∈ ps /\ valid c s (snd q))
    (base.filter (fun p => hidden c (snd p) = false) (in_key_order (schema_entries ps))) samples ->
  valid c (SObj ps) (JObj (foldl (fun acc p => set_prop (fst p) (snd p) acc) [] samples)).
Proof.
  intros Hnd Hpr H2. set (L := base.filter _ _) in H2.
  assert (Hkeys : fst <$> samples = fst <$> L).
  { clear -H2. induction H2 as [|p q L l [E _] _ IH]; [done|]. rewrite !fmap_cons. congruence. }
  assert (HnL : NoDup (fst <$> L)) by (apply filter_nodup, key_order_nodup; by rewrite schema_entries_keys).
  assert (Hin : forall k, k ∈ fst <$> L -> exists f s, (k, (f, s)) ∈ ps /\ visible c f = true).
  { intros k (p & -> & [Hh Hp]%list_elem_of_filter)%list_elem_of_fmap. apply in_schema_entries in Hp as (k & f & s & Hps & ->); [|done].
    cbn [snd fst] in *. rewrite hidden_prop in Hh. exists f, s. split; [done|]. by apply negb_false_iff. }
  assert (Hget : forall k, assoc k (foldl (fun acc p => set_prop (fst p) (snd p) acc) [] samples) = assoc k samples).
  { intros k. rewrite assoc_foldl_set; [by destruct (assoc k samples)| |by rewrite Hkeys].
    apply list.Forall_forall. intros q Hq. assert (Hk : fst q ∈ fst <$> L) by (rewrite <- Hkeys; by apply list_elem_of_fmap_2).
    destruct (Hin _ Hk) as (f & s & Hps & _). rewrite list.Forall_forall in Hpr. apply Hpr. apply list_elem_of_fmap. by exists (fst q, (f, s)). }
  assert (Huniq : forall k f s f' s', (k, (f, s)) ∈ ps -> (k, (f', s')) ∈ ps -> (f, s) = (f', s')).
  { intros k f s f' s' A B. apply (assoc_in k _ ps Hnd) in A. apply (assoc_in k _ ps Hnd) in B. congruence. }
  apply valid_props.
  - intros k f s Hps. rewrite Hget. destruct (visible c f) eqn:Ev.
    + assert (Hk : k ∈ fst <$> samples).
      { rewrite Hkeys. apply list_elem_of_fmap. exists (k, prop_schema f s). split; [done|]. apply list_elem_of_filter. split.
        - cbn [snd]. by rewrite hidden_prop, Ev.
        - apply in_schema_entries; [done|]. by exists k, f, s. }
      destruct (assoc k samples) as [x|] eqn:Ex; [|by apply assoc_elem in Hk]. exists x. split; [done|].
      clear -H2 Ex Huniq Hps. induction H2 as [|p [k' y] L l [E (f' & s' & Hps' & Hv)] _ IH]; [done|]. cbn [assoc fst snd] in *.
      case_bool_decide as Ek; [|by apply IH]. injection Ex as <-. assert (Hk : k = fst p) by congruence. rewrite Hk in Hps.
      pose proof (Huniq _ _ _ _ _ Hps Hps') as U. injection U as _ ->. exact Hv.
    + destruct (assoc k samples) as [x|] eqn:Ex; [|done]. exfalso.
      assert (Hk : k ∈ fst <$> L) by (rewrite <- Hkeys; apply assoc_elem; by rewrite Ex).
      destruct (Hin k Hk) as (f' & s' & Hps' & Ev'). pose proof (Huniq _ _ _ _ _ Hps Hps') as E. congruence.
  - intros k Hk. rewrite Hget in Hk. apply assoc_elem in Hk. rewrite Hkeys in Hk. destruct (Hin k Hk) as (f & s & Hps & _).
    apply list_elem_of_fmap. by exists (k, (f, s)).
Qed.

Definition no_flags : flags := {| deprecated := false; readOnly := false; writeOnly := false |}.

Lemma array_step fuel f s : sampleFromSchema now (S fuel) (prop_schema f (SArr s)) c =
  sbind (sampleFromSchema now fuel (prop_schema no_flags s) c) (fun v => sret (JArr [v])).
Proof.
  replace (prop_schema no_flags s) with (JObj (sch_fields s)) by (unfold prop_schema; by rewrite app_nil_r).
  assert (Hi : forall k, k ∈ [js "anyOf"; js "oneOf"] -> field_of (JObj (sch_fields s)) k = JUndef).
  { intros k [->|[->|[]%not_elem_of_nil]%elem_of_cons]%elem_of_cons; by destruct s. }
  cbn [sampleFromSchema]. cbv zeta. change (objectify (prop_schema f (SArr s))) with (prop_schema f (SArr s)).
  unfold sample_type. rewrite !field_prop by done.
  change (default JUndef (assoc (js "example") (sch_fields (SArr s)))) with JUndef.
  change (default JUndef (assoc (js "type") (sch_fields (SArr s)))) with (JStr (js "array")).
  change (default JUndef (assoc (js "items") (sch_fields (SArr s)))) with (JObj (sch_fields s)).
  change (truthy (JStr (js "array"))) with true. change (is_str (JStr (js "array")) (js "object")) with false.
  change (is_str (JStr (js "array")) (js "array")) with true. cbv iota. rewrite !Hi; [done|right; left|left].
Qed.

Lemma object_step fuel f ps : sampleFromSchema now (S fuel) (prop_schema f (SObj ps)) c =
  sbind (smap (fun p => sbind (sampleFromSchema now fuel (snd p) c) (fun v => sret (fst p, v)))
           (base.filter (fun p => hidden c (snd p) = false) (in_key_order (schema_entries ps))))
    (fun samples => sret (JObj (foldl (fun acc p => set_prop (fst p) (snd p) acc) [] samples))).
Proof.
  cbn [sampleFromSchema]. cbv zeta. change (objectify (prop_schema f (SObj ps))) with (prop_schema f (SObj ps)).
  unfold sample_type. rewrite !field_prop by done.
  change (default JUndef (assoc (js "example") (sch_fields (SObj ps)))) with JUndef.
  change (default JUndef (assoc (js "type") (sch_fields (SObj ps)))) with (JStr (js "object")).
  change (default JUndef (assoc (js "properties") (sch_fields (SObj ps)))) with (JObj (schema_entries ps)).
  change (default JUndef (assoc (js "additionalProperties") (sch_fields (SObj ps)))) with JUndef.
  change (truthy (JStr (js "object"))) with true. change (is_str (JStr (js "object")) (js "object")) with true. done.
Qed.

Lemma typed_sample s : sch_ok s -> forall fuel f, (jv_size (prop_schema f s) <= fuel)%nat ->
  exists v, sampleFromSchema now fuel (prop_schema f s) c = sret v /\ valid c s v.
Proof.
  induction s as [| | | |s IH|ps IH] using sch_nested; intros Hok fuel f Hf;
    (destruct fuel as [|fuel]; [cbn [jv_size prop_schema] in Hf; lia|]).
  - exists (JStr (js "string")). split; [destruct f as [[] [] []]; by vm_compute|by eexists].
  - exists (JNum (Zero false)). split; [destruct f as [[] [] []]; by vm_compute|by eexists].
  - exists (JNum (Zero false)). split; [destruct f as [[] [] []]; by vm_compute|by eexists].
  - exists (JBool true). split; [destruct f as [[] [] []]; by vm_compute|by eexists].
  - rewrite array_step. destruct (IH Hok fuel no_flags) as (v & -> & Hv).
    { replace (prop_schema no_flags s) with (JObj (sch_fields s)) by (unfold prop_schema; by rewrite app_nil_r).
      pose proof (size_entry (js "items") (JObj (sch_fields s)) (sch_fields (SArr s) ++ flag_fields f)) as Hs.
      rewrite assoc_app in Hs. specialize (Hs eq_refl). unfold prop_schema in Hf. lia. }
    exists (JArr [v]). split; [done|]. by exists v.
  - rewrite object_step. pose proof (sch_ok_props ps Hok) as Hoks. destruct Hok as (Hnd & Hpr & _).
    pose proof (size_entry (js "properties") (JObj (schema_entries ps)) (sch_fields (SObj ps) ++ flag_fields f)) as Hs.
    rewrite assoc_app in Hs. specialize (Hs eq_refl). change (JObj (sch_fields (SObj ps) ++ flag_fields f)) with (prop_schema f (SObj ps)) in Hs.
    edestruct (smap_spec (fun p => sbind (sampleFromSchema now fuel (snd p) c) (fun v => sret (fst p, v)))
      (fun (p q : jsstr * jv) => fst q = fst p /\ exists f s, (fst p, (f, s)) ∈ ps /\ valid c s (snd q))) as (samples & -> & H2).
    { intros p [_ Hp]%list_elem_of_filter. assert (Hp' := Hp). apply in_schema_entries in Hp as (k & f' & s' & Hps & ->); [|done].
      rewrite list.Forall_forall in IH, Hoks. destruct (IH _ Hps (Hoks _ Hps) fuel f') as (v & Ev & Hv).
      - pose proof (size_own (JObj (schema_entries ps)) _ ltac:(done) Hp') as Hs'. cbn [snd] in *. lia.
      - cbn [snd fst] in *. rewrite Ev. exists (k, v). split; [done|]. split; [done|]. by exists f', s'. }
    cbn [sbind sret]. eexists. split; [done|]. by apply object_valid.
Qed.
End Typed.

(** C27: For a schema that has, at every depth, one of the types string, number, integer, boolean, array
    with items and object with properties (of distinct names other than `__proto__`), and nothing else
    but the flags deprecated, readOnly and writeOnly (no example, enum, default, format or
    additionalProperties), the example is there and has the type of the schema at every depth: strings,
    numbers and booleans, arrays of one example, and objects with exactly the properties that are
    neither deprecated nor hidden as read-only or write-only. *)
Theorem sample_has_type `{Host} now c s fuel : sch_ok s -> (jv_size (JObj (sch_fields s)) <= fuel)%nat ->
  exists v, sampleFromSchema now fuel (JObj (sch_fields s)) c = sret v /\ valid c s v.
Proof.
  intros Hok Hf. pose proof (typed_sample now c s Hok fuel no_flags) as Ht. unfold prop_schema in Ht. rewrite app_nil_r in Ht. by apply Ht.
Qed.

Lemma sample_terminates_witness :
  sampleFromSchema (H := plain_host) [] 3 (JObj [(js "items", JStr (js "x"))]) {| includeReadOnly := false; includeWriteOnly := false |} <> None.
Proof. by apply (sample_terminates (H := plain_host)); vm_compute; lia. Defined.

Lemma sample_has_type_witness : exists v,
  sampleFromSchema (H := plain_host) [] 20 (JObj (sch_fields (SObj [(js "id", (no_flags, SInt)); (js "tags", (no_flags, SArr SStr))])))
    {| includeReadOnly := false; includeWriteOnly := true |} = sret v /\
  valid {| includeReadOnly := false; includeWriteOnly := true |} (SObj [(js "id", (no_flags, SInt)); (js "tags", (no_flags, SArr SStr))]) v.
Proof.
  apply (sample_has_type (H := plain_host)).
  - split; [by apply (bool_decide_unpack _); vm_compute|]. split; [by apply (bool_decide_unpack _); vm_compute|done].
  - vm_compute. lia.
Defined.
