(* ===== verification/SuiTags.v ===== *)
(** Swagger UI: the selectors that group the operations of a specification by tag
    ([operationsWithRootInherited], [operationsWithTags], [taggedOperations]) and the
    sorters of core/utils.js.

    An Immutable Set is the list of its elements; up to eight they are iterated in the
    order of insertion, and the theorems do not depend on the order. *)
From S2P Require Import Prelude JsString JsNumber YamlValue SuiUrl SuiImm SuiSpec.

(** ** Sets *)

(** [Immutable.is]: collections by their elements, plain objects by identity (two are
    taken to be different). *)
Fixpoint im_is (a b : jv) : bool :=
  match a, b with
  | IList l, IList m =>
      (fix go (l m : list jv) : bool :=
         match l, m with
         | [], [] => true
         | x :: l', y :: m' => im_is x y && go l' m'
         | _, _ => false
         end) l m
  | IMap o ps, IMap o' qs =>
      eqb o o' && Nat.eqb (length ps) (length qs) &&
      (if o then
         (fix go (ps qs : list (jsstr * jv)) : bool :=
            match ps, qs with
            | [], [] => true
            | (k, x) :: ps', (k', y) :: qs' => bool_decide (k = k') && im_is x y && go ps' qs'
            | _, _ => false
            end) ps qs
       else forallb (fun p => match p with (k, x) => match assoc k qs with Some y => im_is x y | None => false end end) ps)
  | JNum NaN, JNum NaN => true
  | _, _ => strict_eq a b
  end.

Definition member (x : jv) (l : list jv) : bool := existsb (im_is x) l.

(** [set.add(x)], [set.union(l)] *)
Definition set_add (s : list jv) (x : jv) : list jv := if member x s then s else s ++ [x].
Definition set_union (s l : list jv) : list jv := foldl set_add s l.

(** [Set(v)] for the values of a specification, which has no plain objects: the elements of
    a List, the entries of a Map, the characters of a string. *)
Definition set_of (v : jv) : js_error + list jv :=
  match v with
  | JUndef | JNull => inr []
  | IList l | JArr l => inr (set_union [] l)
  | IMap _ ps => inr ((fun p => JArr [JStr (fst p); snd p]) <$> ps)
  | JStr (c :: s) => inr (set_union [] ((fun c => JStr [c]) <$> c :: s))
  | _ => inl (TypeError "Expected Array or iterable object of values")
  end.

Definition consumes (state : jv) : js_error + list jv :=
  let? spec := specJson state in let? v := get spec (js "consumes") in set_of v.
Definition produces (state : jv) : js_error + list jv :=
  let? spec := specJson state in let? v := get spec (js "produces") in set_of v.

(** ** Operations *)

(** An entry of [operations], with the Sets put in place of missing media types. *)
Record tagged_op := { t_entry : jv; t_consumes : option (list jv); t_produces : option (list jv) }.

(** [if (!op.get(k)) op.update(k, a => Set(a).merge(root))] *)
Definition inherited (op : jv) (k : jsstr) (root : list jv) : js_error + option (list jv) :=
  let? v := get op k in
  if truthy v then inr None else let? own := set_of v in inr (Some (set_union own root)).

Definition inherit (consumes produces : list jv) (entry : jv) : js_error + tagged_op :=
  let op := default JUndef (im_get entry (js "operation")) in
  if truthy op then
    if is_map op then
      let? c := inherited op (js "consumes") consumes in
      let? p := inherited op (js "produces") produces in
      inr {| t_entry := entry; t_consumes := c; t_produces := p |}
    else inr {| t_entry := im_set entry (js "operation") JUndef; t_consumes := None; t_produces := None |}
  else inr {| t_entry := im_set entry (js "operation") empty_map; t_consumes := None; t_produces := None |}.

Definition operationsWithRootInherited `{Host} (state : jv) : js_error + list tagged_op :=
  let? ops := operations state in
  let? c := consumes state in
  let? p := produces state in
  traverse (inherit c p) (values_of ops).

(** ** Groups *)

Definition groups : Type := list (jv * list tagged_op).

Fixpoint group (k : jv) (gs : groups) : option (list tagged_op) :=
  match gs with
  | [] => None
  | (k', l) :: gs' => if im_is k k' then Some l else group k gs'
  end.

(** [gs.update(k, List(), f)] *)
Fixpoint update_group (k : jv) (f : list tagged_op -> list tagged_op) (gs : groups) : groups :=
  match gs with
  | [] => [(k, f [])]
  | (k', l) :: gs' => if im_is k k' then (k', f l) :: gs' else (k', l) :: update_group k f gs'
  end.

Definition DEFAULT_TAG : jsstr := js "default".

Definition op_tags (op : tagged_op) : js_error + list jv :=
  set_of (getIn_or (t_entry op) [js "operation"; js "tags"] JUndef).

Definition push_op (op : tagged_op) (gs : groups) (tag : jv) : groups := update_group tag (fun l => l ++ [op]) gs.

Definition add_op (gs : groups) (op : tagged_op) : js_error + groups :=
  let? tags := op_tags op in
  inr (if (length tags <? 1)%nat then push_op op gs (JStr DEFAULT_TAG) else foldl (push_op op) gs tags).

Fixpoint add_ops (gs : groups) (ops : list tagged_op) : js_error + groups :=
  match ops with
  | [] => inr gs
  | op :: ops' => let? gs := add_op gs op in add_ops gs ops'
  end.

(** [taggedMap.set(tag.get("name"), List())] for the declared tags *)
Fixpoint declared_groups (gs : groups) (tags : list jv) : js_error + groups :=
  match tags with
  | [] => inr gs
  | tag :: tags' =>
      let? name := get tag (js "name") in
      declared_groups (update_group name (fun _ => []) gs) tags'
  end.

Definition operationsWithTags `{Host} (state : jv) : js_error + groups :=
  let? ops := operationsWithRootInherited state in
  let? ts := tags state in
  if is_immutable ts then
    let? gs := declared_groups [] (values_of ts) in
    add_ops gs ops
  else inl (TypeError "reduce is not a function").

(** ** Sorting *)

(** A comparator: the sign of its number decides. *)
Definition comparator (A : Type) : Type := A -> A -> js_error + Z.

Fixpoint insert_with {A} (cmp : comparator A) (x : A) (l : list A) : js_error + list A :=
  match l with
  | [] => inr [x]
  | y :: l' => let? c := cmp y x in if c <=? 0 then let? r := insert_with cmp x l' in inr (y :: r) else inr (x :: l)
  end.

(** [sort] of a List or OrderedMap: equal elements keep their order. *)
Fixpoint sort_with {A} (cmp : comparator A) (acc l : list A) : js_error + list A :=
  match l with
  | [] => inr acc
  | x :: l' => let? acc := insert_with cmp x acc in sort_with cmp acc l'
  end.

Section Sorters.

Context `{Host}.

(** [a.localeCompare(b)] *)
Context (localeCompare : jsstr -> jsstr -> Z).

Definition compare_texts (a b : jv) : js_error + Z :=
  match a with
  | JStr s => inr (localeCompare s (js_string b))
  | _ => inl (TypeError "localeCompare is not a function")
  end.

(** A sorter of the configuration: a function, or a name (other than one every object has). *)
Inductive sorter (A : Type) := NoSorter | Named (name : jsstr) | Custom (f : comparator A).

Definition compare_field (k : jsstr) : comparator tagged_op := fun a b =>
  let? x := get (t_entry a) k in let? y := get (t_entry b) k in compare_texts x y.

Definition operationsSorter (s : sorter tagged_op) : option (comparator tagged_op) :=
  match s with
  | NoSorter _ => None
  | Custom _ f => Some f
  | Named _ n => if bool_decide (n = js "alpha") then Some (compare_field (js "path"))
                 else if bool_decide (n = js "method") then Some (compare_field (js "method")) else None
  end.

Definition tagsSorter (s : sorter jv) : option (comparator jv) :=
  match s with
  | NoSorter _ => None
  | Custom _ f => Some f
  | Named _ n => if bool_decide (n = js "alpha") then Some compare_texts else None
  end.

Definition sorted {A} (cmp : option (comparator A)) (l : list A) : js_error + list A :=
  match cmp with None => inr l | Some f => sort_with f [] l end.

Record tag_group := { g_tag : jv; g_tagDetails : jv; g_operations : list tagged_op }.

Definition taggedOperations (tagSorter : sorter jv) (opSorter : sorter tagged_op) (state : jv) : js_error + list tag_group :=
  let? gs := operationsWithTags state in
  let? gs := sorted ((fun f a b => f (fst a) (fst b)) <$> tagsSorter tagSorter) gs in
  traverse (fun g =>
    let? ops := sorted (operationsSorter opSorter) (snd g) in
    let? details := tagDetails state (fst g) in
    inr {| g_tag := fst g; g_tagDetails := details; g_operations := ops |}) gs.

End Sorters.

(** ** Groups of operations whose tags are strings *)

(** The tags of an operation as the specification lists them. *)
Definition op_names (op : tagged_op) : list jsstr :=
  match getIn_or (t_entry op) [js "operation"; js "tags"] JUndef with
  | IList l => omap (fun v => match v with JStr s => Some s | _ => None end) l
  | _ => []
  end.

Definition op_ok (op : tagged_op) : Prop :=
  getIn_or (t_entry op) [js "operation"; js "tags"] JUndef = JUndef \/
  getIn_or (t_entry op) [js "operation"; js "tags"] JUndef = IList (JStr <$> op_names op).

(** Whether the operation belongs to the group of [t]. *)
Definition tagged (t : jsstr) (op : tagged_op) : bool :=
  match op_names op with [] => bool_decide (t = DEFAULT_TAG) | l => bool_decide (t ∈ l) end.

Definition lift (hs : list (jsstr * list tagged_op)) : groups := prod_map JStr id <$> hs.

Definition push_name (op : tagged_op) (hs : list (jsstr * list tagged_op)) (t : jsstr) : list (jsstr * list tagged_op) :=
  put t (default [] (assoc t hs) ++ [op]) hs.

Lemma update_lift k f hs : update_group (JStr k) f (lift hs) = lift (put k (f (default [] (assoc k hs))) hs).
Proof.
  unfold lift. induction hs as [|[k' l] hs IH]; [done|].
  change (prod_map JStr id <$> (k', l) :: hs) with ((JStr k', l) :: (prod_map JStr id <$> hs)).
  cbn [update_group im_is strict_eq assoc put]. case_bool_decide; [done|]. by rewrite IH.
Qed.

Lemma push_lift op us : forall hs, foldl (push_op op) (lift hs) (JStr <$> us) = lift (foldl (push_name op) hs us).
Proof. induction us as [|u us IH]; intros hs; [done|]. rewrite fmap_cons. cbn [foldl]. unfold push_op at 2. rewrite update_lift. apply IH. Qed.

Lemma assoc_push op us : NoDup us -> forall hs t, assoc t (foldl (push_name op) hs us) =
  if bool_decide (t ∈ us) then Some (default [] (assoc t hs) ++ [op]) else assoc t hs.
Proof.
  induction 1 as [|u us Hu _ IH]; intros hs t; [done|]. cbn [foldl]. rewrite IH. unfold push_name.
  destruct (decide (t = u)) as [->|Hne].
  - rewrite bool_decide_eq_false_2 by done. rewrite assoc_put_eq, bool_decide_eq_true_2; [done|by left].
  - rewrite assoc_put_ne by done. rewrite (bool_decide_ext (t ∈ us) (t ∈ u :: us)); [done|]. rewrite elem_of_cons. tauto.
Qed.

Lemma push_nodup op us : forall hs, NoDup (fst <$> hs) -> NoDup (fst <$> foldl (push_name op) hs us).
Proof. induction us as [|u us IH]; intros hs Hn; [done|]. cbn [foldl]. by apply IH, put_nodup. Qed.

(** The Set of a list of strings. *)
Lemma member_texts x us : member (JStr x) (JStr <$> us) = bool_decide (x ∈ us).
Proof.
  induction us as [|u us IH]; [done|]. rewrite fmap_cons.
  change (member (JStr x) (JStr u :: (JStr <$> us))) with (bool_decide (x = u) || member (JStr x) (JStr <$> us)). rewrite IH.
  destruct (decide (x = u)) as [->|Hne].
  - rewrite (bool_decide_eq_true_2 (u = u)) by done. symmetry. apply bool_decide_eq_true_2. by left.
  - rewrite (bool_decide_eq_false_2 (x = u)) by done. cbn [orb]. apply bool_decide_ext. rewrite elem_of_cons. tauto.
Qed.

Lemma set_union_texts l : forall us, NoDup us -> exists us', set_union (JStr <$> us) (JStr <$> l) = JStr <$> us' /\
  NoDup us' /\ forall x, x ∈ us' <-> x ∈ us \/ x ∈ l.
Proof.
  induction l as [|x l IH]; intros us Hn.
  - exists us. split; [done|]. split; [done|]. intros y. split; [tauto|]. by intros [|?%not_elem_of_nil].
  - unfold set_union in *. rewrite fmap_cons. cbn [foldl]. unfold set_add at 2. rewrite member_texts. case_bool_decide as E.
    + destruct (IH us Hn) as (us' & -> & Hn' & Hx). exists us'. split; [done|]. split; [done|]. intros y.
      rewrite Hx, elem_of_cons. split; [tauto|]. by intros [|[->|]]; [left|left|right].
    + change ((JStr <$> us) ++ [JStr x]) with ((JStr <$> us) ++ (JStr <$> [x])). rewrite <- fmap_app.
      destruct (IH (us ++ [x])) as (us' & -> & Hn' & Hx).
      * apply list.NoDup_app. split; [done|]. split; [|apply NoDup_singleton]. by intros y Hy ->%list_elem_of_singleton.
      * exists us'. split; [done|]. split; [done|]. intros y. rewrite Hx, elem_of_app, list_elem_of_singleton, elem_of_cons. tauto.
Qed.

Lemma op_tags_texts op : op_ok op -> exists us, op_tags op = inr (JStr <$> us) /\ NoDup us /\ forall x, x ∈ us <-> x ∈ op_names op.
Proof.
  unfold op_ok, op_tags. intros [E|E]; rewrite E.
  - exists []. split; [done|]. split; [constructor|]. unfold op_names. by rewrite E.
  - destruct (set_union_texts (op_names op) [] (NoDup_nil_2)) as (us & Eu & Hn & Hx). cbn [set_of]. exists us.
    split; [by rewrite <- Eu|]. split; [done|]. intros x. rewrite Hx. split; [|tauto]. by intros [?%not_elem_of_nil|].
Qed.

(** Adding one operation: it is pushed to the groups it is tagged for. *)
Lemma add_op_lift hs op : op_ok op -> NoDup (fst <$> hs) -> exists hs', add_op (lift hs) op = inr (lift hs') /\
  NoDup (fst <$> hs') /\
  forall t, assoc t hs' = if tagged t op then Some (default [] (assoc t hs) ++ [op]) else assoc t hs.
Proof.
  intros Hop Hn. destruct (op_tags_texts op Hop) as (us & E & Hu & Hx). unfold add_op. rewrite E. cbn [rbind].
  rewrite length_fmap. destruct us as [|u us].
  - exists (push_name op hs DEFAULT_TAG). split; [unfold push_op; by rewrite update_lift|]. split; [by apply put_nodup|].
    intros t. assert (En : op_names op = []).
    { destruct (op_names op) as [|x l]; [done|]. exfalso. apply (not_elem_of_nil x), Hx. by left. }
    unfold tagged, push_name. rewrite En. case_bool_decide as Et; [subst; by rewrite assoc_put_eq|by rewrite assoc_put_ne].
  - exists (foldl (push_name op) hs (u :: us)). cbn [length Nat.ltb Nat.leb]. split; [by rewrite push_lift|].
    split; [by apply push_nodup|]. intros t. rewrite assoc_push by done. unfold tagged.
    rewrite (bool_decide_ext _ _ (Hx t)). destruct (op_names op) as [|x l]; [|done].
    exfalso. apply (not_elem_of_nil u), Hx. by left.
Qed.

(** What the groups hold after the operations [ops], when [ds] are the declared tags. *)
Definition grouped (ds : list jsstr) (ops : list tagged_op) (hs : list (jsstr * list tagged_op)) : Prop :=
  NoDup (fst <$> hs) /\ forall t,
    default [] (assoc t hs) = base.filter (fun op => tagged t op = true) ops /\
    (is_Some (assoc t hs) <-> t ∈ ds \/ existsb (tagged t) ops = true).

Lemma grouped_snoc ds ops hs op : op_ok op -> grouped ds ops hs ->
  exists hs', add_op (lift hs) op = inr (lift hs') /\ grouped ds (ops ++ [op]) hs'.
Proof.
  intros Hop [Hn Hg]. destruct (add_op_lift hs op Hop Hn) as (hs' & E & Hn' & Ha). exists hs'. split; [done|].
  split; [done|]. intros t. destruct (Hg t) as [G1 G2]. rewrite Ha, list.filter_app, existsb_app, <- G1. cbn [existsb].
  rewrite filter_cons, orb_false_r. destruct (tagged t op); cbn [default id].
  - rewrite decide_True by done. rewrite filter_nil, orb_true_r. split; [done|]. split; [by right|by eexists].
  - rewrite decide_False by done. by rewrite filter_nil, app_nil_r, orb_false_r.
Qed.

Lemma add_ops_grouped ds ops : Forall op_ok ops -> forall pre hs, grouped ds pre hs ->
  exists hs', add_ops (lift hs) ops = inr (lift hs') /\ grouped ds (pre ++ ops) hs'.
Proof.
  induction 1 as [|op ops Hop _ IH]; intros pre hs Hg; [exists hs; by rewrite app_nil_r|]. cbn [add_ops].
  destruct (grouped_snoc ds pre hs op Hop Hg) as (hs1 & -> & Hg1). cbn [rbind].
  destruct (IH _ _ Hg1) as (hs2 & -> & Hg2). exists hs2. by rewrite <- app_assoc in Hg2.
Qed.

(** The declared tags. *)
Lemma declared_lift ts ds : Forall2 (fun t d => is_immutable t = true /\ im_get t (js "name") = Some (JStr d)) ts ds ->
  forall pre hs, grouped pre [] hs -> exists hs', declared_groups (lift hs) ts = inr (lift hs') /\ grouped (pre ++ ds) [] hs'.
Proof.
  induction 1 as [|t d ts ds [Hi Hd] _ IH]; intros pre hs [Hn Hg]; [exists hs; by rewrite app_nil_r|].
  cbn [declared_groups]. unfold get. rewrite Hi, Hd. cbn [rbind default id]. rewrite update_lift.
  destruct (IH (pre ++ [d]) (put d [] hs)) as (hs' & E & Hg'); [|exists hs'; by rewrite <- app_assoc in Hg'].
  split; [by apply put_nodup|]. intros x. destruct (Hg x) as [G1 G2]. rewrite elem_of_app, list_elem_of_singleton.
  destruct (decide (x = d)) as [->|Hne].
  - rewrite assoc_put_eq. split; [done|]. split; [tauto|by eexists].
  - rewrite assoc_put_ne by done. split; [done|]. rewrite G2. cbn [existsb]. intuition congruence.
Qed.

(** ** Sorting keeps the elements *)

Definition total_on {A} (cmp : option (comparator A)) (l : list A) : Prop :=
  match cmp with None => True | Some f => forall a b, a ∈ l -> b ∈ l -> exists z, f a b = inr z end.

Lemma insert_with_perm {A} (f : comparator A) x l : (forall a, a ∈ l -> exists z, f a x = inr z) ->
  exists l', insert_with f x l = inr l' /\ l' ≡ₚ x :: l.
Proof.
  induction l as [|y l IH]; intros Hf; [by exists [x]|]. cbn [insert_with]. destruct (Hf y) as [z ->]; [by left|]. cbn [rbind].
  destruct (z <=? 0); [|by exists (x :: y :: l)]. destruct IH as (l' & -> & Hp); [intros a Ha; apply Hf; by right|].
  exists (y :: l'). split; [done|]. rewrite Hp. apply Permutation_swap.
Qed.

Lemma sort_with_perm {A} (f : comparator A) l : forall acc, (forall a b, a ∈ acc ++ l -> b ∈ acc ++ l -> exists z, f a b = inr z) ->
  exists l', sort_with f acc l = inr l' /\ l' ≡ₚ acc ++ l.
Proof.
  induction l as [|x l IH]; intros acc Hf; [exists acc; by rewrite app_nil_r|]. cbn [sort_with].
  destruct (insert_with_perm f x acc) as (acc' & -> & Hp).
  { intros a Ha. apply Hf; rewrite elem_of_app; [by left|right; by left]. }
  cbn [rbind]. assert (Hp' : acc' ++ l ≡ₚ acc ++ x :: l) by (rewrite Hp; apply Permutation_middle).
  destruct (IH acc') as (l' & -> & Hl); [|exists l'; split; [done|by rewrite Hl, Hp']].
  intros a b. rewrite Hp'. apply Hf.
Qed.

Lemma sorted_perm {A} (cmp : option (comparator A)) l : total_on cmp l ->
  exists l', sorted cmp l = inr l' /\ l' ≡ₚ l /\ (cmp = None -> l' = l).
Proof.
  destruct cmp as [f|]; cbn [total_on sorted]; intros Hf; [|by exists l].
  destruct (sort_with_perm f l [] Hf) as (l' & -> & Hp). by exists l'.
Qed.

(** ** The groups the page shows *)

(** A tag of the specification with its name. *)
Definition named_tag (t : jv) (name : jsstr) : Prop := is_map t = true /\ im_get t (js "name") = Some (JStr name).

Lemma tagDetails_total state tl ds tag : tags state = inr (IList tl) -> Forall2 named_tag tl ds ->
  exists d, tagDetails state tag = inr d.
Proof.
  intros Ht HF. unfold tagDetails. rewrite Ht. cbn [rbind js_or truthy is_immutable is_map is_list orb values_of].
  assert (Hl : Forall (fun t => is_map t = true) (base.filter (fun t => is_map t = true) tl)).
  { apply list.Forall_forall. by intros t [? _]%list_elem_of_filter. }
  induction Hl as [|t l Hm _ IH]; [by eexists|]. cbn [find]. unfold get at 1. unfold is_immutable. rewrite Hm.
  cbn [orb rbind]. destruct (strict_eq _ tag); [by eexists|exact IH].
Qed.

Lemma traverse_total {A B} (f : A -> js_error + B) (P : A -> B -> Prop) l :
  Forall (fun a => exists b, f a = inr b /\ P a b) l -> exists l', traverse f l = inr l' /\ Forall2 P l l'.
Proof.
  induction 1 as [|a l (b & E & HP) _ (l' & El & HF)]; [by exists []|]. exists (b :: l'). cbn [traverse].
  rewrite E. cbn [rbind]. rewrite El. split; [done|by constructor].
Qed.

(** [operationsWithTags] of a specification with named tags. *)
Lemma operations_grouped `{Host} state ops tl ds : operationsWithRootInherited state = inr ops -> Forall op_ok ops ->
  tags state = inr (IList tl) -> Forall2 named_tag tl ds ->
  exists hs, operationsWithTags state = inr (lift hs) /\ grouped ds ops hs.
Proof.
  intros Ho HF Ht HN. unfold operationsWithTags. rewrite Ho, Ht. cbn [rbind is_immutable is_map is_list orb values_of].
  destruct (declared_lift tl ds) with (pre := @nil jsstr) (hs := @nil (jsstr * list tagged_op)) as (hs & E & Hg).
  - eapply list.Forall2_impl; [exact HN|]. intros t d [H1 H2]. unfold is_immutable. by rewrite H1.
  - split; [constructor|]. intros t. split; [done|]. cbn [assoc existsb]. split; [by intros [? ?]|].
    by intros [?%not_elem_of_nil|].
  - change (lift []) with (@nil (jv * list tagged_op)) in E. rewrite E. cbn [rbind].
    destruct (add_ops_grouped ds ops HF [] hs Hg) as (hs' & -> & Hg'). by exists hs'.
Qed.

Lemma assoc_Some_in {A} k (v : A) l : assoc k l = Some v -> (k, v) ∈ l.
Proof.
  induction l as [|[k' v'] l IH]; [done|]. cbn [assoc]. case_bool_decide as E; [intros [= ->]; subst; by left|]. right. by apply IH.
Qed.

Lemma grouped_entry ds ops hs t l : grouped ds ops hs -> (t, l) ∈ hs -> l = base.filter (fun op => tagged t op = true) ops.
Proof.
  intros [Hn Hg] Hin. destruct (Hg t) as [<- _]. by rewrite (assoc_in t l hs Hn Hin).
Qed.

Lemma grouped_tag ds ops hs t : grouped ds ops hs ->
  (exists l, (t, l) ∈ hs) <-> t ∈ ds \/ existsb (tagged t) ops = true.
Proof.
  intros [Hn Hg]. rewrite <- (proj2 (Hg t)). split.
  - intros [l Hin]. exists l. by apply assoc_in.
  - intros [l Hl]. exists l. by apply assoc_Some_in.
Qed.

Lemma tag_order_total (cmp : option (comparator jv)) hs : (forall names, total_on cmp (JStr <$> names)) ->
  total_on ((fun f (a b : jv * list tagged_op) => f (fst a) (fst b)) <$> cmp) (lift hs).
Proof.
  destruct cmp as [f|]; [|done]. intros Hf a b (x & -> & _)%list_elem_of_fmap (y & -> & _)%list_elem_of_fmap.
  apply (Hf [fst x; fst y]); [by left|right; by left].
Qed.

Lemma total_on_filter {A} (cmp : option (comparator A)) (P : A -> Prop) `{forall x, Decision (P x)} l :
  total_on cmp l -> total_on cmp (base.filter P l).
Proof.
  destruct cmp as [f|]; [|done]. intros Hf a b [_ Ha]%list_elem_of_filter [_ Hb]%list_elem_of_filter. by apply Hf.
Qed.

(** The groups shown are those of [hs], up to the order. *)
Lemma shown_groups ds ops hs gs rs (unsorted : Prop) : grouped ds ops hs -> gs ≡ₚ lift hs ->
  Forall2 (fun g r => g_tag r = fst g /\ g_operations r ≡ₚ snd g /\ (unsorted -> g_operations r = snd g)) gs rs ->
  NoDup (g_tag <$> rs) /\
  (forall g, g ∈ rs -> exists t, g_tag g = JStr t /\
     g_operations g ≡ₚ base.filter (fun op => tagged t op = true) ops /\
     (unsorted -> g_operations g = base.filter (fun op => tagged t op = true) ops)) /\
  (forall t, (exists g, g ∈ rs /\ g_tag g = JStr t) <-> t ∈ ds \/ existsb (tagged t) ops = true).
Proof.
  intros Hg Hp F2.
  assert (Hk : g_tag <$> rs = fst <$> gs).
  { clear Hp. induction F2 as [|g r gs rs (H1 & _) _ IH]; [done|]. rewrite !fmap_cons. by rewrite H1, IH. }
  assert (Hks : fst <$> lift hs = JStr <$> (fst <$> hs)) by (unfold lift; by rewrite <- !list_fmap_compose).
  split; [|split].
  - rewrite Hk, Hp, Hks. apply NoDup_fmap_2; [by intros ? ? [= ->]|apply Hg].
  - intros r [i Hi]%list_elem_of_lookup. destruct (Forall2_lookup_r _ _ _ _ _ F2 Hi) as (g & Hin%list_elem_of_lookup_2 & H1 & H2 & H3).
    rewrite Hp in Hin. apply list_elem_of_fmap in Hin as ([t l] & -> & Hin). cbn [prod_map fst snd id] in *.
    rewrite (grouped_entry _ _ _ _ _ Hg Hin) in H2, H3. by exists t.
  - intros t. rewrite <- (grouped_tag ds ops hs t Hg). transitivity (JStr t ∈ g_tag <$> rs).
    + rewrite list_elem_of_fmap. split; intros (g & ? & ?); exists g; by split.
    + rewrite Hk, Hp, Hks, list_elem_of_fmap. split.
      * intros (t' & [= <-] & ([t2 l] & -> & Hin)%list_elem_of_fmap). by exists l.
      * intros [l Hin]. exists t. split; [done|]. apply list_elem_of_fmap. by exists (t, l).
Qed.

Section Shown.
Context `{Host} (localeCompare : jsstr -> jsstr -> Z).

(** C24: every operation of the specification is shown under each of its tags, and under
    [default] when it has none; a tag is shown when it is declared or used, once, with
    exactly its operations, which a sorter can only reorder. *)
Theorem operations_by_tag tagSorter opSorter state ops tl ds :
  operationsWithRootInherited state = inr ops -> Forall op_ok ops ->
  tags state = inr (IList tl) -> Forall2 named_tag tl ds ->
  (forall names, total_on (tagsSorter localeCompare tagSorter) (JStr <$> names)) ->
  total_on (operationsSorter localeCompare opSorter) ops ->
  exists gs, taggedOperations localeCompare tagSorter opSorter state = inr gs /\ NoDup (g_tag <$> gs) /\
    (forall g, g ∈ gs -> exists t, g_tag g = JStr t /\
       g_operations g ≡ₚ base.filter (fun op => tagged t op = true) ops /\
       (operationsSorter localeCompare opSorter = None -> g_operations g = base.filter (fun op => tagged t op = true) ops)) /\
    (forall t, (exists g, g ∈ gs /\ g_tag g = JStr t) <-> t ∈ ds \/ existsb (tagged t) ops = true).
Proof.
  intros Ho HF Ht HN Hts Hos. destruct (operations_grouped state ops tl ds Ho HF Ht HN) as (hs & E & Hg).
  unfold taggedOperations. rewrite E. cbn [rbind].
  destruct (sorted_perm ((fun f a b => f (fst a) (fst b)) <$> tagsSorter localeCompare tagSorter) (lift hs)) as (gs & E' & Hp & _).
  { apply tag_order_total. intros names. apply Hts. }
  rewrite E'. cbn [rbind].
  destruct (traverse_total (fun g => let? l := sorted (operationsSorter localeCompare opSorter) (snd g) in
      let? details := tagDetails state (fst g) in inr {| g_tag := fst g; g_tagDetails := details; g_operations := l |})
    (fun g r => g_tag r = fst g /\ g_operations r ≡ₚ snd g /\
                (operationsSorter localeCompare opSorter = None -> g_operations r = snd g)) gs) as (rs & Er & F2).
  { apply list.Forall_forall. intros g Hin. rewrite Hp in Hin. apply list_elem_of_fmap in Hin as ([t l] & -> & Hin).
    cbn [prod_map fst snd id]. destruct (sorted_perm (operationsSorter localeCompare opSorter) l) as (l' & -> & Hl & Hl').
    - rewrite (grouped_entry _ _ _ _ _ Hg Hin). by apply total_on_filter.
    - destruct (tagDetails_total state tl ds (JStr t) Ht HN) as [d ->]. by eexists. }
  exists rs. split; [exact Er|]. by apply (shown_groups ds ops hs gs rs).
Qed.

End Shown.

(** ** Example *)

Module TagDemo.
#[local] Instance demo_host : Host := plain_host.

Definition texts (l : list string) : jv := IList (JStr <$> (js <$> l)).
Definition tag (name : string) : jv := IMap false [(js "name", JStr (js name))].

Definition state : jv := IMap false [(js "json", IMap true [
  (js "tags", IList [tag "bank"; tag "auth"]);
  (js "produces", texts ["application/json"%string]);
  (js "paths", IMap true [
    (js "/bank/balances", IMap true [(js "get", IMap true [(js "tags", texts ["bank"; "auth"]%string)])]);
    (js "/node_info", IMap true [(js "get", IMap true []); (js "post", IMap true [(js "tags", texts ["auth"; "auth"]%string)])])])])].

(** Shorter texts first. *)
Definition by_length (s t : jsstr) : Z := slen s - slen t.

Definition declared : list jv := [tag "bank"; tag "auth"].
Definition ops : list tagged_op := match operationsWithRootInherited state with inr l => l | inl _ => [] end.

Definition shown : js_error + list (jv * list jv) :=
  let? gs := taggedOperations by_length (Named _ (js "alpha")) (Named _ (js "method")) state in
  inr ((fun g => (g_tag g, (fun op => default JUndef (im_get (t_entry op) (js "id"))) <$> g_operations g)) <$> gs).
End TagDemo.

Example tags_shown : TagDemo.shown = inr [
  (JStr (js "bank"), [JStr (js "get-/bank/balances")]);
  (JStr (js "auth"), [JStr (js "get-/bank/balances"); JStr (js "post-/node_info")]);
  (JStr (js "default"), [JStr (js "get-/node_info")])].
Proof. vm_compute. reflexivity. Qed.

Lemma operations_by_tag_witness : exists gs,
  @taggedOperations TagDemo.demo_host TagDemo.by_length (Named _ (js "alpha")) (Named _ (js "method")) TagDemo.state = inr gs /\
  NoDup (g_tag <$> gs) /\
  (forall g, g ∈ gs -> exists t, g_tag g = JStr t /\
     g_operations g ≡ₚ base.filter (fun op => tagged t op = true) TagDemo.ops /\
     (@operationsSorter TagDemo.demo_host TagDemo.by_length (Named _ (js "method")) = None ->
      g_operations g = base.filter (fun op => tagged t op = true) TagDemo.ops)) /\
  (forall t, (exists g, g ∈ gs /\ g_tag g = JStr t) <->
             t ∈ [js "bank"; js "auth"] \/ existsb (tagged t) TagDemo.ops = true).
Proof.
  refine (operations_by_tag TagDemo.by_length (Named _ (js "alpha")) (Named _ (js "method")) TagDemo.state TagDemo.ops
    TagDemo.declared [js "bank"; js "auth"] _ _ _ _ _ _).
  - vm_compute. reflexivity.
  - unfold TagDemo.ops. vm_compute. repeat (constructor; [by first [left; reflexivity|right; reflexivity]|]). constructor.
  - vm_compute. reflexivity.
  - repeat constructor.
  - intros names a b (s & -> & _)%list_elem_of_fmap _. by eexists.
  - intros a b Ha Hb. unfold TagDemo.ops in Ha, Hb. vm_compute in Ha, Hb.
    repeat (apply elem_of_cons in Ha as [-> | Ha]; [|]); try by apply not_elem_of_nil in Ha.
    all: repeat (apply elem_of_cons in Hb as [-> | Hb]; [by eexists|]); by apply not_elem_of_nil in Hb.
Defined.
