(* ===== verification/SuiOas3.v ===== *)
(** Swagger UI: the OpenAPI 3 plugin (reducers and selectors): servers with their
    variables, request bodies and media types. *)
From S2P Require Import Prelude JsString JsNumber YamlValue SuiUrl SuiImm SuiSpec.

(** ** Versions of a specification *)

Fixpoint startsWith (s p : jsstr) : bool :=
  match p, s with
  | [], _ => true
  | c :: p', d :: s' => (c =? d) && startsWith s' p'
  | _ :: _, [] => false
  end.

Definition isOAS3 (jsSpec : jv) : js_error + bool :=
  let? oasVersion := get jsSpec (js "openapi") in
  inr (match oasVersion with JStr s => startsWith s (js "3.0.") && (4 <? slen s) | _ => false end).

Definition isSwagger2 (jsSpec : jv) : js_error + bool :=
  let? swaggerVersion := get jsSpec (js "swagger") in
  inr (match swaggerVersion with JStr s => startsWith s (js "2.0") | _ => false end).

(** ** Actions and reducers *)

Inductive oas3_action :=
  | UPDATE_SELECTED_SERVER (selectedServerUrl : jv) (namespace : option jsstr)
  | UPDATE_REQUEST_BODY_VALUE (value : jv) (path method : jsstr)
  | UPDATE_REQUEST_CONTENT_TYPE (value : jv) (path method : jsstr)
  | UPDATE_RESPONSE_CONTENT_TYPE (value : jv) (path method : jsstr)
  | UPDATE_SERVER_VARIABLE_VALUE (server : jsstr) (namespace : option jsstr) (key : jsstr) (val : jv).

(** [namespace ? [namespace, ...] : [...]] *)
Definition in_namespace (namespace : option jsstr) (path : list jsstr) : list jsstr :=
  match namespace with None | Some [] => path | Some n => n :: path end.

Definition request_path (path method field : jsstr) : list jsstr := [js "requestData"; path; method; field].

Definition variables_path (server : jsstr) (namespace : option jsstr) : list jsstr :=
  in_namespace namespace [js "serverVariableValues"; server].

Definition oas3_reducers (a : oas3_action) : option (jv -> js_error + jv) :=
  match a with
  | UPDATE_SELECTED_SERVER url namespace =>
      Some (fun state => setIn state (in_namespace namespace [js "selectedServer"]) url)
  | UPDATE_REQUEST_BODY_VALUE value path method =>
      Some (fun state => setIn state (request_path path method (js "bodyValue")) value)
  | UPDATE_REQUEST_CONTENT_TYPE value path method =>
      Some (fun state => setIn state (request_path path method (js "requestContentType")) value)
  | UPDATE_RESPONSE_CONTENT_TYPE value path method =>
      Some (fun state => setIn state (request_path path method (js "responseContentType")) value)
  | UPDATE_SERVER_VARIABLE_VALUE server namespace key val =>
      Some (fun state => setIn state (variables_path server namespace ++ [key]) val)
  end.

Definition oas3_reducer : jv -> oas3_action -> jv := makeReducer oas3_reducers.

(** ** Selectors *)

(** A selector of the plugin under [onlyOAS3]: null for other specifications. *)
Definition onlyOAS3 {A} (spec : jv) (selector : js_error + A) : js_error + option A :=
  let? yes := isOAS3 spec in
  if yes then let? v := selector in inr (Some v) else inr None.

(** [state.getIn(path) || d] *)
Definition getIn_truthy (state : jv) (path : list jsstr) (d : jv) : jv := js_or (getIn_or state path JUndef) d.

Definition selectedServer (spec state : jv) (namespace : option jsstr) : js_error + option jv :=
  onlyOAS3 spec (inr (getIn_truthy state (in_namespace namespace [js "selectedServer"]) (JStr []))).
Definition requestBodyValue (spec state : jv) (path method : jsstr) : js_error + option jv :=
  onlyOAS3 spec (inr (getIn_truthy state (request_path path method (js "bodyValue")) JNull)).
Definition requestContentType (spec state : jv) (path method : jsstr) : js_error + option jv :=
  onlyOAS3 spec (inr (getIn_truthy state (request_path path method (js "requestContentType")) JNull)).
Definition responseContentType (spec state : jv) (path method : jsstr) : js_error + option jv :=
  onlyOAS3 spec (inr (getIn_truthy state (request_path path method (js "responseContentType")) JNull)).

(** A server: its URL, or an object with the URL and a namespace. *)
Inductive location := Url (server : jsstr) | Located (server : jsstr) (namespace : option jsstr).

Definition location_server (l : location) : jsstr := match l with Url s | Located s _ => s end.
Definition location_path (l : location) : list jsstr :=
  match l with Url s => variables_path s None | Located s n => variables_path s n end.

Definition serverVariableValue (spec state : jv) (locationData : location) (key : jsstr) : js_error + option jv :=
  onlyOAS3 spec (inr (getIn_truthy state (location_path locationData ++ [key]) JNull)).
Definition serverVariables (spec state : jv) (locationData : location) : js_error + option jv :=
  onlyOAS3 spec (inr (getIn_truthy state (location_path locationData) (IMap true []))).

(** *** [String.prototype.replace] with a global expression that matches a literal text *)

(** The replacement text: [before] and [after] are what surrounds the match. *)
Fixpoint expand_replacement (matched before after val : jsstr) : jsstr :=
  match val with
  | [] => []
  | c :: val' =>
      if c =? 36 then
        match val' with
        | [] => [c]
        | d :: val'' =>
            if d =? 36 then 36 :: expand_replacement matched before after val''
            else if d =? 38 then matched ++ expand_replacement matched before after val''
            else if d =? 96 then before ++ expand_replacement matched before after val''
            else if d =? 39 then after ++ expand_replacement matched before after val''
            else c :: expand_replacement matched before after val'
        end
      else c :: expand_replacement matched before after val'
  end.

(** [skip] units are the rest of a match. *)
Fixpoint replace_literal (pat val before s : jsstr) (skip : nat) : jsstr :=
  match s with
  | [] => []
  | c :: s' =>
      match skip with
      | S k => replace_literal pat val (before ++ [c]) s' k
      | O => if startsWith s pat then
               expand_replacement pat before (drop (length pat) s) val ++
               replace_literal pat val (before ++ [c]) s' (length pat - 1)
             else c :: replace_literal pat val (before ++ [c]) s' 0
      end
  end.

Definition key_unit (c : Z) : bool :=
  ((48 <=? c) && (c <=? 57)) || ((65 <=? c) && (c <=? 90)) || ((97 <=? c) && (c <=? 122)) || (c =? 95) || (c =? 45).

(** The expression [{key}] matches itself: [key] is no number (a quantifier) and has no
    special character. *)
Definition literal_key (key : jsstr) : bool :=
  forallb key_unit key && negb (forallb (fun c => (48 <=? c) && (c <=? 57)) key).

Definition braced (key : jsstr) : jsstr := 123 :: key ++ [125].

Section Replace.
Context `{Host}.

(** [str.replace(new RegExp(pattern, "g"), val)] for other patterns. *)
Context (regexp_replace : jsstr -> jsstr -> jsstr -> js_error + jsstr).

(** [str.replace(new RegExp("{" + key + "}", "g"), val)] *)
Definition replace_variable (str key : jsstr) (val : jv) : js_error + jsstr :=
  if literal_key key then inr (replace_literal (braced key) (js_string val) [] str 0)
  else regexp_replace (braced key) (js_string val) str.

(** The entries [varValues.map] goes over. *)
Definition mapped_entries (v : jv) : js_error + list (jsstr * jv) :=
  match v with
  | IMap _ _ | IList _ => inr (entries_of v)
  | JArr l => inr (entries_of (IList l))
  | _ => inl (TypeError "map is not a function")
  end.

Fixpoint replace_variables (es : list (jsstr * jv)) (str : jsstr) : js_error + jsstr :=
  match es with
  | [] => inr str
  | (key, val) :: es' => let? str := replace_variable str key val in replace_variables es' str
  end.

Definition serverEffectiveValue (spec state : jv) (locationData : location) : js_error + option jsstr :=
  onlyOAS3 spec
    (let varValues := getIn_truthy state (location_path locationData) (IMap true []) in
     let? es := mapped_entries varValues in
     replace_variables es (location_server locationData)).

End Replace.

(** ** Server templates *)

(** A URL as text and variables. *)
Inductive part := Text (s : jsstr) | Var (key : jsstr).

Definition render (t : list part) : jsstr := t ≫= (fun p => match p with Text s => s | Var k => braced k end).

(** What the URL stands for when the variables have the values of [env]. *)
Definition instantiate (env : jsstr -> option jsstr) (t : list part) : jsstr :=
  t ≫= (fun p => match p with Text s => s | Var k => default (braced k) (env k) end).

Definition part_ok (p : part) : Prop :=
  match p with Text s => Forall (fun c => c <> 123) s | Var k => literal_key k = true end.

(** A value that is put in as it is and brings no variable with it. *)
Definition value_ok (v : jsstr) : Prop := Forall (fun c => c <> 123 /\ c <> 36) v.

Definition fill_part (k v : jsstr) (p : part) : part :=
  match p with Var k' => if bool_decide (k = k') then Text v else p | Text _ => p end.

Lemma expand_plain m b a v : value_ok v -> expand_replacement m b a v = v.
Proof.
  induction 1 as [|c v [_ Hc] _ IH]; [done|]. apply Z.eqb_neq in Hc. cbn [expand_replacement]. by rewrite Hc, IH.
Qed.

Lemma startsWith_app p s : startsWith (p ++ s) p = true.
Proof. induction p as [|c p IH]; [by destruct s|]. cbn [app startsWith]. by rewrite Z.eqb_refl. Qed.

Lemma literal_key_units k : literal_key k = true -> Forall (fun c => c <> 123 /\ c <> 125) k.
Proof.
  intros [Hk _]%andb_true_iff.
  induction k as [|c k IH]; [done|]. cbn [forallb] in Hk. apply andb_true_iff in Hk as [Hc Hk].
  constructor; [|by apply IH]. split; intros ->; by vm_compute in Hc.
Qed.

(** Two variables that start at the same place are the same. *)
Lemma starts_braced k k' r : literal_key k = true -> literal_key k' = true ->
  startsWith (braced k' ++ r) (braced k) = bool_decide (k = k').
Proof.
  intros Hk%literal_key_units Hk'%literal_key_units. unfold braced. cbn [app startsWith Z.eqb Pos.eqb andb].
  rewrite <- app_assoc. cbn [app]. revert k' Hk'. induction Hk as [|c k [_ Hc] _ IH]; intros k' Hk'; destruct Hk' as [|d k' [_ Hd] Hk'];
    cbn [app startsWith].
  - by destruct r.
  - rewrite (proj2 (Z.eqb_neq 125 d)) by lia. done.
  - rewrite (proj2 (Z.eqb_neq c 125)) by lia. done.
  - rewrite IH by done. destruct (Z.eqb_spec c d) as [->|Hne]; cbn [andb]; [by repeat case_bool_decide; congruence|].
    symmetry. apply bool_decide_eq_false_2. congruence.
Qed.

Lemma replace_text pat v b s r : Forall (fun c => c <> 123) s ->
  replace_literal (123 :: pat) v b (s ++ r) 0 = s ++ replace_literal (123 :: pat) v (b ++ s) r 0.
Proof.
  intros HF. revert b. induction HF as [|c s Hc _ IH]; intros b; [by rewrite app_nil_r|].
  cbn [app replace_literal startsWith]. rewrite (proj2 (Z.eqb_neq 123 c)) by lia. cbn [andb]. f_equal. rewrite IH.
  by rewrite <- app_assoc.
Qed.

Lemma replace_skip pat v b s r : replace_literal pat v b (s ++ r) (length s) = replace_literal pat v (b ++ s) r 0.
Proof.
  revert b. induction s as [|c s IH]; intros b; [by rewrite app_nil_r|]. cbn [app length replace_literal]. rewrite IH.
  by rewrite <- app_assoc.
Qed.

Lemma replace_part k v b p r : literal_key k = true -> value_ok v -> part_ok p ->
  exists b', replace_literal (braced k) v b (render [p] ++ r) 0 =
             render [fill_part k v p] ++ replace_literal (braced k) v b' r 0.
Proof.
  intros Hk Hv Hp. unfold render. cbn [mbind list_bind]. rewrite !app_nil_r. destruct p as [s|k']; cbn [fill_part].
  - eexists. by apply replace_text.
  - cbn [part_ok] in Hp. pose proof (starts_braced k k' r Hk Hp) as Hs. exists (b ++ braced k'). case_bool_decide as E.
    + subst k'. unfold braced in *. cbn [app replace_literal] in *. rewrite Hs, expand_plain by done. f_equal.
      cbn [length Nat.sub]. rewrite Nat.sub_0_r, replace_skip. by rewrite <- app_assoc.
    + unfold braced in *. cbn [app replace_literal] in *. rewrite Hs. f_equal.
      rewrite (replace_text (k ++ [125]) v (b ++ [123]) (k' ++ [125])); [by rewrite <- !app_assoc|].
      apply Forall_app_2; [|by repeat constructor]. by eapply list.Forall_impl; [by apply literal_key_units|intros ? []].
Qed.

Lemma replace_template k v b t : literal_key k = true -> value_ok v -> Forall part_ok t ->
  replace_literal (braced k) v b (render t) 0 = render (fill_part k v <$> t).
Proof.
  intros Hk Hv HF. revert b. induction HF as [|p t Hp _ IH]; intros b; [done|].
  change (p :: t) with ([p] ++ t). unfold render in *. rewrite fmap_app, !bind_app.
  destruct (replace_part k v b p (render t) Hk Hv Hp) as [b' E]. unfold render in E. rewrite E. f_equal. apply IH.
Qed.

Lemma fill_ok k v t : value_ok v -> Forall part_ok t -> Forall part_ok (fill_part k v <$> t).
Proof.
  intros Hv HF. apply Forall_fmap. eapply list.Forall_impl; [exact HF|]. intros [s|k'] Hp; [done|].
  cbn [fill_part compose]. case_bool_decide; [|done]. eapply list.Forall_impl; [exact Hv|]. by intros ? [].
Qed.

(** Values are strings with variables' names for keys. *)
Definition binding_ok (p : jsstr * jsstr) : Prop := literal_key (fst p) = true /\ value_ok (snd p).

Lemma instantiate_fill k v es t :
  instantiate (fun k' => assoc k' ((k, v) :: es)) t = instantiate (fun k' => assoc k' es) (fill_part k v <$> t).
Proof.
  unfold instantiate. induction t as [|p t IH]; [done|]. cbn [fmap list_fmap mbind list_bind]. f_equal; [|exact IH].
  destruct p as [s|k']; [done|]. cbn [fill_part assoc]. case_bool_decide as E1; case_bool_decide as E2; congruence || done.
Qed.

Lemma instantiate_none t : instantiate (fun _ => None) t = render t.
Proof. done. Qed.

(** ** What the state keeps of the variables *)

Definition action_path (a : oas3_action) : list jsstr :=
  match a with
  | UPDATE_SELECTED_SERVER _ n => in_namespace n [js "selectedServer"]
  | UPDATE_REQUEST_BODY_VALUE _ p m => request_path p m (js "bodyValue")
  | UPDATE_REQUEST_CONTENT_TYPE _ p m => request_path p m (js "requestContentType")
  | UPDATE_RESPONSE_CONTENT_TYPE _ p m => request_path p m (js "responseContentType")
  | UPDATE_SERVER_VARIABLE_VALUE s n k _ => variables_path s n ++ [k]
  end.

Definition action_value (a : oas3_action) : jv :=
  match a with
  | UPDATE_SELECTED_SERVER v _ | UPDATE_REQUEST_BODY_VALUE v _ _ | UPDATE_REQUEST_CONTENT_TYPE v _ _
  | UPDATE_RESPONSE_CONTENT_TYPE v _ _ | UPDATE_SERVER_VARIABLE_VALUE _ _ _ v => v
  end.

Lemma oas3_reducer_step state a : is_map state = true ->
  oas3_reducer state a = match setIn state (action_path a) (action_value a) with
                         | inl _ | inr JNull => state | inr res => res end.
Proof. intros Hm. unfold oas3_reducer. rewrite makeReducer_map by done. by destruct a. Qed.

(** An update elsewhere. *)
Lemma update_frame x p : forall q t t', diverges p q -> mapsO t q ->
  update_deep t p None (fun _ => inr (NewValue x)) = inr t' ->
  getO t' q = getO t q /\ mapsO t' q /\ (t <> None -> exists v', t' = Some v' /\ is_map v' = true).
Proof.
  induction p as [|k p IH]; intros q t t' Hd Hm E; [by destruct q|]. destruct q as [|k' q]; [done|].
  assert (Ht : match t with Some v => is_map v = true | None => True end).
  { destruct t as [v|]; [|done]. cbn [mapsO maps_along] in Hm. by apply andb_true_iff in Hm as [? _]. }
  cbn [update_deep] in E. replace (match t with Some v => is_immutable v | None => true end) with true in E.
  2:{ destruct t as [v|]; [|done]. unfold is_immutable. by rewrite Ht. }
  set (existing := match t with Some v => im_get v k | None => None end) in *.
  destruct (update_deep existing p None _) as [?|next] eqn:En; [done|]. cbn [rbind] in E. injection E as E.
  change (rebuilt t k existing next = t') in E.
  destruct (rebuilt_spec t k next Ht) as (R1 & R2 & R3). fold existing in R1, R2, R3. rewrite E in R1, R2, R3.
  pose proof (rebuilt_map t k existing next Ht) as Hr. rewrite E in Hr.
  assert (Hm' : mapsO (match t with Some v => im_get v k' | None => None end) q).
  { destruct t as [v|]; [|done]. cbn [mapsO maps_along] in Hm. apply andb_true_iff in Hm as [_ Hm]. by destruct (im_get v k'). }
  rewrite !getO_cons. assert (H' : getO (match t' with Some v => im_get v k' | None => None end) q =
    getO (match t with Some v => im_get v k' | None => None end) q /\
    mapsO (match t' with Some v => im_get v k' | None => None end) q).
  { destruct Hd as [Hne|[<- Hd]]; [by rewrite R2|]. rewrite R1. fold existing in Hm' |- *.
    destruct (IH q existing next Hd Hm' En) as (H1 & H2 & _). done. }
  destruct H' as [H1 H2]. split; [done|]. split; [|done].
  destruct t' as [v|]; [|done]. cbn [mapsO maps_along]. rewrite Hr. by destruct (im_get v k').
Qed.

(** The state holds the values [env] for the variables of [l]. *)
Definition holds (l : location) (state : jv) (env : jsstr -> option jsstr) : Prop :=
  maps_along state (location_path l) = true /\ exists o es,
    getIn_or state (location_path l) (IMap o []) = IMap o (prod_map id JStr <$> es) /\
    Forall binding_ok es /\ forall k, env k = assoc k es.

(** The actions considered: an assignment to a variable of [l], or one that writes
    somewhere else. *)
Inductive env_step (l : location) : (jsstr -> option jsstr) -> oas3_action -> (jsstr -> option jsstr) -> Prop :=
  | step_assign env s n k v : variables_path s n = location_path l -> binding_ok (k, v) ->
      env_step l env (UPDATE_SERVER_VARIABLE_VALUE s n k (JStr v))
        (fun k' => if bool_decide (k' = k) then Some v else env k')
  | step_other env a : diverges (action_path a) (location_path l) -> env_step l env a env.

Inductive env_steps (l : location) : (jsstr -> option jsstr) -> list oas3_action -> (jsstr -> option jsstr) -> Prop :=
  | steps_nil env : env_steps l env [] env
  | steps_cons env a env' acts env'' : env_step l env a env' -> env_steps l env' acts env'' ->
      env_steps l env (a :: acts) env''.

Lemma put_text k v es : put k (JStr v) (prod_map id JStr <$> es) = prod_map id JStr <$> put k v es.
Proof.
  induction es as [|[k' v'] es IH]; [done|].
  change (prod_map id JStr <$> (k', v') :: es) with ((k', JStr v') :: (prod_map id JStr <$> es)). cbn [put].
  case_bool_decide; [done|]. by rewrite IH.
Qed.

Lemma put_binding k v es : Forall binding_ok es -> binding_ok (k, v) -> Forall binding_ok (put k v es).
Proof.
  intros HF Hb. induction HF as [|[k' v'] es H HF IH]; cbn [put]; [by constructor|].
  case_bool_decide as E; [subst; by constructor|by constructor].
Qed.

Lemma location_path_cons l : location_path l <> [].
Proof. by destruct l as [s|s [[|c n]|]]. Qed.

Lemma holds_map l state env : holds l state env -> is_map state = true.
Proof.
  intros [Hm _]. destruct (location_path l) as [|k p] eqn:E; [by apply location_path_cons in E|].
  cbn [maps_along] in Hm. by apply andb_true_iff in Hm as [? _].
Qed.

Lemma holds_assign l state env s n k v : holds l state env -> variables_path s n = location_path l -> binding_ok (k, v) ->
  holds l (oas3_reducer state (UPDATE_SERVER_VARIABLE_VALUE s n k (JStr v)))
    (fun k' => if bool_decide (k' = k) then Some v else env k').
Proof.
  intros Hh Hp Hb. rewrite oas3_reducer_step by (by eapply holds_map). cbn [action_path action_value]. rewrite Hp.
  destruct Hh as (Hm & o & es & Hg & HF & He).
  assert (Ho : exists o', default empty_map (getIn state (location_path l)) = IMap o' (prod_map id JStr <$> es)).
  { unfold getIn_or in Hg. destruct (getIn state (location_path l)) as [x|]; cbn [default id] in Hg |- *; [by exists o; subst|].
    injection Hg as Hg. exists false. by rewrite <- Hg. }
  destruct Ho as [o' Ho]. unfold setIn. rewrite updateIn_app.
  destruct (updateIn_spec state (location_path l) None
    (fun t => let? r := update_deep t [k] None (fun _ => inr (NewValue (JStr v))) in inr (as_updated r))
    (NewValue (IMap o' (put k (JStr v) (prod_map id JStr <$> es))))) as (st & E1 & E2 & E3 & _ & E5);
    [apply location_path_cons|done| |].
  { destruct (getIn state (location_path l)) as [x|]; cbn [default id] in Ho; [rewrite Ho|injection Ho as <- Ho; by rewrite <- Ho].
    cbn [update_deep rbind is_immutable is_map orb im_get]. by destruct (assoc k _). }
  rewrite E1. destruct st; try done. split; [done|]. exists o', (put k v es). split; [|split].
  - unfold getIn_or. rewrite E3. cbn [updated_value default id]. by rewrite put_text.
  - by apply put_binding.
  - intros k'. case_bool_decide as Ek; [subst; by rewrite assoc_put_eq|]. rewrite assoc_put_ne by done. apply He.
Qed.

Lemma holds_other l state env a : holds l state env -> diverges (action_path a) (location_path l) ->
  holds l (oas3_reducer state a) env.
Proof.
  intros Hh Hd. rewrite oas3_reducer_step by (by eapply holds_map). unfold setIn, updateIn.
  destruct (update_deep (Some state) (action_path a) None _) as [|t'] eqn:E; cbn [rbind]; [done|].
  destruct Hh as (Hm & o & es & Hg & HF & He).
  destruct (update_frame _ _ (location_path l) (Some state) t' Hd Hm E) as (H1 & H2 & H3).
  destruct H3 as (st & -> & Hst); [done|]. cbn [default id getO mapsO] in *. destruct st; try done.
  split; [done|]. exists o, es. unfold getIn_or in *. by rewrite H1.
Qed.

Lemma holds_steps l env acts env' : env_steps l env acts env' -> forall state, holds l state env ->
  holds l (foldl oas3_reducer state acts) env'.
Proof.
  induction 1 as [|env a env1 acts env2 Hs _ IH]; intros state Hh; [done|]. cbn [foldl]. apply IH.
  destruct Hs as [env s n k v Hp Hb|env a Hd]; [by apply holds_assign|by apply holds_other].
Qed.

Section Servers.
Context `{Host}.
Context (regexp_replace : jsstr -> jsstr -> jsstr -> js_error + jsstr).

Lemma replace_all_variables es t : Forall binding_ok es -> Forall part_ok t ->
  replace_variables regexp_replace (prod_map id JStr <$> es) (render t) = inr (instantiate (fun k => assoc k es) t).
Proof.
  intros HF. revert t. induction HF as [|[k v] es [Hk Hv] _ IH]; intros t Ht; [done|].
  cbn [fst snd] in *. change (prod_map id JStr <$> (k, v) :: es) with ((k, JStr v) :: (prod_map id JStr <$> es)).
  cbn [replace_variables]. unfold replace_variable. rewrite Hk. cbn [rbind js_string]. rewrite replace_template by done.
  rewrite IH by (by apply fill_ok). by rewrite instantiate_fill.
Qed.

(** C25: The URL a server stands for refines the instantiation of its template: after any sequence of
    actions that assign variables of the server or write elsewhere, [serverEffectiveValue] is the URL
    with every variable replaced by its last value and the unassigned ones left as they are, in whatever
    order the values are kept. Names of variables are made of ASCII letters, digits, underscores and
    hyphens and are not all digits, values are texts without a dollar sign or an opening brace, and the
    template has braces around variables only. *)
Theorem server_url_refines spec state l t env acts env' :
  isOAS3 spec = inr true -> location_server l = render t -> Forall part_ok t ->
  holds l state env -> env_steps l env acts env' ->
  serverEffectiveValue regexp_replace spec (foldl oas3_reducer state acts) l = inr (Some (instantiate env' t)).
Proof.
  intros Hs Ht HF Hh Hst. apply (holds_steps _ _ _ _ Hst) in Hh as (_ & o & es & Hg & Hes & He).
  unfold serverEffectiveValue, onlyOAS3. rewrite Hs. cbn [rbind].
  set (st := foldl oas3_reducer state acts) in *.
  assert (Hv : exists o', getIn_truthy st (location_path l) (IMap true []) = IMap o' (prod_map id JStr <$> es)).
  { unfold getIn_truthy, getIn_or in *. destruct (getIn st (location_path l)) as [x|]; cbn [default id] in *.
    - exists o. by subst x.
    - injection Hg as Hg. exists true. by rewrite <- Hg. }
  destruct Hv as [o' ->]. cbn [mapped_entries rbind entries_of]. rewrite Ht, replace_all_variables by done. cbn [rbind].
  do 2 f_equal. apply list_bind_ext; [|done]. intros [s|k]; [done|]. by rewrite He.
Qed.

End Servers.

(** ** Examples *)

Module ServerDemo.
#[local] Instance demo_host : Host := plain_host.

Definition spec : jv := IMap false [(js "openapi", JStr (js "3.0.2"))].
Definition template : list part := [Text (js "https://"); Var (js "host"); Text (js ":"); Var (js "port"); Text (js "/v1")].
Definition server : location := Url (js "https://{host}:{port}/v1").

Definition set (key val : string) : oas3_action :=
  UPDATE_SERVER_VARIABLE_VALUE (location_server server) None (js key) (JStr (js val)).

Definition no_regexp : jsstr -> jsstr -> jsstr -> js_error + jsstr := fun _ _ _ => inl (PlainError "not used").

Definition effective (acts : list oas3_action) : js_error + option jsstr :=
  serverEffectiveValue no_regexp spec (foldl oas3_reducer empty_map acts) server.
End ServerDemo.

Lemma server_url_refines_witness :
  ServerDemo.effective [ServerDemo.set "host" "a.b"; UPDATE_SELECTED_SERVER (JStr (js "x")) None; ServerDemo.set "host" "chain.io"] =
  inr (Some (js "https://chain.io:{port}/v1")).
Proof.
  refine (server_url_refines ServerDemo.no_regexp ServerDemo.spec empty_map ServerDemo.server ServerDemo.template (fun _ => None)
    _ (fun k => if bool_decide (k = js "host") then Some (js "chain.io") else
                if bool_decide (k = js "host") then Some (js "a.b") else None) _ _ _ _ _).
  - reflexivity.
  - reflexivity.
  - by repeat constructor.
  - split; [reflexivity|]. by exists false, [].
  - eapply steps_cons; [apply step_assign; [done|split; [done|by repeat constructor]]|].
    eapply steps_cons; [apply step_other; by left|].
    eapply steps_cons; [apply step_assign; [done|split; [done|by repeat constructor]]|]. apply steps_nil.
Defined.

(** A dollar sign in a value is read as a pattern of [replace]. *)
Example server_value_dollar :
  ServerDemo.effective [ServerDemo.set "host" "a$$b"; ServerDemo.set "port" "$&"] = inr (Some (js "https://a$b:{port}/v1")).
Proof. vm_compute. reflexivity. Qed.

(** A value that names another variable is replaced again. *)
Example server_value_variable :
  ServerDemo.effective [ServerDemo.set "host" "{port}"; ServerDemo.set "port" "80"] = inr (Some (js "https://80:80/v1")).
Proof. vm_compute. reflexivity. Qed.
