(* ===== verification/SuiCurl.v ===== *)
(** Swagger UI: the curl command shown for a request (core/curlify.js), and what a shell
    reads in it. *)
From S2P Require Import Prelude JsString JsNumber BufferText UriCodec YamlValue SuiUrl SuiImm.

(** ** [JSON.stringify] *)

(** [\u] and four hexadecimal digits *)
Definition unicode_escape (c : Z) : jsstr :=
  let h := digits 16 c in js "\u" ++ replicate (4 - length h) 48 ++ h.

(** One code unit of a quoted string, surrogates apart. *)
Definition quote_unit (c : Z) : jsstr :=
  if c =? 8 then js "\b"
  else if c =? 9 then js "\t"
  else if c =? 10 then js "\n"
  else if c =? 12 then js "\f"
  else if c =? 13 then js "\r"
  else if c =? 34 then [92; 34]
  else if c =? 92 then [92; 92]
  else if c <? 32 then unicode_escape c
  else [c].

(** A surrogate without its partner is escaped. *)
Fixpoint quote_units (s : jsstr) : jsstr :=
  match s with
  | [] => []
  | c :: s' =>
      if is_lead c then
        match s' with
        | d :: s'' => if is_trail d then c :: d :: quote_units s'' else unicode_escape c ++ quote_units s'
        | [] => unicode_escape c
        end
      else if is_trail c then unicode_escape c ++ quote_units s'
      else quote_unit c ++ quote_units s'
  end.

Definition quote (s : jsstr) : jsstr := 34 :: quote_units s ++ [34].

(** [None] is undefined: such members of an object are left out, such elements of an array
    are null.  Collections are stringified through their [toJSON], an array or an object;
    a host object has no properties of its own. *)
Fixpoint stringify (v : jv) : option jsstr :=
  let elements l := 91 :: join_unit 44 (map (fun x => default (js "null") (stringify x)) l) ++ [93] in
  let members ps :=
    let texts := map (fun p => match p with (k, x) => (k, stringify x) end) ps in
    123 :: join_unit 44 (omap (fun k => match assoc k texts with
                                        | Some (Some t) => Some (quote k ++ 58 :: t) | _ => None end)
                              (obj_keys texts)) ++ [125] in
  match v with
  | JUndef | JFun _ => None
  | JNull => Some (js "null")
  | JBool b => Some (js (if b then "true" else "false"))
  | JNum x => Some (match x with NaN | Inf _ => js "null" | _ => toString10 x end)
  | JStr s => Some (quote s)
  | JArr l | IList l => Some (elements l)
  | JObj ps | IMap _ ps => Some (members ps)
  | JHost _ => Some (js "{}")
  end.

(** ** [curl] *)

(** [s.replace(/\\n/g, "")]: every backslash with the letter n after it. *)
Fixpoint strip_escaped_newlines (s : jsstr) : jsstr :=
  match s with
  | c :: s' =>
      match s' with
      | d :: s'' => if (c =? 92) && (d =? 110) then strip_escaped_newlines s'' else c :: strip_escaped_newlines s'
      | [] => [c]
      end
  | [] => []
  end.

(** Name and type of a File. *)
Class Files := {
  file_name : nat -> jsstr;
  file_type : nat -> jsstr
}.

Definition dquoted (s : jsstr) : jsstr := 34 :: s ++ [34].

Section Curl.
Context `{Host, Files}.

(** What [join] makes of an element. *)
Definition join_text (v : jv) : jsstr := match v with JUndef | JNull => [] | _ => js_string v end.

(** Whether [v.size] is truthy. *)
Definition has_size (v : jv) : bool :=
  match v with
  | IList l => negb (Nat.eqb (length l) 0)
  | IMap _ ps => negb (Nat.eqb (length ps) 0)
  | JObj ps => truthy (default JUndef (assoc (js "size") ps))
  | _ => false
  end.

(** The words of the headers, and the value of the last one. *)
Definition header_words (headers : jv) : js_error + (list jsstr * jv) :=
  if truthy headers && has_size headers then
    if is_immutable headers then
      let es := entries_of headers in
      inr (es ≫= (fun p => [js "-H "; dquoted (fst p ++ js ": " ++ js_string (snd p))]),
           default (JStr []) (head (rev (snd <$> es))))
    else inl (TypeError "entries is not a function")
  else inr ([], JStr []).

(** One field of a form. *)
Definition field_word (p : jsstr * jv) : jsstr :=
  match snd p with
  | JHost id =>
      if is_file id then dquoted (fst p ++ js "=@" ++ file_name id ++ js ";type=" ++ file_type id)
      else dquoted (fst p ++ js "=" ++ js_string (snd p))
  | v => dquoted (fst p ++ js "=" ++ js_string v)
  end.

Definition body_words (type method body : jv) : js_error + list jsstr :=
  if truthy body then
    if is_str type (js "multipart/form-data") && is_str method (js "POST") then
      if is_immutable body then inr (entries_of body ≫= (fun p => [js "-F"; field_word p]))
      else inl (TypeError "entrySeq is not a function")
    else
      match stringify body with
      | Some t => inr [js "-d"; strip_escaped_newlines t]
      | None => inl (TypeError "Cannot read property 'replace' of undefined")
      end
  else inr [].

Definition curl (request : jv) : js_error + jsstr :=
  let? headers := get request (js "headers") in
  let? method := get request (js "method") in
  let? url := get request (js "url") in
  let? hw := header_words headers in
  let? body := get request (js "body") in
  let? bw := body_words (snd hw) method body in
  inr (join_unit 32 ([js "curl"; js "-X"; join_text method; dquoted (js_string url)] ++ fst hw ++ bw)).

End Curl.

(** ** The words of a command line

    What a POSIX shell makes of a line without expansions: blanks end a word, double quotes
    group, and between them a backslash quotes a dollar sign, a backquote, a double quote
    and a backslash.  [None] for a line with an expansion, an operator, a pattern or an open
    quote. *)

Definition bare_unit (c : Z) : bool :=
  ((48 <=? c) && (c <=? 57)) || ((65 <=? c) && (c <=? 90)) || ((97 <=? c) && (c <=? 122)) ||
  bool_decide (c ∈ js "-_./:,+@").

Definition expands (c : Z) : bool := (c =? 36) || (c =? 96).

Definition push_unit (w : option jsstr) (c : Z) : option jsstr := Some (default [] w ++ [c]).

Fixpoint sh_scan (s : jsstr) (w : option jsstr) (quoted : bool) : option (list jsstr) :=
  match s with
  | [] => if quoted then None else Some (option_list w)
  | c :: s' =>
      if quoted then
        if c =? 34 then sh_scan s' w false
        else if expands c then None
        else if c =? 92 then
          match s' with
          | d :: s'' => if expands d || (d =? 34) || (d =? 92) then sh_scan s'' (push_unit w d) true
                        else if d =? 10 then sh_scan s'' w true
                        else sh_scan s' (push_unit w c) true
          | [] => None
          end
        else sh_scan s' (push_unit w c) true
      else if (c =? 32) || (c =? 9) then app (option_list w) <$> sh_scan s' None false
      else if c =? 34 then sh_scan s' (Some (default [] w)) true
      else if bare_unit c then sh_scan s' (push_unit w c) false
      else None
  end.

Definition sh_words (s : jsstr) : option (list jsstr) := sh_scan s None false.

(** A text that stands for itself between double quotes. *)
Definition dq_safe (s : jsstr) : Prop := Forall (fun c => expands c = false /\ c <> 34 /\ c <> 92) s.

(** [t] is read as the word [w]. *)
Definition reads (t w : jsstr) : Prop := forall r, (r = [] \/ exists r', r = 32 :: r') ->
  sh_scan (t ++ r) None false = cons w <$> sh_scan r None false.

Lemma scan_end w r : (r = [] \/ exists r', r = 32 :: r') ->
  sh_scan r (Some w) false = cons w <$> sh_scan r None false.
Proof.
  intros [->|[r' ->]]; [done|]. cbn [sh_scan Z.eqb Pos.eqb orb option_list]. by destruct (sh_scan r' None false).
Qed.

Lemma scan_word s w r : Forall (fun c => bare_unit c = true) s ->
  sh_scan (s ++ r) (Some w) false = sh_scan r (Some (w ++ s)) false.
Proof.
  intros HF. revert w. induction HF as [|c s Hc _ IH]; intros w; [by rewrite app_nil_r|]. cbn [app sh_scan].
  replace ((c =? 32) || (c =? 9)) with false; [replace (c =? 34) with false|].
  - rewrite Hc. unfold push_unit. cbn [default id]. rewrite IH. by rewrite <- app_assoc.
  - symmetry. apply Z.eqb_neq. by intros ->.
  - symmetry. apply orb_false_iff. split; apply Z.eqb_neq; by intros ->.
Qed.

Lemma reads_word s : s <> [] -> Forall (fun c => bare_unit c = true) s -> reads s s.
Proof.
  intros Hs HF r Hr. destruct HF as [|c s Hc HF]; [done|].
  transitivity (sh_scan ((c :: s) ++ r) (Some []) false).
  - cbn [app sh_scan]. replace ((c =? 32) || (c =? 9)) with false; [done|].
    symmetry. apply orb_false_iff. split; apply Z.eqb_neq; by intros ->.
  - rewrite (scan_word (c :: s)) by (by constructor). by apply scan_end.
Qed.

Lemma scan_quoted s w r : dq_safe s -> sh_scan (s ++ r) (Some w) true = sh_scan r (Some (w ++ s)) true.
Proof.
  intros HF. revert w. induction HF as [|c s (He & H1 & H2) _ IH]; intros w; [by rewrite app_nil_r|]. cbn [app sh_scan].
  apply Z.eqb_neq in H1, H2. rewrite H1, He, H2. unfold push_unit. cbn [default id]. rewrite IH. by rewrite <- app_assoc.
Qed.

Lemma reads_quoted s : dq_safe s -> reads (dquoted s) s.
Proof.
  intros HF r Hr. unfold dquoted. rewrite <- app_comm_cons, <- app_assoc. cbn [sh_scan Z.eqb Pos.eqb orb default].
  rewrite scan_quoted by done. cbn [app sh_scan Z.eqb Pos.eqb]. by apply scan_end.
Qed.

Lemma reads_all ts ws : Forall2 reads ts ws -> sh_words (join_unit 32 ts) = Some ws.
Proof.
  induction 1 as [|t w ts ws Ht HF IH]; [done|]. cbn [join_unit]. unfold sh_words in *.
  destruct ts as [|t' ts].
  - apply Forall2_nil_inv_l in HF as ->. rewrite <- (app_nil_r t), Ht by (by left). done.
  - rewrite Ht by (right; by eexists). cbn [sh_scan Z.eqb Pos.eqb orb option_list]. by rewrite IH.
Qed.

(** ** Bodies *)

(** A backslash with the letter n after it. *)
Fixpoint has_backslash_n (s : jsstr) : bool :=
  match s with
  | c :: s' => ((c =? 92) && match s' with d :: _ => d =? 110 | [] => false end) || has_backslash_n s'
  | [] => false
  end.

(** A body without control characters but line feeds, and without expansions. *)
Definition body_unit (c : Z) : Prop := (c = 10 \/ 32 <= c) /\ expands c = false.

#[export] Instance body_unit_dec c : Decision (body_unit c).
Proof. unfold body_unit. apply _. Defined.

Definition without_newlines (s : jsstr) : jsstr := base.filter (fun c => c <> 10) s.

Lemma quote_units_wf s : wf16 s = true -> quote_units s = s ≫= quote_unit.
Proof.
  remember (length s) as n eqn:En. revert s En. induction n as [n IH] using lt_wf_ind. intros s En Hs.
  assert (Hq : forall c, is_lead c || is_trail c = true -> quote_unit c = [c]).
  { intros c Hc. unfold is_lead, is_trail in Hc. unfold quote_unit. destr_cmp; try done; lia. }
  destruct s as [|c s]; [done|]. cbn [wf16 quote_units mbind list_bind] in *. destruct (is_lead c) eqn:El.
  - destruct s as [|d s]; [done|]. apply andb_true_iff in Hs as [Ht Hs]. rewrite Ht. cbn [mbind list_bind].
    rewrite (Hq c), (Hq d) by (by rewrite ?El, ?Ht, ?orb_true_r). cbn [app]. do 2 f_equal.
    apply (IH (length s)); [simpl in En; lia|done|done].
  - apply andb_true_iff in Hs as [Hs Hw]. apply andb_true_iff in Hs as [_ Ht]. apply negb_true_iff in Ht.
    rewrite Ht. f_equal. apply (IH (length s)); [simpl in En; lia|done|done].
Qed.

Lemma strip_other c s : c <> 92 -> strip_escaped_newlines (c :: s) = c :: strip_escaped_newlines s.
Proof. intros Hc%Z.eqb_neq. destruct s as [|d s]; [done|]. cbn [strip_escaped_newlines]. by rewrite Hc. Qed.

Lemma strip_backslash d s : d <> 110 -> strip_escaped_newlines (92 :: d :: s) = 92 :: strip_escaped_newlines (d :: s).
Proof. intros Hd%Z.eqb_neq. cbn [strip_escaped_newlines]. by rewrite Hd. Qed.

(** The quoted form of a unit: the escape of a line feed, an escape that starts with a
    backslash, or the unit. *)
Lemma quote_unit_cases c : body_unit c ->
  (c = 10 /\ quote_unit c = [92; 110]) \/ (c = 34 \/ c = 92) /\ quote_unit c = [92; c] \/
  (c <> 10 /\ c <> 34 /\ c <> 92 /\ quote_unit c = [c]).
Proof. intros [Hc _]. unfold quote_unit. destr_cmp; subst; try tauto; try lia. Qed.

Lemma strip_quoted b : Forall body_unit b -> has_backslash_n b = false ->
  strip_escaped_newlines ((b ≫= quote_unit) ++ [34]) = (without_newlines b ≫= quote_unit) ++ [34].
Proof.
  induction 1 as [|c b Hc HF IH]; intros Hn; [done|]. cbn [has_backslash_n] in Hn. apply orb_false_iff in Hn as [Hh Hn].
  specialize (IH Hn). unfold without_newlines in *. rewrite filter_cons.
  destruct (quote_unit_cases c Hc) as [(-> & Hq)|[(H1 & Hq)|(H1 & H2 & H3 & Hq)]].
  - rewrite decide_False by tauto. cbn [mbind list_bind]. rewrite Hq. cbn [app]. exact IH.
  - rewrite decide_True by (destruct H1; lia). cbn [mbind list_bind]. rewrite Hq. cbn [app].
    rewrite strip_backslash by (destruct H1; lia). f_equal. destruct H1 as [->|H1].
    + by rewrite strip_other by done; rewrite IH.
    + subst c. cbn [andb Z.eqb Pos.eqb] in Hh. destruct b as [|d b]; [done|]. apply Z.eqb_neq in Hh.
      inversion HF as [|? ? Hd _]; subst. cbn [mbind list_bind] in IH |- *.
      destruct (quote_unit_cases d Hd) as [(_ & Hq')|[(_ & Hq')|(_ & _ & _ & Hq')]]; rewrite Hq' in IH |- *; cbn [app] in *;
        rewrite strip_backslash by lia; by rewrite IH.
  - rewrite decide_True by done. cbn [mbind list_bind]. rewrite Hq. cbn [app]. rewrite strip_other by done. by rewrite IH.
Qed.

Lemma scan_json b w r : Forall body_unit b ->
  sh_scan ((without_newlines b ≫= quote_unit) ++ r) (Some w) true = sh_scan r (Some (w ++ without_newlines b)) true.
Proof.
  intros HF. revert w. unfold without_newlines. induction HF as [|c b Hc _ IH]; intros w; [by rewrite app_nil_r|].
  rewrite filter_cons. destruct (decide (c <> 10)) as [H10|H10]; [|apply IH].
  assert (H : forall r', sh_scan (quote_unit c ++ r') (Some w) true = sh_scan r' (Some (w ++ [c])) true).
  { intros r'. destruct (quote_unit_cases c Hc) as [(-> & _)|[(H1 & Hq)|(_ & H2 & H3 & Hq)]]; [done| |]; rewrite Hq.
    - by destruct H1 as [-> | ->].
    - apply Z.eqb_neq in H2, H3. destruct Hc as [_ He]. cbn [app sh_scan]. by rewrite H2, He, H3. }
  cbn [mbind list_bind]. rewrite <- app_assoc, H, IH. by rewrite <- app_assoc.
Qed.

Lemma reads_body b : Forall body_unit b -> has_backslash_n b = false -> wf16 b = true ->
  reads (strip_escaped_newlines (quote b)) (without_newlines b).
Proof.
  intros HF Hn Hw r Hr. unfold quote. rewrite quote_units_wf, strip_other, strip_quoted by done.
  rewrite <- app_comm_cons, <- app_assoc. cbn [sh_scan Z.eqb Pos.eqb orb default]. rewrite scan_json by done.
  cbn [app sh_scan Z.eqb Pos.eqb]. by apply scan_end.
Qed.

(** ** Requests *)

Inductive request_body :=
  | NoBody
  | TextBody (b : jsstr)
  | FormBody (ordered : bool) (fields : list (jsstr * jsstr)).

(** A Map of strings. *)
Definition text_map (ps : list (jsstr * jsstr)) : list (jsstr * jv) := prod_map id JStr <$> ps.

Definition body_value (b : request_body) : jv :=
  match b with NoBody => JUndef | TextBody b => JStr b | FormBody o fs => IMap o (text_map fs) end.

(** Whether the command sends a form. *)
Definition sends_form (method : jsstr) (headers : list (jsstr * jsstr)) : Prop :=
  head (rev (snd <$> headers)) = Some (js "multipart/form-data") /\ method = js "POST".

(** Bodies the command can show. *)
Definition body_ok (method : jsstr) (headers : list (jsstr * jsstr)) (b : request_body) : Prop :=
  match b with
  | NoBody => True
  | TextBody b => ~ sends_form method headers /\ b <> [] /\ Forall body_unit b /\ has_backslash_n b = false /\ wf16 b = true
  | FormBody _ fs => sends_form method headers /\ Forall (fun p => dq_safe (fst p) /\ dq_safe (snd p)) fs
  end.

Definition body_argv (b : request_body) : list jsstr :=
  match b with
  | NoBody => []
  | TextBody b => [js "-d"; without_newlines b]
  | FormBody _ fs => fs ≫= (fun p => [js "-F"; fst p ++ js "=" ++ snd p])
  end.

Definition header_argv (headers : list (jsstr * jsstr)) : list jsstr :=
  headers ≫= (fun p => [js "-H"; fst p ++ js ": " ++ snd p]).

Lemma dq_safe_app s t : dq_safe s -> dq_safe t -> dq_safe (s ++ t).
Proof. intros. by apply Forall_app_2. Qed.

Lemma reads_flag s : s = js "curl" \/ s = js "-X" \/ s = js "-d" \/ s = js "-F" -> reads s s.
Proof. intros [->|[->|[->| ->]]]; (apply reads_word; [done|]; repeat constructor). Qed.

Lemma reads_header_flag : reads (js "-H ") (js "-H").
Proof. intros r Hr. change (js "-H ") with [45; 72; 32]. cbn -[sh_scan]. by destruct Hr as [->|[r' ->]]. Qed.

Section Command.
Context `{Host, Files}.

Lemma header_words_read o hs : Forall (fun p => dq_safe (fst p) /\ dq_safe (snd p)) hs -> exists ts,
  header_words (IMap o (text_map hs)) = inr (ts, default (JStr []) (JStr <$> head (rev (snd <$> hs)))) /\
  Forall2 reads ts (header_argv hs).
Proof.
  intros HF. exists (text_map hs ≫= (fun p => [js "-H "; dquoted (fst p ++ js ": " ++ js_string (snd p))])). split.
  - unfold header_words, text_map. cbn [truthy has_size entries_of is_immutable is_map orb andb].
    destruct hs as [|h hs]; [done|]. cbn [fmap list_fmap length Nat.eqb negb]. do 2 f_equal.
    rewrite <- !fmap_cons, <- list_fmap_compose. change (snd ∘ prod_map id JStr) with (JStr ∘ @snd jsstr jsstr).
    rewrite list_fmap_compose, <- map_rev. by destruct (rev (snd <$> h :: hs)).
  - unfold text_map, header_argv. induction HF as [|[k v] hs [Hk Hv] _ IH]; [done|].
    cbn [fmap list_fmap mbind list_bind app fst snd prod_map id js_string].
    constructor; [apply reads_header_flag|]. constructor; [|exact IH].
    apply reads_quoted, dq_safe_app; [done|]. apply dq_safe_app; [by repeat constructor|done].
Qed.

Lemma form_read fs : Forall (fun p => dq_safe (fst p) /\ dq_safe (snd p)) fs ->
  Forall2 reads (text_map fs ≫= (fun p => [js "-F"; field_word p])) (body_argv (FormBody true fs)).
Proof.
  unfold text_map. cbn [body_argv]. induction 1 as [|[k v] fs [Hk Hv] _ IH]; [done|].
  cbn [fmap list_fmap mbind list_bind app fst snd prod_map id field_word js_string].
  constructor; [apply reads_flag; tauto|]. constructor; [|exact IH].
  apply reads_quoted, dq_safe_app; [done|]. apply dq_safe_app; [by repeat constructor|done].
Qed.

Lemma sends_form_spec m hs : (is_str (default (JStr []) (JStr <$> head (rev (snd <$> hs)))) (js "multipart/form-data") &&
  is_str (JStr m) (js "POST")) = true <-> sends_form m hs.
Proof.
  unfold sends_form. rewrite andb_true_iff. cbn [is_str]. rewrite bool_decide_eq_true.
  destruct (head (rev (snd <$> hs))) as [t|]; cbn [fmap option_fmap option_map default id is_str];
    rewrite bool_decide_eq_true; split; intros [H1 H2]; split; first [done|congruence].
Qed.

Lemma body_words_read m hs b : body_ok m hs b -> exists ts,
  body_words (default (JStr []) (JStr <$> head (rev (snd <$> hs)))) (JStr m) (body_value b) = inr ts /\
  Forall2 reads ts (body_argv b).
Proof.
  pose proof (sends_form_spec m hs) as Hs. unfold body_words. destruct b as [|b|o fs]; cbn [body_ok body_value truthy].
  - intros _. by exists [].
  - intros (Hf & Hne & HF & Hn & Hw). destruct (_ && _); [by destruct Hf; apply Hs|]. destruct b as [|c b]; [done|].
    cbn [stringify]. eexists. split; [done|]. constructor; [apply reads_flag; tauto|].
    constructor; [by apply reads_body|done].
  - intros [Hf HF]. rewrite (proj2 Hs Hf). cbn [is_immutable is_map orb entries_of]. eexists. split; [done|].
    by apply form_read.
Qed.

(** C26: The command shown for a request is read by a shell as the words [curl -X] with the method, the
    URL, one [-H] for every header and the body without its line feeds, provided the method needs no
    quotes; URL, headers and fields of forms are texts without a quote, backslash, dollar sign or
    backquote; and a body of text, which may hold quotes and backslashes, is well-formed and not empty
    and has no dollar sign or backquote, no control character but line feeds and no backslash with the
    letter n after it. A form is one where the last header is the content type of forms and the method
    is POST. *)
Theorem curl_command_words request m u o hs b :
  is_map request = true ->
  im_get request (js "method") = Some (JStr m) ->
  im_get request (js "url") = Some (JStr u) ->
  im_get request (js "headers") = Some (IMap o (text_map hs)) ->
  default JUndef (im_get request (js "body")) = body_value b ->
  m <> [] -> Forall (fun c => bare_unit c = true) m -> dq_safe u ->
  Forall (fun p => dq_safe (fst p) /\ dq_safe (snd p)) hs -> body_ok m hs b ->
  exists command, curl request = inr command /\
    sh_words command = Some ([js "curl"; js "-X"; m; u] ++ header_argv hs ++ body_argv b).
Proof.
  intros Hr Hm Hu Hh Hb Hne Hmw Hus Hhs Hbo.
  destruct (header_words_read o hs Hhs) as (ht & Eh & Fh). destruct (body_words_read m hs b Hbo) as (bt & Eb & Fb).
  unfold curl, get. assert (Hi : is_immutable request = true) by (unfold is_immutable; by rewrite Hr).
  rewrite Hi, Hm, Hu, Hh, Hb. cbn [rbind default id]. rewrite Eh. cbn [rbind snd fst]. rewrite Eb. cbn [rbind].
  eexists. split; [done|]. apply reads_all. apply Forall2_app; [|by apply Forall2_app].
  constructor; [apply reads_flag; tauto|]. constructor; [apply reads_flag; tauto|].
  constructor; [by apply reads_word|]. constructor; [by apply reads_quoted|done].
Qed.

End Command.

(** ** Examples *)

Module CurlDemo.
#[local] Instance demo_host : Host := plain_host.
#[local] Instance demo_files : Files := {| file_name := fun _ => []; file_type := fun _ => [] |}.

Definition headers : list (jsstr * jsstr) := [(js "accept", js "*/*"); (js "content-type", js "application/json")].

Definition request (headers : list (jsstr * jsstr)) (body : jv) : jv :=
  IMap false [(js "method", JStr (js "POST")); (js "url", JStr (js "http://localhost:1317/txs?a=1&b=2"));
              (js "headers", IMap false (text_map headers)); (js "body", body)].

(** The body [{"memo": "a\b"}] on two lines. *)
Definition body : jsstr := js "{" ++ [34] ++ js "memo" ++ [34; 58; 10; 34] ++ js "a\b" ++ [34] ++ js "}".

Definition words (headers : list (jsstr * jsstr)) (body : jv) : option (list jsstr) :=
  match curl (request headers body) with inr s => sh_words s | inl _ => None end.
End CurlDemo.

Lemma curl_command_words_witness : exists command,
  @curl CurlDemo.demo_host CurlDemo.demo_files (CurlDemo.request CurlDemo.headers (JStr CurlDemo.body)) = inr command /\
  sh_words command = Some ([js "curl"; js "-X"; js "POST"; js "http://localhost:1317/txs?a=1&b=2"] ++
    header_argv CurlDemo.headers ++ body_argv (TextBody CurlDemo.body)).
Proof.
  apply (curl_command_words (CurlDemo.request CurlDemo.headers (JStr CurlDemo.body)) (js "POST")
    (js "http://localhost:1317/txs?a=1&b=2") false CurlDemo.headers (TextBody CurlDemo.body)); try reflexivity.
  - done.
  - repeat constructor.
  - by repeat constructor.
  - by repeat constructor.
  - split; [by intros [? _]|]. split; [done|]. split; [|done].
    apply (bool_decide_eq_true_1 _). vm_compute. reflexivity.
Defined.

(** A backslash in front of the letter n is taken for an escaped line feed: the body [a\n]
    loses both and the quote stays open. *)
Example curl_backslash_n : CurlDemo.words CurlDemo.headers (JStr (js "a\n")) = None.
Proof. vm_compute. reflexivity. Qed.

(** A form is recognised only when the content type is the last header. *)
Example curl_form_last_header :
  let form := IMap false [(js "name", JStr (js "value"))] in
  let type := (js "content-type", js "multipart/form-data") in
  let accept := (js "accept", js "*/*") in
  drop 8 <$> CurlDemo.words [accept; type] form = Some [js "-F"; js "name=value"] /\
  CurlDemo.words [type; accept] form = None.
Proof. vm_compute. done. Qed.
