(* ===== verification/JsJson.v ===== *)
(** [JSON.parse] of the language, with a reviver, and that it reads what [JSON.stringify] writes. *)
From S2P Require Import Prelude JsString JsNumber JsRegex BufferText UriCodec YamlValue YamlTypes SuiUrl SuiImm SuiSpec SuiValidator SuiCurl.

(** ** The grammar *)

Fixpoint skip_space (s : jsstr) : jsstr :=
  match s with
  | c :: s' => if (c =? 32) || (c =? 9) || (c =? 10) || (c =? 13) then skip_space s' else s
  | [] => []
  end.

Definition hex_value (c : Z) : option Z :=
  if (48 <=? c) && (c <=? 57) then Some (c - 48)
  else if (97 <=? c) && (c <=? 102) then Some (c - 87)
  else if (65 <=? c) && (c <=? 70) then Some (c - 55) else None.

(** The character after a backslash. *)
Definition simple_escape (c : Z) : option Z :=
  if (c =? 34) || (c =? 92) || (c =? 47) then Some c
  else if c =? 98 then Some 8 else if c =? 102 then Some 12 else if c =? 110 then Some 10
  else if c =? 114 then Some 13 else if c =? 116 then Some 9 else None.

(** A string after its first quote, up to the last; the rest of the text. *)
Fixpoint json_chars (s : jsstr) : option (jsstr * jsstr) :=
  let unit c r := '(t, rest) ← r; Some (c :: t, rest) in
  match s with
  | [] => None
  | c :: s' =>
      if c =? 34 then Some ([], s')
      else if c =? 92 then
        match s' with
        | [] => None
        | e :: s2 =>
            if e =? 117 then
              match s2 with
              | h1 :: h2 :: h3 :: h4 :: s3 =>
                  match hex_value h1, hex_value h2, hex_value h3, hex_value h4 with
                  | Some a, Some b, Some c, Some d => unit (4096 * a + 256 * b + 16 * c + d) (json_chars s3)
                  | _, _, _, _ => None
                  end
              | _ => None
              end
            else match simple_escape e with Some u => unit u (json_chars s2) | None => None end
        end
      else if c <? 32 then None else unit c (json_chars s')
  end.

Definition in_number (c : Z) : bool :=
  ((48 <=? c) && (c <=? 57)) || (c =? 43) || (c =? 45) || (c =? 46) || (c =? 101) || (c =? 69).
Fixpoint span_number (s : jsstr) : jsstr * jsstr :=
  match s with
  | c :: s' => if in_number c then let '(t, r) := span_number s' in (c :: t, r) else ([], s)
  | [] => ([], [])
  end.

Definition is_digit (c : Z) : bool := (48 <=? c) && (c <=? 57).
Definition opt (r : regex) : regex := RAlt REps r.
Definition json_number_re : regex :=
  let digits := RSeq (RClass is_digit) (RStar (RClass is_digit)) in
  RSeq (opt (RClass (Z.eqb 45)))
    (RSeq (RAlt (RClass (Z.eqb 48)) (RSeq (RClass (fun c => (49 <=? c) && (c <=? 57))) (RStar (RClass is_digit))))
      (RSeq (opt (RSeq (RClass (Z.eqb 46)) digits))
        (opt (RSeq (RClass (fun c => (c =? 101) || (c =? 69))) (RSeq (opt (RClass (fun c => (c =? 43) || (c =? 45)))) digits))))).

Definition json_number (s : jsstr) : option (jv * jsstr) :=
  let '(t, r) := span_number s in
  if full_match json_number_re t then
    Some (JNum (match t with 45 :: t' => decimal_number true t' | _ => decimal_number false t end), r)
  else None.

(** What [s] has after [w]. *)
Fixpoint after (w s : jsstr) : option jsstr :=
  match w, s with
  | [], _ => Some s
  | c :: w', d :: s' => if c =? d then after w' s' else None
  | _, [] => None
  end.

Definition json_literal (s : jsstr) : option (jv * jsstr) :=
  match after (js "null") s, after (js "true") s, after (js "false") s with
  | Some r, _, _ => Some (JNull, r)
  | _, Some r, _ => Some (JBool true, r)
  | _, _, Some r => Some (JBool false, r)
  | _, _, _ => None
  end.

(** A value, the members of an object and the elements of an array, each with its closing
    bracket.  Every step uses a character of a text that is well-formed. *)
Fixpoint json_value (n : nat) (s : jsstr) : option (jv * jsstr) :=
  match n with
  | O => None
  | S n =>
      match skip_space s with
      | [] => None
      | c :: s' =>
          if c =? 34 then '(t, r) ← json_chars s'; Some (JStr t, r)
          else if c =? 123 then
            match skip_space s' with
            | 125 :: r => Some (JObj [], r)
            | s2 => json_members n s2 []
            end
          else if c =? 91 then
            match skip_space s' with
            | 93 :: r => Some (JArr [], r)
            | s2 => json_elements n s2 []
            end
          else if is_digit c || (c =? 45) then json_number (c :: s')
          else json_literal (c :: s')
      end
  end
with json_members (n : nat) (s : jsstr) (acc : list (jsstr * jv)) : option (jv * jsstr) :=
  match n with
  | O => None
  | S n =>
      match skip_space s with
      | 34 :: s' =>
          match json_chars s' with
          | None => None
          | Some (k, r) =>
              match skip_space r with
              | 58 :: r =>
                  match json_value n r with
                  | None => None
                  | Some (v, r) =>
                      match skip_space r with
                      | 44 :: r => json_members n r (put k v acc)
                      | 125 :: r => Some (JObj (put k v acc), r)
                      | _ => None
                      end
                  end
              | _ => None
              end
          end
      | _ => None
      end
  end
with json_elements (n : nat) (s : jsstr) (acc : list jv) : option (jv * jsstr) :=
  match n with
  | O => None
  | S n =>
      match json_value n s with
      | None => None
      | Some (v, r) =>
          match skip_space r with
          | 44 :: r => json_elements n r (acc ++ [v])
          | 93 :: r => Some (JArr (acc ++ [v]), r)
          | _ => None
          end
      end
  end.

(** [JSON.parse(text)] *)
Definition json_parse_text (text : jsstr) : js_error + jv :=
  match json_value (S (length text)) text with
  | Some (v, r) => match skip_space r with [] => inr v | _ => inl (PlainError "Unexpected token in JSON") end
  | None => inl (PlainError "Unexpected token in JSON")
  end.

(** *** Revivers *)

(** The reviver on every property, those of a property first, in the order they are written
    (which only decides the exception that is thrown); it makes none undefined. *)
Fixpoint revive_children (reviver : jsstr -> jv -> js_error + jv) (v : jv) : js_error + jv :=
  match v with
  | JObj ps =>
      let fix go ps : js_error + list (jsstr * jv) :=
        match ps with
        | [] => inr []
        | (k, x) :: ps' =>
            let? x := revive_children reviver x in let? x := reviver k x in let? r := go ps' in inr ((k, x) :: r)
        end in
      let? ps := go ps in inr (JObj ps)
  | JArr l =>
      let fix go (i : Z) l : js_error + list jv :=
        match l with
        | [] => inr []
        | x :: l' =>
            let? x := revive_children reviver x in let? x := reviver (int_to_string 10 i) x in let? r := go (i + 1) l' in inr (x :: r)
        end in
      let? l := go 0 l in inr (JArr l)
  | _ => inr v
  end.

(** [JSON.parse(text, reviver)] *)
Definition json_parse_with (reviver : jsstr -> jv -> js_error + jv) (text : jsstr) : js_error + jv :=
  let? v := json_parse_text text in let? v := revive_children reviver v in reviver [] v.

(** ** Strings *)

Definition unit_ok (c : Z) : Prop := 0 <= c < 65536.

Lemma hex_digit d : 0 <= d < 16 -> hex_value (digit_char d) = Some d.
Proof.
  intros Hd. assert (H : forallb (fun d => bool_decide (hex_value (digit_char d) = Some d)) (seqZ 0 16) = true) by (by vm_compute).
  rewrite forallb_forall in H. eapply bool_decide_unpack, Is_true_eq_left, H, list_elem_of_In, elem_of_seqZ. lia.
Qed.

(** The digits of an escape. *)
Lemma escape_digits c : unit_ok c -> exists a b d e, unicode_escape c = js "\u" ++ (digit_char <$> [a; b; d; e]) /\
  Forall (fun d => 0 <= d < 16) [a; b; d; e] /\ 4096 * a + 256 * b + 16 * d + e = c.
Proof.
  intros Hc. destruct (digits_spec 16 c) as (ds & E & HF & _ & V); [lia|unfold unit_ok in Hc; lia|].
  pose proof (length_digits 16 c 3 ltac:(lia) Hc) as Hl. unfold unicode_escape. rewrite E in *. rewrite length_fmap in *.
  assert (Hp : forall k ds', length ds' = 4%nat -> ds' = replicate k 0 ++ ds -> exists a b d e,
    js "\u" ++ replicate k 48 ++ (digit_char <$> ds) = js "\u" ++ (digit_char <$> [a; b; d; e]) /\
    Forall (fun d => 0 <= d < 16) [a; b; d; e] /\ 4096 * a + 256 * b + 16 * d + e = c).
  { intros k ds' L4 E'. assert (HF' : Forall (fun d => 0 <= d < 16) ds').
    { rewrite E'. apply Forall_app. split; [apply Forall_replicate; lia|done]. }
    assert (V' : digits_value 16 ds' = c).
    { rewrite E', <- V. clear. unfold digits_value. rewrite foldl_app. f_equal. induction k as [|k IH]; [done|exact IH]. }
    destruct ds' as [|a [|b [|d [|e [|]]]]]; try done. exists a, b, d, e. split; [by rewrite E', fmap_app, fmap_replicate|]. split; [done|].
    rewrite <- V'. unfold digits_value. cbn [foldl]. lia. }
  apply (Hp (4 - length ds)%nat (replicate (4 - length ds) 0 ++ ds)); [|done]. rewrite length_app, length_replicate. lia.
Qed.

Lemma escape_read_back c r : unit_ok c -> json_chars (unicode_escape c ++ r) = ('(t, rest) ← json_chars r; Some (c :: t, rest)).
Proof.
  intros Hc. destruct (escape_digits c Hc) as (a & b & d & e & -> & HF & V).
  apply list.Forall_cons in HF as [Ha HF]. apply list.Forall_cons in HF as [Hb HF]. apply list.Forall_cons in HF as [Hd HF].
  apply list.Forall_cons in HF as [He _]. change (js "\u") with [92; 117]. cbn [fmap list_fmap app json_chars Z.eqb Pos.eqb].
  rewrite !hex_digit by done. by rewrite V.
Qed.

Lemma read_unit c r : unit_ok c -> json_chars (quote_unit c ++ r) = ('(t, rest) ← json_chars r; Some (c :: t, rest)).
Proof.
  intros Hc. unfold quote_unit.
  repeat match goal with |- context [if c =? ?k then _ else _] => destruct (Z.eqb_spec c k) as [->|]; [done|] end.
  destruct (Z.ltb_spec c 32); [by apply escape_read_back|]. cbn [app json_chars].
  destruct (Z.eqb_spec c 34); [lia|]. destruct (Z.eqb_spec c 92); [lia|]. by destruct (Z.ltb_spec c 32); [lia|].
Qed.

Lemma read_plain c r : unit_ok c -> 128 <= c -> json_chars (c :: r) = ('(t, rest) ← json_chars r; Some (c :: t, rest)).
Proof.
  intros Hc H. cbn [json_chars]. destruct (Z.eqb_spec c 34); [lia|]. destruct (Z.eqb_spec c 92); [lia|].
  by destruct (Z.ltb_spec c 32); [lia|].
Qed.

(** A quoted string is read back. *)
Lemma read_quoted s r : Forall unit_ok s -> json_chars (quote_units s ++ 34 :: r) = Some (s, r).
Proof.
  remember (length s) as n eqn:En. revert s En. induction (lt_wf n) as [n _ IH]. intros s -> HF. destruct s as [|c s]; [done|].
  apply list.Forall_cons in HF as [Hc HF]. assert (IH' : forall t, (length t < length (c :: s))%nat -> Forall unit_ok t ->
    json_chars (quote_units t ++ 34 :: r) = Some (t, r)) by (intros t Ht; by apply (IH (length t))).
  cbn [quote_units]. destruct (is_lead c) eqn:El.
  - assert (128 <= c) by (unfold is_lead in El; lia). destruct s as [|d s]; [by rewrite escape_read_back|].
    destruct (is_trail d) eqn:Et.
    + apply list.Forall_cons in HF as [Hd HF]. assert (128 <= d) by (unfold is_trail in Et; lia).
      cbn [app]. rewrite !read_plain by done. rewrite IH' by (done || cbn; lia). done.
    + rewrite <- app_assoc, escape_read_back by done. rewrite IH' by (done || cbn; lia). done.
  - destruct (is_trail c); rewrite <- app_assoc; (rewrite escape_read_back || rewrite read_unit); try done;
      rewrite IH' by (done || cbn; lia); done.
Qed.

(** ** Data is read back *)

(** Data without numbers: null, booleans, text, arrays, and objects with their keys in the order
    they have. *)
Inductive data : jv -> Prop :=
  | data_null : data JNull
  | data_bool b : data (JBool b)
  | data_str s : Forall unit_ok s -> data (JStr s)
  | data_arr l : datas l -> data (JArr l)
  | data_obj ps : datas ps.*2 -> NoDup ps.*1 -> obj_keys ps = ps.*1 -> Forall (Forall unit_ok) ps.*1 -> data (JObj ps)
with datas : list jv -> Prop :=
  | datas_nil : datas []
  | datas_cons v l : data v -> datas l -> datas (v :: l).

Scheme data_mut := Induction for data Sort Prop with datas_mut := Induction for datas Sort Prop.

(** The text of [v] starts with a character that is no space or closing bracket, and is read as [v]. *)
Definition text_of (v : jv) : jsstr := default [] (stringify v).
Definition starts (t : jsstr) : Prop := exists c t', t = c :: t' /\ c ∈ [34; 123; 91; 110; 116; 102].
Definition reads (v : jv) : Prop :=
  stringify v = Some (text_of v) /\ starts (text_of v) /\
  forall n r, (length (text_of v) <= n)%nat -> json_value n (text_of v ++ r) = Some (v, r).

Lemma starts_skip t r : starts t -> skip_space (t ++ r) = t ++ r.
Proof. intros (c & t' & -> & Hc). cbn [app skip_space]. repeat (apply elem_of_cons in Hc as [->|Hc]; [done|]). by apply not_elem_of_nil in Hc. Qed.

Lemma starts_length t : starts t -> (1 <= length t)%nat.
Proof. intros (c & t' & -> & _). cbn. lia. Qed.

Lemma elements_read l : Forall reads l -> l <> [] -> forall n r acc, (length (join_unit 44 (text_of <$> l)) < n)%nat ->
  json_elements n (join_unit 44 (text_of <$> l) ++ 93 :: r) acc = Some (JArr (acc ++ l), r).
Proof.
  induction 1 as [|v l (E & Hs & Hv) HF IH]; intros Hl n r acc Hn; [done|]. destruct n as [|n]; [lia|]. cbn [json_elements].
  pose proof (starts_length _ Hs). destruct l as [|w l].
  - cbn [fmap list_fmap join_unit] in *. rewrite Hv by lia. done.
  - change (join_unit 44 (text_of <$> v :: w :: l)) with (text_of v ++ 44 :: join_unit 44 (text_of <$> w :: l)) in *.
    rewrite length_app in Hn. cbn [length] in Hn. rewrite <- app_assoc. cbn [app]. rewrite Hv by lia.
    cbn [skip_space Z.eqb Pos.eqb orb]. rewrite IH by (done || lia). by rewrite <- app_assoc.
Qed.

Lemma put_fresh {A} k (x : A) l : k ∉ l.*1 -> put k x l = l ++ [(k, x)].
Proof.
  induction l as [|[k' y] l IH]; intros Hk; [done|]. rewrite fmap_cons in Hk. apply not_elem_of_cons in Hk as [Hne Hk].
  cbn [put app fst] in *. rewrite bool_decide_eq_false_2 by done. by rewrite IH.
Qed.

Definition member_text (p : jsstr * jv) : jsstr := quote p.1 ++ 58 :: text_of p.2.

Lemma members_read ps : Forall (fun p => reads p.2 /\ Forall unit_ok p.1) ps -> ps <> [] -> forall n r acc, NoDup (acc ++ ps).*1 ->
  (length (join_unit 44 (member_text <$> ps)) < n)%nat ->
  json_members n (join_unit 44 (member_text <$> ps) ++ 125 :: r) acc = Some (JObj (acc ++ ps), r).
Proof.
  induction 1 as [|[k v] ps [(E & Hs & Hv) Hk] HF IH]; intros Hl n r acc Hnd Hn; [done|]. destruct n as [|n]; [lia|].
  cbn [fst snd] in *. pose proof (starts_length _ Hs).
  assert (Hfresh : k ∉ acc.*1).
  { rewrite fmap_app, fmap_cons in Hnd. apply list.NoDup_app in Hnd as (_ & Hd & _). intros Hin. apply (Hd k Hin). left. }
  assert (Hm : forall rest, (length (quote_units k) + 2 + length (text_of v) <= n)%nat -> json_members (S n) (member_text (k, v) ++ rest) acc =
    match skip_space rest with 44 :: r => json_members n r (acc ++ [(k, v)]) | 125 :: r => Some (JObj (acc ++ [(k, v)]), r) | _ => None end).
  { intros rest Hle. unfold member_text, quote. cbn [fst snd app]. rewrite <- !app_assoc.
    cbn [app json_members skip_space Z.eqb Pos.eqb orb]. rewrite read_quoted by done. cbn [skip_space Z.eqb Pos.eqb orb].
    rewrite Hv by lia. by rewrite put_fresh. }
  destruct ps as [|p ps].
  - cbn [fmap list_fmap join_unit] in *. unfold member_text, quote in Hn. cbn [fst snd app length] in Hn.
    rewrite !length_app in Hn. cbn [length] in Hn. rewrite Hm by lia. done.
  - change (join_unit 44 (member_text <$> (k, v) :: p :: ps)) with (member_text (k, v) ++ 44 :: join_unit 44 (member_text <$> p :: ps)) in *.
    rewrite length_app in Hn. unfold member_text at 1, quote in Hn. cbn [fst snd app length] in Hn. rewrite !length_app in Hn. cbn [length] in Hn.
    rewrite <- app_assoc. cbn [app]. rewrite Hm by lia. cbn [skip_space Z.eqb Pos.eqb orb].
    rewrite IH; [by rewrite <- app_assoc|done| |lia]. by rewrite <- app_assoc.
Qed.

Definition texts_of (ps : list (jsstr * jv)) : list (jsstr * option jsstr) := map (fun p => match p with (k, x) => (k, stringify x) end) ps.

Lemma texts_keys ps : (texts_of ps).*1 = ps.*1.
Proof. unfold texts_of. induction ps as [|[k x] ps IH]; [done|]. cbn [map]. by rewrite !fmap_cons, IH. Qed.

Lemma texts_assoc ps k x : NoDup ps.*1 -> (k, x) ∈ ps -> assoc k (texts_of ps) = Some (stringify x).
Proof.
  unfold texts_of. induction ps as [|[k' y] ps IH]; intros Hnd Hin; [by apply not_elem_of_nil in Hin|].
  rewrite fmap_cons in Hnd. apply list.NoDup_cons in Hnd as [Hni Hnd]. cbn [map assoc fst] in *.
  apply elem_of_cons in Hin as [[= -> ->]|Hin]; [by rewrite bool_decide_eq_true_2|].
  rewrite bool_decide_eq_false_2; [by apply IH|]. intros ->. apply Hni. apply list_elem_of_fmap. by exists (k', x).
Qed.

(** The members of an object. *)
Lemma stringify_obj ps : NoDup ps.*1 -> obj_keys ps = ps.*1 -> Forall (fun p => stringify p.2 = Some (text_of p.2)) ps ->
  stringify (JObj ps) = Some (123 :: join_unit 44 (member_text <$> ps) ++ [125]).
Proof.
  intros Hnd Ho HF. cbn [stringify]. fold (texts_of ps). do 4 f_equal.
  replace (obj_keys (texts_of ps)) with ps.*1.
  2:{ rewrite <- Ho. unfold obj_keys. by rewrite texts_keys. }
  assert (H : Forall (fun p => assoc p.1 (texts_of ps) = Some (Some (text_of p.2))) ps).
  { apply list.Forall_forall. intros [k x] Hin. rewrite list.Forall_forall in HF. cbn [fst snd]. rewrite (texts_assoc ps k x) by done.
    f_equal. exact (HF (k, x) Hin). }
  revert H. generalize (texts_of ps). clear. intros texts. induction 1 as [|[k x] ps Hp _ IH]; [done|]. rewrite !fmap_cons. cbn [omap list_omap fst snd] in *.
  rewrite Hp. by rewrite IH.
Qed.

Lemma stringify_arr l : Forall (fun v => stringify v = Some (text_of v)) l ->
  stringify (JArr l) = Some (91 :: join_unit 44 (text_of <$> l) ++ [93]).
Proof.
  intros HF. cbn [stringify]. do 4 f_equal. induction HF as [|v l Hv _ IH]; [done|]. cbn [map]. rewrite fmap_cons, Hv. by rewrite IH.
Qed.

Lemma reads_text l : Forall reads l -> Forall (fun v => stringify v = Some (text_of v)) l.
Proof. intros HF. eapply list.Forall_impl; [exact HF|]. by intros v (? & _). Qed.

Lemma reads_by v t : stringify v = Some t -> starts t -> (forall n r, (length t <= n)%nat -> json_value n (t ++ r) = Some (v, r)) -> reads v.
Proof. intros E Hs Hv. unfold reads, text_of. by rewrite E. Qed.

Lemma reads_arr l : Forall reads l -> reads (JArr l).
Proof.
  intros HF. eapply reads_by; [by apply stringify_arr, reads_text|eexists _, _; split; [done|]; by apply (bool_decide_unpack _); vm_compute|].
  intros n r Hn. cbn [length] in Hn. rewrite length_app in Hn. cbn [length] in Hn. destruct n as [|n]; [lia|].
  cbn [app json_value skip_space Z.eqb Pos.eqb orb]. rewrite <- app_assoc. destruct l as [|v l]; [done|]. cbn [app].
  pose proof (Forall_inv HF) as (_ & Hs & _).
  assert (Hj : starts (join_unit 44 (text_of <$> v :: l))).
  { destruct Hs as (c & t & E & Hc). destruct l; cbn [fmap list_fmap join_unit]; rewrite E; [by eexists _, _|]. cbn [app]. by eexists _, _. }
  rewrite starts_skip by done. destruct Hj as (c & t & E & Hc). pose proof (elements_read (v :: l) HF ltac:(done) n r []) as He.
  rewrite E in *. cbn [app] in *. rewrite <- He by (cbn [length] in *; lia).
  repeat (apply elem_of_cons in Hc as [->|Hc]; [done|]). by apply not_elem_of_nil in Hc.
Qed.

Definition braces_text (ps : list (jsstr * jv)) : jsstr := 123 :: join_unit 44 (member_text <$> ps) ++ [125].

(** An object, whatever the order of its keys. *)
Lemma object_read ps n r : Forall (fun p => reads p.2 /\ Forall unit_ok p.1) ps -> NoDup ps.*1 ->
  (length (braces_text ps) <= n)%nat -> json_value n (braces_text ps ++ r) = Some (JObj ps, r).
Proof.
  intros HP Hnd Hn. unfold braces_text in *. cbn [length] in Hn. rewrite length_app in Hn. cbn [length] in Hn. destruct n as [|n]; [lia|].
  cbn [app json_value skip_space Z.eqb Pos.eqb orb]. rewrite <- app_assoc. destruct ps as [|p ps]; [done|]. cbn [app].
  pose proof (members_read (p :: ps) HP ltac:(done) n r []) as Hm. cbn [app] in Hm. specialize (Hm Hnd ltac:(lia)). rewrite <- Hm.
  by destruct ps; cbn [fmap list_fmap join_unit]; unfold member_text at 1 2, quote; cbn [app skip_space Z.eqb Pos.eqb orb].
Qed.

Lemma reads_obj ps : Forall reads ps.*2 -> NoDup ps.*1 -> obj_keys ps = ps.*1 -> Forall (Forall unit_ok) ps.*1 -> reads (JObj ps).
Proof.
  intros HF Hnd Ho Hk.
  assert (HP : Forall (fun p => reads p.2 /\ Forall unit_ok p.1) ps).
  { apply list.Forall_forall. intros p Hp. rewrite list.Forall_forall in HF. rewrite list.Forall_forall in Hk. split; [apply HF|apply Hk]; apply list_elem_of_fmap; by exists p. }
  eapply reads_by; [apply stringify_obj; [done|done|]|eexists _, _; split; [done|]; by apply (bool_decide_unpack _); vm_compute|].
  { eapply list.Forall_impl; [exact HP|]. by intros p [(? & _) _]. }
  intros n r Hn. by apply object_read.
Qed.

Lemma data_reads v : data v -> reads v.
Proof.
  revert v. apply (data_mut (fun v _ => reads v) (fun l _ => Forall reads l)).
  - eapply reads_by; [done|eexists _, _; split; [done|]; by apply (bool_decide_unpack _); vm_compute|]. by intros [|n] r Hn; [cbn in Hn; lia|].
  - intros [|]; (eapply reads_by; [done|eexists _, _; split; [done|]; by apply (bool_decide_unpack _); vm_compute|]); by intros [|n] r Hn; [cbn in Hn; lia|].
  - intros s Hs. eapply reads_by; [done|eexists _, _; split; [done|]; by apply (bool_decide_unpack _); vm_compute|]. unfold quote.
    intros [|n] r Hn; [cbn in Hn; lia|]. cbn [app json_value skip_space Z.eqb Pos.eqb orb]. rewrite <- app_assoc. cbn [app]. by rewrite read_quoted.
  - intros l _ HF. by apply reads_arr.
  - intros ps _ HF Hnd Ho Hk. by apply reads_obj.
  - constructor.
  - intros v l _ Hv _ Hl. by constructor.
Qed.

Lemma data_parsed v : data v -> json_parse_text (text_of v) = inr v.
Proof.
  intros (_ & _ & Hv)%data_reads. unfold json_parse_text. pose proof (Hv (S (length (text_of v))) [] ltac:(lia)) as H.
  rewrite app_nil_r in H. by rewrite H.
Qed.

(** What [JSON.stringify] writes of data (null, booleans, text, arrays and objects at any depth),
    [JSON.parse] reads back as the same data. *)
Theorem json_roundtrip v : data v -> exists t, stringify v = Some t /\ json_parse_text t = inr v.
Proof. intros Hv. exists (text_of v). split; [by apply data_reads|]. by apply data_parsed. Qed.

Lemma json_roundtrip_witness : exists t,
  stringify (JObj [(js "error", JStr [34; 10; 55357; 56832; 55357]); (js "scopes", JArr [JStr (js "a"); JNull; JBool true])]) = Some t /\
  json_parse_text t = inr (JObj [(js "error", JStr [34; 10; 55357; 56832; 55357]); (js "scopes", JArr [JStr (js "a"); JNull; JBool true])]).
Proof.
  apply json_roundtrip. apply data_obj.
  - repeat constructor; by apply (bool_decide_unpack _); vm_compute.
  - by apply (bool_decide_unpack _); vm_compute.
  - done.
  - by apply (bool_decide_unpack _); vm_compute.
Defined.
