(* ===== verification/SuiActions.v ===== *)
(** Swagger UI: the actions of the spec plugin and its wrapped actions, on the states of the
    plugins they read and dispatch to: parsing a document, executing a request. *)
From S2P Require Import Prelude JsString JsNumber YamlValue YamlTypes YamlLoader SuiUrl SuiImm SuiSpec SuiErr SuiOas3 JsJson.

(** What the actions use of the packages swagger-client, url-parse and serialize-error, and of
    the browser. *)
Class Client := {
  opId : jv -> jsstr -> jsstr -> jv;                    (* [fn.opId(op, pathName, method)] *)
  buildRequest : jv -> js_error + jv;                   (* [fn.buildRequest(request)] *)
  url_text : jv -> jv;                                  (* [urlParse(url).toString()] *)
  serializeError : jv -> jv;
  thrown : js_error -> jv;                              (* the Error object of an exception *)
  host_size : nat -> num                                (* [size] of a File or Blob *)
}.

Section Actions.
Context `{Host} `{Client} (hashCode : jv -> jsstr) (validateParam : jv -> bool -> bool -> js_error + list jv).

(** ** The system *)

Record system := { s_spec : jv; s_err : err_store; s_oas3 : jv }.

Definition dispatch (a : spec_action) (sys : system) : system :=
  {| s_spec := spec_reducer hashCode validateParam (s_spec sys) a; s_err := s_err sys; s_oas3 := s_oas3 sys |}.
(** A selector of the system: one that throws is logged and answers null. *)
Definition bound (r : js_error + jv) : jv := match r with inl _ => JNull | inr v => v end.

(** [v.toJS()] *)
Definition plain (v : jv) : js_error + jv :=
  if is_immutable v then inr (toJS v) else inl (TypeError "toJS is not a function").

(** The reducer of an error asks the system for the document, [specSelectors.specJson().toJS()]. *)
Definition js_spec (sys : system) : js_error + jv := plain (bound (specJson (s_spec sys))).
Definition dispatch_err (a : err_action) (sys : system) : system :=
  {| s_spec := s_spec sys; s_err := err_step (js_spec sys) (s_err sys) a; s_oas3 := s_oas3 sys |}.

(** The wrapped [specSelectors.isOAS3()] *)
Definition spec_isOAS3 (sys : system) : bool :=
  let json := bound (specJson (s_spec sys)) in
  match isOAS3 (returnSelfOrNewMap json) with inr yes => yes | inl _ => false end.

(** ** Action creators *)

(** [str.replace(/\t/g, "  ")] *)
Definition untab (s : jsstr) : jsstr := s ≫= (fun c => if c =? 9 then [32; 32] else [c]).

(** There is no action for what is no text. *)
Definition updateSpec (spec : jv) : option spec_action :=
  match spec with JStr s => Some (UPDATE_SPEC (JStr (untab s))) | _ => None end.
Definition updateResolved (spec : jv) : spec_action := UPDATE_RESOLVED spec.
Definition updateUrl (url : jv) : spec_action := UPDATE_URL url.
Definition updateJsonSpec (json : jv) : spec_action := UPDATE_JSON json.
Definition changeParam (path : list jsstr) (paramName paramIn : jsstr) (value : jv) (isXml : bool) : spec_action :=
  UPDATE_PARAM path (Some paramName) (Some paramIn) JUndef value isXml.
Definition changeParamByIdentity (pathMethod : list jsstr) (param value : jv) (isXml : bool) : spec_action :=
  UPDATE_PARAM pathMethod None None param value isXml.
Definition updateResolvedSubtree (path : list jsstr) (value : jv) : spec_action := UPDATE_RESOLVED_SUBTREE path value.
Definition invalidateResolvedSubtreeCache : spec_action := UPDATE_RESOLVED_SUBTREE [] empty_map.
Definition validateParams (payload : list jsstr) (isOAS3 : bool) : spec_action := VALIDATE_PARAMS payload isOAS3.
Definition updateEmptyParamInclusion (pathMethod : list jsstr) (paramName paramIn : jsstr) (includeEmptyValue : jv) : spec_action :=
  UPDATE_EMPTY_PARAM_INCLUSION pathMethod (Some paramName) (Some paramIn) includeEmptyValue.
Definition clearValidateParams (payload : list jsstr) : spec_action := CLEAR_VALIDATE_PARAMS payload.
Definition changeConsumesValue (path : list jsstr) (value : jv) : spec_action := UPDATE_OPERATION_META_VALUE path value (js "consumes_value").
Definition changeProducesValue (path : list jsstr) (value : jv) : spec_action := UPDATE_OPERATION_META_VALUE path value (js "produces_value").
Definition setResponse (path method : jsstr) (res : jv) : spec_action := SET_RESPONSE path method res.
Definition setRequest (path method : jsstr) (req : jv) : spec_action := SET_REQUEST path method req.
Definition setMutatedRequest (path method : jsstr) (req : jv) : spec_action := SET_MUTATED_REQUEST path method req.
Definition logRequest (req : jv) : spec_action := LOG_REQUEST req.
Definition clearResponse (path method : jsstr) : spec_action := CLEAR_RESPONSE path method.
Definition clearRequest (path method : jsstr) : spec_action := CLEAR_REQUEST path method.
Definition setScheme (scheme : jv) (path method : option jsstr) : spec_action := SET_SCHEME scheme path method.

(** ** Parsing a document *)

Section Parse.
Context {engine : JsEngine} (dateString : Z -> jsstr) (bi : builtins).

(** The object inherits the iterator of an array or a Buffer. *)
Fixpoint iterable (n : nat) (st : store) (proto : option value) : bool :=
  match proto with
  | Some (VRef l) =>
      match st_heap st !! l, n with
      | Some (OArr _), _ | Some (OBuf _), _ => true
      | Some (OObj _), S n' => iterable n' st (proto_of l (st_protos st))
      | _, _ => false
      end
  | _ => false
  end.

(** The loaded value as the data that [fromJSOrdered] makes of it; [None] where it throws: on a value
    that contains itself the stack runs out, and the bytes of a Buffer are no entries, unless they are
    0 and passed over.  A Date has no properties. *)
Fixpoint data_of (fuel : nat) (st : store) (v : value) : option jv :=
  match fuel with
  | O => None
  | S n =>
      match v with
      | VUndef => Some JUndef
      | VNull => Some JNull
      | VBool b => Some (JBool b)
      | VNum x => Some (JNum x)
      | VStr s => Some (JStr s)
      | VFunc _ _ => Some (JFun 0)
      | VRef l =>
          match st_heap st !! l with
          | Some (OArr vs) => JArr <$> mapM (data_of n st) vs
          | Some (OObj ps) =>
              if iterable (S (length (st_protos st))) st (proto_of l (st_protos st)) then
                es ← bi_entries bi v st;
                IMap true <$> mapM (fun p => pair p.1 ∘ ordered_value <$> data_of n st p.2) es
              else JObj <$> mapM (fun p => pair p.1 <$> data_of n st p.2) ps
          | Some (OBuf bytes) => if forallb (Z.eqb 0) bytes then Some (JObj []) else None
          | Some _ => Some (JObj [])
          | None => None
          end
      end
  end.

(** [v[name]] for a name no built-in prototype has *)
Definition read (st : store) (v : value) (name : string) : js_error + value :=
  match v with
  | VUndef | VNull => inl (TypeError "Cannot read property of undefined or null")
  | VRef _ => inr (match member_of st (js name) (Some v) with Found x => x | _ => VUndef end)
  | _ => inr VUndef
  end.

(** The paths of the references among the path items, up to an item that has no properties. *)
Fixpoint references (st : store) (items : list (jsstr * value)) : list (list jsstr) * option js_error :=
  match items with
  | [] => ([], None)
  | (k, v) :: items' =>
      match read st v "$ref" with
      | inl e => ([], Some e)
      | inr ref => let '(l, e) := references st items' in ((if negb (falsy ref) then [[js "paths"; k]] else []) ++ l, e)
      end
  end.

(** What [safeLoad] makes of a text that is not refused: the data that can be stored, whether it is an
    object or array, and the references among its path items. *)
Record document := {
  d_data : option jv;
  d_object : bool;
  d_references : list (list jsstr) * option js_error
}.

(** [get(json, ["paths"]) || {}] and its keys *)
Definition path_items (st : store) (json : value) : list (jsstr * value) :=
  match read st json "paths" with inr items => own_props (st_heap st) items | inl _ => [] end.

Definition document_of (st : store) (json : value) : document :=
  {| d_data := data_of (S (length (st_heap st))) st json; d_object := isObject json;
     d_references := references st (path_items st json) |}.

(** The loading of a text ends ([YamlTotal.loadDocuments_terminates]); a text without an end would be
    an exception. *)
Definition parse (str : jsstr) : js_error + document :=
  match safeLoad dateString bi str false false false with
  | Done v s => inr (document_of (store_of s) v)
  | Raise e _ => inl e
  | NoFuel => inl (RangeError "Maximum call stack size exceeded")
  end.

(** [e.reason], and [e.mark && e.mark.line ? e.mark.line + 1 : undefined] *)
Definition error_reason (e : js_error) : jv := match e with YAMLException r _ => JStr r | _ => JUndef end.
Definition error_line (e : js_error) : jv :=
  match e with
  | YAMLException _ (Some (_, line, _)) => if line =? 0 then JUndef else JNum (of_Z (line + 1))
  | _ => JUndef
  end.

Definition parser_error (e : js_error) : jv :=
  JObj [(js "source", JStr (js "parser")); (js "level", JStr (js "error")); (js "message", error_reason e); (js "line", error_line e)].

(** The wrapped [validateParams] *)
Definition validate_params (payload : list jsstr) (sys : system) : system :=
  dispatch (validateParams payload (spec_isOAS3 sys)) sys.

(** The system after an action, the paths asked of [requestResolvedSubtree], and the exception
    the wrapper of the action logs. *)
Record result := { r_system : system; r_asked : list (list jsstr); r_thrown : option js_error }.
Definition done (sys : system) : result := {| r_system := sys; r_asked := []; r_thrown := None |}.

(** The wrapped [updateJsonSpec]: the cache of resolved subtrees is emptied, and the path items
    that are references are asked for.  Where the document cannot be stored the reducer throws, and
    the one before stays. *)
Definition update_json (doc : document) (sys : system) : result :=
  let sys := match d_data doc with Some json => dispatch (updateJsonSpec json) sys | None => sys end in
  let sys := dispatch invalidateResolvedSubtreeCache sys in
  {| r_system := sys; r_asked := fst (d_references doc); r_thrown := snd (d_references doc) |}.

(** [parseToJson(str)]; the text of the state where none is given. *)
Definition parseToJson (str : jv) (sys : system) : result :=
  let text := js_or str (bound (specStr (s_spec sys))) in
  let cleared := dispatch_err (CLEAR (JObj [(js "source", JStr (js "parser"))])) sys in
  match parse (js_string text) with
  | inl e => done (dispatch_err (NEW_SPEC_ERR (parser_error e)) cleared)
  | inr doc => if d_object doc then update_json doc cleared else done cleared
  end.

(** The wrapped [updateSpec]: the text as given is parsed, the one stored has its tabs replaced.
    Dispatching no action throws, and then nothing is parsed. *)
Definition update_spec (spec : jv) (sys : system) : result :=
  match updateSpec spec with
  | Some a => parseToJson spec (dispatch a sys)
  | None => {| r_system := sys; r_asked := []; r_thrown := Some (PlainError "Actions must be plain objects") |}
  end.
End Parse.

(** ** Executing a request *)

Abbreviation object := (list (jsstr * jv)).

Definition field_of (o : object) (k : string) : jv := default JUndef (assoc (js k) o).

Definition isJSONObject (v : jv) : option jv :=
  match json_parse_text (js_string v) with inr o => if is_object o then Some o else None | inl _ => None end.

(** [!paramValue || paramValue && paramValue.size === 0] *)
Definition is_empty_value (v : jv) : bool :=
  negb (truthy v) ||
  match v with
  | JObj ps => match assoc (js "size") ps with Some (JNum (Zero _)) => true | _ => false end
  | JHost i => match host_size i with Zero _ => true | _ => false end
  | _ => false
  end.

(** One parameter with [allowEmptyValue]: where the form says so, an empty value is sent for it.
    The value is looked for, and put, under the name of the parameter. *)
Definition include_empty (spec : jv) (pathName method : jsstr) (req : object) (param : jv) : js_error + object :=
  let? name := prop param (js "name") in
  let? inn := prop param (js "in") in
  if truthy (parameterInclusionSettingFor spec [pathName; method] (js_string name) (js_string inn)) then
    match js_or (field_of req "parameters") (JObj []) with
    | JObj ps =>
        let k := js_string name in
        let ps := if is_empty_value (default JUndef (assoc k ps)) then set_prop k (JStr []) ps else ps in
        inr (set_prop (js "parameters") (JObj ps) req)
    | _ => inl (TypeError "Cannot create property")
    end
  else inr req.

Definition allows_empty (param : jv) : bool :=
  match param with JObj ps => match assoc (js "allowEmptyValue") ps with Some (JBool true) => true | _ => false end | _ => false end.

Fixpoint fold_result {A B} (f : A -> B -> js_error + A) (acc : A) (l : list B) : js_error + A :=
  match l with [] => inr acc | x :: l' => let? acc := f acc x in fold_result f acc l' end.

(** The parameters of the operation. *)
Definition empty_values (spec : jv) (pathName method : jsstr) (op : object) (req : object) : js_error + object :=
  match field_of op "parameters" with
  | JArr params => fold_result (include_empty spec pathName method) req (base.filter (fun p => allows_empty p = true) params)
  | JStr (_ :: _) => inl (TypeError "op.parameters.filter is not a function")
  | JObj ps => if truthy (field_of ps "length") then inl (TypeError "op.parameters.filter is not a function") else inr req
  | _ => inr req
  end.

(** The id of the operation. *)
Definition with_operationId (op : object) (pathName method : jsstr) (req : object) : object :=
  if truthy (field_of op "operationId") then set_prop (js "operationId") (field_of op "operationId") req
  else if truthy (JStr pathName) && truthy (JStr method) then set_prop (js "operationId") (opId (JObj op) pathName method) req
  else req.

(** The result of an OpenAPI 3 selector: null where the document is of another version. *)
Definition or_null (o : option jv) : jv := default JNull o.

Definition variables (json oas3 server : jv) (namespace : option jsstr) : js_error + jv :=
  let? v := serverVariables json oas3 (Located (js_string server) namespace) in
  plain (or_null v).

(** The server, its variables, the media types and the body of an OpenAPI 3 request. *)
Definition with_oas3 (sys : system) (pathName method : jsstr) (req : object) : js_error + object :=
  let json := bound (specJson (s_spec sys)) in
  if spec_isOAS3 sys then
    let namespace := pathName ++ 58 :: method in
    let? own := selectedServer json (s_oas3 sys) (Some namespace) in
    let? global := selectedServer json (s_oas3 sys) None in
    let server := js_or (or_null own) (or_null global) in
    let? namespaceVariables := variables json (s_oas3 sys) server (Some namespace) in
    let? globalVariables := variables json (s_oas3 sys) server None in
    let chosen := match namespaceVariables with JObj (_ :: _) | JArr (_ :: _) => namespaceVariables | _ => globalVariables end in
    let? requestType := requestContentType json (s_oas3 sys) pathName method in
    let? responseType := responseContentType json (s_oas3 sys) pathName method in
    let? body := requestBodyValue json (s_oas3 sys) pathName method in
    let body := or_null body in
    let requestBody := match isJSONObject body with Some o => o | None => if is_immutable body then toJS body else body end in
    inr (set_prop (js "requestBody") requestBody
          (set_prop (js "responseContentType") (js_or (or_null responseType) (JStr (js "*/*")))
            (set_prop (js "requestContentType") (or_null requestType)
              (set_prop (js "serverVariables") chosen (set_prop (js "server") server req)))))
  else inr req.

(** [executeRequest(req)] up to [fn.execute]: the system with the request recorded, and the request
    that is sent.  The interceptors are functions of the system ([wrapper], [interceptor]). *)
Definition executeRequest (wrapper interceptor : jv) (req : object) (sys : system) : js_error + (system * object) :=
  let pathName := js_string (field_of req "pathName") in
  let method := js_string (field_of req "method") in
  let operation := field_of req "operation" in
  let? op := plain operation in
  let op := match op with JObj o => o | _ => [] end in
  let? req := empty_values (s_spec sys) pathName method op req in
  let req := set_prop (js "contextUrl") (url_text (bound (SuiSpec.url (s_spec sys)))) req in
  let req := with_operationId op pathName method req in
  let? req := with_oas3 sys pathName method req in
  let? parsed := buildRequest (JObj req) in
  let sys := dispatch (setRequest pathName method parsed) sys in
  inr (sys, set_prop (js "responseInterceptor") interceptor (set_prop (js "requestInterceptor") wrapper req)).

(** [requestInterceptorWrapper]: the request the interceptor answers is recorded. *)
Definition intercepted (pathName method : jsstr) (mutatedRequest : jv) (sys : system) : system :=
  dispatch (setMutatedRequest pathName method (match mutatedRequest with JObj ps => JObj (SuiSpec.assign [] (JObj ps)) | _ => JObj [] end)) sys.

(** The handlers of the answer: [.then(...)], and [.catch(...)] for it and for the first. *)
Definition on_answer (pathName method : jsstr) (duration : Z) (res : jv) (sys : system) : js_error + system :=
  match res with
  | JObj ps => inr (dispatch (setResponse pathName method (JObj (set_prop (js "duration") (JNum (of_Z duration)) ps))) sys)
  | JArr _ | JHost _ | JFun _ | IList _ | IMap _ _ => inr (dispatch (setResponse pathName method res) sys)
  | _ => inl (TypeError "Cannot set property 'duration'")
  end.
Definition on_failure (pathName method : jsstr) (err : jv) (sys : system) : system :=
  dispatch (setResponse pathName method (JObj [(js "error", JBool true); (js "err", serializeError err)])) sys.

(** The promise of [fn.execute] is settled. *)
Definition answered (pathName method : jsstr) (duration : Z) (outcome : jv + jv) (sys : system) : system :=
  match outcome with
  | inr res => match on_answer pathName method duration res sys with inr sys => sys | inl e => on_failure pathName method (thrown e) sys end
  | inl err => on_failure pathName method err sys
  end.

(** The media types of an operation, and whether its body is XML. *)
Definition content_types (state : jv) (path method : jsstr) : js_error + object :=
  let? types := plain (bound (contentTypeValues state [path; method])) in
  inr (match types with JObj ts => ts | _ => [] end).
Definition sends_xml (types : object) : bool := contains_xml (js_string (field_of types "requestContentType")).

(** The request [execute] makes for [{ path, method, ...extras }]. *)
Definition request_of (fetch : jv) (path method : jsstr) (extras : object) (sys : system) : js_error + object :=
  let? spec := plain (bound (specJsonWithResolvedSubtrees (s_spec sys))) in
  let scheme := bound (operationScheme (s_spec sys) path method) in
  let? types := content_types (s_spec sys) path method in
  let? values := plain (bound (parameterValues hashCode (s_spec sys) [path; method] (sends_xml types))) in
  inr (foldl (fun r p => set_prop (fst p) (snd p) r) extras
    [(js "fetch", fetch); (js "spec", spec); (js "pathName", JStr path); (js "method", JStr method); (js "parameters", values);
     (js "requestContentType", field_of types "requestContentType"); (js "scheme", scheme);
     (js "responseContentType", field_of types "responseContentType")]).

(** [execute({ path, method, ...extras })].  The wrapped [executeRequest] logs the request, which
    changes nothing; where it throws, the exception is logged and no request is sent. *)
Definition execute (fetch wrapper interceptor : jv) (path method : jsstr) (extras : object) (sys : system)
    : js_error + (system * option object) :=
  let? req := request_of fetch path method extras sys in
  let sys := dispatch (logRequest (JObj req)) sys in
  inr (match executeRequest wrapper interceptor req sys with inr (sys, req) => (sys, Some req) | inl _ => (sys, None) end).
End Actions.

(** A property of an object is the entry of its OrderedMap. *)
Lemma ordered_get `{Host} k ps : im_get (ordered_value (JObj ps)) k = ordered_value <$> assoc k ps.
Proof. cbn [ordered_value im_get]. by rewrite assoc_in_key_order, assoc_map_values. Qed.
