(* ===== verification/SuiRequest.v ===== *)
(** Swagger UI: what [execute] sends for an operation, and what the state keeps of the request
    and of its answer. *)
From S2P Require Import Prelude JsString JsNumber YamlValue YamlTypes YamlLoader SuiUrl SuiImm SuiSpec SuiErr SuiOas3 SuiParams SuiActions.

(** ** Objects *)

Abbreviation object := (list (jsstr * jv)).

Lemma field_set_eq k v o : js k <> js "__proto__" -> field_of (set_prop (js k) v o) k = v.
Proof. intros Hk. unfold field_of. rewrite assoc_set_prop. by rewrite bool_decide_eq_true_2. Qed.

Lemma field_set_ne k k' v o : js k <> js k' -> field_of (set_prop (js k') v o) k = field_of o k.
Proof. intros Hk. unfold field_of. rewrite assoc_set_prop. by rewrite bool_decide_eq_false_2 by tauto. Qed.

(** Fields of an object built by assignments. *)
Ltac fields := repeat first [rewrite field_set_eq by done | rewrite field_set_ne by done].

Section Request.
Context `{Host} `{Client} (hashCode : jv -> jsstr) (validateParam : jv -> bool -> bool -> js_error + list jv).

(** ** Media types *)

Section Types.
Context (state : jv) (path method : jsstr) (ps : list jv) (m : jv) (HO : operation_at state path method ps m).

Lemma meta_get k : get (getIn_or state (meta_path [path; method]) empty_map) k =
  inr (default JUndef (getIn state (meta_path [path; method] ++ [k]))).
Proof.
  rewrite getIn_app. unfold getIn_or. pose proof (meta_is_map state path method ps m HO) as Hm. unfold getIn_or in Hm.
  destruct (getIn state (meta_path [path; method])) as [v|]; [|done]. cbn [default id] in *. rewrite get_map by done.
  by rewrite getIn_single.
Qed.

Lemma types_total : exists o ps, contentTypeValues state [path; method] = inr (IMap o ps).
Proof.
  destruct (op_spec _ _ _ _ _ HO) as (spec & Es & Eo). destruct (operation_of path method ps spec Eo) as (o & ops & E1 & E2).
  unfold contentTypeValues, currentProducesFor. rewrite Es. cbn [rbind]. unfold getIn_or. rewrite E1. cbn [default id is_immutable is_map orb].
  cbn [rbind]. rewrite get_map by done. cbn [rbind]. fold (getIn_or state (meta_path [path; method]) empty_map). rewrite meta_get.
  cbn [rbind fromJS]. by eexists _, _.
Qed.

Lemma content_types_total : exists ts, content_types state path method = inr ts.
Proof. destruct types_total as (o & es & E). unfold content_types. rewrite E. cbn. by eexists. Qed.
End Types.

(** Values of parameters do not bear on the media types. *)
Lemma types_frame state state' path method ps m m' : operation_at state path method ps m -> operation_at state' path method ps m' ->
  (forall q, diverges (meta_path [path; method] ++ [js "parameters"]) q -> getIn state' q = getIn state q) ->
  content_types state' path method = content_types state path method.
Proof.
  intros HO HO' Hf. unfold content_types, contentTypeValues, currentProducesFor.
  rewrite (subtrees_frame state state') by (apply HO || apply HO' || (intros k [->| ->]; rewrite <- !getIn_single; apply Hf; by left)).
  rewrite (meta_get state _ _ _ _ HO), (meta_get state' _ _ _ _ HO'). unfold getIn_or.
  assert (D : forall k, k <> js "parameters" -> getIn state' (meta_path [path; method] ++ [k]) = getIn state (meta_path [path; method] ++ [k])).
  { intros k Hk%not_eq_sym. apply Hf. cbn [meta_path app diverges]. by repeat (right; split; [done|]); left. }
  by rewrite (D (js "produces_value")), (D (js "consumes_value")).
Qed.

(** ** Empty values *)

(** [req'] is [req] with other values of parameters, but for the one of [k]. *)
Record same_request (k : jsstr) (req req' : object) : Prop := {
  kept_fields : forall f, js f <> js "parameters" -> field_of req' f = field_of req f;
  kept_value : forall vs, field_of req "parameters" = JObj vs ->
    exists vs', field_of req' "parameters" = JObj vs' /\ assoc k vs' = assoc k vs
}.

#[local] Instance same_request_refl k : Reflexive (same_request k).
Proof. intros req. split; [done|]. intros vs E. by exists vs. Qed.

#[local] Instance same_request_trans k : Transitive (same_request k).
Proof.
  intros a b c [F1 V1] [F2 V2]. split.
  - intros f Hf. by rewrite F2, F1.
  - intros vs E. destruct (V1 vs E) as (vs1 & E1 & A1). destruct (V2 vs1 E1) as (vs2 & E2 & A2). exists vs2. by rewrite A2.
Qed.

(** An empty value for [q] leaves the one of [k]. *)
Definition keeps_key (k : jsstr) (q : jv) : Prop :=
  match q with JObj qs => js_string (field_of qs "name") <> k | _ => True end.

Lemma include_empty_spec k spec path method req vs q : field_of req "parameters" = JObj vs -> allows_empty q = true -> keeps_key k q ->
  exists req', include_empty spec path method req q = inr req' /\ same_request k req req'.
Proof.
  intros E Ha Hk. destruct q as [| | | | | |qs| | | |]; try done. unfold include_empty. cbn [prop rbind].
  destruct (truthy (parameterInclusionSettingFor _ _ _ _)); [|by exists req]. rewrite E. cbn [js_or truthy].
  eexists. split; [done|]. split.
  - intros f Hf. by apply field_set_ne.
  - rewrite E. intros ? [= <-]. eexists. split; [by apply field_set_eq|]. cbn [keeps_key] in Hk. unfold field_of in Hk.
    destruct (is_empty_value _); [|done]. rewrite assoc_set_prop. by rewrite bool_decide_eq_false_2 by (intros [? _]; congruence).
Qed.

Lemma include_all_spec k spec path method qs : Forall (fun q => allows_empty q = true /\ keeps_key k q) qs -> forall req vs,
  field_of req "parameters" = JObj vs ->
  exists req', fold_result (include_empty spec path method) req qs = inr req' /\ same_request k req req'.
Proof.
  induction 1 as [|q qs [Ha Hk] _ IH]; intros req vs E; [by exists req|]. cbn [fold_result].
  destruct (include_empty_spec k spec path method req vs q E Ha Hk) as (r1 & -> & S1). cbn [rbind].
  destruct (kept_value _ _ _ S1 vs E) as (vs1 & E1 & _). destruct (IH r1 vs1 E1) as (r2 & -> & S2).
  exists r2. split; [done|]. by transitivity r1.
Qed.

(** The operation handed to [execute]: its parameters are a List, and those that may be sent empty
    are not called [k]. *)
Definition executable (k : jsstr) (operation : jv) : Prop :=
  exists o ops, operation = IMap o ops /\
    match assoc (js "parameters") ops with
    | None => True
    | Some (IList l) => forall q, q ∈ l -> allows_empty (toJS q) = true -> keeps_key k (toJS q)
    | Some _ => False
    end.

Lemma empty_values_spec k spec path method o ops req vs : executable k (IMap o ops) -> field_of req "parameters" = JObj vs ->
  exists req', empty_values spec path method (map (fun p => match p with (k, x) => (k, toJS x) end) ops) req = inr req' /\
    same_request k req req'.
Proof.
  intros (o' & ops' & [= _ <-] & Hl) E. unfold empty_values, field_of at 1. rewrite assoc_map_values.
  destruct (assoc (js "parameters") ops) as [[]|]; try done; cbn [fmap option_fmap option_map default id]; [|by exists req].
  cbn [toJS]. apply (include_all_spec k _ _ _ _) with (vs := vs); [|done]. apply list.Forall_forall. intros q Hq.
  apply list_elem_of_filter in Hq as [Ha Hq]. apply list_elem_of_fmap in Hq as (x & -> & Hx). split; [done|]. by apply Hl.
Qed.

(** ** The parts of [executeRequest] *)

Lemma with_operationId_field op path method req f : js f <> js "operationId" ->
  field_of (with_operationId op path method req) f = field_of req f.
Proof. intros Hf. unfold with_operationId. repeat case_match; by fields. Qed.

(** The values chosen for the variables of a server are collections. *)
Definition servers_ok (sys : system) : Prop :=
  spec_isOAS3 sys = true -> forall l, is_immutable (getIn_truthy (s_oas3 sys) (location_path l) (IMap true [])) = true.

Definition oas3_fields : list jsstr :=
  js <$> ["server"; "serverVariables"; "requestContentType"; "responseContentType"; "requestBody"]%string.

Lemma isOAS3_document sys : spec_isOAS3 sys = true -> isOAS3 (bound (specJson (s_spec sys))) = inr true.
Proof.
  unfold spec_isOAS3, returnSelfOrNewMap. destruct (bound _); try done. cbn [is_map]. by destruct (isOAS3 _) as [|[]].
Qed.

Lemma variables_total sys server n : servers_ok sys -> spec_isOAS3 sys = true ->
  exists v, variables (bound (specJson (s_spec sys))) (s_oas3 sys) server n = inr v.
Proof.
  intros Hs Hy. unfold variables, serverVariables, onlyOAS3. rewrite isOAS3_document by done. cbn [rbind or_null default id].
  unfold plain. rewrite (Hs Hy (Located (js_string server) n)). by eexists.
Qed.

Lemma with_oas3_spec sys path method req : servers_ok sys ->
  exists req', with_oas3 sys path method req = inr req' /\ forall f, js f ∉ oas3_fields -> field_of req' f = field_of req f.
Proof.
  intros Hs. unfold with_oas3. destruct (spec_isOAS3 sys) eqn:Hy; [|by exists req].
  unfold selectedServer, requestContentType, responseContentType, requestBodyValue, onlyOAS3.
  rewrite isOAS3_document by done. cbn [rbind].
  edestruct variables_total as [v1 ->]; [done|done|]. cbn [rbind]. edestruct variables_total as [v2 ->]; [done|done|].
  cbn [rbind]. eexists. split; [done|]. intros f Hf. unfold oas3_fields in Hf. cbn [fmap list_fmap] in Hf.
  repeat (apply not_elem_of_cons in Hf as [? Hf]). by fields.
Qed.

Lemma entry_for s k path method x : is_map s = true -> getIn s [k; path; method] = Some x ->
  (let? r := get_or (self s) k empty_map in inr (getIn_or r [path; method] JNull)) = inr x.
Proof.
  intros Hs E. replace (self s) with s by (by destruct s). rewrite get_or_map by done. cbn [rbind getIn] in *.
  destruct (im_get s k) as [r|]; [|done]. cbn [default id]. unfold getIn_or. cbn [getIn]. by rewrite E.
Qed.

(** [setRequest] is found by [requestFor]. *)
Lemma request_recorded sys path method built r : maps_along (s_spec sys) [js "requests"; path; method] = true ->
  fromJSOrdered built = inr r ->
  requestFor (s_spec (dispatch hashCode validateParam (setRequest path method built) sys)) path method = inr r.
Proof.
  intros Hm Er. unfold requestFor, dispatch. cbn [s_spec]. unfold spec_reducer.
  rewrite makeReducer_map by (cbn [maps_along] in Hm; by apply andb_true_iff in Hm as [? _]).
  cbn [spec_reducers setRequest]. rewrite Er. cbn [rbind].
  destruct (setIn_spec (s_spec sys) [js "requests"; path; method] r) as (s' & -> & M & G & _); [done|done|].
  destruct s'; try done. by apply entry_for.
Qed.

(** The state under which a request can be handed to swagger-client and recorded. *)
Record sendable (sys : system) (path method : jsstr) : Prop := {
  send_servers : servers_ok sys;
  send_requests : maps_along (s_spec sys) [js "requests"; path; method] = true
}.

Lemma executeRequest_spec k wrapper interceptor path method vs req sys :
  field_of req "pathName" = JStr path -> field_of req "method" = JStr method -> field_of req "parameters" = JObj vs ->
  executable k (field_of req "operation") -> sendable sys path method ->
  exists r vs',
    field_of r "pathName" = JStr path /\ field_of r "method" = JStr method /\
    field_of r "parameters" = JObj vs' /\ assoc k vs' = assoc k vs /\
    executeRequest hashCode validateParam wrapper interceptor req sys =
      (let? built := buildRequest (JObj r) in
       inr (dispatch hashCode validateParam (setRequest path method built) sys,
            set_prop (js "responseInterceptor") interceptor (set_prop (js "requestInterceptor") wrapper r))).
Proof.
  intros Ep Em Ev Ho [Hs _]. unfold executeRequest. rewrite Ep, Em. destruct Ho as (o & ops & Eo & Hl). rewrite Eo.
  cbn [plain is_immutable is_map orb rbind toJS].
  destruct (empty_values_spec k (s_spec sys) path method o ops req vs) as (r1 & E1 & S1); [by exists o, ops|done|].
  cbn [js_string] in *. rewrite E1. cbn [rbind].
  destruct (with_oas3_spec sys path method (with_operationId (map (fun p => match p with (k, x) => (k, toJS x) end) ops) path method
    (set_prop (js "contextUrl") (url_text (bound (SuiSpec.url (s_spec sys)))) r1)) Hs) as (r2 & E2 & F2).
  rewrite E2. cbn [rbind].
  assert (F : forall f, js f ∉ oas3_fields -> js f <> js "operationId" -> js f <> js "contextUrl" -> field_of r2 f = field_of r1 f).
  { intros f H1 H2 H3. rewrite F2, with_operationId_field by done. by fields. }
  destruct (kept_value _ _ _ S1 vs Ev) as (vs' & E4 & A4). exists r2, vs'.
  rewrite !F by (by apply (bool_decide_unpack _); vm_compute). by rewrite !(kept_fields _ _ _ S1) by done.
Qed.

(** ** [execute] *)

Lemma subtrees_is_map s spec : specJsonWithResolvedSubtrees s = inr spec -> is_map spec = true.
Proof. unfold specJsonWithResolvedSubtrees, rbind. repeat case_match; try done. by intros [= <-]. Qed.

Lemma request_of_spec fetch path method extras sys ps m : operation_at (s_spec sys) path method ps m ->
  exists types h r, content_types (s_spec sys) path method = inr types /\
    parameterValues hashCode (s_spec sys) [path; method] (sends_xml types) = inr (IMap false h) /\
    request_of hashCode fetch path method extras sys = inr r /\
    field_of r "pathName" = JStr path /\ field_of r "method" = JStr method /\ field_of r "parameters" = toJS (IMap false h) /\
    field_of r "operation" = field_of extras "operation".
Proof.
  intros HO. destruct (content_types_total _ _ _ _ _ HO) as [types Et].
  destruct (parameterValues_spec hashCode _ _ _ _ _ HO (sends_xml types)) as (h & Eh & _).
  destruct (op_spec _ _ _ _ _ HO) as (spec & Es & _). pose proof (subtrees_is_map _ _ Es) as Ms.
  exists types, h. eexists. split; [done|]. split; [done|]. split.
  { unfold request_of. rewrite Es. unfold plain at 1, is_immutable. cbn [bound]. rewrite Ms. cbn [orb rbind].
    rewrite Et. cbn [rbind]. rewrite Eh. done. }
  cbn [foldl fst snd]. by fields.
Qed.

(** Whether what is typed for [p] is stored as XML. *)
Definition typed_as_xml (sys : system) (path method : jsstr) (p : jv) : bool :=
  match content_types (s_spec sys) path method with inr types => sends_xml types | inl _ => false end && bool_decide (pin p = js "body").

Definition type_value (path method : jsstr) (p v : jv) (sys : system) : system :=
  dispatch hashCode validateParam (changeParamByIdentity [path; method] p v (typed_as_xml sys path method p)) sys.

(** What is typed changes only the state of the spec plugin, and there only the parameters. *)
Lemma type_value_spec sys path method ps m p v : operation_at (s_spec sys) path method ps m -> p ∈ ps ->
  let sys' := type_value path method p v sys in
  (exists m', operation_at (s_spec sys') path method ps m' /\
     forall types, content_types (s_spec sys) path method = inr types ->
       stored hashCode m' p (value_field (sends_xml types) p) = Some v) /\
  content_types (s_spec sys') path method = content_types (s_spec sys) path method /\
  (forall k, js k <> js "meta" -> im_get (s_spec sys') (js k) = im_get (s_spec sys) (js k)).
Proof.
  intros HO Hp. cbv zeta. set (isXml := typed_as_xml sys path method p).
  destruct (change_state hashCode validateParam _ path method ps m p v isXml HO Hp) as [HO' Hf].
  change (spec_reducer hashCode validateParam (s_spec sys) _) with (s_spec (type_value path method p v sys)) in *. split; [|split].
  - exists (with_value hashCode m p v isXml). split; [done|]. intros types Et.
    replace (value_field (sends_xml types) p) with (js (if isXml then "value_xml" else "value")); [apply stored_changed, HO|].
    unfold isXml, typed_as_xml, value_field. rewrite Et. by destruct (_ && _).
  - by eapply types_frame.
  - intros k Hk. rewrite <- !getIn_single. apply Hf. left. by apply not_eq_sym.
Qed.

Lemma sendable_typed sys path method ps m p v : operation_at (s_spec sys) path method ps m -> p ∈ ps ->
  sendable sys path method -> sendable (type_value path method p v sys) path method.
Proof.
  intros HO Hp [Hs Hr]. destruct (type_value_spec sys path method ps m p v HO Hp) as ((m' & HO' & _) & _ & Hf).
  pose proof (op_state _ _ _ _ _ HO) as M. pose proof (op_state _ _ _ _ _ HO') as M'. split.
  - intros Hy l. apply Hs. revert Hy. unfold spec_isOAS3, specJson.
    replace (self (s_spec sys)) with (s_spec sys) by (by destruct (s_spec sys)).
    replace (self (s_spec (type_value path method p v sys))) with (s_spec (type_value path method p v sys))
      by (by destruct (s_spec (type_value path method p v sys))).
    rewrite !get_or_map by done. by rewrite Hf.
  - revert Hr. cbn [maps_along]. rewrite M, M'. by rewrite Hf.
Qed.

(** C3: A value typed for a parameter is sent: [execute] then hands swagger-client a request that has
    the value under "in.name" among its parameters.  Where swagger-client can build it, the request is
    sent, and [requestFor] finds what was built; where it throws, nothing is sent and the state is the
    one after typing.  The operation is in the document, no parameter that may be sent empty is called
    "in.name", and the state holds Maps where requests and server variables are kept. *)
Theorem typed_value_executed fetch wrapper interceptor extras path method sys ps m p v :
  operation_at (s_spec sys) path method ps m -> p ∈ ps ->
  executable (valueKey p) (field_of extras "operation") -> sendable sys path method ->
  let typed := type_value path method p v sys in
  let run := execute hashCode validateParam fetch wrapper interceptor path method extras typed in
  exists r vs,
    field_of r "pathName" = JStr path /\ field_of r "method" = JStr method /\
    field_of r "parameters" = JObj vs /\ assoc (valueKey p) vs = Some (toJS v) /\
    match buildRequest (JObj r) with
    | inl _ => run = inr (typed, None)
    | inr built => exists sys',
        run = inr (sys', Some (set_prop (js "responseInterceptor") interceptor (set_prop (js "requestInterceptor") wrapper r))) /\
        forall b, fromJSOrdered built = inr b -> requestFor (s_spec sys') path method = inr b
    end.
Proof.
  intros HO Hp He Hs. cbv zeta. pose proof (sendable_typed sys path method ps m p v HO Hp Hs) as Hs'.
  destruct (type_value_spec sys path method ps m p v HO Hp) as ((m' & HO' & Hv) & Et & _).
  set (typed := type_value path method p v sys) in *.
  destruct (request_of_spec fetch path method extras _ ps m' HO') as (types & h & r & E1 & E2 & E3 & F1 & F2 & F3 & F4).
  destruct (parameterValues_spec hashCode _ _ _ _ _ HO' (sends_xml types)) as (h' & E2' & Hh). rewrite E2 in E2'. injection E2' as <-.
  unfold execute. rewrite E3. cbn [rbind]. rewrite <- F4 in He. cbn [toJS] in F3.
  replace (dispatch hashCode validateParam (logRequest (JObj r)) typed) with typed.
  2:{ unfold dispatch at 1, spec_reducer. rewrite makeReducer_map by apply HO'. by destruct typed. }
  destruct (executeRequest_spec (valueKey p) wrapper interceptor path method _ r typed F1 F2 F3 He Hs')
    as (r' & vs' & G1 & G2 & G3 & G4 & ->).
  exists r', vs'. do 3 (split; [done|]). split.
  { rewrite G4, assoc_map_values, Hh by done. rewrite Hv by congruence. done. }
  destruct (buildRequest (JObj r')) as [e|built]; cbn [rbind]; [done|]. eexists. split; [done|].
  intros b Eb. apply request_recorded; [apply Hs'|done].
Qed.

(** ** The answer *)

Abbreviation response_path path method := [js "responses"; path; method].

(** The Blob that is an answer's data *)
Definition blob_in (data : jv) : option nat := match data with JHost id => if is_blob id then Some id else None | _ => None end.

(** A response is stored, with a Blob once more as its text. *)
Lemma store_response s path method ps data : maps_along s (response_path path method) = true ->
  exists s' r, (let? newState := setIn s (response_path path method) (ordered_value (JObj ps)) in
     match data with
     | JHost id => if is_blob id then setIn newState [js "responses"; path; method; js "text"] data else inr newState
     | _ => inr newState
     end) = inr s' /\ is_map s' = true /\ getIn s' (response_path path method) = Some r /\
    (forall k, im_get r k = match blob_in data with
       | Some id => if bool_decide (k = js "text") then Some (JHost id) else ordered_value <$> assoc k ps
       | None => ordered_value <$> assoc k ps end) /\
    (forall q, diverges (response_path path method) q -> getIn s' q = getIn s q).
Proof.
  intros Hm. set (v := ordered_value (JObj ps)).
  destruct (setIn_spec s (response_path path method) v) as (s1 & -> & M1 & G1 & F1 & A1); [done|done|]. cbn [rbind].
  assert (Hv : forall k, im_get v k = ordered_value <$> assoc k ps) by (intros; apply ordered_get).
  destruct (blob_in data) as [id|] eqn:Eb.
  2:{ exists s1, v. split; [|done]. unfold blob_in in Eb. destruct data; try done. by destruct (is_blob id). }
  unfold blob_in in Eb. destruct data; try done. destruct (is_blob id0) eqn:Ei; [|done]. injection Eb as ->.
  change [js "responses"; path; method; js "text"] with (response_path path method ++ [js "text"]). unfold setIn. rewrite updateIn_app.
  destruct (updateIn_spec s1 (response_path path method) None
    (fun o => let? r := update_deep o [js "text"] None (fun _ => inr (NewValue (JHost id))) in inr (as_updated r))
    (NewValue (im_set v (js "text") (JHost id)))) as (s2 & -> & M2 & G2 & F2 & _); [done|done| |].
  { rewrite G1. cbn [update_deep is_immutable is_map orb v ordered_value rbind]. by case_match. }
  exists s2, (im_set v (js "text") (JHost id)). split; [done|]. split; [done|]. split; [done|]. split.
  - intros k. case_bool_decide as Ek; [subst k; by apply im_get_set_eq|by rewrite im_get_set_ne].
  - intros q Hq. by rewrite F2, F1.
Qed.

(** What is kept of a failure, by its serialised error: that it is one, the name, message and status of
    the error, and then the properties of the response it carries, which win. *)
Definition failure_of (e : jv) : object :=
  let field k := match e with JObj es => field_of es k | _ => JUndef end in
  assign [(js "error", JBool true); (js "name", field "name"%string); (js "message", field "message"%string);
          (js "statusCode", field "statusCode"%string)] (field "response"%string).

Definition no_object (e : jv) : bool := match e with JBool _ | JNum _ | JStr _ => true | _ => false end.
Definition plain_error (e : jv) : bool := match e with JObj _ => true | _ => no_object e end.

(** What the promise of a request is settled with, and what is kept of it: an object that reports no
    error; one that does; no object, in place of which the exception of the handler is kept; or a
    failure. *)
Inductive answers (duration : Z) : jv + jv -> object -> Prop :=
  | Answered ps : truthy (field_of ps "error") = false ->
      answers duration (inr (JObj ps)) (set_prop (js "duration") (JNum (of_Z duration)) ps)
  | Reported ps : truthy (field_of ps "error") = true -> plain_error (field_of ps "err") = true ->
      answers duration (inr (JObj ps)) (failure_of (field_of ps "err"))
  | NoAnswer v e : no_object v = true \/ v = JUndef \/ v = JNull ->
      e = serializeError (thrown (TypeError "Cannot set property 'duration'")) -> plain_error e = true ->
      answers duration (inr v) (failure_of e)
  | Failed err : plain_error (serializeError err) = true -> answers duration (inl err) (failure_of (serializeError err)).

(** The object that is stored always has headers. *)
Definition with_headers (o : object) : object :=
  let h := field_of o "headers" in set_prop (js "headers") (if truthy h then h else JObj []) o.

Definition answer_blob (outcome : jv + jv) : option nat :=
  match outcome with inr (JObj ps) => blob_in (field_of ps "data") | _ => None end.

(** The response [r] has the properties of the object [o], and a Blob of the answer as its text. *)
Definition shows_answer (blob : option nat) (o : object) (r : jv) : Prop :=
  forall k, im_get r k = match blob with
    | Some id => if bool_decide (k = js "text") then Some (JHost id) else ordered_value <$> assoc k o
    | None => ordered_value <$> assoc k o end.

(** [SET_RESPONSE] with [res], of which the object [o] is kept. *)
Lemma response_stored sys path method res o : is_map (s_spec sys) = true ->
  maps_along (s_spec sys) (response_path path method) = true ->
  reduce_SET_RESPONSE path method (JObj res) (s_spec sys) =
    (let? x := fromJSOrdered (JObj (with_headers o)) in
     let? newState := setIn (s_spec sys) (response_path path method) x in
     match field_of res "data" with
     | JHost id => if is_blob id then setIn newState [js "responses"; path; method; js "text"] (JHost id) else inr newState
     | _ => inr newState
     end) ->
  let sys' := dispatch hashCode validateParam (setResponse path method (JObj res)) sys in
  (if convertible (JObj (with_headers o)) then
     exists r, responseFor (s_spec sys') path method = inr r /\ shows_answer (blob_in (field_of res "data")) (with_headers o) r
   else s_spec sys' = s_spec sys) /\
  (forall q, diverges (response_path path method) q -> getIn (s_spec sys') q = getIn (s_spec sys) q).
Proof.
  intros Hs Hm E. cbv zeta. unfold dispatch. cbn [s_spec]. unfold spec_reducer. rewrite makeReducer_map by done.
  cbn [spec_reducers setResponse]. rewrite E. unfold fromJSOrdered. destruct (convertible _); cbn [rbind]; [|done].
  destruct (store_response (s_spec sys) path method (with_headers o) (field_of res "data") Hm) as (s' & r & E' & M & G & Hr & F).
  replace (let? newState := _ in _) with (@inr js_error jv s').
  2:{ rewrite <- E'. destruct (setIn _ _ _) as [|s1]; [done|]. cbn [rbind]. by destruct (field_of res "data"). }
  replace (match s' with JNull => s_spec sys | _ => s' end) with s' by (by destruct s'). split; [|done].
  exists r. split; [by apply entry_for|]. exact Hr.
Qed.

Lemma reduce_answer path method ps state : truthy (field_of ps "error") = false ->
  reduce_SET_RESPONSE path method (JObj ps) state =
    (let? x := fromJSOrdered (JObj (with_headers ps)) in
     let? newState := setIn state (response_path path method) x in
     match field_of ps "data" with
     | JHost id => if is_blob id then setIn newState [js "responses"; path; method; js "text"] (JHost id) else inr newState
     | _ => inr newState
     end).
Proof.
  intros He. unfold reduce_SET_RESPONSE. cbn [prop rbind]. fold (field_of ps "error"). rewrite He. cbn [rbind prop].
  unfold with_headers, field_of. destruct (fromJSOrdered _); [done|]. cbn [rbind]. destruct (setIn _ _ _); [done|]. cbn [rbind].
  by destruct (default JUndef (assoc (js "data") ps)).
Qed.

Lemma reduce_failure path method ps state : truthy (field_of ps "error") = true -> plain_error (field_of ps "err") = true ->
  reduce_SET_RESPONSE path method (JObj ps) state =
    (let? x := fromJSOrdered (JObj (with_headers (failure_of (field_of ps "err")))) in
     let? newState := setIn state (response_path path method) x in
     match field_of ps "data" with
     | JHost id => if is_blob id then setIn newState [js "responses"; path; method; js "text"] (JHost id) else inr newState
     | _ => inr newState
     end).
Proof.
  intros He Hp. unfold reduce_SET_RESPONSE. cbn [prop rbind]. fold (field_of ps "error"). rewrite He. cbn [rbind].
  fold (field_of ps "err"). fold (field_of ps "data"). generalize (field_of ps "data"). intros data.
  destruct (field_of ps "err"); try done; cbn [prop rbind]; unfold failure_of, with_headers, field_of;
    (destruct (fromJSOrdered _); [done|]); cbn [rbind]; (destruct (setIn _ _ _); [done|]); by destruct data.
Qed.

(** C13: The answer to a request is shown, whether its promise is answered with an object, one that
    reports an error, no object at all, or fails: [responseFor] then finds, for the operation, the
    properties of the answer with the time it took, or the name, message and status of the error with
    the properties of the response it carries; it always has headers, and a Blob is its text as well.
    Where that object cannot be made a Map the state stays; nothing else of the state changes. The state
    has Maps along the way to the answer, no answer is an array or a function, and an error is
    serialised as an object or a primitive value. *)
Theorem answer_recorded path method duration outcome o sys :
  is_map (s_spec sys) = true -> maps_along (s_spec sys) (response_path path method) = true -> answers duration outcome o ->
  let sys' := answered hashCode validateParam path method duration outcome sys in
  (if convertible (JObj (with_headers o)) then
     exists r, responseFor (s_spec sys') path method = inr r /\ shows_answer (answer_blob outcome) (with_headers o) r
   else s_spec sys' = s_spec sys) /\
  (forall q, diverges (response_path path method) q -> getIn (s_spec sys') q = getIn (s_spec sys) q) /\
  s_err sys' = s_err sys /\ s_oas3 sys' = s_oas3 sys.
Proof.
  intros Hs Hm Ha. cbv zeta.
  assert (Hfail : forall err, plain_error (serializeError err) = true ->
    let sys' := on_failure hashCode validateParam path method err sys in
    (if convertible (JObj (with_headers (failure_of (serializeError err)))) then
       exists r, responseFor (s_spec sys') path method = inr r /\ shows_answer None (with_headers (failure_of (serializeError err))) r
     else s_spec sys' = s_spec sys) /\
    (forall q, diverges (response_path path method) q -> getIn (s_spec sys') q = getIn (s_spec sys) q) /\
    s_err sys' = s_err sys /\ s_oas3 sys' = s_oas3 sys).
  { intros err Hp. cbv zeta. unfold on_failure.
    destruct (response_stored sys path method _ _ Hs Hm (reduce_failure path method
      [(js "error", JBool true); (js "err", serializeError err)] _ eq_refl Hp)) as [H1 H2]. done. }
  destruct Ha as [ps He|ps He Hp|v e Hv -> Hp|err Hp]; [| | |by apply Hfail].
  - cbn [answered on_answer answer_blob]. set (ps1 := set_prop (js "duration") (JNum (of_Z duration)) ps).
    assert (He1 : truthy (field_of ps1 "error") = false) by (unfold ps1; by rewrite field_set_ne).
    assert (Hd : field_of ps1 "data" = field_of ps "data") by (unfold ps1; by rewrite field_set_ne).
    destruct (response_stored sys path method _ _ Hs Hm (reduce_answer path method ps1 _ He1)) as [H1 H2]. by rewrite Hd in H1.
  - cbn [answered on_answer answer_blob]. set (ps1 := set_prop (js "duration") (JNum (of_Z duration)) ps).
    assert (F : forall k, js k <> js "duration" -> field_of ps1 k = field_of ps k) by (intros k Hk; unfold ps1; by rewrite field_set_ne).
    rewrite <- (F "error"%string) in He by done. rewrite <- (F "err"%string) in Hp by done.
    destruct (response_stored sys path method _ _ Hs Hm (reduce_failure path method ps1 _ He Hp)) as [H1 H2].
    by rewrite !F in H1 by done.
  - replace (answered _ _ _ _ _ _ _) with (on_failure hashCode validateParam path method (thrown (TypeError "Cannot set property 'duration'")) sys).
    2:{ cbn [answered]. destruct Hv as [Hv|[->| ->]]; [by destruct v|done|done]. }
    replace (answer_blob (inr v)) with (@None nat) by (destruct Hv as [Hv|[->| ->]]; [by destruct v|done|done]). by apply Hfail.
Qed.
End Request.

(** ** A page *)

Import Demo.

Definition page_client : Client :=
  {| opId := fun _ path method => JStr (method ++ path); buildRequest := inr; url_text := id;
     serializeError := fun e => match e with JObj _ => e | _ => JObj [(js "message", e)] end;
     thrown := fun _ => JStr (js "TypeError"); host_size := fun _ => Zero false |}.
#[local] Existing Instance page_client.

Definition page : system := {| s_spec := Demo.state; s_err := err_init; s_oas3 := empty_map |}.
Definition page_operation (params : list jv) : object := [(js "operation", IMap true [(js "parameters", IList params)])].

Lemma page_sendable : sendable page (js "/pets") (js "get").
Proof. split; [intros E; by vm_compute in E|done]. Defined.

Lemma typed_value_executed_witness :
  let typed := type_value Demo.hashCode (fun _ _ _ => inr []) (js "/pets") (js "get") Demo.limit_param (JStr (js "5")) page in
  let run := execute Demo.hashCode (fun _ _ _ => inr []) (JFun 0) (JFun 1) (JFun 2) (js "/pets") (js "get") (page_operation Demo.params) typed in
  exists r vs,
    field_of r "pathName" = JStr (js "/pets") /\ field_of r "method" = JStr (js "get") /\
    field_of r "parameters" = JObj vs /\ assoc (valueKey Demo.limit_param) vs = Some (toJS (JStr (js "5"))) /\
    match buildRequest (JObj r) with
    | inl _ => run = inr (typed, None)
    | inr built => exists sys',
        run = inr (sys', Some (set_prop (js "responseInterceptor") (JFun 2) (set_prop (js "requestInterceptor") (JFun 1) r))) /\
        forall b, fromJSOrdered built = inr b -> requestFor (s_spec sys') (js "/pets") (js "get") = inr b
    end.
Proof.
  apply (typed_value_executed Demo.hashCode (fun _ _ _ => inr []) (JFun 0) (JFun 1) (JFun 2) (page_operation Demo.params)
    (js "/pets") (js "get") page Demo.params empty_map Demo.limit_param (JStr (js "5"))).
  - exact Demo.operation.
  - right. left.
  - exists true, [(js "parameters", IList Demo.params)]. split; [by vm_compute|].
    change (forall q, q ∈ Demo.params -> allows_empty (toJS q) = true -> keeps_key (valueKey Demo.limit_param) (toJS q)).
    intros q [->| ->]%Demo.params_cases E; by vm_compute in E.
  - exact page_sendable.
Defined.

(** A failure that carries the response of the server *)
Definition not_found : jv := JObj [(js "message", JStr (js "Not Found"));
  (js "response", JObj [(js "status", JNum (of_Z 404)); (js "text", JStr (js "no such pet"))])].

Lemma answer_recorded_witness :
  let sys' := answered Demo.hashCode (fun _ _ _ => inr []) (js "/pets") (js "get") 12 (inl not_found) page in
  (if convertible (JObj (with_headers (failure_of (serializeError not_found)))) then
     exists r, responseFor (s_spec sys') (js "/pets") (js "get") = inr r /\
       shows_answer (answer_blob (inl not_found)) (with_headers (failure_of (serializeError not_found))) r
   else s_spec sys' = s_spec page) /\
  (forall q, diverges [js "responses"; js "/pets"; js "get"] q -> getIn (s_spec sys') q = getIn (s_spec page) q) /\
  s_err sys' = s_err page /\ s_oas3 sys' = s_oas3 page.
Proof.
  apply (answer_recorded Demo.hashCode (fun _ _ _ => inr []) (js "/pets") (js "get") 12 (inl not_found)
    (failure_of (serializeError not_found)) page); [done|done|]. by apply Failed.
Defined.

(** The parameters of the request that is sent. *)
Definition sent_parameters (r : js_error + (system * option object)) : jv :=
  match r with inr (_, Some req) => field_of req "parameters" | _ => JUndef end.

(** With "Send empty value" checked, a value typed for a parameter that may be empty goes out
    under "query.limit", and an empty one with it under "limit". *)
Example empty_beside_typed :
  let limit := IMap true [(js "name", JStr (js "limit")); (js "in", JStr (js "query")); (js "allowEmptyValue", JBool true)] in
  let doc := IMap true [(js "paths", IMap true [(js "/pets", IMap true [(js "get", IMap true [(js "parameters", IList [limit])])])])] in
  let sys := {| s_spec := IMap false [(js "json", doc)]; s_err := err_init; s_oas3 := empty_map |} in
  let step a := dispatch Demo.hashCode (fun _ _ _ => inr []) a in
  let sys := step (updateEmptyParamInclusion [js "/pets"; js "get"] (js "limit") (js "query") (JBool true)) sys in
  let sys := step (changeParamByIdentity [js "/pets"; js "get"] limit (JStr (js "5")) false) sys in
  sent_parameters (execute Demo.hashCode (fun _ _ _ => inr []) (JFun 0) (JFun 1) (JFun 2) (js "/pets") (js "get")
    (page_operation [limit]) sys) = JObj [(js "query.limit", JStr (js "5")); (js "limit", JStr [])].
Proof. by vm_compute. Qed.
