(* ===== verification/SuiEdit.v ===== *)
(** Swagger UI: the errors shown while a document is edited. *)
From S2P Require Import Prelude JsString JsNumber YamlValue YamlTypes YamlLoader YamlTotal SuiUrl SuiImm SuiSpec SuiSpecLaws SuiErr SuiOas3 SuiActions.

(** ** Errors by their source *)

Definition from_source (src : jsstr) (e : jv) : bool := is_str (default JUndef (im_get e (js "source"))) src.
Definition error_list (s : err_store) : list jv := match errors_of (e_state s) with inr l => l | inl _ => [] end.
Definition errors_from (src : jsstr) (s : err_store) : list jv := base.filter (fun e => from_source src e = true) (error_list s).
Definition parser_errors : err_store -> list jv := errors_from (js "parser").

(** [errActions.clear({ source: src })] *)
Definition clear_source (src : jsstr) : err_action := CLEAR (JObj [(js "source", JStr src)]).

Lemma errors_total s : errors_ok (e_state s) -> errors_of (e_state s) = inr (error_list s).
Proof.
  intros [Hm Hs]. unfold error_list. destruct (errors_of (e_state s)) as [|l] eqn:E; [|done]. revert E. unfold errors_of.
  rewrite get_map by done. cbn [rbind]. destruct (im_get _ _) as [v|] eqn:Ev; [|done]. by destruct (Hs v eq_refl) as (? & -> & _).
Qed.

Lemma assoc_member {A} k (x : A) l : assoc k l = Some x -> (k, x) ∈ l.
Proof.
  induction l as [|[k' y] l IH]; [done|]. cbn [assoc]. case_bool_decide as E; [|intros ?; right; by apply IH].
  subst k'. intros [= ->]. left.
Qed.

(** An error of the source does not survive [clear({ source: src })]. *)
Lemma cleared_source src e : src <> [] -> is_map e = true -> clear_keeps (JObj [(js "source", JStr src)]) e = true -> from_source src e = false.
Proof.
  intros Hsrc Hm Hk. unfold from_source. destruct e as [| | | | | | | | | |o ps]; try done. cbn [im_get].
  destruct (assoc (js "source") ps) as [v|] eqn:E; [|done].
  apply assoc_member in E. unfold clear_keeps in Hk. cbn [entries_of] in Hk. rewrite forallb_forall in Hk.
  apply list_elem_of_In in E. specialize (Hk _ E). destruct v; try done. cbn [default id is_str]. revert Hk.
  cbn [fst snd assoc]. rewrite bool_decide_eq_true_2 by done. cbn [default id strict_eq]. destruct src; [done|]. cbn [truthy negb orb].
  by case_bool_decide.
Qed.

Lemma errors_set st l : is_map st = true -> errors_of (im_set st (js "errors") (IList l)) = inr l.
Proof. intros Hm. unfold errors_of. rewrite get_map by (by destruct st). by rewrite im_get_set_eq. Qed.

(** What a clearing leaves of the list. *)
Lemma clear_list jsSpec payload s : errors_ok (e_state s) -> truthy payload = true ->
  error_list (err_step jsSpec s (CLEAR payload)) = base.filter (fun e => clear_keeps payload e = true) (error_list s).
Proof.
  intros [Hm Hs] Hp. unfold err_step. cbn [err_reducers]. unfold reduce_CLEAR. rewrite Hp. cbn [negb]. rewrite get_map by done. cbn [rbind].
  unfold error_list at 2, errors_of. rewrite get_map by done. cbn [rbind].
  destruct (im_get (e_state s) (js "errors")) as [v|] eqn:Ev.
  - destruct (Hs v eq_refl) as (l & -> & Hl). cbn [default id truthy negb].
    set (l' := base.filter _ l). replace (match im_set _ _ _ with JNull => _ | _ => _ end)
      with (im_set (e_state s) (js "errors") (IList l')) by (by destruct (e_state s)).
    unfold error_list. cbn [e_state]. by rewrite errors_set.
  - cbn [default id truthy negb]. replace (match e_state s with JNull => _ | _ => _ end) with (e_state s) by (by destruct (e_state s)).
    unfold error_list. cbn [e_state]. unfold errors_of. rewrite get_map by done. by rewrite Ev.
Qed.

Lemma clear_removes jsSpec src s : src <> [] -> errors_ok (e_state s) -> errors_from src (err_step jsSpec s (clear_source src)) = [].
Proof.
  intros Hsrc Hs. pose proof (errors_of_ok _ _ Hs (errors_total s Hs)) as HF. unfold errors_from, clear_source. rewrite clear_list by done.
  clear Hs. induction HF as [|e l [He _] _ IH]; [done|]. rewrite filter_cons. case_decide as Hk; [|done].
  rewrite filter_cons_False; [done|]. rewrite cleared_source; done.
Qed.

(** Sorting and the rewriting of messages keep the errors of a source. *)
Lemma filter_fields src l l' : Forall2 same_fields l l' ->
  Forall2 same_fields (base.filter (fun e => from_source src e = true) l) (base.filter (fun e => from_source src e = true) l').
Proof.
  induction 1 as [|x y l l' Hxy _ IH]; [constructor|]. rewrite !filter_cons.
  assert (E : from_source src y = from_source src x) by (unfold from_source; by rewrite Hxy). rewrite E. case_decide; [by constructor|done].
Qed.

Definition parser_map (e : js_error) : jv := im_set (fromJS (parser_error e)) (js "type") (JStr (js "spec")).

(** The list after an error was added, up to what setting a message keeps. *)
Section Added.
Context (S : jv -> jv -> Prop) `{!PreOrder S} (S_message : forall e m, is_map e = true -> S e (im_set e (js "message") m)).
Context (spec : jv).
Abbreviation step := (err_step (inr spec)).

Lemma errors_added s a d (f : list jv -> list jv) : errors_ok (e_state s) -> err_reducers (inr spec) a s = (d, add_errors (inr spec) (e_state s) f) ->
  Forall err_ok (f (error_list s)) -> Forall2 S (f (error_list s)) (error_list (step s a)).
Proof.
  intros Hs E HF. unfold error_list at 2, err_step. rewrite E. unfold add_errors. rewrite (errors_total s Hs). cbn [rbind transformErrors].
  set (l' := transformed _). destruct Hs as [Hm Hs]. replace (match im_set _ _ _ with JNull => _ | _ => _ end)
    with (im_set (e_state s) (js "errors") (IList l')) by (by destruct (e_state s)).
  cbn [e_state]. rewrite errors_set by done. by apply transformed_keeps.
Qed.

Lemma error_added s e : errors_ok (e_state s) ->
  Forall2 S (sort_by_line (error_list s ++ [parser_map e])) (error_list (step s (NEW_SPEC_ERR (parser_error e)))).
Proof.
  intros Hs. apply (errors_added s _ (e_default s) (fun errors => sort_by_line (errors ++ [parser_map e]))); [done|done|].
  rewrite sort_by_line_perm. apply Forall_app. split; [by apply (errors_of_ok (e_state s)), errors_total|].
  constructor; [|constructor]. by apply (spec_error_ok (parser_error e)).
Qed.

Lemma thrown_added s payload : errors_ok (e_state s) ->
  Forall2 S (error_list s ++ [fromJS (JObj (assign_error (e_default s) payload (js "thrown")))]) (error_list (step s (NEW_THROWN_ERR payload))).
Proof.
  intros Hs. apply (errors_added s _ (assign_error (e_default s) payload (js "thrown"))
    (fun errors => errors ++ [fromJS (JObj (assign_error (e_default s) payload (js "thrown")))])); [done|done|].
  apply Forall_app. split; [by apply (errors_of_ok (e_state s)), errors_total|]. constructor; [|constructor]. apply assigned_ok. left.
Qed.
End Added.

(** What the list of errors shows of an exception of the parser. *)
Definition shows (e : js_error) (x : jv) : Prop :=
  im_get x (js "source") = Some (JStr (js "parser")) /\ im_get x (js "level") = Some (JStr (js "error")) /\
  im_get x (js "type") = Some (JStr (js "spec")) /\ im_get x (js "line") = Some (error_line e).

Lemma fromJS_line e : fromJS (error_line e) = error_line e.
Proof. destruct e as [| | | |r [[[? line] ?]|]]; try done. unfold error_line. by destruct (line =? 0). Qed.

Lemma parser_map_shown e x : same_fields (parser_map e) x -> shows e x.
Proof.
  intros Hx. unfold shows. rewrite !Hx by done. unfold parser_map. rewrite im_get_set_eq by done. rewrite !im_get_set_ne by done.
  unfold parser_error. rewrite !fromJS_get. split; [done|]. split; [done|]. split; [done|].
  change (Some (fromJS (error_line e)) = Some (error_line e)). by rewrite fromJS_line.
Qed.

Lemma error_shown spec s e : errors_ok (e_state s) -> parser_errors s = [] ->
  exists x, parser_errors (err_step (inr spec) s (NEW_SPEC_ERR (parser_error e))) = [x] /\ shows e x.
Proof.
  intros Hs H0. pose proof (filter_fields (js "parser") _ _ (error_added same_fields message_fields spec s e Hs)) as HF.
  assert (E : base.filter (fun e => from_source (js "parser") e = true) (sort_by_line (error_list s ++ [parser_map e])) = [parser_map e]).
  { apply Permutation_singleton_r. rewrite sort_by_line_perm, list.filter_app. unfold parser_errors, errors_from in H0. rewrite H0.
    by rewrite filter_cons_True by (by vm_compute). }
  rewrite E in HF. apply Forall2_cons_inv_l in HF as (x & l & Hx & Hl & El). apply Forall2_nil_inv_l in Hl as ->.
  exists x. split; [exact El|]. by apply parser_map_shown.
Qed.

(** ** Edits *)

Section Edits.
Context `{Host} (hashCode : jv -> jsstr) (validateParam : jv -> bool -> bool -> js_error + list jv).
Context (dateString : Z -> jsstr) (bi : builtins).
Abbreviation parse := (parse dateString bi).
Abbreviation update_spec := (update_spec hashCode validateParam dateString bi).

(** The document becomes [text]. *)
Definition edit (text : jsstr) (sys : system) : system := r_system (update_spec (JStr text) sys).
Definition edits (texts : list jsstr) (sys : system) : system := foldl (fun sys text => edit text sys) sys texts.

Definition system_ok (sys : system) : Prop :=
  is_map (s_spec sys) = true /\ errors_ok (e_state (s_err sys)) /\ is_immutable (bound (specJson (s_spec sys))) = true.

(** The document a text makes, where it is one and can be stored. *)
Definition stored_json (text : jsstr) : option jv :=
  match parse text with inr doc => if d_object doc then d_data doc else None | inl _ => None end.

(** The loading of a text never lacks an end. *)
Lemma parse_ends text : match safeLoad dateString bi text false false false with NoFuel => False | _ => True end.
Proof.
  pose proof (loadDocuments_terminates text (safe_options dateString bi false false false)) as Hl. unfold safeLoad, load.
  destruct (loadDocuments text _) as [[|d [|]]| |] eqn:E; try done. apply Hl; [apply safe_calls_return|done].
Qed.

(** *** Loaded data can be stored *)

Lemma data_convertible n st v j : data_of bi n st v = Some j -> convertible j = true.
Proof.
  revert v j. induction n as [|n IH]; intros v j E; [done|]. cbn [data_of] in E.
  destruct v as [| |b|x|s|params body|l]; try (by injection E as <-).
  destruct (st_heap st !! l) as [[vs|ps|d|bs|]|]; try (by injection E as <-); [| |by destruct (forallb _ _); [injection E as <-|]|done].
  - apply fmap_Some in E as (xs & E & ->). cbn [convertible]. apply forallb_forall. intros x Hx%list_elem_of_In.
    apply mapM_Some in E. apply list_elem_of_lookup in Hx as [i Hi]. destruct (Forall2_lookup_r _ _ _ _ _ E Hi) as (y & _ & Hy). by eapply IH.
  - destruct (iterable _ _ _).
    + destruct (bi_entries _ _ _) as [es|]; [|done]. cbn [mbind option_bind] in E. by apply fmap_Some in E as (xs & _ & ->).
    + apply fmap_Some in E as (xs & E & ->). cbn [convertible]. apply forallb_forall. intros x Hx%list_elem_of_In.
      apply mapM_Some in E. apply list_elem_of_lookup in Hx as [i Hi]. destruct (Forall2_lookup_r _ _ _ _ _ E Hi) as (y & _ & Hy).
      apply fmap_Some in Hy as (z & Hz & ->). by eapply IH.
Qed.

Lemma object_immutable n st l j : data_of bi n st (VRef l) = Some j -> is_immutable (ordered_value j) = true.
Proof.
  destruct n as [|n]; [done|]. cbn [data_of]. destruct (st_heap st !! l) as [[vs|ps|d|bs|]|]; try done; try (by intros [= <-]).
  - by intros (xs & _ & ->)%fmap_Some.
  - destruct (iterable _ _ _).
    + destruct (bi_entries _ _ _) as [es|]; [|done]. cbn [mbind option_bind]. by intros (xs & _ & ->)%fmap_Some.
    + by intros (xs & _ & ->)%fmap_Some.
  - destruct (forallb _ _); [|done]. by intros [= <-].
Qed.

Lemma stored_facts text json : stored_json text = Some json ->
  fromJSOrdered json = inr (ordered_value json) /\ is_immutable (ordered_value json) = true.
Proof.
  unfold stored_json, SuiActions.parse. destruct (safeLoad _ _ _ _ _ _) as [v s|e s|]; try done. cbn [document_of d_object d_data].
  destruct (isObject v) eqn:Ev; [|done]. destruct v as [| | | | | |l]; try done. intros E. split; [|by eapply object_immutable].
  unfold fromJSOrdered. by rewrite (data_convertible _ _ _ _ E).
Qed.

(** *** One edit *)

Lemma get_self s k : is_map s = true -> get (self s) k = inr (default JUndef (im_get s k)).
Proof. intros Hs. replace (self s) with s by (by destruct s). by apply get_map. Qed.

Lemma specStr_get s t : is_map s = true -> im_get s (js "spec") = Some (JStr t) -> specStr s = inr (JStr t).
Proof. intros Hs E. unfold specStr. rewrite get_self by done. rewrite E. cbn. by destruct t. Qed.

Lemma specJson_frame s s' : is_map s = true -> is_map s' = true -> im_get s' (js "json") = im_get s (js "json") -> specJson s' = specJson s.
Proof.
  intros Hs Hs' E. unfold specJson. replace (self s) with s by (by destruct s). replace (self s') with s' by (by destruct s').
  rewrite !get_or_map by done. by rewrite E.
Qed.

Lemma dispatch_set s a k x : is_map s = true ->
  spec_reducers hashCode validateParam a = Some (fun state => jset state k x) -> spec_reducer hashCode validateParam s a = im_set s k x.
Proof.
  intros Hs E. unfold spec_reducer. rewrite makeReducer_map by done. rewrite E. unfold jset, is_immutable. rewrite Hs. by destruct s.
Qed.

(** Storing a text. *)
Lemma text_stored text sys : is_map (s_spec sys) = true -> let sys' := dispatch hashCode validateParam (UPDATE_SPEC (JStr (untab text))) sys in
  is_map (s_spec sys') = true /\ im_get (s_spec sys') (js "spec") = Some (JStr (untab text)) /\ s_err sys' = s_err sys /\
  (forall k, k <> js "spec" -> im_get (s_spec sys') k = im_get (s_spec sys) k).
Proof.
  intros Hs. cbv zeta. unfold dispatch. cbn [s_spec s_err]. rewrite (dispatch_set _ _ (js "spec") (JStr (untab text))) by done.
  split; [by destruct (s_spec sys)|]. rewrite im_get_set_eq by done. do 2 (split; [done|]). intros k Hk. by rewrite im_get_set_ne.
Qed.

(** Storing a document. *)
Lemma json_stored doc sys : is_map (s_spec sys) = true ->
  (forall json, d_data doc = Some json -> fromJSOrdered json = inr (ordered_value json)) ->
  let sys' := r_system (update_json hashCode validateParam doc sys) in
  is_map (s_spec sys') = true /\
  (forall k, k <> js "json" -> k <> js "resolvedSubtrees" -> im_get (s_spec sys') k = im_get (s_spec sys) k) /\
  specJson (s_spec sys') = match d_data doc with Some json => inr (ordered_value json) | None => specJson (s_spec sys) end /\
  s_err sys' = s_err sys.
Proof.
  intros Hs Hd. cbv zeta. unfold update_json. cbn [r_system].
  set (sys1 := match d_data doc with Some json => _ | None => sys end).
  assert (H1 : is_map (s_spec sys1) = true /\ s_err sys1 = s_err sys /\
    (forall k, k <> js "json" -> im_get (s_spec sys1) k = im_get (s_spec sys) k) /\
    specJson (s_spec sys1) = match d_data doc with Some json => inr (ordered_value json) | None => specJson (s_spec sys) end).
  { subst sys1. destruct (d_data doc) as [json|] eqn:Ed; [|done]. unfold dispatch. cbn [s_spec s_err].
    assert (E : spec_reducer hashCode validateParam (s_spec sys) (updateJsonSpec json) = im_set (s_spec sys) (js "json") (ordered_value json)).
    { unfold spec_reducer. rewrite makeReducer_map by done. cbn [spec_reducers updateJsonSpec]. rewrite (Hd json eq_refl). cbn [rbind].
      unfold jset, is_immutable. rewrite Hs. by destruct (s_spec sys). }
    rewrite E. assert (M : is_map (im_set (s_spec sys) (js "json") (ordered_value json)) = true) by (by destruct (s_spec sys)).
    split; [done|]. split; [done|]. split; [intros k Hk; by rewrite im_get_set_ne|]. unfold specJson.
    replace (self (im_set _ _ _)) with (im_set (s_spec sys) (js "json") (ordered_value json)) by (by destruct (s_spec sys)).
    rewrite get_or_map by done. by rewrite im_get_set_eq. }
  clearbody sys1. destruct H1 as (M1 & E1 & F1 & J1). unfold dispatch. cbn [s_spec s_err].
  unfold spec_reducer. rewrite makeReducer_map by done. cbn [spec_reducers invalidateResolvedSubtreeCache app].
  unfold fromJSOrdered. cbn [convertible empty_map rbind ordered_value].
  destruct (setIn_spec (s_spec sys1) [js "resolvedSubtrees"] (IMap false [])) as (s2 & -> & M & _ & F & _); [done|cbn [maps_along]; rewrite M1; by destruct (im_get _ _)|].
  replace (match s2 with JNull => s_spec sys1 | _ => s2 end) with s2 by (by destruct s2). split; [done|].
  assert (G : forall k, js "resolvedSubtrees" <> k -> im_get s2 k = im_get (s_spec sys1) k).
  { intros k Hk. rewrite <- !getIn_single. apply F. by left. }
  split; [|split; [|done]].
  - intros k K1 K2. rewrite G by done. by apply F1.
  - rewrite <- J1. apply specJson_frame; [done|done|by apply G].
Qed.

Lemma text_given text s : specStr s = inr (JStr (untab text)) -> js_string (js_or (JStr text) (bound (specStr s))) = text.
Proof. intros ->. by destruct text. Qed.

(** What a text does: to the errors, to the text and the document, and to the rest of the state. *)
Lemma edit_spec text sys : system_ok sys ->
  let sys' := edit text sys in
  system_ok sys' /\ specStr (s_spec sys') = inr (JStr (untab text)) /\
  specJson (s_spec sys') = match stored_json text with Some json => inr (ordered_value json) | None => specJson (s_spec sys) end /\
  (forall k, k ∉ [js "spec"; js "json"; js "resolvedSubtrees"] -> im_get (s_spec sys') k = im_get (s_spec sys) k) /\
  exists jsSpec, s_err sys' =
    (let s := err_step (inr jsSpec) (s_err sys) (clear_source (js "parser")) in
     match parse text with inl e => err_step (inr jsSpec) s (NEW_SPEC_ERR (parser_error e)) | inr _ => s end).
Proof.
  intros (Hs & He & Hj). cbv zeta. unfold edit, SuiActions.update_spec. cbn [updateSpec]. destruct (text_stored text sys Hs) as (M1 & T1 & E1 & F1).
  set (sys1 := dispatch _ _ _ sys) in *. unfold parseToJson. pose proof (specStr_get _ _ M1 T1) as T1'. rewrite text_given by done.
  fold (clear_source (js "parser")). set (sys2 := dispatch_err (clear_source (js "parser")) sys1).
  assert (J1 : specJson (s_spec sys1) = specJson (s_spec sys)) by (apply specJson_frame; [done|done|by apply F1]).
  assert (Ej : js_spec sys1 = inr (toJS (bound (specJson (s_spec sys))))) by (unfold js_spec, plain; by rewrite J1, Hj).
  set (spec := toJS (bound (specJson (s_spec sys)))) in *.
  assert (E2 : s_err sys2 = err_step (inr spec) (s_err sys) (clear_source (js "parser"))) by (unfold sys2, dispatch_err; cbn [s_err]; by rewrite Ej, E1).
  assert (He2 : errors_ok (e_state (s_err sys2))) by (rewrite E2; by apply err_step_ok).
  assert (Fk : forall k, k ∉ [js "spec"; js "json"; js "resolvedSubtrees"] -> im_get (s_spec sys1) k = im_get (s_spec sys) k).
  { intros k Hk. apply F1. by apply not_elem_of_cons in Hk as [? _]. }
  pose proof (stored_facts text) as Hst. unfold stored_json in *. destruct (parse text) as [e|doc].
  - cbn [r_system done]. set (sys3 := dispatch_err _ sys2).
    assert (E3 : s_err sys3 = err_step (inr spec) (s_err sys2) (NEW_SPEC_ERR (parser_error e))).
    { unfold sys3, dispatch_err. cbn [s_err]. change (js_spec sys2) with (js_spec sys1). by rewrite Ej. }
    split; [|split; [done|split; [done|split; [done|]]]].
    + split; [done|]. split; [rewrite E3; by apply err_step_ok|]. change (s_spec sys3) with (s_spec sys1). by rewrite J1.
    + exists spec. by rewrite E3, E2.
  - destruct (d_object doc) eqn:Ho.
    + destruct (json_stored doc sys2 M1) as (M3 & T3 & J3 & E3); [intros json Ed; by apply Hst|].
      split; [|split; [|split; [|split]]].
      * split; [done|]. split; [by rewrite E3|]. rewrite J3. destruct (d_data doc) as [json|] eqn:Ed; [by apply (Hst json)|].
        change (s_spec sys2) with (s_spec sys1). by rewrite J1.
      * apply specStr_get; [done|]. by rewrite T3 by done.
      * rewrite J3. by destruct (d_data doc).
      * intros k Hk. rewrite T3; [by apply Fk|..]; by do 3 (apply not_elem_of_cons in Hk as [? Hk]).
      * exists spec. by rewrite E3, E2.
    + cbn [r_system done]. split; [|split; [done|split; [done|split; [done|]]]].
      * split; [done|]. split; [done|]. change (s_spec sys2) with (s_spec sys1). by rewrite J1.
      * by exists spec.
Qed.

(** The parser errors a text leaves. *)
Lemma edit_errors text sys : system_ok sys ->
  match parse text with
  | inr _ => parser_errors (s_err (edit text sys)) = []
  | inl e => exists x, parser_errors (s_err (edit text sys)) = [x] /\ shows e x
  end.
Proof.
  intros Hok. destruct (edit_spec text sys Hok) as (_ & _ & _ & _ & spec & ->). cbv zeta. destruct Hok as (_ & He & _).
  pose proof (clear_removes (inr spec) (js "parser") (s_err sys) ltac:(done) He) as H0. destruct (parse text) as [e|]; [|done].
  apply error_shown; [by apply err_step_ok|done].
Qed.

(** C5: While a document is edited the reader sees what its last text is: after any sequence of texts
    the state holds the last one (tabs made spaces); if it parses there is no error of the parser, and
    if not exactly one, with the line the parser gives (none for the first line); and the document shown
    is that of the last text that made one (an object or array, not one that contains itself or a Buffer
    with a byte other than 0, which cannot be stored), or else the one before. The state is a Map with
    an Immutable document and errors that are Maps with a type. *)
Theorem edited_document texts text sys : system_ok sys ->
  let sys' := edits (texts ++ [text]) sys in
  specStr (s_spec sys') = inr (JStr (untab text)) /\
  match parse text with
  | inr _ => parser_errors (s_err sys') = []
  | inl e => exists x, parser_errors (s_err sys') = [x] /\ shows e x
  end /\
  specJson (s_spec sys') =
    match list.last (omap stored_json (texts ++ [text])) with
    | Some json => inr (ordered_value json)
    | None => specJson (s_spec sys)
    end.
Proof.
  intros Hs. cbv zeta.
  assert (H1 : forall ts, system_ok (edits ts sys) /\
    specJson (s_spec (edits ts sys)) = match list.last (omap stored_json ts) with Some json => inr (ordered_value json) | None => specJson (s_spec sys) end).
  { intros ts. induction ts as [|t ts [IHo IHj]] using rev_ind; [done|]. unfold edits in *. rewrite foldl_app. cbn [foldl].
    destruct (edit_spec t _ IHo) as (Hok & _ & Hj & _). split; [done|]. rewrite Hj, omap_app, last_app. cbn [omap list_omap].
    destruct (stored_json t); [done|]. exact IHj. }
  split; [|split; [|apply H1]]; unfold edits; rewrite foldl_app; cbn [foldl]; fold (edits texts sys).
  - by apply edit_spec, H1.
  - by apply edit_errors, H1.
Qed.
End Edits.

(** ** A page *)

Definition page : system := {| s_spec := empty_map; s_err := err_init; s_oas3 := empty_map |}.
Abbreviation page_parse := (parse (H := plain_host) (fun _ => []) plain_builtins).
Abbreviation page_edits := (edits (H := plain_host) (fun _ => []) (fun _ _ _ => inr []) (fun _ => []) plain_builtins).
Abbreviation page_stored := (stored_json (H := plain_host) (fun _ => []) plain_builtins).

(** A document, and then a sequence that does not end. *)
Definition whole : jsstr := js "swagger: '2.0'".
Definition broken : jsstr := js "swagger: '2.0'" ++ 10 :: js "paths: [".

Lemma edited_document_witness :
  let sys' := page_edits ([whole] ++ [broken]) page in
  specStr (s_spec sys') = inr (JStr (untab broken)) /\
  match page_parse broken with
  | inr _ => parser_errors (s_err sys') = []
  | inl e => exists x, parser_errors (s_err sys') = [x] /\ shows e x
  end /\
  specJson (s_spec sys') =
    match list.last (omap page_stored ([whole] ++ [broken])) with
    | Some json => inr (ordered_value (H := plain_host) json)
    | None => specJson (s_spec page)
    end.
Proof.
  apply (edited_document (H := plain_host) (fun _ => []) (fun _ _ _ => inr []) (fun _ => []) plain_builtins [whole] broken page).
  split; [done|]. by split.
Defined.

(** The line of an error on the first line is not shown, line 0 being false; one of the second line
    is. *)
Example first_line_unknown :
  match page_parse (js "paths: {]"), page_parse (10 :: js "paths: {]") with
  | inl e, inl e' => error_line e = JUndef /\ error_line e' = JNum (Fin 1 1)
  | _, _ => False
  end.
Proof. by vm_compute. Qed.

(** A document with a Buffer, and one that contains itself, are parsed and not stored. *)
Example not_stored :
  page_stored (js "a: !!binary AQID") = None /\ page_stored (js "&a [*a]") = None /\
  page_stored (js "a: !!binary AAAA") = Some (JObj [(js "a", JObj [])]).
Proof. by vm_compute. Qed.
