(* ===== verification/SuiResolve.v ===== *)
(** Swagger UI: resolving subtrees of the document.  Paths that are asked for gather in
    [requestBatch]; the debounced [debResolveSubtrees] resolves them one after the other on a copy of
    the document and writes the results to the state.  The module variable, the runs that wait for an
    answer and the system make up the state here; the events are the requests, the debounced calls,
    and the promises of [resolveSubtree] that are settled. *)
From S2P Require Import Prelude JsString JsNumber UriCodec YamlValue YamlTypes YamlLoader SuiUrl SuiImm SuiSpec SuiErr SuiValidator SuiOas3 SuiCurl SuiActions.

(** ** lodash's [set] *)

(** [isIndex(value)] of a string. *)
Definition isIndex (k : jsstr) : bool :=
  match span_digits k with
  | (d :: ds, []) => let n := digits_value 10 (d :: ds) in bool_decide (digits 10 n = k) && (n <? 2 ^ 53 - 1)
  | _ => false
  end.

(** lodash's [isObject]: functions too. *)
Definition lodash_isObject (v : jv) : bool := match v with JFun _ => true | _ => is_object v end.

(** An own property or element. *)
Definition own (v : jv) (k : jsstr) : option jv :=
  match v with
  | JObj ps => assoc k ps
  | JArr l => match array_index k with Some i => l !! Z.to_nat i | None => None end
  | _ => None
  end.

(** The members a plain object has from [Object.prototype] and an array from [Array.prototype]; all but
    [__proto__] and the length of an array are functions. *)
Definition object_members : list jsstr := js <$>
  ["__proto__"; "__defineGetter__"; "__defineSetter__"; "__lookupGetter__"; "__lookupSetter__"; "constructor"; "hasOwnProperty";
   "isPrototypeOf"; "propertyIsEnumerable"; "toLocaleString"; "toString"; "valueOf"]%string.
Definition array_members : list jsstr := js <$>
  ["at"; "concat"; "copyWithin"; "entries"; "every"; "fill"; "filter"; "find"; "findIndex"; "findLast"; "findLastIndex"; "flat"; "flatMap";
   "forEach"; "includes"; "indexOf"; "join"; "keys"; "lastIndexOf"; "map"; "pop"; "push"; "reduce"; "reduceRight"; "reverse"; "shift";
   "slice"; "some"; "sort"; "splice"; "toReversed"; "toSorted"; "toSpliced"; "unshift"; "values"; "with"]%string.

Section Set_.
Context `{Host} (builtin : jsstr -> nat).   (* the function a built-in member is *)

(** [object[key]].  A prototype itself is taken as an object of its own. *)
Definition member (v : jv) (k : jsstr) : jv :=
  match own v k, v with
  | Some x, _ => x
  | None, JObj _ =>
      if bool_decide (k ∈ object_members) then if bool_decide (k = js "__proto__") then JObj [] else JFun (builtin k) else JUndef
  | None, JArr l =>
      if bool_decide (k = js "length") then JNum (of_Z (Z.of_nat (length l)))
      else if bool_decide (k = js "__proto__") then JArr []
      else if bool_decide (k ∈ object_members ++ array_members) then JFun (builtin k) else JUndef
  | None, _ => JUndef
  end.

(** [array.length = x] *)
Definition to_number (x : jv) : num :=
  match x with
  | JNum n => n
  | JNull | JBool false => Zero false
  | JBool true => of_Z 1
  | JUndef => NaN
  | x => string_to_number (js_string x)
  end.
Definition set_length (l : list jv) (x : jv) : js_error + jv :=
  let n := to_number x in
  if is_integral n && (0 <=? to_Z n) && (to_Z n <? 2 ^ 32)
  then inr (JArr (take (Z.to_nat (to_Z n)) l ++ replicate (Z.to_nat (to_Z n) - length l) JUndef))
  else inl (RangeError "Invalid array length").

(** [assignValue(object, key, value)].  What is no element of an array, or is a property of another
    object, the store does not see. *)
Definition assignValue (v : jv) (k : jsstr) (x : jv) : js_error + jv :=
  match v with
  | JObj ps => inr (JObj (put k x ps))
  | JArr l =>
      if bool_decide (k = js "length") then set_length l x
      else match array_index k with Some i => inr (JArr (list_set l (Z.to_nat i) x)) | None => inr v end
  | _ => inr v
  end.

(** The loop of [baseSet] *)
Fixpoint set_at (nested : jv) (path : list jsstr) (value : jv) : js_error + jv :=
  match path with
  | [] => inr nested
  | key :: path' =>
      match path' with
      | [] => assignValue nested key value
      | next :: _ =>
          let objValue := member nested key in
          let newValue := if lodash_isObject objValue then objValue else if isIndex next then JArr [] else JObj [] in
          let? _ := assignValue nested key newValue in
          let? inner := set_at newValue path' value in
          assignValue nested key inner
      end
  end.
Definition baseSet (object : jv) (path : list jsstr) (value : jv) : js_error + jv :=
  if lodash_isObject object then set_at object path value else inr object.
End Set_.

(** ** Errors of the resolver *)

Section Resolve.
Context `{Host} (hashCode : jv -> jsstr) (validateParam : jv -> bool -> bool -> js_error + list jv) (builtin : jsstr -> nat).
(** [AST.getLineNumberForPath(specStr, fullPath)], or undefined. *)
Context (getLineNumberForPath : jv -> jv -> jv).

(** The error as it is stored; in strict mode only an object takes properties. *)
Definition prepared_error (specStr err : jv) : js_error + jv :=
  match err with
  | JObj ps =>
      let fullPath := field_of ps "fullPath" in
      let? path := (if truthy fullPath then
                      match fullPath with
                      | JArr l => inr (JStr (join_unit 46 (join_text <$> l)))
                      | _ => inl (TypeError "err.fullPath.join is not a function")
                      end
                    else inr JNull) in
      let line := if truthy fullPath then getLineNumberForPath specStr fullPath else JNull in
      inr (JObj (foldl (fun o p => set_prop (fst p) (snd p) o) ps
        [(js "line", line); (js "path", path); (js "level", JStr (js "error")); (js "type", JStr (js "thrown"));
         (js "source", JStr (js "resolver")); (js "message", field_of ps "message")]))
  | _ => inl (TypeError "Cannot create property 'line'")
  end.

Definition thrown_type : jv := JObj [(js "type", JStr (js "thrown"))].

(** The errors of an answer: an array with elements is stored. *)
Definition store_thrown (errors specStr : jv) (sys : system) : js_error + system :=
  match errors with
  | JArr ((_ :: _) as errs) =>
      let? prepared := traverse (prepared_error specStr) errs in
      inr (dispatch_err (NEW_THROWN_ERR_BATCH (JArr prepared)) sys)
  | _ => inr sys
  end.

(** [resolveSpec] once [resolve] has answered: the system, and what the promise it returns is
    rejected with.  [specStr] is read when it is called. *)
Definition spec_resolved (specStr spec errors : jv) (sys : system) : system * option js_error :=
  let sys := dispatch_err (CLEAR thrown_type) sys in
  match store_thrown errors specStr sys with
  | inl e => (sys, Some e)
  | inr sys => (dispatch hashCode validateParam (updateResolved spec) sys, None)
  end.

(** ** The batch *)

Abbreviation path := (list jsstr).

(** A call of [debResolveSubtrees] that waits for the answer for the first path of [r_paths]. *)
Record run := { r_paths : list path; r_map : jv; r_current : jv; r_specStr : jv }.

(** [requestBatch], whether it has its [system], and the runs. *)
Record world := { w_system : system; w_queue : list path; w_armed : bool; w_runs : list run }.

Definition with_system (sys : system) (w : world) : world :=
  {| w_system := sys; w_queue := w_queue w; w_armed := w_armed w; w_runs := w_runs w |}.
Definition with_runs (rs : list run) (w : world) : world :=
  {| w_system := w_system w; w_queue := w_queue w; w_armed := w_armed w; w_runs := rs |}.

(** [requestResolvedSubtree(path)] *)
Definition requestResolvedSubtree (p : path) (w : world) : world :=
  {| w_system := w_system w; w_queue := w_queue w ++ [p]; w_armed := true; w_runs := w_runs w |}.

(** The end of a run: the batch, with all that has gathered by now, is dropped and the results
    replace the subtrees of the state. *)
Definition finish (resultMap : jv) (w : world) : world :=
  {| w_system := dispatch hashCode validateParam (updateResolvedSubtree [] resultMap) (w_system w);
     w_queue := []; w_armed := false; w_runs := w_runs w |}.

(** [debResolveSubtrees()]: where reading the state throws, nothing is resolved. *)
Definition debResolveSubtrees (w : world) : world :=
  if w_armed w then
    let spec := s_spec (w_system w) in
    match plain (js_or (specResolvedSubtree spec []) empty_map), plain (bound (specJson spec)) with
    | inr resultMap, inr current =>
        match w_queue w with
        | [] => finish resultMap w
        | ps => with_runs (w_runs w ++ [{| r_paths := ps; r_map := resultMap; r_current := current; r_specStr := bound (specStr spec) |}]) w
        end
    | _, _ => w
    end
  else w.

(** The answer for the first path of a run; an exception ends the run like a rejection. *)
Definition answer (i : nat) (errors spec : jv) (w : world) : world :=
  match w_runs w !! i with
  | Some {| r_paths := p :: ps; r_map := m; r_current := c; r_specStr := t |} =>
      let sys := w_system w in
      let sys := match bound (allErrors (e_state (s_err sys))) with
                 | IList (_ :: _) => dispatch_err (CLEAR thrown_type) sys
                 | _ => sys
                 end in
      match store_thrown errors t sys with
      | inl _ => with_runs (delete i (w_runs w)) (with_system sys w)
      | inr sys =>
          match baseSet builtin m p spec, baseSet builtin c p spec with
          | inr m, inr c =>
              match ps with
              | [] => finish m (with_runs (delete i (w_runs w)) (with_system sys w))
              | _ => with_runs (<[i := {| r_paths := ps; r_map := m; r_current := c; r_specStr := t |}]> (w_runs w)) (with_system sys w)
              end
          | _, _ => with_runs (delete i (w_runs w)) (with_system sys w)
          end
      end
  | _ => w
  end.

(** A promise of [resolveSubtree] is rejected: the exception is logged, and reading the result that
    is not there throws, so that the batch stays as it is. *)
Definition failure (i : nat) (w : world) : world := with_runs (delete i (w_runs w)) w.

Inductive event := Request (p : path) | Fire | Answer (i : nat) (errors spec : jv) | Rejected (i : nat) | Act (a : spec_action).

Definition step (w : world) (e : event) : world :=
  match e with
  | Request p => requestResolvedSubtree p w
  | Fire => debResolveSubtrees w
  | Answer i errors spec => answer i errors spec w
  | Rejected i => failure i w
  | Act a => with_system (dispatch hashCode validateParam a (w_system w)) w
  end.
End Resolve.

(** ** Laws of [set] *)

Fixpoint at_path (v : jv) (p : list jsstr) : option jv :=
  match p with [] => Some v | k :: p' => match own v k with Some x => at_path x p' | None => None end end.

(** No key is an index, so that no array is made, and none but the last is the name of a member that
    every object has. *)
Definition named_path (p : list jsstr) : Prop :=
  p <> [] /\ Forall (fun k => isIndex k = false) p /\ Forall (fun k => k ∉ object_members) (removelast p).

(** Along the path there are plain objects, up to where there is nothing, or no object. *)
Fixpoint objects_along (v : jv) (p : list jsstr) : bool :=
  match p with
  | [] => true
  | k :: p' =>
      match v with
      | JObj ps => match assoc k ps with Some x => objects_along x p' | None => true end
      | _ => negb (lodash_isObject v)
      end
  end.

(** The node [set] goes on with. *)
Definition node (v : jv) (k : jsstr) : jv :=
  let x := default JUndef (own v k) in if lodash_isObject x then x else JObj [].

Section Set_laws.
Context `{Host} (builtin : jsstr -> nat).
Abbreviation set_at := (set_at builtin).

Lemma set_cons ps k k2 p x : k ∉ object_members -> isIndex k2 = false ->
  set_at (JObj ps) (k :: k2 :: p) x = (let? inner := set_at (node (JObj ps) k) (k2 :: p) x in inr (JObj (put k inner ps))).
Proof.
  intros Hm Hk. unfold node. cbn [SuiResolve.set_at]. rewrite Hk. unfold member. cbn [own].
  rewrite bool_decide_eq_false_2 by done. by destruct (assoc k ps).
Qed.

Lemma node_object ps k k2 p : objects_along (JObj ps) (k :: k2 :: p) = true ->
  exists ns, node (JObj ps) k = JObj ns /\ objects_along (JObj ns) (k2 :: p) = true /\
    (convertible (JObj ps) = true -> convertible (JObj ns) = true) /\
    (forall q, q <> [] -> at_path (JObj ps) (k :: q) = at_path (JObj ns) q /\
       (objects_along (JObj ps) (k :: q) = true -> objects_along (JObj ns) q = true)).
Proof.
  intros Ho. unfold node. cbn [objects_along at_path own] in *.
  assert (Hnil : forall q, q <> [] -> None = at_path (JObj []) q /\ objects_along (JObj []) q = true) by (by intros [|? ?]).
  destruct (assoc k ps) as [x|] eqn:Ek; cbn [default id].
  2:{ exists []. split; [done|]. split; [done|]. split; [done|]. intros q Hq. by destruct (Hnil q Hq). }
  assert (Hc : convertible (JObj ps) = true -> convertible x = true).
  { cbn [convertible]. rewrite forallb_forall. intros HF. apply (HF (k, x)). apply list_elem_of_In.
    clear - Ek. induction ps as [|[k' y] ps IH]; [done|]. cbn [assoc] in Ek. case_bool_decide as E; [|right; by apply IH].
    subst k'. injection Ek as ->. left. }
  destruct x; cbn [lodash_isObject is_object negb] in *; try done;
    first [by eexists | exists []; split; [done|]; split; [done|]; split; [done|]; intros q Hq; destruct (Hnil q Hq); by destruct q].
Qed.

Lemma convertible_put k x ps : convertible x = true -> convertible (JObj ps) = true -> convertible (JObj (put k x ps)) = true.
Proof.
  intros Hx. cbn [convertible]. induction ps as [|[k' y] ps IH]; cbn [put forallb]; [by rewrite Hx|].
  intros [Hy Hps]%andb_true_iff. case_bool_decide; cbn [forallb]; [by rewrite Hx, Hps|]. by rewrite Hy, IH.
Qed.

Lemma set_spec p x : named_path p -> convertible x = true -> forall ps, objects_along (JObj ps) p = true ->
  exists ps', set_at (JObj ps) p x = inr (JObj ps') /\ at_path (JObj ps') p = Some x /\
    (convertible (JObj ps) = true -> convertible (JObj ps') = true) /\
    (forall q, diverges p q -> at_path (JObj ps') q = at_path (JObj ps) q /\
       (objects_along (JObj ps) q = true -> objects_along (JObj ps') q = true)).
Proof.
  intros (Hp & HF & HM) Hx. induction p as [|k p IH]; [done|]. intros ps Ho. apply list.Forall_cons in HF as [Hk HF]. destruct p as [|k2 p].
  - cbn [SuiResolve.set_at assignValue]. eexists. split; [done|]. split; [cbn [at_path own]; by rewrite assoc_put_eq|].
    split; [by apply convertible_put|].
    intros [|k' q] Hd; [done|]. cbn [at_path own objects_along]. destruct Hd as [Hne|[_ []]]. by rewrite assoc_put_ne by (by apply not_eq_sym).
  - change (removelast (k :: k2 :: p)) with (k :: removelast (k2 :: p)) in HM. apply list.Forall_cons in HM as [Hm HM].
    rewrite set_cons by (done || by apply list.Forall_cons in HF as [? _]).
    destruct (node_object ps k k2 p Ho) as (ns & -> & Hns & Hc & Hq). destruct (IH ltac:(done) HF HM ns Hns) as (ns' & -> & G & C & F).
    cbn [rbind]. eexists. split; [done|]. split; [cbn [at_path own]; by rewrite assoc_put_eq|].
    split; [intros Hps; by apply convertible_put; [apply C, Hc|]|]. intros [|k' q] Hd; [done|].
    destruct Hd as [Hne|[<- Hd]].
    + cbn [at_path own objects_along]. by rewrite assoc_put_ne by (by apply not_eq_sym).
    + destruct (F q Hd) as [F1 F2]. assert (Hq0 : q <> []) by (by intros ->). destruct (Hq q Hq0) as [H1 H2]. rewrite H1, <- F1.
      cbn [at_path own objects_along]. rewrite assoc_put_eq. split; [done|]. intros Hq2. by apply F2, H2.
Qed.
End Set_laws.

Lemma diverges_sym p q : diverges p q -> diverges q p.
Proof.
  revert q. induction p as [|k p IH]; intros [|k' q]; try done. intros [Hne|[-> Hd]]; [left; by apply not_eq_sym|right]. by split; [|apply IH].
Qed.

(** No path is, or is below, another. *)
Fixpoint apart (ps : list (list jsstr)) : Prop := match ps with [] => True | p :: ps' => Forall (diverges p) ps' /\ apart ps' end.

Section Set_all.
Context `{Host} (builtin : jsstr -> nat).

Fixpoint set_all (m : jv) (rs : list (list jsstr * jv)) : js_error + jv :=
  match rs with [] => inr m | r :: rs' => let? m := baseSet builtin m r.1 r.2 in set_all m rs' end.

Lemma set_all_spec rs : apart rs.*1 -> Forall (fun r => convertible r.2 = true) rs ->
  forall ps, Forall (fun p => named_path p /\ objects_along (JObj ps) p = true) rs.*1 ->
  exists ps', set_all (JObj ps) rs = inr (JObj ps') /\ (forall p x, (p, x) ∈ rs -> at_path (JObj ps') p = Some x) /\
    (convertible (JObj ps) = true -> convertible (JObj ps') = true) /\
    (forall q, Forall (fun p => diverges p q) rs.*1 -> at_path (JObj ps') q = at_path (JObj ps) q).
Proof.
  induction rs as [|[p x] rs IH]; intros Ha HC ps HF.
  { exists ps. split; [done|]. split; [|done]. intros ? ? Hin. by apply not_elem_of_nil in Hin. }
  rewrite fmap_cons in Ha, HF. cbn [fst] in *. destruct Ha as [Hd Ha]. apply list.Forall_cons in HF as [[Hn Ho] HF].
  apply list.Forall_cons in HC as [Hx HC]. cbn [snd] in Hx.
  destruct (set_spec builtin p x Hn Hx ps Ho) as (ps1 & E1 & G1 & C1 & F1). destruct (IH Ha HC ps1) as (ps' & E & G & C & F).
  { apply list.Forall_forall. intros q Hq. rewrite list.Forall_forall in HF, Hd. destruct (HF q Hq) as [Hnq Hoq].
    split; [done|]. by apply F1; [apply Hd|]. }
  exists ps'. split; [cbn [set_all]; unfold baseSet; cbn [lodash_isObject is_object fst snd]; by rewrite E1|]. split; [|split; [auto|]].
  - intros q y [[= -> ->]|Hin]%elem_of_cons; [|by apply G]. rewrite F; [done|]. eapply list.Forall_impl; [exact Hd|]. intros. by apply diverges_sym.
  - intros q Hq. rewrite fmap_cons in Hq. apply list.Forall_cons in Hq as [Hq1 Hq]. rewrite F by done. by apply F1.
Qed.
End Set_all.

(** ** From plain data to the state and back *)

Lemma own_ordered `{Host} v k x : own v k = Some x -> im_get (ordered_value v) k = Some (ordered_value x).
Proof.
  destruct v as [| | | | |l|ps| | | |]; try done; cbn [own].
  - cbn [ordered_value im_get]. destruct (array_index k); [|done]. change (map ordered_value l) with (ordered_value <$> l).
    rewrite list_lookup_fmap. by intros ->.
  - rewrite ordered_get. by intros ->.
Qed.

Lemma at_path_ordered `{Host} p : forall v x, at_path v p = Some x -> getIn (ordered_value v) p = Some (ordered_value x).
Proof.
  induction p as [|k p IH]; intros v x; cbn [at_path getIn]; [by intros [= ->]|]. destruct (own v k) as [y|] eqn:E; [|done].
  rewrite (own_ordered _ _ _ E). apply IH.
Qed.

Lemma own_toJS v k x : im_get v k = Some x -> own (toJS v) k = Some (toJS x).
Proof.
  destruct v as [| | | | | | | | |l|o ps]; try done; cbn [im_get toJS own].
  - destruct (array_index k); [|done]. change (map toJS l) with (toJS <$> l). rewrite list_lookup_fmap. by intros ->.
  - rewrite assoc_map_values. by intros ->.
Qed.

Lemma at_path_toJS p : forall v x, getIn v p = Some x -> at_path (toJS v) p = Some (toJS x).
Proof.
  induction p as [|k p IH]; intros v x; cbn [at_path getIn]; [by intros [= ->]|]. destruct (im_get v k) as [y|] eqn:E; [|done].
  rewrite (own_toJS _ _ _ E). apply IH.
Qed.

(** ** A batch *)

Section Batch.
Context `{Host} (hashCode : jv -> jsstr) (validateParam : jv -> bool -> bool -> js_error + list jv) (builtin : jsstr -> nat).
Context (getLineNumberForPath : jv -> jv -> jv).
Abbreviation next := (step hashCode validateParam builtin getLineNumberForPath).

(** Errors that are objects, with an array or nothing for their [fullPath]. *)
Definition error_shaped (err : jv) : Prop :=
  match err with JObj ps => match field_of ps "fullPath" with JArr _ | JUndef | JNull => True | _ => False end | _ => False end.
Definition errors_shaped (errors : jv) : Prop := match errors with JArr errs => Forall error_shaped errs | _ => True end.

Lemma prepared_total t err : error_shaped err -> exists e, prepared_error getLineNumberForPath t err = inr e.
Proof.
  destruct err as [| | | | | |ps| | | |]; try done. cbn [error_shaped prepared_error].
  destruct (field_of ps "fullPath"); try done; intros _; cbn [truthy rbind]; by eexists.
Qed.

Lemma store_thrown_total errors t sys : errors_shaped errors -> exists sys', store_thrown getLineNumberForPath errors t sys = inr sys' /\ s_spec sys' = s_spec sys.
Proof.
  intros He. assert (H0 : exists sys', @inr js_error system sys = inr sys' /\ s_spec sys' = s_spec sys) by (by exists sys).
  destruct errors as [| | | | |errs| | | | |]; try exact H0. destruct errs as [|e errs]; [exact H0|]. cbn [store_thrown].
  assert (Ht : exists es, traverse (prepared_error getLineNumberForPath t) (e :: errs) = inr es).
  { cbn [errors_shaped] in He. clear H0. induction He as [|x l Hx _ [es IH]]; [by exists []|]. cbn [traverse].
    destruct (prepared_total t x Hx) as [y ->]. cbn [rbind]. rewrite IH. by eexists. }
  destruct Ht as [es ->]. cbn [rbind]. by eexists.
Qed.

(** What is asked for, with the errors and the subtree each path is answered with. *)
Abbreviation replies := (list (list jsstr * (jv * jv))).
Definition requests (rs : replies) : list event := Request <$> rs.*1.
Definition answers (rs : replies) : list event := (fun r => Answer 0 r.2.1 r.2.2) <$> rs.
Definition results (rs : replies) : list (list jsstr * jv) := (fun r => (r.1, r.2.2)) <$> rs.

Lemma results_paths (rs : replies) : (results rs).*1 = rs.*1.
Proof. unfold results. by rewrite <- list_fmap_compose. Qed.

Lemma requests_spec rs w : rs <> [] -> foldl next w (requests rs) =
  {| w_system := w_system w; w_queue := w_queue w ++ rs.*1; w_armed := true; w_runs := w_runs w |}.
Proof.
  unfold requests. revert w. induction rs as [|r rs IH]; intros w Hrs; [done|]. destruct rs as [|r' rs]; [done|].
  change (foldl next (requestResolvedSubtree r.1 w) (Request <$> (r' :: rs).*1) =
    {| w_system := w_system w; w_queue := w_queue w ++ [r.1] ++ (r' :: rs).*1; w_armed := true; w_runs := w_runs w |}).
  rewrite IH by done. cbn [requestResolvedSubtree w_system w_queue w_runs]. by rewrite <- app_assoc.
Qed.

Lemma answers_spec rs : forall w r m c, rs <> [] -> w_runs w = [r] -> r_paths r = rs.*1 -> Forall (fun r => errors_shaped r.2.1) rs ->
  set_all builtin (r_map r) (results rs) = inr m -> set_all builtin (r_current r) (results rs) = inr c ->
  exists sys, s_spec sys = s_spec (w_system w) /\ foldl next w (answers rs) =
    finish hashCode validateParam m {| w_system := sys; w_queue := w_queue w; w_armed := w_armed w; w_runs := [] |}.
Proof.
  induction rs as [|[p [e x]] rs IH]; intros w r m c Hrs Hr Hp HF Em Ec; [done|]. apply list.Forall_cons in HF as [He HF]. cbn [fst snd] in He.
  cbn [answers fmap list_fmap foldl]. fold (answers rs). destruct r as [paths m0 c0 t]. cbn [r_paths r_map r_current] in *. subst paths.
  cbn [step fst snd]. unfold answer. rewrite Hr. cbn [lookup list_lookup fmap list_fmap fst snd].
  set (sys1 := match bound _ with IList (_ :: _) => _ | _ => _ end).
  assert (S1 : s_spec sys1 = s_spec (w_system w)) by (subst sys1; by repeat case_match).
  destruct (store_thrown_total e t sys1 He) as (sys2 & E2 & S2). rewrite E2.
  cbn [results fmap list_fmap set_all fst snd] in Em, Ec.
  destruct (baseSet builtin m0 p x) as [|m1] eqn:E3; [done|]. destruct (baseSet builtin c0 p x) as [|c1] eqn:E4; [done|].
  cbn [rbind] in Em, Ec. destruct rs as [|r' rs].
  - injection Em as ->. exists sys2. split; [congruence|]. done.
  - edestruct (IH (with_runs [{| r_paths := (r' :: rs).*1; r_map := m1; r_current := c1; r_specStr := t |}] (with_system sys2 w)))
      as (sys3 & S3 & E5); [done|done|done|done|exact Em|exact Ec|]. exists sys3. split; [cbn in S3; congruence|]. exact E5.
Qed.

Definition subtrees (sys : system) : jv := js_or (specResolvedSubtree (s_spec sys) []) empty_map.

(** Nothing is asked for or on its way; the paths can be set beside the subtrees there are, and in the
    document; what is answered, and the subtrees there are, hold no object that cannot be converted. *)
Record ready (w : world) (rs : replies) : Prop := {
  ready_state : is_map (s_spec (w_system w)) = true;
  ready_queue : w_queue w = [];
  ready_runs : w_runs w = [];
  ready_json : is_map (bound (specJson (s_spec (w_system w)))) = true;
  ready_subtrees : is_map (subtrees (w_system w)) = true;
  ready_apart : apart rs.*1;
  ready_paths : Forall (fun p => named_path p /\ objects_along (toJS (subtrees (w_system w))) p = true) rs.*1;
  ready_document : Forall (fun p => objects_along (toJS (bound (specJson (s_spec (w_system w))))) p = true) rs.*1;
  ready_errors : Forall (fun r => errors_shaped r.2.1) rs;
  ready_answers : Forall (fun r => convertible r.2.2 = true) rs;
  ready_plain : convertible (toJS (subtrees (w_system w))) = true
}.

Lemma finish_subtrees m w p : is_map (s_spec (w_system w)) = true -> convertible m = true ->
  specResolvedSubtree (s_spec (w_system (finish hashCode validateParam m w))) p = getIn_or (ordered_value m) p JUndef.
Proof.
  intros Hs Hm. unfold finish, dispatch. cbn [w_system s_spec]. unfold spec_reducer. rewrite makeReducer_map by done.
  cbn [spec_reducers updateResolvedSubtree]. unfold fromJSOrdered. rewrite Hm. cbn [rbind].
  destruct (setIn_spec (s_spec (w_system w)) [js "resolvedSubtrees"] (ordered_value m))
    as (s' & -> & M & G & _); [done|cbn [maps_along]; rewrite Hs; by destruct (im_get _ _)|].
  replace (match s' with JNull => _ | _ => s' end) with s' by (by destruct s'). unfold specResolvedSubtree, getIn_or.
  change (js "resolvedSubtrees" :: p) with ([js "resolvedSubtrees"] ++ p). by rewrite getIn_app, G.
Qed.

(** C6: A batch of subtrees is resolved: paths that are asked for while nothing is on its way,
    then the debounced call, then an answer for every path: the batch is empty again, the state holds
    the answer of every path at its place, and the subtrees elsewhere are as they were.  No path is or
    is below another, no key is a number, no key but the last the name of a member of every object, and
    along the paths document and subtrees hold objects; errors are objects, and answers data. *)
Theorem batch_resolved w rs : rs <> [] -> ready w rs ->
  let w' := foldl next w (requests rs ++ [Fire] ++ answers rs) in
  w_queue w' = [] /\ w_armed w' = false /\ w_runs w' = [] /\
  (forall p e x, (p, (e, x)) ∈ rs -> specResolvedSubtree (s_spec (w_system w')) p = ordered_value x) /\
  (forall q y, Forall (fun p => diverges p q) rs.*1 -> getIn (subtrees (w_system w)) q = Some y ->
     specResolvedSubtree (s_spec (w_system w')) q = ordered_value (toJS y)).
Proof.
  intros Hrs [Hs Hq Hr Hj Ht Ha Hp Hd He Hx Hc]. cbv zeta. rewrite !foldl_app, requests_spec by done. rewrite Hq, Hr.
  cbn [foldl next app debResolveSubtrees w_armed w_system w_queue w_runs].
  fold (subtrees (w_system w)). destruct (subtrees (w_system w)) as [| | | | | | | | | |o ms] eqn:Em; try done.
  destruct (bound (specJson (s_spec (w_system w)))) as [| | | | | | | | | |o2 cs] eqn:Ej; try done.
  unfold plain. cbn [is_immutable is_map orb toJS] in *. set (ps := map _ ms) in *. set (qs := map _ cs) in *.
  destruct (rs.*1) as [|p0 ps0] eqn:E1; [by destruct rs|]. rewrite <- E1 in *.
  set (w1 := with_runs _ _).
  assert (HR : Forall (fun r => convertible r.2 = true) (results rs)) by (apply list.Forall_fmap; exact Hx).
  destruct (set_all_spec builtin (results rs)) with (ps := ps) as (ps' & Eps & G & C & F); [by rewrite results_paths|done|by rewrite results_paths|].
  destruct (set_all_spec builtin (results rs)) with (ps := qs) as (qs' & Eqs & _); [by rewrite results_paths|done| |].
  { rewrite results_paths. apply list.Forall_forall. intros p Hin. rewrite list.Forall_forall in Hp, Hd. by split; [apply Hp|apply Hd]. }
  edestruct (answers_spec rs w1) as (sys & Es & ->); [done|reflexivity|done|done|exact Eps|exact Eqs|]. split; [done|]. split; [done|]. split; [done|].
  assert (Hs' : is_map (s_spec sys) = true) by (by rewrite Es). split.
  - intros p e x Hin. rewrite finish_subtrees by (done || by apply C). unfold getIn_or. erewrite at_path_ordered; [done|]. apply G.
    unfold results. apply list_elem_of_fmap. by exists (p, (e, x)).
  - intros q y Hdv Hy. rewrite finish_subtrees by (done || by apply C). unfold getIn_or.
    erewrite at_path_ordered; [done|]. rewrite F by (by rewrite results_paths). apply (at_path_toJS q (IMap o ms) y Hy).
Qed.

(** A path asked for while the last answer of a run is awaited is dropped with the batch of that
    run: nothing is left to resolve, and the debounced call that follows does nothing. *)
Theorem late_request_dropped w i p q m c t errors spec m' c' : errors_shaped errors ->
  baseSet builtin m p spec = inr m' -> baseSet builtin c p spec = inr c' ->
  w_runs w !! i = Some {| r_paths := [p]; r_map := m; r_current := c; r_specStr := t |} ->
  let w' := foldl next w [Request q; Answer i errors spec] in
  w_queue w' = [] /\ w_runs w' = delete i (w_runs w) /\ next w' Fire = w'.
Proof.
  intros He Em Ec Hi. cbv zeta. cbn [foldl step]. unfold answer. cbn [requestResolvedSubtree w_runs w_system]. rewrite Hi.
  set (sys1 := match bound _ with IList (_ :: _) => _ | _ => _ end).
  destruct (store_thrown_total errors t sys1 He) as (sys2 & -> & _). by rewrite Em, Ec.
Qed.
End Batch.

(** ** Runs *)

Module Runs.
Definition sys : system := {| s_spec := IMap false [(js "json", IMap true [])]; s_err := err_init; s_oas3 := empty_map |}.
Definition start : world := {| w_system := sys; w_queue := []; w_armed := false; w_runs := [] |}.
Definition next : world -> event -> world := step (H := plain_host) (fun _ => []) (fun _ _ _ => inr []) (fun _ => 0%nat) (fun _ _ => JUndef).
Definition pet : list jsstr := [js "definitions"; js "Pet"].
Definition tag : list jsstr := [js "definitions"; js "Tag"].
Definition model (s : string) : jv := JObj [(js "title", JStr (js s))].
Definition found (w : world) (p : list jsstr) : jv := specResolvedSubtree (s_spec (w_system w)) p.
End Runs.

Lemma batch_resolved_witness :
  let rs := [(Runs.pet, (JArr [], Runs.model "pet")); (Runs.tag, (JArr [JObj [(js "message", JStr (js "no such reference"))]], Runs.model "tag"))] in
  let w' := foldl Runs.next Runs.start (requests rs ++ [Fire] ++ answers rs) in
  w_queue w' = [] /\ w_armed w' = false /\ w_runs w' = [] /\
  (forall p e x, (p, (e, x)) ∈ rs -> specResolvedSubtree (s_spec (w_system w')) p = ordered_value (H := plain_host) x) /\
  (forall q y, Forall (fun p => diverges p q) rs.*1 -> getIn (subtrees (w_system Runs.start)) q = Some y ->
     specResolvedSubtree (s_spec (w_system w')) q = ordered_value (H := plain_host) (toJS y)).
Proof.
  apply (batch_resolved (H := plain_host) (fun _ => []) (fun _ _ _ => inr []) (fun _ => 0%nat) (fun _ _ => JUndef) Runs.start
    [(Runs.pet, (JArr [], Runs.model "pet")); (Runs.tag, (JArr [JObj [(js "message", JStr (js "no such reference"))]], Runs.model "tag"))]); [done|].
  split; try done.
  - split; [|by split]. constructor; [|constructor]. right. split; [done|]. by left.
  - constructor; [|constructor; [|constructor]];
      (split; [|done]); (split; [done|]); (split; [repeat constructor|]);
      (constructor; [|constructor]); apply (bool_decide_unpack _); by vm_compute.
  - by repeat constructor.
  - repeat constructor.
  - by repeat constructor.
Defined.

Lemma late_request_dropped_witness :
  let w := foldl Runs.next Runs.start [Request Runs.pet; Fire] in
  let w' := foldl Runs.next w [Request Runs.tag; Answer 0 (JArr []) (Runs.model "pet")] in
  w_queue w' = [] /\ w_runs w' = delete 0%nat (w_runs w) /\ Runs.next w' Fire = w'.
Proof.
  apply (late_request_dropped (H := plain_host) (fun _ => []) (fun _ _ _ => inr []) (fun _ => 0%nat) (fun _ _ => JUndef)
    (foldl Runs.next Runs.start [Request Runs.pet; Fire]) 0 Runs.pet Runs.tag (JObj []) (JObj []) (JStr []) (JArr []) (Runs.model "pet")
    (JObj [(js "definitions", JObj [(js "Pet", Runs.model "pet")])]) (JObj [(js "definitions", JObj [(js "Pet", Runs.model "pet")])]));
    [constructor|by vm_compute|by vm_compute|by vm_compute].
Defined.

(** After a rejection the batch keeps the path: the paths asked for later wait behind it, and one
    that always fails keeps all of them from being resolved. *)
Example failing_path_blocks :
  let w := foldl Runs.next Runs.start [Request Runs.pet; Fire; Rejected 0; Request Runs.tag; Fire; Rejected 0] in
  w_queue w = [Runs.pet; Runs.tag] /\ w_runs w = [] /\ Runs.found w Runs.tag = JUndef.
Proof. by vm_compute. Qed.

(** A run that is on its way while the document is replaced writes the subtrees of the old document
    to the state of the new one. *)
Example stale_subtrees :
  let w := foldl Runs.next Runs.start
    [Request Runs.pet; Fire; Act (UPDATE_JSON (JObj [(js "swagger", JStr (js "2.0"))])); Act invalidateResolvedSubtreeCache;
     Answer 0 (JArr []) (Runs.model "of the old document")] in
  Runs.found w Runs.pet = IMap true [(js "title", JStr (js "of the old document"))].
Proof. by vm_compute. Qed.

(** A definition called "1" makes an array of the definitions, in which another gets lost. *)
Example numeric_name_loses :
  let w := foldl Runs.next Runs.start
    [Request [js "definitions"; js "1"]; Request Runs.pet; Fire; Answer 0 (JArr []) (Runs.model "one"); Answer 0 (JArr []) (Runs.model "pet")] in
  w_runs w = [] /\ Runs.found w Runs.pet = JUndef.
Proof. by vm_compute. Qed.

(** A path item called "constructor" is taken for the function every object has, and nothing is found
    in it. *)
Example inherited_name_loses :
  let w := foldl Runs.next Runs.start
    [Request [js "paths"; js "constructor"; js "get"]; Fire; Answer 0 (JArr []) (Runs.model "get")] in
  w_runs w = [] /\ Runs.found w [js "paths"; js "constructor"] = JFun 0 /\ Runs.found w [js "paths"; js "constructor"; js "get"] = JUndef.
Proof. by vm_compute. Qed.
