(* ===== verification/SuiDownload.v ===== *)
(** Swagger UI: loading a document.  The download-url plugin, the download of a configuration, and
    what [SwaggerUI] loads when it is started. *)
From S2P Require Import Prelude JsString JsNumber JsArith JsRegex YamlValue YamlTypes YamlLoader SuiUrl SuiImm SuiSpec SuiSpecLaws SuiErr SuiOas3.
From S2P Require Import SuiValidator SuiCurl SuiActions SuiEdit SuiResolve.

Abbreviation object := (list (jsstr * jv)).

(** What the browser knows of a URL, its protocol and origin ([new URL(url)] throws where it is
    none), and the location of the page. *)
Class Browser := {
  url_parts : jv -> option (jsstr * jsstr);
  page_protocol : jsstr;
  page_origin : jsstr
}.

(** ** The loading status *)

Definition reduce_LOADING_STATUS (status state : jv) : js_error + jv :=
  match status with JStr _ => jset state (js "loadingStatus") status | _ => inr state end.
Definition status_reducer : jv -> jv -> jv := makeReducer (fun status => Some (reduce_LOADING_STATUS status)).

(** [specActions.updateLoadingStatus(status)] *)
Definition updateLoadingStatus (status : string) (sys : system) : system :=
  {| s_spec := status_reducer (s_spec sys) (JStr (js status)); s_err := s_err sys; s_oas3 := s_oas3 sys |}.

Definition loadingStatus (state : jv) : js_error + jv :=
  let? s := get (self state) (js "loadingStatus") in inr (js_or s JNull).

Section Download.
Context `{Host} `{Client} `{Browser} (hashCode : jv -> jsstr) (validateParam : jv -> bool -> bool -> js_error + list jv).
Context (dateString : Z -> jsstr) (bi : builtins).
Abbreviation dispatch := (dispatch hashCode validateParam).
Abbreviation update_spec := (update_spec hashCode validateParam dateString bi).

(** ** Answers *)

(** What [next] is called with: an Error, by the properties it has, or what is none. *)
Inductive reply := AnError (e : object) | AResponse (res : jv).

Definition reply_field (r : reply) (k : string) : js_error + jv :=
  match r with AnError e => inr (field_of e k) | AResponse res => prop res (js k) end.

(** [v >= n] *)
Definition at_least (v : jv) (n : Z) : bool :=
  num_ge (match operand v with inl x => x | inr s => string_to_number s end) (of_Z n).

(** [res instanceof Error || res.status >= 400] *)
Definition refused (r : reply) : js_error + bool :=
  match r with
  | AnError _ => inr true
  | AResponse res => let? status := prop res (js "status") in inr (at_least status 400)
  end.

(** [Object.assign(new Error(message), { source: "fetch" })] *)
Definition fetch_error (message : jsstr) : jv := JObj [(js "message", JStr message); (js "source", JStr (js "fetch"))].
(** [errActions.newThrownErr(err)] *)
Definition newThrownErr (err : jv) (sys : system) : system := dispatch_err (NEW_THROWN_ERR (serializeError err)) sys.

(** [checkPossibleFailReasons()] *)
Definition checkPossibleFailReasons (url : jv) (sys : system) : system :=
  match url_parts url with
  | None => sys
  | Some (protocol, origin) =>
      if negb (bool_decide (protocol = js "https:")) && bool_decide (page_protocol = js "https:") then
        newThrownErr (fetch_error (js "Possible mixed-content issue? The page was loaded over https:// but a " ++ protocol ++
          js "// URL was specified. Check that you are not attempting to load mixed content.")) sys
      else if negb (bool_decide (origin = page_origin)) then
        newThrownErr (fetch_error (js "Possible cross-origin (CORS) issue? The URL origin (" ++ origin ++
          js ") does not match the page (" ++ page_origin ++
          js "). Check the server returns the correct 'Access-Control-Allow-*' headers.")) sys
      else sys
  end.

(** The refused answer of [next] *)
Definition download_failed (url : jv) (r : reply) (sys : system) : js_error + system :=
  let sys := updateLoadingStatus "failed" sys in
  let? message := reply_field r "message" in
  let? statusText := reply_field r "statusText" in
  let? status := reply_field r "status" in
  let sys := newThrownErr (fetch_error (js_string (js_or message statusText) ++ 32 :: js_string url)) sys in
  inr (match r with
       | AnError _ => if truthy status then sys else checkPossibleFailReasons url sys
       | AResponse _ => sys
       end).

(** [next(res)] of a download *)
Definition next (url : jv) (r : reply) (sys : system) : result :=
  let thrown e := {| r_system := sys; r_asked := []; r_thrown := Some e |} in
  match refused r, reply_field r "text" with
  | inl e, _ => thrown e
  | inr true, _ => match download_failed url r sys with inr sys' => done sys' | inl e => thrown e end
  | inr false, inl e => thrown e
  | inr false, inr text =>
      let res := update_spec text (updateLoadingStatus "success" sys) in
      let sys := r_system res in
      let sys := if strict_eq (bound (SuiSpec.url (s_spec sys))) url then sys else dispatch (updateUrl url) sys in
      {| r_system := sys; r_asked := r_asked res; r_thrown := r_thrown res |}
  end.

(** ** Requests *)

(** [a => a] *)
Context (identity : jv).

Definition download_request (configs : object) (url : jv) : object :=
  [(js "url", url); (js "loadSpec", JBool true);
   (js "requestInterceptor", js_or (field_of configs "requestInterceptor") identity);
   (js "responseInterceptor", js_or (field_of configs "responseInterceptor") identity);
   (js "credentials", JStr (js "same-origin"));
   (js "headers", JObj [(js "Accept", JStr (js "application/json,*/*"))])].

(** The page: the system with its batch of subtrees, and the requests under way. *)
Record page := { p_world : world; p_fetching : list object }.
Definition page_system (p : page) : system := w_system (p_world p).
Definition on_system (f : system -> system) (p : page) : page :=
  {| p_world := with_system (f (page_system p)) (p_world p); p_fetching := p_fetching p |}.

(** What an action leaves, the paths it asked for added to the batch. *)
Definition with_result (res : result) (p : page) : page :=
  {| p_world := foldl (fun w q => requestResolvedSubtree q w) (with_system (r_system res) (p_world p)) (r_asked res);
     p_fetching := p_fetching p |}.

(** [specActions.download(url)] *)
Definition download (configs : object) (url : jv) (p : page) : page :=
  let url := js_or url (bound (SuiSpec.url (s_spec (page_system p)))) in
  let p := on_system (fun sys => dispatch_err (clear_source (js "fetch")) (updateLoadingStatus "loading" sys)) p in
  {| p_world := p_world p; p_fetching := p_fetching p ++ [download_request configs url] |}.

(** The answer to the [i]th request under way. *)
Definition settled (i : nat) (r : reply) (p : page) : page :=
  match p_fetching p !! i with
  | Some req =>
      with_result (next (field_of req "url") r (page_system p)) {| p_world := p_world p; p_fetching := delete i (p_fetching p) |}
  | None => p
  end.

(** ** Starting *)

(** [typeof v === "object" && Object.keys(v).length] of data *)
Definition has_content (v : jv) : js_error + bool :=
  match v with
  | JNull => inl (TypeError "Cannot convert undefined or null to object")
  | JObj ps => inr (negb (bool_decide (ps = [])))
  | JArr l => inr (negb (bool_decide (l = [])))
  | _ => inr false
  end.

(** [system.specActions.updateUrl(url); system.specActions.download(url)] *)
Definition load_url (configs : object) (url : jv) (p : page) : page :=
  download configs url (on_system (dispatch (updateUrl url)) p).

(** The document of the configuration, in it or at its URL, unless the configuration could not be
    loaded. *)
Definition load_configured (fetched : bool) (queryUrl : jv) (mergedConfig : object) (p : page) : js_error + page :=
  if fetched then
    let spec := field_of mergedConfig "spec" in
    let? given := (if truthy queryUrl then inr false else has_content spec) in
    if given then
      let p := on_system (fun sys => updateLoadingStatus "success" (dispatch (updateUrl (JStr [])) sys)) p in
      let text := match stringify spec with Some t => JStr t | None => JUndef end in
      inr (with_result (update_spec text (page_system p)) p)
    else inr (let url := field_of mergedConfig "url" in if truthy url then load_url mergedConfig url p else p)
  else inr p.

(** [parseYamlConfig(text)], called without a system: the value and the objects it is made of *)
Definition parseYamlConfig (text : jsstr) : value * heap :=
  match safeLoad dateString bi text false false false with
  | Done v s => (v, l_heap s)
  | Raise _ _ | NoFuel => (VRef 0, [OObj []])
  end.

(** [next(res)] of [getConfigByUrl]: the system and what the callback is given. *)
Definition config_next (r : reply) (sys : system) : js_error + (system * (value * heap)) :=
  let? no := refused r in
  if no then inr (dispatch (updateUrl (JStr [])) (updateLoadingStatus "failedConfig" (updateLoadingStatus "failedConfig" sys)), (VNull, []))
  else
    let? text := reply_field r "text" in
    inr (sys, parseYamlConfig (js_string text)).

(** The requests for a configuration: [getConfigByUrl] is called for the promise it returns, and
    then again.  Where there is none, the document is loaded at once. *)
Definition config_requests (queryConfig constructorConfigUrl requestInterceptor responseInterceptor : jv) : list jv :=
  let configUrl := js_or queryConfig constructorConfigUrl in
  if truthy configUrl then
    [JObj [(js "url", configUrl); (js "loadRemoteConfig", JBool true); (js "requestInterceptor", requestInterceptor);
           (js "responseInterceptor", responseInterceptor)]; configUrl]
  else [].
End Download.
