(* ===== verification/SuiDownloadLaws.v ===== *)
(** Swagger UI: loading documents refines an abstract page that knows its requests, URL, status,
    text and document. *)
From S2P Require Import Prelude JsString JsNumber JsArith JsRegex YamlValue YamlTypes YamlLoader SuiUrl SuiImm SuiSpec SuiSpecLaws SuiErr SuiOas3.
From S2P Require Import SuiValidator SuiCurl SuiActions SuiEdit SuiResolve SuiDownload.

(** ** Errors with one source *)

(** The error has the source [src], and no other entry of that name. *)
Definition sourced (src : jsstr) (e : jv) : Prop :=
  im_get e (js "source") = Some (JStr src) /\ Forall (fun kv => kv.1 = js "source" -> kv.2 = JStr src) (entries_of e).

Definition keeps_source (src : jsstr) (e e' : jv) : Prop := sourced src e -> sourced src e'.

#[local] Instance keeps_source_preorder src : PreOrder (keeps_source src).
Proof. split; [intros e He; exact He|]. intros a b c Hab Hbc Ha. auto. Qed.

Lemma forall_put {A} (P : jsstr * A -> Prop) k x l : Forall P l -> P (k, x) -> Forall P (put k x l).
Proof.
  intros HF Hx. induction HF as [|[k' y] l Hy HF IH]; cbn [put]; [by constructor|]. case_bool_decide; [|by constructor].
  subst. by constructor.
Qed.

Lemma message_source src e m : is_map e = true -> keeps_source src e (im_set e (js "message") m).
Proof.
  intros He [H1 H2]. split; [by rewrite im_get_set_ne|]. destruct e; try done. cbn [im_set entries_of] in *. by apply forall_put.
Qed.

Lemma sourced_from src e : sourced src e -> from_source src e = true.
Proof. intros [E _]. unfold from_source. rewrite E. cbn. by apply bool_decide_eq_true_2. Qed.

Lemma sourced_kept src src' e : src <> src' -> src' <> [] -> is_map e = true -> sourced src e ->
  clear_keeps (JObj [(js "source", JStr src')]) e = true.
Proof.
  intros Hne Hn He [_ HF]. unfold clear_keeps. apply forallb_forall. intros [k v] Hin. apply list_elem_of_In in Hin.
  rewrite list.Forall_forall in HF. specialize (HF _ Hin). cbn [fst snd assoc] in *. case_bool_decide as Ek; [|done].
  rewrite (HF Ek). cbn [default id strict_eq]. rewrite bool_decide_eq_false_2 by done. by rewrite orb_true_r.
Qed.

(** What [Object.assign] builds has one entry of a name. *)
Lemma built_sourced src d : assoc (js "source") d = Some (JStr src) -> sourced src (fromJS (JObj d)).
Proof.
  intros E. split; [by rewrite fromJS_get, E|]. cbn [fromJS entries_of]. unfold in_key_order. apply list.Forall_forall.
  intros kv (k & -> & _)%list_elem_of_fmap Ek. cbn [fst snd] in *. subst k. by rewrite assoc_map_values, E.
Qed.

Lemma exists_related {A} (P : A -> Prop) (S : A -> A -> Prop) l l' :
  (forall x y, S x y -> P x -> P y) -> Forall2 S l l' -> Exists P l -> Exists P l'.
Proof. intros HS H. induction H as [|x y l l' Hxy _ IH]; [by inversion 1|]. inversion 1; subst; [left; eauto|right; auto]. Qed.

(** ** Errors of the download *)

(** An error of the download is shown, or none is. *)
Definition failure_shown (failed : bool) (s : err_store) : Prop :=
  if failed then Exists (sourced (js "fetch")) (error_list s) else Forall (fun e => from_source (js "fetch") e = false) (error_list s).

Lemma errors_maps s : errors_ok (e_state s) -> Forall (fun e => is_map e = true) (error_list s).
Proof. intros Hs. eapply list.Forall_impl; [by apply (errors_of_ok (e_state s)), errors_total|]. by intros e []. Qed.

Lemma failure_cleared jsSpec s : errors_ok (e_state s) -> failure_shown false (err_step jsSpec s (clear_source (js "fetch"))).
Proof.
  intros Hs. unfold failure_shown, clear_source. rewrite clear_list by done. pose proof (errors_maps s Hs) as HF. apply list.Forall_forall.
  intros e [Hk He]%list_elem_of_filter. rewrite list.Forall_forall in HF. apply cleared_source; [done|by apply HF|done].
Qed.

(** Clearing the errors of the parser. *)
Lemma failure_kept jsSpec s failed : errors_ok (e_state s) -> failure_shown failed s ->
  failure_shown failed (err_step jsSpec s (clear_source (js "parser"))).
Proof.
  intros Hs. pose proof (errors_maps s Hs) as HF. unfold failure_shown, clear_source. rewrite clear_list by done. destruct failed.
  - intros (e & He & Hsrc)%list.Exists_exists. apply list.Exists_exists. exists e. split; [|done]. apply list_elem_of_filter.
    split; [|done]. rewrite list.Forall_forall in HF. apply (sourced_kept (js "fetch")); [done|done|by apply HF|done].
  - rewrite !list.Forall_forall. intros H0 e [_ He]%list_elem_of_filter. by apply H0.
Qed.

(** An error of the parser. *)
Lemma failure_beside spec s failed e : errors_ok (e_state s) -> failure_shown failed s ->
  failure_shown failed (err_step (inr spec) s (NEW_SPEC_ERR (parser_error e))).
Proof.
  intros Hs. unfold failure_shown. destruct failed.
  - intros HE. eapply exists_related; [|by apply (error_added (keeps_source (js "fetch")) (message_source _) spec)|]; [by auto|].
    rewrite sort_by_line_perm. apply list.Exists_app. by left.
  - intros HF. pose proof (error_added same_fields message_fields spec s e Hs) as H2. set (l' := error_list (err_step _ _ _)) in *.
    assert (H1 : Forall (fun x => from_source (js "fetch") x = false) (sort_by_line (error_list s ++ [parser_map e]))).
    { rewrite sort_by_line_perm. apply list.Forall_app. split; [done|]. constructor; [|constructor]. by vm_compute. }
    clear HF. induction H2 as [|x y l k Hxy _ IH]; [constructor|]. inversion H1; subst. constructor; [|by apply IH].
    unfold from_source in *. by rewrite Hxy.
Qed.

Section Refinement.
Context `{Host} `{Client} `{Browser} (hashCode : jv -> jsstr) (validateParam : jv -> bool -> bool -> js_error + list jv).
Context (dateString : Z -> jsstr) (bi : builtins) (identity : jv) (configs : object).
Abbreviation update_spec := (update_spec hashCode validateParam dateString bi).
Abbreviation stored_json := (stored_json dateString bi).
(** serialize-error keeps the message and the own properties of an Error. *)
Context (serialized : forall m, exists ps, serializeError (fetch_error m) = JObj ps /\ NoDup ps.*1 /\
  assoc (js "message") ps = Some (JStr m) /\ assoc (js "source") ps = Some (JStr (js "fetch"))).

Lemma failure_thrown spec m s : errors_ok (e_state s) -> failure_shown true (err_step (inr spec) s (NEW_THROWN_ERR (serializeError (fetch_error m)))).
Proof.
  intros Hs. destruct (serialized m) as (ps & -> & Hn & _ & E). unfold failure_shown.
  eapply exists_related; [|by apply (thrown_added (keeps_source (js "fetch")) (message_source _) spec)|]; [by auto|].
  apply list.Exists_app. right. left. apply built_sourced. rewrite assoc_assign_error by done. by rewrite E.
Qed.

(** ** The system *)

(** The state has the URL, the status, the text where it is known, the document, and an error of the
    download or none. *)
Record holds (sys : system) (url status : jv) (text : option jsstr) (json : js_error + jv) (failed : bool) : Prop := {
  h_ok : system_ok sys;
  h_url : SuiSpec.url (s_spec sys) = inr url;
  h_status : loadingStatus (s_spec sys) = inr status;
  h_text : forall t, text = Some t -> specStr (s_spec sys) = inr (JStr (untab t));
  h_json : specJson (s_spec sys) = json;
  h_failed : failure_shown failed (s_err sys)
}.

Lemma get_frame s s' k : is_map s = true -> is_map s' = true -> im_get s' k = im_get s k -> get (self s') k = get (self s) k.
Proof. intros Hs Hs' E. rewrite !get_self by done. by rewrite E. Qed.

Lemma specStr_frame s s' : is_map s = true -> is_map s' = true -> im_get s' (js "spec") = im_get s (js "spec") -> specStr s' = specStr s.
Proof. intros Hs Hs' E. unfold specStr. by rewrite (get_frame s s'). Qed.

Lemma set_map v k x : is_map v = true -> is_map (im_set v k x) = true.
Proof. by destruct v. Qed.

Lemma url_set v sys url status text json failed : holds sys url status text json failed ->
  holds (dispatch hashCode validateParam (updateUrl (JStr v)) sys) (JStr v) status text json failed.
Proof.
  intros [(Hm & He & Hi) Hu Hst Ht Hj Hf].
  assert (E : s_spec (dispatch hashCode validateParam (updateUrl (JStr v)) sys) = im_set (s_spec sys) (js "url") (JStr v))
    by (by apply dispatch_set).
  pose proof (set_map (s_spec sys) (js "url") (JStr v) Hm) as Hm'.
  assert (J : specJson (im_set (s_spec sys) (js "url") (JStr v)) = specJson (s_spec sys)) by (apply specJson_frame; [done|done|by rewrite im_get_set_ne]).
  split; [split; [by rewrite E|split; [done|by rewrite E, J]]| | | | |done].
  - unfold SuiSpec.url. rewrite E, get_self by done. by rewrite im_get_set_eq.
  - rewrite <- Hst. unfold loadingStatus. rewrite E. f_equal. rewrite (get_frame (s_spec sys)); [done|done|done|by rewrite im_get_set_ne].
  - intros t Et. rewrite E, <- (Ht t Et). apply specStr_frame; [done|done|by rewrite im_get_set_ne].
  - by rewrite E, J.
Qed.

Lemma status_set st sys url status text json failed : js st <> [] -> holds sys url status text json failed ->
  holds (updateLoadingStatus st sys) url (JStr (js st)) text json failed.
Proof.
  intros Hne [(Hm & He & Hi) Hu Hst Ht Hj Hf].
  assert (E : s_spec (updateLoadingStatus st sys) = im_set (s_spec sys) (js "loadingStatus") (JStr (js st))).
  { cbn [updateLoadingStatus s_spec]. unfold status_reducer. rewrite makeReducer_map by done. unfold reduce_LOADING_STATUS, jset, is_immutable.
    rewrite Hm. by destruct (s_spec sys). }
  pose proof (set_map (s_spec sys) (js "loadingStatus") (JStr (js st)) Hm) as Hm'.
  assert (J : specJson (im_set (s_spec sys) (js "loadingStatus") (JStr (js st))) = specJson (s_spec sys))
    by (apply specJson_frame; [done|done|by rewrite im_get_set_ne]).
  split; [split; [by rewrite E|split; [done|by rewrite E, J]]| | | | |done].
  - rewrite <- Hu. unfold SuiSpec.url. rewrite E. apply get_frame; [done|done|by rewrite im_get_set_ne].
  - unfold loadingStatus. rewrite E, get_self by done. rewrite im_get_set_eq by done. cbn. by destruct (js st).
  - intros t Et. rewrite E, <- (Ht t Et). apply specStr_frame; [done|done|by rewrite im_get_set_ne].
  - by rewrite E, J.
Qed.

Lemma err_set a sys url status text json failed failed' : array_spec_err a = false ->
  (forall spec, errors_ok (e_state (s_err sys)) -> failure_shown failed' (err_step (inr spec) (s_err sys) a)) ->
  holds sys url status text json failed -> holds (dispatch_err a sys) url status text json failed'.
Proof.
  intros Ha Hf [(Hm & He & Hi) Hu Hst Ht Hj _].
  assert (E : js_spec sys = inr (toJS (bound (specJson (s_spec sys))))) by (unfold js_spec, plain; by rewrite Hi).
  split; [|done|done|done|done|].
  - split; [done|]. split; [by apply err_step_ok|done].
  - unfold dispatch_err. cbn [s_err]. rewrite E. by apply Hf.
Qed.

(** The document after a text *)
Definition json_after (text : jsstr) (json : js_error + jv) : js_error + jv :=
  match stored_json text with Some j => inr (ordered_value j) | None => json end.

Lemma text_set t sys url status text json failed : holds sys url status text json failed ->
  holds (r_system (update_spec (JStr t) sys)) url status (Some t) (json_after t json) failed.
Proof.
  intros [Hok Hu Hst Ht Hj Hf].
  destruct (edit_spec hashCode validateParam dateString bi t sys Hok) as (Hok' & Et & Ej & F & spec & Ee).
  unfold edit in *. pose proof Hok as (Hm & He & _). pose proof Hok' as (Hm' & _). split; [done| | | | |].
  - rewrite <- Hu. unfold SuiSpec.url. apply get_frame; [done|done|apply F, (bool_decide_unpack _); by vm_compute].
  - rewrite <- Hst. unfold loadingStatus. f_equal. apply get_frame; [done|done|apply F, (bool_decide_unpack _); by vm_compute].
  - by intros t' [= <-].
  - rewrite Ej. unfold json_after. by rewrite Hj.
  - rewrite Ee. cbv zeta. destruct (SuiActions.parse dateString bi t); [|by apply failure_kept].
    apply failure_beside; [by apply err_step_ok|by apply failure_kept].
Qed.

(** ** The page *)

Record apage := {
  a_fetching : list jsstr; a_url : jv; a_status : jv; a_text : option jsstr; a_json : js_error + jv; a_failed : bool
}.

Inductive visit := Load (url : jsstr) | Settled (i : nat) (r : reply) | Edit (text : jsstr).

Definition visit_step (p : page) (v : visit) : page :=
  match v with
  | Load url => load_url hashCode validateParam identity configs (JStr url) p
  | Settled i r => settled hashCode validateParam dateString bi i r p
  | Edit text => with_result (update_spec (JStr text) (page_system p)) p
  end.
Definition visits (vs : list visit) (p : page) : page := foldl visit_step p vs.

(** A text is shown. *)
Definition with_text (text : jsstr) (a : apage) : apage :=
  {| a_fetching := a_fetching a; a_url := a_url a; a_status := a_status a; a_text := Some text;
     a_json := json_after text (a_json a); a_failed := a_failed a |}.

(** What a page promises.  Of an answer without a text only URL and status are shown; of none at all,
    nothing. *)
Definition promised (a : apage) (v : visit) : apage :=
  match v with
  | Load url =>
      {| a_fetching := a_fetching a ++ [url]; a_url := JStr url; a_status := JStr (js "loading"); a_text := a_text a;
         a_json := a_json a; a_failed := false |}
  | Settled i r =>
      match a_fetching a !! i with
      | None => a
      | Some url =>
          let rest := delete i (a_fetching a) in
          match refused r with
          | inl _ =>
              {| a_fetching := rest; a_url := a_url a; a_status := a_status a; a_text := a_text a; a_json := a_json a; a_failed := a_failed a |}
          | inr true =>
              {| a_fetching := rest; a_url := a_url a; a_status := JStr (js "failed"); a_text := a_text a; a_json := a_json a; a_failed := true |}
          | inr false =>
              let a := {| a_fetching := rest; a_url := JStr url; a_status := JStr (js "success"); a_text := a_text a;
                          a_json := a_json a; a_failed := a_failed a |} in
              match reply_field r "text" with inr (JStr text) => with_text text a | _ => a end
          end
      end
  | Edit text => with_text text a
  end.

Record refines (p : page) (a : apage) : Prop := {
  ref_fetching : (fun req => field_of req "url") <$> p_fetching p = JStr <$> a_fetching a;
  ref_system : holds (page_system p) (a_url a) (a_status a) (a_text a) (a_json a) (a_failed a)
}.

Lemma with_result_system res p : page_system (with_result res p) = r_system res.
Proof.
  unfold page_system. cbn [with_result p_world]. set (w := with_system _ _). change (r_system res) with (w_system w).
  clearbody w. revert w. induction (r_asked res) as [|q qs IH]; [done|]. intros w. cbn [foldl]. by rewrite IH.
Qed.

Lemma load_refines url p a : refines p a ->
  refines (load_url hashCode validateParam identity configs (JStr url) p) (promised a (Load url)).
Proof.
  intros [Ef Hs]. apply (url_set url) in Hs. split; cbn [promised a_fetching a_url a_status a_text a_json a_failed].
  - cbn [load_url download p_fetching on_system]. rewrite !fmap_app, Ef. f_equal. cbn [fmap list_fmap].
    change (field_of (download_request _ _ ?u) "url") with u. unfold page_system. cbn [p_world on_system with_system w_system].
    destruct url; [|done]. cbn [js_or truthy]. by rewrite (h_url _ _ _ _ _ _ Hs).
  - unfold load_url, download, page_system. cbn [p_world on_system with_system w_system].
    apply (status_set "loading") in Hs; [|done]. eapply err_set; [done| |exact Hs]. intros spec. apply failure_cleared.
Qed.

Lemma hint_refines url' sys url status text json : holds sys url status text json true ->
  holds (checkPossibleFailReasons url' sys) url status text json true.
Proof.
  intros Hs. unfold checkPossibleFailReasons. destruct (url_parts url') as [[protocol origin]|]; [|done].
  assert (Ht : forall m, holds (newThrownErr (fetch_error m) sys) url status text json true)
    by (intros m; eapply err_set; [done|intros spec; apply failure_thrown|done]).
  destruct (_ && _); [apply Ht|]. destruct (negb _); [apply Ht|done].
Qed.

Lemma refused_refines url' r sys url status text json failed : refused r = inr true -> holds sys url status text json failed ->
  exists sys', download_failed url' r sys = inr sys' /\ holds sys' url (JStr (js "failed")) text json true.
Proof.
  intros Er Hs. apply (status_set "failed") in Hs; [|done]. unfold download_failed.
  assert (Hp : forall k, exists v, reply_field r k = inr v).
  { intros k. destruct r as [e|res]; [by eexists|]. cbn in *. destruct res; try done; by eexists. }
  destruct (Hp "message"%string) as [m ->], (Hp "statusText"%string) as [t ->], (Hp "status"%string) as [st ->]. cbn [rbind].
  eexists. split; [done|]. set (sys1 := newThrownErr _ _). assert (Hs1 : holds sys1 url (JStr (js "failed")) text json true)
    by (eapply err_set; [done|intros spec; apply failure_thrown|exact Hs]).
  destruct r; [|done]. destruct (truthy st); [done|by apply hint_refines].
Qed.

(** The URL of an answer *)
Lemma url_shown u sys url status text json failed : holds sys url status text json failed ->
  holds (if strict_eq (bound (SuiSpec.url (s_spec sys))) (JStr u) then sys else dispatch hashCode validateParam (updateUrl (JStr u)) sys)
    (JStr u) status text json failed.
Proof.
  intros Hs. destruct (strict_eq _ _) eqn:Eq; [|by apply (url_set u) in Hs].
  destruct Hs as [K1 K2 K3 K4 K5 K6]. split; try done. rewrite K2 in Eq |- *. cbn [bound] in Eq.
  destruct url as [| | |x|s| | | | | |]; try done; [by destruct x|]. cbn in Eq. apply bool_decide_eq_true in Eq. by subst.
Qed.

Lemma settled_refines i r p a : refines p a ->
  refines (settled hashCode validateParam dateString bi i r p) (promised a (Settled i r)).
Proof.
  intros [Ef Hs]. unfold settled. cbn [promised].
  assert (El : (fun req => field_of req "url") <$> p_fetching p !! i = JStr <$> a_fetching a !! i) by (by rewrite <- !list_lookup_fmap, Ef).
  assert (Ed : (fun req => field_of req "url") <$> delete i (p_fetching p) = JStr <$> delete i (a_fetching a))
    by (by rewrite !list_fmap_delete, Ef).
  destruct (p_fetching p !! i) as [req|], (a_fetching a !! i) as [url|]; try done.
  injection El as Eu. cbn [fst snd] in Eu. rewrite Eu. unfold next.
  destruct (refused r) as [e|[]] eqn:Er.
  - split; cbn [a_fetching a_url a_status a_text a_json a_failed]; [done|]. by rewrite with_result_system.
  - destruct (refused_refines (JStr url) r _ _ _ _ _ _ Er Hs) as (sys' & E & Hs').
    destruct (reply_field r "text"); rewrite E; (split; [done|]); by rewrite with_result_system.
  - assert (Hp : exists v, reply_field r "text" = inr v).
    { destruct r as [e|res]; [by eexists|]. cbn in *. destruct res; try done; by eexists. }
    destruct Hp as [x ->]. apply (status_set "success") in Hs; [|done].
    destruct x as [| | | |t| | | | | |];
      try (split; [done|]; rewrite with_result_system; cbn [r_system]; eapply url_shown; exact Hs).
    split; [done|]. rewrite with_result_system. cbn [r_system]. eapply url_shown, text_set; exact Hs.
Qed.

(** C4: Loading documents refines a page that keeps, under any sequence of loads, answers in any order
    and edits, the requests under way; the URL last loaded or answered for; the status of the last of
    these; the text last received or typed; the document of the last text that made one that can be
    stored (an object or array, not one that contains itself or a Buffer with a byte other than 0); and
    an error of the download exactly when one was refused since the last load.  An answer without a text
    changes URL and status only.  serialize-error keeps the message and source of an Error. *)
Theorem downloads_refine vs p a : refines p a -> refines (visits vs p) (foldl promised a vs).
Proof.
  revert p a. induction vs as [|v vs IH]; intros p a Hr; [done|]. cbn [visits foldl]. apply IH. destruct v as [url|i r|text]; cbn [visit_step].
  - by apply load_refines.
  - by apply settled_refines.
  - destruct Hr as [Ef Hs]. split; [done|]. rewrite with_result_system. by eapply text_set.
Qed.
End Refinement.

(** ** A visit *)

Module Visit.
Definition client : Client :=
  {| opId := fun _ _ _ => JUndef; buildRequest := inr; url_text := id; serializeError := id; thrown := fun _ => JUndef; host_size := fun _ => Zero false |}.
Definition browser : Browser :=
  {| url_parts := fun _ => Some (js "http:", js "http://example.org"); page_protocol := js "http:"; page_origin := js "http://localhost" |}.
Definition sys : system :=
  {| s_spec := IMap false [(js "spec", JStr []); (js "url", JStr [])]; s_err := err_init; s_oas3 := empty_map |}.
Definition start : page := {| p_world := {| w_system := sys; w_queue := []; w_armed := false; w_runs := [] |}; p_fetching := [] |}.
Definition blank : apage := {| a_fetching := []; a_url := JStr []; a_status := JNull; a_text := Some []; a_json := inr empty_map; a_failed := false |}.
Definition response (status : Z) (text : string) : reply :=
  AResponse (JObj [(js "status", JNum (of_Z status)); (js "statusText", JStr (js "Not Found")); (js "text", JStr (js text))]).
Definition first : visit := Load (js "/first.json").
Definition second : visit := Load (js "/second.json").
End Visit.

Abbreviation demo_visits := (visits (H := plain_host) (H0 := Visit.client) (H1 := Visit.browser) (fun _ => []) (fun _ _ _ => inr []) (fun _ => []) plain_builtins (JFun 0) []).
Abbreviation demo_promised := (promised (H := plain_host) (fun _ => []) plain_builtins).

Lemma downloads_refine_witness :
  let vs := [Visit.first; Visit.second; Settled 0 (Visit.response 404 ""); Settled 0 (Visit.response 200 "swagger: '2.0'");
             Edit (js "a: !!binary AQID"); Settled 0 (AResponse JNull)] in
  refines (demo_visits vs Visit.start) (foldl demo_promised Visit.blank vs).
Proof.
  apply (downloads_refine (H := plain_host) (H0 := Visit.client) (H1 := Visit.browser) (fun _ => []) (fun _ _ _ => inr []) (fun _ => []) plain_builtins (JFun 0) []).
  - intros m. eexists. split; [done|]. split; [|done]. apply (bool_decide_unpack _). by vm_compute.
  - split; [done|]. split; [by repeat split|done|done| |done|by apply list.Forall_nil]. by intros t [= <-].
Defined.

(** The answer that comes last stays, whichever document was asked for last. *)
Example slow_answer_stays :
  let vs := [Visit.first; Visit.second; Settled 1 (Visit.response 200 "title: second"); Settled 0 (Visit.response 200 "title: first")] in
  let s := s_spec (page_system (demo_visits vs Visit.start)) in
  SuiSpec.url s = inr (JStr (js "/first.json")) /\ specStr s = inr (JStr (js "title: first")).
Proof. by vm_compute. Qed.

(** A configuration with the document null stops the start. *)
Example null_document_throws :
  load_configured (H := plain_host) (fun _ => []) (fun _ _ _ => inr []) (fun _ => []) plain_builtins (JFun 0) true JUndef [(js "spec", JNull)] Visit.start =
  inl (TypeError "Cannot convert undefined or null to object").
Proof. done. Qed.

(** The document of the configuration is not loaded where the query names a URL. *)
Example query_url_wins :
  match load_configured (H := plain_host) (fun _ => []) (fun _ _ _ => inr []) (fun _ => []) plain_builtins (JFun 0) true (JStr (js "/q.json"))
      [(js "spec", JObj [(js "swagger", JStr (js "2.0"))]); (js "url", JStr (js "/q.json"))] Visit.start with
  | inr p => loadingStatus (s_spec (page_system p)) = inr (JStr (js "loading")) /\ length (p_fetching p) = 1%nat
  | _ => False
  end.
Proof. by vm_compute. Qed.

(** A configuration is fetched twice, and the second time without the interceptors; each answer loads
    the document. *)
Example configuration_fetched_twice :
  config_requests JUndef (JStr (js "/config.yaml")) (JFun 1) (JFun 2) =
    [JObj [(js "url", JStr (js "/config.yaml")); (js "loadRemoteConfig", JBool true); (js "requestInterceptor", JFun 1); (js "responseInterceptor", JFun 2)];
     JStr (js "/config.yaml")].
Proof. done. Qed.
