(* ===== verification/SuiOauth.v ===== *)
(** Swagger UI: the OAuth2 flows that leave the page: the URL the reader is sent to
    (core/oauth2-authorize.js), the page the server sends him back to (oauth2-redirect.html), and
    the functions to authorize in advance. *)
From S2P Require Import Prelude JsString JsNumber BufferStore Base64Js BufferCodec BufferText UriCodec YamlValue SuiUrl SuiImm SuiSpec SuiErr.
From S2P Require Import SuiAuth SuiOas3 SuiCurl JsJson SuiActions.

Abbreviation object := (list (jsstr * jv)).

Section Oauth.
Context `{Host}.

(** ** [authorize] *)

(** The action the answer is handed to. *)
Inductive callback := PreAuthorizeImplicit | AccessCodeWithFormParams | AccessCodeWithBasicAuthentication.

(** [window.swaggerUIRedirectOauth2] *)
Record redirect := { d_auth : object; d_state : jsstr; d_redirectUrl : jv; d_callback : callback }.

(** What a click on "Authorize" does: a token request, an error, or a window that is opened. *)
Inductive started :=
  | ByPassword
  | ByApplication
  | Refused (a : err_action)
  | Opened (url : jsstr) (r : redirect).

(** [l.join(sep)] *)
Fixpoint join_with (sep : jsstr) (l : list jsstr) : jsstr :=
  match l with [] => [] | [s] => s | s :: l' => s ++ sep ++ join_with sep l' end.

(** ["name=" + encodeURIComponent(v)] *)
Definition query_part (name : jsstr) (v : jv) : js_error + list jsstr :=
  let? e := encodeURIComponent (js_string v) in inr [name ++ 61 :: e].

(** One more parameter; undefined ones are left out. *)
Definition extra_part (kv : jsstr * jv) : js_error + list jsstr :=
  match kv.2 with
  | JUndef => inr []
  | v => let? k := encodeURIComponent kv.1 in let? e := encodeURIComponent (js_string v) in inr [k ++ 61 :: e]
  end.

Definition redirect_missing (name : jv) : err_action :=
  NEW_AUTH_ERR (JObj [(js "authId", name); (js "source", JStr (js "validation")); (js "level", JStr (js "error"));
    (js "message", JStr (js "oauth2RedirectUrl configuration is not passed. Oauth2 authorization cannot be performed."))]).

Definition one_of (v : jv) (names : list string) : bool := existsb (fun n => is_str v (js n)) names.

(** [authorize({ auth, configs, authConfigs })]; [now] is the text of the date. *)
Definition authorize (auth : object) (redirectUrl : jv) (authConfigs : object) (now : jsstr) : js_error + started :=
  let schema := field_of auth "schema" in
  let? flow := get schema (js "flow") in
  if one_of flow ["password"]%string then inr ByPassword
  else if one_of flow ["application"; "clientCredentials"]%string then inr ByApplication
  else
    let q1 := if one_of flow ["accessCode"; "authorizationCode"]%string then [js "response_type=code"]
              else if one_of flow ["implicit"]%string then [js "response_type=token"] else [] in
    let? q2 := (match field_of auth "clientId" with JStr c => query_part (js "client_id") (JStr c) | _ => inr [] end) in
    match redirectUrl with
    | JUndef => inr (Refused (redirect_missing (field_of auth "name")))
    | _ =>
        let? q3 := query_part (js "redirect_uri") redirectUrl in
        let? q4 := (match field_of auth "scopes" with
                    | JArr ((_ :: _) as scopes) =>
                        let separator := js_or (field_of authConfigs "scopeSeparator") (JStr [32]) in
                        query_part (js "scope") (JStr (join_with (js_string separator) (join_text <$> scopes)))
                    | _ => inr []
                    end) in
        let? state := btoa now in
        let? q5 := query_part (js "state") (JStr state) in
        let? q6 := (match field_of authConfigs "realm" with JUndef => inr [] | realm => query_part (js "realm") realm end) in
        let? q7 := traverse extra_part (own_enumerable (field_of authConfigs "additionalQueryStringParams")) in
        let query := q1 ++ q2 ++ q3 ++ q4 ++ q5 ++ q6 ++ List.concat q7 in
        let? authorizationUrl := get schema (js "authorizationUrl") in
        match authorizationUrl with
        | JStr u =>
            let url := u ++ (if bool_decide (63 ∈ u) then 38 else 63) :: join_unit 38 query in
            let callback :=
              if one_of flow ["implicit"]%string then PreAuthorizeImplicit
              else if truthy (field_of authConfigs "useBasicAuthenticationWithAccessCodeGrant") then AccessCodeWithBasicAuthentication
              else AccessCodeWithFormParams in
            inr (Opened url {| d_auth := auth; d_state := state; d_redirectUrl := redirectUrl; d_callback := callback |})
        | _ => inl (TypeError "authorizationUrl.indexOf is not a function")
        end
    end.

(** ** The redirect page *)

(** [v.replace('=', '":"')] *)
Fixpoint replace_equals (v : jsstr) : jsstr :=
  match v with [] => [] | c :: v' => if c =? 61 then 34 :: 58 :: 34 :: v' else c :: replace_equals v' end.
Definition quoted_part (v : jsstr) : jsstr := 34 :: replace_equals v ++ [34].

Definition page_reviver (key : jsstr) (value : jv) : js_error + jv :=
  match key with [] => inr value | _ => let? t := decodeURIComponent (js_string value) in inr (JStr t) end.

(** The parameters of the answer, made into the text of an object. *)
Definition page_params (qp : jsstr) : js_error + jv :=
  match qp with
  | [] => inr (JObj [])
  | _ => json_parse_with page_reviver (123 :: join_unit 44 (quoted_part <$> split_unit 38 qp) ++ [125])
  end.

(** [/code|token|error/.test(hash)] *)
Definition in_hash (hash : jsstr) : bool :=
  existsb (fun w => match index_of (js w) hash with Some _ => true | None => false end) ["code"; "token"; "error"]%string.
Definition page_query (hash search : jsstr) : jsstr := drop 1 (if in_hash hash then hash else search).

(** What the page calls in the window that opened it. *)
Inductive call :=
  | ErrCb (d : dispatched)
  | CodeCallback (auth : object) (redirectUrl : jv)
  | TokenCallback (auth : object) (token : jv) (isValid : bool) (redirectUrl : jv).

Definition unsafe_message : jsstr :=
  js "Authorization may be unsafe, passed state was changed in server Passed state wasn't returned from auth server".

(** The message of an answer without a code. *)
Definition no_code_message (qp : jv) : js_error + jsstr :=
  let? error := prop qp (js "error") in
  if truthy error then
    let? description := prop qp (js "error_description") in
    let? uri := prop qp (js "error_uri") in
    inr (91 :: js_string error ++ js "]: " ++
         (if truthy description then js_string description ++ js ". " else js "no accessCode received from the server. ") ++
         (if truthy uri then js "More info: " ++ js_string uri else []))
  else inr (js "[Authorization failed]: no accessCode received from the server").

(** [run()]; where it throws, the window stays open. *)
Definition run (r : redirect) (hash search : jsstr) : js_error + list call :=
  let? qp := page_params (page_query hash search) in
  let? state := prop qp (js "state") in
  let isValid := strict_eq state (JStr (d_state r)) in
  let? flow := get (field_of (d_auth r) "schema") (js "flow") in
  let name := field_of (d_auth r) "name" in
  if one_of flow ["accessCode"; "authorizationCode"]%string && negb (truthy (field_of (d_auth r) "code")) then
    let warning := if isValid then [] else [ErrCb (auth_error name (js "warning") (JStr unsafe_message))] in
    let? code := prop qp (js "code") in
    if truthy code then inr (warning ++ [CodeCallback (set_prop (js "code") code (d_auth r)) (d_redirectUrl r)])
    else
      let? message := no_code_message qp in
      inr (warning ++ [ErrCb (auth_error name (js "error") (JStr message))])
  else inr [TokenCallback (d_auth r) qp isValid (d_redirectUrl r)].

(** A token that is handed to [preAuthorizeImplicit]. *)
Definition implicit_token (auth : object) (token : jv) (isValid : bool) : js_error + list dispatched :=
  preAuthorizeImplicit (JObj auth) token isValid (default (js "undefined") (stringify token)).

(** ** The token request *)

(** url-parse: the query of a URL against a base, and the URL with another query. *)
Context (url_query : jv -> jv -> object) (url_with : jv -> jv -> object -> jv).

(** [Object.assign(target, source)] *)
Definition assign_own (target : object) (source : jv) : object :=
  foldl (fun acc p => set_prop (fst p) (snd p) acc) target (own_enumerable source).

(** The request [authorizeRequest(data)] sends: [base] is the selected server, or the URL of the
    document. *)
Definition authorizeRequest (data : token_request) (configs base wrapper interceptor : jv) : object :=
  let params := match configs with JObj ps => field_of ps "additionalQueryStringParams" | _ => JUndef end in
  let query := url_query (r_url data) base in
  let query := if is_object params then assign_own (assign_own [] (JObj query)) params
               else if strict_eq params JNull then assign_own [] (JObj query) else query in
  let texts l := JObj (prod_map id JStr <$> l) in
  [(js "url", url_with (r_url data) base query); (js "method", JStr (js "post"));
   (js "headers", JObj (assign_own [(js "Accept", JStr (js "application/json, text/plain, */*"));
                                        (js "Content-Type", JStr (js "application/x-www-form-urlencoded"))] (texts (r_headers data))));
   (js "query", texts (r_query data)); (js "body", JStr (r_body data));
   (js "requestInterceptor", wrapper); (js "responseInterceptor", interceptor)].

(** A response: its text is parsed before it is looked at. *)
Definition on_response (auth : object) (name response : jv) : js_error + list dispatched :=
  let? text := prop response (js "data") in
  let? token := json_parse_text (js_string text) in
  let? ok := prop response (js "ok") in
  let? statusText := prop response (js "statusText") in
  on_token_response (JObj auth) token name (truthy ok) statusText (default (js "undefined") (stringify token)).

(** The message for what was rejected or thrown. *)
Definition failure_message (e : jv) : js_error + jsstr :=
  let message := match e with JUndef => [] | _ => js_string e end in
  let? response := prop e (js "response") in
  if truthy response then
    let? errData := prop response (js "data") in
    if truthy errData then
      let json := match errData with JStr s => json_parse_text s | _ => inr errData end in
      let more := (let? j := json in
        let? error := prop j (js "error") in
        let? description := prop j (js "error_description") in
        inr ((if truthy error then js ", error: " ++ js_string error else []) ++
             (if truthy description then js ", description: " ++ js_string description else []))) in
      inr (message ++ match more with inr m => m | inl _ => [] end)
    else inr message
  else inr message.

Definition on_rejection (name e : jv) : js_error + list dispatched :=
  let? message := failure_message e in inr [auth_error name (js "error") (JStr message)].

(** The promise of [fn.fetch] is settled: [.then(...)] and [.catch(...)]; [thrown] is the object of an
    exception. *)
Definition token_settled `{Client} (auth : object) (name : jv) (outcome : jv + jv) : js_error + list dispatched :=
  match outcome with
  | inr response => match on_response auth name response with inr ds => inr ds | inl e => on_rejection name (thrown e) end
  | inl e => on_rejection name e
  end.

(** ** In advance *)

Definition definition_base (isOAS3 : bool) : list jsstr :=
  if isOAS3 then [js "components"; js "securitySchemes"] else [js "securityDefinitions"].

(** The scheme in the document, and the payload made of it; [None]: null, nothing is done. *)
Definition preauthorize (sys : system) (key : jsstr) (value : jv) : js_error + option auth_action :=
  let? schema := getIn_of (bound (specJson (s_spec sys))) (definition_base (spec_isOAS3 sys) ++ [key]) in
  if truthy schema then
    let? schema := plain schema in
    inr (Some (AUTHORIZE (JObj [(key, JObj [(js "value", value); (js "schema", schema)])])))
  else inr None.
Definition preauthorizeBasic (sys : system) (key : jsstr) (username password : jv) : js_error + option auth_action :=
  preauthorize sys key (JObj [(js "username", username); (js "password", password)]).
Definition preauthorizeApiKey (sys : system) (key : jsstr) (value : jv) : js_error + option auth_action :=
  preauthorize sys key value.
End Oauth.
