(* ===== verification/SuiOauthLaws.v ===== *)
(** Swagger UI: the query of the OAuth2 authorization is read as it is meant, and the token that
    comes back to the redirect page, or that is requested, is in the state in the end. *)
From S2P Require Import Prelude JsString JsNumber BufferStore Base64Js BufferCodec BufferText UriCodec YamlValue SuiUrl SuiImm SuiSpec SuiErr.
From S2P Require Import SuiAuth SuiOas3 SuiCurl JsJson SuiActions SuiEdit SuiOauth.

Lemma ascii_wf16 s : Forall (fun c => 0 <= c < 128) s -> wf16 s = true.
Proof.
  induction 1 as [|c s Hc _ IH]; [done|]. cbn [wf16]. unfold is_lead, is_trail. rewrite IH.
  destruct (Z.leb_spec 55296 c); [lia|]. destruct (Z.leb_spec 56320 c); [lia|]. cbn [andb negb]. lia.
Qed.

(** A name that stands for itself in a query. *)
Definition query_name (k : jsstr) : bool :=
  match decodeURIComponent k with inr k' => bool_decide (k' = k) | inl _ => false end && forallb (fun c => negb ((c =? 38) || (c =? 61))) k.

Section Laws.
Context `{Host}.

Lemma query_part_parsed k v : query_name k = true -> wf16 v = true ->
  exists part, query_part k (JStr v) = inr [part] /\ parse_part part = inr (k, v) /\ Forall (fun c => c <> 38) part.
Proof.
  intros [Hk HF]%andb_true_iff Hv. destruct (decodeURIComponent k) as [|k'] eqn:Dk; [done|]. apply bool_decide_eq_true in Hk as ->.
  destruct (uri_roundtrip v Hv) as (e & E & D & F & _).
  unfold query_part. cbn [js_string]. rewrite E. cbn [rbind]. eexists. split; [done|]. apply list.Forall_and in F as [F1 F2].
  assert (K : Forall (fun c => c <> 38 /\ c <> 61) k).
  { apply list.Forall_forall. intros c Hc. rewrite forallb_forall in HF. specialize (HF c). apply list_elem_of_In in Hc. specialize (HF Hc). lia. }
  apply list.Forall_and in K as [K1 K2]. split; [by apply parse_part_encoded|]. apply Forall_app. split; [done|]. by constructor.
Qed.

(** ** The window that is opened *)

(** What a text, or nothing, is asked as *)
Definition given (k : jsstr) (v : jv) : list (jsstr * jsstr) := match v with JStr s => [(k, s)] | _ => [] end.
Definition text_or_none (v : jv) : Prop := match v with JStr s => wf16 s = true | JUndef => True | _ => False end.

Definition separator (conf : object) : jsstr := match field_of conf "scopeSeparator" with JStr ((_ :: _) as s) => s | _ => [32] end.
Definition extras (conf : object) : list (jsstr * jv) := own_enumerable (field_of conf "additionalQueryStringParams").

(** The form of a flow that leaves the page, and the configuration of [initOAuth]. *)
Record leaving (auth conf : object) (flow u : jsstr) (scopes : list jsstr) : Prop := {
  l_schema : exists o ss, field_of auth "schema" = IMap o ss /\
    assoc (js "flow") ss = Some (JStr flow) /\ assoc (js "authorizationUrl") ss = Some (JStr u);
  l_flow : flow ∈ [js "implicit"; js "accessCode"; js "authorizationCode"];
  l_client : Forall (fun kv => wf16 kv.2 = true) (given [] (field_of auth "clientId"));
  l_scopes : field_of auth "scopes" = JArr (JStr <$> scopes) /\ wf16 (join_with (separator conf) scopes) = true;
  l_separator : text_or_none (field_of conf "scopeSeparator");
  l_realm : text_or_none (field_of conf "realm");
  l_extras : Forall (fun kv => wf16 kv.1 = true /\ text_or_none kv.2) (extras conf)
}.

Definition response_type (flow : jsstr) : jsstr := if bool_decide (flow = js "implicit") then js "token" else js "code".

(** What the server is asked. *)
Definition asked (auth conf : object) (flow redirectUrl : jsstr) (scopes : list jsstr) (state : jsstr) : list (jsstr * jsstr) :=
  (js "response_type", response_type flow) :: given (js "client_id") (field_of auth "clientId") ++
  (js "redirect_uri", redirectUrl) :: match scopes with [] => [] | _ => [(js "scope", join_with (separator conf) scopes)] end ++
  (js "state", state) :: given (js "realm") (field_of conf "realm") ++ List.concat ((fun kv => given kv.1 kv.2) <$> extras conf).

Definition next_step (conf : object) (flow : jsstr) : callback :=
  if bool_decide (flow = js "implicit") then PreAuthorizeImplicit
  else if truthy (field_of conf "useBasicAuthenticationWithAccessCodeGrant") then AccessCodeWithBasicAuthentication
  else AccessCodeWithFormParams.

(** The parts of a query that read as the list *)
Definition reads_as (l : list (jsstr * jsstr)) (parts : list jsstr) : Prop :=
  Forall2 (fun kv part => parse_part part = inr kv /\ Forall (fun c => c <> 38) part) l parts.

Lemma parts_parsed l parts : parts <> [] -> reads_as l parts ->
  traverse parse_part (split_unit 38 (join_unit 38 parts)) = inr l.
Proof.
  intros Hp HF. rewrite split_join; [|done|].
  - clear Hp. induction HF as [|kv part l parts [E _] _ IH]; [done|]. cbn [traverse]. rewrite E. cbn [rbind]. by rewrite IH.
  - clear Hp. induction HF as [|kv part l parts [_ E] _ IH]; by constructor.
Qed.

Lemma part_read k v : query_name k = true -> wf16 v = true -> exists parts, query_part k (JStr v) = inr parts /\ reads_as [(k, v)] parts.
Proof. intros Hk Hv. destruct (query_part_parsed k v Hk Hv) as (p & E & Q & F). exists [p]. split; [done|]. by repeat constructor. Qed.

Lemma extra_read kv : wf16 kv.1 = true -> text_or_none kv.2 -> exists parts, extra_part kv = inr parts /\ reads_as (given kv.1 kv.2) parts.
Proof.
  destruct kv as [k v]. cbn [fst snd]. intros Hk Hv. destruct v as [| | | |s| | | | | |]; try done; [exists []; split; [done|constructor]|]. cbn [text_or_none] in Hv.
  destruct (uri_roundtrip k Hk) as (ek & E1 & D1 & F1 & _), (uri_roundtrip s Hv) as (ev & E2 & D2 & F2 & _).
  unfold extra_part. cbn [fst snd js_string]. rewrite E1, E2. cbn [rbind]. eexists. split; [done|].
  apply list.Forall_and in F1 as [F1 F1'], F2 as [F2 F2']. repeat constructor; [by apply parse_part_encoded|].
  apply Forall_app. split; [done|]. by constructor.
Qed.

Lemma extras_read l : Forall (fun kv => wf16 kv.1 = true /\ text_or_none kv.2) l ->
  exists qs, traverse extra_part l = inr qs /\ reads_as (List.concat ((fun kv => given kv.1 kv.2) <$> l)) (List.concat qs).
Proof.
  induction 1 as [|kv l [Hk Hv] _ (qs & E & F)]; [exists []; split; [done|constructor]|].
  destruct (extra_read kv Hk Hv) as (parts & Ep & Fp). exists (parts :: qs). cbn [traverse]. rewrite Ep. cbn [rbind]. rewrite E. split; [done|].
  rewrite fmap_cons. cbn [List.concat]. by apply Forall2_app.
Qed.

Lemma realm_read conf : text_or_none (field_of conf "realm") ->
  exists parts, match field_of conf "realm" with JUndef => inr [] | realm => query_part (js "realm") realm end = inr parts /\
    reads_as (given (js "realm") (field_of conf "realm")) parts.
Proof.
  destruct (field_of conf "realm") as [| | | |s| | | | | |]; try done; intros Hv; [exists []; (split; [done|constructor])|].
  by apply part_read; [vm_compute|].
Qed.

Lemma client_read v : Forall (fun kv => wf16 kv.2 = true) (given [] v) ->
  exists parts, match v with JStr c => query_part (js "client_id") (JStr c) | _ => inr [] end = inr parts /\ reads_as (given (js "client_id") v) parts.
Proof.
  destruct v as [| | | |s| | | | | |]; try (intros _; exists []; (split; [done|constructor])). intros Hv. apply part_read; [by vm_compute|].
  by inversion Hv.
Qed.

Lemma join_texts (l : list jsstr) : join_text <$> (JStr <$> l) = l.
Proof. induction l as [|s l IH]; [done|]. rewrite !fmap_cons, IH. done. Qed.

Lemma scopes_read conf scopes : text_or_none (field_of conf "scopeSeparator") -> wf16 (join_with (separator conf) scopes) = true ->
  exists parts,
    match JArr (JStr <$> scopes) with
    | JArr ((_ :: _) as scopes) =>
        let separator := js_or (field_of conf "scopeSeparator") (JStr [32]) in
        query_part (js "scope") (JStr (join_with (js_string separator) (join_text <$> scopes)))
    | _ => inr []
    end = inr parts /\ reads_as (match scopes with [] => [] | _ => [(js "scope", join_with (separator conf) scopes)] end) parts.
Proof.
  intros Hs Hw. destruct scopes as [|s l]; [exists []; (split; [done|constructor])|]. rewrite fmap_cons. rewrite <- fmap_cons, join_texts.
  assert (E : js_string (js_or (field_of conf "scopeSeparator") (JStr [32])) = separator conf).
  { unfold separator. destruct (field_of conf "scopeSeparator") as [| | | |t| | | | | |]; try done. by destruct t. }
  cbv zeta. rewrite E. apply part_read; [by vm_compute|done].
Qed.

(** C14: The authorization server is asked what form and configuration say: the URL that is opened is
    the authorization URL, a separator and a query that reads as the response type of the flow; the
    client, where it is a text; the redirect URL; the scopes, where there are any, joined by
    scopeSeparator or a space; a state that is the base64 form of the date; the realm and the
    additionalQueryStringParams, where they are given; the state, the redirect URL and the next step of
    the flow are kept for the answer. All texts are well-formed UTF-16, that of the date has less than
    2^29 units, and scopeSeparator, realm and the additional parameters are texts or undefined. *)
Theorem authorization_url auth conf flow u scopes redirectUrl now :
  leaving auth conf flow u scopes -> wf16 redirectUrl = true -> wf16 now = true -> slen now < 2 ^ 29 ->
  exists sep query r bs, authorize auth (JStr redirectUrl) conf now = inr (Opened (u ++ sep :: query) r) /\
    (sep = 38 <-> 63 ∈ u) /\ (sep = 63 \/ sep = 38) /\
    traverse parse_part (split_unit 38 query) = inr (asked auth conf flow redirectUrl scopes (d_state r)) /\
    base64ToBytes (d_state r) = inr bs /\ decode Utf8 bs = now /\
    d_auth r = auth /\ d_redirectUrl r = JStr redirectUrl /\ d_callback r = next_step conf flow.
Proof.
  intros [(o & ss & Es & Ef & Eu) Hf Hc (Esc & Hsc) Hsep Hr Hx] Hru Hn Hl.
  destruct (btoa_spec now Hn Hl) as (state & bs & Eb & Ex & Ed & Ha).
  destruct (client_read _ Hc) as (p2 & E2 & F2), (scopes_read _ _ Hsep Hsc) as (p4 & E4 & F4).
  destruct (realm_read _ Hr) as (p6 & E6 & F6), (extras_read _ Hx) as (p7 & E7 & F7).
  destruct (part_read (js "redirect_uri") redirectUrl) as (p3 & E3 & F3); [by vm_compute|done|].
  destruct (part_read (js "state") state) as (p5 & E5 & F5); [by vm_compute|by apply ascii_wf16|].
  set (p1 := js "response_type=" ++ response_type flow).
  assert (F1 : reads_as [(js "response_type", response_type flow)] [p1]).
  { constructor; [|constructor]. subst p1.
    repeat (apply elem_of_cons in Hf as [->|Hf]; [split; [by vm_compute|by apply (bool_decide_unpack _); vm_compute]|]). by apply not_elem_of_nil in Hf. }
  assert (Hq : forall k, get (field_of auth "schema") k = inr (default JUndef (assoc k ss))) by (intros k; by rewrite Es).
  exists (if bool_decide (63 ∈ u) then 38 else 63), (join_unit 38 ([p1] ++ p2 ++ p3 ++ p4 ++ p5 ++ p6 ++ List.concat p7)).
  exists {| d_auth := auth; d_state := state; d_redirectUrl := JStr redirectUrl; d_callback := next_step conf flow |}, bs.
  split; [|split; [by case_bool_decide|]; split; [by case_bool_decide; auto|]; split; [|done]].
  - unfold authorize. rewrite !Hq, Ef, Eu. cbn [rbind default id]. rewrite Esc. unfold extras in E7. cbv zeta in E4 |- *. rewrite E2, E3, E4, Eb. cbn [rbind].
    rewrite E5, E6, E7. cbn [rbind]. subst p1. unfold next_step.
    repeat (apply elem_of_cons in Hf as [->|Hf]; [done|]). by apply not_elem_of_nil in Hf.
  - apply parts_parsed; [done|]. cbn [d_state].
    exact (Forall2_app F1 (Forall2_app F2 (Forall2_app F3
      (Forall2_app F4 (Forall2_app F5 (Forall2_app F6 F7)))))).
Qed.

(** ** The answer *)

(** Characters a quoted string has as they are. *)
Definition json_plain (c : Z) : bool := (32 <=? c) && (c <? 127) && negb (c =? 34) && negb (c =? 92).

Lemma quote_plain s : Forall (fun c => json_plain c = true) s -> quote s = 34 :: s ++ [34].
Proof.
  intros HF. unfold quote. do 2 f_equal. induction HF as [|c s Hc _ IH]; [done|]. unfold json_plain in Hc. bool_hyps. cbn [quote_units]. rewrite IH.
  unfold is_lead, is_trail, quote_unit. destruct (Z.leb_spec 55296 c); [lia|]. destruct (Z.leb_spec 56320 c); [lia|]. cbn [andb].
  repeat match goal with |- context [c =? ?k] => destruct (Z.eqb_spec c k); [lia|] end. by destruct (Z.ltb_spec c 32); [lia|].
Qed.

Lemma plain_units s : Forall (fun c => json_plain c = true) s -> Forall unit_ok s.
Proof. intros HF. eapply list.Forall_impl; [exact HF|]. unfold json_plain, unit_ok. intros c. lia. Qed.

Lemma unreserved_json c : unreserved c = true -> json_plain c = true.
Proof.
  intros Hc. destruct (unreserved_plain c Hc) as (_ & _ & _ & Hr).
  assert (E : (if unreserved c then json_plain c else true) = true).
  { apply (forall_below_spec 128 (fun c => if unreserved c then json_plain c else true)); [by vm_compute|lia]. }
  by rewrite Hc in E.
Qed.

Lemma percent_json b : 0 <= b < 256 -> Forall (fun c => json_plain c = true) (percent b).
Proof.
  intros Hb. unfold percent. repeat constructor; unfold json_plain, upper_hex; destr_cmp; Z.div_mod_to_equations; lia.
Qed.

(** A component that was encoded. *)
Lemma encoded_json s : wf16 s = true -> exists e, encodeURIComponent s = inr e /\ decodeURIComponent e = inr s /\
  Forall (fun c => json_plain c = true /\ c <> 38 /\ c <> 61) e.
Proof.
  intros Hs. destruct (uri_roundtrip s Hs) as (e & E & D & F & _). exists e. split; [done|]. split; [done|].
  apply list.Forall_and. split; [|done]. clear D F.
  apply wf16_scalars in Hs as (cps & HF & ->). revert e E. induction HF as [|cp cps Hcp _ IH]; intros e E; [by injection E as <-|].
  cbn [mbind list_bind] in E. rewrite encode_scalar in E by done. destruct (encodeURIComponent _) as [|e'] eqn:E'; [done|]. injection E as <-.
  apply Forall_app. split; [|by apply IH]. destruct (unreserved cp) eqn:Hu; [constructor; [by apply unreserved_json|constructor]|].
  apply Forall_bind. pose proof (utf8_ref_bytes cp (proj1 Hcp)) as Hb. rewrite list.Forall_forall in Hb.
  intros b Hb2%Hb. by apply percent_json.
Qed.

(** What the server answers in the hash, name by name. *)
Definition reply (ps : list (jsstr * jsstr)) : js_error + jsstr :=
  let? parts := traverse (fun kv => let? e := encodeURIComponent kv.2 in inr (kv.1 ++ 61 :: e)) ps in inr (35 :: join_unit 38 parts).

Definition reply_key (k : jsstr) : Prop :=
  k <> [] /\ k <> js "__proto__" /\ Forall (fun c => json_plain c = true /\ c <> 38 /\ c <> 61) k.

Lemma replace_first k e : Forall (fun c => c <> 61) k -> replace_equals (k ++ 61 :: e) = k ++ 34 :: 58 :: 34 :: e.
Proof.
  induction 1 as [|c k Hc _ IH]; [done|]. cbn [app replace_equals]. destruct (Z.eqb_spec c 61); [done|]. by rewrite IH.
Qed.

(** The parts of an answer, as members of an object. *)
Lemma reply_parts ps : Forall (fun kv => reply_key kv.1 /\ wf16 kv.2 = true) ps ->
  exists es parts, traverse (fun kv => let? e := encodeURIComponent kv.2 in inr (kv.1 ++ 61 :: e)) ps = inr parts /\
    es.*1 = ps.*1 /\ quoted_part <$> parts = member_text <$> (prod_map id JStr <$> es) /\
    Forall (fun part => Forall (fun c => c <> 38) part /\ part <> []) parts /\
    Forall (fun kv => Forall (fun c => json_plain c = true) kv.1 /\ Forall (fun c => json_plain c = true) kv.2) es /\
    Forall2 (fun kv ke => kv.1 = ke.1 /\ kv.1 <> [] /\ decodeURIComponent ke.2 = inr kv.2) ps es.
Proof.
  induction 1 as [|[k v] ps [(Hk0 & Hk1 & Hk) Hv] _ (es & parts & E & K & Q & F & P & D)]; [by exists [], []|]. cbn [fst snd] in *.
  destruct (encoded_json v Hv) as (e & Ee & De & Fe). exists ((k, e) :: es), ((k ++ 61 :: e) :: parts). cbn [traverse fst snd].
  rewrite Ee. cbn [rbind]. rewrite E. cbn [rbind]. split; [done|]. split; [by rewrite !fmap_cons, K|].
  apply list.Forall_and in Hk as [Hk2 [Hk3 Hk4]%list.Forall_and], Fe as [Fe2 [Fe3 Fe4]%list.Forall_and]. split; [|split; [|split]].
  - rewrite !fmap_cons, Q. f_equal. unfold quoted_part, member_text, text_of. cbn [prod_map fst snd id stringify default].
    rewrite replace_first by done. rewrite !quote_plain by done. cbn [app]. by rewrite <- !app_assoc.
  - constructor; [|done]. split; [apply Forall_app; split; [done|by constructor]|by destruct k].
  - by constructor.
  - by constructor.
Qed.

Definition token_of (ps : list (jsstr * jsstr)) : jv := JObj (prod_map id JStr <$> ps).

Lemma reads_str s : Forall unit_ok s -> reads (JStr s).
Proof. intros Hs. by apply data_reads, data_str. Qed.

(** The page reads what the server wrote. *)
Lemma page_reads ps hash : ps <> [] -> NoDup ps.*1 -> Forall (fun kv => reply_key kv.1 /\ wf16 kv.2 = true) ps ->
  reply ps = inr hash -> page_params (drop 1 hash) = inr (token_of ps).
Proof.
  intros Hps Hnd HF. unfold reply. destruct (reply_parts ps HF) as (es & parts & -> & K & Q & F & P & D). cbn [rbind]. intros [= <-].
  cbn [drop]. rewrite drop_0. assert (Hp : parts <> []).
  { intros ->. destruct es; [|done]. by destruct ps. }
  unfold page_params. rewrite split_join; [|done|eapply list.Forall_impl; [exact F|]; by intros ? [? _]]. rewrite Q. change (123 :: join_unit 44 (member_text <$> ?l) ++ [125]) with (braces_text l).
  assert (Hq : join_unit 38 parts <> []).
  { destruct parts as [|part parts]; [done|]. apply list.Forall_cons in F as [[_ Hne] _]. by destruct part, parts. }
  destruct (join_unit 38 parts) as [|c0 q0]; [done|]. unfold json_parse_with, json_parse_text.
  pose proof (object_read (prod_map id JStr <$> es) (S (length (braces_text (prod_map id JStr <$> es)))) []) as Ho. rewrite app_nil_r in Ho.
  rewrite Ho; [|..|lia].
  - cbn [skip_space rbind]. unfold token_of. clear -D. cbn [revive_children].
    enough (E : (fix go ps : js_error + list (jsstr * jv) :=
        match ps with
        | [] => inr []
        | (k, x) :: ps' =>
            let? x := revive_children page_reviver x in let? x := page_reviver k x in let? r := go ps' in inr ((k, x) :: r)
        end) (prod_map id JStr <$> es) = inr (prod_map id JStr <$> ps)) by (by rewrite E).
    induction D as [|[k v] [k' e] ps es (Ek & Hk & E) _ IH]; [done|]. cbn [fst snd] in *. subst k'. rewrite !fmap_cons.
    cbn [prod_map fst snd id revive_children rbind]. destruct k as [|c k]; [done|]. cbn [page_reviver js_string]. rewrite E. cbn [rbind].
    cbn [prod_map fst snd id] in IH. rewrite IH. done.
  - apply Forall_fmap. eapply list.Forall_impl; [exact P|]. intros [k e] [P1 P2]. cbn [compose prod_map fst snd id] in *.
    split; [by apply reads_str, plain_units|by apply plain_units].
  - rewrite <- list_fmap_compose. change (fst ∘ prod_map id JStr) with (fst : jsstr * jsstr -> jsstr). by rewrite K.
Qed.

Lemma token_get ps k : prop (token_of ps) k = inr (default JUndef (JStr <$> assoc k ps)).
Proof.
  unfold token_of. cbn [prop]. do 2 f_equal. induction ps as [|[k' v] ps IH]; [done|]. rewrite fmap_cons. cbn [prod_map fst snd id assoc].
  by case_bool_decide.
Qed.

(** Whether the state that was sent has come back. *)
Definition state_returned (r : redirect) (ps : list (jsstr * jsstr)) : bool := bool_decide (assoc (js "state") ps = Some (d_state r)).

Lemma state_checked r ps : strict_eq (default JUndef (JStr <$> assoc (js "state") ps)) (JStr (d_state r)) = state_returned r ps.
Proof.
  unfold state_returned. destruct (assoc (js "state") ps) as [s|]; cbn [fmap option_fmap option_map default id strict_eq]; [|done].
  by repeat case_bool_decide; congruence.
Qed.

(** The answer of the server as it arrives at the redirect page. *)
Record replied (r : redirect) (ps : list (jsstr * jsstr)) (hash name : jsstr) : Prop := {
  rp_some : ps <> [];
  rp_keys : NoDup ps.*1;
  rp_ok : Forall (fun kv => reply_key kv.1 /\ wf16 kv.2 = true) ps;
  rp_hash : reply ps = inr hash /\ in_hash hash = true;
  rp_name : field_of (d_auth r) "name" = JStr name
}.

Definition unsafe_warning (name : jsstr) : dispatched := auth_error (JStr name) (js "warning") (JStr unsafe_message).

(** The entry of a scheme with its token *)
Definition granted (auth : object) (token : jv) : object :=
  set_prop (js "token") (JObj (foldl (fun acc p => set_prop (fst p) (snd p) acc) [] (own_enumerable token))) auth.

Lemma granted_stored auth token name astate : field_of auth "name" = JStr name -> maps_along astate [js "authorized"; name] = true ->
  let astate' := auth_reducer astate (AUTHORIZE_OAUTH2 (JObj auth) token) in
  getIn astate' [js "authorized"; name] = Some (fromJS (JObj (granted auth token))) /\
  forall q, diverges [js "authorized"; name] q -> getIn astate' q = getIn astate q.
Proof.
  intros En Hm. cbv zeta. set (a := fromJS (JObj (granted auth token))).
  destruct (setIn_spec astate [js "authorized"; name] a) as (s' & E & M & G & F & _); [done|done|].
  enough (R : auth_reducer astate (AUTHORIZE_OAUTH2 (JObj auth) token) = s') by (by rewrite R).
  unfold auth_reducer. rewrite makeReducer_map by (cbn [maps_along] in Hm; by apply andb_true_iff in Hm as [? _]).
  cbn [auth_reducers]. unfold reduce_AUTHORIZE_OAUTH2. fold (granted auth token). fold a. rewrite get_map by done.
  assert (Ea : im_get a (js "name") = Some (JStr name)).
  { subst a. unfold granted. rewrite fromJS_get, assoc_set_prop, bool_decide_eq_false_2 by (by intros [? _]).
    unfold field_of in En. destruct (assoc (js "name") auth); cbn in *; by subst. }
  rewrite Ea. cbn [rbind default id js_string]. rewrite E. by destruct s'.
Qed.

Lemma granted_value auth token k v : NoDup token.*1 -> Forall (fun k => k <> js "__proto__") token.*1 -> assoc k token = Some v ->
  getIn (fromJS (JObj (granted auth (JObj token)))) [js "token"; k] = Some (fromJS v).
Proof.
  intros Hnd HF Hk. unfold granted. cbn [getIn]. rewrite fromJS_get, assoc_set_prop, bool_decide_eq_true_2 by done.
  cbn [fmap option_fmap option_map]. rewrite fromJS_get. cbn [own_enumerable]. rewrite assoc_foldl_set.
  - by rewrite assoc_in_key_order, Hk.
  - apply list.Forall_forall. intros [k2 x] Hx. unfold in_key_order in Hx. apply list_elem_of_fmap in Hx as (k3 & [= -> _] & Hk3).
    apply elem_obj_keys in Hk3. rewrite list.Forall_forall in HF. by apply HF.
  - unfold in_key_order. rewrite <- list_fmap_compose. cbn. rewrite list_fmap_id. by apply obj_keys_nodup.
Qed.

(** The token in the state. *)
Lemma token_stored auth ps name astate : field_of auth "name" = JStr name -> NoDup ps.*1 ->
  Forall (fun kv => kv.1 <> js "__proto__") ps -> maps_along astate [js "authorized"; name] = true ->
  forall k v, assoc k ps = Some v ->
    getIn (auth_reducer astate (AUTHORIZE_OAUTH2 (JObj auth) (token_of ps))) [js "authorized"; name; js "token"; k] = Some (JStr v).
Proof.
  intros En Hnd HF Hm k v Hk. destruct (granted_stored auth (token_of ps) name astate En Hm) as [G _].
  change [js "authorized"; name; js "token"; k] with ([js "authorized"; name] ++ [js "token"; k]). rewrite getIn_app, G.
  assert (Ek : (prod_map id JStr <$> ps).*1 = ps.*1)
    by (rewrite <- list_fmap_compose; by change (fst ∘ prod_map id JStr) with (fst : jsstr * jsstr -> jsstr)).
  unfold token_of. rewrite (granted_value auth _ k (JStr v)); [done|by rewrite Ek|rewrite Ek; by apply Forall_fmap|].
  pose proof (token_get ps k) as Hg. unfold token_of in Hg. cbn [prop] in Hg. rewrite Hk in Hg. cbn in Hg.
  destruct (assoc k (prod_map id JStr <$> ps)); cbn in Hg; [by injection Hg as ->|done].
Qed.

(** C7: The token of the implicit flow comes home: of parameters in the hash, at least one of them, with
    distinct names of printable ASCII characters without a quote, backslash, ampersand or equals sign
    (other than the empty name and `__proto__`; the page does not decode names), and well-formed values
    encoded as by encodeURIComponent, where the hash has "code", "token" or "error" in it, the page
    hands on exactly names and values, telling whether the state that was sent has come back; where none
    is named "error", the token is stored, under the name of the scheme (a text), with every value as
    the server gave it, and a warning is shown if and only if the state is not the one that was sent.
    The state has Maps along the way to the name. *)
Theorem implicit_grant r ps hash search name astate :
  replied r ps hash name -> get (field_of (d_auth r) "schema") (js "flow") = inr (JStr (js "implicit")) ->
  assoc (js "error") ps = None -> maps_along astate [js "authorized"; name] = true ->
  run r hash search = inr [TokenCallback (d_auth r) (token_of ps) (state_returned r ps) (d_redirectUrl r)] /\
  implicit_token (d_auth r) (token_of ps) (state_returned r ps) =
    inr ((if state_returned r ps then [] else [unsafe_warning name]) ++ [ToAuth (AUTHORIZE_OAUTH2 (JObj (d_auth r)) (token_of ps))]) /\
  forall k v, assoc k ps = Some v ->
    getIn (auth_reducer astate (AUTHORIZE_OAUTH2 (JObj (d_auth r)) (token_of ps))) [js "authorized"; name; js "token"; k] = Some (JStr v).
Proof.
  intros [Hs Hnd HF [Hh Hin] Hn] Hf He Hm. split; [|split].
  - unfold run, page_query. rewrite Hin, (page_reads ps hash Hs Hnd HF Hh). cbn [rbind]. rewrite token_get. cbn [rbind].
    rewrite Hf. cbn [rbind]. by rewrite state_checked.
  - unfold implicit_token, preAuthorizeImplicit. change (prop (JObj (d_auth r)) ?k) with (@inr js_error jv (default JUndef (assoc k (d_auth r)))).
    unfold field_of in Hf, Hn. cbn [rbind]. rewrite Hf, Hn. cbn [rbind]. rewrite token_get, He. cbn [rbind fmap option_fmap option_map default truthy].
    by destruct (state_returned r ps).
  - apply token_stored; try done. eapply list.Forall_impl; [exact HF|]. by intros kv [(_ & ? & _) _].
Qed.

(** The code of the other flows is handed on the same way. *)
Lemma code_granted r ps hash search name flow code :
  replied r ps hash name -> get (field_of (d_auth r) "schema") (js "flow") = inr (JStr flow) ->
  flow ∈ [js "accessCode"; js "authorizationCode"] -> field_of (d_auth r) "code" = JUndef ->
  assoc (js "code") ps = Some code -> code <> [] ->
  run r hash search = inr ((if state_returned r ps then [] else [ErrCb (unsafe_warning name)]) ++
    [CodeCallback (set_prop (js "code") (JStr code) (d_auth r)) (d_redirectUrl r)]).
Proof.
  intros [Hs Hnd HF [Hh Hin] Hn] Hf Hfl Hc Ec Hc0. unfold run, page_query. rewrite Hin, (page_reads ps hash Hs Hnd HF Hh). cbn [rbind].
  rewrite token_get. cbn [rbind]. rewrite Hf. cbn [rbind]. rewrite state_checked, Hc, Hn.
  replace (one_of (JStr flow) _) with true by (repeat (apply elem_of_cons in Hfl as [->|Hfl]; [done|]); by apply not_elem_of_nil in Hfl).
  cbn [truthy negb andb]. rewrite token_get, Ec. cbn [rbind fmap option_fmap option_map default truthy]. destruct code; [done|]. done.
Qed.

(** ** The token request *)

(** What a page keeps of authorizations and errors, and an action on it *)
Definition auth_page : Type := jv * err_store.
Definition deliver (spec : jv) (st : auth_page) (d : dispatched) : auth_page :=
  match d with ToAuth a => (auth_reducer st.1 a, st.2) | ToErr a => (st.1, err_step (inr spec) st.2 a) end.

(** The entry of an error of the scheme, up to its message *)
Definition scheme_error (name : jsstr) (e : jv) : Prop :=
  im_get e (js "authId") = Some (JStr name) /\ im_get e (js "source") = Some (JStr (js "auth")) /\
  im_get e (js "level") = Some (JStr (js "error")) /\ im_get e (js "type") = Some (JStr (js "auth")).

Lemma error_delivered spec st name m : errors_ok (e_state st.2) ->
  exists l e, (deliver spec st (auth_error (JStr name) (js "error") m)).1 = st.1 /\
    error_list (deliver spec st (auth_error (JStr name) (js "error") m)).2 = l ++ [e] /\
    Forall2 same_fields (error_list st.2) l /\ scheme_error name e.
Proof.
  intros Hs. unfold auth_error, deliver. set (payload := JObj _).
  set (error := im_set (fromJS (JObj (foldl (fun acc p => set_prop (fst p) (snd p) acc) [] (own_enumerable payload)))) (js "type") (JStr (js "auth"))).
  pose proof (errors_added same_fields message_fields spec st.2 (NEW_AUTH_ERR payload) (e_default st.2) (fun errors => errors ++ [error]) Hs eq_refl) as HF.
  apply Forall2_app_inv_l in HF as (l & k & Fl & Fk & E).
  - apply Forall2_cons_inv_l in Fk as (e & k' & He & Fk & ->). apply Forall2_nil_inv_l in Fk as ->.
    exists l, e. do 3 (split; [done|]). repeat split; by rewrite He.
  - apply Forall_app. split; [by apply (errors_of_ok (e_state st.2)), errors_total|]. constructor; [|constructor]. split; [done|].
    exists (js "auth"). split; [exact (im_get_set_eq (fromJS (JObj _)) (js "type") (JStr (js "auth")) eq_refl)|]. right. right. left.
Qed.

Section Exchange.
Context `{Client} (auth : object) (name : jsstr).

Definition nothing (v : jv) : bool := match v with JUndef | JNull => true | _ => false end.

Lemma prop_total v k : nothing v = false -> exists x, prop v k = inr x.
Proof. destruct v; try done; intros _; by eexists. Qed.

Lemma message_total e : nothing e = false -> exists m, failure_message e = inr m.
Proof.
  intros He. unfold failure_message. destruct (prop_total e (js "response") He) as [response ->]. cbn [rbind].
  destruct (truthy response) eqn:Et; [|by eexists]. destruct (prop_total response (js "data")) as [d ->]; [by destruct response|].
  cbn [rbind]. destruct (truthy d); by eexists.
Qed.

(** The one action a settled request hands on *)
Definition last_action (d : dispatched) : Prop :=
  (exists token, d = ToAuth (AUTHORIZE_OAUTH2 (JObj auth) token)) \/ exists m, d = auth_error (JStr name) (js "error") m.

Lemma rejection_action e : nothing e = false -> exists d, on_rejection (JStr name) e = inr [d] /\ last_action d.
Proof.
  intros He. unfold on_rejection. destruct (message_total e He) as [m ->]. cbn [rbind]. eexists. split; [done|]. right. by eexists.
Qed.

Lemma response_action response ds : on_response auth (JStr name) response = inr ds -> exists d, ds = [d] /\ last_action d.
Proof.
  unfold on_response, rbind. repeat (case_match; try done). subst. unfold on_token_response, rbind. repeat (case_match; try done); intros [= <-];
    (eexists; split; [done|]); (left + right); by eexists.
Qed.

(** The exceptions of the engine are objects. *)
Context (thrown_object : forall e, nothing (thrown e) = false).

Lemma settled_action outcome : match outcome with inl e => nothing e = false | inr _ => True end ->
  exists d, token_settled auth (JStr name) outcome = inr [d] /\ last_action d.
Proof.
  destruct outcome as [e|response]; intros He; cbn [token_settled]; [by apply rejection_action|].
  destruct (on_response auth (JStr name) response) as [e|ds] eqn:E; [by apply rejection_action|].
  apply response_action in E as (d & -> & Hd). by exists d.
Qed.

Lemma sent_action ps token : data (JObj token) -> assoc (js "data") ps = Some (JStr (text_of (JObj token))) ->
  truthy (field_of ps "ok") = true -> truthy (field_of token "error") = false -> truthy (field_of token "parseError") = false ->
  token_settled auth (JStr name) (inr (JObj ps)) = inr [ToAuth (AUTHORIZE_OAUTH2 (JObj auth) (JObj token))].
Proof.
  intros Ht Ed Ho E1 E2. cbn [token_settled]. unfold on_response. cbn [prop]. rewrite Ed. cbn [rbind default id js_string].
  rewrite data_parsed by done. cbn [rbind]. unfold on_token_response. cbn [truthy prop rbind]. unfold field_of in *. by rewrite E1, E2, Ho.
Qed.

(** How an exchange ends on the page: a token is stored under the name of the scheme, or an error of
    the scheme is shown last; nothing else changes but messages of other errors. *)
Inductive ended (st st' : auth_page) : Prop :=
  | Stored (token : jv) :
      getIn st'.1 [js "authorized"; name] = Some (fromJS (JObj (granted auth token))) ->
      (forall q, diverges [js "authorized"; name] q -> getIn st'.1 q = getIn st.1 q) -> st'.2 = st.2 -> ended st st'
  | Shown (l : list jv) (e : jv) :
      st'.1 = st.1 -> error_list st'.2 = l ++ [e] -> Forall2 same_fields (error_list st.2) l -> scheme_error name e -> ended st st'.

(** C15: Every token request ends: whatever the response is, text that is no JSON included, and whatever
    the request fails with but undefined and null, one action is handed on, and after it either a token is
    in the state under the name of the scheme, with the errors as they were, or the last error shown is
    one of the scheme, with the authorizations as they were; and of a token that is sent as JSON with a
    good status and without an error, every member (other than `__proto__`, where there is none of that
    name) is in the state as it was sent.  The scheme is named by a text, the state has Maps along the
    way to it, and the document is an Immutable collection. *)
Theorem token_exchange spec st : field_of auth "name" = JStr name ->
  errors_ok (e_state st.2) -> maps_along st.1 [js "authorized"; name] = true ->
  (forall outcome, match outcome with inl e => nothing e = false | inr _ => True end ->
     exists d, token_settled auth (JStr name) outcome = inr [d] /\ ended st (deliver spec st d)) /\
  (forall ps token, data (JObj token) -> assoc (js "data") ps = Some (JStr (text_of (JObj token))) ->
     truthy (field_of ps "ok") = true -> truthy (field_of token "error") = false -> truthy (field_of token "parseError") = false ->
     Forall (fun k => k <> js "__proto__") token.*1 ->
     exists d, token_settled auth (JStr name) (inr (JObj ps)) = inr [d] /\ (deliver spec st d).2 = st.2 /\
       forall k v, assoc k token = Some v -> getIn (deliver spec st d).1 [js "authorized"; name; js "token"; k] = Some (fromJS v)).
Proof.
  intros En Hs Hm. split.
  - intros outcome Ho. destruct (settled_action outcome Ho) as (d & E & Hd). exists d. split; [done|].
    destruct Hd as [(token & ->)|(m & ->)].
    + destruct (granted_stored auth token name st.1 En Hm) as [G F]. by apply (Stored _ _ token).
    + destruct (error_delivered spec st name m Hs) as (l & e & E1 & E2 & E3 & E4). by apply (Shown _ _ l e).
  - intros ps token Ht Ed Ho E1 E2 HF. eexists. split; [by apply sent_action|]. split; [done|]. intros k v Hk.
    change [js "authorized"; name; js "token"; k] with ([js "authorized"; name] ++ [js "token"; k]). cbn [deliver fst].
    destruct (granted_stored auth (JObj token) name st.1 En Hm) as [G _]. rewrite getIn_app, G. apply granted_value; [|done|done].
    by inversion Ht.
Qed.
End Exchange.
End Laws.

(** ** A form *)

Module Form.
#[export] Existing Instance plain_host.
Definition auth (flow : string) : object :=
  [(js "schema", IMap true [(js "flow", JStr (js flow)); (js "authorizationUrl", JStr (js "https://id.example/auth?v=2"))]);
   (js "name", JStr (js "petstore")); (js "clientId", JStr (js "ui & co")); (js "scopes", JArr [JStr (js "read"); JStr (js "write")])].
(** The configuration of [initOAuth] *)
Definition conf : object :=
  [(js "realm", JStr (js "pets & co")); (js "scopeSeparator", JStr (js ","));
   (js "additionalQueryStringParams", JObj [(js "prompt=", JStr (js "login")); (js "hint", JUndef)])].
Definition window (flow : string) : redirect :=
  {| d_auth := auth flow; d_state := js "TW9u"; d_redirectUrl := JStr (js "https://ui.example/back"); d_callback := PreAuthorizeImplicit |}.
Definition answer : list (jsstr * jsstr) := [(js "access_token", js "a&b=c"); (js "state", js "TW9u")].
End Form.
Import Form.

Lemma authorization_url_witness : exists sep query r bs,
  authorize (Form.auth "implicit") (JStr (js "https://ui.example/back")) Form.conf (js "Mon") =
    inr (Opened (js "https://id.example/auth?v=2" ++ sep :: query) r) /\
  (sep = 38 <-> 63 ∈ js "https://id.example/auth?v=2") /\ (sep = 63 \/ sep = 38) /\
  traverse parse_part (split_unit 38 query) =
    inr (asked (Form.auth "implicit") Form.conf (js "implicit") (js "https://ui.example/back") [js "read"; js "write"] (d_state r)) /\
  base64ToBytes (d_state r) = inr bs /\ decode Utf8 bs = js "Mon" /\
  d_auth r = Form.auth "implicit" /\ d_redirectUrl r = JStr (js "https://ui.example/back") /\
  d_callback r = next_step Form.conf (js "implicit").
Proof.
  apply (authorization_url (Form.auth "implicit") Form.conf (js "implicit") (js "https://id.example/auth?v=2") [js "read"; js "write"]); try done.
  split; try done; [by eexists _, _|left| |]; by repeat constructor.
Defined.

Lemma implicit_grant_witness :
  run (Form.window "implicit") (js "#access_token=a%26b%3Dc&state=TW9u") [] =
    inr [TokenCallback (Form.auth "implicit") (token_of Form.answer) (state_returned (Form.window "implicit") Form.answer) (JStr (js "https://ui.example/back"))] /\
  implicit_token (Form.auth "implicit") (token_of Form.answer) (state_returned (Form.window "implicit") Form.answer) =
    inr ((if state_returned (Form.window "implicit") Form.answer then [] else [unsafe_warning (js "petstore")]) ++
         [ToAuth (AUTHORIZE_OAUTH2 (JObj (Form.auth "implicit")) (token_of Form.answer))]) /\
  forall k v, assoc k Form.answer = Some v ->
    getIn (auth_reducer empty_map (AUTHORIZE_OAUTH2 (JObj (Form.auth "implicit")) (token_of Form.answer)))
      [js "authorized"; js "petstore"; js "token"; k] = Some (JStr v).
Proof.
  apply (implicit_grant (Form.window "implicit") Form.answer (js "#access_token=a%26b%3Dc&state=TW9u") [] (js "petstore") empty_map); try done.
  split; try done; by apply (bool_decide_unpack _); vm_compute.
Defined.

Definition form_client : Client :=
  {| opId := fun _ _ _ => JUndef; buildRequest := inr; url_text := id; serializeError := id;
     thrown := fun _ => JObj [(js "message", JStr (js "Unexpected token"))]; host_size := fun _ => Zero false |}.

Definition page : auth_page := (empty_map, err_init).

Lemma token_exchange_witness :
  let settled := token_settled (H0 := form_client) (Form.auth "accessCode") (JStr (js "petstore")) in
  (forall outcome, match outcome with inl e => nothing e = false | inr _ => True end ->
     exists d, settled outcome = inr [d] /\ ended (Form.auth "accessCode") (js "petstore") page (deliver JUndef page d)) /\
  (forall ps token, data (JObj token) -> assoc (js "data") ps = Some (JStr (text_of (JObj token))) ->
     truthy (field_of ps "ok") = true -> truthy (field_of token "error") = false -> truthy (field_of token "parseError") = false ->
     Forall (fun k => k <> js "__proto__") token.*1 ->
     exists d, settled (inr (JObj ps)) = inr [d] /\ (deliver JUndef page d).2 = page.2 /\
       forall k v, assoc k token = Some v -> getIn (deliver JUndef page d).1 [js "authorized"; js "petstore"; js "token"; k] = Some (fromJS v)).
Proof. by apply (token_exchange (H0 := form_client)). Defined.

(** A parameter without a value makes the page throw, and the window stays open. *)
Example bare_parameter_throws :
  run (Form.window "implicit") (js "#access_token=abc&flag") [] = inl (PlainError "Unexpected token in JSON").
Proof. by vm_compute. Qed.

(** A space the server writes as "+" is not read as one. *)
Example plus_is_kept :
  run (Form.window "accessCode") (js "#error=access_denied&error_description=not+now&state=TW9u") [] =
    inr [ErrCb (auth_error (JStr (js "petstore")) (js "error") (JStr (js "[access_denied]: not+now. ")))].
Proof. by vm_compute. Qed.
