(* ===== verification/SuiSecurity.v ===== *)
(** Swagger UI: the selectors the OpenAPI 3 plugin wraps, the schemes to authorize of such a
    document, and the securities the auth plugin adds to a request. *)
From S2P Require Import Prelude JsString JsNumber YamlValue SuiUrl SuiImm SuiSpec SuiErr SuiAuth SuiOas3 SuiActions.

Section Security.
Context `{Host}.

(** ** Wrapped selectors of the document *)

(** [onlyOAS3(selector)]: the original is a selector of the system. *)
Definition wrapped (sys : system) (selector ori : js_error + jv) : js_error + jv :=
  let? yes := isOAS3 (bound (specJson (s_spec sys))) in
  if yes then selector else inr (bound ori).

(** The resolved document, or else the one that was parsed. *)
Definition spec_doc (state : jv) : js_error + jv :=
  let? res := specResolved state in
  if is_immutable res then match entries_of res with [] => specJson state | _ => inr res end
  else inl (TypeError "res.count is not a function").

(** [spec.getIn(path) || d] *)
Definition in_doc (state : jv) (path : list jsstr) (d : jv) : js_error + jv :=
  let? doc := spec_doc state in
  let? v := getIn_of doc path in
  inr (js_or v d).

Definition oas3_definitions (sys : system) : js_error + jv :=
  wrapped sys (in_doc (s_spec sys) [js "components"; js "schemas"] empty_map) (definitions (s_spec sys)).
Definition oas3_hasHost (sys : system) : js_error + jv :=
  wrapped sys (let? doc := spec_doc (s_spec sys) in
               if is_immutable doc then inr (JBool (match getIn doc [js "servers"; js "0"] with Some _ => true | None => false end))
               else inl (TypeError "hasIn is not a function"))
    (let? b := hasHost (s_spec sys) in inr (JBool b)).
Definition oas3_securityDefinitions (sys : system) : js_error + jv :=
  wrapped sys (in_doc (s_spec sys) [js "components"; js "securitySchemes"] JNull) (securityDefinitions (s_spec sys)).

(** The original is the plugin's own selector, null for other documents. *)
Definition oas3_servers (sys : system) : js_error + jv :=
  wrapped sys (in_doc (s_spec sys) [js "servers"] empty_map) (inr JNull).

(** [OAS3NullSelector], for what only Swagger 2 has. *)
Definition oas3_null (sys : system) (ori : js_error + jv) : js_error + jv := wrapped sys (inr JNull) ori.
Definition oas3_host (sys : system) : js_error + jv := oas3_null sys (host (s_spec sys)).
Definition oas3_basePath (sys : system) : js_error + jv := oas3_null sys (basePath (s_spec sys)).
Definition oas3_schemes (sys : system) : js_error + jv := oas3_null sys (schemes (s_spec sys)).

Definition spec_isSwagger2 (sys : system) : js_error + bool := isSwagger2 (returnSelfOrNewMap (bound (specJson (s_spec sys)))).

(** ** The schemes to authorize *)

Definition is_undefined (v : jv) : bool := match v with JUndef => true | _ => false end.

(** One flow of a scheme, without the fields that are undefined. *)
Definition translated_flow (type : jv) (flowKey : jsstr) (flowVal : jv) : js_error + jv :=
  let? authorizationUrl := get flowVal (js "authorizationUrl") in
  let? tokenUrl := get flowVal (js "tokenUrl") in
  let? scopes := get flowVal (js "scopes") in
  match fromJS (JObj [(js "flow", JStr flowKey); (js "authorizationUrl", authorizationUrl); (js "tokenUrl", tokenUrl);
                      (js "scopes", scopes); (js "type", type)]) with
  | IMap o ps => inr (IMap o (base.filter (fun kv => is_undefined kv.2 = false) ps))
  | v => inr v
  end.

(** The Maps of one scheme: one for every flow, or the scheme itself; other types are left out. *)
Definition scheme_entries (defName : jsstr) (definition : jv) : js_error + list jv :=
  let? type := get definition (js "type") in
  let? flows :=
    (if is_str type (js "oauth2") then
       let? flows := get definition (js "flows") in
       if is_immutable flows then
         traverse (fun kv => let? d := translated_flow type kv.1 kv.2 in inr (IMap false [(defName, d)])) (entries_of flows)
       else inl (TypeError "entrySeq is not a function")
     else inr []) in
  inr (flows ++ if is_str type (js "http") || is_str type (js "apiKey") then [IMap false [(defName, definition)]] else []).

Definition schemes_to_authorize (definitions : jv) : js_error + jv :=
  if is_immutable definitions then
    let? l := traverse (fun kv => scheme_entries kv.1 kv.2) (entries_of definitions) in inr (IList (List.concat l))
  else inl (TypeError "entrySeq is not a function").

(** The wrapped [definitionsToAuthorize]. *)
Definition oas3_definitionsToAuthorize (sys : system) : js_error + jv :=
  wrapped sys (let? definitions := oas3_securityDefinitions sys in schemes_to_authorize definitions)
    (let? definitions := oas3_securityDefinitions sys in definitionsToAuthorize definitions).

(** ** The securities of a request *)

(** [v && v.toJS()] *)
Definition plain_or_falsy (v : jv) : js_error + jv := if truthy v then plain v else inr v.

(** The wrapped [execute] of the auth plugin: what is handed to the original. *)
Definition with_securities (auth : jv) (sys : system) (path method : jsstr) (operation : jv) (extras : jv) : js_error + list (jsstr * jv) :=
  let? authorized := plain_or_falsy (bound (authorized auth)) in
  let? sd := oas3_securityDefinitions sys in
  let? definitions := plain_or_falsy sd in
  let? specSecurity := plain_or_falsy (bound (security (s_spec sys))) in
  inr (assign [(js "path", JStr path); (js "method", JStr method); (js "operation", operation);
               (js "securities", JObj [(js "authorized", authorized); (js "definitions", definitions); (js "specSecurity", specSecurity)])] extras).

(** ** Laws *)

Lemma in_key_order_nodup ps : NoDup ps.*1 -> NoDup (in_key_order ps).*1.
Proof.
  intros Hnd. unfold in_key_order. rewrite <- list_fmap_compose.
  replace (fst ∘ (fun k => (k, default JUndef (assoc k ps))) <$> obj_keys ps) with (obj_keys ps) by (by rewrite list_fmap_id).
  by apply obj_keys_nodup.
Qed.

(** Leaving out what is undefined. *)
Abbreviation defined l := (base.filter (fun kv => is_undefined kv.2 = false) l).

Lemma assoc_defined l f x : assoc f l = Some x -> is_undefined x = false -> assoc f (defined l) = Some x.
Proof.
  intros E Hx. induction l as [|[k' y] l IH]; [done|]. cbn [assoc] in E. rewrite filter_cons. destruct (decide (f = k')) as [->|Hne].
  - rewrite bool_decide_eq_true_2 in E by done. injection E as ->. rewrite decide_True by done. cbn [assoc]. by rewrite bool_decide_eq_true_2.
  - rewrite bool_decide_eq_false_2 in E by done. destruct (decide _); [cbn [assoc]; rewrite bool_decide_eq_false_2 by done|]; by apply IH.
Qed.

Lemma assoc_undefined l f : NoDup l.*1 -> assoc f l = Some JUndef -> assoc f (defined l) = None.
Proof.
  intros Hnd E. induction l as [|[k' y] l IH]; [done|]. cbn [assoc] in E. rewrite filter_cons. rewrite fmap_cons in Hnd.
  apply list.NoDup_cons in Hnd as [Hni Hnd]. destruct (decide (f = k')) as [->|Hne].
  - rewrite bool_decide_eq_true_2 in E by done. injection E as ->. rewrite decide_False by done.
    destruct (assoc k' (defined l)) eqn:E2; [|done]. destruct Hni. cbn [fst].
    assert (Hin : k' ∈ (defined l).*1) by (apply assoc_elem; by rewrite E2).
    apply list_elem_of_fmap in Hin as (q & -> & [_ Hq]%list_elem_of_filter). apply list_elem_of_fmap. by exists q.
  - rewrite bool_decide_eq_false_2 in E by done. destruct (decide _); [cbn [assoc]; rewrite bool_decide_eq_false_2 by done|]; by apply IH.
Qed.

(** What a flow keeps of a field of the document. *)
Definition kept (o : option jv) : option jv := match o with Some JUndef | None => None | Some x => Some (fromJS x) end.

Lemma defined_get ps f x : NoDup ps.*1 -> assoc f ps = Some x ->
  im_get (IMap false (defined (in_key_order (map (fun p => match p with (k, x) => (k, fromJS x) end) ps)))) f = kept (Some x).
Proof.
  intros Hnd E. set (qs := map _ ps). cbn [im_get]. assert (A : assoc f (in_key_order qs) = Some (fromJS x)).
  { rewrite assoc_in_key_order. subst qs. by rewrite assoc_map_values, E. }
  assert (Hq : NoDup (in_key_order qs).*1).
  { apply in_key_order_nodup. replace qs.*1 with ps.*1; [done|]. subst qs. clear. induction ps as [|[k y] ps IH]; [done|]. cbn [map]. by rewrite !fmap_cons, IH. }
  destruct x; cbn [kept]; try (apply assoc_defined; done). by apply assoc_undefined.
Qed.

(** A flow of a scheme: its name, the type, and what the document says of URLs and scopes. *)
Lemma translated_flow_get type k v : is_map v = true -> exists d, translated_flow type k v = inr d /\
  im_get d (js "flow") = Some (JStr k) /\ im_get d (js "type") = kept (Some type) /\
  forall f, f ∈ [js "authorizationUrl"; js "tokenUrl"; js "scopes"] -> im_get d f = kept (im_get v f).
Proof.
  intros Hv. unfold translated_flow. rewrite !get_map by done. cbn [rbind]. set (ps := [_; _; _; _; _]). cbn [fromJS].
  assert (Hnd : NoDup ps.*1).
  { change ps.*1 with [js "flow"; js "authorizationUrl"; js "tokenUrl"; js "scopes"; js "type"]. by apply (bool_decide_unpack _); vm_compute. }
  eexists. split; [done|]. split; [|split].
  - by rewrite (defined_get ps _ (JStr k)).
  - by rewrite (defined_get ps _ type).
  - intros f Hf. rewrite (defined_get ps f (default JUndef (im_get v f))); [by destruct (im_get v f)|done|].
    repeat (apply elem_of_cons in Hf as [->|Hf]; [done|]). by apply not_elem_of_nil in Hf.
Qed.

(** An OAuth2 scheme of an OpenAPI 3 document is offered flow by flow: one entry for every flow, in
    their order, each with its own URLs and scopes under the name of the scheme. *)
Theorem flows_offered defName o ps flows o' : assoc (js "type") ps = Some (JStr (js "oauth2")) ->
  assoc (js "flows") ps = Some (IMap o' flows) -> Forall (fun kv => is_map kv.2 = true) flows ->
  exists ds, scheme_entries defName (IMap o ps) = inr ((fun d => IMap false [(defName, d)]) <$> ds) /\
    Forall2 (fun kv d => im_get d (js "flow") = Some (JStr kv.1) /\ im_get d (js "type") = Some (JStr (js "oauth2")) /\
      forall f, f ∈ [js "authorizationUrl"; js "tokenUrl"; js "scopes"] -> im_get d f = kept (im_get kv.2 f)) flows ds.
Proof.
  intros Et Ef HF. unfold scheme_entries. rewrite !get_map by done. cbn [im_get]. rewrite Et, Ef. cbn [rbind default id].
  change (is_str (JStr (js "oauth2")) (js "oauth2")) with true. cbn [is_immutable is_map orb entries_of].
  change (is_str (JStr (js "oauth2")) (js "http") || is_str (JStr (js "oauth2")) (js "apiKey")) with false. cbv iota. clear Et Ef.
  induction HF as [|[k v] flows Hv _ (ds & E & D)]; [by exists []|]. cbn [traverse fst snd] in *.
  destruct (translated_flow_get (JStr (js "oauth2")) k v Hv) as (d & -> & G1 & G2 & G3). cbn [rbind].
  exists (d :: ds). destruct (traverse _ flows) as [|l]; [done|]. cbn [rbind] in *. rewrite !app_nil_r in *. injection E as ->. split; [done|].
  by constructor.
Qed.
End Security.

Lemma flows_offered_witness :
  exists ds, scheme_entries (js "petstore") (IMap true [(js "type", JStr (js "oauth2"));
      (js "flows", IMap true [(js "implicit", IMap true [(js "authorizationUrl", JStr (js "/auth"))])])]) =
      inr ((fun d => IMap false [(js "petstore", d)]) <$> ds) /\
    Forall2 (fun kv d => im_get d (js "flow") = Some (JStr kv.1) /\ im_get d (js "type") = Some (JStr (js "oauth2")) /\
      forall f, f ∈ [js "authorizationUrl"; js "tokenUrl"; js "scopes"] -> im_get d f = kept (im_get kv.2 f))
      [(js "implicit", IMap true [(js "authorizationUrl", JStr (js "/auth"))])] ds.
Proof.
  apply (flows_offered (js "petstore") true [(js "type", JStr (js "oauth2"));
    (js "flows", IMap true [(js "implicit", IMap true [(js "authorizationUrl", JStr (js "/auth"))])])]
    [(js "implicit", IMap true [(js "authorizationUrl", JStr (js "/auth"))])] true); try done.
  by repeat constructor.
Defined.

(** Without any scheme the selector is handed null and throws. *)
Example no_schemes_throws :
  let sys := {| s_spec := IMap false [(js "json", IMap true [(js "openapi", JStr (js "3.0.0"))])]; s_err := err_init; s_oas3 := empty_map |} in
  oas3_definitionsToAuthorize sys = inl (TypeError "entrySeq is not a function").
Proof. by vm_compute. Qed.
