(* ===== verification/SuiLayout.v ===== *)
(** Swagger UI: the layout plugin (what is expanded, the filter, the modes) and the configs
    plugin. *)
From S2P Require Import Prelude JsString JsNumber YamlValue SuiUrl SuiImm SuiSpec.

(** ** Layout *)

(** What is shown is named by a string or an array of strings. *)
Inductive thing := One (s : jsstr) | Many (l : list jsstr).

Definition normalizeArray (t : thing) : list jsstr := match t with One s => [s] | Many l => l end.

(** The state: a Map whose entry [shown] is a Map with Lists for keys. *)
Record layout_state := {
  l_layout : option jv;
  l_filter : option jv;
  l_shown : option (list (list jsstr * jv));
  l_modes : option jv
}.

Inductive layout_action :=
  | UPDATE_LAYOUT (payload : jv)
  | UPDATE_FILTER (payload : jv)
  | SHOW (t : list jsstr) (shown : jv)
  | UPDATE_MODE (t : list jsstr) (mode : jv).

(** Action creators; [None] is an argument left out. *)
Definition updateLayout (layout : jv) : layout_action := UPDATE_LAYOUT layout.
Definition updateFilter (filter : jv) : layout_action := UPDATE_FILTER filter.
Definition show (t : thing) (shown : option jv) : layout_action :=
  SHOW (normalizeArray t) (match shown with None | Some JUndef => JBool true | Some v => v end).
Definition changeMode (t : thing) (mode : option jv) : layout_action :=
  UPDATE_MODE (normalizeArray t) (match mode with None | Some JUndef => JStr [] | Some v => v end).

(** [m.set(key, v)] and [m.get(key, d)] of the Map with Lists for keys, which are compared
    by their elements. *)
Fixpoint put_shown (k : list jsstr) (v : jv) (m : list (list jsstr * jv)) : list (list jsstr * jv) :=
  match m with
  | [] => [(k, v)]
  | (k', v') :: m' => if bool_decide (k = k') then (k', v) :: m' else (k', v') :: put_shown k v m'
  end.
Fixpoint get_shown (k : list jsstr) (d : jv) (m : list (list jsstr * jv)) : jv :=
  match m with
  | [] => d
  | (k', v) :: m' => if bool_decide (k = k') then v else get_shown k d m'
  end.

Section Layout.
Context `{Host}.

(** A handler that throws leaves the state as it was. *)
Definition layout_reducer (state : layout_state) (a : layout_action) : layout_state :=
  match a with
  | UPDATE_LAYOUT payload =>
      {| l_layout := Some payload; l_filter := l_filter state; l_shown := l_shown state; l_modes := l_modes state |}
  | UPDATE_FILTER payload =>
      {| l_layout := l_layout state; l_filter := Some payload; l_shown := l_shown state; l_modes := l_modes state |}
  | SHOW t isShown =>
      {| l_layout := l_layout state; l_filter := l_filter state;
         l_shown := Some (put_shown t isShown (default [] (l_shown state))); l_modes := l_modes state |}
  | UPDATE_MODE t mode =>
      match update_deep (l_modes state) t None (fun _ => inr (NewValue (JStr (js_string (js_or mode (JStr [])))))) with
      | inl _ => state
      | inr modes => {| l_layout := l_layout state; l_filter := l_filter state; l_shown := l_shown state; l_modes := modes |}
      end
  end.

Definition current (state : layout_state) : jv := default JUndef (l_layout state).
Definition currentFilter (state : layout_state) : jv := default JUndef (l_filter state).
Definition isShown (state : layout_state) (t : thing) (def : jv) : jv :=
  get_shown (normalizeArray t) def (default [] (l_shown state)).
Definition whatMode (state : layout_state) (t : thing) (def : option jv) : jv :=
  default (match def with None | Some JUndef => JStr [] | Some v => v end) (getO (l_modes state) (normalizeArray t)).
Definition showSummary (state : layout_state) : bool := negb (truthy (isShown state (One (js "editor")) JUndef)).

(** ** Configs *)

Inductive configs_action := UPDATE_CONFIGS (payload : jv) | TOGGLE_CONFIGS (configName : jsstr).

Definition update_configs (configName : jsstr) (configValue : jv) : configs_action := UPDATE_CONFIGS (JObj [(configName, configValue)]).
Definition toggle (configName : jsstr) : configs_action := TOGGLE_CONFIGS configName.

Definition configs_reducers (a : configs_action) : option (jv -> js_error + jv) :=
  match a with
  | UPDATE_CONFIGS payload => Some (fun state =>
      match state with
      | IMap o ps => let? es := keyed (fromJS payload) in inr (IMap o (foldl (fun acc p => put (fst p) (snd p) acc) ps es))
      | _ => inl (TypeError "merge is not a function")
      end)
  | TOGGLE_CONFIGS configName => Some (fun state =>
      let? oriVal := get state configName in jset state configName (JBool (negb (truthy oriVal))))
  end.

Definition configs_reducer : jv -> configs_action -> jv := makeReducer configs_reducers.

Definition get_config (state : jv) (path : thing) : jv := getIn_or state (normalizeArray path) JUndef.

(** ** What is shown *)

Lemma get_put_shown k k' v d m : get_shown k d (put_shown k' v m) = if bool_decide (k = k') then v else get_shown k d m.
Proof.
  induction m as [|[k2 v2] m IH]; cbn [put_shown get_shown]; [done|].
  destruct (decide (k' = k2)) as [->|Hne].
  - rewrite (bool_decide_eq_true_2 (k2 = k2)) by done. cbn [get_shown]. by case_bool_decide.
  - rewrite (bool_decide_eq_false_2 (k' = k2)) by done. cbn [get_shown]. rewrite IH.
    destruct (decide (k = k2)) as [->|]; [|by rewrite (bool_decide_eq_false_2 (k = k2))].
    rewrite (bool_decide_eq_true_2 (k2 = k2)) by done. by rewrite bool_decide_eq_false_2 by congruence.
Qed.

(** The last value an action of the sequence gives to [k]. *)
Fixpoint last_shown (k : list jsstr) (acts : list layout_action) (d : jv) : jv :=
  match acts with
  | [] => d
  | SHOW k' v :: acts' => last_shown k acts' (if bool_decide (k = k') then v else d)
  | _ :: acts' => last_shown k acts' d
  end.

(** After any sequence of actions a thing is shown as the last [SHOW] for it said, and as
    before when there was none: other things, filters, layouts and modes do not
    interfere. *)
Theorem shown_last acts : forall state t def,
  isShown (foldl layout_reducer state acts) t def = last_shown (normalizeArray t) acts (isShown state t def).
Proof.
  induction acts as [|a acts IH]; intros state t def; [done|]. cbn [foldl]. rewrite IH.
  unfold isShown. destruct a as [p|p|k v|k m]; cbn [last_shown layout_reducer l_shown default id]; try done.
  - by rewrite get_put_shown.
  - by destruct (update_deep _ _ _ _).
Qed.

(** Two toggles restore the truth of a setting, and touch no other. *)
Lemma toggle_twice state k : is_map state = true -> let state' := foldl configs_reducer state [toggle k; toggle k] in
  truthy (get_config state' (One k)) = truthy (get_config state (One k)) /\
  forall k', k <> k' -> get_config state' (One k') = get_config state (One k').
Proof.
  intros Hm. destruct state as [| | | | | | | | | |o ps]; try done. cbn [foldl].
  unfold configs_reducer, get_config, toggle, getIn_or, getIn. cbn [makeReducer configs_reducers get is_immutable is_map orb rbind jset im_set im_get normalizeArray].
  rewrite !assoc_put_eq. cbn [default id truthy negb]. split; [by destruct (truthy (default JUndef (assoc k ps))) eqn:E; destruct (assoc k ps)|].
  intros k' Hk. by rewrite !assoc_put_ne.
Qed.

End Layout.
