(* ===== verification/SuiPlugins.v ===== *)
(** Swagger UI: the plugin system ([Store] of core/system.js), on the heap of JavaScript
    objects: plugins are objects that loading changes in place. *)
From S2P Require Import Prelude JsString JsNumber YamlValue.

(** ** Objects on the heap *)

Definition cell (v : value) : M heap (option obj) := fun h =>
  Done (match v with VRef l => h !! l | _ => None end) h.

(** [v[k]] of an object; arrays have no named properties here. *)
Definition own (v : value) (k : jsstr) : M heap value :=
  let! o := cell v in
  ret (match o with Some (OObj ps) => default VUndef (assoc k ps) | _ => VUndef end).

(** [v[k]], an exception for undefined and null. *)
Definition field (v : value) (k : jsstr) : M heap value :=
  if isNothing v then throw (TypeError "Cannot read property of undefined") else own v k.

Definition upd_cell (v : value) (f : list (jsstr * value) -> list (jsstr * value)) : M heap unit := modify (fun h =>
  match v with VRef l => alter (fun o => match o with OObj ps => OObj (f ps) | _ => o end) l h | _ => h end).
Definition set_field (v : value) (k : jsstr) (x : value) : M heap unit := upd_cell v (set_prop k x).
Definition del_field (v : value) (k : jsstr) : M heap unit := upd_cell v (del_prop k).

Definition new (o : obj) : M heap value := fun h => let (v, h') := alloc_obj h o in Done v h'.

(** [Object.keys(v)] *)
Definition keys (v : value) : M heap (list jsstr) :=
  let! o := cell v in ret (match o with Some (OObj ps) => obj_keys ps | _ => [] end).

Definition is_array (v : value) : M heap bool :=
  let! o := cell v in ret (match o with Some (OArr _) => true | _ => false end).
Definition elements (v : value) : M heap (list value) :=
  let! o := cell v in ret (match o with Some (OArr l) => l | _ => [v] end).

Definition is_fn (v : value) : bool := match v with VFunc _ _ => true | _ => false end.

Definition vtrue (v : value) : bool :=
  match v with
  | VUndef | VNull | VBool false | VNum (Zero _) | VNum NaN | VStr [] => false
  | _ => true
  end.

(** [v && v.k1 && v.k1.k2 && ...] *)
Fixpoint chain (v : value) (ks : list jsstr) : M heap value :=
  match ks with
  | [] => ret v
  | k :: ks' => if vtrue v then let! x := own v k in chain x ks' else ret v
  end.

Fixpoint each {A} (l : list A) (f : A -> M heap unit) : M heap unit :=
  match l with [] => ret tt | x :: l' => do! f x; each l' f end.

Fixpoint mapM {A B} (f : A -> M heap B) (l : list A) : M heap (list B) :=
  match l with [] => ret [] | x :: l' => let! y := f x in let! ys := mapM f l' in ret (y :: ys) end.

Fixpoint foldM {A B} (f : A -> B -> M heap A) (acc : A) (l : list B) : M heap A :=
  match l with [] => ret acc | x :: l' => let! acc' := f acc x in foldM f acc' l' end.

(** ** The package deep-extend *)

(** [deepExtend(a, u)]; the copies of arrays are the second function. Fuel is the depth. *)
Fixpoint deepExtend (fuel : nat) (a u : value) : M heap value :=
  match fuel with
  | O => fun _ => NoFuel
  | S n =>
      let! ks := keys u in
      do! each ks (fun s =>
        let! t := own a s in
        let! e := own u s in
        if bool_decide (e = a) then ret tt
        else
          let! o := cell e in
          match o with
          | None => set_field a s e
          | Some (OArr l) => let! c := cloneArray n l in set_field a s c
          | Some (OObj _) =>
              let! ot := cell t in
              let! t := match ot with None | Some (OArr _) => new (OObj []) | Some _ => ret t end in
              let! r := deepExtend n t e in
              set_field a s r
          | Some o => let! c := new o in set_field a s c
          end);
      ret a
  end
with cloneArray (fuel : nat) (l : list value) : M heap value :=
  match fuel with
  | O => fun _ => NoFuel
  | S n =>
      let! l' := mapM (fun t =>
        let! o := cell t in
        match o with
        | None => ret t
        | Some (OArr l) => cloneArray n l
        | Some (OObj _) => let! x := new (OObj []) in deepExtend n x t
        | Some o => new o
        end) l in
      new (OArr l')
  end.

Section System.
(** The fuel of [deepExtend]. *)
Context (depth : nat).

(** ** Merging a plugin into a system *)

(** [x.concat(y)] for an array [x]: the elements of an array [y], or [y] itself. *)
Definition concat_value (x y : value) : M heap value :=
  let! l := elements x in let! r := elements y in new (OArr (l ++ r)).

(** One entry of [src.wrapComponents]. *)
Definition wrap_component (dest src : value) (key : jsstr) : M heap unit :=
  let! wcs := own src (js "wrapComponents") in
  let! wrapperFn := own wcs key in
  let! ori := chain dest [js "components"; key] in
  if vtrue ori then
    let! comps := own dest (js "components") in
    let! arr := is_array ori in
    let! l := (if arr then let! one := new (OArr [wrapperFn]) in concat_value ori one else new (OArr [ori; wrapperFn])) in
    do! set_field comps key l;
    del_field wcs key
  else ret tt.

Definition wrap_components (dest src : value) : M heap unit :=
  let! wcs := own src (js "wrapComponents") in
  if vtrue wcs then
    let! ks := keys wcs in
    do! each ks (wrap_component dest src);
    let! ks := keys wcs in
    if bool_decide (ks = []) then del_field src (js "wrapComponents") else ret tt
  else ret tt.

(** One action of [dest.statePlugins[namespace].wrapActions]: what [src] wraps around it comes
    after what is there. *)
Definition join_action (src : value) (namespace : jsstr) (wrapActions : value) (actionName : jsstr) : M heap unit :=
  let! action := own wrapActions actionName in
  let! arr := is_array action in
  do! (if arr then ret tt else let! a := new (OArr [action]) in set_field wrapActions actionName a);
  let! w := chain src [js "statePlugins"; namespace; js "wrapActions"; actionName] in
  if vtrue w then
    let! srcActions := chain src [js "statePlugins"; namespace; js "wrapActions"] in
    let! action := own wrapActions actionName in
    let! l := concat_value action w in
    set_field srcActions actionName l
  else ret tt.

Definition join_namespace (src statePlugins : value) (namespace : jsstr) : M heap unit :=
  let! namespaceObj := own statePlugins namespace in
  if negb (isObject namespaceObj) then ret tt
  else
    let! wrapActions := own namespaceObj (js "wrapActions") in
    if negb (isObject wrapActions) then ret tt
    else let! ks := keys wrapActions in each ks (join_action src namespace wrapActions).

Definition systemExtend (dest src : value) : M heap value :=
  let! dest := (if bool_decide (dest = VUndef) then new (OObj []) else ret dest) in
  let! src := (if bool_decide (src = VUndef) then new (OObj []) else ret src) in
  if negb (isObject dest) then new (OObj [])
  else if negb (isObject src) then ret dest
  else
    do! wrap_components dest src;
    let! statePlugins := own dest (js "statePlugins") in
    do! (if isObject statePlugins then
           let! ks := keys statePlugins in each ks (join_namespace src statePlugins)
         else ret tt);
    deepExtend depth dest src.

(** ** Loading plugins *)

(** A call of a function of a plugin, with its arguments. *)
Class JsCall := js_call : value -> list value -> M heap value.
Context `{JsCall}.

(** [wrapWithTryCatch(fn)(...args)]: an exception is logged and null is returned. *)
Definition try_call (m : M heap value) : M heap value := fun h =>
  match m h with Raise _ h' => Done VNull h' | r => r end.

(** Fuel is the nesting of arrays and functions. *)
Fixpoint combinePlugins (fuel : nat) (plugins toolbox : value) : M heap value :=
  match fuel with
  | O => fun _ => NoFuel
  | S n =>
      let! arr := is_array plugins in
      if isObject plugins && negb arr then ret plugins
      else if is_fn plugins then let! p := js_call plugins [toolbox] in combinePlugins n p toolbox
      else if arr then
        let! l := elements plugins in
        let! ps := mapM (fun p => combinePlugins n p toolbox) l in
        let! empty := new (OObj []) in
        foldM systemExtend empty ps
      else new (OObj [])
  end.

Fixpoint callAfterLoad (fuel : nat) (plugins system : value) (hasLoaded : value) : M heap value :=
  match fuel with
  | O => fun _ => NoFuel
  | S n =>
      let! arr := is_array plugins in
      let! calledSomething :=
        (if isObject plugins && negb arr then
           let! f := own plugins (js "afterLoad") in
           if is_fn f then let! _ := try_call (js_call f [system]) in ret (VBool true) else ret hasLoaded
         else ret hasLoaded) in
      if is_fn plugins then let! p := js_call plugins [system] in callAfterLoad n p system calledSomething
      else if arr then
        let! l := elements plugins in
        let! rs := mapM (fun p => callAfterLoad n p system calledSomething) l in
        new (OArr rs)
      else ret calledSomething
  end.

(** The calls of [buildSystem] of a registration. *)
Definition register (fuel : nat) (this plugins : value) (rebuild : bool) (bound : value) : M heap nat :=
  let! system := own this (js "system") in
  let! pluginSystem := combinePlugins fuel plugins bound in
  let! _ := systemExtend system pluginSystem in
  let! needAnotherRebuild := callAfterLoad fuel plugins bound VUndef in
  ret ((if rebuild then 1 else 0) + (if vtrue needAnotherRebuild then 1 else 0))%nat.

(** The literal the constructor starts from. *)
Definition store_defaults : M heap value :=
  let! state := new (OObj []) in
  let! plugins := new (OArr []) in
  let! configs := new (OObj []) in
  let! fn := new (OObj []) in
  let! components := new (OObj []) in
  let! rootInjects := new (OObj []) in
  let! statePlugins := new (OObj []) in
  let! system := new (OObj [(js "configs", configs); (js "fn", fn); (js "components", components);
                            (js "rootInjects", rootInjects); (js "statePlugins", statePlugins)]) in
  let! boundSystem := new (OObj []) in
  let! toolbox := new (OObj []) in
  new (OObj [(js "state", state); (js "plugins", plugins); (js "system", system);
             (js "boundSystem", boundSystem); (js "toolbox", toolbox)]).

(** [new Store(opts)] *)
Definition Store (fuel : nat) (opts : value) : M heap value :=
  let! this := new (OObj []) in
  let! d := store_defaults in
  let! _ := deepExtend depth this d in
  let! _ := deepExtend depth this opts in
  let! plugins := own this (js "plugins") in
  let! bound := own this (js "boundSystem") in
  let! _ := register fuel this plugins true bound in
  ret this.

(** ** What the system offers *)

(** [getType(name)]: the parts of that name, under the namespace with the name appended. *)
Definition capitalized (name : jsstr) : jsstr :=
  match name with c :: s => (if (97 <=? c) && (c <=? 122) then c - 32 else c) :: s | [] => [] end.

Definition getType (this : value) (name : jsstr) : M heap (list (jsstr * value)) :=
  let! system := own this (js "system") in
  let! sp := own system (js "statePlugins") in
  let! ks := keys sp in
  foldM (fun acc namespace =>
    let! val := own sp namespace in
    let! thing := field val name in
    ret (if vtrue thing then set_prop (namespace ++ capitalized name) thing acc else acc)) [] ks.

Definition getSelectors (this : value) := getType this (js "selectors").

Definition getActions (this : value) : M heap (list (jsstr * list (jsstr * value))) :=
  let! holders := getType this (js "actions") in
  mapM (fun p =>
    let! ks := keys p.2 in
    let! fs := foldM (fun acc actionName =>
      let! action := own p.2 actionName in
      ret (if is_fn action then set_prop actionName action acc else acc)) [] ks in
    ret (p.1, fs)) holders.

(** [getComponents(component)] *)
Definition getComponents (this : value) (component : option jsstr) (bound : value) : M heap value :=
  let! system := own this (js "system") in
  let! components := own system (js "components") in
  let! res := own components (default (js "undefined") component) in
  let! arr := is_array res in
  if arr then
    let! l := elements res in
    match l with
    | [] => throw (TypeError "Reduce of empty array with no initial value")
    | ori :: ws => foldM (fun ori wrapper => js_call wrapper [ori; bound]) ori ws
    end
  else match component with Some _ => ret res | None => ret components end.

(** ** Bound and wrapped actions *)

(** A function the store makes: it takes arguments and may change the heap. *)
Definition act := list value -> M heap value.

(** [fn(acc, getSystem()).apply(undefined, args)] for a wrapper [fn] and the function [acc] it
    wraps. *)
Class JsWrap := wrap_call : value -> act -> act.
Context `{JsWrap}.

(** [serializeError(e)] *)
Context (serializeError : js_error -> value).
(** [getStore().dispatch] *)
Context (dispatch : value -> M heap value).

(** [process(creator)]: an exception becomes the action of a thrown error. *)
Definition process (creator : value) : act := fun args h =>
  match js_call creator args h with
  | Raise e h' =>
      new (OObj [(js "type", VStr (js "err_new_thrown_err")); (js "error", VBool true); (js "payload", serializeError e)]) h'
  | r => r
  end.

(** [bindActionCreators(process(creator), dispatch)] *)
Definition bound_action (creator : value) : act := fun args => let! action := process creator args in dispatch action.

(** [wrap.reduce((acc, fn) => wrapWithTryCatch(newAction), action)] *)
Definition wrap_action (wrap : list value) (action : act) : act :=
  foldl (fun acc fn args => try_call (wrap_call fn acc args)) action wrap.

Definition drop_last (n : nat) (s : jsstr) : jsstr := take (length s - n) s.

Definition getWrappedAndBoundActions (this : value) : M heap (list (jsstr * list (jsstr * act))) :=
  let! groups := getActions this in
  let! system := own this (js "system") in
  let! sp := own system (js "statePlugins") in
  mapM (fun g =>
    let! nsObj := own sp (drop_last 7 g.1) in
    let! wrappers := field nsObj (js "wrapActions") in
    if vtrue wrappers then
      let! l := mapM (fun p =>
        let! wrap := own wrappers p.1 in
        if vtrue wrap then let! l := elements wrap in ret (p.1, wrap_action l (bound_action p.2))
        else ret (p.1, bound_action p.2)) g.2 in
      ret (g.1, l)
    else ret (g.1, (fun p => (p.1, bound_action p.2)) <$> g.2)) groups.

(** ** Bound and wrapped selectors *)

(** [getState().getIn([namespace])] *)
Context (nested_state : jsstr -> M heap value).

(** A selector is given the state of its namespace; a function it returns is given the system. *)
Definition bound_selector (bound : value) (namespace : jsstr) (fn : value) : act := fun args =>
  let! st := nested_state namespace in
  let! res := try_call (js_call fn (st :: args)) in
  if is_fn res then try_call (js_call res [bound]) else ret res.

(** A wrapper of a selector is not guarded against exceptions. *)
Definition wrap_selector (namespace : jsstr) (wrap : list value) (selector : act) : act :=
  foldl (fun acc fn args => let! st := nested_state namespace in wrap_call fn acc (st :: args)) selector wrap.

Definition getWrappedAndBoundSelectors (this bound : value) : M heap (list (jsstr * list (jsstr * act))) :=
  let! groups := getSelectors this in
  let! system := own this (js "system") in
  let! sp := own system (js "statePlugins") in
  mapM (fun g =>
    let namespace := drop_last 9 g.1 in
    let! ks := keys g.2 in
    let! selectors := mapM (fun k => let! fn := own g.2 k in ret (k, bound_selector bound namespace fn)) ks in
    let! nsObj := own sp namespace in
    let! wrappers := field nsObj (js "wrapSelectors") in
    if vtrue wrappers then
      let! l := mapM (fun p =>
        let! wrap := own wrappers p.1 in
        if vtrue wrap then let! l := elements wrap in ret (p.1, wrap_selector namespace l p.2) else ret p) selectors in
      ret (g.1, l)
    else ret (g.1, selectors)) groups.
End System.
