(* ===== verification/SuiTrees.v ===== *)
(** Objects of the heap as trees, and what deep-extend does to them. *)
From S2P Require Import Prelude JsString JsNumber YamlValue SuiPlugins.

(** ** Trees *)

#[warnings="-register-all"]
Inductive tree := TVal (v : value) | TArr (l : list tree) | TObj (ps : list (jsstr * tree)).

Definition scalar (v : value) : Prop := match v with VRef _ => False | _ => True end.

(** Keys of an object: no two are the same and none is [__proto__]. *)
Definition ok_keys (ks : list jsstr) : Prop := NoDup ks /\ (js "__proto__" ∉ ks).

(** [rep h t v F]: in [h] the value [v] is the tree [t], which takes up the cells [F]. *)
Inductive rep (h : heap) : tree -> value -> list nat -> Prop :=
  | rep_val v : scalar v -> rep h (TVal v) v []
  | rep_arr l ts vs F : h !! l = Some (OArr vs) -> reps h ts vs F -> rep h (TArr ts) (VRef l) (l :: F)
  | rep_obj l ps kvs F : h !! l = Some (OObj kvs) -> kvs.*1 = ps.*1 -> ok_keys ps.*1 -> reps h ps.*2 kvs.*2 F ->
      rep h (TObj ps) (VRef l) (l :: F)
with reps (h : heap) : list tree -> list value -> list nat -> Prop :=
  | reps_nil : reps h [] [] []
  | reps_cons t v F ts vs F' : rep h t v F -> reps h ts vs F' -> reps h (t :: ts) (v :: vs) (F ++ F').

Scheme rep_mind := Induction for rep Sort Prop
  with reps_mind := Induction for reps Sort Prop.
Combined Scheme rep_reps_ind from rep_mind, reps_mind.

(** A tree depends on its own cells only. *)
Lemma rep_reps_frame h h' :
  (forall t v F, rep h t v F -> (forall l, l ∈ F -> h' !! l = h !! l) -> rep h' t v F) /\
  (forall ts vs F, reps h ts vs F -> (forall l, l ∈ F -> h' !! l = h !! l) -> reps h' ts vs F).
Proof.
  apply rep_reps_ind.
  - intros v Hv _. by constructor.
  - intros l ts vs F E _ IH Hf. econstructor; [by rewrite Hf by left|]. apply IH. intros l' Hl. apply Hf. by right.
  - intros l ps kvs F E Ek Hok _ IH Hf. econstructor; [by rewrite Hf by left|done|done|]. apply IH. intros l' Hl. apply Hf. by right.
  - intros _. constructor.
  - intros t v F ts vs F' _ IH1 _ IH2 Hf. constructor; [apply IH1|apply IH2]; intros l Hl; apply Hf, elem_of_app; auto.
Qed.

Definition rep_frame h h' t v F := proj1 (rep_reps_frame h h') t v F.
Definition reps_frame h h' ts vs F := proj2 (rep_reps_frame h h') ts vs F.

Lemma rep_reps_dom h :
  (forall t v F, rep h t v F -> forall l, l ∈ F -> (l < length h)%nat) /\
  (forall ts vs F, reps h ts vs F -> forall l, l ∈ F -> (l < length h)%nat).
Proof.
  apply rep_reps_ind.
  - by intros v _ l ?%elem_of_nil.
  - intros l ts vs F E _ IH l' [->|Hl]%elem_of_cons; [by eapply lookup_lt_Some|auto].
  - intros l ps kvs F E Ek Hok _ IH l' [->|Hl]%elem_of_cons; [by eapply lookup_lt_Some|auto].
  - by intros l ?%elem_of_nil.
  - intros t v F ts vs F' _ IH1 _ IH2 l [Hl|Hl]%elem_of_app; auto.
Qed.

Definition rep_dom h t v F := proj1 (rep_reps_dom h) t v F.
Definition reps_dom h ts vs F := proj2 (rep_reps_dom h) ts vs F.

(** A run that owns the cells [F] and ends with [F']: other cells are kept, new ones may be taken. *)
Record owns (h : heap) (F : list nat) (h' : heap) (F' : list nat) : Prop := {
  own_keeps l : (l < length h)%nat -> l ∉ F -> h' !! l = h !! l;
  own_grows : (length h <= length h')%nat;
  own_cells l : l ∈ F' -> l ∈ F \/ (length h <= l)%nat;
  own_nodup : NoDup F'
}.

Lemma owns_refl h F : NoDup F -> owns h F h F.
Proof. intros Hn. split; [done|done|by left|done]. Qed.

Lemma owns_trans h0 F0 h1 F1 h2 F2 : owns h0 F0 h1 F1 -> owns h1 F1 h2 F2 -> owns h0 F0 h2 F2.
Proof.
  intros [K1 G1 C1 N1] [K2 G2 C2 N2]. split; [|lia| |done].
  - intros l Hl Hn. rewrite K2; [by apply K1|lia|]. intros [?|?]%C1; [done|lia].
  - intros l [H%C1|H]%C2; [|right; lia]. destruct H as [?|?]; [by left|right; lia].
Qed.

(** What is apart from the owned cells is kept. *)
Lemma owns_rep h F h' F' t v G : owns h F h' F' -> rep h t v G -> (forall l, l ∈ G -> l ∉ F) -> rep h' t v G.
Proof. intros [K _ _ _] Hr Hd. eapply rep_frame; [done|]. intros l Hl. apply K; [by eapply rep_dom|auto]. Qed.

Lemma owns_reps h F h' F' ts vs G : owns h F h' F' -> reps h ts vs G -> (forall l, l ∈ G -> l ∉ F) -> reps h' ts vs G.
Proof. intros [K _ _ _] Hr Hd. eapply reps_frame; [done|]. intros l Hl. apply K; [by eapply reps_dom|auto]. Qed.

(** ** A child of an object *)

Lemma put_same_keys {A B} k x y (l : list (jsstr * A)) (l' : list (jsstr * B)) : l.*1 = l'.*1 -> (put k x l).*1 = (put k y l').*1.
Proof. intros E. rewrite !put_keys. by rewrite E. Qed.

Lemma ok_put {A} k (x : A) l : k <> js "__proto__" -> ok_keys l.*1 -> ok_keys (put k x l).*1.
Proof.
  intros Hk [Hn Hp]. unfold ok_keys. rewrite put_keys. case_bool_decide as Hin; [done|]. split.
  - apply list.NoDup_app. split; [done|]. split; [|apply NoDup_singleton]. by intros k' Hk' ->%list_elem_of_singleton.
  - rewrite not_elem_of_app. split; [done|]. by intros E%list_elem_of_singleton.
Qed.

(** The cells of the child [k], those in front of them and those behind them; the child can be
    exchanged. *)
Lemma reps_child h k ps kvs F : kvs.*1 = ps.*1 -> reps h ps.*2 kvs.*2 F -> exists F1 Fk F2, F = F1 ++ Fk ++ F2 /\
  match assoc k ps, assoc k kvs with Some t, Some v => rep h t v Fk | None, None => Fk = [] | _, _ => False end /\
  (forall h' t' v' F', rep h' t' v' F' -> (forall l, l ∈ F1 ++ F2 -> h' !! l = h !! l) ->
     reps h' (put k t' ps).*2 (put k v' kvs).*2 (F1 ++ F' ++ F2)).
Proof.
  revert kvs F. induction ps as [|[k1 t1] ps IH]; intros [|[k2 v2] kvs] F E Hr; try done.
  - inversion Hr; subst. exists [], [], []. split; [done|]. split; [done|]. intros h' t' v' F' Hv _. cbn [put]. cbn.
    rewrite app_nil_r. rewrite <- (app_nil_r F'). constructor; [done|constructor].
  - rewrite !fmap_cons in E. injection E as -> E. rewrite !fmap_cons in Hr. cbn [snd] in Hr. inversion Hr as [|? ? F1 ? ? F2 H1 H2]; subst.
    cbn [assoc put]. case_bool_decide as Ek.
    + exists [], F1, F2. split; [done|]. split; [done|]. intros h' t' v' F' Hv Hk. rewrite !fmap_cons. cbn [snd app].
      constructor; [done|]. by eapply reps_frame.
    + destruct (IH kvs F2 E H2) as (G1 & Gk & G2 & -> & Hm & Hp). exists (F1 ++ G1), Gk, G2.
      rewrite <- app_assoc. split; [done|]. split; [done|]. intros h' t' v' F' Hv Hk. rewrite !fmap_cons. cbn [snd].
      rewrite <- app_assoc. constructor.
      * eapply rep_frame; [done|]. intros l Hl. apply Hk. rewrite !elem_of_app. auto.
      * apply Hp; [done|]. intros l Hl. apply Hk. rewrite !elem_of_app in *. tauto.
Qed.

Lemma owns_weaken h F h' F' : owns h [] h' F' -> owns h F h' F'.
Proof.
  intros [K G C N]. split; [|done| |done].
  - intros l Hl _. apply K; [done|apply not_elem_of_nil].
  - intros l [H%elem_of_nil|H]%C; [done|by right].
Qed.

(** Exchanging a part of the cells. *)
Lemma around_apart {n : nat} (F1 Fk F2 F' : list nat) : NoDup (F1 ++ Fk ++ F2) -> (forall l, l ∈ F1 ++ F2 -> (l < n)%nat) ->
  (forall l, l ∈ F' -> l ∈ Fk \/ (n <= l)%nat) -> forall l, l ∈ F1 ++ F2 -> (l ∉ Fk) /\ (l ∉ F').
Proof.
  intros Hn Hdom C l Hl. apply list.NoDup_app in Hn as (N1 & D1 & Hn). apply list.NoDup_app in Hn as (Nk & Dk & N2).
  assert (Hk : l ∉ Fk).
  { intros Hk. apply elem_of_app in Hl as [Hl|Hl]; [apply (D1 l Hl)|by apply (Dk l)]. rewrite elem_of_app. by left. }
  split; [done|]. intros Hl'. pose proof (Hdom l Hl). destruct (C l Hl'); [done|lia].
Qed.

Lemma around_nodup {n : nat} (F1 Fk F2 F' : list nat) : NoDup (F1 ++ Fk ++ F2) -> (forall l, l ∈ F1 ++ F2 -> (l < n)%nat) ->
  (forall l, l ∈ F' -> l ∈ Fk \/ (n <= l)%nat) -> NoDup F' -> NoDup (F1 ++ F' ++ F2).
Proof.
  intros Hn Hdom C N. pose proof (around_apart F1 Fk F2 F' Hn Hdom C) as HF'.
  apply list.NoDup_app in Hn as (N1 & D1 & Hn). apply list.NoDup_app in Hn as (Nk & Dk & N2).
  apply list.NoDup_app. split; [done|]. split.
  - intros l Hl. rewrite elem_of_app. intros [Hl'|Hl'].
    + apply (HF' l); [|done]. rewrite elem_of_app. auto.
    + apply (D1 l Hl). rewrite elem_of_app. by right.
  - apply list.NoDup_app. split; [done|]. split; [|done]. intros l Hl Hl2. apply (HF' l); [|done]. rewrite elem_of_app. auto.
Qed.

(** A run on a part of the cells, seen from all of them. *)
Lemma owns_around h F1 Fk F2 h' F' : NoDup (F1 ++ Fk ++ F2) -> (forall l, l ∈ F1 ++ F2 -> (l < length h)%nat) ->
  owns h Fk h' F' -> owns h (F1 ++ Fk ++ F2) h' (F1 ++ F' ++ F2) /\
    (forall l, l ∈ F1 ++ F2 -> h' !! l = h !! l /\ (l ∉ F')).
Proof.
  intros Hn Hdom [K G C N]. pose proof (around_apart F1 Fk F2 F' Hn Hdom C) as HF'. split; [split|].
  - intros l Hl Hnl. apply K; [done|]. rewrite !not_elem_of_app in Hnl. tauto.
  - done.
  - intros l. rewrite !elem_of_app. intros [?|[Hl|?]]; auto. destruct (C l Hl); auto.
  - by apply (around_nodup (n := length h) F1 Fk F2 F').
  - intros l Hl. split; [|by apply HF']. apply K; [auto|by apply HF'].
Qed.

Lemma owns_alter h F a f : a ∈ F -> NoDup F -> owns h F (alter f a h) F.
Proof.
  intros Ha Hn. split; [|by rewrite length_alter|by left|done]. intros l _ Hl. apply list_lookup_alter_ne. by intros ->.
Qed.

(** A child is exchanged for a value a run made out of it (or out of nothing). *)
Lemma set_child h a ds F k : rep h (TObj ds) (VRef a) (a :: F) -> NoDup (a :: F) -> k <> js "__proto__" ->
  exists Fk v, (forall l, l ∈ Fk -> l ∈ F) /\ NoDup Fk /\ own (VRef a) k h = Done v h /\
    match assoc k ds with Some t => rep h t v Fk | None => v = VUndef /\ Fk = [] end /\
    forall h' t' v' F', owns h Fk h' F' -> rep h' t' v' F' -> exists h'' F'',
      set_field (VRef a) k v' h' = Done tt h'' /\ rep h'' (TObj (put k t' ds)) (VRef a) (a :: F'') /\ owns h (a :: F) h'' (a :: F'').
Proof.
  intros Hr Hn Hk. inversion Hr as [| |l ps kvs F0 Ea Ek Hok Hrs]; subst.
  destruct (reps_child h k ds kvs F Ek Hrs) as (F1 & Fk & F2 & -> & Hm & Hput).
  exists Fk, (default VUndef (assoc k kvs)). split; [intros l Hl; rewrite !elem_of_app; auto|].
  split; [by apply list.NoDup_cons in Hn as [_ (_ & _ & (? & _)%list.NoDup_app)%list.NoDup_app]|].
  split; [unfold own, cell, bind; by rewrite Ea|]. split; [by destruct (assoc k ds), (assoc k kvs)|].
  intros h' t' v' F' O Hr'. eexists _, (F1 ++ F' ++ F2). split; [done|].
  assert (Hdom : forall l, l ∈ (a :: F1) ++ F2 -> (l < length h)%nat).
  { intros l Hl. eapply rep_dom; [exact Hr|]. rewrite !elem_of_cons, !elem_of_app in *. rewrite elem_of_cons in Hl. tauto. }
  destruct (owns_around h (a :: F1) Fk F2 h' F' Hn Hdom O) as [O' Hout].
  split; [|eapply owns_trans; [exact O'|]; apply owns_alter; [by left|apply O']].
  destruct (Hout a ltac:(by left)) as [Ea' HaF]. rewrite Ea in Ea'.
  unfold set_prop. rewrite bool_decide_eq_false_2 by done. eapply rep_obj.
  - rewrite list_lookup_alter_eq, Ea'. cbn [fmap option_fmap option_map]. reflexivity.
  - by apply put_same_keys.
  - by apply ok_put.
  - apply Hput.
    + eapply rep_frame; [done|]. intros l Hl. apply list_lookup_alter_ne. by intros ->.
    + intros l Hl. rewrite list_lookup_alter_ne; [by apply Hout; right|]. intros ->.
      apply list.NoDup_cons in Hn as [Ha _]. apply Ha. rewrite !elem_of_app in *. tauto.
Qed.

(** ** deep-extend on trees *)

(** The value under a key after the value [e] is merged over what was there. *)
Fixpoint merge (e : tree) (t : option tree) : tree :=
  match e with
  | TVal v => e
  | TArr l => TArr (map (fun x => merge x None) l)
  | TObj es =>
      let fs := map (fun p => match p with (k, x) => (k, merge x) end) es in
      TObj (foldl (fun ds k => match assoc k fs with Some f => put k (f (assoc k ds)) ds | None => ds end)
        (match t with Some (TObj ds) => ds | _ => [] end) (obj_keys fs))
  end.

Fixpoint depth (t : tree) : nat :=
  match t with
  | TVal _ => 0
  | TArr l => S (foldr (fun x n => Nat.max (depth x) n) 0%nat l)
  | TObj ps => S (foldr (fun p n => Nat.max (depth (snd p)) n) 0%nat ps)
  end.

Definition merge_step (es : list (jsstr * tree)) (ds : list (jsstr * tree)) (k : jsstr) : list (jsstr * tree) :=
  match assoc k es with Some e => put k (merge e (assoc k ds)) ds | None => ds end.

Lemma obj_keys_same {A B} (l : list (jsstr * A)) (l' : list (jsstr * B)) : l.*1 = l'.*1 -> obj_keys l = obj_keys l'.
Proof. unfold obj_keys. by intros ->. Qed.

Lemma merge_obj es t :
  merge (TObj es) t = TObj (foldl (merge_step es) (match t with Some (TObj ds) => ds | _ => [] end) (obj_keys es)).
Proof.
  cbn [merge]. set (fs := map _ es). assert (Ek : fs.*1 = es.*1).
  { unfold fs. induction es as [|[k x] es IH]; [done|]. cbn [map]. rewrite !fmap_cons. by f_equal. }
  rewrite (obj_keys_same fs es Ek). f_equal. assert (Ea : forall k, assoc k fs = merge <$> assoc k es).
  { intros k. unfold fs. clear. induction es as [|[k' x] es IH]; [done|]. cbn [map assoc]. by case_bool_decide. }
  unfold merge_step. set (base := match t with Some (TObj ds) => ds | _ => [] end). clearbody base. revert base.
  induction (obj_keys es) as [|k ks IH]; intros base; [done|]. cbn [foldl]. rewrite Ea, IH. by destruct (assoc k es).
Qed.

Lemma depth_child es k e n : (depth (TObj es) <= S n)%nat -> assoc k es = Some e -> (depth e <= n)%nat.
Proof.
  induction es as [|[k' x] es IH]; [done|]. cbn [depth foldr snd assoc]. intros H.
  case_bool_decide; [intros [= ->]; lia|]. apply IH. cbn [depth]. lia.
Qed.

Lemma new_spec h o : new o h = Done (VRef (length h)) (h ++ [o]).
Proof. done. Qed.

Lemma owns_new h o : owns h [] (h ++ [o]) [length h].
Proof.
  split; [intros l Hl _; by rewrite lookup_app_l|rewrite length_app; lia| |apply NoDup_singleton].
  intros l ->%list_elem_of_singleton. by right.
Qed.

Lemma rep_new_obj h : rep (h ++ [OObj []]) (TObj []) (VRef (length h)) [length h].
Proof. econstructor; [apply (list_lookup_middle h []); reflexivity|reflexivity|by split; [constructor|apply not_elem_of_nil]|constructor]. Qed.

(** A new value in front of new ones. *)
Lemma reps_fresh_cons h t v F h1 ts vs G h2 : rep h1 t v F -> owns h [] h1 F -> reps h2 ts vs G -> owns h1 [] h2 G ->
  reps h2 (t :: ts) (v :: vs) (F ++ G) /\ owns h [] h2 (F ++ G).
Proof.
  intros R1 [K1 G1 C1 N1] R2 [K2 G2 C2 N2]. split.
  - constructor; [|done]. eapply rep_frame; [done|]. intros l Hl. apply K2; [by eapply rep_dom|apply not_elem_of_nil].
  - split; [|lia| |].
    + intros l Hl _. rewrite K2 by (try apply not_elem_of_nil; lia). apply K1; [lia|apply not_elem_of_nil].
    + intros l [Hl|Hl]%elem_of_app; [by apply C1|]. destruct (C2 l Hl) as [?|?]; [by left|right; lia].
    + apply list.NoDup_app. split; [done|]. split; [|done]. intros l Hl Hl2. assert (l < length h1)%nat by (by eapply rep_dom).
      destruct (C2 l Hl2) as [?%elem_of_nil|?]; [done|lia].
Qed.

(** A list of runs that each make a new value. *)
Lemma mapM_fresh (f : value -> M heap value) (g : tree -> tree) ts : forall h vs Fs, reps h ts vs Fs ->
  (forall t v F h', t ∈ ts -> rep h' t v F -> exists h'' v' F', f v h' = Done v' h'' /\ rep h'' (g t) v' F' /\ owns h' [] h'' F') ->
  exists h' vs' F', mapM f vs h = Done vs' h' /\ reps h' (map g ts) vs' F' /\ owns h [] h' F'.
Proof.
  induction ts as [|t ts IH]; intros h vs Fs Hr Hf; inversion Hr as [|? v F ? vs' F' H1 H2]; subst.
  - exists h, [], []. split; [done|]. split; [constructor|]. apply owns_refl. constructor.
  - destruct (Hf t v F h ltac:(by left) H1) as (h1 & v1 & F1 & E1 & R1 & O1).
    destruct (IH h1 vs' F') as (h2 & vs2 & F2 & E2 & R2 & O2).
    { eapply owns_reps; [done|done|]. intros; apply not_elem_of_nil. }
    { intros t' v' G h' Ht. apply (Hf t' v' G). by right. }
    exists h2, (v1 :: vs2), (F1 ++ F2). cbn [mapM]. erewrite bind_Done by done. erewrite bind_Done by done. split; [done|].
    cbn [map]. by eapply reps_fresh_cons.
Qed.

Definition extends_ok (n : nat) : Prop := forall es h a ds Fd u Fs,
  (depth (TObj es) <= n)%nat -> rep h (TObj ds) (VRef a) (a :: Fd) -> NoDup (a :: Fd) ->
  rep h (TObj es) u Fs -> (forall l, l ∈ Fs -> l ∉ a :: Fd) ->
  exists h' F', deepExtend n (VRef a) u h = Done (VRef a) h' /\
    rep h' (merge (TObj es) (Some (TObj ds))) (VRef a) (a :: F') /\ owns h (a :: Fd) h' (a :: F').

Definition clones_ok (n : nat) : Prop := forall ts h vs Fs,
  (depth (TArr ts) <= n)%nat -> reps h ts vs Fs ->
  exists h' v F', cloneArray n vs h = Done v h' /\ rep h' (merge (TArr ts) None) v F' /\ owns h [] h' F'.

(** An object merged into a new one. *)
Lemma fresh_copy n es h u Fs : extends_ok n -> (depth (TObj es) <= n)%nat -> rep h (TObj es) u Fs ->
  exists h' v F', deepExtend n (VRef (length h)) u (h ++ [OObj []]) = Done v h' /\
    rep h' (merge (TObj es) None) v F' /\ owns h [] h' F'.
Proof.
  intros Hx Hd Hr. pose proof (rep_dom _ _ _ _ Hr) as Hdom.
  destruct (Hx es (h ++ [OObj []]) (length h) [] [] u Fs Hd) as (h' & F' & E & R & O).
  - apply rep_new_obj.
  - apply NoDup_singleton.
  - eapply rep_frame; [done|]. intros l Hl. apply lookup_app_l. auto.
  - intros l Hl ->%list_elem_of_singleton. specialize (Hdom _ Hl). lia.
  - exists h', (VRef (length h)), (length h :: F'). split; [done|]. split; [by rewrite merge_obj in R |- *|].
    eapply owns_trans; [apply owns_new|done].
Qed.

Lemma rep_cell h t v F : rep h t v F -> exists o, cell v h = Done o h /\
  match t with
  | TVal _ => o = None /\ t = TVal v /\ F = []
  | TArr ts => exists vs F', o = Some (OArr vs) /\ reps h ts vs F' /\ (forall l, l ∈ F' -> l ∈ F)
  | TObj _ => exists kvs, o = Some (OObj kvs)
  end.
Proof.
  intros Hr. inversion Hr as [x Hx|l ts vs F' El Hrs|l ps kvs F' El]; subst; eexists; (split; [done|]).
  - by destruct v.
  - rewrite El. exists vs, F'. split; [done|]. split; [done|]. intros. by right.
  - rewrite El. by eexists.
Qed.

Lemma depth_elem ts t n : (depth (TArr ts) <= S n)%nat -> t ∈ ts -> (depth t <= n)%nat.
Proof.
  induction ts as [|x ts IH]; [by intros _ ?%elem_of_nil|]. cbn [depth foldr]. intros H [->|Ht]%elem_of_cons; [lia|].
  apply IH; [cbn [depth]; lia|done].
Qed.

Lemma clones_step n : extends_ok n -> clones_ok n -> clones_ok (S n).
Proof.
  intros Hx Hy ts h vs Fs Hd Hr. cbn [cloneArray].
  edestruct (mapM_fresh (fun t => let! o := cell t in
        match o with
        | None => ret t
        | Some (OArr l) => cloneArray n l
        | Some (OObj _) => let! x := new (OObj []) in deepExtend n x t
        | Some o => new o
        end) (fun t => merge t None) ts h vs Fs Hr) as (h' & vs' & F' & E & R & O).
  { intros t v F h1 Ht Hr1. pose proof (depth_elem _ _ _ Hd Ht) as Hd1.
    destruct (rep_cell _ _ _ _ Hr1) as (o & Eo & Ho). erewrite bind_Done by done. destruct t as [x|ts1|ps].
    - destruct Ho as (-> & [= ->] & ->). exists h1, v, []. split; [done|]. split; [done|]. apply owns_refl. constructor.
    - destruct Ho as (vs1 & F1 & -> & R1 & _). by apply (Hy ts1 h1 vs1 F1).
    - destruct Ho as (kvs & ->). erewrite bind_Done by apply new_spec. by apply (fresh_copy n ps h1 v F). }
  erewrite bind_Done by done. rewrite new_spec. exists (h' ++ [OArr vs']), (VRef (length h')), (length h' :: F'). split; [done|]. split.
  - econstructor; [apply (list_lookup_middle h' []); reflexivity|]. eapply owns_reps; [apply owns_new|done|]. intros; apply not_elem_of_nil.
  - destruct O as [K G C N]. split.
    + intros l Hl _. rewrite lookup_app_l by lia. apply K; [done|apply not_elem_of_nil].
    + rewrite length_app. lia.
    + intros l [->|Hl]%elem_of_cons; [by right|by apply C].
    + apply list.NoDup_cons. split; [|done]. intros Hl. pose proof (reps_dom _ _ _ _ R _ Hl). lia.
Qed.

Lemma rep_ok_keys h es v F : rep h (TObj es) v F -> ok_keys es.*1.
Proof. intros Hr. by inversion Hr. Qed.

Lemma child_key h es v F k e : rep h (TObj es) v F -> assoc k es = Some e -> k <> js "__proto__".
Proof.
  intros [_ Hp]%rep_ok_keys Ek ->. apply Hp, assoc_elem. by rewrite Ek.
Qed.

(** One key of the merge. *)
Definition extend_key (n : nat) (a u : value) (s : jsstr) : M heap unit :=
  let! t := own a s in
  let! e := own u s in
  if bool_decide (e = a) then ret tt
  else
    let! o := cell e in
    match o with
    | None => set_field a s e
    | Some (OArr l) => let! c := cloneArray n l in set_field a s c
    | Some (OObj _) =>
        let! ot := cell t in
        let! t := match ot with None | Some (OArr _) => new (OObj []) | Some _ => ret t end in
        let! r := deepExtend n t e in
        set_field a s r
    | Some o => let! c := new o in set_field a s c
    end.

Lemma rep_child h es l F k e : rep h (TObj es) (VRef l) F -> assoc k es = Some e -> exists v Fe,
  own (VRef l) k h = Done v h /\ rep h e v Fe /\ (forall x, x ∈ Fe -> x ∈ F).
Proof.
  intros Hr Ek. inversion Hr as [| |? ps kvs F' El Eks Hok Hrs]; subst.
  destruct (reps_child h k es kvs F' Eks Hrs) as (F1 & Fk & F2 & -> & Hm & _). rewrite Ek in Hm.
  destruct (assoc k kvs) as [v|] eqn:Ev; [|done]. exists v, Fk. split; [unfold own, cell, bind; by rewrite El, Ev|].
  split; [done|]. intros x Hx. right. rewrite !elem_of_app. auto.
Qed.

Lemma extend_key_spec n k e es h a ds Fd l Fs : extends_ok n -> clones_ok n -> (depth (TObj es) <= S n)%nat ->
  rep h (TObj ds) (VRef a) (a :: Fd) -> NoDup (a :: Fd) -> rep h (TObj es) (VRef l) Fs -> (forall x, x ∈ Fs -> x ∉ a :: Fd) ->
  assoc k es = Some e -> exists h' F', extend_key n (VRef a) (VRef l) k h = Done tt h' /\
    rep h' (TObj (merge_step es ds k)) (VRef a) (a :: F') /\ owns h (a :: Fd) h' (a :: F').
Proof.
  intros Hx Hy Hd Hr Hn Hu Hdis Ek. pose proof (child_key _ _ _ _ _ _ Hu Ek) as Hk. pose proof (depth_child _ _ _ _ Hd Ek) as Hde.
  destruct (set_child h a ds Fd k Hr Hn Hk) as (Fk & tv & HFk & Nk & Eown & Hold & Hset).
  destruct (rep_child _ _ _ _ _ _ Hu Ek) as (v & Fe & Ev & Rv & HFe).
  assert (Hva : v <> VRef a).
  { intros ->. apply (Hdis a); [|by left]. apply HFe. inversion Rv; subst; [done|left|left]. }
  unfold extend_key. erewrite bind_Done by exact Eown. erewrite bind_Done by exact Ev. rewrite bool_decide_eq_false_2 by done.
  destruct (rep_cell _ _ _ _ Rv) as (o & Eo & Ho). erewrite bind_Done by exact Eo. unfold merge_step. rewrite Ek.
  destruct e as [x|ts|qs].
  - destruct Ho as (-> & [= ->] & ->). apply (Hset h (TVal v) v []); [|exact Rv].
    split; [done|done|by intros ? ?%elem_of_nil|constructor].
  - destruct Ho as (vs & F' & -> & Rts & _). destruct (Hy ts h vs F' Hde Rts) as (h1 & c & Fc & E1 & R1 & O1).
    erewrite bind_Done by exact E1. apply (Hset h1 _ c Fc); [by apply owns_weaken|done].
  - destruct Ho as (kvs & ->). set (m := merge (TObj qs) (assoc k ds)).
    assert (Hfresh : (match assoc k ds with Some (TObj _) => False | _ => True end) ->
      exists h1 c Fc, deepExtend n (VRef (length h)) v (h ++ [OObj []]) = Done c h1 /\ rep h1 m c Fc /\ owns h [] h1 Fc).
    { intros Hm. destruct (fresh_copy n qs h v Fe Hx Hde Rv) as (h1 & c & Fc & E1 & R1 & O1). exists h1, c, Fc. split; [done|].
      split; [|done]. unfold m. rewrite merge_obj in R1 |- *. by destruct (assoc k ds) as [[]|]. }
    destruct (assoc k ds) as [[x|ts|ds']|] eqn:Ed.
    + destruct (rep_cell _ _ _ _ Hold) as (ot & Et & -> & _). destruct (Hfresh I) as (h1 & c & Fc & E1 & R1 & O1).
      erewrite bind_Done by exact Et. cbv iota. erewrite bind_Done by apply new_spec. erewrite bind_Done by exact E1.
      apply (Hset h1 m c Fc); [by apply owns_weaken|done].
    + destruct (rep_cell _ _ _ _ Hold) as (ot & Et & vs & F' & -> & _). destruct (Hfresh I) as (h1 & c & Fc & E1 & R1 & O1).
      erewrite bind_Done by exact Et. cbv iota. erewrite bind_Done by apply new_spec. erewrite bind_Done by exact E1.
      apply (Hset h1 m c Fc); [by apply owns_weaken|done].
    + destruct (rep_cell _ _ _ _ Hold) as (ot & Et & kvs' & ->). erewrite bind_Done by exact Et. cbv iota.
      erewrite bind_Done by reflexivity. inversion Hold as [| |b ps kvs2 Fb Eb Ekb Hokb Hrb]; subst.
      destruct (Hx qs h b ds' Fb v Fe Hde Hold Nk Rv) as (h1 & Fc & E1 & R1 & O1).
      { intros y Hy1 Hy2. apply (Hdis y); [by apply HFe|]. right. by apply HFk. }
      erewrite bind_Done by exact E1. by apply (Hset h1 m (VRef b) (b :: Fc)).
    + destruct Hold as [-> ->]. destruct (Hfresh I) as (h1 & c & Fc & E1 & R1 & O1).
      erewrite bind_Done by reflexivity. cbv iota. erewrite bind_Done by apply new_spec. erewrite bind_Done by exact E1.
      apply (Hset h1 m c Fc); [by apply owns_weaken|done].
Qed.

Lemma each_keys n es l ks : forall h a ds Fd Fs, extends_ok n -> clones_ok n -> (depth (TObj es) <= S n)%nat ->
  rep h (TObj ds) (VRef a) (a :: Fd) -> NoDup (a :: Fd) -> rep h (TObj es) (VRef l) Fs -> (forall x, x ∈ Fs -> x ∉ a :: Fd) ->
  Forall (fun k => assoc k es <> None) ks -> exists h' F', each ks (extend_key n (VRef a) (VRef l)) h = Done tt h' /\
    rep h' (TObj (foldl (merge_step es) ds ks)) (VRef a) (a :: F') /\ owns h (a :: Fd) h' (a :: F').
Proof.
  induction ks as [|k ks IH]; intros h a ds Fd Fs Hx Hy Hd Hr Hn Hu Hdis Hks.
  - exists h, Fd. split; [done|]. split; [done|]. by apply owns_refl.
  - apply list.Forall_cons in Hks as [Hk Hks]. destruct (assoc k es) as [e|] eqn:Ek; [|done].
    destruct (extend_key_spec n k e es h a ds Fd l Fs Hx Hy Hd Hr Hn Hu Hdis Ek) as (h1 & F1 & E1 & R1 & O1).
    destruct (IH h1 a (merge_step es ds k) F1 Fs Hx Hy Hd R1) as (h2 & F2 & E2 & R2 & O2); [apply O1|by eapply owns_rep| |done|].
    + intros x Hx1 Hx2. destruct (own_cells _ _ _ _ O1 x Hx2) as [?|?]; [by apply (Hdis x)|].
      pose proof (rep_dom _ _ _ _ Hu x Hx1). lia.
    + exists h2, F2. cbn [each]. erewrite bind_Done by exact E1. split; [done|]. split; [done|]. by eapply owns_trans.
Qed.

Lemma obj_keys_assoc {A} (l : list (jsstr * A)) : Forall (fun k => assoc k l <> None) (obj_keys l).
Proof. apply list.Forall_forall. intros k Hk. by apply assoc_elem, elem_obj_keys. Qed.

Lemma deep_extend_ok n : extends_ok n /\ clones_ok n.
Proof.
  induction n as [|n [Hx Hy]].
  - split; [intros es h a ds Fd u Fs Hd; cbn [depth] in Hd; lia|intros ts h vs Fs Hd; cbn [depth] in Hd; lia].
  - split; [|by apply clones_step]. intros es h a ds Fd u Fs Hd Hr Hn Hu Hdis.
    inversion Hu as [| |l ps kvs F El Ek Hok Hrs]; subst. cbn [deepExtend].
    assert (Eks : keys (VRef l) h = Done (obj_keys es) h).
    { unfold keys, cell, bind, ret. rewrite El. do 2 f_equal. by apply obj_keys_same. }
    erewrite bind_Done by exact Eks.
    destruct (each_keys n es l (obj_keys es) h a ds Fd (l :: F) Hx Hy Hd Hr Hn Hu Hdis (obj_keys_assoc es)) as (h' & F' & E & R & O).
    erewrite bind_Done by exact E. exists h', F'. split; [done|]. split; [|done]. by rewrite merge_obj.
Qed.

(** ** Paths *)

Definition tget (t : tree) (k : jsstr) : option tree := match t with TObj ps => assoc k ps | _ => None end.

Fixpoint look (t : tree) (p : list jsstr) : option tree :=
  match p with [] => Some t | k :: p' => match tget t k with Some u => look u p' | None => None end end.

(** The tree with another subtree at the end of a path. *)
Fixpoint tput (p : list jsstr) (x t : tree) : tree :=
  match p with
  | [] => x
  | k :: p' => match t with TObj ps => match assoc k ps with Some u => TObj (put k (tput p' x u) ps) | None => t end | _ => t end
  end.

Fixpoint walk (h : heap) (v : value) (p : list jsstr) : option value :=
  match p with
  | [] => Some v
  | k :: p' =>
      match v with
      | VRef l => match h !! l with Some (OObj kvs) => match assoc k kvs with Some w => walk h w p' | None => None end | _ => None end
      | _ => None
      end
  end.

Lemma look_tput p x t q u : look t p = Some u -> look (tput p x t) (p ++ q) = look x q.
Proof.
  revert t. induction p as [|k p IH]; intros t; [done|]. cbn [look tput app]. destruct t as [| |ps]; [done|done|]. cbn [tget].
  destruct (assoc k ps) as [w|] eqn:E; [|done]. intros Hl. cbn [tget]. rewrite assoc_put_eq. by apply IH.
Qed.

Lemma look_tput_other c k k' p q x t : k <> k' -> look (tput (c ++ k :: p) x t) (c ++ k' :: q) = look t (c ++ k' :: q).
Proof.
  intros Hk. revert t. induction c as [|k1 c IH]; intros t; cbn [app look tput].
  - destruct t as [| |ps]; [done|done|]. cbn [tget]. destruct (assoc k ps); [|done]. cbn [tget]. by rewrite assoc_put_ne.
  - destruct t as [| |ps]; [done|done|]. cbn [tget]. destruct (assoc k1 ps) as [w|] eqn:E; [|by cbn [tget]; rewrite E].
    cbn [tget]. by rewrite assoc_put_eq, IH.
Qed.

Lemma put_assoc {A} k (x : A) l : assoc k l = Some x -> put k x l = l.
Proof.
  induction l as [|[k' y] l IH]; [done|]. cbn [assoc put]. case_bool_decide; [by intros [= ->]|]. intros E. by rewrite IH.
Qed.

(** Changing a subtree in place changes the tree. *)
Lemma focus p : forall h t v F u, rep h t v F -> NoDup F -> look t p = Some u -> exists w G,
  walk h v p = Some w /\ rep h u w G /\ NoDup G /\ (forall l, l ∈ G -> l ∈ F) /\
  forall h' u' G', (forall l, l ∈ F -> l ∉ G -> h' !! l = h !! l) -> (forall l, l ∈ G' -> l ∈ G \/ (length h <= l)%nat) -> NoDup G' ->
    rep h' u' w G' -> exists F', rep h' (tput p u' t) v F' /\ NoDup F' /\
      (forall l, l ∈ F' -> (l ∈ F /\ (l ∉ G)) \/ l ∈ G') /\ (forall q r, p = q ++ r -> walk h' v q = walk h v q).
Proof.
  induction p as [|k p IH]; intros h t v F u Hr Hn Hl.
  - injection Hl as ->. exists v, F. repeat split; try done. intros h' u' G' K C N R. exists G'. repeat split; try done; [by right|].
    intros q r [-> ->]%eq_sym%app_nil. done.
  - cbn [look] in Hl. destruct t as [x|ts|ps]; [done|done|]. cbn [tget] in Hl. destruct (assoc k ps) as [t1|] eqn:Ek; [|done].
    inversion Hr as [| |a ps' kvs F0 Ea Eks Hok Hrs]; subst.
    destruct (reps_child h k ps kvs F0 Eks Hrs) as (F1 & Fk & F2 & -> & Hm & Hput). rewrite Ek in Hm.
    destruct (assoc k kvs) as [w1|] eqn:Ew; [|done].
    assert (Nk : NoDup Fk) by (by apply list.NoDup_cons in Hn as [_ (_ & _ & (? & _)%list.NoDup_app)%list.NoDup_app]).
    destruct (IH h t1 w1 Fk u Hm Nk Hl) as (w & G & Hw & Rw & NG & HG & Hfoc). exists w, G.
    split; [cbn [walk]; by rewrite Ea, Ew|]. split; [done|]. split; [done|].
    split; [intros l Hlg; right; rewrite !elem_of_app; auto|].
    assert (Hdom : forall l, l ∈ (a :: F1) ++ F2 -> (l < length h)%nat).
    { intros l Hl1. eapply rep_dom; [exact Hr|]. rewrite !elem_of_cons, !elem_of_app in *. rewrite elem_of_cons in Hl1. tauto. }
    intros h' u' G' K C N R. destruct (Hfoc h' u' G') as (F' & R' & N' & C' & Hw'); [|done|done|done|].
    { intros l Hlk. apply K. right. rewrite !elem_of_app. auto. }
    assert (Cf : forall l, l ∈ F' -> l ∈ Fk \/ (length h <= l)%nat).
    { intros l [[? _]|Hg]%C'; [by left|]. destruct (C l Hg); auto. }
    pose proof (around_apart (a :: F1) Fk F2 F' Hn Hdom Cf) as Hap.
    assert (Hout : forall l, l ∈ (a :: F1) ++ F2 -> h' !! l = h !! l).
    { intros l Hl1. apply K; [|intros ?%HG; by destruct (Hap l Hl1)].
      apply elem_of_app in Hl1 as [[->|?]%elem_of_cons|?]; [by left|right..]; rewrite !elem_of_app; auto. }
    pose proof (Hout a ltac:(by left)) as Ea'. rewrite Ea in Ea'. cbn [tput]. rewrite Ek.
    exists (a :: F1 ++ F' ++ F2). split; [|split; [by apply (around_nodup (n := length h) (a :: F1) Fk F2)|split]].
    + assert (Hpk : (put k (tput p u' t1) ps).*1 = ps.*1).
      { rewrite put_keys, bool_decide_eq_true_2; [done|]. apply assoc_elem. by rewrite Ek. }
      eapply (rep_obj h' a (put k (tput p u' t1) ps) kvs); [done|by rewrite Hpk|by rewrite Hpk|].
      rewrite <- (put_assoc k w1 kvs Ew). apply Hput; [done|]. intros l Hll. apply Hout. by right.
    + intros l Hl1. assert (Hc : l ∈ (a :: F1) ++ F2 \/ l ∈ F').
      { apply elem_of_cons in Hl1 as [->|Hl1]; [left; by left|]. rewrite !elem_of_app in Hl1.
        destruct Hl1 as [?|[?|?]]; [left; right; rewrite elem_of_app; auto|by right|left; right; rewrite elem_of_app; auto]. }
      destruct Hc as [Hc|Hc].
      * left. split; [apply elem_of_app in Hc as [[->|?]%elem_of_cons|?]; [by left|right..]; rewrite !elem_of_app; auto|]. intros ?%HG. by destruct (Hap l Hc).
      * destruct (C' l Hc) as [[? ?]|?]; [left|by right]. split; [|done]. right. rewrite !elem_of_app. auto.
    + intros [|k' q] r; [done|]. cbn [app]. intros [= <- ->]. cbn [walk]. rewrite Ea', Ea, Ew. by apply (Hw' q r).
Qed.

(** A run on the subtree alone. *)
Lemma focus_owns p h t v F u : rep h t v F -> NoDup F -> look t p = Some u -> exists w G,
  walk h v p = Some w /\ rep h u w G /\ NoDup G /\ (forall l, l ∈ G -> l ∈ F) /\
  forall h' u' G', owns h G h' G' -> rep h' u' w G' -> exists F', rep h' (tput p u' t) v F' /\ owns h F h' F'.
Proof.
  intros Hr Hn Hl. destruct (focus p h t v F u Hr Hn Hl) as (w & G & Hw & Rw & NG & HG & Hf). exists w, G.
  repeat split; try done. intros h' u' G' [K Gr C N] R. destruct (Hf h' u' G') as (F' & R' & N' & C' & _); [|done|done|done|].
  - intros l HlF HlG. apply K; [exact (rep_dom _ _ _ _ Hr l HlF)|done].
  - exists F'. split; [done|]. split; [|done| |done].
    + intros l Hll Hnl. apply K; [done|]. intros ?%HG. done.
    + intros l [[? _]|Hl']%C'; [by left|]. destruct (C l Hl'); auto.
Qed.
