(* ===== verification/SuiPluginLaws.v ===== *)
(** What loading plugins does: the wrappers of actions and components are composed in the order
    of loading, and what it leaves in the plugins themselves. *)
From stdpp Require Import relations.
From S2P Require Import Prelude JsString JsNumber YamlValue SuiPlugins SuiTrees.

(** ** Lists of functions *)

Definition leaf (t : tree) : Prop := match t with TVal v => scalar v /\ vtrue v = true | _ => False end.

(** An entry is one function or an array of functions. *)
Definition fns (t : tree) : list tree := match t with TArr l => l | _ => [t] end.

Lemma leaves_reps l : forall h vs F, Forall leaf l -> reps h l vs F -> F = [] /\ forall h', reps h' l vs [].
Proof.
  induction l as [|t l IH]; intros h vs F Hl Hr; inversion Hr as [|? v F1 ? vs' F2 H1 H2]; subst; [split; [done|constructor]|].
  apply list.Forall_cons in Hl as [Ht Hl]. destruct t as [x| |]; [|done|done]. inversion H1; subst.
  destruct (IH h vs' F2 Hl H2) as [-> Hrs]. split; [done|]. intros h'. apply (reps_cons h' _ _ []); [by constructor|done].
Qed.

Lemma entry_elements h t v F : rep h t v F -> Forall leaf (fns t) -> exists vs, elements v h = Done vs h /\ forall h', reps h' (fns t) vs [].
Proof.
  intros Hr Hl. unfold elements, cell, bind, ret. inversion Hr as [x Hx|l ts vs F' El Hrs|l ps kvs F' El Ek Hok Hrs]; subst.
  - exists [v]. split; [by destruct v|]. intros h'. apply (reps_cons h' _ _ []); [by constructor|constructor].
  - rewrite El. exists vs. split; [done|]. by apply (leaves_reps ts h vs F').
  - by apply list.Forall_cons in Hl as [? _].
Qed.

Lemma entry_true h t v F : rep h t v F -> Forall leaf (fns t) -> vtrue v = true.
Proof. intros Hr Hl. inversion Hr; subst; [|done|done]. apply list.Forall_cons in Hl as [[_ ?] _]. done. Qed.

(** A new array of functions. *)
Lemma rep_new_arr h l vs : reps h l vs [] -> (forall h', reps h' l vs []) -> rep (h ++ [OArr vs]) (TArr l) (VRef (length h)) [length h].
Proof. intros _ Hr. econstructor; [apply (list_lookup_middle h []); reflexivity|apply Hr]. Qed.

Lemma concat_value_spec h t1 v1 F1 t2 v2 F2 : rep h t1 v1 F1 -> rep h t2 v2 F2 -> Forall leaf (fns t1) -> Forall leaf (fns t2) ->
  exists h' v, concat_value v1 v2 h = Done v h' /\ rep h' (TArr (fns t1 ++ fns t2)) v [length h] /\ owns h [] h' [length h].
Proof.
  intros R1 R2 L1 L2. destruct (entry_elements _ _ _ _ R1 L1) as (l1 & E1 & A1). destruct (entry_elements _ _ _ _ R2 L2) as (l2 & E2 & A2).
  unfold concat_value. erewrite bind_Done by exact E1. erewrite bind_Done by exact E2. rewrite new_spec.
  eexists _, _. split; [done|]. split; [|apply owns_new].
  assert (Happ : forall h', reps h' (fns t1 ++ fns t2) (l1 ++ l2) []).
  { intros h'. specialize (A1 h'). specialize (A2 h'). remember [] as F eqn:EF in A1. clear -A1 A2 EF.
    induction A1 as [|t v F ts vs F' Ht _ IH]; [done|]. apply app_nil in EF as [-> ->]. cbn [app].
    apply (reps_cons h' _ _ []); [done|]. by apply IH. }
  by apply rep_new_arr.
Qed.

(** ** Reading along a path *)

Lemma own_child h t v F k : rep h t v F -> vtrue v = true -> exists x, own v k h = Done x h /\
  match tget t k with Some u => walk h v [k] = Some x /\ exists G, rep h u x G /\ (forall l, l ∈ G -> l ∈ F) | None => x = VUndef end.
Proof.
  intros Hr Hv. inversion Hr as [x Hx|l ts vs F' El Hrs|l ps kvs F' El Ek Hok Hrs]; subst; cbn [tget].
  - exists VUndef. split; [|done]. unfold own, cell, bind, ret. by destruct v.
  - exists VUndef. split; [|done]. unfold own, cell, bind, ret. by rewrite El.
  - destruct (reps_child h k ps kvs F' Ek Hrs) as (F1 & Fk & F2 & -> & Hm & _). exists (default VUndef (assoc k kvs)).
    split; [unfold own, cell, bind, ret; by rewrite El|]. cbn [walk]. rewrite El.
    destruct (assoc k ps) as [u|], (assoc k kvs) as [w|]; try done. split; [done|]. exists Fk. split; [done|].
    intros l1 Hl1. right. rewrite !elem_of_app. auto.
Qed.

Lemma chain_spec p : forall h t v F, rep h t v F -> exists x, chain v p h = Done x h /\
  match look t p with Some u => walk h v p = Some x /\ exists G, rep h u x G /\ (forall l, l ∈ G -> l ∈ F) | None => vtrue x = false end.
Proof.
  induction p as [|k p IH]; intros h t v F Hr; cbn [chain look].
  - exists v. split; [done|]. split; [done|]. by exists F.
  - destruct (vtrue v) eqn:Hv.
    + destruct (own_child h t v F k Hr Hv) as (x & Ex & Hx). erewrite bind_Done by exact Ex.
      destruct (tget t k) as [u|].
      * destruct Hx as (Hw & G & Rx & HG). destruct (IH h u x G Rx) as (y & Ey & Hy). exists y. split; [done|].
        destruct (look u p); [|done]. destruct Hy as (Hw2 & G2 & R2 & HG2). split; [|exists G2; auto].
        cbn [walk] in Hw |- *. destruct v; try done. destruct (h !! l) as [[| | | |]|]; try done.
        destruct (assoc k l0); [|done]. by injection Hw as ->.
      * subst x. exists VUndef. by destruct p.
    + exists v. split; [done|]. inversion Hr; subst; [|done|done]. done.
Qed.

(** ** The wrappers of actions, on trees *)

Definition SP : jsstr := js "statePlugins".
Definition WA : jsstr := js "wrapActions".

(** One action that the system wraps: its entry becomes a list, and the entry of the plugin, if
    there is one, that list with its own functions behind. *)
Definition join_t (ns : jsstr) (q : list (jsstr * tree) * tree) (a : jsstr) : list (jsstr * tree) * tree :=
  let (was, s) := q in
  match assoc a was with
  | None => q
  | Some t =>
      (put a (TArr (fns t)) was,
       match look s [SP; ns; WA] with
       | Some (TObj swa) =>
           match assoc a swa with
           | Some w => tput [SP; ns; WA] (TObj (put a (TArr (fns t ++ fns w)) swa)) s
           | None => s
           end
       | _ => s
       end)
  end.

(** A namespace of the system. *)
Definition join_ns_t (q : tree * tree) (ns : jsstr) : tree * tree :=
  match look q.1 [SP; ns; WA] with
  | Some (TObj was) =>
      let r := foldl (join_t ns) (was, q.2) (obj_keys was) in (tput [SP; ns; WA] (TObj r.1) q.1, r.2)
  | _ => q
  end.

(** The system and the plugin in front of the merge. *)
Definition joined (d s : tree) : tree * tree :=
  match look d [SP] with Some (TObj sps) => foldl join_ns_t (d, s) (obj_keys sps) | _ => (d, s) end.

(** Two trees side by side. *)
Definition beside (h : heap) (d : tree) (v : value) (F : list nat) (s : tree) (w : value) (G : list nat) : Prop :=
  rep h d v F /\ rep h s w G /\ NoDup (F ++ G).

(** A run on both of them: none takes cells of the other. *)
Record owns2 (h : heap) (F G : list nat) (h' : heap) (F' G' : list nat) : Prop := {
  own2_keeps l : (l < length h)%nat -> l ∉ F -> l ∉ G -> h' !! l = h !! l;
  own2_grows : (length h <= length h')%nat;
  own2_left l : l ∈ F' -> l ∈ F \/ (length h <= l)%nat;
  own2_right l : l ∈ G' -> l ∈ G \/ (length h <= l)%nat
}.

Lemma owns2_refl h F G : owns2 h F G h F G.
Proof. split; [done|done|by left|by left]. Qed.

Lemma owns2_trans h0 F0 G0 h1 F1 G1 h2 F2 G2 : owns2 h0 F0 G0 h1 F1 G1 -> owns2 h1 F1 G1 h2 F2 G2 -> owns2 h0 F0 G0 h2 F2 G2.
Proof.
  intros [K1 Gr1 L1 R1] [K2 Gr2 L2 R2]. split; [|lia| |].
  - intros l Hl Hf Hg. rewrite K2; [by apply K1|lia| |].
    + intros [?|?]%L1; [done|lia].
    + intros [?|?]%R1; [done|lia].
  - intros l [[?|?]%L1|?]%L2; auto. right. lia.
  - intros l [[?|?]%R1|?]%R2; auto. right. lia.
Qed.

Lemma beside_l h d v F s w G h' d' F' : beside h d v F s w G -> owns h F h' F' -> rep h' d' v F' ->
  beside h' d' v F' s w G /\ owns2 h F G h' F' G.
Proof.
  intros (Rd & Rs & Hn) O R. destruct (owns_around h [] F G h' F') as [O' Hout]; [done|intros l Hl; exact (rep_dom _ _ _ _ Rs l Hl)|done|].
  split; [|destruct O as [K Gr C N]; split; [auto|done|done|by left]]. split; [done|]. split; [|apply O'].
  eapply rep_frame; [exact Rs|]. intros l Hl. by destruct (Hout l Hl).
Qed.

Lemma beside_r h d v F s w G h' s' G' : beside h d v F s w G -> owns h G h' G' -> rep h' s' w G' ->
  beside h' d v F s' w G' /\ owns2 h F G h' F G'.
Proof.
  intros (Rd & Rs & Hn) O R. destruct (owns_around h F G [] h' G') as [O' Hout].
  - by rewrite app_nil_r.
  - intros l Hl. rewrite app_nil_r in Hl. exact (rep_dom _ _ _ _ Rd l Hl).
  - done.
  - rewrite (app_nil_r G), (app_nil_r G') in O'. rewrite (app_nil_r F) in Hout.
    split; [|destruct O as [K Gr C N]; split; [auto|done|by left|done]]. split; [|split; [done|apply O']].
    eapply rep_frame; [exact Rd|]. intros l Hl. by destruct (Hout l Hl).
Qed.

Lemma look_snoc p k t : look t (p ++ [k]) = match look t p with Some u => tget u k | None => None end.
Proof.
  revert t. induction p as [|k1 p IH]; intros t; cbn [app look]; [by destruct (tget t k)|]. by destruct (tget t k1).
Qed.

(** The entry of the system becomes an array. *)
Lemma normalise_spec h b was G a t : rep h (TObj was) (VRef b) (b :: G) -> NoDup (b :: G) -> a <> js "__proto__" ->
  assoc a was = Some t -> Forall leaf (fns t) -> exists v (arr : bool) h' G', own (VRef b) a h = Done v h /\ is_array v h = Done arr h /\
    (if arr then ret tt else let! x := new (OArr [v]) in set_field (VRef b) a x) h = Done tt h' /\
    rep h' (TObj (put a (TArr (fns t)) was)) (VRef b) (b :: G') /\ owns h (b :: G) h' (b :: G').
Proof.
  intros Hr Hn Ha Ea Hl. destruct (set_child h b was G a Hr Hn Ha) as (Fk & v & _ & _ & Ev & Hold & Hset). rewrite Ea in Hold.
  exists v. inversion Hold as [x Hx|l ts vs F' El Hrs|l ps kvs F' El Ek Hok Hrs]; subst.
  - assert (Earr : is_array v h = Done false h) by (unfold is_array, cell, bind, ret; by destruct v).
    destruct (entry_elements _ _ _ _ Hold Hl) as (vs & Evs & Hvs).
    assert (vs = [v]) as -> by (unfold elements, cell, bind, ret in Evs; by destruct v; injection Evs as <-).
    destruct (Hset (h ++ [OArr [v]]) (TArr [TVal v]) (VRef (length h)) [length h] (owns_new h (OArr [v]))) as (h2 & G2 & E2 & R2 & O2).
    { by apply rep_new_arr. }
    exists false, h2, G2. split; [done|]. split; [done|]. erewrite bind_Done by apply new_spec. by split.
  - exists true, h, G. split; [done|]. split; [unfold is_array, cell, bind, ret; by rewrite El|]. split; [done|].
    split; [by rewrite put_assoc|by apply owns_refl].
  - by apply list.Forall_cons in Hl as [? _].
Qed.

Lemma join_action_spec h ns a t was b G s src Fs : beside h (TObj was) (VRef b) (b :: G) s src Fs -> a <> js "__proto__" ->
  assoc a was = Some t -> Forall leaf (fns t) -> (forall w, look s [SP; ns; WA; a] = Some w -> Forall leaf (fns w)) ->
  let r := join_t ns (was, s) a in
  exists h' G' Fs', join_action src ns (VRef b) a h = Done tt h' /\ beside h' (TObj r.1) (VRef b) (b :: G') r.2 src Fs' /\
    owns2 h (b :: G) Fs h' (b :: G') Fs'.
Proof.
  intros Hb Ha Ea Hl Hw r. pose proof Hb as (Rd & Rs & Hn). pose proof Hn as (Nd & _ & Ns)%list.NoDup_app.
  destruct (normalise_spec h b was G a t Rd Nd Ha Ea Hl) as (v & arr & h1 & G1 & Ev & Earr & E1 & R1 & O1).
  destruct (beside_l _ _ _ _ _ _ _ h1 _ _ Hb O1 R1) as [Hb1 O1']. pose proof Hb1 as (_ & Rs1 & _).
  unfold join_action. erewrite bind_Done by exact Ev. erewrite bind_Done by exact Earr. erewrite bind_Done by exact E1.
  change [js "statePlugins"; ns; js "wrapActions"; a] with [SP; ns; WA; a].
  change [js "statePlugins"; ns; js "wrapActions"] with [SP; ns; WA].
  destruct (chain_spec [SP; ns; WA; a] h1 s src Fs Rs1) as (x & Ex & Hx). erewrite bind_Done by exact Ex.
  unfold r, join_t. rewrite Ea. cbn [fst snd].
  change [SP; ns; WA; a] with ([SP; ns; WA] ++ [a]) in Hx, Hw. rewrite look_snoc in Hx, Hw.
  destruct (look s [SP; ns; WA]) as [u|] eqn:El; [|rewrite Hx; by exists h1, G1, Fs].
  destruct (tget u a) as [w|] eqn:Ew.
  2:{ rewrite Hx. exists h1, G1, Fs. destruct u as [| |swa]; [done|done|]. cbn [tget] in Ew. by rewrite Ew. }
  destruct Hx as (_ & Gx & Rx & _). specialize (Hw w eq_refl). rewrite (entry_true _ _ _ _ Rx Hw).
  destruct u as [| |swa]; [done|done|]. cbn [tget] in Ew. rewrite Ew.
  destruct (chain_spec [SP; ns; WA] h1 s src Fs Rs1) as (y & Ey & Hy). rewrite El in Hy. destruct Hy as (Wy & _).
  erewrite bind_Done by exact Ey. destruct (focus_owns [SP; ns; WA] h1 s src Fs (TObj swa) Rs1 Ns El) as (y' & Gy & Wy' & Ry & Ny & _ & Hfoc).
  rewrite Wy in Wy'. injection Wy' as <-. inversion Ry as [| |c ps kvs Gc Ec Ekc Hokc Hrc]; subst.
  destruct (set_child h1 b (put a (TArr (fns t)) was) G1 a R1 ltac:(apply O1) Ha) as (Fk & v1 & _ & _ & Ev1 & Hv1 & _).
  rewrite assoc_put_eq in Hv1. erewrite bind_Done by exact Ev1.
  destruct (concat_value_spec h1 (TArr (fns t)) v1 Fk w x Gx Hv1 Rx Hl Hw) as (h2 & z & E2 & R2 & O2). erewrite bind_Done by exact E2.
  destruct (set_child h1 c swa Gc a Ry Ny Ha) as (Fc & vc & _ & _ & _ & _ & Hset).
  destruct (Hset h2 _ z _ (owns_weaken _ _ _ _ O2) R2) as (h3 & G3 & E3 & R3 & O3).
  destruct (Hfoc h3 _ _ O3 R3) as (Fs' & R3' & O3').
  destruct (beside_r _ _ _ _ _ _ _ h3 _ _ Hb1 O3' R3') as [Hb3 O3'']. exists h3, G1, Fs'. split; [exact E3|]. split; [exact Hb3|].
  by eapply owns2_trans.
Qed.

(** The entries of a system and of a plugin are functions or arrays of functions. *)
Definition entries_ok (was : list (jsstr * tree)) : Prop := forall a t, assoc a was = Some t -> Forall leaf (fns t).
Definition wraps_ok (s : tree) : Prop := forall ns a w, look s [SP; ns; WA; a] = Some w -> Forall leaf (fns w).

Lemma look4 s ns a : look s [SP; ns; WA; a] = match look s [SP; ns; WA] with Some u => tget u a | None => None end.
Proof. exact (look_snoc [SP; ns; WA] a s). Qed.

(** What one step does to the entries. *)
Lemma join_t_was ns was s a a' : fns <$> assoc a' (join_t ns (was, s) a).1 = fns <$> assoc a' was.
Proof.
  unfold join_t. destruct (assoc a was) as [t|] eqn:E; [|done]. cbn [fst]. destruct (decide (a' = a)) as [->|Hne].
  - by rewrite assoc_put_eq, E.
  - by rewrite assoc_put_ne.
Qed.

Definition joined_entry (t w : option tree) : option tree :=
  match t, w with Some t, Some w => Some (TArr (fns t ++ fns w)) | _, _ => w end.

Lemma join_t_look ns was s a ns' a' : look (join_t ns (was, s) a).2 [SP; ns'; WA; a'] =
  if bool_decide (ns' = ns /\ a' = a) then joined_entry (assoc a was) (look s [SP; ns; WA; a]) else look s [SP; ns'; WA; a'].
Proof.
  unfold join_t. destruct (assoc a was) as [t|] eqn:E; [|case_bool_decide as Hb; [by destruct Hb as [-> ->]|done]]. cbn [snd].
  rewrite !look4. destruct (look s [SP; ns; WA]) as [[x|ts|swa]|] eqn:El.
  1,2,4: case_bool_decide as Hb; [destruct Hb as [-> ->]; by rewrite El|done].
  cbn [tget]. destruct (assoc a swa) as [w|] eqn:Ea.
  - destruct (decide (ns' = ns)) as [->|Hns].
    + change [SP; ns; WA] with ([SP; ns; WA] ++ []) at 2. rewrite (look_tput _ _ _ _ _ El), El. cbn [look tget].
      destruct (decide (a' = a)) as [->|Hne].
      * by rewrite bool_decide_eq_true_2, assoc_put_eq.
      * rewrite bool_decide_eq_false_2 by tauto. by rewrite assoc_put_ne.
    + rewrite bool_decide_eq_false_2 by tauto.
      change [SP; ns'; WA] with ([SP] ++ ns' :: [WA]). change [SP; ns; WA] with ([SP] ++ ns :: [WA]). by rewrite look_tput_other.
  - case_bool_decide as Hb; [destruct Hb as [-> ->]; rewrite El; cbn [tget]; by rewrite Ea|done].
Qed.

Lemma joined_entry_leaf t w x : (forall t', t = Some t' -> Forall leaf (fns t')) -> (forall w', w = Some w' -> Forall leaf (fns w')) ->
  joined_entry t w = Some x -> Forall leaf (fns x).
Proof.
  intros Ht Hw. destruct t as [t|], w as [w|]; cbn [joined_entry]; try done; intros [= <-]; [|by apply Hw].
  cbn [fns]. apply list.Forall_app. split; [by apply Ht|by apply Hw].
Qed.

Lemma join_t_ok ns was s a : entries_ok was -> wraps_ok s -> entries_ok (join_t ns (was, s) a).1 /\ wraps_ok (join_t ns (was, s) a).2.
Proof.
  intros Hw Hs. split.
  - intros a' t' E. pose proof (join_t_was ns was s a a') as H. rewrite E in H. destruct (assoc a' was) as [t|] eqn:Ea; [|done].
    injection H as ->. by apply (Hw a').
  - intros ns' a' w. rewrite join_t_look. case_bool_decide; [|apply Hs]. apply joined_entry_leaf; [apply Hw|apply Hs].
Qed.

(** The loop over the actions of a namespace, on the heap. *)
Lemma join_actions_spec ns src b ks : forall h was G s Fs, beside h (TObj was) (VRef b) (b :: G) s src Fs -> entries_ok was -> wraps_ok s ->
  Forall (fun a => assoc a was <> None) ks -> let r := foldl (join_t ns) (was, s) ks in
  exists h' G' Fs', each ks (join_action src ns (VRef b)) h = Done tt h' /\ beside h' (TObj r.1) (VRef b) (b :: G') r.2 src Fs' /\
    owns2 h (b :: G) Fs h' (b :: G') Fs'.
Proof.
  induction ks as [|a ks IH]; intros h was G s Fs Hb Hw Hs Hks r.
  - exists h, G, Fs. split; [done|]. split; [done|]. apply owns2_refl.
  - apply list.Forall_cons in Hks as [Ha Hks]. destruct (assoc a was) as [t|] eqn:Ea; [|done].
    pose proof Hb as (Rd & _). pose proof (child_key _ _ _ _ _ _ Rd Ea) as Hp.
    destruct (join_action_spec h ns a t was b G s src Fs Hb Hp Ea (Hw a t Ea) (Hs ns a)) as (h1 & G1 & F1 & E1 & B1 & O1).
    destruct (join_t_ok ns was s a Hw Hs) as [Hw1 Hs1].
    destruct (IH h1 (join_t ns (was, s) a).1 G1 (join_t ns (was, s) a).2 F1 B1 Hw1 Hs1) as (h2 & G2 & F2 & E2 & B2 & O2).
    { eapply list.Forall_impl; [exact Hks|]. intros a' Ha' E'. apply Ha'. pose proof (join_t_was ns was s a a') as E.
      rewrite E' in E. by destruct (assoc a' was). }
    rewrite <- surjective_pairing in B2. exists h2, G2, F2. cbn [each]. erewrite bind_Done by exact E1. split; [exact E2|]. split; [exact B2|].
    by eapply owns2_trans.
Qed.

Lemma walk_app h v p q : walk h v (p ++ q) = match walk h v p with Some w => walk h w q | None => None end.
Proof.
  revert v. induction p as [|k p IH]; intros v; [done|]. cbn [app walk]. destruct v; try done.
  destruct (h !! l) as [[| | | |]|]; try done. by destruct (assoc k l0).
Qed.

(** A node of the system, its tree in place. *)
Lemma node_beside h d dest Fd s src Fs p u : beside h d dest Fd s src Fs -> look d p = Some u -> exists w G,
  walk h dest p = Some w /\ beside h u w G s src Fs /\
  forall h' u' G' s' Fs', beside h' u' w G' s' src Fs' -> owns2 h G Fs h' G' Fs' -> exists Fd',
    beside h' (tput p u' d) dest Fd' s' src Fs' /\ owns2 h Fd Fs h' Fd' Fs' /\ (forall q r, p = q ++ r -> walk h' dest q = walk h dest q).
Proof.
  intros (Rd & Rs & Hn) Hl. pose proof Hn as (Nd & Dn & Ns)%list.NoDup_app.
  destruct (focus p h d dest Fd u Rd Nd Hl) as (w & G & Hw & Rw & NG & HG & Hf). exists w, G. split; [done|]. split.
  - split; [done|]. split; [done|]. apply list.NoDup_app. split; [done|]. split; [|done]. intros l ?%HG. by apply Dn.
  - intros h' u' G' s' Fs' (Rw' & Rs' & Hn') [K Gr CL CR]. pose proof Hn' as (NG' & DG' & NFs')%list.NoDup_app.
    destruct (Hf h' u' G') as (Fd' & R' & N' & C' & Hw'); [|done|done|done|].
    + intros l HlF HlG. apply K; [exact (rep_dom _ _ _ _ Rd l HlF)|done|by apply Dn].
    + exists Fd'. split; [|split; [split|done]].
      * split; [done|]. split; [done|]. apply list.NoDup_app. split; [done|]. split; [|done].
        intros l [[Hl1 Hl2]|Hl1]%C' Hl3; [|by apply (DG' l)]. destruct (CR l Hl3) as [?|?]; [by apply (Dn l)|].
        pose proof (rep_dom _ _ _ _ Rd l Hl1). lia.
      * intros l Hll Hf1 Hf2. apply K; [done|by intros ?%HG|done].
      * done.
      * intros l [[? _]|Hl1]%C'; [by left|]. destruct (CL l Hl1) as [?%HG|?]; auto.
      * done.
Qed.

Lemma join_namespace_spec h d dest Fd s src Fs ns spv sps : beside h d dest Fd s src Fs ->
  walk h dest [SP] = Some spv -> look d [SP] = Some (TObj sps) ->
  (forall was, look d [SP; ns; WA] = Some (TObj was) -> entries_ok was) -> wraps_ok s -> let r := join_ns_t (d, s) ns in
  exists h' Fd' Fs', join_namespace src spv ns h = Done tt h' /\ beside h' r.1 dest Fd' r.2 src Fs' /\
    owns2 h Fd Fs h' Fd' Fs' /\ walk h' dest [SP] = Some spv.
Proof.
  intros Hb Hsp Hl Hw Hs r. unfold join_namespace, r, join_ns_t. cbn [fst snd].
  assert (Hsame : look d [SP; ns; WA] = look (TObj sps) [ns; WA]).
  { cbn [look] in Hl |- *. by destruct (tget d SP) as [u|]; [injection Hl as ->|]. }
  destruct (node_beside _ _ _ _ _ _ _ [SP] (TObj sps) Hb Hl) as (spv' & Gs & Hsp' & Bs & _).
  rewrite Hsp in Hsp'. injection Hsp' as <-. pose proof Bs as (Rsp & _).
  assert (Hnop : exists h' Fd' Fs', ret tt h = Done tt h' /\ beside h' d dest Fd' s src Fs' /\
    owns2 h Fd Fs h' Fd' Fs' /\ walk h' dest [SP] = Some spv).
  { exists h, Fd, Fs. split; [done|]. split; [done|]. split; [apply owns2_refl|done]. }
  destruct (own_child h (TObj sps) spv Gs ns Rsp) as (nv & Env & Hnv); [by inversion Rsp|]. erewrite bind_Done by exact Env.
  rewrite Hsame. cbn [look]. destruct (tget (TObj sps) ns) as [nt|] eqn:Ent; [|by subst nv].
  destruct Hnv as (Wn & Gn & Rn & _). destruct (isObject nv) eqn:Eo; cbn [negb].
  2:{ inversion Rn; subst; [done|done|done]. }
  destruct (own_child h nt nv Gn WA Rn) as (wv & Ewv & Hwv); [by destruct nv|]. erewrite bind_Done by exact Ewv.
  destruct (tget nt WA) as [wt|] eqn:Ewt; [|by subst wv]. destruct Hwv as (Ww & Gw & Rw & _).
  destruct (isObject wv) eqn:Eow; cbn [negb]; [|inversion Rw; subst; done].
  assert (Hlw : look d [SP; ns; WA] = Some wt) by (rewrite Hsame; cbn [look]; by rewrite Ent, Ewt).
  destruct wt as [x|ts|was]; [inversion Rw; subst; by destruct wv| |].
  { inversion Rw as [|l ts' vs F' El Hrs|]; subst. rewrite (bind_Done _ _ _ [] h); [exact Hnop|]. unfold keys, cell, bind, ret. by rewrite El. }
  destruct (node_beside _ _ _ _ _ _ _ [SP; ns; WA] (TObj was) Hb Hlw) as (wv' & G & Hwk & Bw & Hlift).
  assert (wv' = wv) as ->.
  { change [SP; ns; WA] with ([SP] ++ [ns] ++ [WA]) in Hwk. rewrite walk_app, Hsp, walk_app, Wn, Ww in Hwk. by injection Hwk. }
  pose proof Bw as (Rw2 & _). inversion Rw2 as [| |b ps kvs Gb Eb Ekb Hokb Hrb]; subst.
  assert (Eks : keys (VRef b) h = Done (obj_keys was) h).
  { unfold keys, cell, bind, ret. rewrite Eb. do 2 f_equal. by apply obj_keys_same. }
  erewrite bind_Done by exact Eks.
  destruct (join_actions_spec ns src b (obj_keys was) h was Gb s Fs Bw (Hw was Hlw) Hs (obj_keys_assoc was)) as (h' & G' & Fs' & E & B' & O').
  destruct (Hlift h' _ _ _ _ B' O') as (Fd' & Bd & Od & Wd). exists h', Fd', Fs'. split; [exact E|]. split; [exact Bd|]. split; [done|].
  rewrite (Wd [SP] [ns; WA] eq_refl). exact Hsp.
Qed.

(** ** The entries after all of it *)

Lemma joined_entry_fns t t' w : fns <$> t = fns <$> t' -> joined_entry t w = joined_entry t' w.
Proof. destruct t as [t|], t' as [t'|]; [|done..]. intros [= E]. unfold joined_entry. by rewrite E. Qed.

Lemma joins_was ns ks a : forall was s, fns <$> assoc a (foldl (join_t ns) (was, s) ks).1 = fns <$> assoc a was.
Proof.
  induction ks as [|k ks IH]; intros was s; [done|]. cbn [foldl]. rewrite (surjective_pairing (join_t ns (was, s) k)), IH.
  apply join_t_was.
Qed.

Lemma joins_look ns ks ns' a' : NoDup ks -> forall was s, look (foldl (join_t ns) (was, s) ks).2 [SP; ns'; WA; a'] =
  if bool_decide (ns' = ns /\ a' ∈ ks) then joined_entry (assoc a' was) (look s [SP; ns; WA; a']) else look s [SP; ns'; WA; a'].
Proof.
  induction 1 as [|k ks Hk Hn IH]; intros was s; cbn [foldl].
  - rewrite bool_decide_eq_false_2; [done|]. by intros [_ ?%elem_of_nil].
  - rewrite (surjective_pairing (join_t ns (was, s) k)), IH, !join_t_look. rewrite (joined_entry_fns _ _ _ (join_t_was ns was s k a')).
    destruct (decide (ns' = ns)) as [->|Hns]; [|by rewrite !bool_decide_eq_false_2 by tauto].
    destruct (decide (a' = k)) as [->|Hak].
    + rewrite (bool_decide_eq_false_2 (ns = ns /\ k ∈ ks)) by tauto. rewrite !bool_decide_eq_true_2; [done|split; [done|by left]|done].
    + rewrite !(bool_decide_eq_false_2 (ns = ns /\ a' = k)) by tauto.
      rewrite (bool_decide_ext (ns = ns /\ a' ∈ k :: ks) (ns = ns /\ a' ∈ ks)); [done|]. rewrite elem_of_cons. tauto.
Qed.


(** Objects, or nothing, along the way to the wrappers. *)
Definition obj_or_none (t : option tree) : Prop := match t with None | Some (TObj _) => True | _ => False end.
Definition shaped (s : tree) : Prop :=
  obj_or_none (look s [SP]) /\ forall ns, obj_or_none (look s [SP; ns]) /\ obj_or_none (look s [SP; ns; WA]).

Lemma wraps_entries d ns was : wraps_ok d -> look d [SP; ns; WA] = Some (TObj was) -> entries_ok was.
Proof. intros Hd Hl a t Ha. apply (Hd ns a). by rewrite look4, Hl. Qed.

(** One namespace: the entries of the system stay, those of the plugin are joined. *)
Lemma join_ns_look d s ns ns' a : (forall was, look d [SP; ns; WA] = Some (TObj was) -> NoDup was.*1) ->
  fns <$> look (join_ns_t (d, s) ns).1 [SP; ns'; WA; a] = fns <$> look d [SP; ns'; WA; a] /\
  look (join_ns_t (d, s) ns).2 [SP; ns'; WA; a] =
    if bool_decide (ns' = ns) then joined_entry (look d [SP; ns; WA; a]) (look s [SP; ns; WA; a]) else look s [SP; ns'; WA; a].
Proof.
  intros Hn. unfold join_ns_t. cbn [fst snd].
  assert (Hno : look d [SP; ns; WA; a] = None -> look s [SP; ns'; WA; a] =
    if bool_decide (ns' = ns) then joined_entry (look d [SP; ns; WA; a]) (look s [SP; ns; WA; a]) else look s [SP; ns'; WA; a]).
  { intros ->. case_bool_decide; [by subst|done]. }
  destruct (look d [SP; ns; WA]) as [[x|ts|was]|] eqn:El.
  1,2,4: split; [done|]; apply Hno; by rewrite look4, El.
  clear Hno. specialize (Hn was eq_refl). cbn [fst snd]. rewrite (joins_look ns _ ns' a (obj_keys_nodup _ Hn)). split.
  - rewrite !look4. destruct (decide (ns' = ns)) as [->|Hns].
    + change [SP; ns; WA] with ([SP; ns; WA] ++ []) at 2. rewrite (look_tput _ _ _ _ _ El), El. cbn [look tget]. apply joins_was.
    + change [SP; ns'; WA] with ([SP] ++ ns' :: [WA]). change [SP; ns; WA] with ([SP] ++ ns :: [WA]). by rewrite look_tput_other.
  - rewrite (look4 d), El. cbn [tget]. destruct (decide (ns' = ns)) as [->|Hns].
    + rewrite (bool_decide_eq_true_2 (ns = ns)) by done. destruct (assoc a was) as [t|] eqn:Ea.
      * rewrite bool_decide_eq_true_2; [done|]. split; [done|]. apply elem_obj_keys, assoc_elem. by rewrite Ea.
      * destruct (bool_decide _); by destruct (look s [SP; ns; WA; a]).
    + by rewrite !bool_decide_eq_false_2 by tauto.
Qed.

(** What happens to a plugin: entries of its wrappers are exchanged for arrays of functions. *)
Inductive plug_step (s : tree) : tree -> Prop :=
  | plug_set ns swa a l : look s [SP; ns; WA] = Some (TObj swa) -> Forall leaf l ->
      plug_step s (tput [SP; ns; WA] (TObj (put a (TArr l) swa)) s).

Lemma plug_step_shaped s s' : plug_step s s' -> shaped s -> shaped s'.
Proof.
  intros [ns swa a l El Hl] [H1 H2]. cbn [look tput] in *. destruct s as [| |ps]; [done..|]. cbn [tget] in *.
  destruct (assoc SP ps) as [u|] eqn:E1; [|done]. destruct u as [| |qs]; [done..|]. cbn [tget] in *.
  destruct (assoc ns qs) as [u|] eqn:E2; [|done]. destruct u as [| |rs]; [done..|]. cbn [tget] in *.
  destruct (assoc WA rs) as [u|] eqn:E3; [|done]. unfold shaped. cbn [look tget]. rewrite assoc_put_eq. split; [done|]. intros ns'. cbn [tget].
  destruct (decide (ns' = ns)) as [->|Hns]; [|rewrite assoc_put_ne by done; apply H2]. rewrite assoc_put_eq. cbn [tget].
  by rewrite assoc_put_eq.
Qed.

(** The rest of the plugin stays. *)
Lemma tput_top k k' p x t : k' <> k -> tget (tput (k :: p) x t) k' = tget t k'.
Proof. intros Hk. cbn [tput]. destruct t as [| |ps]; [done..|]. destruct (assoc k ps); [|done]. cbn [tget]. by apply assoc_put_ne. Qed.

Lemma tput_obj k p x ps : exists ps', tput (k :: p) x (TObj ps) = TObj ps'.
Proof. cbn [tput]. destruct (assoc k ps); by eexists. Qed.

Lemma depth_put k x ps : (depth (TObj (put k x ps)) <= Nat.max (depth (TObj ps)) (S (depth x)))%nat.
Proof.
  cbn [depth]. assert (H : (foldr (fun p n => Nat.max (depth p.2) n) 0 (put k x ps) <=
    Nat.max (foldr (fun p n => Nat.max (depth p.2) n) 0 ps) (depth x))%nat); [|lia].
  induction ps as [|[k' y] ps IH]; cbn [put foldr snd]; [lia|]. case_bool_decide; cbn [foldr snd]; lia.
Qed.

Lemma depth_look p : forall t u, look t p = Some u -> (length p + depth u <= depth t)%nat.
Proof.
  induction p as [|k p IH]; intros t u; [by intros [= ->]|]. cbn [look length]. destruct (tget t k) as [w|] eqn:E; [|done].
  intros H%IH. destruct t as [| |ps]; [done..|]. cbn [tget] in E.
  pose proof (depth_child ps k w (pred (depth (TObj ps))) ltac:(cbn [depth]; lia) E). cbn [depth] in *. lia.
Qed.

Lemma depth_tput p x : forall t, (depth (tput p x t) <= Nat.max (depth t) (length p + depth x))%nat.
Proof.
  induction p as [|k p IH]; intros t; cbn [tput length]; [lia|]. destruct t as [| |ps]; [lia..|].
  destruct (assoc k ps) as [w|] eqn:E; [|lia]. pose proof (depth_put k (tput p x w) ps) as H. specialize (IH w).
  assert (Hw : look (TObj ps) [k] = Some w) by (cbn [look tget]; by rewrite E). apply depth_look in Hw. cbn [length] in Hw. lia.
Qed.

Lemma depth_leaves l : Forall leaf l -> (depth (TArr l) <= 1)%nat.
Proof. induction 1 as [|x l Hx _ IH]; [done|]. cbn [depth foldr] in *. destruct x; [|done..]. cbn [depth]. lia. Qed.

Lemma plug_step_depth s s' : plug_step s s' -> (depth s' <= Nat.max (depth s) 5)%nat.
Proof.
  intros [ns swa a l El Hl]. etransitivity; [apply depth_tput|]. apply depth_look in El. apply depth_leaves in Hl. cbn [length] in *.
  pose proof (depth_put a (TArr l) swa). lia.
Qed.

Lemma plug_steps_facts s s' : rtc plug_step s s' -> (shaped s -> shaped s') /\ (depth s' <= Nat.max (depth s) 5)%nat /\
  (forall k, k <> SP -> tget s' k = tget s k) /\ (forall ps, s = TObj ps -> exists ps', s' = TObj ps').
Proof.
  induction 1 as [s|s s1 s2 H1 _ (I1 & I2 & I3 & I4)]; [split; [done|split; [lia|split; [done|intros ps ->; by eexists]]]|].
  split; [|split; [|split]].
  - intros Hs. by apply I1, (plug_step_shaped s).
  - pose proof (plug_step_depth _ _ H1). lia.
  - intros k Hk. rewrite I3 by done. destruct H1. by apply tput_top.
  - intros ps ->. destruct H1 as [ns swa a l El Hl]. destruct (tput_obj SP [ns; WA] (TObj (put a (TArr l) swa)) ps) as [ps' E]. by apply (I4 ps').
Qed.

Lemma join_t_step ns was s a : entries_ok was -> wraps_ok s -> rtc plug_step s (join_t ns (was, s) a).2.
Proof.
  intros Hw Hs. unfold join_t. destruct (assoc a was) as [t|] eqn:E; [|apply rtc_refl]. cbn [snd].
  destruct (look s [SP; ns; WA]) as [[| |swa]|] eqn:El; try apply rtc_refl. destruct (assoc a swa) as [w|] eqn:Ea; [|apply rtc_refl].
  apply rtc_once. constructor; [done|]. apply list.Forall_app. split; [by apply (Hw a)|]. apply (Hs ns a). by rewrite look4, El.
Qed.

Lemma joins_step ns ks : forall was s, entries_ok was -> wraps_ok s -> rtc plug_step s (foldl (join_t ns) (was, s) ks).2.
Proof.
  induction ks as [|a ks IH]; intros was s Hw Hs; [apply rtc_refl|]. cbn [foldl]. destruct (join_t_ok ns was s a Hw Hs) as [Hw1 Hs1].
  etransitivity; [by apply (join_t_step ns was s a)|]. rewrite (surjective_pairing (join_t ns (was, s) a)). by apply IH.
Qed.

Lemma join_ns_step d s ns : wraps_ok d -> wraps_ok s -> rtc plug_step s (join_ns_t (d, s) ns).2.
Proof.
  intros Hd Hs. unfold join_ns_t. cbn [fst snd]. destruct (look d [SP; ns; WA]) as [[| |was]|] eqn:El; try apply rtc_refl.
  cbn [snd]. apply joins_step; [by apply (wraps_entries d ns)|done].
Qed.

(** ** Lookups in a merge *)

Lemma merge_fold_get es ks k : NoDup ks -> forall ds, assoc k (foldl (merge_step es) ds ks) =
  if bool_decide (k ∈ ks) then match assoc k es with Some e => Some (merge e (assoc k ds)) | None => assoc k ds end else assoc k ds.
Proof.
  induction 1 as [|k' ks Hk Hn IH]; intros ds; cbn [foldl]; [by rewrite bool_decide_eq_false_2 by apply not_elem_of_nil|].
  rewrite IH. unfold merge_step. destruct (decide (k = k')) as [->|Hne].
  - rewrite bool_decide_eq_false_2 by done. rewrite bool_decide_eq_true_2 by left. destruct (assoc k' es); [by rewrite assoc_put_eq|done].
  - rewrite (bool_decide_ext (k ∈ k' :: ks) (k ∈ ks)) by (rewrite elem_of_cons; tauto).
    destruct (assoc k' es); [by rewrite assoc_put_ne by done|done].
Qed.

Lemma merge_get es t k : NoDup es.*1 -> tget (merge (TObj es) t) k =
  let old := match t with Some d => tget d k | None => None end in
  match assoc k es with Some e => Some (merge e old) | None => old end.
Proof.
  intros Hn. rewrite merge_obj. cbn [tget]. rewrite merge_fold_get by (by apply obj_keys_nodup).
  assert (Ho : assoc k (match t with Some (TObj ds) => ds | _ => [] end) = match t with Some d => tget d k | None => None end)
    by (by destruct t as [[]|]).
  rewrite Ho. cbv zeta. case_bool_decide as Hb; [done|]. destruct (assoc k es) eqn:E; [|done].
  destruct Hb. apply elem_obj_keys, assoc_elem. by rewrite E.
Qed.

Lemma merge_leaf w t : Forall leaf (fns w) -> merge w t = w.
Proof.
  destruct w as [v|l|ps]; [done| |by intros [? _]%list.Forall_cons]. cbn [fns merge]. intros Hl. f_equal.
  induction Hl as [|x l Hx _ IH]; [done|]. cbn [map]. rewrite IH. by destruct x.
Qed.

(** ** [systemExtend] *)

(** What is known after some namespaces of the system. *)
Record joined_upto (ks : list jsstr) (d s d' s' : tree) : Prop := {
  ju_system ns a : fns <$> look d' [SP; ns; WA; a] = fns <$> look d [SP; ns; WA; a];
  ju_plugin ns a : look s' [SP; ns; WA; a] =
    if bool_decide (ns ∈ ks) then joined_entry (look d [SP; ns; WA; a]) (look s [SP; ns; WA; a]) else look s [SP; ns; WA; a];
  ju_steps : rtc plug_step s s';
  ju_rest k : k <> SP -> tget d' k = tget d k;
  ju_object ps : d = TObj ps -> exists ps', d' = TObj ps';
  ju_shape : obj_or_none (look d [SP]) -> obj_or_none (look d' [SP]);
  ju_inner ns : obj_or_none (look d [SP; ns]) -> obj_or_none (look d [SP; ns; WA]) -> obj_or_none (look d' [SP; ns]) /\ obj_or_none (look d' [SP; ns; WA])
}.

Lemma system_wraps d d' : (forall ns a, fns <$> look d' [SP; ns; WA; a] = fns <$> look d [SP; ns; WA; a]) -> wraps_ok d -> wraps_ok d'.
Proof.
  intros E Hd ns a t Ht. specialize (E ns a). rewrite Ht in E. destruct (look d [SP; ns; WA; a]) as [t'|] eqn:El; [|done].
  injection E as ->. by apply (Hd ns a).
Qed.

Lemma plugin_wraps d s s' : wraps_ok d -> wraps_ok s -> (forall ns a, look s' [SP; ns; WA; a] = look s [SP; ns; WA; a] \/
    look s' [SP; ns; WA; a] = joined_entry (look d [SP; ns; WA; a]) (look s [SP; ns; WA; a])) -> wraps_ok s'.
Proof.
  intros Hd Hs E ns a w. destruct (E ns a) as [->| ->]; [apply Hs|]. apply joined_entry_leaf; [intros t; apply Hd|intros t; apply Hs].
Qed.

(** The parts above the wrappers stay objects. *)
Lemma join_ns_top d s ns sps : look d [SP] = Some (TObj sps) -> (exists sps', look (join_ns_t (d, s) ns).1 [SP] = Some (TObj sps')) /\
  (forall k, k <> SP -> tget (join_ns_t (d, s) ns).1 k = tget d k) /\
  (forall ns', obj_or_none (look d [SP; ns']) -> obj_or_none (look d [SP; ns'; WA]) ->
     obj_or_none (look (join_ns_t (d, s) ns).1 [SP; ns']) /\ obj_or_none (look (join_ns_t (d, s) ns).1 [SP; ns'; WA])).
Proof.
  intros Hsp. unfold join_ns_t. cbn [fst snd]. destruct (look d [SP; ns; WA]) as [[| |was]|] eqn:El.
  1,2,4: split; [by eexists|by split]. cbn [fst]. set (x := TObj _). split; [|split].
  - cbn [look tput] in *. destruct d as [| |ps]; [done..|]. cbn [tget] in *. destruct (assoc SP ps) as [u|]; [|done]. injection Hsp as ->.
    cbn [tget]. rewrite assoc_put_eq. destruct (assoc ns sps); by eexists.
  - intros k Hk. by apply tput_top.
  - intros ns' H1 H2. cbn [look tput] in *. destruct d as [| |ps]; [done..|]. cbn [tget] in *. destruct (assoc SP ps) as [u|]; [|done].
    injection Hsp as ->. cbn [tget] in *. rewrite assoc_put_eq. destruct (assoc ns sps) as [u|] eqn:E2; [|done]. cbn [tget].
    destruct u as [| |rs]; [done..|]. cbn [tget] in *. destruct (assoc WA rs) eqn:E3; [|done].
    destruct (decide (ns' = ns)) as [->|Hns]; [|by rewrite assoc_put_ne]. rewrite assoc_put_eq. cbn [tget]. by rewrite assoc_put_eq.
Qed.

Lemma join_ns_object ps s ns : exists ps', (join_ns_t (TObj ps, s) ns).1 = TObj ps'.
Proof.
  unfold join_ns_t. cbn [fst snd]. destruct (look (TObj ps) [SP; ns; WA]) as [[| |was]|]; [by eexists|by eexists| |by eexists].
  apply tput_obj.
Qed.

Lemma beside_keys h d dest Fd s src Fs p was : beside h d dest Fd s src Fs -> look d p = Some (TObj was) -> NoDup was.*1.
Proof.
  intros Hb Hl. destruct (node_beside _ _ _ _ _ _ _ p _ Hb Hl) as (w & G & _ & (R & _) & _). by apply rep_ok_keys in R as [? _].
Qed.

Lemma join_all_spec src spv ks : NoDup ks -> forall h d dest Fd s Fs sps, beside h d dest Fd s src Fs ->
  walk h dest [SP] = Some spv -> look d [SP] = Some (TObj sps) -> wraps_ok d -> wraps_ok s ->
  let r := foldl join_ns_t (d, s) ks in
  exists h' Fd' Fs', each ks (join_namespace src spv) h = Done tt h' /\ beside h' r.1 dest Fd' r.2 src Fs' /\
    owns2 h Fd Fs h' Fd' Fs' /\ joined_upto ks d s r.1 r.2.
Proof.
  induction 1 as [|ns ks Hns Hn IH]; intros h d dest Fd s Fs sps Hb Hw Hsp Hd Hs r.
  - exists h, Fd, Fs. split; [done|]. split; [done|]. split; [apply owns2_refl|]. split; try done. intros ps ->. by eexists.
  - destruct (join_namespace_spec h d dest Fd s src Fs ns spv sps Hb Hw Hsp (fun was Hl => wraps_entries d ns was Hd Hl) Hs)
      as (h1 & F1 & G1 & E1 & B1 & O1 & W1).
    set (d1 := (join_ns_t (d, s) ns).1) in *. set (s1 := (join_ns_t (d, s) ns).2) in *.
    pose proof (fun ns' a => join_ns_look d s ns ns' a (fun was Hl => beside_keys _ _ _ _ _ _ _ _ was Hb Hl)) as Hlook.
    destruct (join_ns_top d s ns sps Hsp) as ((sps1 & Hsp1) & Htop & Hin). fold d1 in Hsp1, Htop, Hin.
    assert (Hd1 : wraps_ok d1) by (apply (system_wraps d); [intros; apply Hlook|done]).
    assert (Hs1 : wraps_ok s1).
    { apply (plugin_wraps d s); [done|done|]. intros ns' a. destruct (Hlook ns' a) as [_ E]. fold s1 in E. rewrite E.
      case_bool_decide; [subst; by right|by left]. }
    destruct (IH h1 d1 dest F1 s1 G1 sps1 B1 W1 Hsp1 Hd1 Hs1) as (h2 & F2 & G2 & E2 & B2 & O2 & [J1 J2 J3 J4 J7 J5 J6]).
    unfold r. cbn [foldl]. rewrite (surjective_pairing (join_ns_t (d, s) ns)). fold d1 s1.
    exists h2, F2, G2. cbn [each]. erewrite bind_Done by exact E1. split; [exact E2|]. split; [exact B2|]. split; [by eapply owns2_trans|].
    split.
    + intros ns' a. rewrite J1. apply Hlook.
    + intros ns' a. rewrite J2. destruct (Hlook ns' a) as [Hl1 Hl2]. fold d1 in Hl1. fold s1 in Hl2.
      rewrite (joined_entry_fns _ _ _ Hl1), Hl2. destruct (decide (ns' = ns)) as [->|Hne].
      * rewrite (bool_decide_eq_false_2 (ns ∈ ks)) by done. rewrite (bool_decide_eq_true_2 (ns = ns)) by done.
        by rewrite bool_decide_eq_true_2 by left.
      * rewrite (bool_decide_eq_false_2 (ns' = ns)) by done.
        rewrite (bool_decide_ext (ns' ∈ ns :: ks) (ns' ∈ ks)) by (rewrite elem_of_cons; tauto). done.
    + etransitivity; [by apply (join_ns_step d s ns)|done].
    + intros k Hk. rewrite J4 by done. by apply Htop.
    + intros ps ->. destruct (join_ns_object ps s ns) as [ps' E]. fold d1 in E. by apply (J7 ps').
    + intros _. apply J5. by rewrite Hsp1.
    + intros ns' H1 H2. destruct (Hin ns' H1 H2). by apply J6.
Qed.

(** A merge seen along a path of objects. *)
Fixpoint objs_along (s : tree) (p : list jsstr) : Prop :=
  match p with
  | [] => True
  | k :: p' =>
      match s with TObj es => NoDup es.*1 /\ match assoc k es with Some e => objs_along e p' | None => True end | _ => False end
  end.

Lemma merge_look p : forall s t, objs_along s p -> look (merge s t) p =
  let old := match t with Some d => look d p | None => None end in
  match look s p with Some w => Some (merge w old) | None => old end.
Proof.
  induction p as [|k p IH]; intros s t; [by destruct t|]. cbn [objs_along look]. destruct s as [| |es]; [done..|]. intros [Hn Ha].
  rewrite merge_get by done. cbn [tget]. cbv zeta. destruct (assoc k es) as [e|].
  - rewrite IH by done. cbv zeta. by destruct t as [d|]; [destruct (tget d k)|].
  - by destruct t.
Qed.

Lemma rep_look_keys h t v F p ps : rep h t v F -> look t p = Some (TObj ps) -> ok_keys ps.*1.
Proof.
  revert t v F. induction p as [|k p IH]; intros t v F Hr; cbn [look].
  - intros [= ->]. by apply rep_ok_keys in Hr.
  - destruct t as [| |qs]; [done..|]. cbn [tget]. destruct (assoc k qs) as [u|] eqn:E; [|done].
    inversion Hr; subst. destruct (rep_child _ _ _ _ _ _ Hr E) as (w & G & _ & R & _). by apply (IH u w G).
Qed.

Lemma shaped_along h s v F ss ns a : rep h s v F -> s = TObj ss -> shaped s -> objs_along s [SP; ns; WA; a].
Proof.
  intros Hr -> [H1 H2]. destruct (H2 ns) as [H3 H4].
  pose proof (fun p ps => rep_look_keys h (TObj ss) v F p ps Hr) as Hk. cbn [look objs_along] in *. split; [by apply (Hk [] ss)|].
  pose proof (Hk [SP]) as K1. pose proof (Hk [SP; ns]) as K2. pose proof (Hk [SP; ns; WA]) as K3. clear Hk. cbn [look] in *.
  destruct (assoc SP ss) as [u|] eqn:E1; [|done]. cbn [tget] in *. rewrite E1 in *. destruct u as [| |us]; [done..|].
  split; [by apply (K1 us)|]. cbn [tget] in *. destruct (assoc ns us) as [w|]; [|done]. destruct w as [| |ws]; [done..|].
  split; [by apply (K2 ws)|]. cbn [tget] in *. destruct (assoc WA ws) as [x|]; [|done]. destruct x as [| |xs]; [done..|].
  split; [by apply (K3 xs)|]. by destruct (assoc a xs).
Qed.

Lemma objs_along_prefix p q : forall s, objs_along s (p ++ q) -> objs_along s p.
Proof.
  induction p as [|k p IH]; intros s; [done|]. cbn [app objs_along]. destruct s as [| |es]; [done..|]. intros [? H]. split; [done|].
  destruct (assoc k es); [|done]. by apply IH.
Qed.

Definition wrappers (t : tree) (ns a : jsstr) : list tree := match look t [SP; ns; WA; a] with Some x => fns x | None => [] end.

(** The wrappers after the merge. *)
Lemma merged_wrappers d s d' s' : (forall ns a, objs_along s' [SP; ns; WA; a]) ->
  (forall ns a, fns <$> look d' [SP; ns; WA; a] = fns <$> look d [SP; ns; WA; a]) ->
  (forall ns a, look s' [SP; ns; WA; a] = joined_entry (look d [SP; ns; WA; a]) (look s [SP; ns; WA; a])) ->
  wraps_ok d -> wraps_ok s -> shaped d' -> shaped s' -> let m := merge s' (Some d') in
  (forall ns a, wrappers m ns a = wrappers d ns a ++ wrappers s ns a) /\ wraps_ok m /\ shaped m.
Proof.
  intros Hal Hd' Hs' Hd Hs [Sd1 Sd2] [Ss1 Ss2] m.
  assert (Hm : forall ns a, fns <$> look m [SP; ns; WA; a] =
    match look s [SP; ns; WA; a] with Some w => Some (wrappers d ns a ++ fns w) | None => fns <$> look d [SP; ns; WA; a] end).
  { intros ns a. unfold m. rewrite merge_look by apply Hal. cbv zeta. rewrite Hs'. pose proof (Hs ns a) as Hsw. pose proof (Hd ns a) as Hdw.
    unfold wrappers. destruct (look s [SP; ns; WA; a]) as [w|]; [|specialize (Hd' ns a); by destruct (look d [SP; ns; WA; a])].
    specialize (Hsw w eq_refl). destruct (look d [SP; ns; WA; a]) as [t|]; cbn [joined_entry].
    - specialize (Hdw t eq_refl). rewrite merge_leaf; [done|]. cbn [fns]. by apply list.Forall_app.
    - by rewrite merge_leaf. }
  split; [|split].
  - intros ns a. specialize (Hm ns a). unfold wrappers at 1 3. unfold wrappers in Hm.
    destruct (look m [SP; ns; WA; a]) as [x|], (look s [SP; ns; WA; a]) as [w|]; cbn [fmap option_fmap option_map] in Hm.
    + by injection Hm as ->.
    + destruct (look d [SP; ns; WA; a]) eqn:E; [|done]. injection Hm as ->. unfold wrappers. by rewrite E, app_nil_r.
    + done.
    + destruct (look d [SP; ns; WA; a]) eqn:E; [done|]. unfold wrappers. by rewrite E.
  - intros ns a x Hx. specialize (Hm ns a). rewrite Hx in Hm. pose proof (Hs ns a) as Hsw. pose proof (Hd ns a) as Hdw. unfold wrappers in Hm.
    destruct (look s [SP; ns; WA; a]) as [w|], (look d [SP; ns; WA; a]) as [t|]; cbn [fmap option_fmap option_map] in Hm; try done; injection Hm as ->; auto.
    apply list.Forall_app. auto.
  - assert (Ho : forall p, (exists ns a q, [SP; ns; WA; a] = p ++ q) -> obj_or_none (look d' p) -> obj_or_none (look s' p) -> obj_or_none (look m p)).
    { intros p (ns & a & q & Eq) H1 H2. unfold m. rewrite merge_look by (apply (objs_along_prefix p q); rewrite <- Eq; apply Hal). cbv zeta.
      destruct (look s' p) as [[| |es]|]; [done..| |done]. by rewrite merge_obj. }
    split; [apply (Ho [SP]); [exists [], [], [[]; WA; []]; done|done|done]|]. intros ns. destruct (Sd2 ns), (Ss2 ns).
    split; apply Ho; try done; [exists ns, [], [WA; []]; done|exists ns, [], [[]]; done].
Qed.

Definition WC : jsstr := js "wrapComponents".

(** A plugin object that wraps actions, and no components. *)
Record plugin_ok (n : nat) (s : tree) : Prop := {
  po_object : exists ps, s = TObj ps;
  po_wraps : wraps_ok s;
  po_shape : shaped s;
  po_components : tget s WC = None;
  po_depth : (depth s <= n)%nat
}.

(** A system under construction. *)
Record system_ok (d : tree) : Prop := {
  so_object : exists ps, d = TObj ps;
  so_wraps : wraps_ok d;
  so_shape : shaped d
}.

(** The part of [systemExtend] in front of the merge. *)
Lemma join_spec h d dest Fd s src Fs : beside h d dest Fd s src Fs -> system_ok d -> wraps_ok s ->
  exists h' Fd' Fs' d' s',
    (let! statePlugins := own dest SP in
     if isObject statePlugins then let! ks := keys statePlugins in each ks (join_namespace src statePlugins) else ret tt) h = Done tt h' /\
    beside h' d' dest Fd' s' src Fs' /\ owns2 h Fd Fs h' Fd' Fs' /\ rtc plug_step s s' /\ system_ok d' /\
    (forall ns a, fns <$> look d' [SP; ns; WA; a] = fns <$> look d [SP; ns; WA; a]) /\
    (forall ns a, look s' [SP; ns; WA; a] = joined_entry (look d [SP; ns; WA; a]) (look s [SP; ns; WA; a])) /\
    (forall k, k <> SP -> tget d' k = tget d k).
Proof.
  intros Hb [[ds Ed] Hdw [Sd1 Sd2]] Hs. pose proof Hb as (Rd & _).
  destruct (own_child h d dest Fd SP Rd) as (spv & Esp & Hsp); [rewrite Ed in Rd; by inversion Rd|]. erewrite bind_Done by exact Esp.
  destruct (tget d SP) as [u|] eqn:Et.
  - assert (Hl : look d [SP] = Some u) by (cbn [look]; by rewrite Et). rewrite Hl in Sd1. destruct u as [| |sps]; [done..|].
    destruct Hsp as (Wsp & G & Rsp & _). inversion Rsp as [| |b ps kvs Gb Eb Ekb Hokb Hrb]; subst. cbn [isObject].
    assert (Eks : keys (VRef b) h = Done (obj_keys sps) h).
    { unfold keys, cell, bind, ret. rewrite Eb. do 2 f_equal. by apply obj_keys_same. }
    erewrite bind_Done by exact Eks.
    destruct (join_all_spec src (VRef b) (obj_keys sps) (obj_keys_nodup _ (proj1 Hokb)) h (TObj ds) dest Fd s Fs sps Hb Wsp Hl Hdw Hs)
      as (h' & Fd' & Fs' & E & B & O & [J1 J2 J3 J4 J7 J5 J6]).
    set (r := foldl join_ns_t (TObj ds, s) (obj_keys sps)) in *. exists h', Fd', Fs', r.1, r.2. split; [exact E|]. split; [exact B|].
    split; [done|]. split; [done|]. split; [|split; [done|split; [|done]]].
    + split; [|by apply (system_wraps (TObj ds))|].
      * by apply (J7 ds).
      * split; [apply J5; by rewrite Hl|]. intros ns. destruct (Sd2 ns). by apply J6.
    + intros ns a. rewrite J2. case_bool_decide as Hin; [done|]. assert (look (TObj ds) [SP; ns; WA; a] = None) as ->.
      { cbn [look] in Hl |- *. destruct (tget (TObj ds) SP); [|done]. injection Hl as ->. cbn [tget].
        destruct (assoc ns sps) eqn:En; [|done]. destruct Hin. apply elem_obj_keys, assoc_elem. by rewrite En. }
      by destruct (look s [SP; ns; WA; a]).
  - subst spv. cbn [isObject]. exists h, Fd, Fs, d, s. split; [done|]. split; [done|]. split; [apply owns2_refl|]. split; [apply rtc_refl|].
    split; [split; [by eexists|done|done]|]. split; [done|]. split; [|done]. intros ns a. assert (look d [SP; ns; WA; a] = None) as -> by (cbn [look]; by rewrite Et).
    by destruct (look s [SP; ns; WA; a]).
Qed.

Lemma system_extend_spec n h d dest Fd s src Fs : beside h d dest Fd s src Fs -> system_ok d -> plugin_ok n s -> (5 <= n)%nat ->
  exists h' Fd' Fs' m, systemExtend n dest src h = Done dest h' /\ rep h' m dest Fd' /\ NoDup Fd' /\ owns2 h Fd Fs h' Fd' Fs' /\ system_ok m /\
    (forall ns a, wrappers m ns a = wrappers d ns a ++ wrappers s ns a) /\
    (forall k, k <> SP -> tget m k = match tget s k with Some e => Some (merge e (tget d k)) | None => tget d k end).
Proof.
  intros Hb Hd [[ss Es] Hs Ss Hwc Hde] Hn. pose proof Hb as (Rd & Rs & _). pose proof Hd as [[ds Ed] Hdw Sd].
  assert (Hv : exists a l, dest = VRef a /\ src = VRef l).
  { rewrite Ed in Rd. rewrite Es in Rs. inversion Rd; subst. inversion Rs; subst. by do 2 eexists. }
  destruct Hv as (a & l & -> & ->). unfold systemExtend. rewrite !bool_decide_eq_false_2 by done.
  erewrite bind_Done by reflexivity. erewrite bind_Done by reflexivity. cbn [isObject negb].
  assert (Ewc : wrap_components (VRef a) (VRef l) h = Done tt h).
  { unfold wrap_components. destruct (own_child h s (VRef l) Fs WC Rs eq_refl) as (x & Ex & Hx). rewrite Hwc in Hx. subst x.
    by erewrite bind_Done by exact Ex. }
  erewrite bind_Done by exact Ewc.
  destruct (join_spec h d (VRef a) Fd s (VRef l) Fs Hb Hd Hs) as (h1 & F1 & G1 & d1 & s1 & E1 & B1 & O1 & P1 & [[ds1 Ed1] Hw1 Sd1] & J1 & J2 & J3).
  rewrite <- bind_assoc. erewrite bind_Done by exact E1. destruct (plug_steps_facts _ _ P1) as (Q1 & Q2 & Q3 & Q4).
  destruct (Q4 ss Es) as [ss1 Es1]. specialize (Q1 Ss). pose proof B1 as (Rd1 & Rs1 & N1). pose proof N1 as (Nd1 & D1 & _)%list.NoDup_app.
  assert (HF1 : exists F, F1 = a :: F) by (rewrite Ed1 in Rd1; inversion Rd1; by eexists). destruct HF1 as [F ->].
  rewrite Ed1 in Rd1. rewrite Es1 in Rs1. destruct (proj1 (deep_extend_ok n) ss1 h1 a ds1 F (VRef l) G1) as (h2 & F2 & E2 & R2 & O2).
  { rewrite <- Es1. lia. }
  { done. }
  { done. }
  { done. }
  { intros x Hx1 Hx2. by apply (D1 x). }
  assert (Hal : forall ns b, objs_along s1 [SP; ns; WA; b]) by (intros; rewrite Es1 in Q1 |- *; by apply (shaped_along h1 _ (VRef l) G1 ss1)).
  destruct (merged_wrappers d s d1 s1 Hal J1 J2 Hdw Hs Sd1 Q1) as (M1 & M2 & M3). rewrite <- Ed1, <- Es1 in R2.
  exists h2, (a :: F2), G1, (merge s1 (Some d1)). split; [done|]. split; [done|]. split; [apply O2|]. split; [|split; [|split; [done|]]].
  - eapply owns2_trans; [exact O1|]. destruct O2 as [K Gr C N]. split; [auto|done|done|by left].
  - split; [rewrite Es1, merge_obj; by eexists|done|done].
  - intros k Hk. rewrite Es1. rewrite merge_get by (by apply (rep_look_keys h1 (TObj ss1) (VRef l) G1 [] ss1 Rs1)). cbv zeta.
    rewrite J3, <- Q3 by done. by rewrite Es1.
Qed.

Lemma fold_plugins n ts : forall h d dest Fd vs Fs, reps h ts vs Fs -> rep h d dest Fd -> NoDup (Fd ++ Fs) -> system_ok d ->
  Forall (plugin_ok n) ts -> (5 <= n)%nat -> exists h' Fd' m, foldM (systemExtend n) dest vs h = Done dest h' /\ rep h' m dest Fd' /\
    system_ok m /\ (forall ns a, wrappers m ns a = wrappers d ns a ++ List.concat (map (fun t => wrappers t ns a) ts)).
Proof.
  induction ts as [|t ts IH]; intros h d dest Fd vs Fs Hr Rd Hn Hd Hts Hn5; inversion Hr as [|? v F ? vs' F' R1 R2]; subst.
  - exists h, Fd, d. split; [done|]. split; [done|]. split; [done|]. intros ns a. by rewrite app_nil_r.
  - apply list.Forall_cons in Hts as [Ht Hts]. rewrite app_assoc in Hn. apply list.NoDup_app in Hn as (Nf & Df & N').
    destruct (system_extend_spec n h d dest Fd t v F) as (h1 & F1 & G1 & m1 & E1 & Rm1 & Nm1 & O1 & S1 & W1 & _); [by split|done|done|done|].
    destruct O1 as [K Gr CL CR].
    destruct (IH h1 m1 dest F1 vs' F') as (h2 & F2 & m2 & E2 & Rm2 & S2 & W2); [|done| |done|done|done|].
    + eapply reps_frame; [exact R2|]. intros l Hl. apply K; [exact (reps_dom _ _ _ _ R2 l Hl)| |]; intros Hl2; apply (Df l); [|done| |done];
        rewrite elem_of_app; auto.
    + apply list.NoDup_app. split; [done|]. split; [|done]. intros l [Hl|Hl]%CL Hl2.
      * apply (Df l); [rewrite elem_of_app; auto|done].
      * pose proof (reps_dom _ _ _ _ R2 l Hl2). lia.
    + exists h2, F2, m2. cbn [foldM]. erewrite bind_Done by exact E1. split; [exact E2|]. split; [done|]. split; [done|].
      intros ns a. rewrite W2, W1. cbn [map List.concat]. by rewrite app_assoc.
Qed.

(** ** Properties *)

Section Load.
Context `{JsCall}.

(** Plugin objects are taken as they are. *)
Lemma combine_objects n fuel toolbox ts : forall h vs F, reps h ts vs F -> Forall (fun t => exists ps, t = TObj ps) ts ->
  mapM (fun p => combinePlugins n (S fuel) p toolbox) vs h = Done vs h.
Proof.
  induction ts as [|t ts IH]; intros h vs F Hr Ho; inversion Hr as [|? v F1 ? vs' F2 R1 R2]; subst; [done|].
  apply list.Forall_cons in Ho as [[ps ->] Ho]. inversion R1 as [| |l ps' kvs F' El Ek Hok Hrs]; subst. cbn [mapM].
  assert (E : combinePlugins n (S fuel) (VRef l) toolbox h = Done (VRef l) h).
  { cbn [combinePlugins]. unfold is_array, cell, bind, ret. rewrite El. done. }
  erewrite bind_Done by exact E. by erewrite bind_Done by (by eapply IH).
Qed.

Lemma combine_array n fuel toolbox h l vs ts F : h !! l = Some (OArr vs) -> reps h ts vs F -> NoDup F -> Forall (plugin_ok n) ts ->
  (5 <= n)%nat -> exists h' G m, combinePlugins n (S (S fuel)) (VRef l) toolbox h = Done (VRef (length h)) h' /\
    rep h' m (VRef (length h)) G /\ wraps_ok m /\ forall ns a, wrappers m ns a = List.concat (map (fun t => wrappers t ns a) ts).
Proof.
  intros El Hr Hn Hts Hn5. change (combinePlugins n (S (S fuel)) (VRef l) toolbox h) with
    ((let! arr := is_array (VRef l) in
      if isObject (VRef l) && negb arr then ret (VRef l)
      else if is_fn (VRef l) then let! p := js_call (VRef l) [toolbox] in combinePlugins n (S fuel) p toolbox
      else if arr then
        let! l := elements (VRef l) in
        let! ps := mapM (fun p => combinePlugins n (S fuel) p toolbox) l in
        let! empty := new (OObj []) in
        foldM (systemExtend n) empty ps
      else new (OObj [])) h).
  rewrite (bind_Done _ _ _ true h) by (unfold is_array, cell, bind, ret; by rewrite El). cbn [isObject negb andb is_fn].
  rewrite (bind_Done _ _ _ vs h) by (unfold elements, cell, bind, ret; by rewrite El).
  erewrite bind_Done by (eapply combine_objects; [exact Hr|]; eapply list.Forall_impl; [exact Hts|]; by intros t [? _ _ _ _]).
  erewrite bind_Done by apply new_spec.
  destruct (fold_plugins n ts (h ++ [OObj []]) (TObj []) (VRef (length h)) [length h] vs F) as (h' & G & m & E & R & [_ Hw _] & W).
  - eapply reps_frame; [exact Hr|]. intros x Hx. apply lookup_app_l. exact (reps_dom _ _ _ _ Hr x Hx).
  - apply rep_new_obj.
  - apply list.NoDup_app. split; [apply NoDup_singleton|]. split; [|done]. intros x ->%list_elem_of_singleton Hx.
    pose proof (reps_dom _ _ _ _ Hr _ Hx). lia.
  - by split; [eexists|intros ns a w|split].
  - done.
  - done.
  - exists h', G, m. by repeat split.
Qed.
End Load.

Lemma leaf_values h l vs F : Forall leaf l -> reps h l vs F -> l = TVal <$> vs.
Proof.
  intros Hl. revert vs F. induction Hl as [|x l Hx _ IH]; intros vs F Hr; inversion Hr as [|? v F1 ? vs' F2 R1 R2]; subst; [done|].
  destruct x; [|done..]. inversion R1; subst. rewrite fmap_cons. f_equal. by eapply IH.
Qed.

(** The functions that the store finds as the wrappers of an action. *)
Lemma wrappers_read h m v G ns a : rep h m v G -> wraps_ok m -> wrappers m ns a <> [] -> exists w fs,
  chain v [SP; ns; WA; a] h = Done w h /\ vtrue w = true /\ elements w h = Done fs h /\ TVal <$> fs = wrappers m ns a.
Proof.
  intros R Hm Hne. destruct (chain_spec [SP; ns; WA; a] h m v G R) as (w & Ew & Hw). unfold wrappers in Hne |- *.
  destruct (look m [SP; ns; WA; a]) as [t|] eqn:El; [|done]. destruct Hw as (_ & Gw & Rw & _). pose proof (Hm ns a t El) as Ht.
  destruct (entry_elements _ _ _ _ Rw Ht) as (fs & Efs & Hfs). exists w, fs. split; [done|]. split; [by eapply entry_true|]. split; [done|].
  symmetry. exact (leaf_values h _ _ _ Ht (Hfs h)).
Qed.

(** A wrapped action does not throw. *)
Lemma wrapped_returns `{JsWrap} wrap fn action args h e h' : wrap_action (wrap ++ [fn]) action args h <> Raise e h'.
Proof. unfold wrap_action. rewrite foldl_app. cbn [foldl]. unfold try_call. by destruct (wrap_call _ _ _ _). Qed.

(** C21: Loading an array of plugin objects, which share no objects and wrap no components, ends,
    and for every action of every namespace the system holds the wrappers of all the plugins
    in the order of loading, so that the wrapper of the plugin loaded last is the outermost one. *)
Theorem wrappers_in_load_order (call : JsCall) n fuel toolbox h l vs ts F :
  h !! l = Some (OArr vs) -> reps h ts vs F -> NoDup F -> Forall (plugin_ok n) ts -> (5 <= n)%nat ->
  exists h' system, combinePlugins n (S (S fuel)) (VRef l) toolbox h = Done system h' /\
    forall ns a, let ws := List.concat (map (fun t => wrappers t ns a) ts) in ws <> [] ->
      exists w fs, chain system [SP; ns; WA; a] h' = Done w h' /\ vtrue w = true /\ elements w h' = Done fs h' /\ TVal <$> fs = ws.
Proof.
  intros El Hr Hn Hts Hn5. destruct (combine_array n fuel toolbox h l vs ts F El Hr Hn Hts Hn5) as (h' & G & m & E & R & Hw & W).
  exists h', (VRef (length h)). split; [done|]. intros ns a ws Hne. unfold ws in *. rewrite <- W in Hne |- *.
  by apply (wrappers_read h' m (VRef (length h)) G).
Qed.

(** Two plugins that wrap one action, and their heap. *)
Definition ex_fn (s : string) : value := VFunc [] (js s).
Definition ex_plugin (w : string) : tree :=
  TObj [(SP, TObj [(js "spec", TObj [(WA, TObj [(js "updateSpec", TVal (ex_fn w))])])])].
Definition ex_cells (at_ : nat) (w : string) : list obj :=
  [OObj [(SP, VRef (at_ + 1))]; OObj [(js "spec", VRef (at_ + 2))]; OObj [(WA, VRef (at_ + 3))]; OObj [(js "updateSpec", ex_fn w)]].
Definition ex_plugins : heap := ex_cells 0 "first" ++ ex_cells 4 "second" ++ [OArr [VRef 0; VRef 4]].

Lemma ok_keys_single k : k <> js "__proto__" -> ok_keys [k].
Proof. intros Hk. split; [apply NoDup_singleton|]. by intros E%list_elem_of_singleton. Qed.

Lemma rep_single h l k t v F : k <> js "__proto__" -> h !! l = Some (OObj [(k, v)]) -> rep h t v F -> rep h (TObj [(k, t)]) (VRef l) (l :: F).
Proof.
  intros Hk El R. eapply rep_obj; [exact El|done|by apply ok_keys_single|]. rewrite <- (app_nil_r F). by apply (reps_cons h t v F); [|constructor].
Qed.

Lemma ex_plugin_rep h at_ w : (forall i o, ex_cells at_ w !! i = Some o -> h !! (at_ + i)%nat = Some o) ->
  rep h (ex_plugin w) (VRef at_) [at_; at_ + 1; at_ + 2; at_ + 3]%nat.
Proof.
  intros Hh. apply (rep_single h at_ SP _ (VRef (at_ + 1))); [done|rewrite <- (Nat.add_0_r at_) at 1; by apply (Hh 0%nat)|].
  apply (rep_single h (at_ + 1) (js "spec") _ (VRef (at_ + 2))); [done|by apply (Hh 1%nat)|].
  apply (rep_single h (at_ + 2) WA _ (VRef (at_ + 3))); [done|by apply (Hh 2%nat)|].
  apply (rep_single h (at_ + 3) (js "updateSpec") _ (ex_fn w)); [done|by apply (Hh 3%nat)|]. by constructor.
Qed.

Lemma single_get k k' (x t : tree) : tget (TObj [(k, x)]) k' = Some t -> t = x.
Proof. cbn [tget assoc]. case_bool_decide; [by intros [= ->]|done]. Qed.

Lemma ex_plugin_ok w : plugin_ok 6 (ex_plugin w).
Proof.
  split; [by eexists| | |done|cbn; lia].
  - intros ns a x. unfold ex_plugin. cbn [look]. destruct (tget _ SP) as [u|] eqn:E1; [|done]. apply single_get in E1 as ->.
    destruct (tget _ ns) as [u|] eqn:E2; [|done]. apply single_get in E2 as ->. destruct (tget _ WA) as [u|] eqn:E3; [|done].
    apply single_get in E3 as ->. destruct (tget _ a) as [u|] eqn:E4; [|done]. apply single_get in E4 as ->.
    intros [= <-]. by repeat constructor.
  - split; [done|]. intros ns. unfold ex_plugin. cbn [look]. destruct (tget _ SP) as [u|] eqn:E1; [|done]. apply single_get in E1 as ->.
    destruct (tget _ ns) as [u|] eqn:E2; [|done]. apply single_get in E2 as ->. split; [done|]. destruct (tget _ WA) as [u|] eqn:E3; [|done].
    by apply single_get in E3 as ->.
Qed.

Definition no_call : JsCall := fun _ _ => ret VUndef.

Lemma wrappers_in_load_order_witness :
  exists h' system, @combinePlugins 6 no_call 2 (VRef 8) VUndef ex_plugins = Done system h' /\
    exists w fs, chain system [SP; js "spec"; WA; js "updateSpec"] h' = Done w h' /\ elements w h' = Done fs h' /\
      fs = [ex_fn "first"; ex_fn "second"].
Proof.
  destruct (wrappers_in_load_order no_call 6 0 VUndef ex_plugins 8 [VRef 0; VRef 4] [ex_plugin "first"; ex_plugin "second"]
    ([0; 1; 2; 3] ++ [4; 5; 6; 7] ++ [])%nat) as (h' & system & E & W).
  - reflexivity.
  - apply reps_cons; [|apply reps_cons; [|constructor]].
    + apply (ex_plugin_rep ex_plugins 0). intros i o. do 4 (destruct i as [|i]; [by intros [= <-]|]). done.
    + apply (ex_plugin_rep ex_plugins 4). intros i o. do 4 (destruct i as [|i]; [by intros [= <-]|]). done.
  - vm_decide.
  - constructor; [apply ex_plugin_ok|]. constructor; [apply ex_plugin_ok|constructor].
  - lia.
  - exists h', system. split; [exact E|]. destruct (W (js "spec") (js "updateSpec")) as (w & fs & E1 & _ & E2 & E3); [discriminate|].
    exists w, fs. split; [exact E1|]. split; [exact E2|]. destruct fs as [|f [|g [|x fs]]]; try discriminate E3.
    injection E3 as -> ->. reflexivity.
Defined.

(** ** What loading leaves in the plugins *)

(** Two stores that load the same plugins one after the other: a plugin function returns a new
    object each time, whose parts are objects of its module. *)
Definition shared_heap : heap :=
  [OObj [(js "Info", ex_fn "WrappedInfo")]; OObj [(js "Info", ex_fn "Info")]; OObj [(js "a", ex_fn "w1")]; OObj [(js "a", ex_fn "w2")];
   OArr [ex_fn "core"; ex_fn "wrap"; ex_fn "p1"; ex_fn "p2"]; OObj [(js "plugins", VRef 4)]].

Definition with_actions (l : nat) : M heap value :=
  let! n := new (OObj [(WA, VRef l)]) in let! s := new (OObj [(js "spec", n)]) in new (OObj [(SP, s)]).

Definition shared_call : JsCall := fun f _ =>
  if bool_decide (f = ex_fn "core") then new (OObj [(js "components", VRef 1)])
  else if bool_decide (f = ex_fn "wrap") then new (OObj [(WC, VRef 0)])
  else if bool_decide (f = ex_fn "p1") then with_actions 2
  else with_actions 3.

Definition loaded (this : value) : M heap (list value * list value) :=
  let! c := chain this [js "system"; js "components"; js "Info"] in
  let! cs := elements c in
  let! a := chain this [js "system"; SP; js "spec"; WA; js "a"] in
  let! l := elements a in ret (cs, l).

(** The second store has lost the wrapper of the component, and has the first wrapper of the
    action twice. *)
Example second_store_differs :
  match (let! s1 := @Store 10 shared_call 5 (VRef 5) in let! x := loaded s1 in
         let! s2 := @Store 10 shared_call 5 (VRef 5) in let! y := loaded s2 in ret (x, y)) shared_heap with
  | Done (x, y) _ =>
      x = ([ex_fn "Info"; ex_fn "WrappedInfo"], [ex_fn "w1"; ex_fn "w2"]) /\
      y = ([ex_fn "Info"], [ex_fn "w1"; ex_fn "w1"; ex_fn "w2"])
  | _ => False
  end.
Proof. vm_compute. by split. Qed.

(** Plugins without [afterLoad] make the system be built twice: the array of the answers counts
    as true. *)
Example built_twice :
  match (let! a := new (OArr []) in let! sys := new (OObj []) in let! this := new (OObj [(js "system", sys)]) in
         @register 5 no_call 3 this a true VUndef) [] with
  | Done n _ => n = 2%nat
  | _ => False
  end.
Proof. vm_compute. reflexivity. Qed.
