(* ===== verification/SuiConfig.v ===== *)
(** Swagger UI: the configuration a page is started with.  The options of the caller, the query of
    the page, a configuration that was fetched and one that is built in are merged by deep-extend, on
    the heap of the objects they are. *)
From S2P Require Import Prelude JsString JsNumber YamlValue YamlTypes YamlLoader SuiPlugins SuiTrees SuiPluginLaws.

(** ** Object literals *)

(** The value of a literal: its parts are made first. *)
Fixpoint literal (t : tree) : M heap value :=
  match t with
  | TVal v => ret v
  | TArr l => let! vs := mapM literal l in new (OArr vs)
  | TObj ps =>
      let! kvs := mapM (fun p => match p with (k, x) => let! v := literal x in ret (k, v) end) ps in
      new (OObj kvs)
  end.

Abbreviation text s := (TVal (VStr (js s))).

(** The defaults of [SwaggerUI]; the functions are those of the file. *)
Definition defaults (requestInterceptor responseInterceptor apis : value) : list (jsstr * tree) :=
  [(js "dom_id", TVal VNull); (js "domNode", TVal VNull); (js "spec", TObj []); (js "url", text ""); (js "urls", TVal VNull);
   (js "layout", text "BaseLayout"); (js "docExpansion", text "list"); (js "maxDisplayedTags", TVal VNull); (js "filter", TVal VNull);
   (js "validatorUrl", text "https://online.swagger.io/validator"); (js "configs", TObj []); (js "custom", TObj []);
   (js "displayOperationId", TVal (VBool false)); (js "displayRequestDuration", TVal (VBool false)); (js "deepLinking", TVal (VBool false));
   (js "requestInterceptor", TVal requestInterceptor); (js "responseInterceptor", TVal responseInterceptor);
   (js "showMutatedRequest", TVal (VBool true)); (js "defaultModelRendering", text "example");
   (js "defaultModelExpandDepth", TVal (VNum (of_Z 1))); (js "defaultModelsExpandDepth", TVal (VNum (of_Z 1)));
   (js "showExtensions", TVal (VBool false)); (js "showCommonExtensions", TVal (VBool false));
   (js "supportedSubmitMethods", TArr [text "get"; text "put"; text "post"; text "delete"; text "options"; text "head"; text "patch"; text "trace"]);
   (js "presets", TArr [TVal apis]); (js "plugins", TArr []); (js "initialState", TObj []); (js "fn", TObj []); (js "components", TObj [])].

(** The configuration that is built in. *)
Definition swaggerConfig : jsstr :=
  js "---" ++ 10 :: js "url: " ++ 34 :: js "https://petstore.swagger.io/v2/swagger.json" ++ 34 :: 10 ::
  js "dom_id: " ++ 34 :: js "#swagger-ui" ++ 34 :: 10 :: js "validatorUrl: " ++ 34 :: js "https://online.swagger.io/validator" ++ 34 :: 10 ::
  js "oauth2RedirectUrl: " ++ 34 :: js "http://localhost:3200/oauth2-redirect.html" ++ [34; 10].

(** [getLocalConfig()] *)
Definition getLocalConfig (dateString : Z -> jsstr) (bi : builtins) : value * heap :=
  match safeLoad dateString bi swaggerConfig false false false with
  | Done v s => (v, l_heap s)
  | Raise _ _ | NoFuel => (VRef 0, [OObj []])
  end.

Section Config.
(** The fuel of [deepExtend]. *)
Context (fuel : nat) (requestInterceptor responseInterceptor apis : value).

(** [deepExtend(target, ...sources)]: a source that is no plain object is left out. *)
Definition extend_one (target u : value) : M heap unit :=
  let! o := cell u in
  match o with Some (OObj _) => let! _ := deepExtend fuel target u in ret tt | _ => ret tt end.
Definition extend_all (target : value) (sources : list value) : M heap value :=
  do! each sources (extend_one target);
  ret target.

(** [constructorConfig], and the [domNode] that was taken out of the options. *)
Definition constructor_config (opts queryConfig : value) : M heap (value * value) :=
  let! d := literal (TObj (defaults requestInterceptor responseInterceptor apis)) in
  let! domNode := field opts (js "domNode") in
  do! del_field opts (js "domNode");
  let! target := new (OObj []) in
  let! c := extend_all target [d; opts; queryConfig] in
  ret (c, domNode).

(** [mergedConfig] of [downloadSpec(fetchedConfig)]. *)
Definition merged_config (localConfig constructorConfig fetchedConfig queryConfig domNode : value) : M heap value :=
  let! target := new (OObj []) in
  let! fetched := (if vtrue fetchedConfig then ret fetchedConfig else new (OObj [])) in
  let! merged := extend_all target [localConfig; constructorConfig; fetched; queryConfig] in
  do! (if vtrue domNode then set_field merged (js "domNode") domNode else ret tt);
  ret merged.

(** The state the store starts with: undefined members of [initialState] take the defaults away. *)
Definition initial_state (constructorConfig : value) : M heap value :=
  let! layout := own constructorConfig (js "layout") in
  let! filter := own constructorConfig (js "filter") in
  let! url := own constructorConfig (js "url") in
  let! initialState := own constructorConfig (js "initialState") in
  let! l := new (OObj [(js "layout", layout); (js "filter", filter)]) in
  let! s := new (OObj [(js "spec", VStr []); (js "url", url)]) in
  let! state := new (OObj [(js "layout", l); (js "spec", s)]) in
  let! state := extend_all state [initialState] in
  let! ks := keys initialState in
  do! each ks (fun key =>
    let! x := own initialState key in
    if bool_decide (x = VUndef) then del_field state key else ret tt);
  ret state.

(** [new Store(storeConfigs)] and the registration of the plugins of the options; [inline] is the
    value of [inlinePlugin]. *)
Context `{JsCall}.

Definition start_store (constructorConfig inline : value) : M heap value :=
  let! configs := own constructorConfig (js "configs") in
  let! system := new (OObj [(js "configs", configs)]) in
  let! presets := own constructorConfig (js "presets") in
  let! state := initial_state constructorConfig in
  let! opts := new (OObj [(js "system", system); (js "plugins", presets); (js "state", state)]) in
  let! store := Store fuel fuel opts in
  let! plugins := own constructorConfig (js "plugins") in
  let! l := new (OArr [plugins; inline]) in
  let! bound := own store (js "boundSystem") in
  let! _ := register fuel fuel store l true bound in
  ret store.
End Config.

(** ** Literals on the heap *)

#[warnings="-register-all"]
Inductive made_of_data : tree -> Prop :=
  | data_val v : scalar v -> made_of_data (TVal v)
  | data_arr l : Forall made_of_data l -> made_of_data (TArr l)
  | data_obj ps : ok_keys ps.*1 -> Forall made_of_data ps.*2 -> made_of_data (TObj ps).

Definition builds (f : M heap value) (t : tree) : Prop :=
  forall h, exists h' v F, f h = Done v h' /\ rep h' t v F /\ owns h [] h' F.

Lemma builds_all (f : tree -> M heap value) ts : Forall (fun t => builds (f t) t) ts ->
  forall h, exists h' vs F, mapM f ts h = Done vs h' /\ reps h' ts vs F /\ owns h [] h' F.
Proof.
  induction 1 as [|t ts Ht _ IH]; intros h.
  - exists h, [], []. split; [done|]. split; [constructor|]. apply owns_refl. constructor.
  - destruct (Ht h) as (h1 & v & F & E1 & R1 & O1). destruct (IH h1) as (h2 & vs & G & E2 & R2 & O2).
    exists h2, (v :: vs), (F ++ G). cbn [mapM]. erewrite bind_Done by exact E1. erewrite bind_Done by exact E2. split; [done|].
    by eapply reps_fresh_cons.
Qed.

Lemma literal_members ps h vs h' : mapM literal ps.*2 h = Done vs h' ->
  mapM (B := jsstr * value) (fun p => match p with (k, x) => let! v := literal x in ret (k, v) end) ps h = Done (zip ps.*1 vs) h'.
Proof.
  revert h vs. induction ps as [|[k x] ps IH]; intros h vs; [by intros [= <- <-]|]. rewrite !fmap_cons. cbn [mapM fst snd].
  unfold bind at 1. destruct (literal x h) as [v h1| |] eqn:E1; [|done|done]. unfold bind at 1.
  destruct (mapM literal ps.*2 h1) as [vs' h2| |] eqn:E2; [|done|done]. intros [= <- <-].
  erewrite bind_Done by (erewrite bind_Done by exact E1; reflexivity). by erewrite bind_Done by exact (IH _ _ E2).
Qed.

Lemma reps_length h ts vs F : reps h ts vs F -> length vs = length ts.
Proof. induction 1; cbn; congruence. Qed.

Lemma owns_cell h h' F o : owns h [] h' F -> (forall l, l ∈ F -> (l < length h')%nat) -> owns h [] (h' ++ [o]) (length h' :: F).
Proof.
  intros [K G C N] Hd. split.
  - intros l Hl _. rewrite lookup_app_l by lia. apply K; [done|apply not_elem_of_nil].
  - rewrite length_app. lia.
  - intros l [->|Hl]%elem_of_cons; [by right|by apply C].
  - apply list.NoDup_cons. split; [|done]. intros Hl. specialize (Hd _ Hl). lia.
Qed.

(** A literal is the tree it says, in cells of its own. *)
Lemma literal_builds n : forall t, (depth t <= n)%nat -> made_of_data t -> builds (literal t) t.
Proof.
  induction n as [|n IH]; intros t Hd Ht h.
  - destruct t; cbn [depth] in Hd; [|lia|lia]. inversion Ht; subst. exists h, v, []. split; [done|]. split; [by constructor|].
    apply owns_refl. constructor.
  - destruct Ht as [v Hv|l Hl|ps Hk Hl].
    + exists h, v, []. split; [done|]. split; [by constructor|]. apply owns_refl. constructor.
    + destruct (builds_all literal l) with h as (h1 & vs & F & E & R & O).
      { apply list.Forall_forall. intros t Hin. apply IH; [by eapply depth_elem|]. rewrite list.Forall_forall in Hl. by apply Hl. }
      cbn [literal]. erewrite bind_Done by exact E. rewrite new_spec. eexists _, _, _. split; [done|].
      split; [|apply owns_cell; [exact O|by eapply reps_dom]].
      econstructor; [apply (list_lookup_middle h1 []); reflexivity|]. eapply owns_reps; [apply owns_new|done|]. intros; apply not_elem_of_nil.
    + destruct (builds_all literal ps.*2) with h as (h1 & vs & F & E & R & O).
      { apply list.Forall_forall. intros t Hin. rewrite list.Forall_forall in Hl. apply IH; [|by apply Hl].
        clear -Hd Hin. induction ps as [|[k x] ps IH]; [by apply elem_of_nil in Hin|]. cbn [depth foldr snd] in Hd.
        rewrite fmap_cons in Hin. apply elem_of_cons in Hin as [->|Hin]; [cbn [snd]; lia|]. apply IH; [cbn [depth]; lia|done]. }
      cbn [literal]. erewrite bind_Done by (by apply literal_members). rewrite new_spec. eexists _, _, _. split; [done|].
      pose proof (reps_length _ _ _ _ R) as El. rewrite length_fmap in El.
      split; [|apply owns_cell; [exact O|by eapply reps_dom]]. econstructor.
      * apply (list_lookup_middle h1 []). reflexivity.
      * apply fst_zip. rewrite length_fmap. lia.
      * done.
      * rewrite snd_zip by (rewrite length_fmap; lia). eapply owns_reps; [apply owns_new|done|]. intros; apply not_elem_of_nil.
Qed.

(** ** Merging *)

Lemma merge_depth n : forall e t, (depth e <= n)%nat -> (forall t', t = Some t' -> (depth t' <= n)%nat) -> (depth (merge e t) <= n)%nat.
Proof.
  induction n as [|n IH]; intros e t He Ht; [destruct e; cbn [depth] in He; cbn; lia|]. destruct e as [v|l|es].
  - cbn. lia.
  - cbn [merge depth]. assert (H : Forall (fun x => (depth x <= n)%nat) l)
      by (apply list.Forall_forall; intros x Hx; by eapply depth_elem). clear He.
    assert (Hl : (foldr (fun x m => Nat.max (depth x) m) 0 (map (fun x => merge x None) l) <= n)%nat); [|lia].
    induction H as [|x l Hx _ IHl]; cbn [map foldr]; [lia|]. pose proof (IH x None Hx ltac:(done)). lia.
  - rewrite merge_obj. assert (Hb : (depth (TObj (match t with Some (TObj ds) => ds | _ => [] end)) <= S n)%nat).
    { destruct t as [[| |ds]|]; try (cbn; lia). by apply Ht. }
    revert Hb. generalize (match t with Some (TObj ds) => ds | _ => [] end) as ds.
    induction (obj_keys es) as [|k ks IHk]; intros ds Hb; [done|]. cbn [foldl]. apply IHk. unfold merge_step.
    destruct (assoc k es) as [e|] eqn:E; [|done]. pose proof (depth_put k (merge e (assoc k ds)) ds).
    assert (depth (merge e (assoc k ds)) <= n)%nat; [|lia]. apply IH; [exact (depth_child es k e n He E)|].
    intros t' Et'. exact (depth_child ds k t' n Hb Et').
Qed.

(** The trees of some sources merged over a tree. *)
Definition layers (t : tree) (es : list (list (jsstr * tree))) : tree := foldl (fun t e => merge (TObj e) (Some t)) t es.

Lemma layers_obj ds es : exists ps, layers (TObj ds) es = TObj ps.
Proof.
  revert ds. induction es as [|e es IH]; intros ds; [by eexists|]. cbn [layers foldl]. rewrite merge_obj. apply IH.
Qed.

Lemma layers_depth n es t : (depth t <= n)%nat -> Forall (fun e => (depth (TObj e) <= n)%nat) es -> (depth (layers t es) <= n)%nat.
Proof.
  intros Ht HF. revert t Ht. induction HF as [|e es He _ IH]; intros t Ht; [done|]. cbn [layers foldl]. apply IH, merge_depth; [done|].
  by intros t' [= <-].
Qed.

(** What a key has in the last of the sources that has it. *)
Definition last_given (k : jsstr) (es : list (list (jsstr * tree))) : option tree :=
  foldl (fun t e => match assoc k e with Some x => Some x | None => t end) None es.

(** A plain value of the last source that has the key wins. *)
Lemma layers_get k x es t : Forall (fun e => NoDup e.*1) es ->
  foldl (fun t e => match assoc k e with Some y => Some y | None => t end) (tget t k) es = Some (TVal x) -> tget (layers t es) k = Some (TVal x).
Proof.
  intros HF. revert t. induction es as [|e es IH] using rev_ind; intros t; [done|]. apply list.Forall_app in HF as [HF He].
  inversion He; subst. unfold layers. rewrite !foldl_app. cbn [foldl]. rewrite merge_get by done. cbv zeta.
  destruct (assoc k e) as [y|]; [by intros [= ->]|]. by apply IH.
Qed.

Section Merged.
Context (fuel : nat) (requestInterceptor responseInterceptor apis : value).

Lemma extend_all_spec sources es : forall h a ds Fd, rep h (TObj ds) (VRef a) (a :: Fd) -> NoDup (a :: Fd) ->
  Forall2 (fun u e => exists Fs, rep h (TObj e) u Fs /\ (forall l, l ∈ Fs -> l ∉ a :: Fd)) sources es ->
  Forall (fun e => (depth (TObj e) <= fuel)%nat) es ->
  exists h' F', extend_all fuel (VRef a) sources h = Done (VRef a) h' /\ rep h' (layers (TObj ds) es) (VRef a) (a :: F') /\
    owns h (a :: Fd) h' (a :: F').
Proof.
  intros h a ds Fd Hr Hn H2 Hd.
  assert (H : exists h' F', each sources (extend_one fuel (VRef a)) h = Done tt h' /\
    rep h' (layers (TObj ds) es) (VRef a) (a :: F') /\ owns h (a :: Fd) h' (a :: F')).
  2:{ destruct H as (h' & F' & E & H'). exists h', F'. unfold extend_all. by erewrite bind_Done by exact E. }
  revert sources h ds Fd Hr Hn H2. induction Hd as [|e es He _ IH]; intros sources h ds Fd Hr Hn H2.
  - apply Forall2_nil_inv_r in H2 as ->. exists h, Fd. split; [done|]. split; [done|]. by apply owns_refl.
  - apply Forall2_cons_inv_r in H2 as (u & us & (Fs & Ru & Du) & H2 & ->).
    destruct (proj1 (deep_extend_ok fuel) e h a ds Fd u Fs He Hr Hn Ru Du) as (h1 & F1 & E1 & R1 & O1).
    assert (Ef : extend_one fuel (VRef a) u h = Done tt h1).
    { unfold extend_one. destruct (rep_cell _ _ _ _ Ru) as (o & Eo & kvs & ->). erewrite bind_Done by exact Eo. cbv beta iota. by erewrite bind_Done by exact E1. }
    cbn [each]. erewrite bind_Done by exact Ef. cbn [layers foldl]. rewrite merge_obj in R1 |- *.
    destruct (IH us h1 _ F1 R1) as (h2 & F2 & E2 & R2 & O2); [apply O1| |].
    { eapply list.Forall2_impl; [exact H2|]. intros u' e' (Fs' & Ru' & Du'). exists Fs'. split; [by eapply owns_rep|].
      intros l Hl Hl2. destruct (own_cells _ _ _ _ O1 l Hl2) as [?|?]; [by apply (Du' l)|]. pose proof (rep_dom _ _ _ _ Ru' l Hl). lia. }
    exists h2, F2. split; [done|]. split; [done|]. by eapply owns_trans.
Qed.

(** Some objects merged into a new one. *)
Lemma extend_new sources es h : Forall2 (fun u e => exists Fs, rep h (TObj e) u Fs) sources es ->
  Forall (fun e => (depth (TObj e) <= fuel)%nat) es ->
  exists h' F', extend_all fuel (VRef (length h)) sources (h ++ [OObj []]) = Done (VRef (length h)) h' /\
    rep h' (layers (TObj []) es) (VRef (length h)) (length h :: F') /\ owns h [] h' (length h :: F').
Proof.
  intros H2 Hd. destruct (extend_all_spec sources es (h ++ [OObj []]) (length h) [] []) as (h' & F' & E & R & O).
  - apply rep_new_obj.
  - apply NoDup_singleton.
  - eapply list.Forall2_impl; [exact H2|]. intros u e (Fs & Ru). exists Fs. split.
    + eapply rep_frame; [done|]. intros l Hl. apply lookup_app_l. by eapply rep_dom.
    + intros l Hl ->%list_elem_of_singleton. pose proof (rep_dom _ _ _ _ Ru _ Hl). lia.
  - done.
  - exists h', F'. split; [done|]. split; [done|]. eapply owns_trans; [apply owns_new|done].
Qed.

(** ** The options *)

Lemma reps_del h k ps kvs F : kvs.*1 = ps.*1 -> reps h ps.*2 kvs.*2 F -> exists F',
  reps h (del_prop k ps).*2 (del_prop k kvs).*2 F' /\ (forall l, l ∈ F' -> l ∈ F) /\ (del_prop k kvs).*1 = (del_prop k ps).*1.
Proof.
  revert kvs F. induction ps as [|[k1 t] ps IH]; intros [|[k2 v] kvs] F E Hr; try done; [by exists F|].
  rewrite !fmap_cons in E. injection E as -> E. rewrite !fmap_cons in Hr. cbn [snd] in Hr.
  inversion Hr as [|? ? F1 ? ? F2 H1 H2]; subst. cbn [del_prop]. case_bool_decide.
  - exists F2. split; [done|]. split; [|done]. intros l Hl. rewrite elem_of_app. by right.
  - destruct (IH kvs F2 E H2) as (F' & R & Hs & Ek). exists (F1 ++ F'). rewrite !fmap_cons. split; [by constructor|].
    split; [|by f_equal]. intros l [?|?%Hs]%elem_of_app; rewrite elem_of_app; auto.
Qed.

Lemma del_prop_keys {A} k (l : list (jsstr * A)) : (del_prop k l).*1 `sublist_of` l.*1.
Proof.
  induction l as [|[k' x] l IH]; [done|]. cbn [del_prop]. case_bool_decide; rewrite !fmap_cons; [by apply sublist_cons|by apply sublist_skip].
Qed.

Lemma assoc_del_ne {A} k k' (l : list (jsstr * A)) : k <> k' -> assoc k (del_prop k' l) = assoc k l.
Proof.
  intros Hk. induction l as [|[k1 x] l IH]; [done|]. cbn [del_prop assoc]. case_bool_decide as E; cbn [assoc]; [|by rewrite IH].
  subst. by rewrite bool_decide_eq_false_2.
Qed.

(** [delete opts[k]] *)
Lemma del_spec h o os F k : rep h (TObj os) (VRef o) (o :: F) -> o ∉ F -> exists h' F',
  del_field (VRef o) k h = Done tt h' /\ rep h' (TObj (del_prop k os)) (VRef o) (o :: F') /\ length h' = length h /\
  (forall l, l <> o -> h' !! l = h !! l).
Proof.
  intros Hr Ho. inversion Hr as [| |l ps kvs G Eo Ek [Hn Hp] Hrs]; subst. destruct (reps_del h k os kvs F Ek Hrs) as (F' & R & Hs & Ek').
  eexists _, F'. split; [done|]. split; [|split; [by rewrite length_alter|intros l Hl; by apply list_lookup_alter_ne]].
  pose proof (del_prop_keys k os) as Hsub. econstructor.
  - rewrite list_lookup_alter_eq, Eo. reflexivity.
  - done.
  - split; [by eapply sublist_NoDup|]. intros Hin. apply Hp. by eapply elem_of_sublist.
  - eapply reps_frame; [exact R|]. intros l Hl. apply list_lookup_alter_ne. intros ->. by apply Ho, Hs.
Qed.

Lemma own_spec h t v F k x : rep h t v F -> tget t k = Some (TVal x) -> own v k h = Done x h.
Proof.
  intros Hr Ht. inversion Hr as [| |l ps kvs G El Ek Hok Hrs]; subst; [done|done|]. cbn [tget] in Ht.
  destruct (reps_child h k ps kvs G Ek Hrs) as (F1 & Fk & F2 & _ & Hm & _). rewrite Ht in Hm.
  unfold own, cell, bind, ret. rewrite El. destruct (assoc k kvs) as [w|]; [|done]. by inversion Hm; subst.
Qed.

Lemma layers_none k es t : Forall (fun e => NoDup e.*1 /\ assoc k e = None) es -> tget (layers t es) k = tget t k.
Proof.
  intros HF. revert t. induction HF as [|e es [Hn He] _ IH]; intros t; [done|]. cbn [layers foldl]. fold (layers (merge (TObj e) (Some t)) es).
  rewrite IH, merge_get by done. by rewrite He.
Qed.

Abbreviation defaults := (defaults requestInterceptor responseInterceptor apis).

(** The functions of the file are no objects of the heap. *)
Context (functions : Forall scalar [requestInterceptor; responseInterceptor; apis]).

Lemma defaults_data : made_of_data (TObj defaults).
Proof.
  inversion functions as [|? ? S1 S2]; subst. inversion S2 as [|? ? S3 S4]; subst. inversion S4; subst.
  constructor; [apply (bool_decide_unpack _); by vm_compute|]. unfold SuiConfig.defaults. rewrite !fmap_cons. cbn [snd].
  repeat (constructor; [first [constructor; done|constructor; [by split; [constructor|apply not_elem_of_nil]|constructor]|constructor; repeat constructor; done]|]).
  constructor.
Qed.

(** The sources of the configuration in a heap: the options are a tree, and no other source
    contains them. *)
Record sources (h : heap) (o : nat) (os : list (jsstr * tree)) (query localConfig fetched : value) (qs ls fs : list (jsstr * tree)) : Prop := {
  src_opts : exists F, rep h (TObj os) (VRef o) (o :: F) /\ o ∉ F;
  src_query : exists F, rep h (TObj qs) query F /\ o ∉ F;
  src_local : exists F, rep h (TObj ls) localConfig F /\ o ∉ F;
  src_fetched : exists F, rep h (TObj fs) fetched F /\ o ∉ F;
  src_depth : Forall (fun e => (depth (TObj e) <= fuel)%nat) [defaults; os; qs; ls; fs]
}.

(** Cells of [h] but [o] are as they were. *)
Definition spares (o : nat) (h h' : heap) : Prop := (length h <= length h')%nat /\ forall l, (l < length h)%nat -> l <> o -> h' !! l = h !! l.

Lemma spares_trans o h h1 h2 : spares o h h1 -> spares o h1 h2 -> spares o h h2.
Proof. intros [L1 K1] [L2 K2]. split; [lia|]. intros l Hl Ho. rewrite K2 by (try done; lia). by apply K1. Qed.

Lemma owns_spares o h h' F : owns h [] h' F -> spares o h h'.
Proof. intros [K G _ _]. split; [done|]. intros l Hl _. apply K; [done|apply not_elem_of_nil]. Qed.

Lemma spares_rep o h h' t v F : spares o h h' -> rep h t v F -> o ∉ F -> rep h' t v F.
Proof. intros [_ K] Hr Ho. eapply rep_frame; [done|]. intros l Hl. apply K; [by eapply rep_dom|by intros ->]. Qed.

Lemma depth_del k ps : (depth (TObj (del_prop k ps)) <= depth (TObj ps))%nat.
Proof.
  cbn [depth]. apply le_n_S. induction ps as [|[k' x] ps IH]; [done|]. cbn [del_prop]. case_bool_decide; cbn [foldr snd]; lia.
Qed.

Abbreviation without_node os := (del_prop (js "domNode") os).

Lemma constructor_spec h o os query localConfig fetched qs ls fs : sources h o os query localConfig fetched qs ls fs ->
  exists h' a F domNode, constructor_config fuel requestInterceptor responseInterceptor apis (VRef o) query h = Done (VRef a, domNode) h' /\
    rep h' (layers (TObj []) [defaults; without_node os; qs]) (VRef a) (a :: F) /\ spares o h h' /\ a <> o /\ (o ∉ F) /\
    (depth (layers (TObj []) [defaults; without_node os; qs]) <= fuel)%nat /\ exists F, rep h' (TObj (without_node os)) (VRef o) F.
Proof.
  intros [(Fo & Ro & No) (Fq & Rq & Nq) _ _ Hd]. inversion Hd as [|? ? D1 Hd1]; subst. inversion Hd1 as [|? ? D2 Hd2]; subst.
  inversion Hd2 as [|? ? D3 _]; subst. pose proof (rep_dom _ _ _ _ Ro o ltac:(by left)) as Lo.
  destruct (literal_builds fuel (TObj defaults) D1 defaults_data h) as (h1 & d & Fd & E1 & R1 & O1).
  assert (Ho1 : o ∉ Fd) by (intros [?%elem_of_nil|?]%(own_cells _ _ _ _ O1); [done|lia]).
  assert (Ro1 : rep h1 (TObj os) (VRef o) (o :: Fo)).
  { eapply rep_frame; [exact Ro|]. intros l Hl. apply (own_keeps _ _ _ _ O1); [exact (rep_dom _ _ _ _ Ro l Hl)|apply not_elem_of_nil]. }
  destruct (del_spec h1 o os Fo (js "domNode") Ro1 No) as (h2 & Fo2 & E2 & R2 & L2 & K2).
  assert (S2 : spares o h h2).
  { eapply spares_trans; [by eapply owns_spares|]. split; [by rewrite L2|auto]. }
  assert (S12 : spares o h1 h2) by (split; [by rewrite L2|auto]).
  destruct (extend_new [d; VRef o; query] [defaults; without_node os; qs] h2) as (h3 & F & E3 & R3 & O3).
  { constructor; [exists Fd; exact (spares_rep o h1 h2 _ _ _ S12 R1 Ho1)|]. constructor; [by eexists|].
    constructor; [exists Fq; exact (spares_rep o h h2 _ _ _ S2 Rq Nq)|constructor]. }
  { constructor; [done|]. constructor; [etransitivity; [apply depth_del|done]|]. by constructor. }
  exists h3, (length h2), F, (match h1 !! o with Some (OObj ps) => default VUndef (assoc (js "domNode") ps) | _ => VUndef end).
  pose proof (own_cells _ _ _ _ O3) as C3. pose proof (proj1 S2) as L02.
  split; [|split; [exact R3|split; [by eapply spares_trans; [|eapply owns_spares]|split; [lia|split; [|split]]]]].
  - unfold constructor_config. erewrite bind_Done by exact E1. erewrite bind_Done by reflexivity. erewrite bind_Done by exact E2.
    erewrite bind_Done by apply new_spec. by erewrite bind_Done by exact E3.
  - intros Hin. destruct (C3 o ltac:(by right)) as [?%elem_of_nil|?]; [done|lia].
  - apply layers_depth; [destruct fuel; [cbn [depth] in D2; lia|cbn; lia]|]. constructor; [done|].
    constructor; [etransitivity; [apply depth_del|done]|]. by constructor.
  - exists (o :: Fo2). eapply owns_rep; [exact O3|exact R2|]. intros; apply not_elem_of_nil.
Qed.

(** What the merged configuration has of a plain value. *)
Lemma merged_get k x os qs ls fs cs : k <> js "domNode" -> Forall (fun e => NoDup e.*1) [defaults; without_node os; qs; ls; cs; fs] ->
  layers (TObj []) [defaults; without_node os; qs] = TObj cs -> last_given k [ls; defaults; os; fs; qs] = Some (TVal x) ->
  tget (layers (TObj []) [ls; cs; fs; qs]) k = Some (TVal x).
Proof.
  intros Hk HN Ec Hx. rewrite !list.Forall_cons in HN. destruct HN as (N1 & N2 & N3 & N4 & N5 & N6 & _).
  pose proof (layers_get k x [defaults; without_node os; qs] (TObj [])) as Hc. pose proof (layers_none k [defaults; without_node os; qs] (TObj [])) as H0.
  rewrite Ec in Hc, H0. unfold last_given in Hx. cbn [foldl tget assoc] in Hx, Hc, H0. rewrite assoc_del_ne in Hc by done.
  assert (H3 : Forall (fun e => NoDup e.*1) [defaults; without_node os; qs]) by (repeat (constructor; [assumption|]); constructor).
  apply layers_get; [repeat (constructor; [assumption|]); constructor|]. cbn [foldl tget assoc]. destruct (assoc k qs) eqn:Eq; [done|]. destruct (assoc k fs); [done|].
  destruct (assoc k os) eqn:Eo; [|destruct (assoc k defaults) eqn:Ed].
  - by rewrite Hc.
  - by rewrite Hc.
  - rewrite H0; [done|]. constructor; [done|]. constructor; [by rewrite assoc_del_ne|]. by constructor.
Qed.

(** C35: The configuration a page is started with: merging ends; of the objects that were given, only
    the options are changed, by losing [domNode]; and a plain value is the one of the query of the page,
    else of the fetched configuration, else of the options, else of the defaults, else of the
    configuration that is built in. *)
Theorem configuration_precedence h o os query localConfig fetched qs ls fs : sources h o os query localConfig fetched qs ls fs ->
  exists h' v,
    (let! r := constructor_config fuel requestInterceptor responseInterceptor apis (VRef o) query in
     merged_config fuel localConfig r.1 fetched query r.2) h = Done v h' /\
    (exists F, rep h' (TObj (without_node os)) (VRef o) F) /\
    (forall l, (l < length h)%nat -> l <> o -> h' !! l = h !! l) /\
    (forall k x, k <> js "domNode" -> last_given k [ls; defaults; os; fs; qs] = Some (TVal x) -> own v k h' = Done x h').
Proof.
  intros Hs. destruct (constructor_spec _ _ _ _ _ _ _ _ _ Hs) as (h3 & a & Fa & dn & E3 & R3 & S3 & Na & Ho3 & D3 & Fo & Ro3).
  destruct (layers_obj [] [defaults; without_node os; qs]) as [cs Ec]. rewrite Ec in R3, D3.
  destruct Hs as [(F0 & Ro & No) (Fq & Rq & Nq) (Fl & Rl & Nl) (Ff & Rf & Nf) Hd]. rewrite !list.Forall_cons in Hd.
  destruct Hd as (D1 & D2 & Dq & Dl & Df & _).
  destruct (extend_new [localConfig; VRef a; fetched; query] [ls; cs; fs; qs] h3) as (h4 & F4 & E4 & R4 & O4).
  { constructor; [exists Fl; exact (spares_rep o h h3 _ _ _ S3 Rl Nl)|]. constructor; [by eexists|].
    constructor; [exists Ff; exact (spares_rep o h h3 _ _ _ S3 Rf Nf)|]. constructor; [exists Fq; exact (spares_rep o h h3 _ _ _ S3 Rq Nq)|constructor]. }
  { by repeat (constructor; [assumption|]). }
  assert (Ef : vtrue fetched = true) by (by inversion Rf).
  pose proof (proj1 S3) as L3. pose proof (rep_dom _ _ _ _ Ro o ltac:(by left)) as Lo.
  assert (S4 : spares o h h4) by (eapply spares_trans; [exact S3|by eapply owns_spares]).
  assert (Ro4 : rep h4 (TObj (without_node os)) (VRef o) Fo).
  { eapply owns_rep; [exact O4|exact Ro3|]. intros; apply not_elem_of_nil. }
  assert (Hget : forall k x, k <> js "domNode" -> last_given k [ls; defaults; os; fs; qs] = Some (TVal x) -> own (VRef (length h3)) k h4 = Done x h4).
  { intros k x Hk Hx. eapply own_spec; [exact R4|]. eapply merged_get; [done| |exact Ec|exact Hx].
    pose proof (rep_ok_keys _ _ _ _ R3) as []. pose proof (rep_ok_keys _ _ _ _ Ro3) as []. pose proof (rep_ok_keys _ _ _ _ Rq) as [].
    pose proof (rep_ok_keys _ _ _ _ Rl) as []. pose proof (rep_ok_keys _ _ _ _ Rf) as []. pose proof defaults_data as Hdd. inversion Hdd as [| |? [? _] _]; subst.
    by repeat (constructor; [assumption|]). }
  assert (Em : forall w, merged_config fuel localConfig (VRef a) fetched query dn h3 = w ->
    w = (do! (if vtrue dn then set_field (VRef (length h3)) (js "domNode") dn else ret tt); ret (VRef (length h3))) h4).
  { intros w <-. unfold merged_config. erewrite bind_Done by apply new_spec. rewrite Ef. erewrite bind_Done by reflexivity.
    by erewrite bind_Done by exact E4. }
  erewrite bind_Done by exact E3. cbn [fst snd]. rewrite (Em _ eq_refl). destruct (vtrue dn).
  - eexists _, _. split; [reflexivity|]. split; [|split].
    + exists Fo. eapply rep_frame; [exact Ro4|]. intros l Hl. apply list_lookup_alter_ne. intros <-.
      pose proof (rep_dom _ _ _ _ Ro3 _ Hl). lia.
    + intros l Hl Hne. rewrite list_lookup_alter_ne by lia. by apply S4.
    + intros k x Hk Hx. specialize (Hget k x Hk Hx). revert Hget. unfold own, cell, bind, ret. rewrite list_lookup_alter_eq.
      destruct (h4 !! length h3) as [[]|]; cbn [fmap option_fmap option_map]; intros [= <-]; try done.
      unfold set_prop. rewrite bool_decide_eq_false_2 by done. by rewrite assoc_put_ne.
  - eexists _, _. split; [reflexivity|]. split; [by eexists|]. split; [apply S4|exact Hget].
Qed.
End Merged.

(** ** A page *)

Module Start.
Definition f : value := VFunc [js "a"] (js "return a").
Definition heap0 : heap :=
  [OObj [(js "url", VStr (js "/api.json")); (js "domNode", VNull); (js "layout", VStr (js "StandaloneLayout"))];
   OObj [(js "url", VStr (js "/other.json"))]; OObj []; OObj [(js "layout", VStr (js "BaseLayout")); (js "deepLinking", VBool true)]].
Definition run (h : heap) (opts query local fetched : value) : outcome heap value :=
  (let! r := constructor_config 9 f f f opts query in merged_config 9 local r.1 fetched query r.2) h.
Definition given (es : list (jsstr * value)) : list (jsstr * tree) := prod_map id TVal <$> es.
End Start.

Lemma rep_flat h l es : h !! l = Some (OObj es) -> Forall (fun p => scalar p.2) es -> ok_keys es.*1 -> rep h (TObj (Start.given es)) (VRef l) [l].
Proof.
  intros E HF Hk. assert (Ek : (Start.given es).*1 = es.*1).
  { unfold Start.given. rewrite <- list_fmap_compose. by apply list_fmap_ext. }
  econstructor; [exact E|done|by rewrite Ek|]. clear -HF. induction HF as [|[k v] es Hv _ IH]; [constructor|].
  unfold Start.given in *. rewrite !fmap_cons. cbn [prod_map snd fst]. apply (reps_cons h _ _ []); [by constructor|done].
Qed.

Lemma configuration_precedence_witness : exists h' v, Start.run Start.heap0 (VRef 0) (VRef 1) (VRef 2) (VRef 3) = Done v h' /\
  own v (js "url") h' = Done (VStr (js "/other.json")) h' /\ own v (js "layout") h' = Done (VStr (js "BaseLayout")) h' /\
  own v (js "docExpansion") h' = Done (VStr (js "list")) h'.
Proof.
  destruct (configuration_precedence 9 Start.f Start.f Start.f ltac:(repeat constructor) Start.heap0 0
    (Start.given [(js "url", VStr (js "/api.json")); (js "domNode", VNull); (js "layout", VStr (js "StandaloneLayout"))]) (VRef 1) (VRef 2) (VRef 3)
    (Start.given [(js "url", VStr (js "/other.json"))]) (Start.given [])
    (Start.given [(js "layout", VStr (js "BaseLayout")); (js "deepLinking", VBool true)])) as (h' & v & E & _ & _ & G).
  - split.
    + exists []. split; [|apply not_elem_of_nil]. apply rep_flat; [done|repeat constructor|apply (bool_decide_unpack _); by vm_compute].
    + exists [1%nat]. split; [|apply (bool_decide_unpack _); by vm_compute]. apply rep_flat; [done|repeat constructor|apply (bool_decide_unpack _); by vm_compute].
    + exists [2%nat]. split; [|apply (bool_decide_unpack _); by vm_compute]. apply rep_flat; [done|repeat constructor|apply (bool_decide_unpack _); by vm_compute].
    + exists [3%nat]. split; [|apply (bool_decide_unpack _); by vm_compute]. apply rep_flat; [done|repeat constructor|apply (bool_decide_unpack _); by vm_compute].
    + repeat (constructor; [apply Nat.leb_le; by vm_compute|]). constructor.
  - exists h', v. split; [exact E|]. split; [|split]; apply G; by vm_compute.
Defined.

(** Started without options, the defaults hide the URL, the element and the validator of the
    configuration that is built in, while the redirect URL of the development server in it stays. *)
Example development_redirect_stays :
  let '(local, h) := getLocalConfig (fun _ => []) plain_builtins in
  let n := length h in
  match Start.run (h ++ [OObj []; OObj []; OObj []]) (VRef n) (VRef (n + 1)) local (VRef (n + 2)) with
  | Done v h' =>
      own v (js "url") h' = Done (VStr []) h' /\ own v (js "dom_id") h' = Done VNull h' /\
      own v (js "oauth2RedirectUrl") h' = Done (VStr (js "http://localhost:3200/oauth2-redirect.html")) h'
  | _ => False
  end.
Proof. by vm_compute. Qed.
