(* ===== verification/SuiXml.v ===== *)
(** Swagger UI: the XML example of a schema ([sampleXmlFromSchema] of the samples plugin), on the
    heap: it writes names and examples into the schema on its way.  A schema and its example are
    JSON data: reading a property is reading an own property of an object, and names of members
    of Object.prototype or of strings are not used as types or as names of properties. *)
From S2P Require Import Prelude JsString JsNumber YamlValue YamlTypes SuiPlugins.

(** ** The result: what the package xml is given *)

Inductive xml :=
  | XUndef
  | XElement (name : jsstr) (content : list content)
  | XList (l : list xml)
with content :=
  | XSub (x : xml)                                  (* a result pushed *)
  | XAttr (attrs : list (jsstr * value))            (* [{ _attr: ... }] *)
  | XAdditional (v : value)                         (* [{ additionalProp: ... }] *)
  | XValue (v : value).

Record xml_config := { xIncludeReadOnly : bool; xIncludeWriteOnly : bool }.
Definition no_config : xml_config := {| xIncludeReadOnly := false; xIncludeWriteOnly := false |}.

Section Xml.
(** [(new Date).toISOString()] *)
Context (now : jsstr).
(** [String(v)] of an object or a function. *)
Context (ref_text : heap -> value -> jsstr).

Definition text (v : value) : M heap jsstr := fun h =>
  Done (match v with
        | VUndef => js "undefined"
        | VNull => js "null"
        | VBool b => js (if b then "true" else "false")
        | VNum x => toString10 x
        | VStr s => s
        | _ => ref_text h v
        end) h.

(** [v.k = x] in strict mode. *)
Definition assign (v : value) (k : jsstr) (x : value) : M heap unit :=
  if isObject v then set_field v k x else throw (TypeError "Cannot create property").

Definition objectify_ref (v : value) : M heap value := if isObject v then ret v else new (OObj []).

Definition is_text (v : value) (s : string) : bool := bool_decide (v = VStr (js s)).

(** [primitive(schema)] *)
Definition primitive_ref (schema : value) : M heap value :=
  let! o := objectify_ref schema in
  let! t := own o (js "type") in
  let! f := own o (js "format") in
  let! d := own o (js "default") in
  let! type := text t in
  let! format := text f in
  let name := type ++ 95 :: format in
  ret (if bool_decide (name = js "string_email") then VStr (js "user@example.com")
       else if bool_decide (name = js "string_date-time") then VStr now
       else if bool_decide (name = js "number_float") then VNum (Zero false)
       else if bool_decide (type = js "string") then VStr (js "string")
       else if bool_decide (type = js "string_email") then VStr (js "user@example.com")
       else if bool_decide (type = js "string_date-time") then VStr now
       else if bool_decide (type ∈ js <$> ["number"; "number_float"; "integer"]%string) then VNum (Zero false)
       else if bool_decide (type = js "boolean") then match d with VBool b => VBool b | _ => VBool true end
       else VStr (js "Unknown Type: " ++ type)).

(** [Array.isArray(v)], with the elements. *)
Definition array_of (v : value) : M heap (option (list value)) :=
  let! o := cell v in ret (match o with Some (OArr l) => Some l | _ => None end).

(** [a || b] *)
Definition or_else (a b : value) : value := if vtrue a then a else b.

(** The XML names of an array schema are handed to its items: the object itself when they have none. *)
Definition name_items (items xml : value) : M heap unit :=
  let! ix := own items (js "xml") in
  let! x := (if vtrue ix then ret ix else if vtrue xml then ret xml else new (OObj [])) in
  do! assign items (js "xml") x;
  let! ix := own items (js "xml") in
  let! iname := field ix (js "name") in
  let! xname := own xml (js "name") in
  assign ix (js "name") (or_else iname xname).

(** [props[propName].readOnly && !includeReadOnly || ...] *)
Definition left_out (c : xml_config) (p : value) : M heap bool :=
  let! r := field p (js "readOnly") in
  let! w := own p (js "writeOnly") in
  ret ((vtrue r && negb (xIncludeReadOnly c)) || (vtrue w && negb (xIncludeWriteOnly c))).

(** The value of an attribute. *)
Definition attr_value (p example : value) (propName : jsstr) : M heap value :=
  let! e := own p (js "enum") in
  let! el := array_of e in
  let enumAttrVal := match el with Some l => default VUndef (head l) | None => VBool false end in
  let! attrExample := own p (js "example") in
  let! attrDefault := own p (js "default") in
  let! ex := own example propName in
  let! prim := primitive_ref p in
  ret (or_else attrExample (or_else ex (or_else attrDefault (or_else enumAttrVal prim)))).

(** One property: the content and the attributes so far are given and returned. *)
Definition xml_property (sample : value -> M heap xml) (c : xml_config) (props example : value)
    (acc : list content * list (jsstr * value)) (propName : jsstr) : M heap (list content * list (jsstr * value)) :=
  let! p := own props propName in
  let! out := left_out c p in
  if out then ret acc
  else
    let! px := own p (js "xml") in
    let! x := (if vtrue px then ret px else new (OObj [])) in
    do! assign p (js "xml") x;
    let! px := own p (js "xml") in
    let! attribute := own px (js "attribute") in
    let! pname := own px (js "name") in
    if vtrue attribute then
      let! v := attr_value p example propName in
      let! key := text (or_else pname (VStr propName)) in
      ret (acc.1, set_prop key v acc.2)
    else
      do! assign px (js "name") (or_else pname (VStr propName));
      let! pe := own p (js "example") in
      let! ex := own example propName in
      do! (match pe, ex with VUndef, VUndef => ret tt | VUndef, _ => assign p (js "example") ex | _, _ => ret tt end);
      let! t := sample p in
      ret (acc.1 ++ (match t with XList l => XSub <$> l | _ => [XSub t] end), acc.2).

(** The samples of an array: one per element of its example, or of its default, each stored into
    the items first. *)
Definition xml_items (sample : value -> M heap xml) (items : value) (example dflt : option (list value)) : M heap (option (list xml)) :=
  match example, dflt with
  | Some l, _ => let! r := mapM (fun v => do! assign items (js "example") v; sample items) l in ret (Some r)
  | None, Some l => let! r := mapM (fun v => do! assign items (js "default") v; sample items) l in ret (Some r)
  | None, None => ret None
  end.

(** Fuel is the nesting of the schema. *)
Fixpoint sampleXmlFromSchema (fuel : nat) (schema : value) (c : xml_config) : M heap xml :=
  match fuel with
  | O => fun _ => NoFuel
  | S n =>
      let! o := objectify_ref schema in
      let! type := own o (js "type") in
      let! properties := own o (js "properties") in
      let! additionalProperties := own o (js "additionalProperties") in
      let! items := own o (js "items") in
      let! example := own o (js "example") in
      let! defaultValue := own o (js "default") in
      let! xml := field schema (js "xml") in
      let! name := field xml (js "name") in
      let! prefix := own xml (js "prefix") in
      let! namespace := own xml (js "namespace") in
      let! enumValue := own o (js "enum") in
      let type :=
        if vtrue type then Some type
        else if vtrue properties || vtrue additionalProperties then Some (VStr (js "object"))
        else if vtrue items then Some (VStr (js "array")) else None in
      match type with
      | None => ret XUndef
      | Some type =>
          let! nm := text (or_else name (VStr (js "notagname"))) in
          let! pre := text prefix in
          let displayName := (if vtrue prefix then pre ++ [58] else []) ++ nm in
          let attr := if vtrue namespace then [((if vtrue prefix then js "xmlns:" ++ pre else js "xmlns"), namespace)] else [] in
          if is_text type "array" && vtrue items then
            do! name_items items xml;
            let! wrapped := own xml (js "wrapped") in
            let! ex := array_of example in
            let! df := array_of defaultValue in
            let! l := xml_items (fun v => sampleXmlFromSchema n v c) items ex df in
            if vtrue wrapped then
              let! l := match l with Some l => ret l | None => let! x := sampleXmlFromSchema n items c in ret [x] end in
              ret (XElement displayName ((XSub <$> l) ++ [XAttr attr]))
            else match l with Some l => ret (XList l) | None => sampleXmlFromSchema n items c end
          else if is_text type "object" then
            let! props := objectify_ref properties in
            let! example := (if vtrue example then ret example else new (OObj [])) in
            let! ks := keys props in
            let! own_has := own props (js "hasOwnProperty") in
            if negb (bool_decide (ks = [])) && negb (bool_decide (own_has = VUndef)) then
              throw (TypeError "props.hasOwnProperty is not a function")
            else
              let! acc := foldM (xml_property (fun v => sampleXmlFromSchema n v no_config) c props example) ([], attr) ks in
              let! extra := (match additionalProperties with
                             | VBool true => ret [XAdditional (VStr (js "Anything can be here"))]
                             | ap => if vtrue ap then let! p := primitive_ref ap in ret [XAdditional p] else ret []
                             end) in
              ret (XElement displayName (acc.1 ++ extra ++ [XAttr acc.2]))
          else
            let! en := array_of enumValue in
            let! prim := primitive_ref schema in
            let value :=
              match example, defaultValue with
              | VUndef, VUndef => match en with Some l => default VUndef (head l) | None => prim end
              | VUndef, d => d
              | e, _ => e
              end in
            ret (XElement displayName [XAttr attr; XValue value])
      end
  end.

(** ** The example as text *)

(** The printer of the package xml: what it makes of a tree and the values in it; it throws where
    one of them has content it cannot read, such as null. *)
Context (print : heap -> xml -> js_error + jsstr).

Definition printed (json : xml) : M heap value := fun h =>
  match print h json with inr s => Done (VStr s) h | inl e => Raise e h end.

Definition createXMLExample (fuel : nat) (schema : value) (c : xml_config) : M heap value :=
  let! json := sampleXmlFromSchema fuel schema c in
  match json with XUndef => ret VUndef | _ => printed json end.

(** [/\S*\/(\S+)$/] on the reversed text: what follows the last slash that is not the last unit, if
    no white space is in between. *)
Fixpoint up_to_slash (s : jsstr) : option jsstr :=
  match s with
  | [] => None
  | c :: s' => if c =? 47 then Some [] else if is_space c then None else cons c <$> up_to_slash s'
  end.
Definition ref_name (s : jsstr) : option jsstr :=
  match rev s with
  | c :: s' => if is_space c then None else (fun g => rev (c :: g)) <$> up_to_slash s'
  | [] => None
  end.

Definition match_name (v : value) : M heap jsstr :=
  match v with
  | VStr s => match ref_name s with Some n => ret n | None => throw (TypeError "Cannot read property '1' of null") end
  | _ => throw (TypeError "schema.$$ref.match is not a function")
  end.

Definition no_example : jsstr :=
  js "<?xml version=" ++ 34 :: js "1.0" ++ 34 :: js " encoding=" ++ 34 :: js "UTF-8" ++ 34 :: js "?>" ++ 10 :: js "<!-- XML example cannot be generated -->".

(** [getSampleSchema(schema, contentType, config)] for a content type with "xml" in it.  The
    memoized [createXMLExample] is given. *)
Definition getSampleSchema_xml (memoizedCreateXMLExample : value -> xml_config -> M heap value) (schema : value) (c : xml_config) : M heap value :=
  let! x := field schema (js "xml") in
  let! named := (if vtrue x then own x (js "name") else ret VUndef) in
  if vtrue named then memoizedCreateXMLExample schema c
  else
    let! x := (if vtrue x then ret x else new (OObj [])) in
    do! assign schema (js "xml") x;
    let! ref := own schema (js "$$ref") in
    if vtrue ref then
      let! name := match_name ref in
      let! x := own schema (js "xml") in
      do! assign x (js "name") (VStr name);
      memoizedCreateXMLExample schema c
    else
      let! type := own schema (js "type") in
      let! items := own schema (js "items") in
      let! properties := own schema (js "properties") in
      let! additionalProperties := own schema (js "additionalProperties") in
      ret (if vtrue type || vtrue items || vtrue properties || vtrue additionalProperties then VStr no_example else VNull).
End Xml.
