(* ===== verification/SuiXmlLaws.v ===== *)
(** The XML example of a schema: on a schema whose parts are objects of the expected kinds it is
    made without an exception but those of the printer, and of the schema only names and examples are changed. *)
From S2P Require Import Prelude JsString JsNumber YamlValue YamlTypes SuiPlugins SuiXml.

(** ** Kinds of objects *)

(** A schema and the properties of a schema have a rank above that of their parts. *)
Inductive kind := KSchema (r : nat) | KXml | KProps (r : nat) | KOther.

Definition is_kind (K : list kind) (v : value) (k : kind) : Prop := match v with VRef l => K !! l = Some k | _ => False end.














(** ** Changes of the heap *)











(** ** Runs *)















Lemma keys_read h v : exists ks, keys v h = Done ks h.
Proof. unfold keys, cell, bind, ret. by eexists. Qed.





Section Runs.
Context (now : jsstr) (ref_text : heap -> value -> jsstr).



Lemma kind_xml_true K x : is_kind K x KXml -> vtrue x = true /\ isNothing x = false.
Proof. by destruct x. Qed.




(** ** One property *)





(** ** All properties, all items *)





(** ** The whole sample *)



End Runs.

(** ** The example of a content type *)



(** ** The root element *)


(** ** Properties *)






(** An array of objects with an example. *)
Definition ex_field (k : string) (v : value) : jsstr * value := (js k, v).
Definition ex_schema : heap :=
  [OObj [ex_field "type" (VStr (js "array")); ex_field "xml" (VRef 1); ex_field "items" (VRef 2); ex_field "example" (VRef 5)];
   OObj [ex_field "name" (VStr (js "pets"))];
   OObj [ex_field "type" (VStr (js "object")); ex_field "properties" (VRef 3)];
   OObj [ex_field "id" (VRef 4)];
   OObj [ex_field "type" (VStr (js "integer"))];
   OArr [VRef 6; VRef 7];
   OObj [ex_field "id" (VNum (of_Z 1))];
   OObj [ex_field "id" (VNum (of_Z 2))]].



(** A printer that refuses null. *)
Definition ex_print (h : heap) (x : xml) : js_error + jsstr :=
  match x with
  | XElement _ [XAttr _; XValue VNull] => inl (TypeError "Cannot convert undefined or null to object")
  | _ => inr (js "<x/>")
  end.


(** The example null is handed to the printer as it is. *)
Definition ex_null : heap :=
  [OObj [ex_field "type" (VStr (js "string")); ex_field "example" VNull; ex_field "xml" (VRef 1)]; OObj [ex_field "name" (VStr (js "a"))]].

Example null_example_printed :
  match createXMLExample [] (fun _ _ => []) ex_print 1 (VRef 0) no_config ex_null with
  | Raise e _ => e = TypeError "Cannot convert undefined or null to object"
  | _ => False
  end.
Proof. vm_compute. reflexivity. Qed.

(** The example of the first element is written into the properties of the items and hides those
    of the others: both elements get the id 1. *)
Example xml_first_example_sticks :
  match sampleXmlFromSchema [] (fun _ _ => []) 3 (VRef 0) no_config ex_schema with
  | Done x _ =>
      let pet := XElement (js "pets") [XSub (XElement (js "id") [XAttr []; XValue (VNum (of_Z 1))]); XAttr []] in
      x = XList [pet; pet]
  | _ => False
  end.
Proof. vm_compute. reflexivity. Qed.

(** Nested read-only properties are left out even where they are asked for: the configuration
    does not reach the properties of an object. *)
Definition ex_nested : heap :=
  [OObj [ex_field "type" (VStr (js "object")); ex_field "xml" (VRef 1); ex_field "properties" (VRef 2)];
   OObj [ex_field "name" (VStr (js "a"))]; OObj [ex_field "b" (VRef 3)];
   OObj [ex_field "type" (VStr (js "object")); ex_field "properties" (VRef 4)]; OObj [ex_field "c" (VRef 5)];
   OObj [ex_field "type" (VStr (js "string")); ex_field "readOnly" (VBool true)]].

Example xml_config_lost :
  match sampleXmlFromSchema [] (fun _ _ => []) 3 (VRef 0) {| xIncludeReadOnly := true; xIncludeWriteOnly := true |} ex_nested with
  | Done x _ => x = XElement (js "a") [XSub (XElement (js "b") [XAttr []]); XAttr []]
  | _ => False
  end.
Proof. vm_compute. reflexivity. Qed.
