(* ===== verification/CoreMicrotask.v ===== *)
(** The queue of microtasks of core-js: a linked list with a head and a last node, emptied by
    [flush]; it is a queue, whatever its tasks add and throw. *)
From S2P Require Import Prelude.

Section Queue.
Context {F : Type}.
(** What a task adds to the queue when it runs, and whether it then throws. *)
Context (adds : F -> list F) (throws : F -> bool).

(** ** The code *)

(** [{ fn, next }] *)
Record node := { fn : F; next : option nat }.

(** The variables [head] and [last], and the number of calls of [notify], each of which has the
    engine call [flush]. *)
Record tasks := { nodes : list node; head : option nat; last : option nat; notified : nat }.

Definition link (t : nat) (x : node) : node := {| fn := fn x; next := Some t |}.

(** The function the module exports. *)
Definition add (f : F) (st : tasks) : tasks :=
  let task := length (nodes st) in
  let ns := nodes st ++ [{| fn := f; next := None |}] in
  {| nodes := match last st with Some l => alter (link task) l ns | None => ns end;
     head := match head st with Some h => Some h | None => Some task end;
     last := Some task;
     notified := match head st with Some _ => notified st | None => S (notified st) end |}.

Record outcome (S : Type) := { called : list F; threw : bool; left : S }.
Arguments called {S} _.
Arguments threw {S} _.
Arguments left {S} _.
Definition after {S} (f : F) (o : outcome S) : outcome S := {| called := f :: called o; threw := threw o; left := left o |}.

Definition forget (st : tasks) : tasks := {| nodes := nodes st; head := head st; last := None; notified := notified st |}.

(** Fuel is the number of tasks run. *)
Fixpoint flush (n : nat) (st : tasks) : option (outcome tasks) :=
  match n with
  | O => None
  | S n =>
      match head st with
      | None => Some {| called := []; threw := false; left := forget st |}
      | Some h =>
          x ← nodes st !! h;
          let st := {| nodes := nodes st; head := next x; last := last st; notified := notified st |} in
          let st := foldl (fun st f => add f st) st (adds (fn x)) in
          if throws (fn x) then
            Some {| called := [fn x]; threw := true;
                    left := match head st with
                            | Some _ => {| nodes := nodes st; head := head st; last := last st; notified := S (notified st) |}
                            | None => forget st
                            end |}
          else after (fn x) <$> flush n st
      end
  end.

(** ** The specification: a list *)

Record queue := { waiting : list F; calls : nat }.
Definition q_add (f : F) (q : queue) : queue :=
  {| waiting := waiting q ++ [f]; calls := match waiting q with [] => S (calls q) | _ => calls q end |}.

Fixpoint q_flush (n : nat) (q : queue) : option (outcome queue) :=
  match n with
  | O => None
  | S n =>
      match waiting q with
      | [] => Some {| called := []; threw := false; left := q |}
      | f :: l =>
          let q := foldl (fun q f => q_add f q) {| waiting := l; calls := calls q |} (adds f) in
          if throws f then
            Some {| called := [f]; threw := true; left := {| waiting := waiting q; calls := match waiting q with [] => calls q | _ => S (calls q) end |} |}
          else after f <$> q_flush n q
      end
  end.

(** ** Refinement *)

(** [ids] are the nodes from [from] on; the last has no next one. *)
Fixpoint path (ns : list node) (from : option nat) (ids : list nat) (l : list F) : Prop :=
  match ids, l with
  | [], [] => from = None
  | i :: ids', f :: l' => from = Some i /\ exists x, ns !! i = Some x /\ fn x = f /\ path ns (next x) ids' l'
  | _, _ => False
  end.

(** The last node of a queue that is not empty is [last]; of an empty one [last] may be a node
    taken already. *)
Definition represents (st : tasks) (q : queue) : Prop :=
  exists ids, path (nodes st) (head st) ids (waiting q) /\ NoDup ids /\ notified st = calls q /\
    match list.last ids with Some i => last st = Some i | None => forall i, last st = Some i -> (i < length (nodes st))%nat end.

Lemma path_lt ns from ids l i : path ns from ids l -> i ∈ ids -> (i < length ns)%nat.
Proof.
  revert from l. induction ids as [|j ids IH]; intros from l H Hi; [by apply elem_of_nil in Hi|]. destruct l as [|f l]; [done|]. destruct H as (_ & x & Hx & _ & H).
  apply elem_of_cons in Hi as [->|Hi]; [by eapply lookup_lt_Some|by eapply IH].
Qed.

Lemma path_ext ns ns' from ids l : (forall i, i ∈ ids -> ns' !! i = ns !! i) -> path ns from ids l -> path ns' from ids l.
Proof.
  revert from l. induction ids as [|j ids IH]; intros from l He H; [done|]. destruct l as [|f l]; [done|]. destruct H as (E & x & Hx & Ef & H).
  split; [done|]. exists x. rewrite He by left. split; [done|]. split; [done|]. apply IH; [|done]. intros i Hi. apply He. by right.
Qed.

(** The new node is linked to the last one. *)
Lemma path_snoc ns from ids l f t : path ns from ids l -> NoDup ids -> ns !! t = Some {| fn := f; next := None |} -> t ∉ ids ->
  forall last_id, list.last ids = Some last_id -> path (alter (link t) last_id ns) from (ids ++ [t]) (l ++ [f]).
Proof.
  revert from l. induction ids as [|j ids IH]; intros from l H Hnd Ht Hnin last_id Hl; [done|]. destruct l as [|g l]; [done|]. destruct H as (E & x & Hx & Eg & H).
  apply list.NoDup_cons in Hnd as [Hj Hnd]. apply not_elem_of_cons in Hnin as [Htj Hnin]. cbn. split; [done|].
  destruct ids as [|k ids].
  - injection Hl as <-. exists (link t x). rewrite list_lookup_alter_eq, Hx. split; [done|]. split; [done|]. cbn in H. destruct l; [|done]. cbn.
    split; [done|]. eexists. rewrite list_lookup_alter_ne by done. split; [exact Ht|]. done.
  - assert (Hne : last_id <> j). { intros ->. apply Hj. by apply last_Some_elem_of. }
    exists x. rewrite list_lookup_alter_ne by done. split; [done|]. split; [done|]. apply IH; done.
Qed.

Lemma add_represents st q f : represents st q -> represents (add f st) (q_add f q).
Proof.
  intros (ids & Hp & Hnd & Hc & Hl). set (t := length (nodes st)). set (ns := nodes st ++ [{| fn := f; next := None |}]).
  assert (Ht : ns !! t = Some {| fn := f; next := None |}) by (by apply list_lookup_middle).
  assert (Hnin : t ∉ ids) by (intros Hi; apply (path_lt _ _ _ _ _ Hp) in Hi; unfold t in Hi; lia).
  assert (Hp' : path ns (head st) ids (waiting q)).
  { apply (path_ext (nodes st)); [|done]. intros i Hi. unfold ns. rewrite lookup_app_l by (by eapply path_lt). done. }
  exists (ids ++ [t]). unfold add. fold t ns. destruct (list.last ids) as [i|] eqn:El.
  - rewrite Hl. destruct ids as [|j ids]; [done|]. destruct (waiting q) as [|g l] eqn:Eq; [done|]. destruct Hp as (Eh & _). rewrite Eh. cbn [nodes head last notified].
    split; [rewrite Eh in Hp'; unfold q_add; rewrite Eq; by apply (path_snoc ns (Some j) (j :: ids) (g :: l) f t Hp')|].
    split; [apply list.NoDup_app; split; [done|]; split; [intros x Hx Hx'%list_elem_of_singleton; by subst|apply NoDup_singleton]|].
    split; [unfold q_add; rewrite Eq; done|]. by rewrite last_snoc.
  - apply last_None in El as ->. cbn in Hp. destruct (waiting q) as [|g l] eqn:Eq; [|done]. rewrite Hp. cbn [nodes head last notified app]. unfold q_add. rewrite Eq. cbn.
    split; [|split; [apply NoDup_singleton|split; [by rewrite Hc|done]]]. split; [done|]. exists {| fn := f; next := None |}. split; [|done].
    destruct (last st) as [k|] eqn:Ek; [|done]. rewrite list_lookup_alter_ne; [done|]. specialize (Hl k eq_refl). unfold t. lia.
Qed.

Lemma adds_represent l st q : represents st q -> represents (foldl (fun st f => add f st) st l) (foldl (fun q f => q_add f q) q l).
Proof. revert st q. induction l as [|f l IH]; intros st q H; [done|]. by apply IH, add_represents. Qed.

Lemma take_represents st q f l : represents st q -> waiting q = f :: l ->
  exists h x, head st = Some h /\ nodes st !! h = Some x /\ fn x = f /\
    represents {| nodes := nodes st; head := next x; last := last st; notified := notified st |} {| waiting := l; calls := calls q |}.
Proof.
  intros (ids & Hp & Hnd & Hc & Hl) Eq. rewrite Eq in Hp. destruct ids as [|h ids]; [done|]. destruct Hp as (Eh & x & Hx & Ef & Hp).
  exists h, x. split; [done|]. split; [done|]. split; [done|]. apply list.NoDup_cons in Hnd as [_ Hnd]. exists ids. split; [done|]. split; [done|]. split; [done|].
  cbn. destruct ids as [|k ids]; [|done]. cbn in *. intros i Hi. rewrite Hl in Hi. injection Hi as <-. by eapply lookup_lt_Some.
Qed.

Lemma forget_represents st q : represents st q -> waiting q = [] -> represents (forget st) q.
Proof. intros (ids & Hp & Hnd & Hc & Hl) Eq. rewrite Eq in Hp. destruct ids as [|i ids]; [|done]. exists []. cbn in *. rewrite Eq. by repeat split. Qed.

Definition same_outcome (o : outcome tasks) (q : outcome queue) : Prop :=
  called o = called q /\ threw o = threw q /\ represents (left o) (left q).

(** [flush] calls the tasks of the linked list as a queue does: in the order they were
    added, those added by running tasks included; it stops at the first that throws, with the
    rest kept and another [flush] asked for exactly when tasks are left. *)
Theorem flush_refines_queue n st q : represents st q ->
  match flush n st, q_flush n q with
  | Some o, Some o' => same_outcome o o'
  | None, None => True
  | _, _ => False
  end.
Proof.
  revert st q. induction n as [|n IH]; intros st q H; [done|]. cbn [flush q_flush]. destruct (waiting q) as [|f l] eqn:Eq.
  - pose proof (forget_represents st q H Eq) as Hf. destruct H as (ids & Hp & _). rewrite Eq in Hp. destruct ids; [|done]. cbn in Hp. rewrite Hp. done.
  - destruct (take_represents st q f l H Eq) as (h & x & Eh & Hx & Ef & Ht). rewrite Eh, Hx. cbn [mbind option_bind]. cbv zeta. rewrite Ef.
    apply (adds_represent (adds f)) in Ht. set (st1 := foldl _ _ (adds f)) in *. set (q1 := foldl (fun q f => q_add f q) _ (adds f)) in *.
    destruct (throws f).
    + split; [done|]. split; [done|]. cbn [left]. destruct (waiting q1) as [|g k] eqn:E1.
      * pose proof (forget_represents st1 q1 Ht E1) as Hf. destruct Ht as (ids & Hp & _). rewrite E1 in Hp. destruct ids; [|done]. cbn in Hp. rewrite Hp.
        destruct q1 as [w c]. cbn in E1. subst w. exact Hf.
      * destruct Ht as (ids & Hp & Hnd & Hc & Hl). rewrite E1 in Hp. destruct ids as [|i ids]; [done|]. destruct Hp as (Ehd & Hp). rewrite Ehd.
        exists (i :: ids). cbn [nodes head last notified waiting calls]. split; [by split|]. split; [done|]. by rewrite Hc.
    + specialize (IH st1 q1 Ht). destruct (flush n st1) as [o|], (q_flush n q1) as [o'|]; [|done..]. destruct IH as (A & B & C).
      cbn. split; [cbn; by rewrite A|done].
Qed.
End Queue.

Arguments called {F S} _.
Arguments threw {F S} _.
Arguments left {F S} _.

(** Four tasks, of which the first adds two more and the third throws. *)
Definition ex_adds (f : nat) : list nat := if bool_decide (f = 1%nat) then [7%nat; 8%nat] else [].
Definition ex_throws (f : nat) : bool := bool_decide (f = 3%nat).
Definition no_tasks {F} : tasks (F := F) := {| nodes := []; head := None; last := None; notified := 0 |}.
Definition ex_tasks : tasks (F := nat) := foldl (fun st f => add f st) no_tasks [1; 2; 3; 4]%nat.
Definition ex_queue : queue (F := nat) := {| waiting := [1; 2; 3; 4]%nat; calls := 1 |}.

Lemma no_tasks_empty {F} : represents (F := F) no_tasks {| waiting := []; calls := 0 |}.
Proof. exists []. cbn. repeat split; [constructor|done]. Qed.

Lemma flush_refines_queue_witness : exists o, flush ex_adds ex_throws 9 ex_tasks = Some o /\
  called o = [1; 2; 3]%nat /\ threw o = true /\ represents (left o) {| waiting := [4; 7; 8]%nat; calls := 2 |}.
Proof.
  pose proof (flush_refines_queue ex_adds ex_throws 9 ex_tasks ex_queue (adds_represent [1; 2; 3; 4]%nat _ _ no_tasks_empty)) as H.
  destruct (flush ex_adds ex_throws 9 ex_tasks) as [o|]; [|destruct H]. destruct H as (A & B & C). exists o. split; [reflexivity|].
  split; [exact A|]. split; [exact B|exact C].
Defined.
