(* ===== verification/CorePromise.v ===== *)
(** The Promise of core-js (the polyfill Swagger UI carries): promises, reactions, the queue of
    microtasks, and the tracking of rejections nobody handles.  A page, not Node: there are no
    domains; subclasses of Promise are left out. *)
From S2P Require Import Prelude.

(** ** Values *)

(** What a resolving function is bound to: a promise, or one of the wrappers [{ _w, _d }]. *)
Inductive target := OfPromise (p : nat) | OfWrapper (w : nat).

(** The functions the module makes: [ctx($resolve, t)], [ctx($reject, t)], and the functions
    [Promise.all] hands to [then]. *)
Inductive builtin := Resolve (t : target) | Reject (t : target) | Element (a i : nat).

Inductive val :=
  | Undef
  | Data (n : Z)
  | Error (message : string)
  | Promise (p : nat)
  | Thenable (t : nat)            (* an object of the page with a method [then] *)
  | Builtin (f : builtin)
  | User (f : nat)                (* a function of the page *)
  | Array (l : list val).

(** Code of the page: what it does with promises until it returns or throws; the functions of the
    page that it calls are part of it. *)
Inductive prog :=
  | Return (v : val)
  | Throw (v : val)
  | New (executor : builtin -> builtin -> prog) (k : val -> prog)       (* [new Promise(executor)] *)
  | Then (v onFulfilled onRejected : val) (k : val -> prog)             (* [v.then(...)] *)
  | Call (f : builtin) (v : val) (k : prog)
  | PResolve (x : val) (k : val -> prog)                                (* [Promise.resolve(x)] *)
  | PReject (r : val) (k : val -> prog)
  | All (l : list val) (k : val -> prog)
  | Race (l : list val) (k : val -> prog).

(** ** State *)

Inductive status := Pending | Fulfilled | Rejected.
#[global] Instance status_eq_dec : EqDecision status.
Proof. solve_decision. Defined.

(** [reaction.ok] is a function or true, [reaction.fail] a function or false. *)
Inductive handler := Pass | NoHandler | Handle (f : val).

(** A capability: its resolving functions are those of its promise. *)
Record reaction := { r_ok : handler; r_fail : handler; r_promise : nat }.

Record promise := {
  _c : list reaction;               (* awaiting reactions *)
  _a : option (list reaction);      (* checked in isUnhandled *)
  _s : status;
  _d : bool;                        (* done *)
  _v : val;
  _h : Z;                           (* rejection: 0 nothing, 1 handled, 2 reported *)
  _n : bool                         (* notify is under way *)
}.

Record wrapper := { _w : nat; w_d : bool }.

(** The variables of one call of [Promise.all]. *)
Record all_call := { values : list val; called : list bool; remaining : Z; a_promise : nat }.

(** The closures given to [microtask] and to [task]. *)
Inductive microtask := Notify (p : nat) (isReject : bool) | CallThen (p : nat) (value : val).
Inductive macrotask := OnUnhandled (p : nat) | OnHandled (p : nat).

(** The microtask of [notify] while its loop runs. *)
Record loop := { l_promise : nat; l_reject : bool; l_value : val; l_ok : bool; l_i : nat }.

(** What happened, in order. *)
Inductive event :=
  | Registered (p q : nat)                         (* [then] of p answered q *)
  | Ran (p q : nat) (ok : bool) (value : val)      (* its reaction was run *)
  | Unhandled (p : nat) (value : val)
  | HandledLate (p : nat).

Record state := {
  promises : list promise;
  wrappers : list wrapper;
  alls : list all_call;
  queue : list microtask;
  tasks : list macrotask;
  running : option loop;
  trace : list event
}.

Definition set_promises f st := {| promises := f (promises st); wrappers := wrappers st; alls := alls st; queue := queue st; tasks := tasks st; running := running st; trace := trace st |}.
Definition set_wrappers f st := {| promises := promises st; wrappers := f (wrappers st); alls := alls st; queue := queue st; tasks := tasks st; running := running st; trace := trace st |}.
Definition set_alls f st := {| promises := promises st; wrappers := wrappers st; alls := f (alls st); queue := queue st; tasks := tasks st; running := running st; trace := trace st |}.
Definition set_queue f st := {| promises := promises st; wrappers := wrappers st; alls := alls st; queue := f (queue st); tasks := tasks st; running := running st; trace := trace st |}.
Definition set_tasks f st := {| promises := promises st; wrappers := wrappers st; alls := alls st; queue := queue st; tasks := f (tasks st); running := running st; trace := trace st |}.
Definition set_running r st := {| promises := promises st; wrappers := wrappers st; alls := alls st; queue := queue st; tasks := tasks st; running := r; trace := trace st |}.
Definition log e st := {| promises := promises st; wrappers := wrappers st; alls := alls st; queue := queue st; tasks := tasks st; running := running st; trace := trace st ++ [e] |}.

Definition upd (p : nat) (f : promise -> promise) : state -> state := set_promises (alter f p).
Definition add_microtask (t : microtask) : state -> state := set_queue (fun q => q ++ [t]).
Definition add_task (t : macrotask) : state -> state := set_tasks (fun q => q ++ [t]).

Definition with_c c x := {| _c := c; _a := _a x; _s := _s x; _d := _d x; _v := _v x; _h := _h x; _n := _n x |}.
Definition with_a a x := {| _c := _c x; _a := a; _s := _s x; _d := _d x; _v := _v x; _h := _h x; _n := _n x |}.
Definition with_d d x := {| _c := _c x; _a := _a x; _s := _s x; _d := d; _v := _v x; _h := _h x; _n := _n x |}.
Definition with_h h x := {| _c := _c x; _a := _a x; _s := _s x; _d := _d x; _v := _v x; _h := h; _n := _n x |}.
Definition with_n n x := {| _c := _c x; _a := _a x; _s := _s x; _d := _d x; _v := _v x; _h := _h x; _n := n |}.
Definition settle s v x := {| _c := _c x; _a := _a x; _s := s; _d := _d x; _v := v; _h := _h x; _n := _n x |}.

(** ** Settling *)

Definition isThenable (v : val) : bool := match v with Promise _ | Thenable _ => true | _ => false end.

(** [notify(promise, isReject)]; the array [promise._c] it captures stays that of the promise until
    the microtask ends. *)
Definition notify (p : nat) (isReject : bool) (st : state) : state :=
  match promises st !! p with
  | Some x => if _n x then st else add_microtask (Notify p isReject) (upd p (with_n true) st)
  | None => st
  end.

(** [promise._d], and [promise = promise._w || promise]. *)
Definition is_done (t : target) (st : state) : bool :=
  match t with
  | OfPromise p => match promises st !! p with Some x => _d x | None => true end
  | OfWrapper w => match wrappers st !! w with Some x => w_d x | None => true end
  end.
Definition set_done (t : target) : state -> state :=
  match t with
  | OfPromise p => upd p (with_d true)
  | OfWrapper w => set_wrappers (alter (fun x => {| _w := _w x; w_d := true |}) w)
  end.
Definition target_promise (t : target) (st : state) : nat :=
  match t with OfPromise p => p | OfWrapper w => match wrappers st !! w with Some x => _w x | None => 0%nat end end.

(** [$reject] once it is known not to be done. *)
Definition reject_promise (p : nat) (value : val) (st : state) : state :=
  notify p true (upd p (fun x => let x := settle Rejected value x in
    match _a x with None => with_a (Some (_c x)) x | Some _ => x end) st).

Definition do_reject (t : target) (value : val) (st : state) : state :=
  if is_done t st then st else reject_promise (target_promise t st) value (set_done t st).

(** In the branch of the exception the wrapper is new, so [$reject] is not done. *)
Definition do_resolve (t : target) (value : val) (st : state) : state :=
  if is_done t st then st
  else
    let p := target_promise t st in
    let st := set_done t st in
    match value with
    | Promise q => if bool_decide (q = p) then reject_promise p (Error "Promise can't be resolved itself") st
                   else add_microtask (CallThen p value) st
    | Thenable _ => add_microtask (CallThen p value) st
    | _ => notify p false (upd p (settle Fulfilled value) st)
    end.

(** ** Making promises *)

Definition Internal : promise := {| _c := []; _a := None; _s := Pending; _d := false; _v := Undef; _h := 0; _n := false |}.

Definition new_promise (st : state) : nat * state := (length (promises st), set_promises (fun l => l ++ [Internal]) st).

Definition is_function (v : val) : bool := match v with Builtin _ | User _ => true | _ => false end.

(** [Promise.prototype.then] *)
Definition then_ (p : nat) (onFulfilled onRejected : val) (st : state) : nat * state :=
  let '(q, st) := new_promise st in
  let r := {| r_ok := if is_function onFulfilled then Handle onFulfilled else Pass;
              r_fail := if is_function onRejected then Handle onRejected else NoHandler; r_promise := q |} in
  let st := upd p (fun x => with_a (match _a x with Some l => Some (l ++ [r]) | None => None end) (with_c (_c x ++ [r]) x)) st in
  (q, match promises st !! p with
      | Some x => let st := log (Registered p q) st in if bool_decide (_s x = Pending) then st else notify p false st
      | None => st
      end).

(** [promiseResolve(Promise, x)] *)
Definition promiseResolve (x : val) (st : state) : nat * state :=
  match x with
  | Promise p => (p, st)
  | _ => let '(q, st) := new_promise st in (q, do_resolve (OfPromise q) x st)
  end.

(** The function [Promise.all] gives to [then] for the element of index [i]. *)
Definition element (a i : nat) (value : val) (st : state) : state :=
  match alls st !! a with
  | Some x =>
      match called x !! i with
      | Some false =>
          let x := {| values := <[i := value]> (values x); called := <[i := true]> (called x); remaining := remaining x - 1; a_promise := a_promise x |} in
          let st := set_alls (<[a := x]>) st in
          if remaining x =? 0 then do_resolve (OfPromise (a_promise x)) (Array (values x)) st else st
      | _ => st
      end
  | None => st
  end.

Definition call_builtin (f : builtin) (v : val) : state -> state :=
  match f with Resolve t => do_resolve t v | Reject t => do_reject t v | Element a i => element a i v end.

Definition all_element (a q : nat) (st : state) (x : val) : state :=
  let i := match alls st !! a with Some c => length (values c) | None => 0%nat end in
  let st := set_alls (alter (fun c => {| values := values c ++ [Undef]; called := called c ++ [false]; remaining := remaining c + 1; a_promise := a_promise c |}) a) st in
  let '(p, st) := promiseResolve x st in
  (then_ p (Builtin (Element a i)) (Builtin (Reject (OfPromise q))) st).2.

Definition all (l : list val) (st : state) : nat * state :=
  let '(q, st) := new_promise st in
  let a := length (alls st) in
  let st := set_alls (fun x => x ++ [{| values := []; called := []; remaining := 1; a_promise := q |}]) st in
  let st := foldl (all_element a q) st l in
  let st := set_alls (alter (fun c => {| values := values c; called := called c; remaining := remaining c - 1; a_promise := a_promise c |}) a) st in
  (q, match alls st !! a with
      | Some c => if remaining c =? 0 then do_resolve (OfPromise q) (Array (values c)) st else st
      | None => st
      end).

Definition race_element (q : nat) (st : state) (x : val) : state :=
  let '(p, st) := promiseResolve x st in
  (then_ p (Builtin (Resolve (OfPromise q))) (Builtin (Reject (OfPromise q))) st).2.

Definition race (l : list val) (st : state) : nat * state :=
  let '(q, st) := new_promise st in (q, foldl (race_element q) st l).

Definition reject_static (r : val) (st : state) : nat * state :=
  let '(q, st) := new_promise st in (q, do_reject (OfPromise q) r st).

(** ** Code of the page *)

(** What code returns ([inr]) or throws ([inl]). *)
Fixpoint exec (c : prog) (st : state) : (val + val) * state :=
  match c with
  | Return v => (inr v, st)
  | Throw v => (inl v, st)
  | New executor k =>
      let '(p, st) := new_promise st in
      let '(r, st) := exec (executor (Resolve (OfPromise p)) (Reject (OfPromise p))) st in
      exec (k (Promise p)) (match r with inl e => do_reject (OfPromise p) e st | inr _ => st end)
  | Then v f g k =>
      match v with
      | Promise p => let '(q, st) := then_ p f g st in exec (k (Promise q)) st
      | _ => (inl (Error "then is not a function"), st)
      end
  | Call f v k => exec k (call_builtin f v st)
  | PResolve x k => let '(q, st) := promiseResolve x st in exec (k (Promise q)) st
  | PReject r k => let '(q, st) := reject_static r st in exec (k (Promise q)) st
  | All l k => let '(q, st) := all l st in exec (k (Promise q)) st
  | Race l k => let '(q, st) := race l st in exec (k (Promise q)) st
  end.

Section Page.
(** The functions of the page, and the methods [then] of its objects. *)
Context (user : nat -> val -> prog) (method : nat -> val -> val -> prog).

Definition call_function (f v : val) (st : state) : (val + val) * state :=
  match f with
  | Builtin b => (inr Undef, call_builtin b v st)
  | User u => exec (user u v) st
  | _ => (inl (Error "not a function"), st)
  end.

(** [then.call(value, resolve, reject)] *)
Definition call_then (value : val) (resolve reject : builtin) (st : state) : (val + val) * state :=
  match value with
  | Promise p => let '(q, st) := then_ p (Builtin resolve) (Builtin reject) st in (inr (Promise q), st)
  | Thenable t => exec (method t (Builtin resolve) (Builtin reject)) st
  | _ => (inr Undef, st)
  end.

(** ** Microtasks *)

(** The handler is called, or [value] passed on. *)
Definition handled (h : handler) (value : val) (st : state) : (val + val) * state :=
  match h with Handle f => call_function f value st | _ => (inr value, st) end.

(** [result] becomes what the promise of the reaction is resolved with. *)
Definition settle_with (q : nat) (result : val) (st : state) : state :=
  if (match result with Promise q' => bool_decide (q' = q) | _ => false end) then do_reject (OfPromise q) (Error "Promise-chain cycle") st
  else if isThenable result then
    match call_then result (Resolve (OfPromise q)) (Reject (OfPromise q)) st with
    | (inl e, st) => do_reject (OfPromise q) e st
    | (inr _, st) => st
    end
  else do_resolve (OfPromise q) result st.

(** [run(reaction)] *)
Definition run_reaction (p : nat) (r : reaction) (ok : bool) (value : val) (st : state) : state :=
  let st := log (Ran p (r_promise r) ok value) st in
  match (if ok then r_ok r else r_fail r) with
  | NoHandler => do_reject (OfPromise (r_promise r)) value st
  | h =>
      let st := if ok then st else
        let reported := match promises st !! p with Some x => _h x =? 2 | None => false end in
        upd p (with_h 1) (if reported then add_task (OnHandled p) st else st) in
      match handled h value st with
      | (inl e, st) => do_reject (OfPromise (r_promise r)) e st
      | (inr result, st) => settle_with (r_promise r) result st
      end
  end.

(** One step of [flush]: a reaction, the end of a loop, or the next microtask. *)
Definition micro_step (st : state) : option state :=
  match running st with
  | Some l =>
      let p := l_promise l in
      x ← promises st !! p;
      Some (match _c x !! l_i l with
            | Some r => run_reaction p r (l_ok l) (l_value l)
                          (set_running (Some {| l_promise := p; l_reject := l_reject l; l_value := l_value l; l_ok := l_ok l; l_i := S (l_i l) |}) st)
            | None =>
                let st := set_running None (upd p (fun x => with_n false (with_c [] x)) st) in
                if l_reject l && (_h x =? 0) then add_task (OnUnhandled p) st else st
            end)
  | None =>
      match queue st with
      | [] => None
      | Notify p isReject :: q =>
          x ← promises st !! p;
          Some (set_running (Some {| l_promise := p; l_reject := isReject; l_value := _v x; l_ok := bool_decide (_s x = Fulfilled); l_i := 0 |})
                 (set_queue (fun _ => q) st))
      | CallThen p value :: q =>
          let w := length (wrappers st) in
          let st := set_wrappers (fun l => l ++ [{| _w := p; w_d := false |}]) (set_queue (fun _ => q) st) in
          Some (match call_then value (Resolve (OfWrapper w)) (Reject (OfWrapper w)) st with
                | (inl e, st) => do_reject (OfWrapper w) e st
                | (inr _, st) => st
                end)
      end
  end.

(** ** Tasks: rejections nobody handles *)

Definition isUnhandled (x : promise) : bool :=
  negb (_h x =? 1) && bool_decide (default (_c x) (_a x) = []).

Definition run_task (t : macrotask) (st : state) : state :=
  match t with
  | OnUnhandled p =>
      match promises st !! p with
      | Some x =>
          let st := if isUnhandled x then upd p (with_h 2) (log (Unhandled p (_v x)) st) else st in
          upd p (with_a None) st
      | None => st
      end
  | OnHandled p => log (HandledLate p) st
  end.

(** The page runs code of its own, or a task, between microtasks. *)
Inductive step : state -> state -> Prop :=
  | step_micro st st' : micro_step st = Some st' -> step st st'
  | step_page st c : running st = None -> step st (exec c st).2
  | step_task st t l : running st = None -> tasks st = t :: l -> step st (run_task t (set_tasks (fun _ => l) st)).
End Page.

Definition start : state := {| promises := []; wrappers := []; alls := []; queue := []; tasks := []; running := None; trace := [] |}.
Definition idle (st : state) : Prop := running st = None /\ queue st = [].

(** Microtasks as far as they go. *)
Fixpoint flush (fuel : nat) (user : nat -> val -> prog) (method : nat -> val -> val -> prog) (st : state) : state :=
  match fuel with
  | O => st
  | S n => match micro_step user method st with Some st' => flush n user method st' | None => st end
  end.
