(* ===== verification/CorePromiseLaws.v ===== *)
(** Promises settle once, and every reaction is run, once and in order. *)
From stdpp Require Import relations.
From S2P Require Import Prelude CorePromise.

(** ** Counting *)

Definition bit (b : bool) : nat := if b then 1%nat else 0%nat.
Fixpoint count {A} (f : A -> bool) (l : list A) : nat := match l with [] => 0%nat | x :: l' => (bit (f x) + count f l')%nat end.

Lemma count_app {A} f (l k : list A) : count f (l ++ k) = (count f l + count f k)%nat.
Proof. induction l as [|x l IH]; cbn; [done|]. rewrite IH. lia. Qed.
Lemma count_alter {A} f g (l : list A) i x : l !! i = Some x -> (count f (alter g i l) + bit (f x) = count f l + bit (f (g x)))%nat.
Proof.
  revert i. induction l as [|y l IH]; intros [|i] H; [done|done| |].
  - injection H as <-. cbn. lia.
  - cbn in H |- *. specialize (IH i H). lia.
Qed.

(** ** What concerns one promise *)

Definition thens_for (p : nat) (t : microtask) : bool := match t with CallThen p' _ => bool_decide (p' = p) | _ => false end.
Definition notes_for (p : nat) (t : microtask) : bool := match t with Notify p' _ => bool_decide (p' = p) | _ => false end.
Definition open_for (p : nat) (w : wrapper) : bool := bool_decide (_w w = p) && negb (w_d w).
Definition loop_of (p : nat) (st : state) : option loop :=
  match running st with Some l => if bool_decide (l_promise l = p) then Some l else None | None => None end.
Definition registered (p : nat) (l : list event) : list nat :=
  omap (fun e => match e with Registered p' q => if bool_decide (p' = p) then Some q else None | _ => None end) l.
Definition ran (p : nat) (l : list event) : list (nat * bool * val) :=
  omap (fun e => match e with Ran p' q ok v => if bool_decide (p' = p) then Some (q, ok, v) else None | _ => None end) l.

#[local] Arguments loop_of : simpl never.
#[local] Arguments registered : simpl never.
#[local] Arguments ran : simpl never.

Lemma loop_of_eq st st' p : running st' = running st -> loop_of p st' = loop_of p st.
Proof. unfold loop_of. by intros ->. Qed.

Record view := { v_promise : option promise; v_thens : nat; v_open : nat; v_notes : nat; v_loop : option loop; v_reg : list nat; v_ran : list (nat * bool * val) }.
Definition look (st : state) (p : nat) : view :=
  {| v_promise := promises st !! p; v_thens := count (thens_for p) (queue st); v_open := count (open_for p) (wrappers st);
     v_notes := count (notes_for p) (queue st); v_loop := loop_of p st; v_reg := registered p (trace st); v_ran := ran p (trace st) |}.

Definition settled (x : promise) : bool := negb (bool_decide (_s x = Pending)).
Definition outcome (ok : bool) : status := if ok then Fulfilled else Rejected.

(** Every promise has [k] ways left to be settled, counting its having been settled; it is being
    notified exactly while [_n] is set; its reactions are those run and those waiting; it is never
    fulfilled with another promise. *)
Definition ok_at (k : nat) (v : view) : Prop :=
  match v_promise v with
  | None => v_thens v = 0%nat /\ v_open v = 0%nat /\ v_notes v = 0%nat /\ v_loop v = None /\ v_reg v = [] /\ v_ran v = []
  | Some x =>
      (bit (negb (_d x)) + v_thens v + v_open v + bit (settled x) = k)%nat /\
      (v_notes v + bit (bool_decide (is_Some (v_loop v))) = bit (_n x))%nat /\
      (_n x = true -> settled x = true) /\
      (settled x = true -> _n x = false -> _c x = []) /\
      (forall l, v_loop v = Some l -> (l_i l <= length (_c x))%nat /\ l_value l = _v x /\ _s x = outcome (l_ok l)) /\
      v_reg v = (v_ran v).*1.*1 ++ (r_promise <$> drop (match v_loop v with Some l => l_i l | None => 0%nat end) (_c x)) /\
      Forall (fun e => _s x = outcome e.1.2 /\ _v x = e.2) (v_ran v) /\
      (_s x = Fulfilled -> isThenable (_v x) = false)
  end.

Definition Inv (st : state) : Prop := forall p, ok_at 1 (look st p).
(** The promise [p] has just lost its way to be settled. *)
Definition Inv_but (p : nat) (st : state) : Prop := forall p', ok_at (if bool_decide (p' = p) then 0 else 1) (look st p').

(** Settled promises stay as they are. *)
Definition keeps (st st' : state) : Prop := forall p x, promises st !! p = Some x -> _s x <> Pending ->
  exists x', promises st' !! p = Some x' /\ _s x' = _s x /\ _v x' = _v x.

Lemma keeps_refl st : keeps st st.
Proof. intros p x H _. by exists x. Qed.
Lemma keeps_trans st1 st2 st3 : keeps st1 st2 -> keeps st2 st3 -> keeps st1 st3.
Proof.
  intros H1 H2 p x Hx Hs. destruct (H1 p x Hx Hs) as (x' & Hx' & E1 & E2). destruct (H2 p x' Hx') as (x'' & Hx'' & E3 & E4); [by rewrite E1|].
  exists x''. by rewrite E3, E4.
Qed.
Lemma keeps_same st st' : promises st' = promises st -> keeps st st'.
Proof. intros E p x H _. exists x. by rewrite E. Qed.

(** An operation that leads from invariant states to invariant states. *)
Definition good (st st' : state) : Prop := Inv st -> Inv st' /\ keeps st st'.

Lemma inv_refl st : good st st.
Proof. intros H. split; [done|apply keeps_refl]. Qed.
Lemma inv_trans st1 st2 st3 : good st1 st2 -> good st2 st3 -> good st1 st3.
Proof. intros H1 H2 H. destruct (H1 H) as [I1 K1]. destruct (H2 I1) as [I2 K2]. split; [done|by eapply keeps_trans]. Qed.
Lemma good_look st st' : (forall p, look st' p = look st p) -> good st st'.
Proof.
  intros E H. split; [intros p; rewrite E; apply H|]. apply keeps_same. apply list_eq. intros p. exact (f_equal v_promise (E p)).
Qed.

(** ** Looking after a change *)

Lemma lookup_upd st p f p' : promises (upd p f st) !! p' = if bool_decide (p' = p) then f <$> promises st !! p else promises st !! p'.
Proof. cbn. case_bool_decide; [subst; apply list_lookup_alter_eq|by apply list_lookup_alter_ne]. Qed.

Lemma omap_snoc {A B} (f : A -> option B) l x : omap f (l ++ [x]) = omap f l ++ match f x with Some y => [y] | None => [] end.
Proof. rewrite omap_app. cbn. by destruct (f x). Qed.

(** Only [_a] and [_h] may differ. *)
Definition same_core (x y : promise) : Prop := _c y = _c x /\ _s y = _s x /\ _d y = _d x /\ _v y = _v x /\ _n y = _n x.

Lemma good_core st p f : (forall x, same_core x (f x)) -> good st (upd p f st).
Proof.
  intros Hf H. split.
  - intros p'. specialize (H p'). unfold ok_at, look in *. cbn -[upd] in *. rewrite lookup_upd. destruct (bool_decide_reflect (p' = p)) as [->|Hne]; [|done].
    destruct (promises st !! p) as [x|]; [|done]. cbn. destruct (Hf x) as (E1 & E2 & E3 & E4 & E5). unfold settled. by rewrite E1, E2, E3, E4, E5.
  - intros p' x Hx Hs. rewrite lookup_upd. destruct (bool_decide_reflect (p' = p)) as [->|Hne]; [|by exists x]. rewrite Hx. cbn.
    destruct (Hf x) as (E1 & E2 & E3 & E4 & E5). by exists (f x).
Qed.

Lemma good_alls st f : good st (set_alls f st).
Proof. by apply good_look. Qed.
Lemma good_task st t : good st (add_task t st).
Proof. by apply good_look. Qed.
Lemma good_tasks st f : good st (set_tasks f st).
Proof. by apply good_look. Qed.
Lemma good_log st e : (match e with Unhandled _ _ | HandledLate _ => true | _ => false end) = true -> good st (log e st).
Proof.
  intros He. apply good_look. intros p. unfold look, registered, ran. cbn. rewrite !omap_snoc. destruct e; try done; by rewrite !app_nil_r.
Qed.

Lemma keeps_upd st p f : (forall x, promises st !! p = Some x -> _s x <> Pending -> _s (f x) = _s x /\ _v (f x) = _v x) -> keeps st (upd p f st).
Proof.
  intros Hf p' x Hx Hs. rewrite lookup_upd. destruct (bool_decide_reflect (p' = p)) as [->|Hne]; [|by exists x]. rewrite Hx. cbn. exists (f x). split; [done|]. by apply Hf.
Qed.

(** ** Settling *)

Lemma count_ext {A} (f g : A -> bool) l : (forall x, f x = g x) -> count f l = count g l.
Proof. intros H. induction l as [|x l IH]; cbn; [done|]. by rewrite H, IH. Qed.

(** A resolving function is used up. *)
Lemma consume st t : Inv st -> is_done t st = false ->
  exists x, promises (set_done t st) !! target_promise t st = Some x /\ Inv_but (target_promise t st) (set_done t st) /\ keeps st (set_done t st).
Proof.
  intros H Hd. destruct t as [p|w]; cbn [is_done target_promise set_done] in *.
  - destruct (promises st !! p) as [x|] eqn:Hx; [|done]. exists (with_d true x). rewrite lookup_upd, bool_decide_eq_true_2, Hx by done. split; [done|]. split.
    + intros p'. specialize (H p'). unfold ok_at, look in *. cbn -[upd] in *. rewrite lookup_upd. destruct (bool_decide_reflect (p' = p)) as [->|Hne]; [|done].
      rewrite Hx in H |- *. cbn. rewrite Hd in H. cbn in H. unfold settled in *. cbn. destruct H as (H & H'). split; [lia|]. exact H'.
    + apply keeps_upd. done.
  - destruct (wrappers st !! w) as [y|] eqn:Hy; [|done]. set (g := fun x : wrapper => {| _w := _w x; w_d := true |}).
    assert (Hc : forall p', (count (open_for p') (alter g w (wrappers st)) + bit (bool_decide (_w y = p')) = count (open_for p') (wrappers st))%nat).
    { intros p'. pose proof (count_alter (open_for p') g (wrappers st) w y Hy) as Hc. unfold open_for at 2 4 in Hc. cbn in Hc.
      rewrite Hd, andb_true_r, andb_false_r in Hc. cbn in Hc. lia. }
    pose proof (H (_w y)) as H0. unfold ok_at, look in H0. cbn in H0. specialize (Hc (_w y)) as Hcy. rewrite bool_decide_eq_true_2 in Hcy by done. cbn in Hcy.
    cbn [set_wrappers promises]. destruct (promises st !! _w y) as [x|] eqn:Hx; [|lia]. exists x. split; [done|]. split; [|by apply keeps_same].
    intros p'. specialize (H p'). specialize (Hc p'). unfold ok_at, look in *. cbn in *. destruct (promises st !! p') as [x'|] eqn:Hx'.
    + destruct H as (H & H'). split; [|exact H']. rewrite (bool_decide_ext (p' = _w y) (_w y = p')) by done. destruct (bool_decide (_w y = p')); cbn in *; lia.
    + destruct H as (? & H1 & H'). split; [done|]. split; [lia|exact H'].
Qed.

(** A promise without a way to be settled is settled. *)
Lemma ok_0 v x : v_promise v = Some x -> ok_at 0 v ->
  _d x = true /\ _s x = Pending /\ _n x = false /\ v_thens v = 0%nat /\ v_open v = 0%nat /\ v_notes v = 0%nat /\ v_loop v = None /\ v_ran v = [] /\ v_reg v = r_promise <$> _c x.
Proof.
  unfold ok_at. intros ->. intros (H & Hn & Hns & _ & _ & Hreg & Hran & _). unfold settled in *.
  assert (Hs : _s x = Pending) by (destruct (bool_decide_reflect (_s x = Pending)); cbn in H; [done|lia]).
  rewrite bool_decide_eq_true_2 in H, Hns by done. cbn in H, Hns. assert (En : _n x = false) by (destruct (_n x); [by specialize (Hns eq_refl)|done]).
  rewrite En in Hn. cbn in Hn. assert (El : v_loop v = None) by (destruct (v_loop v); [cbn in Hn; lia|done]).
  assert (Er : v_ran v = []) by (destruct (v_ran v) as [|[[q ok] z] l]; [done|]; apply list.Forall_cons in Hran as [[E _] _]; rewrite Hs in E; by destruct ok).
  rewrite Er, El in Hreg. cbn in Hreg. destruct (_d x); cbn in H; repeat split; (done || lia).
Qed.

Definition notified (p : nat) (b : bool) (st : state) : state := add_microtask (Notify p b) (upd p (with_n true) st).

Lemma look_notified st p b x : promises st !! p = Some x ->
  look (notified p b st) p = {| v_promise := Some (with_n true x); v_thens := v_thens (look st p); v_open := v_open (look st p);
    v_notes := v_notes (look st p) + 1; v_loop := v_loop (look st p); v_reg := v_reg (look st p); v_ran := v_ran (look st p) |}.
Proof.
  intros Hx. unfold look, notified. cbn -[upd]. rewrite !count_app, lookup_upd, bool_decide_eq_true_2, Hx by done. cbn.
  rewrite bool_decide_eq_true_2 by done. by rewrite Nat.add_0_r.
Qed.

Lemma fulfil st p x b f : Inv_but p st -> promises st !! p = Some x ->
  _c (f x) = _c x -> _d (f x) = _d x -> _n (f x) = _n x -> _s (f x) <> Pending ->
  (_s (f x) = Fulfilled -> isThenable (_v (f x)) = false) ->
  Inv (notify p b (upd p f st)) /\ keeps st (notify p b (upd p f st)).
Proof.
  intros H Hx Ec Ed En Es Ef. pose proof (H p) as Hp. rewrite bool_decide_eq_true_2 in Hp by done.
  destruct (ok_0 (look st p) x Hx Hp) as (Hd & Hs & Hn & Ht & Ho & Hnt & Hl & Hr & Hreg). cbn in Ht, Ho, Hnt, Hl, Hr, Hreg.
  assert (E : notify p b (upd p f st) = notified p b (upd p f st)).
  { unfold notify. rewrite lookup_upd, bool_decide_eq_true_2, Hx by done. cbn -[upd]. by rewrite En, Hn. }
  rewrite E. split.
  - intros p'. specialize (H p'). unfold ok_at, look, notified in *. cbn -[upd] in *. rewrite !count_app. cbn -[upd] in *. rewrite !lookup_upd.
    destruct (decide (p' = p)) as [->|Hne].
    + rewrite !(bool_decide_eq_true_2 (p = p)), Hx by done. cbn. clear H. rewrite (loop_of_eq st) by done.
      rewrite Hl, Ht, Ho, Hnt, Hr, Hreg, Ec, Ed, Hd. unfold settled. cbn. rewrite bool_decide_eq_false_2 by done. by repeat split.
    + rewrite (bool_decide_eq_false_2 (p' = p)) in H by done. rewrite (bool_decide_eq_false_2 (p' = p)), (bool_decide_eq_false_2 (p = p')) by congruence. cbn. by rewrite !Nat.add_0_r.
  - unfold notified. eapply keeps_trans; [|by apply keeps_same]. eapply keeps_trans; apply keeps_upd; [|done].
    intros y Hy Hp'. rewrite Hx in Hy. injection Hy as <-. done.
Qed.

(** Its settling is put off to a microtask. *)
Lemma defer st p x value : Inv_but p st -> promises st !! p = Some x ->
  Inv (add_microtask (CallThen p value) st) /\ keeps st (add_microtask (CallThen p value) st).
Proof.
  intros H Hx. split; [|by apply keeps_same]. intros p'. specialize (H p'). unfold ok_at, look in *. cbn in *. rewrite !count_app. cbn.
  destruct (decide (p' = p)) as [->|Hne].
  - rewrite (bool_decide_eq_true_2 (p = p)) in H |- * by done. rewrite Hx in H |- *. cbn. rewrite !Nat.add_0_r. destruct H as (H & H'). split; [lia|exact H'].
  - rewrite (bool_decide_eq_false_2 (p' = p)) in H by done. rewrite (bool_decide_eq_false_2 (p = p')) by congruence. cbn. by rewrite !Nat.add_0_r.
Qed.

Lemma keeps_then st st1 st2 : keeps st st1 -> Inv st2 /\ keeps st1 st2 -> Inv st2 /\ keeps st st2.
Proof. intros K1 [I K2]. split; [done|by eapply keeps_trans]. Qed.

Lemma good_reject st t v : good st (do_reject t v st).
Proof.
  intros H. unfold do_reject. destruct (is_done t st) eqn:Hd; [by apply inv_refl|]. destruct (consume st t H Hd) as (x & Hx & H1 & K).
  eapply keeps_then; [exact K|]. apply (fulfil _ _ x); [done|done|by destruct (_a x) eqn:E; cbn; rewrite E..].
Qed.

Lemma good_resolve st t v : good st (do_resolve t v st).
Proof.
  intros H. unfold do_resolve. destruct (is_done t st) eqn:Hd; [by apply inv_refl|]. destruct (consume st t H Hd) as (x & Hx & H1 & K).
  cbv zeta. eapply keeps_then; [exact K|]. destruct v; try (by apply (fulfil _ _ x)); [|by apply (defer _ _ x)].
  case_bool_decide; [|by apply (defer _ _ x)]. apply (fulfil _ _ x); [done|done|by destruct (_a x) eqn:E; cbn; rewrite E..].
Qed.

(** ** Making promises *)

Lemma look_out st p : Inv st -> promises st !! p = None ->
  count (thens_for p) (queue st) = 0%nat /\ count (open_for p) (wrappers st) = 0%nat /\ count (notes_for p) (queue st) = 0%nat /\
  loop_of p st = None /\ registered p (trace st) = [] /\ ran p (trace st) = [].
Proof. intros H Hx. specialize (H p). unfold ok_at, look in H. cbn in H. by rewrite Hx in H. Qed.

Lemma good_new st : good st (new_promise st).2.
Proof.
  intros H. split.
  - intros p. pose proof (H p) as Hp. unfold ok_at, look in *. cbn in *. destruct (decide (p < length (promises st))%nat) as [Hlt|Hge].
    + by rewrite lookup_app_l by lia.
    + rewrite lookup_ge_None_2 in Hp by lia. destruct Hp as (E1 & E2 & E3 & E4 & E5 & E6). rewrite lookup_app_r by lia.
      rewrite (loop_of_eq st) by done. destruct (p - length (promises st))%nat as [|k]; cbn.
      * rewrite E1, E2, E3, E4, E5, E6. by repeat split.
      * done.
  - intros p x Hx Hs. exists x. cbn. split; [by apply lookup_app_l_Some|done].
Qed.

Lemma good_notify st p x b : promises st !! p = Some x -> settled x = true -> (forall p', p' <> p -> ok_at 1 (look st p')) ->
  (_n x = false -> ok_at 1 (look (notified p b st) p)) -> (_n x = true -> ok_at 1 (look st p)) -> Inv (notify p b st) /\ keeps st (notify p b st).
Proof.
  intros Hx Hs Hother Hf Ht. unfold notify. rewrite Hx. destruct (_n x) eqn:En.
  - split; [|apply keeps_refl]. intros p'. destruct (decide (p' = p)) as [->|Hne]; auto.
  - split; [|eapply keeps_trans; [apply (keeps_upd st p (with_n true)); done|by apply keeps_same]].
    intros p'. destruct (decide (p' = p)) as [->|Hne]; [by apply Hf|]. specialize (Hother p' Hne).
    unfold ok_at, look in *. cbn -[upd] in *. rewrite !count_app, lookup_upd. cbn.
    rewrite !bool_decide_eq_false_2 by congruence. by rewrite !Nat.add_0_r.
Qed.

(** [then] after its capability is made. *)
Definition push_reaction (p : nat) (r : reaction) (st : state) : state :=
  let st := upd p (fun x => with_a (match _a x with Some l => Some (l ++ [r]) | None => None end) (with_c (_c x ++ [r]) x)) st in
  match promises st !! p with
  | Some x => let st := log (Registered p (r_promise r)) st in if bool_decide (_s x = Pending) then st else notify p false st
  | None => st
  end.

Definition reaction_of (f g : val) (q : nat) : reaction :=
  {| r_ok := if is_function f then Handle f else Pass; r_fail := if is_function g then Handle g else NoHandler; r_promise := q |}.

Lemma then_push p f g st : (then_ p f g st).2 = push_reaction p (reaction_of f g (length (promises st))) (new_promise st).2.
Proof. reflexivity. Qed.

Lemma loop_drop l (x : promise) r : (match l with Some l => l_i l | None => 0 end <= length (_c x))%nat ->
  r_promise <$> drop (match l with Some l => l_i l | None => 0%nat end) (_c x ++ [r]) =
  (r_promise <$> drop (match l with Some l => l_i l | None => 0%nat end) (_c x)) ++ [r_promise r].
Proof. intros H. rewrite drop_app_le by done. by rewrite fmap_app. Qed.

Lemma good_push st p r : good st (push_reaction p r st).
Proof.
  intros H. unfold push_reaction. set (g := fun x : promise => with_a _ _). rewrite lookup_upd, bool_decide_eq_true_2 by done.
  destruct (promises st !! p) as [x|] eqn:Hx; cbn [fmap option_fmap option_map].
  2: { refine (good_look _ _ _ H). intros p'. unfold look. rewrite lookup_upd. destruct (bool_decide_reflect (p' = p)) as [->|]; [by rewrite Hx|done]. }
  assert (K : keeps st (log (Registered p (r_promise r)) (upd p g st))) by (eapply keeps_trans; [by apply (keeps_upd st p g)|by apply keeps_same]).
  assert (Hother : forall p', p' <> p -> ok_at 1 (look (log (Registered p (r_promise r)) (upd p g st)) p')).
  { intros p' Hne. specialize (H p'). unfold ok_at, look in *. cbn -[upd] in *. rewrite lookup_upd, bool_decide_eq_false_2 by done.
    rewrite (loop_of_eq st) by done. unfold registered, ran in *. rewrite !omap_snoc. rewrite (bool_decide_eq_false_2 (p = p')) by congruence. by rewrite !app_nil_r. }
  assert (Hlook : look (log (Registered p (r_promise r)) (upd p g st)) p =
    {| v_promise := Some (g x); v_thens := v_thens (look st p); v_open := v_open (look st p); v_notes := v_notes (look st p);
       v_loop := v_loop (look st p); v_reg := v_reg (look st p) ++ [r_promise r]; v_ran := v_ran (look st p) |}).
  { unfold look. cbn -[upd]. rewrite lookup_upd, bool_decide_eq_true_2, Hx by done. rewrite (loop_of_eq st) by done.
    unfold registered, ran. rewrite !omap_snoc, (bool_decide_eq_true_2 (p = p)), app_nil_r by done. done. }
  pose proof (H p) as Hp. unfold ok_at in Hp. cbn [v_promise look] in Hp. rewrite Hx in Hp. destruct Hp as (H1 & H2 & H3 & H4 & H5 & H6 & H7 & H8).
  assert (Hi : (match v_loop (look st p) with Some l => l_i l | None => 0 end <= length (_c x))%nat).
  { destruct (v_loop (look st p)) as [l|] eqn:El; [|lia]. by apply (H5 l). }
  pose proof (loop_drop _ x r Hi) as Hdrop.
  assert (Hgen : (settled x = true -> _n x = false -> False) -> ok_at 1 (look (log (Registered p (r_promise r)) (upd p g st)) p)).
  { intros Hno. rewrite Hlook. unfold ok_at. cbn [v_promise v_thens v_open v_notes v_loop v_reg v_ran].
    split; [exact H1|]. split; [exact H2|]. split; [exact H3|]. split; [intros A B; by destruct Hno|]. split.
    - intros l Hl. destruct (H5 l Hl) as (? & ? & ?). split; [cbn; rewrite length_app; lia|done].
    - split; [|done]. cbn [g with_a with_c _c]. by rewrite Hdrop, H6, app_assoc. }
  change (_s (g x)) with (_s x). destruct (bool_decide_reflect (_s x = Pending)) as [Hs|Hs].
  - split; [|done]. intros p'. destruct (decide (p' = p)) as [->|Hne]; [|by apply Hother]. apply Hgen. unfold settled. by rewrite bool_decide_eq_true_2.
  - eapply keeps_then; [exact K|]. apply (good_notify _ p (g x)); [change (promises (upd p g st) !! p = Some (g x)); by rewrite lookup_upd, bool_decide_eq_true_2, Hx|by unfold settled; cbn; rewrite bool_decide_eq_false_2|done| |].
    + cbn. intros Hn. pose proof (H4 ltac:(unfold settled; by rewrite bool_decide_eq_false_2) Hn) as Hc. rewrite Hn in H2. cbn in H2.
      assert (El : loop_of p st = None) by (cbn in H2; destruct (loop_of p st); [cbn in H2; lia|done]).
      cbn in H1, H2, H6, H7. rewrite El in H2, H6. cbn in H2, H6. rewrite Hc in H6. cbn in H6. rewrite app_nil_r in H6.
      rewrite (look_notified _ p false (g x)) by exact (f_equal v_promise Hlook). rewrite Hlook. unfold ok_at. cbn. rewrite El. cbn.
      rewrite H6, Hc. split; [unfold settled in *; cbn; lia|]. split; [lia|]. split; [unfold settled; cbn; by rewrite bool_decide_eq_false_2|]. done.
    + intros Hn. apply Hgen. intros _ Hn'. cbn in Hn. by rewrite Hn in Hn'.
Qed.

Lemma good_then p f g st : good st (then_ p f g st).2.
Proof. rewrite then_push. eapply inv_trans; [apply good_new|apply good_push]. Qed.

Lemma good_promiseResolve x st : good st (promiseResolve x st).2.
Proof. destruct x; try (eapply inv_trans; [apply good_new|apply good_resolve]). apply inv_refl. Qed.

Lemma good_element a i v st : good st (element a i v st).
Proof.
  unfold element. destruct (alls st !! a) as [x|]; [|apply inv_refl]. destruct (called x !! i) as [[]|]; try apply inv_refl. cbv zeta.
  eapply inv_trans; [apply (good_alls st)|]. destruct (_ =? 0); [apply good_resolve|apply inv_refl].
Qed.

Lemma good_builtin f v st : good st (call_builtin f v st).
Proof. destruct f; [apply good_resolve|apply good_reject|apply good_element]. Qed.

Lemma good_foldl {A} (f : state -> A -> state) l st : (forall st x, good st (f st x)) -> good st (foldl f st l).
Proof. intros Hf. revert st. induction l as [|x l IH]; intros st; cbn; [apply inv_refl|]. eapply inv_trans; [apply Hf|apply IH]. Qed.

Lemma good_pair st (c : nat * state) (f : nat -> state -> state) : good st c.2 -> (forall q st, good st (f q st)) ->
  good st (let '(q, st) := c in f q st).
Proof. destruct c as [q st1]. intros H1 H2. by eapply inv_trans. Qed.

Lemma good_all_element a q st x : good st (all_element a q st x).
Proof.
  unfold all_element. cbv zeta. eapply inv_trans; [apply (good_alls st)|]. apply good_pair; [apply good_promiseResolve|]. intros. apply good_then.
Qed.

Lemma good_all l st : good st (all l st).2.
Proof.
  unfold all. change (new_promise st) with (length (promises st), (new_promise st).2). cbv beta iota zeta. cbn [snd].
  match goal with |- good st (match alls ?s !! _ with _ => _ end) => assert (H : good st s) end.
  { eapply inv_trans; [|apply good_alls]. eapply inv_trans; [|apply good_foldl; intros; apply good_all_element].
    eapply inv_trans; [|apply good_alls]. apply (good_new st). }
  eapply inv_trans; [exact H|]. destruct (alls _ !! _) as [c|]; [|apply inv_refl]. destruct (_ =? 0); [apply good_resolve|apply inv_refl].
Qed.

Lemma good_race l st : good st (race l st).2.
Proof.
  eapply inv_trans; [apply (good_new st)|]. apply good_foldl. intros st' x. unfold race_element. apply good_pair; [apply good_promiseResolve|].
  intros. apply good_then.
Qed.

Lemma good_reject_static r st : good st (reject_static r st).2.
Proof. eapply inv_trans; [apply good_new|apply good_reject]. Qed.

(** ** Code of the page *)

Lemma good_exec c st : good st (exec c st).2.
Proof.
  revert st. induction c as [v|v|executor IHe k IHk|v f g k IHk|f v k IHk|x k IHk|r k IHk|l k IHk|l k IHk]; intros st; cbn [exec].
  - apply inv_refl.
  - apply inv_refl.
  - eapply inv_trans; [apply (good_new st)|]. cbn -[upd]. specialize (IHe (Resolve (OfPromise (length (promises st)))) (Reject (OfPromise (length (promises st)))) (new_promise st).2).
    cbn in IHe. destruct (exec _ _) as [r st'] eqn:Er in IHe |- *. eapply inv_trans; [exact IHe|]. cbn. eapply inv_trans; [|apply IHk].
    destruct r; [apply good_reject|apply inv_refl].
  - destruct v; try apply inv_refl. pose proof (good_then p f g st) as H. destruct (then_ p f g st) as [q st']. eapply inv_trans; [exact H|apply IHk].
  - eapply inv_trans; [apply good_builtin|apply IHk].
  - pose proof (good_promiseResolve x st) as H. destruct (promiseResolve x st) as [q st']. eapply inv_trans; [exact H|apply IHk].
  - pose proof (good_reject_static r st) as H. destruct (reject_static r st) as [q st']. eapply inv_trans; [exact H|apply IHk].
  - pose proof (good_all l st) as H. destruct (all l st) as [q st']. eapply inv_trans; [exact H|apply IHk].
  - pose proof (good_race l st) as H. destruct (race l st) as [q st']. eapply inv_trans; [exact H|apply IHk].
Qed.

Section Page.
Context (user : nat -> val -> prog) (method : nat -> val -> val -> prog).

Lemma good_function f v st : good st (call_function user f v st).2.
Proof. destruct f; try apply inv_refl; [apply good_builtin|apply good_exec]. Qed.

Lemma good_call_then v f g st : good st (call_then method v f g st).2.
Proof.
  destruct v; try apply inv_refl; [|apply good_exec]. cbn [call_then]. pose proof (good_then p (Builtin f) (Builtin g) st) as H.
  by destruct (then_ p (Builtin f) (Builtin g) st) as [q st'].
Qed.

Lemma good_handled h v st : good st (handled user h v st).2.
Proof. destruct h; [apply inv_refl..|apply good_function]. Qed.

Lemma good_caught (c : (val + val) * state) t (f : val -> state -> state) st : good st c.2 -> (forall v st, good st (f v st)) ->
  good st (match c with (inl e, st) => do_reject t e st | (inr v, st) => f v st end).
Proof. destruct c as [[e|v] st']; intros H Hf; (eapply inv_trans; [exact H|]); [apply good_reject|apply Hf]. Qed.

Lemma good_settle_with q v st : good st (settle_with method q v st).
Proof.
  unfold settle_with. destruct (match v with Promise q' => _ | _ => _ end); [apply good_reject|]. destruct (isThenable v); [|apply good_resolve].
  apply (good_caught _ _ (fun _ st => st)); [apply good_call_then|]. intros. apply inv_refl.
Qed.

(** ** Microtasks *)

(** The next reaction of the loop is noted as run. *)
Definition advance (l : loop) (r : reaction) (st : state) : state :=
  log (Ran (l_promise l) (r_promise r) (l_ok l) (l_value l))
    (set_running (Some {| l_promise := l_promise l; l_reject := l_reject l; l_value := l_value l; l_ok := l_ok l; l_i := S (l_i l) |}) st).

Lemma good_advance st l x r : running st = Some l -> promises st !! l_promise l = Some x -> _c x !! l_i l = Some r -> good st (advance l r st).
Proof.
  intros Hr Hx Hc H. split; [|by apply keeps_same]. intros p. specialize (H p). unfold ok_at, look, advance in *. cbn in *.
  unfold loop_of, registered, ran in *. cbn in *. rewrite Hr in H. rewrite !omap_snoc, app_nil_r.
  destruct (decide (l_promise l = p)) as [<-|Hne].
  2: { rewrite (bool_decide_eq_false_2 (l_promise l = p)) in H |- * by done. by rewrite app_nil_r. }
  rewrite (bool_decide_eq_true_2 (l_promise l = l_promise l)) in H |- * by done. rewrite Hx in H |- *. destruct H as (H1 & H2 & H3 & H4 & H5 & H6 & H7 & H8).
  destruct (H5 l eq_refl) as (Hi & Hv & Hs). pose proof (lookup_lt_Some _ _ _ Hc) as Hlt.
  split; [done|]. split; [done|]. split; [done|]. split; [done|]. split; [intros l' [= <-]; cbn; by split; [lia|]|]. split.
  - rewrite H6. rewrite (drop_S (_c x) r (l_i l)) by done. rewrite !fmap_app. cbn. by rewrite <- app_assoc.
  - split; [|done]. apply list.Forall_app. split; [done|]. apply list.Forall_cons. split; [by split|done].
Qed.

Lemma good_handled_flag p st : good st (upd p (with_h 1) (if match promises st !! p with Some x => _h x =? 2 | None => false end then add_task (OnHandled p) st else st)).
Proof.
  eapply inv_trans; [|by apply good_core]. destruct (match _ with Some x => _ | None => _ end); [apply good_task|apply inv_refl].
Qed.

Lemma good_reaction st l x r : running st = Some l -> promises st !! l_promise l = Some x -> _c x !! l_i l = Some r ->
  good st (run_reaction user method (l_promise l) r (l_ok l) (l_value l)
    (set_running (Some {| l_promise := l_promise l; l_reject := l_reject l; l_value := l_value l; l_ok := l_ok l; l_i := S (l_i l) |}) st)).
Proof.
  intros Hr Hx Hc. eapply inv_trans; [by apply (good_advance st l x r)|]. unfold run_reaction. fold (advance l r st). generalize (advance l r st). intros st'.
  assert (Hh : forall h, good st' (match handled user h (l_value l) (if l_ok l then st' else
      upd (l_promise l) (with_h 1) (if match promises st' !! l_promise l with Some x => _h x =? 2 | None => false end then add_task (OnHandled (l_promise l)) st' else st')) with
    | (inl e, st) => do_reject (OfPromise (r_promise r)) e st
    | (inr result, st) => settle_with method (r_promise r) result st
    end)).
  { intros h. apply good_caught; [|apply good_settle_with]. eapply inv_trans; [|apply good_handled]. destruct (l_ok l); [apply inv_refl|apply good_handled_flag]. }
  cbv zeta. destruct (if l_ok l then r_ok r else r_fail r) as [| |f]; [apply Hh|apply good_reject|apply Hh].
Qed.

(** The loop ends. *)
Definition end_loop (p : nat) (st : state) : state := set_running None (upd p (fun x => with_n false (with_c [] x)) st).

Lemma good_end_loop st l x : running st = Some l -> promises st !! l_promise l = Some x -> _c x !! l_i l = None -> good st (end_loop (l_promise l) st).
Proof.
  intros Hr Hx Hc H. split.
  - intros p. specialize (H p). unfold ok_at, look, end_loop in *. cbn -[upd] in *. change (promises (set_running None ?s)) with (promises s) in *.
    rewrite lookup_upd. unfold loop_of in *. cbn -[upd] in *. rewrite Hr in H. destruct (decide (p = l_promise l)) as [->|Hne].
    + rewrite (bool_decide_eq_true_2 (l_promise l = l_promise l)) in H |- * by done. rewrite Hx in H |- *. cbn. destruct H as (H1 & H2 & H3 & H4 & H5 & H6 & H7 & H8).
      cbn in H2. destruct (H5 l eq_refl) as (Hi & Hv & Hs). apply lookup_ge_None in Hc.
      split; [unfold settled in *; cbn; lia|]. split; [destruct (_n x); cbn in H2; lia|]. split; [done|]. split; [done|]. split; [done|].
      rewrite drop_ge in H6 by lia. done.
    + rewrite (bool_decide_eq_false_2 (l_promise l = p)) in H by congruence. rewrite bool_decide_eq_false_2 by done. done.
  - apply (keeps_trans _ (upd (l_promise l) (fun x => with_n false (with_c [] x)) st)); [by apply keeps_upd|by apply keeps_same].
Qed.

(** A notification is taken from the queue. *)
Lemma good_start_loop st p b q x : running st = None -> queue st = Notify p b :: q -> promises st !! p = Some x ->
  good st (set_running (Some {| l_promise := p; l_reject := b; l_value := _v x; l_ok := bool_decide (_s x = Fulfilled); l_i := 0 |}) (set_queue (fun _ => q) st)).
Proof.
  intros Hr Hq Hx H. split; [|by apply keeps_same]. intros p'. specialize (H p'). unfold ok_at, look in *. cbn in *. unfold loop_of in *. cbn in *.
  rewrite Hr in H. rewrite Hq in H. cbn in H. destruct (decide (p = p')) as [<-|Hne].
  - rewrite (bool_decide_eq_true_2 (p = p)) in H |- * by done. rewrite Hx in H |- *. cbn in *. destruct H as (H1 & H2 & H3 & H4 & H5 & H6 & H7 & H8).
    split; [done|]. split; [destruct (_n x); cbn in *; lia|]. split; [done|]. split; [done|]. split; [|done].
    intros l [= <-]. cbn. split; [lia|]. split; [done|]. assert (Hs : settled x = true) by (apply H3; destruct (_n x); [done|cbn in H2; lia]).
    unfold settled in Hs. unfold outcome. destruct (_s x); done.
  - rewrite (bool_decide_eq_false_2 (p = p')) in H |- * by done. done.
Qed.

(** A put off resolution is taken from the queue: a wrapper carries it on. *)
Lemma good_wrap st p v q : queue st = CallThen p v :: q ->
  good st (set_wrappers (fun l => l ++ [{| _w := p; w_d := false |}]) (set_queue (fun _ => q) st)).
Proof.
  intros Hq H. split; [|by apply keeps_same]. intros p'. specialize (H p'). unfold ok_at, look in *. cbn in *. rewrite (loop_of_eq st) by done.
  rewrite Hq in H. rewrite count_app. cbn in *. change (open_for p' {| _w := p; w_d := false |}) with (bool_decide (p = p') && true). rewrite andb_true_r. destruct (promises st !! p') as [x|].
  - destruct H as (H1 & H'). split; [|exact H']. lia.
  - destruct H as (H1 & H2 & H'). split; [lia|]. split; [lia|exact H'].
Qed.

Lemma good_micro st st' : micro_step user method st = Some st' -> good st st'.
Proof.
  unfold micro_step. destruct (running st) as [l|] eqn:Hr.
  - destruct (promises st !! l_promise l) as [x|] eqn:Hx; [|done]. cbn [mbind option_bind]. intros [= <-].
    destruct (_c x !! l_i l) as [r|] eqn:Hc; [by apply (good_reaction st l x r)|]. eapply inv_trans; [by apply (good_end_loop st l x)|].
    destruct (_ && _); [apply good_task|apply inv_refl].
  - destruct (queue st) as [|[p b|p v] q] eqn:Hq; [done| |].
    + destruct (promises st !! p) as [x|] eqn:Hx; [|done]. cbn [mbind option_bind]. intros [= <-]. by apply good_start_loop.
    + intros [= <-]. eapply inv_trans; [by apply (good_wrap st p v q)|]. apply (good_caught _ _ (fun _ st => st)); [apply good_call_then|]. intros. apply inv_refl.
Qed.

Lemma good_run_task t st : good st (run_task t st).
Proof.
  destruct t as [p|p]; cbn [run_task]; [|by apply good_log]. destruct (promises st !! p) as [x|]; [|apply inv_refl].
  eapply inv_trans; [|by apply good_core]. destruct (isUnhandled x); [|apply inv_refl]. eapply inv_trans; [|by apply good_core]. by apply good_log.
Qed.

Lemma good_step st st' : step user method st st' -> good st st'.
Proof.
  destruct 1 as [st st' H|st c _|st t l _ _]; [by apply good_micro|apply good_exec|]. eapply inv_trans; [apply (good_tasks st)|apply good_run_task].
Qed.

Lemma start_inv : Inv start.
Proof. intros p. unfold ok_at, look. cbn. done. Qed.

Lemma good_steps st st' : rtc (step user method) st st' -> good st st'.
Proof. induction 1 as [st|st st1 st2 H _ IH]; [apply inv_refl|]. eapply inv_trans; [by apply good_step|exact IH]. Qed.
End Page.
