(* ===== verification/CorePromiseLive.v ===== *)
(** Liveness of promises: while the functions of the page only compute, the queue of microtasks
    drains, and then every reaction of a settled promise has been run. *)
From stdpp Require Import relations.
From S2P Require Import Prelude CorePromise CorePromiseLaws.

(** ** The work left *)

Fixpoint total {A} (f : A -> Z) (l : list A) : Z := match l with [] => 0 | x :: l' => f x + total f l' end.

Lemma total_app {A} f (l k : list A) : total f (l ++ k) = total f l + total f k.
Proof. induction l as [|x l IH]; cbn; [done|]. rewrite IH. lia. Qed.
Lemma total_alter {A} f g (l : list A) i x : l !! i = Some x -> total f (alter g i l) = total f l - f x + f (g x).
Proof.
  revert i. induction l as [|y l IH]; intros [|i] H; [done|done| |].
  - injection H as <-. cbn. lia.
  - cbn in H |- *. specialize (IH i H). lia.
Qed.
Lemma total_nonneg {A} (f : A -> Z) l : (forall x, 0 <= f x) -> 0 <= total f l.
Proof. intros H. induction l as [|x l IH]; cbn; [lia|]. specialize (H x). lia. Qed.

(** A reaction that only hands an outcome on to another promise. *)
Definition adopts (r : reaction) : bool :=
  match r_ok r, r_fail r with Handle (Builtin (Resolve _)), Handle (Builtin (Reject _)) => true | _, _ => false end.
Definition weight (r : reaction) : Z := if adopts r then 1 else 12.
Definition task_weight (t : microtask) : Z := match t with Notify _ _ => 2 | CallThen _ _ => 6 end.
Definition promise_weight (x : promise) : Z := (if bool_decide (_s x = Pending) then 2 else 0) + total weight (_c x).

(** The reactions the loop has run already. *)
Definition done_work (st : state) : Z :=
  match running st with
  | Some l => match promises st !! l_promise l with Some x => total weight (take (l_i l) (_c x)) | None => 0 end
  | None => 0
  end.
Definition work (st : state) : Z :=
  total promise_weight (promises st) + total task_weight (queue st) + match running st with Some _ => 1 | None => 0 end - done_work st.

Lemma weight_pos r : 1 <= weight r.
Proof. unfold weight. destruct (adopts r); lia. Qed.
Lemma weights_nonneg l : 0 <= total weight l.
Proof. apply total_nonneg. intros r. pose proof (weight_pos r). lia. Qed.
Lemma promise_weight_nonneg x : 0 <= promise_weight x.
Proof. unfold promise_weight. pose proof (weights_nonneg (_c x)). case_bool_decide; lia. Qed.

Lemma work_nonneg st : 0 <= work st.
Proof.
  unfold work. assert (Ht : 0 <= total task_weight (queue st)) by (apply total_nonneg; by intros []).
  assert (Hp : done_work st <= total promise_weight (promises st)); [|destruct (running st); lia].
  pose proof (total_nonneg promise_weight (promises st) promise_weight_nonneg). unfold done_work. destruct (running st) as [l|]; [|done].
  destruct (promises st !! l_promise l) as [x|] eqn:Hx; [|done]. apply list_elem_of_split_length in Hx as (l1 & l2 & -> & _).
  rewrite total_app. cbn. pose proof (total_nonneg promise_weight l1 promise_weight_nonneg). pose proof (total_nonneg promise_weight l2 promise_weight_nonneg).
  unfold promise_weight at 2. rewrite <- (take_drop (l_i l) (_c x)) at 2. rewrite total_app. pose proof (weights_nonneg (drop (l_i l) (_c x))). case_bool_decide; lia.
Qed.

(** ** What the operations cost *)

Definition costs (k : Z) (st st' : state) : Prop := Inv st -> Inv st' /\ work st' <= work st + k.

Lemma costs_trans j k st1 st2 st3 : costs j st1 st2 -> costs k st2 st3 -> costs (j + k) st1 st3.
Proof. intros H1 H2 H. destruct (H1 H) as [I1 W1]. destruct (H2 I1) as [I2 W2]. split; [done|lia]. Qed.
Lemma costs_free st1 st2 st3 k : costs 0 st1 st2 -> costs k st2 st3 -> costs k st1 st3.
Proof. intros H1 H2. rewrite <- (Z.add_0_l k). by eapply costs_trans. Qed.
Lemma costs_refl st : costs 0 st st.
Proof. intros H. split; [done|lia]. Qed.
Lemma costs_weaken j k st st' : j <= k -> costs j st st' -> costs k st st'.
Proof. intros Hle H HI. destruct (H HI) as [I W]. split; [done|lia]. Qed.
Lemma costs_good k st st' : good st st' -> (Inv st -> work st' <= work st + k) -> costs k st st'.
Proof. intros Hg Hw H. split; [by apply Hg|by apply Hw]. Qed.

Lemma done_upd st p f : (forall x, promises st !! p = Some x -> (forall l, running st = Some l -> l_promise l = p -> take (l_i l) (_c (f x)) = take (l_i l) (_c x))) ->
  done_work (upd p f st) = done_work st.
Proof.
  intros Hf. unfold done_work. change (running (upd p f st)) with (running st). destruct (running st) as [l|] eqn:Hr; [|done]. rewrite lookup_upd.
  case_bool_decide as E; [|done]. rewrite <- E in Hf |- *. destruct (promises st !! l_promise l) as [x|]; [|done]. cbn. by rewrite (Hf x eq_refl l).
Qed.

Lemma total_upd st p f x : promises st !! p = Some x ->
  total promise_weight (promises (upd p f st)) = total promise_weight (promises st) - promise_weight x + promise_weight (f x).
Proof. apply total_alter. Qed.

Lemma work_upd st p f x : promises st !! p = Some x ->
  (forall l, running st = Some l -> l_promise l = p -> take (l_i l) (_c (f x)) = take (l_i l) (_c x)) ->
  work (upd p f st) = work st - promise_weight x + promise_weight (f x).
Proof.
  intros Hx Ht. unfold work. rewrite (total_upd st p f x Hx), done_upd by (intros y Hy; by rewrite Hx in Hy; injection Hy as <-).
  change (queue (upd p f st)) with (queue st). change (running (upd p f st)) with (running st). lia.
Qed.

Lemma work_microtask st t : work (add_microtask t st) = work st + task_weight t.
Proof. unfold work. cbn. rewrite total_app. cbn. change (done_work (add_microtask t st)) with (done_work st). lia. Qed.

Lemma work_notify st p b x : promises st !! p = Some x -> work (notify p b st) <= work st + (if _n x then 0 else 2).
Proof.
  intros Hx. unfold notify. rewrite Hx. destruct (_n x); [lia|]. rewrite work_microtask, (work_upd st p (with_n true) x) by done. cbn.
  change (promise_weight (with_n true x)) with (promise_weight x). lia.
Qed.

Lemma upd_none st p f : promises st !! p = None -> upd p f st = st.
Proof.
  intros Hx. destruct st as [ps]. unfold upd, set_promises. cbn in *. f_equal. apply list_eq. intros i. destruct (decide (p = i)) as [<-|Hne].
  - by rewrite list_lookup_alter_eq, Hx.
  - by rewrite list_lookup_alter_ne.
Qed.

Lemma work_fulfil st p x b f : Inv_but p st -> promises st !! p = Some x -> _c (f x) = _c x -> _n (f x) = _n x -> _s (f x) <> Pending ->
  work (notify p b (upd p f st)) <= work st.
Proof.
  intros H Hx Ec En Es. pose proof (H p) as Hp. rewrite bool_decide_eq_true_2 in Hp by done.
  destruct (ok_0 (look st p) x Hx Hp) as (_ & Hs & Hn & _). etrans; [apply (work_notify _ _ _ (f x))|].
  - by rewrite lookup_upd, bool_decide_eq_true_2, Hx.
  - rewrite En, Hn. rewrite (work_upd st p f x) by (done || by rewrite Ec). unfold promise_weight. rewrite Ec, Hs.
    rewrite bool_decide_eq_true_2, bool_decide_eq_false_2 by done. lia.
Qed.

Lemma work_set_done t st : is_done t st = false -> work (set_done t st) = work st.
Proof.
  destruct t as [p|w]; cbn [set_done is_done]; [|done]. destruct (promises st !! p) as [x|] eqn:Hx; [|done]. intros _.
  rewrite (work_upd st p (with_d true) x) by done. change (promise_weight (with_d true x)) with (promise_weight x). lia.
Qed.

Lemma costs_reject st t v : costs 0 st (do_reject t v st).
Proof.
  apply costs_good; [apply good_reject|]. intros H. unfold do_reject. destruct (is_done t st) eqn:Hd; [lia|]. destruct (consume st t H Hd) as (x & Hx & H1 & _).
  rewrite Z.add_0_r. rewrite <- (work_set_done t st Hd). apply (work_fulfil _ _ x); [done|done|by destruct (_a x) eqn:E; cbn; rewrite E..].
Qed.

Lemma costs_resolve st t v : costs (if isThenable v then 6 else 0) st (do_resolve t v st).
Proof.
  apply costs_good; [apply good_resolve|]. intros H. unfold do_resolve. destruct (is_done t st) eqn:Hd; [destruct (isThenable v); lia|].
  destruct (consume st t H Hd) as (x & Hx & H1 & _). cbv zeta. rewrite <- (work_set_done t st Hd).
  destruct v; cbn [isThenable]; rewrite ?Z.add_0_r; try (by apply (work_fulfil _ _ x)); [|rewrite work_microtask; cbn; lia].
  case_bool_decide; [|rewrite work_microtask; cbn; lia]. etrans; [apply (work_fulfil _ _ x); [done|done|by destruct (_a x) eqn:E; cbn; rewrite E..]|lia].
Qed.

Lemma costs_new st : costs 2 st (new_promise st).2.
Proof.
  apply costs_good; [apply good_new|]. intros H.
  assert (E : done_work (new_promise st).2 = done_work st).
  2: { unfold work. rewrite E. cbn -[promise_weight]. rewrite total_app. cbn -[promise_weight]. change (promise_weight Internal) with 2. lia. }
  unfold done_work. cbn. destruct (running st) as [l|] eqn:Hr; [|done]. specialize (H (l_promise l)). unfold ok_at, look in H. cbn in H.
  destruct (promises st !! l_promise l) as [x|] eqn:Hx; [by rewrite (lookup_app_l_Some _ _ _ _ Hx)|]. destruct H as (_ & _ & _ & Hl & _).
  unfold loop_of in Hl. rewrite Hr, bool_decide_eq_true_2 in Hl by done. done.
Qed.

Lemma costs_push st p r : costs (2 + weight r) st (push_reaction p r st).
Proof.
  apply costs_good; [apply good_push|]. intros H. unfold push_reaction. set (g := fun x : promise => with_a _ _). rewrite lookup_upd, bool_decide_eq_true_2 by done.
  pose proof (weight_pos r). destruct (promises st !! p) as [x|] eqn:Hx; cbn [fmap option_fmap option_map].
  - assert (Hw : work (log (Registered p (r_promise r)) (upd p g st)) = work st + weight r).
    { change (work (upd p g st) = work st + weight r). rewrite (work_upd st p g x).
      - unfold promise_weight. cbn. rewrite total_app. cbn. lia.
      - done.
      - intros l Hr Hl. specialize (H p). unfold ok_at, look in H. cbn in H. rewrite Hx in H. destruct H as (_ & _ & _ & _ & Hi & _).
        destruct (Hi l) as [Hi' _]; [unfold loop_of; by rewrite Hr, bool_decide_eq_true_2|]. cbn. by rewrite take_app_le. }
    case_bool_decide; [rewrite Hw; lia|]. etrans; [apply (work_notify _ _ _ (g x))|rewrite Hw; destruct (_n (g x)); lia].
    change (promises (upd p g st) !! p = Some (g x)). by rewrite lookup_upd, bool_decide_eq_true_2, Hx.
  - rewrite upd_none by done. lia.
Qed.

Lemma costs_then p f g st : costs (4 + weight (reaction_of f g 0)) st (then_ p f g st).2.
Proof.
  rewrite then_push. replace (4 + weight (reaction_of f g 0)) with (2 + (2 + weight (reaction_of f g (length (promises st))))) by (unfold weight, adopts; cbn; lia).
  eapply costs_trans; [apply costs_new|apply costs_push].
Qed.

Lemma costs_element a i v st : costs 0 st (element a i v st).
Proof.
  unfold element. destruct (alls st !! a) as [x|]; [|apply costs_refl]. destruct (called x !! i) as [[]|]; try apply costs_refl. cbv zeta.
  match goal with |- costs 0 st (if _ then do_resolve _ _ ?s else _) => apply (costs_free st s) end.
  - apply costs_good; [apply good_alls|]. intros _. unfold work, done_work. cbn. lia.
  - destruct (_ =? 0); [apply (costs_resolve _ _ (Array _))|apply costs_refl].
Qed.

Lemma costs_builtin f v st : isThenable v = false -> costs 0 st (call_builtin f v st).
Proof. intros Hv. destruct f as [t|t|a i]; cbn [call_builtin]; [|apply costs_reject|apply costs_element]. pose proof (costs_resolve st t v) as H. by rewrite Hv in H. Qed.

Lemma costs_builtin_any f v st : costs 6 st (call_builtin f v st).
Proof.
  destruct f as [t|t|a i]; cbn [call_builtin].
  - apply (costs_weaken (if isThenable v then 6 else 0)); [destruct (isThenable v); lia|apply costs_resolve].
  - apply (costs_weaken 0); [lia|apply costs_reject].
  - apply (costs_weaken 0); [lia|apply costs_element].
Qed.

(** ** Quiet pages *)

(** Code that computes, and at most settles promises with plain values. *)
Fixpoint quiet (c : prog) : Prop :=
  match c with Return _ | Throw _ => True | Call _ v k => isThenable v = false /\ quiet k | _ => False end.

Lemma costs_exec c st : quiet c -> costs 0 st (exec c st).2.
Proof.
  revert st. induction c as [v|v|e IHe k IHk|v f g k IHk|f v k IHk|x k IHk|r k IHk|l k IHk|l k IHk]; intros st Hq; cbn in Hq; try done; cbn [exec].
  - apply costs_refl.
  - apply costs_refl.
  - destruct Hq as [Hv Hq]. eapply costs_free; [by apply costs_builtin|by apply IHk].
Qed.

Section Page.
Context (user : nat -> val -> prog) (method : nat -> val -> val -> prog).
Context (user_quiet : forall u v, quiet (user u v)) (method_quiet : forall t f g, quiet (method t f g)).

Lemma costs_call_then v t st : costs 5 st (call_then method v (Resolve t) (Reject t) st).2.
Proof.
  destruct v; try (apply (costs_weaken 0); [lia|apply costs_refl]); cbn [call_then].
  - pose proof (costs_then p (Builtin (Resolve t)) (Builtin (Reject t)) st) as H. by destruct (then_ p _ _ st) as [q st'].
  - apply (costs_weaken 0); [lia|]. by apply costs_exec.
Qed.

Lemma costs_caught j k (c : (val + val) * state) t (f : val -> state -> state) st : 0 <= k -> costs j st c.2 -> (forall v, c.1 = inr v -> costs k c.2 (f v c.2)) ->
  costs (j + k) st (match c with (inl e, st) => do_reject t e st | (inr v, st) => f v st end).
Proof.
  intros Hk. destruct c as [[e|v] st']; cbn; intros H Hf; (eapply costs_trans; [exact H|]); [apply (costs_weaken 0); [done|apply costs_reject]|by apply Hf].
Qed.

Lemma costs_settle_with q v st : costs (if isThenable v then 5 else 0) st (settle_with method q v st).
Proof.
  unfold settle_with. destruct (match v with Promise q' => _ | _ => _ end); [apply (costs_weaken 0); [destruct (isThenable v); lia|apply costs_reject]|].
  destruct (isThenable v) eqn:Hv; [|pose proof (costs_resolve st (OfPromise q) v) as H; by rewrite Hv in H].
  apply (costs_caught 5 0 _ _ (fun _ st => st)); [lia|apply costs_call_then|]. intros. apply costs_refl.
Qed.

(** The rest of a reaction costs less than the reaction. *)
Lemma costs_flag p st : costs 0 st (upd p (with_h 1) (if match promises st !! p with Some x => _h x =? 2 | None => false end then add_task (OnHandled p) st else st)).
Proof.
  apply costs_good; [apply good_handled_flag|]. intros _. set (st' := (if match promises st !! p with Some x => _h x =? 2 | None => false end then add_task (OnHandled p) st else st)).
  assert (E : work st' = work st) by (unfold st'; repeat case_match; done).
  destruct (promises st' !! p) as [x|] eqn:Hx; [|rewrite upd_none by done; lia]. rewrite (work_upd st' p (with_h 1) x), E by done.
  change (promise_weight (with_h 1 x)) with (promise_weight x). lia.
Qed.

Definition rest (p : nat) (r : reaction) (ok : bool) (value : val) (st : state) : state :=
  match (if ok then r_ok r else r_fail r) with
  | NoHandler => do_reject (OfPromise (r_promise r)) value st
  | h =>
      let st := if ok then st else
        let reported := match promises st !! p with Some x => _h x =? 2 | None => false end in
        upd p (with_h 1) (if reported then add_task (OnHandled p) st else st) in
      match handled user h value st with
      | (inl e, st) => do_reject (OfPromise (r_promise r)) e st
      | (inr result, st) => settle_with method (r_promise r) result st
      end
  end.

Lemma costs_rest p r ok value st : (ok = true -> isThenable value = false) -> costs (weight r - 1) st (rest p r ok value st).
Proof.
  intros Hok. unfold rest. cbv zeta. set (st1 := if ok then st else _).
  assert (H1 : costs 0 st st1) by (unfold st1; destruct ok; [apply costs_refl|apply costs_flag]).
  assert (Hgen : forall j k h, 0 <= j -> costs j st1 (handled user h value st1).2 -> 0 <= k ->
    (forall v, (handled user h value st1).1 = inr v -> (if isThenable v then 5 else 0) <= k) ->
    costs (j + k) st (match handled user h value st1 with (inl e, st) => do_reject (OfPromise (r_promise r)) e st | (inr result, st) => settle_with method (r_promise r) result st end)).
  { intros j k h Hj Hc Hk Hv. eapply costs_free; [exact H1|]. apply (costs_caught j k _ _ (settle_with method (r_promise r))); [done|exact Hc|].
    intros v Ev. eapply costs_weaken; [by apply Hv|apply costs_settle_with]. }
  assert (Hany : forall h, adopts r = false -> costs (weight r - 1) st (match handled user h value st1 with (inl e, st) => do_reject (OfPromise (r_promise r)) e st | (inr result, st) => settle_with method (r_promise r) result st end)).
  { intros h Ha. unfold weight. rewrite Ha. change (12 - 1) with (6 + 5). apply Hgen; [lia| |lia|intros v _; destruct (isThenable v); lia].
    destruct h as [| |[]]; try (apply (costs_weaken 0); [lia|apply costs_refl]); [apply costs_builtin_any|apply (costs_weaken 0); [lia|by apply costs_exec]]. }
  assert (Hnone : costs (weight r - 1) st (do_reject (OfPromise (r_promise r)) value st)).
  { apply (costs_weaken 0); [pose proof (weight_pos r); lia|apply costs_reject]. }
  destruct (adopts r) eqn:Ha; [|destruct (if ok then r_ok r else r_fail r) eqn:Eh; [by apply Hany|exact Hnone|by apply Hany]].
  assert (Hb : exists b, (if ok then r_ok r else r_fail r) = Handle (Builtin b) /\ costs 0 st1 (call_builtin b value st1)).
  { unfold adopts in Ha. destruct (r_ok r) as [| |[]] eqn:E1; try done. destruct f as [t| |]; try done. destruct (r_fail r) as [| |[]]; try done. destruct f as [|t'|]; try done.
    destruct ok; [exists (Resolve t)|exists (Reject t')]; (split; [done|]); [by apply costs_builtin, Hok|apply costs_reject]. }
  destruct Hb as (b & -> & Hb). unfold weight. rewrite Ha. change (1 - 1) with (0 + 0). apply Hgen; [lia|exact Hb|lia|]. by intros v [= <-].
Qed.

(** ** The queue drains *)

Lemma work_advance st l x r : running st = Some l -> promises st !! l_promise l = Some x -> _c x !! l_i l = Some r ->
  work (advance l r st) = work st - weight r.
Proof.
  intros Hr Hx Hc. unfold work, done_work, advance. cbn -[take]. rewrite Hr. cbn -[take]. rewrite Hx. rewrite (take_S_r _ _ r) by done. rewrite total_app. cbn. lia.
Qed.

Lemma costs_reaction st l x r : running st = Some l -> promises st !! l_promise l = Some x -> _c x !! l_i l = Some r ->
  costs (-1) st (run_reaction user method (l_promise l) r (l_ok l) (l_value l)
    (set_running (Some {| l_promise := l_promise l; l_reject := l_reject l; l_value := l_value l; l_ok := l_ok l; l_i := S (l_i l) |}) st)).
Proof.
  intros Hr Hx Hc. change (run_reaction _ _ _ _ _ _ _) with (rest (l_promise l) r (l_ok l) (l_value l) (advance l r st)).
  replace (-1) with (- weight r + (weight r - 1)) by lia. intros H.
  eapply costs_trans; [|apply costs_rest|exact H].
  - apply costs_good; [by apply (good_advance st l x r)|]. intros _. rewrite (work_advance st l x r) by done. lia.
  - intros Hok. specialize (H (l_promise l)). unfold ok_at, look in H. cbn in H. rewrite Hx in H. destruct H as (_ & _ & _ & _ & Hl & _ & _ & Hv).
    destruct (Hl l) as (_ & -> & Hs); [unfold loop_of; by rewrite Hr, bool_decide_eq_true_2|]. apply Hv. by rewrite Hs, Hok.
Qed.

Lemma costs_end_loop st l x : running st = Some l -> promises st !! l_promise l = Some x -> _c x !! l_i l = None -> costs (-1) st (end_loop (l_promise l) st).
Proof.
  intros Hr Hx Hc. apply costs_good; [by apply (good_end_loop st l x)|]. intros _. apply lookup_ge_None in Hc. unfold work, done_work, end_loop.
  cbn [running set_running queue]. rewrite Hr, Hx, take_ge by done. change (promises (set_running None ?s)) with (promises s). rewrite (total_upd st _ _ x Hx).
  unfold promise_weight. cbn. lia.
Qed.

Lemma costs_start_loop st p b q x : running st = None -> queue st = Notify p b :: q -> promises st !! p = Some x ->
  costs (-1) st (set_running (Some {| l_promise := p; l_reject := b; l_value := _v x; l_ok := bool_decide (_s x = Fulfilled); l_i := 0 |}) (set_queue (fun _ => q) st)).
Proof.
  intros Hr Hq Hx. apply costs_good; [by apply good_start_loop|]. intros _. unfold work, done_work. cbn. rewrite Hr, Hq, Hx, take_0. cbn. lia.
Qed.

Lemma costs_wrap st p v q : running st = None -> queue st = CallThen p v :: q ->
  costs (-6) st (set_wrappers (fun l => l ++ [{| _w := p; w_d := false |}]) (set_queue (fun _ => q) st)).
Proof. intros Hr Hq. apply costs_good; [by apply (good_wrap st p v q)|]. intros _. unfold work, done_work. cbn. rewrite Hr, Hq. cbn. lia. Qed.

Lemma costs_micro st st' : micro_step user method st = Some st' -> costs (-1) st st'.
Proof.
  unfold micro_step. destruct (running st) as [l|] eqn:Hr.
  - destruct (promises st !! l_promise l) as [x|] eqn:Hx; [|done]. cbn [mbind option_bind]. intros [= <-].
    destruct (_c x !! l_i l) as [r|] eqn:Hc; [by apply (costs_reaction st l x r)|]. rewrite <- (Z.add_0_r (-1)). eapply costs_trans; [by apply (costs_end_loop st l x)|].
    destruct (_ && _); [|apply costs_refl]. apply costs_good; [apply good_task|]. intros _. unfold work, done_work. cbn. lia.
  - destruct (queue st) as [|[p b|p v] q] eqn:Hq; [done| |].
    + destruct (promises st !! p) as [x|] eqn:Hx; [|done]. cbn [mbind option_bind]. intros [= <-]. by apply costs_start_loop.
    + intros [= <-]. change (-1) with (-6 + (5 + 0)). eapply costs_trans; [by apply (costs_wrap st p v q)|].
      apply (costs_caught 5 0 _ _ (fun _ st => st)); [lia|apply costs_call_then|]. intros. apply costs_refl.
Qed.

(** A state that is not idle takes a step. *)
Lemma micro_progress st : Inv st -> micro_step user method st = None -> idle st.
Proof.
  intros H. unfold micro_step, idle. destruct (running st) as [l|] eqn:Hr.
  - specialize (H (l_promise l)). unfold ok_at, look in H. cbn in H. destruct (promises st !! l_promise l) as [x|]; [done|]. destruct H as (_ & _ & _ & Hl & _).
    unfold loop_of in Hl. by rewrite Hr, bool_decide_eq_true_2 in Hl.
  - destruct (queue st) as [|[p b|p v] q] eqn:Hq; [done| |done]. specialize (H p). unfold ok_at, look in H. cbn in H. rewrite Hq in H. cbn in H.
    rewrite bool_decide_eq_true_2 in H by done. destruct (promises st !! p) as [x|]; [done|]. cbn in H. lia.
Qed.

Lemma flush_drains n st : Inv st -> work st < Z.of_nat n -> Inv (flush n user method st) /\ keeps st (flush n user method st) /\ idle (flush n user method st).
Proof.
  revert st. induction n as [|n IH]; intros st H Hw; [pose proof (work_nonneg st); lia|]. cbn [flush].
  destruct (micro_step user method st) as [st'|] eqn:E.
  - destruct (costs_micro st st' E H) as [H' Hw']. destruct (good_micro user method st st' E H) as [_ K]. destruct (IH st' H') as (A & B & C); [lia|].
    split; [done|]. split; [by eapply keeps_trans|done].
  - split; [done|]. split; [apply keeps_refl|by apply micro_progress].
Qed.
End Page.

Lemma flush_reach user method n st : rtc (step user method) st (flush n user method st).
Proof.
  revert st. induction n as [|n IH]; intros st; cbn [flush]; [apply rtc_refl|]. destruct (micro_step user method st) as [st'|] eqn:E; [|apply rtc_refl].
  eapply rtc_l; [by apply step_micro|apply IH].
Qed.

(** ** Properties *)

(** In an idle state a settled promise has no reactions waiting. *)
Lemma idle_ran st p x : Inv st -> idle st -> promises st !! p = Some x -> _s x <> Pending ->
  registered p (trace st) = (ran p (trace st)).*1.*1 /\ Forall (fun e => _s x = outcome e.1.2 /\ _v x = e.2) (ran p (trace st)).
Proof.
  intros H [Hr Hq] Hx Hs. specialize (H p). unfold ok_at, look in H. cbn in H. unfold loop_of in H. rewrite Hx, Hr, Hq in H. cbn in H.
  destruct H as (_ & Hn & _ & Hc & _ & Hreg & Hran & _). assert (En : _n x = false) by (by destruct (_n x)).
  rewrite Hc in Hreg by (done || by unfold settled; rewrite bool_decide_eq_false_2). cbn in Hreg. by rewrite app_nil_r in Hreg.
Qed.

(** C23: A promise that is settled stays settled with its value, whatever the page does: no
    sequence of code of the page, microtasks and tasks settles it again, though resolving
    functions are called repeatedly, thenables misbehave and promises adopt each other. *)
Theorem settles_once user method st st' p x : rtc (step user method) start st -> rtc (step user method) st st' ->
  promises st !! p = Some x -> _s x <> Pending -> exists x', promises st' !! p = Some x' /\ _s x' = _s x /\ _v x' = _v x.
Proof. intros H1 H2. destruct (good_steps user method _ _ H1 start_inv) as [H _]. destruct (good_steps user method _ _ H2 H) as [_ K]. exact (K p x). Qed.

(** C22: Where the functions of the page only compute (they may settle promises with plain values),
    the microtasks end from every state that can be reached, in a number of steps bounded by the
    work left; then every reaction registered with a settled promise has been run, once and in
    the order of registration, with the handler for its outcome and with its value, and the
    promises settled before are as they were. *)
Theorem reactions_eventually_run user method st n :
  (forall u v, quiet (user u v)) -> (forall t f g, quiet (method t f g)) -> rtc (step user method) start st -> work st < Z.of_nat n ->
  let st' := flush n user method st in
  idle st' /\ keeps st st' /\
  forall p x, promises st' !! p = Some x -> _s x <> Pending ->
    registered p (trace st') = (ran p (trace st')).*1.*1 /\ Forall (fun e => _s x = outcome e.1.2 /\ _v x = e.2) (ran p (trace st')).
Proof.
  intros Hu Hm Hreach Hw. destruct (good_steps user method _ _ Hreach start_inv) as [H _]. destruct (flush_drains user method Hu Hm n st H Hw) as (A & B & C).
  split; [done|]. split; [done|]. intros p x. by apply idle_ran.
Qed.

(** A page: a promise is fulfilled, and a chain of two handlers, the first throwing, is hung on it. *)
Definition ex_user (u : nat) (v : val) : prog := match u with O => Throw (Error "boom") | _ => Return (Array [v]) end.
Definition ex_method (t : nat) (f g : val) : prog := match f with Builtin b => Call b (Data 8) (Return Undef) | _ => Return Undef end.
Definition ex_page : prog :=
  New (fun resolve _ => Call resolve (Thenable 0) (Return Undef)) (fun p =>
  Then p (User 0) Undef (fun q => Then q Undef (User 1) (fun r => Return r))).
Definition ex_state : state := (exec ex_page start).2.

Lemma ex_quiet : (forall u v, quiet (ex_user u v)) /\ (forall t f g, quiet (ex_method t f g)).
Proof. split; [by intros [] v|by intros t [] g]. Qed.

Lemma ex_reach : rtc (step ex_user ex_method) start ex_state.
Proof. apply rtc_once. by constructor. Qed.

Lemma reactions_eventually_run_witness :
  let st' := flush 40 ex_user ex_method ex_state in
  idle st' /\ registered 0 (trace st') = [1%nat] /\ ran 0 (trace st') = [(1%nat, true, Data 8)] /\ ran 1 (trace st') = [(2%nat, false, Error "boom")].
Proof.
  destruct (reactions_eventually_run ex_user ex_method ex_state 40) as (Hi & _ & _);
    [exact (proj1 ex_quiet)|exact (proj2 ex_quiet)|exact ex_reach|vm_compute; reflexivity|].
  split; [exact Hi|]. vm_compute. repeat split; reflexivity.
Defined.

(** The last promise of the chain is fulfilled with what the second handler answers, and stays so
    when the page runs its code again. *)
Lemma settles_once_witness :
  exists x', promises (exec ex_page (flush 40 ex_user ex_method ex_state)).2 !! 2%nat = Some x' /\ _s x' = Fulfilled /\ _v x' = Array [Error "boom"].
Proof.
  apply (settles_once ex_user ex_method (flush 40 ex_user ex_method ex_state) (exec ex_page (flush 40 ex_user ex_method ex_state)).2 2
    {| _c := []; _a := None; _s := Fulfilled; _d := true; _v := Array [Error "boom"]; _h := 0; _n := false |}).
  - etrans; [exact ex_reach|apply flush_reach].
  - apply rtc_once, step_page. vm_compute. reflexivity.
  - vm_compute. reflexivity.
  - discriminate.
Defined.
