(* ===== verification/LodashDebounce.v ===== *)
(** lodash's [debounce], which delays the resolving of subtrees of the specification: its variables,
    its timers, and the calls of the function it wraps.  Times are whole milliseconds. *)
From stdpp Require Import relations.
From S2P Require Import Prelude.

Section Debounce.
(** The arguments of a call, and the function that is debounced. *)
Context {A R : Type} (func : A -> R).

(** ** The code *)

Record options := { o_leading : option bool; o_maxWait : option Z; o_trailing : option bool }.
Record config := { wait : Z; leading : bool; maxing : bool; maxWait : Z; trailing : bool }.

(** The head of [debounce(func, wait, options)]; [options] may be missing. *)
Definition configure (wait : Z) (o : option options) : config :=
  match o with
  | None => {| wait := wait; leading := false; maxing := false; maxWait := 0; trailing := true |}
  | Some o =>
      {| wait := wait;
         leading := default false (o_leading o);
         maxing := match o_maxWait o with Some _ => true | None => false end;
         maxWait := match o_maxWait o with Some m => Z.max m wait | None => 0 end;
         trailing := default true (o_trailing o) |}
  end.

(** The variables of the closure; the timers that are set, with the time they are due; the calls
    of the function so far, with their times. *)
Record state := {
  lastArgs : option A; result : option R; timerId : option nat; lastCallTime : option Z; lastInvokeTime : Z;
  timers : list (nat * Z); next_id : nat; invoked : list (Z * A)
}.
Definition fresh_closure : state :=
  {| lastArgs := None; result := None; timerId := None; lastCallTime := None; lastInvokeTime := 0; timers := []; next_id := 0; invoked := [] |}.

Definition set_args a st := {| lastArgs := a; result := result st; timerId := timerId st; lastCallTime := lastCallTime st; lastInvokeTime := lastInvokeTime st; timers := timers st; next_id := next_id st; invoked := invoked st |}.
Definition set_timer i st := {| lastArgs := lastArgs st; result := result st; timerId := i; lastCallTime := lastCallTime st; lastInvokeTime := lastInvokeTime st; timers := timers st; next_id := next_id st; invoked := invoked st |}.
Definition set_call c st := {| lastArgs := lastArgs st; result := result st; timerId := timerId st; lastCallTime := c; lastInvokeTime := lastInvokeTime st; timers := timers st; next_id := next_id st; invoked := invoked st |}.
Definition set_invoke t st := {| lastArgs := lastArgs st; result := result st; timerId := timerId st; lastCallTime := lastCallTime st; lastInvokeTime := t; timers := timers st; next_id := next_id st; invoked := invoked st |}.

(** [timerId = setTimeout(timerExpired, delay)] at [now]; a negative delay is none. *)
Definition setTimeout (now delay : Z) (st : state) : state :=
  {| lastArgs := lastArgs st; result := result st; timerId := Some (next_id st); lastCallTime := lastCallTime st; lastInvokeTime := lastInvokeTime st;
     timers := timers st ++ [(next_id st, now + Z.max 0 delay)]; next_id := S (next_id st); invoked := invoked st |}.
Definition clearTimeout (i : nat) (st : state) : state :=
  {| lastArgs := lastArgs st; result := result st; timerId := timerId st; lastCallTime := lastCallTime st; lastInvokeTime := lastInvokeTime st;
     timers := base.filter (fun x => x.1 <> i) (timers st); next_id := next_id st; invoked := invoked st |}.

(** It is only called with arguments there. *)
Definition invokeFunc (time : Z) (st : state) : state :=
  match lastArgs st with
  | Some args =>
      {| lastArgs := None; result := Some (func args); timerId := timerId st; lastCallTime := lastCallTime st; lastInvokeTime := time;
         timers := timers st; next_id := next_id st; invoked := invoked st ++ [(time, args)] |}
  | None => st
  end.

Section Config.
Context (c : config).

Definition leadingEdge (time : Z) (st : state) : state :=
  let st := setTimeout time (wait c) (set_invoke time st) in
  if leading c then invokeFunc time st else st.

Definition sinceCall (time : Z) (st : state) : Z := time - default 0 (lastCallTime st).
Definition sinceInvoke (time : Z) (st : state) : Z := time - lastInvokeTime st.

Definition remainingWait (time : Z) (st : state) : Z :=
  let timeWaiting := wait c - sinceCall time st in
  if maxing c then Z.min timeWaiting (maxWait c - sinceInvoke time st) else timeWaiting.

Definition shouldInvoke (time : Z) (st : state) : bool :=
  match lastCallTime st with
  | None => true
  | Some _ => (wait c <=? sinceCall time st) || (sinceCall time st <? 0) || (maxing c && (maxWait c <=? sinceInvoke time st))
  end.

Definition trailingEdge (time : Z) (st : state) : state :=
  let st := set_timer None st in
  match lastArgs st with
  | Some _ => if trailing c then invokeFunc time st else set_args None st
  | None => st
  end.

Definition timerExpired (time : Z) (st : state) : state :=
  if shouldInvoke time st then trailingEdge time st else setTimeout time (remainingWait time st) st.

Definition cancel (st : state) : state :=
  let st := match timerId st with Some i => clearTimeout i st | None => st end in
  set_args None (set_call None (set_timer None (set_invoke 0 st))).

Definition flush (time : Z) (st : state) : state :=
  match timerId st with None => st | Some _ => trailingEdge time st end.

Definition debounced (time : Z) (args : A) (st : state) : state :=
  let isInvoking := shouldInvoke time st in
  let st := set_call (Some time) (set_args (Some args) st) in
  match timerId st with
  | None => if isInvoking then leadingEdge time st else setTimeout time (wait c) st
  | Some _ => if isInvoking && maxing c then invokeFunc time (setTimeout time (wait c) st) else st
  end.

(** The engine takes a timer off its list and calls it, when it is due or later. *)
Definition fire (i : nat) (time : Z) (st : state) : state :=
  timerExpired time {| lastArgs := lastArgs st; result := result st; timerId := timerId st; lastCallTime := lastCallTime st; lastInvokeTime := lastInvokeTime st;
                       timers := base.filter (fun x => x.1 <> i) (timers st); next_id := next_id st; invoked := invoked st |}.

(** ** Runs *)

(** A state with the clock and the last call ([None] before any and after a [cancel]); the
    clock does not go back. *)
Record run := { st : state; clock : Z; last_call : option (Z * A) }.

Inductive step : run -> run -> Prop :=
  | step_call r t a : clock r <= t -> step r {| st := debounced t a (st r); clock := t; last_call := Some (t, a) |}
  | step_fire r i due t : (i, due) ∈ timers (st r) -> due <= t -> clock r <= t ->
      step r {| st := fire i t (st r); clock := t; last_call := last_call r |}
  | step_flush r t : clock r <= t -> step r {| st := flush t (st r); clock := t; last_call := last_call r |}
  | step_cancel r t : clock r <= t -> step r {| st := cancel (st r); clock := t; last_call := None |}.

Definition begin : run := {| st := fresh_closure; clock := 0; last_call := None |}.

(** ** Trailing calls *)

(** The timer that is set is due [wait] after the last call at the latest, and it is set while
    arguments wait. *)
Record waiting (r : run) : Prop := {
  w_call : lastCallTime (st r) = fst <$> last_call r;
  w_clock t a : last_call r = Some (t, a) -> t <= clock r;
  w_args a : lastArgs (st r) = Some a -> (exists t, last_call r = Some (t, a)) /\ timerId (st r) <> None;
  w_timer i : timerId (st r) = Some i -> exists due t a, (i, due) ∈ timers (st r) /\ last_call r = Some (t, a) /\ due <= t + wait c
}.

Context (c_leading : leading c = false) (c_maxing : maxing c = false) (c_trailing : trailing c = true) (c_wait : 0 <= wait c).

Lemma shouldInvoke_iff r t : waiting r -> clock r <= t ->
  shouldInvoke t (st r) = match last_call r with Some (t0, _) => wait c <=? t - t0 | None => true end.
Proof.
  intros [Hc Hk _ _] Ht. unfold shouldInvoke, sinceCall. rewrite Hc, c_maxing. destruct (last_call r) as [[t0 a]|]; [|done]. cbn.
  specialize (Hk t0 a eq_refl). rewrite orb_false_r. destruct (Z.ltb_spec (t - t0) 0); [lia|]. by rewrite orb_false_r.
Qed.

Lemma in_snoc {B} (x : B) l : x ∈ l ++ [x].
Proof. apply elem_of_app. right. by apply list_elem_of_singleton. Qed.

(** A call: the arguments wait, with a timer. *)
Lemma debounced_waiting r t a : waiting r -> clock r <= t ->
  waiting {| st := debounced t a (st r); clock := t; last_call := Some (t, a) |} /\ invoked (debounced t a (st r)) = invoked (st r) /\
  lastArgs (debounced t a (st r)) = Some a.
Proof.
  intros Hw Ht. unfold debounced. cbn [timerId set_call set_args]. destruct (timerId (st r)) as [i|] eqn:Ei.
  - rewrite c_maxing, andb_false_r. split; [|done]. destruct (w_timer r Hw i Ei) as (due & t0 & a0 & Hin & Hl & Hdue). pose proof (w_clock r Hw t0 a0 Hl).
    split; cbn.
    + done.
    + intros ? ? [= <- <-]. lia.
    + intros ? [= <-]. split; [by eexists|by rewrite Ei].
    + rewrite Ei. intros ? [= <-]. exists due, t, a. split; [done|]. split; [done|lia].
  - unfold leadingEdge. rewrite c_leading. destruct (shouldInvoke t (st r)); (split; [|done]); split; cbn; try done;
      try (by intros ? ? [= <- <-]); try (intros ? [= <-]; split; [by eexists|done]);
      (intros ? [= <-]; exists (t + Z.max 0 (wait c)), t, a; split; [apply in_snoc|split; [done|lia]]).
Qed.

(** A timer: before [wait] is over the timer is set anew, after it the function is called. *)
Lemma fire_waiting r i t : waiting r -> clock r <= t -> waiting {| st := fire i t (st r); clock := t; last_call := last_call r |}.
Proof.
  intros Hw Ht. unfold fire, timerExpired. set (s := {| lastArgs := _ |}).
  assert (Hs : shouldInvoke t s = shouldInvoke t (st r)) by done. rewrite Hs, (shouldInvoke_iff r t Hw Ht). destruct Hw as [Hc Hk Ha Hi].
  assert (Hend : waiting {| st := trailingEdge t s; clock := t; last_call := last_call r |}).
  { unfold trailingEdge. cbn [lastArgs set_timer s]. rewrite c_trailing. unfold invokeFunc. cbn [lastArgs set_timer s].
    destruct (lastArgs (st r)) as [a|] eqn:Ea; split; cbn; try done; try (intros t0 a0 Hl; specialize (Hk t0 a0 Hl); lia); by rewrite Ea. }
  destruct (last_call r) as [[t0 a0]|] eqn:El; [|done]. destruct (Z.leb_spec (wait c) (t - t0)); [done|].
  assert (Hrem : remainingWait t s = t0 + wait c - t) by (unfold remainingWait, sinceCall; rewrite c_maxing; cbn; rewrite Hc; cbn; lia).
  split; cbn.
  - done.
  - intros t1 a1 [= <- <-]. specialize (Hk t0 a0 eq_refl). lia.
  - intros a Ea. destruct (Ha a Ea) as [H1 _]. by split.
  - intros ? [= <-]. exists (t + Z.max 0 (remainingWait t s)), t0, a0. split; [apply in_snoc|]. split; [done|]. rewrite Hrem. lia.
Qed.

Lemma flush_waiting r t : waiting r -> clock r <= t -> waiting {| st := flush t (st r); clock := t; last_call := last_call r |}.
Proof.
  intros [Hc Hk Ha Hi] Ht. unfold flush. destruct (timerId (st r)) as [i|] eqn:Ei.
  - unfold trailingEdge. cbn [lastArgs set_timer]. rewrite c_trailing. unfold invokeFunc. cbn [lastArgs set_timer].
    destruct (lastArgs (st r)) as [a|] eqn:Ea; split; cbn; try done; try (intros t0 a0 Hl; specialize (Hk t0 a0 Hl); lia); by rewrite Ea.
  - split; cbn; try done; [intros t0 a0 Hl; specialize (Hk t0 a0 Hl); lia|intros a Ea; by destruct (Ha a Ea)|by rewrite Ei].
Qed.

Lemma step_waiting r r' : step r r' -> waiting r -> waiting r'.
Proof.
  destruct 1 as [r t a Ht|r i due t _ _ Ht|r t Ht|r t Ht]; intros Hw.
  - by apply debounced_waiting.
  - by apply fire_waiting.
  - by apply flush_waiting.
  - unfold cancel. destruct (timerId (st r)); by split.
Qed.

Lemma reach_waiting r : rtc step begin r -> waiting r.
Proof. apply (rtc_ind_r waiting); [by split|]. intros r1 r2 _ H Hw. by eapply step_waiting. Qed.

(** What a timer does with waiting arguments. *)
Lemma fire_invoked r i t : waiting r -> clock r <= t ->
  invoked (fire i t (st r)) = match lastArgs (st r), last_call r with
    | Some a, Some (t0, _) => if wait c <=? t - t0 then invoked (st r) ++ [(t, a)] else invoked (st r)
    | _, _ => invoked (st r)
    end.
Proof.
  intros Hw Ht. unfold fire, timerExpired. set (s := {| lastArgs := _ |}). change (shouldInvoke t s) with (shouldInvoke t (st r)).
  rewrite (shouldInvoke_iff r t Hw Ht). destruct Hw as [_ _ Ha _]. unfold trailingEdge, invokeFunc. cbn [lastArgs set_timer s]. rewrite c_trailing.
  destruct (lastArgs (st r)) as [a|] eqn:Ea; [|by destruct (last_call r) as [[t0 a0]|]; [destruct (_ <=? _)|]].
  destruct (Ha a eq_refl) as [[t0 ->] _]. by destruct (_ <=? _).
Qed.
End Config.

(** C39: A function debounced without options that delay or hasten it (leading false, no maxWait,
    trailing true), in any run of calls, timers, [flush] and [cancel] under a clock that does not go back:
    a call of the debounced function never calls the function at once; a timer calls it, if at all, with
    the arguments of the last call and not before [wait] is over since then; after a call arguments wait
    that a timer due by then, and any that runs after it, delivers; [flush] delivers waiting arguments at
    once, and calls nothing where none wait; and [cancel] drops them. *)
Theorem debounce_delivers (c : config) r : leading c = false -> maxing c = false -> trailing c = true -> 0 <= wait c -> rtc (step c) begin r ->
  (forall t a, clock r <= t -> lastArgs (debounced c t a (st r)) = Some a /\ invoked (debounced c t a (st r)) = invoked (st r)) /\
  (forall i t, clock r <= t -> invoked (fire c i t (st r)) = invoked (st r) \/
     exists t0 a, last_call r = Some (t0, a) /\ t0 + wait c <= t /\ invoked (fire c i t (st r)) = invoked (st r) ++ [(t, a)]) /\
  (forall a, lastArgs (st r) = Some a -> exists t0 i due, last_call r = Some (t0, a) /\ (i, due) ∈ timers (st r) /\ due <= t0 + wait c /\
     forall j t, clock r <= t -> t0 + wait c <= t -> invoked (fire c j t (st r)) = invoked (st r) ++ [(t, a)]) /\
  (forall t, invoked (flush c t (st r)) = invoked (st r) ++ match lastArgs (st r) with Some a => [(t, a)] | None => [] end /\
     lastArgs (flush c t (st r)) = None) /\
  (lastArgs (cancel (st r)) = None /\ invoked (cancel (st r)) = invoked (st r)).
Proof.
  intros Hl Hm Ht Hw Hr. pose proof (reach_waiting c Hl Hm Ht Hw r Hr) as W. split; [|split; [|split; [|split]]].
  - intros t a Hk. by destruct (debounced_waiting c Hl Hm Hw r t a W Hk) as (_ & ? & ?).
  - intros i t Hk. rewrite (fire_invoked c Hm Ht r i t W Hk). destruct (lastArgs (st r)) as [a|] eqn:Ea; [|by left]. destruct (w_args c r W a Ea) as [[t0 E] _]. rewrite E.
    destruct (Z.leb_spec (wait c) (t - t0)); [|by left]. right. exists t0, a. split; [done|]. split; [lia|done].
  - intros a Ea. destruct (w_args c r W a Ea) as [[t0 E] Hi]. destruct (timerId (st r)) as [i|] eqn:Ei; [|done].
    destruct (w_timer c r W i Ei) as (due & t1 & a1 & Hin & E1 & Hdue). rewrite E in E1. injection E1 as <- <-. exists t0, i, due.
    split; [done|]. split; [done|]. split; [done|]. intros j t Hk Hle. rewrite (fire_invoked c Hm Ht r j t W Hk), Ea, E. destruct (Z.leb_spec (wait c) (t - t0)); [done|lia].
  - intros t. unfold flush, trailingEdge, invokeFunc. cbn [lastArgs set_timer]. rewrite Ht. destruct (lastArgs (st r)) as [a|] eqn:Ea.
    + destruct (w_args c r W a Ea) as [_ Hi]. by destruct (timerId (st r)).
    + rewrite app_nil_r. by destruct (timerId (st r)).
  - unfold cancel. by destruct (timerId (st r)).
Qed.
End Debounce.

(** Two calls 10 ms apart: the timer of the first is set anew, and delivers the second. *)
Definition ex_config : config := configure 35 None.
Definition ex_run : run := {| st := debounced id ex_config 110 8 (debounced id ex_config 100 7 fresh_closure); clock := 110; last_call := Some (110, 8) |}.

Lemma ex_run_reached : rtc (step id ex_config) begin ex_run.
Proof.
  set (r1 := {| st := debounced id ex_config 100 7 fresh_closure; clock := 100; last_call := Some (100, 7) |}).
  apply (rtc_l _ _ r1); [apply (step_call id ex_config begin); cbn; lia|]. apply rtc_once. apply (step_call id ex_config r1). cbn. lia.
Qed.

Lemma debounce_delivers_witness :
  invoked (fire id ex_config 0 150 (st ex_run)) = [(150, 8)] /\ invoked (fire id ex_config 0 135 (st ex_run)) = [] /\
  timers (fire id ex_config 0 135 (st ex_run)) = [(1%nat, 145)].
Proof.
  destruct (debounce_delivers id ex_config ex_run) as (_ & _ & H & _); [reflexivity|reflexivity|reflexivity|discriminate|exact ex_run_reached|].
  destruct (H 8 eq_refl) as (t0 & i & due & E & _ & _ & Hd). injection E as <-. split; [|split; reflexivity].
  apply Hd; cbn; lia.
Defined.
